(* ===== verification/_CoqProject ===== *)
-Q . S2P
Prelude.v
Num.v
JsString.v
JsValue.v
Cron.v
Manifest.v
Graph.v
PromptBudget.v
RateLimiter.v
WallClock.v
CostGuard.v
SessionBudget.v
Principal.v
BulkData.v
BulkLedger.v
BulkLaws.v
BulkApply.v
BulkUndo.v
IsoTime.v
Triggers.v
PlanPause.v
PlanTakeover.v
TriggerLaws.v
PlanLaws.v
OauthState.v
MandateEnds.v
RunBuffer.v
ToolPairs.v
IpAddr.v
Egress.v
EgressRegistry.v
EgressPolicy.v
ClientIp.v
RunSource.v
StepContext.v
WorkflowParams.v
ApprovalStore.v
Runner.v
BashLex.v
BashProof.v
BashLaws.v
MailBody.v
Sending.v
Executor.v
ExecutorLaws.v
Glob.v
Contract.v
ContractLaws.v
ContractParams.v
Grant.v
GrantLaws.v
