(* ===== verification/Prelude.v ===== *)
(** * Lynox: a verification development

    Lynox (sources under [src/src/]) is an engine in which language-model agents act for a person: it
    runs workflows of agent steps, spends money on model calls, reaches out to the network and acts
    for people who were lent access. This development models the parts that decide what such an agent
    may do, translated function by function, and proves what they promise.

    ** The parts and their files

    - Shared: this file (results that return or throw, JavaScript's insertion-ordered [Map] and [Set],
      loops that fill maps), [Num] (numbers with NaN and the infinities), [JsString] (code units below
      256, trimming, splitting, [parseInt]), [JsValue] (JavaScript values, property reads through
      prototypes, [String], [Number], [JSON.stringify]), [Manifest] (the workflow records of
      [types/orchestration.ts]).
    - Workflows: [Graph] ([orchestrator/graph.ts]: adjacency, cycle search, phases, validation),
      [StepContext] ([conditions.ts], [context.ts]: what a step sees, its conditions, its placeholders),
      [WorkflowParams] ([workflow-params.ts]), [PromptBudget] ([prompt-budget.ts]), [RunSource]
      ([run-source.ts]: whose access a run needs and whom it is for) and [Runner] ([runner.ts]: the
      refusals before a run, one step between its awaits, phases, the bound on parallel steps, halts).
      [Runner] calls [Graph] for its phases, [StepContext] for a step's context and conditions,
      [RunSource] before each step, [SessionBudget] and [CostGuard] for the charge of an agent.
    - Money and load: [CostGuard] ([core/cost-guard.ts], [core/pricing.ts]), [SessionBudget]
      ([core/session-budget.ts]), [RateLimiter] ([core/rate-limiter.ts]), [WallClock]
      ([server/wall-clock-budget.ts]).
    - People: [Principal] ([core/request-principal.ts]), [MandateEnds] ([core/mandate-ends.ts]).
      [RunSource] asks [Principal] whose mark a workflow carries and [MandateEnds] whether its grant
      is live.
    - Conversations: [RunBuffer] ([core/run-buffer.ts]), [ToolPairs] ([core/tool-pair-sanitizer.ts]).
    - Approvals: [ApprovalStore] ([core/approval-store.ts]: the queue of mails an unattended run filed,
      from filing over decision, claim and outcome to expiry), [MailBody] ([integrations/mail/body-reflow.ts]),
      [Sending] (the caps, the window against repeats, accounts, gates and commits of a mail:
      [send-core.ts], [tools/rate-limit.ts], [tools/registry.ts], [tools/mail-reply.ts]) and [Executor]
      ([core/approval-executor.ts]: the tick that claims an approved mail, checks it again and sends it
      under a deadline). [Executor] calls [ApprovalStore] for the table and [Sending] for the mail;
      [ExecutorLaws] proves what any number of such processes do together.
    - Bulk changes: [BulkData] (images, comparison, diff), [BulkLedger] ([core/bulk-ledger.ts]: the table
      of runs and targets and every operation that changes it), [BulkLaws] (a step relation over those
      operations, what every reachable ledger satisfies, what an approval freezes), [BulkApply]
      ([core/bulk-apply.ts]: the guards of an approved run, one pass over its targets, stop and rollback)
      and [BulkUndo] (the workspace writer of the same file over a map of files, and an apply
      taken back by its undo). [BulkApply] is proved against [BulkLaws]: an effect is a sequence of its
      steps; [BulkUndo] instantiates its writer.
    - Schedules and who they wait for: [IsoTime] (times as texts), [Triggers] ([core/trigger-store.ts]: the
      table of schedules, who fires, the owner's stamp, the lease of a run), [PlanPause]
      ([core/plan-pause.ts]: the pause of plans whose helper's access ended, the sweeps that write it, the
      warnings before) and [PlanTakeover] ([core/plan-takeover.ts] and the stamp of [core/plan-stamp.ts]:
      what the owner is shown of a paused plan and the transaction that takes it over). [TriggerLaws] puts
      every call of the three on one table into one trace and says what one call may do to one row;
      [PlanLaws] holds the theorems about sweeps, warnings and takeovers. [Principal] says who a plan
      depends on, [Cron] when it is next due.
    - Time and logins: [Cron] ([core/cron-parser.ts]), [OauthState] ([core/oauth-state-cookie.ts] and the
      part of the callback route of [server/http-api.ts] that accepts a cookie).
    - Network: [IpAddr] and [Egress] ([core/network-guard.ts], [core/shopify-host.ts]),
      [EgressRegistry] and [EgressPolicy] ([egress-proxy/registry.ts], [egress-proxy/policy.ts]),
      [ClientIp] ([server/client-ip.ts]).

    - Commands: [BashLex] and [BashProof] ([tools/bash-allowlist.ts]: the lexer of a command line, the table
      of programs, options, paths and roots), [BashLaws] (how getopt reads arguments, a store with
      symbolic links and the kernel's walk through it, what a proven command reaches).
    - Grants: [Glob] ([core/glob.ts]: the globs of a contract's hosts and paths), [Contract]
      ([orchestrator/contract-validation.ts] and [contractGrants] of [tools/permission-guard.ts]: which
      contract a workflow may carry, the one derived from its steps, the one a person typed, and what it
      grants a call) and [Grant] ([core/workflow-grant.ts] over the rows of [core/workflow-store.ts]: the
      dialog, the acceptance, the check of every run). [Contract] calls [Glob], the parameters' constraints
      of [WorkflowParams] and, against the placeholders of [StepContext], is what [ContractParams] proves;
      [ContractLaws] and [GrantLaws] hold the other theorems. [Grant] binds what was shown by the
      canonical texts of [BulkData].

    Each translated definition carries the file and the lines it translates in the comment before it
    ([@src]). A TypeScript [throw] is [Err], a class is a record with one function per method, the clock,
    the environment, SQL rows and the answers of other services are arguments.

    ** What the theorems show

    - A run: the phases are a topological order and a step always finds the outputs it reads
      ([Graph.computePhases_correct], [Runner.steps_find_their_inputs]); a declared approval is never
      skipped under any interleaving ([Runner.gates_are_never_skipped]); a stop, a missing answer or an
      ended maker lets no further step start, and the cause is final
      ([Runner.nothing_starts_after_a_stop], [Runner.ended_run_stays_ended]); every schedule is finite
      and bounded in width, with no worker of a phase idle ([Runner.runs_terminate],
      [Runner.parallel_steps_are_bounded]); what a step
      reads, what its conditions see, and that foreign values stay behind a fence ([StepContext]); what
      may be bound to a parameter ([WorkflowParams]).
    - Who may run: exactly the live maker's workflows start, and a conversation's run is never wider
      than its caller ([RunSource]); marks and liveness of mandates against a specification over the
      trace of logins and revocations, with the login cache shown invisible ([Principal],
      [MandateEnds]).
    - Limits: holds never overcommit, bookings add up, malformed figures fail closed or, where they do
      not, what then happens ([CostGuard], [SessionBudget]); sliding windows ([RateLimiter]).
    - Delivery: a reconnecting client sees a gapless stream or is told of the gap ([RunBuffer]); a
      history sent to the provider pairs every tool use with its result ([ToolPairs]).
    - Approvals, over every interleaving of filings, decisions, holds, claims, outcomes and sweeps
      ([ApprovalStore]): only what its owner approved, as it was shown, is claimed
      ([claims_what_was_approved]); attempts are at most three and each follows a proven failure
      ([claimed_once_per_retry]); the same mail is neither open twice nor sent twice within its window
      ([same_mail_is_spaced]); the send limit ([send_limit_holds]); who writes which status
      ([each_status_has_one_writer]); what a sweep leaves ([sweep_settles]).
    - Mails, over every interleaving of ticks of any number of processes, answers, deadlines, outcomes and
      crashes with everything else done to the queue ([ExecutorLaws]): a mail is handed to a provider at
      most once and its status says whether it was ([the_queue_tells_what_went_out]); what is handed over
      is what the owner approved, checked at its claim and right before the send
      ([what_goes_out_was_approved]). The reflow of a body keeps its words
      ([MailBody.reflow_keeps_the_words]) and changes nothing the second time
      ([MailBody.reflow_is_idempotent]); a mail that went out blocks its repeats for exactly the window
      ([Sending.a_repeat_is_blocked]), and the queue stays below the caps ([Sending.admits_below]).
    - Bulk changes, over every interleaving of plannings, reads, judgements, approvals, undos, halts and
      writes ([BulkLaws]): a family of runs has one writer ([a_family_has_one_writer]), one host read and
      one judge at a time ([one_read_and_one_judge]), at most ten plans wait and none makes room at
      another's expense ([waiting_plans_are_capped]), and what is written is, target by target, what the
      owner was shown ([writes_what_was_shown]). Of one effect, whatever the writer, the clock and the
      others do meanwhile ([BulkApply]): it is steps of the ledger ([an_effect_is_ledger_steps]), it writes
      only what it has just read to be as shown ([foreign_changes_are_kept]), it keeps the cap and the
      failure limit ([the_cap_holds], [failures_are_bounded]), it does not repeat a send of unclear effect
      ([an_unclear_send_is_not_repeated]), and a rollback it calls complete is ([a_complete_rollback_restored]).
      Where nobody interferes, a pass over files of the workspace writes every one of them
      ([an_undisturbed_run_is_written]), and its undo puts every file back ([an_undo_restores_the_files]).
    - Triggers, over every sequence of calls by every engine on the file ([TriggerLaws]): what the tick
      starts was stamped as it is ([what_runs_was_stamped]), a lease is exclusive
      ([a_live_lease_is_exclusive]), a wait ends once ([a_wait_ends_once]), the owner is reminded once per
      stretch without a stamp ([one_reminder_per_phase]), a paused plan waits for its takeover
      ([a_paused_plan_waits_for_its_owner]). Of the sweeps and takeovers ([PlanLaws]): no plan with a
      proven end among its members escapes ([no_ended_plan_escapes_a_sweep]), nothing else is paused
      ([a_sweep_pauses_only_for_proven_ends]), nobody is warned twice of one end
      ([no_end_is_warned_of_twice]); a takeover puts whole plans back or changes nothing
      ([a_takeover_frees_whole_plans]) and does what the owner was shown
      ([a_takeover_does_what_was_shown]).
    - Commands: the lexer accepts exactly the texts of a grammar stated by rules
      ([BashLex.lex_reads_the_grammar]), options are read as getopt reads them
      ([BashLaws.options_are_read_as_getopt_reads_them]), and whatever a proven command opens lies, behind
      every link, inside a root, unhidden and not sensitive ([BashLaws.a_proven_command_stays_inside]);
      one way around it, a link named by a dash behind [ls], is [BashLaws.ls_lists_a_link_named_dash].
    - Grants, over every sequence of acceptances and other changes to a workflow ([GrantLaws]): a run carries
      a contract only as a person accepted it ([only_an_accepted_grant_is_carried]), and does carry it until
      something it was bound to changes ([an_accepted_grant_is_carried]). What a contract says: one built from
      a person's entry lifts exactly the calls it lists, one minted from steps grants what some step performs
      ([ContractLaws]); what a governed workflow's calls read of its parameters is constrained
      ([ContractParams.governed_calls_read_constrained_parameters]), with the two placeholders the save
      overlooks as [the_whole_parameters_reach_a_call] and [a_name_with_a_blank_reaches_a_call]. A glob's
      pattern never holds two unbounded runs in a row and matches what the glob says
      ([Glob.globs_match_what_they_say]), which bounds no matching time
      ([Glob.runs_apart_are_tried_together]); a host glob with a fixed end is never over-broad
      ([Glob.a_fixed_end_is_not_overbroad]).
    - Schedules and logins: the next run of a schedule is the first due minute, schedules recur, and which
      valid ones have no next time ([Cron]); a login cookie is accepted once and comes back as it was signed ([OauthState]).
    - The network: every spelling of an address is judged by its bytes ([IpAddr]); the host policy, and
      that no redirect carries a body or a header of the listed names off its origin, while a key under
      another name goes along ([Egress]); lookups agree with the
      last registration and no tunnel is lost ([EgressRegistry]); hello parsing is total, final and
      independent of fragmentation ([EgressPolicy]); a forwarded header cannot forge an address
      ([ClientIp]).
    - Five theorems describe behaviour that differs from what the code sets out to do:
      [Graph.computePhases_rejects_repeated_dependency], [SessionBudget.nan_estimate_disables_admission],
      [EgressRegistry.replace_during_resolution_leaves_tunnel], [StepContext.inherited_member_reaches_call],
      [Cron.valid_schedules_without_a_next_time].

    ** Fuel and bounds

    Loops of the code that are not structural take fuel computed from the input, and a theorem shows it
    is enough: [Graph] (a count of unvisited edges, the number of steps), [ToolPairs] (the length of the
    history), [Egress] (the redirect limit of the code itself), [StepContext.scan] and the parsers of
    [IpAddr] and [EgressPolicy] (the length of the text), [Executor.try_candidates] (two restarts, which
    [ExecutorLaws.two_restarts_are_enough] shows to suffice). A run needs none: [Runner] is a transition
    function over a list of actions, and [Runner.runs_terminate] bounds the list. The climb through the
    sources of a bulk run takes the number of rows, and [BulkLaws.root_of_spec] and
    [BulkLaws.ancestor_descends] show that it reaches the root; where the code itself climbs at most 64
    sources, so does [BulkLedger]. A pass of [BulkApply] is structural in its list of targets.

    ** Idealisations

    Finite numbers are rationals: rounding and overflow of binary64 sums are not modelled, NaN and the
    infinities are. A string is a list of code units below 256. Iris-style ownership is not needed:
    JavaScript runs one callback at a time, so concurrency is the order of the stretches between awaits,
    which [Runner] takes as an arbitrary list of actions (the workers of a bounded phase take steps one by
    one; that they return when none is left is part of the phase's end) and [RunBuffer], [EgressRegistry],
    [ApprovalStore], [SessionBudget], [CostGuard] and [TriggerLaws] as arbitrary sequences of calls, and [Executor] as arbitrary
    lists of actions, the timer and the end of a process among them. [BulkApply] runs
    against an outside with a state of its own that may change the ledger at every await. A transaction of
    the ledger is one step; encryption of its cells is left out. A statement on the table of triggers is one
    step too, its conditions are boolean functions of a row, and a digest is a function, injective where a
    theorem says so. The acceptance of a grant has no await
    in it, so it is one step.

    ** Not modelled

    What other people's software does is an argument: language models and their providers, SQLite, HTTP
    and TLS, [URL], [RegExp], [Date.parse]. Of the bulk ledger: the views for the interface, the texts
    of a shop's statements, the encryption of cells. Of mails: the confirmation shown before a send, the
    follow-ups and the sent log behind it, what a reply reads from the inbox, the note in the thread and
    the end row of the trail; between an attempt's check of the sending address and its send, [sendMail]
    looks the account up once more behind an await, and that provider's address is not compared again.
    Left out: the task manager's half of the triggers ([core/task-manager.ts]), which builds the rows
    [Triggers] writes; the tier resolver ([core/tier-resolver.ts]), tables the host overrides; the
    artifacts ([core/artifact-eviction.ts]) and, of the permission guard ([tools/permission-guard.ts]),
    everything but [contractGrants], decided by the file system and the host's [RegExp]; of the contracts,
    the ones minted in a process for one bulk run and the recognition of GraphQL endpoints and mail
    providers by their address; the texts of
    [core/approval-filing.ts]; the web interface, the connectors to mailboxes, calendars and storage
    services, the agent loop and the tools it calls, the database
    schemas and migrations, the prompts. *)
From stdpp Require Export base tactics option list gmap sets strings sorting relations.
From Stdlib Require Export ZArith Lia.

Declare Scope lynox_scope.
Delimit Scope lynox_scope with lynox.
Open Scope lynox_scope.

Create HintDb lynox.

(** ** Results: a call that returns or throws *)

(** [Ok a]: the function returned [a]; [Err e]: it threw [e]. *)
Inductive result (E A : Type) : Type :=
| Ok (a : A)
| Err (e : E).
Arguments Ok {E A} a.
Arguments Err {E A} e.

#[export] Instance result_ret E : MRet (result E) := fun A a => Ok a.
#[export] Instance result_bind E : MBind (result E) := fun A B f m =>
  match m with Ok a => f a | Err e => Err e end.
#[export] Instance result_fmap E : FMap (result E) := fun A B f m =>
  match m with Ok a => Ok (f a) | Err e => Err e end.

Definition is_ok {E A} (m : result E A) : bool :=
  match m with Ok _ => true | Err _ => false end.

Lemma bind_Ok {E A B} (f : A -> result E B) (m : result E A) b :
  (m ≫= f) = Ok b <-> exists a, m = Ok a /\ f a = Ok b.
Proof. destruct m; simpl; naive_solver. Qed.

Lemma bind_Err {E A B} (f : A -> result E B) (m : result E A) e :
  (m ≫= f) = Err e <-> m = Err e \/ exists a, m = Ok a /\ f a = Err e.
Proof. destruct m; simpl; naive_solver. Qed.

(** [throw_if b e]: the guard [if (b) throw e]. *)
Definition throw_if {E} (b : bool) (e : E) : result E unit :=
  if b then Err e else Ok tt.

(** The first [Err] of a loop [for (const x of l) f(x)]. *)
Fixpoint for_each {E A} (f : A -> result E unit) (l : list A) : result E unit :=
  match l with
  | [] => Ok tt
  | x :: l' => match f x with Ok _ => for_each f l' | Err e => Err e end
  end.

Lemma for_each_Ok {E A} (f : A -> result E unit) l :
  for_each f l = Ok tt <-> forall x, x ∈ l -> f x = Ok tt.
Proof.
  induction l as [|x l IH]; simpl; [set_solver|].
  destruct (f x) as [[]|e] eqn:Hx.
  - rewrite IH. split; [|set_solver].
    intros H y [->|Hy]%elem_of_cons; auto.
  - split; [done|]. intros H. rewrite H in Hx by left. done.
Qed.

Lemma for_each_Err {E A} (f : A -> result E unit) l e :
  for_each f l = Err e -> exists x, x ∈ l /\ f x = Err e.
Proof.
  induction l as [|x l IH]; simpl; [done|].
  destruct (f x) as [[]|e'] eqn:Hx; intros H.
  - destruct (IH H) as (y & ? & ?). exists y. split; [by right|done].
  - simplify_eq. exists x. split; [by left|done].
Qed.

(** ** JavaScript's insertion-ordered [Map] and [Set] *)

(** A [Map<string, V>] is its entries in insertion order. [set] on a present key keeps the
    key's position and replaces its value, as JavaScript does. *)
Section JsMap.
Context {V : Type}.
Implicit Types m : list (string * V).

Fixpoint jm_get (m : list (string * V)) (k : string) : option V :=
  match m with
  | [] => None
  | (k', v) :: m' => if decide (k' = k) then Some v else jm_get m' k
  end.

Fixpoint jm_set (m : list (string * V)) (k : string) (v : V) : list (string * V) :=
  match m with
  | [] => [(k, v)]
  | (k', v') :: m' => if decide (k' = k) then (k', v) :: m' else (k', v') :: jm_set m' k v
  end.

Fixpoint jm_del (m : list (string * V)) (k : string) : list (string * V) :=
  match m with
  | [] => []
  | (k', v') :: m' => if decide (k' = k) then m' else (k', v') :: jm_del m' k
  end.

Definition jm_keys m : list string := m.*1.
Definition jm_has m k : bool := bool_decide (k ∈ jm_keys m).

Lemma jm_get_set m k v k' :
  jm_get (jm_set m k v) k' = if decide (k = k') then Some v else jm_get m k'.
Proof.
  induction m as [|[k0 v0] m IH]; simpl; [done|].
  repeat (case_decide; simpl); simplify_eq; try done; rewrite IH; by case_decide.
Qed.

Lemma jm_get_None m k : jm_get m k = None <-> k ∉ jm_keys m.
Proof.
  induction m as [|[k0 v0] m IH]; simpl; [set_solver|].
  case_decide; simplify_eq; [set_solver|]. rewrite IH. set_solver.
Qed.

Lemma jm_get_is_Some m k : is_Some (jm_get m k) <-> k ∈ jm_keys m.
Proof.
  destruct (jm_get m k) eqn:E.
  - split; [|by eauto]. intros _. destruct (decide (k ∈ jm_keys m)) as [|n]; [done|].
    apply jm_get_None in n. congruence.
  - apply jm_get_None in E. split; [by intros [? ?]|done].
Qed.

Lemma jm_keys_set m k v :
  jm_keys (jm_set m k v) = if decide (k ∈ jm_keys m) then jm_keys m else jm_keys m ++ [k].
Proof.
  unfold jm_keys. induction m as [|[k0 v0] m IH]; [done|]. cbn [jm_set].
  destruct (decide (k0 = k)) as [->|]; csimpl; [by rewrite decide_True by by left|].
  rewrite IH. destruct (decide (k ∈ m.*1)).
  - by rewrite decide_True by by right.
  - rewrite decide_False; [done|]. by intros [?|?]%elem_of_cons.
Qed.

Lemma jm_keys_set_NoDup m k v : NoDup (jm_keys m) -> NoDup (jm_keys (jm_set m k v)).
Proof.
  rewrite jm_keys_set. case_decide; [done|]. intros ?.
  apply NoDup_app. split_and!; [done|set_solver|apply NoDup_singleton].
Qed.

Lemma jm_get_del m k k' :
  NoDup (jm_keys m) ->
  jm_get (jm_del m k) k' = if decide (k = k') then None else jm_get m k'.
Proof.
  induction m as [|[k0 v0] m IH]; simpl; [by case_decide|].
  intros [? ?]%NoDup_cons. destruct (decide (k0 = k)) as [->|].
  - destruct (decide (k = k')) as [->|]; [by apply jm_get_None|done].
  - simpl. rewrite IH by done. destruct (decide (k0 = k')) as [->|]; [|done].
    by rewrite decide_False.
Qed.

Lemma jm_get_elem_of m k v : jm_get m k = Some v -> (k, v) ∈ m.
Proof.
  induction m as [|[k0 v0] m IH]; simpl; [done|].
  case_decide; intros; simplify_eq; [by left|right; auto].
Qed.
End JsMap.

(** [new Set(l)]: the distinct elements of [l] in order of first occurrence. *)
Definition js_set_add (s : list string) (x : string) : list string :=
  if decide (x ∈ s) then s else s ++ [x].
Definition js_set_of (l : list string) : list string := foldl js_set_add [] l.

Lemma elem_of_js_set_add s x y : y ∈ js_set_add s x <-> y ∈ s \/ y = x.
Proof. unfold js_set_add. case_decide; set_solver. Qed.

Lemma js_set_add_NoDup s x : NoDup s -> NoDup (js_set_add s x).
Proof.
  unfold js_set_add. case_decide; [done|]. intros ?.
  apply NoDup_app. split_and!; [done|set_solver|apply NoDup_singleton].
Qed.

Lemma elem_of_foldl_js_set_add l s y : y ∈ foldl js_set_add s l <-> y ∈ s \/ y ∈ l.
Proof.
  revert s. induction l as [|x l IH]; intros s; simpl; [set_solver|].
  rewrite IH, elem_of_js_set_add. set_solver.
Qed.

Lemma elem_of_js_set_of l y : y ∈ js_set_of l <-> y ∈ l.
Proof. unfold js_set_of. rewrite elem_of_foldl_js_set_add. set_solver. Qed.

Lemma foldl_js_set_add_NoDup l s : NoDup s -> NoDup (foldl js_set_add s l).
Proof. revert s. induction l; intros s ?; simpl; auto using js_set_add_NoDup. Qed.

Lemma js_set_of_NoDup l : NoDup (js_set_of l).
Proof. apply foldl_js_set_add_NoDup, NoDup_nil_2. Qed.

Lemma foldl_js_set_add_fresh l s :
  NoDup l -> (forall x, x ∈ l -> x ∉ s) -> foldl js_set_add s l = s ++ l.
Proof.
  revert s. induction l as [|x l IH]; intros s; simpl; [by rewrite app_nil_r|].
  intros [Hx Hl]%NoDup_cons Hs. unfold js_set_add at 2.
  rewrite decide_False by (apply Hs; left).
  rewrite IH; [by rewrite <-app_assoc|done|].
  intros y Hy. rewrite elem_of_app, list_elem_of_singleton.
  intros [?| ->]; [|done]. apply (Hs y); [by right|done].
Qed.

Lemma js_set_of_id l : NoDup l -> js_set_of l = l.
Proof. intros. unfold js_set_of. rewrite foldl_js_set_add_fresh; set_solver. Qed.

(** A map filled by a loop [for (const x of l) m.set(k(x), f(x))]. *)
Section JsMapFill.
Context {A V : Type} (k : A -> string) (f : A -> V).

Definition jm_fill (m : list (string * V)) (l : list A) : list (string * V) :=
  foldl (fun m x => jm_set m (k x) (f x)) m l.

Lemma jm_fill_keys m l : jm_keys (jm_fill m l) = foldl js_set_add (jm_keys m) (k <$> l).
Proof.
  revert m. induction l as [|x l IH]; intros m; [done|]. cbn [jm_fill foldl]. csimpl.
  unfold jm_fill in IH. by rewrite IH, jm_keys_set.
Qed.

Lemma jm_fill_get_other m l j : j ∉ k <$> l -> jm_get (jm_fill m l) j = jm_get m j.
Proof.
  revert m. induction l as [|x l IH]; intros m; [done|]. csimpl.
  intros [? ?]%not_elem_of_cons. unfold jm_fill in *. rewrite IH by done.
  rewrite jm_get_set. by rewrite decide_False.
Qed.

Lemma jm_fill_get m l x : NoDup (k <$> l) -> x ∈ l -> jm_get (jm_fill m l) (k x) = Some (f x).
Proof.
  revert m. induction l as [|y l IH]; intros m; [by intros _ []%elem_of_nil|].
  csimpl. intros [Hy Hl]%NoDup_cons [->|Hx]%elem_of_cons.
  - cbn [jm_fill foldl]. fold (jm_fill (jm_set m (k y) (f y)) l).
    rewrite jm_fill_get_other by done. rewrite jm_get_set. by rewrite decide_True.
  - by apply IH.
Qed.
End JsMapFill.

(** The same loop on a map whose order does not matter. *)
Section GmapFill.
Context {A V : Type} (k : A -> string) (f : A -> V).

Definition gm_fill (m : gmap string V) (l : list A) : gmap string V :=
  foldl (fun m x => <[k x := f x]> m) m l.

Lemma gm_fill_other m l j : j ∉ k <$> l -> gm_fill m l !! j = m !! j.
Proof.
  revert m. induction l as [|x l IH]; intros m; [done|]. csimpl.
  intros [? ?]%not_elem_of_cons. unfold gm_fill in *. rewrite IH by done.
  by rewrite lookup_insert_ne.
Qed.

Lemma gm_fill_lookup m l x : NoDup (k <$> l) -> x ∈ l -> gm_fill m l !! k x = Some (f x).
Proof.
  revert m. induction l as [|y l IH]; intros m; [by intros _ []%elem_of_nil|].
  csimpl. intros [Hy Hl]%NoDup_cons [->|Hx]%elem_of_cons; [|by apply IH].
  cbn [gm_fill foldl]. fold (gm_fill (<[k y := f y]> m) l).
  rewrite gm_fill_other by done. apply lookup_insert_eq.
Qed.
End GmapFill.

#[export] Hint Resolve js_set_of_NoDup js_set_add_NoDup jm_keys_set_NoDup : lynox.
#[export] Hint Rewrite @jm_get_set @jm_keys_set elem_of_js_set_of elem_of_js_set_add : lynox.
