(* ===== verification/Num.v ===== *)
(** JavaScript numbers where their arithmetic matters: NaN, the two infinities and finite values.

    A finite number is a rational; binary64 rounding and overflow to infinity are not modelled.
    NaN and the infinities behave as IEEE 754 says, which is what the budget code is written
    around: a comparison with NaN is false, and [Math.max] and [Math.min] propagate NaN. *)
From S2P Require Import Prelude.
From Stdlib Require Export QArith Lqa Qminmax Qround.
Close Scope Q_scope.

Inductive num : Set := NaN | NInf | PInf | Fin (q : Q).

Declare Scope num_scope.
Delimit Scope num_scope with num.
Bind Scope num_scope with num.

(** [x < y] on finite values as a boolean. *)
Definition Qltb (x y : Q) : bool := negb (Qle_bool y x).

Definition num_ltb (a b : num) : bool :=
  match a, b with
  | NaN, _ | _, NaN => false
  | NInf, NInf => false
  | NInf, _ => true
  | _, NInf => false
  | PInf, _ => false
  | _, PInf => true
  | Fin x, Fin y => Qltb x y
  end.

Definition num_eqb (a b : num) : bool :=
  match a, b with
  | NInf, NInf | PInf, PInf => true
  | Fin x, Fin y => Qeq_bool x y
  | _, _ => false
  end.

(** [a <= b]: false when either side is NaN. *)
Definition num_leb (a b : num) : bool := num_ltb a b || num_eqb a b.

Definition num_opp (a : num) : num :=
  match a with NaN => NaN | NInf => PInf | PInf => NInf | Fin x => Fin (- x) end.

Definition num_add (a b : num) : num :=
  match a, b with
  | NaN, _ | _, NaN => NaN
  | Fin x, Fin y => Fin (x + y)
  | Fin _, i => i
  | i, Fin _ => i
  | PInf, PInf => PInf
  | NInf, NInf => NInf
  | _, _ => NaN
  end.

Definition num_sub (a b : num) : num := num_add a (num_opp b).

(** An infinity scaled by the sign of a finite factor. *)
Definition inf_times (positive : bool) (x : Q) : num :=
  match Qcompare x 0 with
  | Eq => NaN
  | Gt => if positive then PInf else NInf
  | Lt => if positive then NInf else PInf
  end.

Definition num_mul (a b : num) : num :=
  match a, b with
  | NaN, _ | _, NaN => NaN
  | Fin x, Fin y => Fin (x * y)
  | PInf, Fin x | Fin x, PInf => inf_times true x
  | NInf, Fin x | Fin x, NInf => inf_times false x
  | PInf, PInf | NInf, NInf => PInf
  | _, _ => NaN
  end.

(** [Math.max] and [Math.min] of two numbers. *)
Definition num_max (a b : num) : num :=
  match a, b with
  | NaN, _ | _, NaN => NaN
  | _, _ => if num_ltb a b then b else a
  end.

Definition num_min (a b : num) : num :=
  match a, b with
  | NaN, _ | _, NaN => NaN
  | _, _ => if num_ltb a b then a else b
  end.

(** [Number.isFinite]. *)
Definition isFinite (a : num) : bool := match a with Fin _ => true | _ => false end.

(** [Math.trunc] on a finite value. *)
Definition Qtrunc (x : Q) : Z := if Qle_bool 0 x then Qfloor x else Qceiling x.
Definition num_trunc (a : num) : num :=
  match a with Fin x => Fin (inject_Z (Qtrunc x)) | i => i end.

Abbreviation num_of_Z z := (Fin (inject_Z z)).

Infix "+" := num_add : num_scope.
Infix "-" := num_sub : num_scope.
Infix "*" := num_mul : num_scope.
Infix "<?" := num_ltb : num_scope.
Infix "<=?" := num_leb : num_scope.
Notation "a >? b" := (num_ltb b a) (only parsing) : num_scope.
Notation "a >=? b" := (num_leb b a) (only parsing) : num_scope.

(** Equality of numbers up to the representation of a rational. *)
Definition num_eq (a b : num) : Prop :=
  match a, b with
  | Fin x, Fin y => (x == y)%Q
  | NaN, NaN | PInf, PInf | NInf, NInf => True
  | _, _ => False
  end.
Infix "==" := num_eq : num_scope.

#[export] Instance num_eq_equivalence : Equivalence num_eq.
Proof.
  split.
  - intros []; simpl; done || reflexivity.
  - intros [] [] H; simpl in *; done || (symmetry; done).
  - intros [] [] [] H1 H2; simpl in *; done || (etransitivity; done).
Qed.

Lemma Qltb_lt x y : Qltb x y = true <-> (x < y)%Q.
Proof.
  unfold Qltb. rewrite negb_true_iff. destruct (Qle_bool y x) eqn:E.
  - apply Qle_bool_iff in E. split; [done|]. intros H. exfalso. lra.
  - split; [|done]. intros _. apply Qnot_le_lt. intros H. apply Qle_bool_iff in H. congruence.
Qed.

Lemma num_ltb_Fin x y : (Fin x <? Fin y)%num = true <-> (x < y)%Q.
Proof. apply Qltb_lt. Qed.

Lemma num_leb_Fin x y : (Fin x <=? Fin y)%num = true <-> (x <= y)%Q.
Proof.
  unfold num_leb. simpl. rewrite orb_true_iff, Qltb_lt, Qeq_bool_iff. split; [intros [?|?]; lra|].
  intros H. destruct (Qlt_le_dec x y); [by left|right; lra].
Qed.

Lemma num_ltb_Fin_false x y : (Fin x <? Fin y)%num = false <-> (y <= x)%Q.
Proof.
  rewrite <-not_true_iff_false, num_ltb_Fin. split; intros; [|lra]. by apply Qnot_lt_le.
Qed.

Lemma num_leb_Fin_false x y : (Fin x <=? Fin y)%num = false <-> (y < x)%Q.
Proof.
  rewrite <-not_true_iff_false, num_leb_Fin. split; intros; [|lra]. by apply Qnot_le_lt.
Qed.

(** Case analysis on every comparison of finite numbers in sight, leaving rational inequalities. *)
Ltac num_cases :=
  repeat match goal with
  | H : (Fin _ <? Fin _)%num = true |- _ => apply num_ltb_Fin in H
  | H : (Fin _ <? Fin _)%num = false |- _ => apply num_ltb_Fin_false in H
  | H : (Fin _ <=? Fin _)%num = true |- _ => apply num_leb_Fin in H
  | H : (Fin _ <=? Fin _)%num = false |- _ => apply num_leb_Fin_false in H
  | H : context [if (?a <? ?b)%num then _ else _] |- _ => destruct (a <? b)%num eqn:?
  | H : context [if (?a <=? ?b)%num then _ else _] |- _ => destruct (a <=? b)%num eqn:?
  | |- context [if (?a <? ?b)%num then _ else _] => destruct (a <? b)%num eqn:?
  | |- context [if (?a <=? ?b)%num then _ else _] => destruct (a <=? b)%num eqn:?
  end.
