(* ===== verification/JsString.v ===== *)
(** Strings as JavaScript uses them, one [ascii] per UTF-16 code unit below 256, and the number
    parsing of the language's library. *)
From S2P Require Import Prelude Num.
From Stdlib Require Export Ascii String.
Close Scope string_scope.
Abbreviation length := List.length.

Definition code (c : ascii) : Z := Z.of_N (N_of_ascii c).
Definition chars (s : string) : list ascii := list_ascii_of_string s.
Definition unchars (l : list ascii) : string := string_of_list_ascii l.

(** [/\s/] on the code units below 256. *)
Definition is_space (c : ascii) : bool :=
  let n := code c in (9 <=? n)%Z && (n <=? 13)%Z || (n =? 32)%Z || (n =? 160)%Z.
Definition is_digit (c : ascii) : bool := (48 <=? code c)%Z && (code c <=? 57)%Z.
Definition is_lower (c : ascii) : bool := (97 <=? code c)%Z && (code c <=? 122)%Z.
Definition is_upper (c : ascii) : bool := (65 <=? code c)%Z && (code c <=? 90)%Z.
Definition is_alpha (c : ascii) : bool := is_lower c || is_upper c.
(** [\w]. *)
Definition is_word (c : ascii) : bool := is_alpha c || is_digit c || (code c =? 95)%Z.
Definition digit_val (c : ascii) : Z := code c - 48.

Definition chr (n : Z) : ascii := ascii_of_N (Z.to_N n).
Definition lower_char (c : ascii) : ascii := if is_upper c then chr (code c + 32) else c.
(** [toLowerCase] on ASCII. *)
Definition toLowerCase (s : string) : string := unchars (lower_char <$> chars s).

Fixpoint drop_while {A} (f : A -> bool) (l : list A) : list A :=
  match l with [] => [] | x :: l' => if f x then drop_while f l' else l end.
Fixpoint take_while {A} (f : A -> bool) (l : list A) : list A :=
  match l with [] => [] | x :: l' => if f x then x :: take_while f l' else [] end.

Definition trim_chars (l : list ascii) : list ascii :=
  reverse (drop_while is_space (reverse (drop_while is_space l))).
(** [String.prototype.trim]. *)
Definition trim (s : string) : string := unchars (trim_chars (chars s)).

(** [s.split(sep)] for a separator of one code unit. *)
Fixpoint split_chars (sep : ascii) (l : list ascii) : list (list ascii) :=
  match l with
  | [] => [[]]
  | c :: l' =>
      if decide (c = sep) then [] :: split_chars sep l'
      else match split_chars sep l' with
           | [] => [[c]]
           | w :: ws => (c :: w) :: ws
           end
  end.
Definition split (sep : ascii) (s : string) : list string := unchars <$> split_chars sep (chars s).

Fixpoint is_prefix (p l : list ascii) : bool :=
  match p, l with
  | [], _ => true
  | a :: p', b :: l' => bool_decide (a = b) && is_prefix p' l'
  | _ :: _, [] => false
  end.
Definition startsWith (s p : string) : bool := is_prefix (chars p) (chars s).
Definition endsWith (s p : string) : bool := is_prefix (reverse (chars p)) (reverse (chars s)).
Fixpoint has_infix (p l : list ascii) : bool :=
  is_prefix p l || match l with [] => false | _ :: l' => has_infix p l' end.
Definition includes (s p : string) : bool := has_infix (chars p) (chars s).

(** The value of a run of decimal digits. *)
Definition digits_val (l : list ascii) : Z := foldl (fun n c => 10 * n + digit_val c)%Z 0%Z l.

(** A non-negative integer as a binary64 number: infinity from the rounding threshold on. *)
Definition num_of_nonneg (n : Z) : num :=
  if (2 ^ 1024 - 2 ^ 970 <=? n)%Z then PInf else num_of_Z n.

(** [parseInt(s, 10)]: leading blanks, a sign, the longest run of digits; NaN without a digit. *)
Definition parseInt (s : string) : num :=
  let l := drop_while is_space (chars s) in
  let '(neg, l) := match l with
    | c :: l' => if (code c =? 45)%Z then (true, l') else if (code c =? 43)%Z then (false, l') else (false, l)
    | [] => (false, []) end in
  match take_while is_digit l with
  | [] => NaN
  | ds => let n := num_of_nonneg (digits_val ds) in if neg then num_opp n else n
  end.

Example parseInt_1 : parseInt " 42px"%string = num_of_Z 42. Proof. reflexivity. Qed.
Example parseInt_2 : parseInt "x"%string = NaN. Proof. reflexivity. Qed.

Lemma drop_while_app {A} (f : A -> bool) l : take_while f l ++ drop_while f l = l.
Proof. induction l as [|x l IH]; simpl; [done|]. destruct (f x); simpl; congruence. Qed.

Lemma take_while_all {A} (f : A -> bool) l : forallb f (take_while f l) = true.
Proof. induction l as [|x l IH]; simpl; [done|]. destruct (f x) eqn:E; simpl; rewrite ?E; auto. Qed.

Lemma is_prefix_spec p l : is_prefix p l = true <-> exists k, l = p ++ k.
Proof.
  revert l. induction p as [|a p IH]; intros l; simpl; [naive_solver|].
  destruct l as [|b l]; [naive_solver|]. rewrite andb_true_iff, bool_decide_eq_true, IH.
  split; [intros [-> [k ->]]; by exists k|intros [k ?]; simplify_eq/=; eauto].
Qed.

Lemma is_prefix_app p k : is_prefix p (p ++ k) = true.
Proof. apply is_prefix_spec. by exists k. Qed.

Lemma chars_unchars l : chars (unchars l) = l.
Proof. apply list_ascii_of_string_of_list_ascii. Qed.
Lemma unchars_chars s : unchars (chars s) = s.
Proof. apply string_of_list_ascii_of_string. Qed.

Lemma chars_app s t : chars (s ++ t)%string = chars s ++ chars t.
Proof. unfold chars. induction s as [|c s IH]; [done|]. simpl. by rewrite IH. Qed.

Lemma take_while_stop {A} (f : A -> bool) l y r :
  forallb f l = true -> f y = false -> take_while f (l ++ y :: r) = l.
Proof.
  induction l as [|x l IH]; simpl; [by intros _ ->|]. rewrite andb_true_iff. intros [-> Hl] Hy.
  by rewrite IH.
Qed.
Lemma drop_while_stop {A} (f : A -> bool) l y r :
  forallb f l = true -> f y = false -> drop_while f (l ++ y :: r) = y :: r.
Proof.
  induction l as [|x l IH]; simpl; [by intros _ ->|]. rewrite andb_true_iff. intros [-> Hl] Hy.
  by apply IH.
Qed.

(** ** Splitting *)

(** [prepend p ws]: the pieces of [p ++ l] when [p] holds no separator. *)
Definition prepend (p : list ascii) (ws : list (list ascii)) : list (list ascii) :=
  match ws with [] => [p] | w :: ws' => (p ++ w) :: ws' end.

Lemma split_chars_ne c l : split_chars c l <> [].
Proof.
  destruct l as [|x l]; simpl; [done|]. case_decide; [done|]. by destruct (split_chars c l).
Qed.

Lemma split_chars_prepend c p l : c ∉ p -> split_chars c (p ++ l) = prepend p (split_chars c l).
Proof.
  pose proof (split_chars_ne c l) as Hne. induction p as [|x p IH]; intros Hp; simpl.
  - by destruct (split_chars c l).
  - apply not_elem_of_cons in Hp as [Hx Hp]. rewrite decide_False by done. rewrite IH by done.
    destruct (split_chars c l); [done|]. done.
Qed.

Lemma split_chars_sep c l : split_chars c (c :: l) = [] :: split_chars c l.
Proof. simpl. by rewrite decide_True. Qed.

Lemma split_chars_none c l : c ∉ l -> split_chars c l = [l].
Proof. intros H. rewrite <-(app_nil_r l) at 1. rewrite split_chars_prepend by done. simpl. by rewrite app_nil_r. Qed.

Lemma split_chars_app_sep c a b :
  split_chars c (a ++ c :: b) = split_chars c a ++ split_chars c b.
Proof.
  induction a as [|x a IH]; [apply split_chars_sep|]. cbn [app]. simpl.
  destruct (decide (x = c)); [by rewrite IH|]. rewrite IH.
  pose proof (split_chars_ne c a). by destruct (split_chars c a).
Qed.

Lemma split_chars_field c a b : c ∉ a -> split_chars c (a ++ c :: b) = a :: split_chars c b.
Proof. intros Ha. by rewrite split_chars_app_sep, split_chars_none. Qed.
