(* ===== verification/JsValue.v ===== *)
(** JavaScript values as the workflow code handles them: parsed JSON, [undefined] and what a property
    read reaches through a prototype; property access, [String], [Number] and [JSON.stringify]. *)
From S2P Require Import Prelude Num JsString.

(** [JFun f] is the library's function [f] read through a prototype, [JProto b] the prototype itself
    ([Array.prototype] when [b], else [Object.prototype]). *)
Inductive jval : Set :=
| JUndef
| JNull
| JBool (b : bool)
| JNum (n : num)
| JStr (s : string)
| JArr (l : list jval)
| JObj (fields : list (string * jval))
| JFun (name : string)
| JProto (array : bool).

Definition is_undef (v : jval) : bool := match v with JUndef => true | _ => false end.

(** ** Property access *)

Definition object_members : list string :=
  ["constructor"; "__defineGetter__"; "__defineSetter__"; "hasOwnProperty"; "__lookupGetter__";
   "__lookupSetter__"; "isPrototypeOf"; "propertyIsEnumerable"; "toString"; "valueOf"; "toLocaleString"]%string.
Definition array_members : list string :=
  ["constructor"; "at"; "concat"; "copyWithin"; "fill"; "find"; "findIndex"; "findLast"; "findLastIndex";
   "lastIndexOf"; "pop"; "push"; "reverse"; "shift"; "unshift"; "slice"; "sort"; "splice"; "includes";
   "indexOf"; "join"; "keys"; "entries"; "values"; "forEach"; "filter"; "flat"; "flatMap"; "map"; "every";
   "some"; "reduce"; "reduceRight"; "toReversed"; "toSorted"; "toSpliced"; "with"; "toString";
   "toLocaleString"]%string.

Definition proto_key : string := "__proto__".

(** What an object inherits. *)
Definition object_inherited (k : string) : jval :=
  if decide (k = proto_key) then JProto false
  else if decide (k ∈ object_members) then JFun k else JUndef.
(** What [Object.prototype] holds itself; its own prototype is [null]. *)
Definition object_proto_prop (k : string) : jval :=
  if decide (k = proto_key) then JNull else object_inherited k.
(** [Array.prototype] is an empty array that inherits from [Object.prototype]. *)
Definition array_proto_prop (k : string) : jval :=
  if decide (k = "length"%string) then JNum (num_of_Z 0)
  else if decide (k ∈ array_members) then JFun k else object_inherited k.
Definition array_inherited (k : string) : jval :=
  if decide (k = proto_key) then JProto true
  else if decide (k ∈ array_members) then JFun k else object_inherited k.

(** The index a property key names: decimal digits without a leading zero. *)
Definition array_index (k : string) : option nat :=
  let l := chars k in
  match l with
  | [] => None
  | c :: rest =>
      if forallb is_digit l && (bool_decide (rest = []) || negb (code c =? 48)%Z)
      then Some (Z.to_nat (digits_val l)) else None
  end.

(** [v[k]] on a value of type object. *)
Definition js_prop (v : jval) (k : string) : jval :=
  match v with
  | JObj fs => match jm_get fs k with Some x => x | None => object_inherited k end
  | JArr l =>
      if decide (k = "length"%string) then JNum (num_of_Z (Z.of_nat (length l)))
      else match array_index k with
           | Some i => match l !! i with Some x => x | None => array_inherited k end
           | None => array_inherited k
           end
  | JProto true => array_proto_prop k
  | JProto false => object_proto_prop k
  | _ => JUndef
  end.

(** [v !== null && typeof v === 'object']. *)
Definition is_object (v : jval) : bool :=
  match v with JObj _ | JArr _ | JProto _ => true | _ => false end.

(** ** [String(v)] *)

Fixpoint z_digits (fuel : nat) (n : Z) (acc : list ascii) : list ascii :=
  match fuel with
  | O => acc
  | S fuel' =>
      let acc := chr (48 + n mod 10) :: acc in
      if (n <? 10)%Z then acc else z_digits fuel' (n / 10)%Z acc
  end.
(** The decimal digits of a non-negative integer below [10 ^ 21]. *)
Definition nat_text (n : Z) : list ascii := z_digits 21 n [].
Definition int_text (n : Z) : string :=
  unchars (if (n <? 0)%Z then "-"%char :: nat_text (- n) else nat_text n).

Lemma chr_digit n : (0 <= n < 10)%Z -> is_digit (chr (48 + n)) = true /\ digit_val (chr (48 + n)) = n.
Proof.
  intros Hn. assert (n ∈ seqZ 0 10) as H by (apply elem_of_seqZ; lia). clear Hn. revert n H. apply Forall_forall.
  apply (bool_decide_unpack _). vm_compute. exact I.
Qed.

Lemma digits_val_app a b : digits_val (a ++ b) = (digits_val a * 10 ^ Z.of_nat (length b) + digits_val b)%Z.
Proof.
  unfold digits_val. rewrite foldl_app. generalize (foldl (fun n c => 10 * n + digit_val c)%Z 0%Z a) as k. intros k.
  revert k. induction b as [|x b IH] using rev_ind; intros k; [cbn; lia|].
  rewrite !foldl_app, IH. cbn [foldl]. rewrite length_app. cbn [length]. rewrite Nat2Z.inj_add, Z.pow_add_r by lia.
  change (10 ^ Z.of_nat 1)%Z with 10%Z. lia.
Qed.

Lemma z_digits_spec fuel n acc : (0 <= n < 10 ^ Z.of_nat fuel)%Z -> forallb is_digit acc = true ->
  forallb is_digit (z_digits fuel n acc) = true /\
  digits_val (z_digits fuel n acc) = (n * 10 ^ Z.of_nat (length acc) + digits_val acc)%Z.
Proof.
  revert n acc. induction fuel as [|fuel IH]; intros n acc Hn Hacc; [|].
  { change (10 ^ Z.of_nat 0)%Z with 1%Z in Hn. assert (n = 0%Z) as -> by lia. cbn [z_digits]. split; [done|lia]. }
  cbn [z_digits]. pose proof (Z.mod_pos_bound n 10 ltac:(lia)) as Hm. pose proof (Z.div_mod n 10 ltac:(lia)) as Hdm.
  destruct (chr_digit (n mod 10) ltac:(lia)) as [Hd Hv].
  assert (digits_val (chr (48 + n mod 10) :: acc) = (n mod 10 * 10 ^ Z.of_nat (length acc) + digits_val acc)%Z) as Hval.
  { change (chr (48 + n mod 10) :: acc) with ([chr (48 + n mod 10)] ++ acc). rewrite digits_val_app. f_equal. f_equal.
    unfold digits_val. cbn [foldl]. rewrite Hv. lia. }
  destruct (Z.ltb_spec n 10).
  - rewrite Hval. cbn [forallb]. rewrite Hd. split; [done|]. rewrite Z.mod_small by lia. done.
  - rewrite Nat2Z.inj_succ, Z.pow_succ_r in Hn by lia. destruct (IH (n / 10)%Z (chr (48 + n mod 10) :: acc)) as [H1 H2].
    + split; [apply Z.div_pos; lia|apply Z.div_lt_upper_bound; lia].
    + cbn [forallb]. by rewrite Hd.
    + split; [done|]. rewrite H2, Hval. cbn [length]. rewrite Nat2Z.inj_succ, Z.pow_succ_r by lia.
      set (P := (10 ^ Z.of_nat (length acc))%Z). lia.
Qed.

(** The decimal text of a number is read back as the number. *)
Lemma nat_text_spec n : (0 <= n < 10 ^ 21)%Z -> forallb is_digit (nat_text n) = true /\ digits_val (nat_text n) = n.
Proof. intros Hn. destruct (z_digits_spec 21 n [] Hn eq_refl) as [H1 H2]. split; [done|]. unfold nat_text. rewrite H2. change (n * 1 + 0 = n)%Z. lia. Qed.

Lemma z_digits_length fuel n acc : (0 <= n)%Z -> (n < 10 ^ Z.of_nat fuel)%Z ->
  forall k, (1 <= k)%nat -> (n < 10 ^ Z.of_nat k)%Z -> (length (z_digits fuel n acc) <= k + length acc)%nat.
Proof.
  revert n acc. induction fuel as [|fuel IH]; intros n acc Hn Hf k Hk Hlt; [cbn; lia|]. cbn [z_digits].
  destruct (Z.ltb_spec n 10); [cbn; lia|]. destruct k as [|k]; [lia|].
  rewrite Nat2Z.inj_succ, Z.pow_succ_r in Hlt, Hf by lia.
  destruct k as [|k]; [change (10 ^ Z.of_nat 0)%Z with 1%Z in Hlt; lia|].
  pose proof (IH (n / 10)%Z (chr (48 + n mod 10) :: acc) ltac:(apply Z.div_pos; lia) ltac:(apply Z.div_lt_upper_bound; lia) (S k) ltac:(lia)
    ltac:(apply Z.div_lt_upper_bound; lia)) as H'. cbn [length] in H'. lia.
Qed.

Lemma z_digits_ne fuel n acc : z_digits (S fuel) n acc <> [].
Proof.
  assert (forall f m a, a <> [] -> z_digits f m a <> []) as H.
  { intros f. induction f as [|f IH]; intros m a Ha; [done|]. cbn [z_digits]. destruct (m <? 10)%Z; [done|]. by apply IH. }
  cbn [z_digits]. destruct (n <? 10)%Z; [done|]. by apply H.
Qed.

Fixpoint join_with (sep : string) (l : list string) : string :=
  match l with
  | [] => ""
  | [s] => s
  | s :: l' => s ++ sep ++ join_with sep l'
  end%string.

Section Text.
(** The shortest decimal text of a number that is not an integer below [10 ^ 21]. *)
Variable num_text : Q -> string.

(** [Number.prototype.toString]. *)
Definition num_string (n : num) : string :=
  match n with
  | NaN => "NaN"
  | PInf => "Infinity"
  | NInf => "-Infinity"
  | Fin q =>
      if Qeq_bool q (inject_Z (Qfloor q)) && (Z.abs (Qfloor q) <? 10 ^ 21)%Z then int_text (Qfloor q) else num_text q
  end%string.

Fixpoint js_string (v : jval) : string :=
  match v with
  | JUndef => "undefined"
  | JNull => "null"
  | JBool b => if b then "true" else "false"
  | JNum n => num_string n
  | JStr s => s
  | JArr l => join_with "," ((fun x => match x with JUndef | JNull => ""%string | _ => js_string x end) <$> l)
  | JObj _ | JProto false => "[object Object]"
  | JProto true => ""
  | JFun f => "function " ++ f ++ "() { [native code] }"
  end%string.

(** ** [JSON.stringify(v)] *)

Definition hex_digit (n : Z) : ascii := chr (if (n <? 10)%Z then 48 + n else 87 + n).
Definition quote_char (c : ascii) : list ascii :=
  let n := code c in
  if (n =? 34)%Z || (n =? 92)%Z then [chr 92; c]
  else if (n =? 8)%Z then [chr 92; "b"%char]
  else if (n =? 9)%Z then [chr 92; "t"%char]
  else if (n =? 10)%Z then [chr 92; "n"%char]
  else if (n =? 12)%Z then [chr 92; "f"%char]
  else if (n =? 13)%Z then [chr 92; "r"%char]
  else if (n <? 32)%Z then [chr 92; "u"%char; "0"%char; "0"%char; hex_digit (n / 16); hex_digit (n mod 16)]
  else [c].
Definition quote_text (s : string) : string := unchars (chr 34 :: mjoin (quote_char <$> chars s) ++ [chr 34]).

(** [None] is [undefined]: the value has no JSON text. *)
Fixpoint stringify (v : jval) : option string :=
  match v with
  | JUndef | JFun _ => None
  | JNull => Some "null"
  | JBool b => Some (if b then "true" else "false")
  | JNum n => Some (if isFinite n then num_string n else "null")
  | JStr s => Some (quote_text s)
  | JArr l => Some ("[" ++ join_with "," ((fun x => default "null" (stringify x)) <$> l) ++ "]")
  | JObj fs =>
      Some ("{" ++ join_with "," (omap (fun kv => (fun t => quote_text kv.1 ++ ":" ++ t) <$> stringify kv.2) fs) ++ "}")
  | JProto true => Some "[]"
  | JProto false => Some "{}"
  end%string.
End Text.

(** ** [Number(v)] *)

(** [m * 10 ^ k], infinity from the rounding threshold on. *)
Definition decimal_value (m k : Z) : num :=
  if (0 <=? k)%Z then num_of_nonneg (m * 10 ^ k)
  else let q := (inject_Z m / inject_Z (10 ^ (- k)))%Q in
       if Qle_bool (inject_Z (2 ^ 1024 - 2 ^ 970)) q then PInf else Fin q.

Definition read_sign (l : list ascii) : bool * list ascii :=
  match l with
  | c :: l' => if (code c =? 45)%Z then (true, l') else if (code c =? 43)%Z then (false, l') else (false, l)
  | [] => (false, [])
  end.

(** [([eE][+-]?\d+)?] up to the end. *)
Definition read_exponent (l : list ascii) : option Z :=
  match l with
  | [] => Some 0%Z
  | c :: l' =>
      if (code c =? 101)%Z || (code c =? 69)%Z then
        let '(neg, ds) := read_sign l' in
        if bool_decide (ds = []) || negb (forallb is_digit ds) then None
        else Some (if neg then - digits_val ds else digits_val ds)%Z
      else None
  end.

(** [(\d+\.?\d*|\.\d+)([eE][+-]?\d+)?] up to the end. *)
Definition read_unsigned (l : list ascii) : option num :=
  let ip := take_while is_digit l in
  let r := drop_while is_digit l in
  let '(fp, r2) := match r with
    | c :: r' => if (code c =? 46)%Z then (take_while is_digit r', drop_while is_digit r') else ([], r)
    | [] => ([], r) end in
  match ip ++ fp with
  | [] => None
  | ds => (fun e => decimal_value (digits_val ds) (e - Z.of_nat (length fp))) <$> read_exponent r2
  end.

(** The same with an optional sign. *)
Definition read_decimal (l : list ascii) : option num :=
  let '(neg, l') := read_sign l in
  (fun n => if neg then num_opp n else n) <$> read_unsigned l'.

Definition digit_of (c : ascii) : Z :=
  if is_digit c then digit_val c
  else if is_lower c then code c - 87 else if is_upper c then code c - 55 else 99%Z.
Definition read_radix (r : Z) (l : list ascii) : option num :=
  if bool_decide (l = []) || negb (forallb (fun c => digit_of c <? r)%Z l) then None
  else Some (num_of_nonneg (foldl (fun n c => r * n + digit_of c)%Z 0%Z l)).

(** [Number(s)]. *)
Definition string_number (s : string) : num :=
  let l := trim_chars (chars s) in
  match l with
  | [] => num_of_Z 0
  | c :: x :: rest =>
      let radix := if negb (code c =? 48)%Z then None
        else match code (lower_char x) with
             | 120%Z => Some 16%Z | 111%Z => Some 8%Z | 98%Z => Some 2%Z | _ => None end in
      match radix with
      | Some r => default NaN (read_radix r rest)
      | None =>
          let '(neg, l') := read_sign l in
          if bool_decide (l' = chars "Infinity") then (if neg then NInf else PInf)
          else default NaN (read_decimal l)
      end
  | [_] => default NaN (read_decimal l)
  end.

Definition js_number (num_text : Q -> string) (v : jval) : num :=
  match v with
  | JUndef => NaN
  | JNull => num_of_Z 0
  | JBool b => num_of_Z (if b then 1 else 0)
  | JNum n => n
  | JStr s => string_number s
  | _ => string_number (js_string num_text v)
  end.

