(* ===== verification/Cron.v ===== *)
(** Schedules, [core/cron-parser.ts]: five-field expressions and shorthand intervals, and the search for
    the next time one is due.

    A time is a whole number of milliseconds since the epoch, an invalid [Date] is [None]; the calendar is
    the one of the language's specification (proleptic Gregorian, UTC). *)
From S2P Require Import Prelude Num JsString.
Open Scope Z_scope.

(** ** The calendar of the language *)

Definition DAY_MS : Z := 86400000.
(** [new Date(ms)]: a time outside the range of the type is invalid. *)
Definition date_of (ms : Z) : option Z := if Z.abs ms <=? 8640000000000000 then Some ms else None.

Definition getUTCMinutes (t : Z) : Z := (t / 60000) mod 60.
Definition getUTCHours (t : Z) : Z := (t / 3600000) mod 24.
Definition day_of (t : Z) : Z := t / DAY_MS.
Definition getUTCDay (t : Z) : Z := (day_of t + 4) mod 7.

(** [DayFromYear]: the day number of the first of January. *)
Definition day_from_year (y : Z) : Z := 365 * (y - 1970) + (y - 1969) / 4 - (y - 1901) / 100 + (y - 1601) / 400.
(** [YearFromTime]: the year whose days hold the day; the estimate is off by one at most. *)
Definition year_from_day (d : Z) : Z :=
  let y := 1970 + d * 400 / 146097 in
  if day_from_year (y + 1) <=? d then y + 1 else if d <? day_from_year y then y - 1 else y.
Definition leap (y : Z) : bool := (y mod 4 =? 0) && (negb (y mod 100 =? 0) || (y mod 400 =? 0)).
Definition month_days (y m : Z) : Z :=
  match m with
  | 2 => if leap y then 29 else 28
  | 4 | 6 | 9 | 11 => 30
  | _ => 31
  end.
(** The month and the day of month of a day of the year counted from 0, from month [m] on. *)
Fixpoint month_and_date (fuel : nat) (y m d : Z) : Z * Z :=
  match fuel with
  | O => (m, d + 1)
  | S fuel => if d <? month_days y m then (m, d + 1) else month_and_date fuel y (m + 1) (d - month_days y m)
  end.
(** Year, month from 1, day of month. *)
Definition civil (d : Z) : Z * Z * Z :=
  let y := year_from_day d in
  let '(m, dom) := month_and_date 11 y 1 (d - day_from_year y) in (y, m, dom).
Definition getUTCMonth (t : Z) : Z := (civil (day_of t)).1.2 - 1.
Definition getUTCDate (t : Z) : Z := (civil (day_of t)).2.

Example civil_1 : civil 0 = (1970, 1, 1). Proof. reflexivity. Qed.
Example civil_2 : civil 19782 = (2024, 2, 29). Proof. reflexivity. Qed.
Example civil_3 : civil (-1) = (1969, 12, 31). Proof. reflexivity. Qed.
Example civil_4 : civil 11016 = (2000, 2, 29). Proof. reflexivity. Qed.

(** ** Parsing *)

(** @src src/src/core/cron-parser.ts 15-21 CronFields *)
Record CronFields := { minute : list Z; hour : list Z; dayOfMonth : list Z; month : list Z; dayOfWeek : list Z }.
(** @src src/src/core/cron-parser.ts 23-27 ParsedExpression *)
Inductive ParsedExpression := Fields (f : CronFields) | Shorthand (ms : Z).

(** @src src/src/core/cron-parser.ts 33-33 SHORTHAND_RE *)
Definition SHORTHAND_RE (l : list ascii) : option (Z * ascii) :=
  match take_while is_digit l, drop_while is_space (drop_while is_digit l) with
  | (_ :: _) as ds, [c] => if bool_decide (lower_char c ∈ chars "smhd") then Some (digits_val ds, lower_char c) else None
  | _, _ => None
  end.

(** @src src/src/core/cron-parser.ts 35-43 MIN_INTERVAL_MS *)
Definition MIN_INTERVAL_MS : Z := 60000.
(** @src src/src/core/cron-parser.ts 45-51 FIELD_RANGES *)
Definition FIELD_RANGES : list (Z * Z) := [(0, 59); (0, 23); (1, 31); (1, 12); (0, 6)].
(** @src src/src/core/cron-parser.ts 53-54 MAX_MINUTES_SCAN *)
Definition MAX_MINUTES_SCAN : Z := 366 * 24 * 60.

(** [for (let i = start; i <= end; i += step) result.add(i)], for a positive step. *)
Fixpoint count_from (fuel : nat) (i last step : Z) : list Z :=
  match fuel with
  | O => []
  | S fuel => if i <=? last then i :: count_from fuel (i + step) last step else []
  end.
Definition every (first last step : Z) : list Z := count_from (Z.to_nat (last - first + 1)) first last step.

(** [parseInt(s, 10)] where it is an integer within the range. *)
Definition int_within (s : list ascii) (min max : Z) : option Z :=
  match parseInt (unchars s) with
  | Fin q => let n := Qtrunc q in if (min <=? n) && (n <=? max) then Some n else None
  | _ => None
  end.

(** [Err]: the message's kind. *)
(** @src src/src/core/cron-parser.ts 99-108 parseRange *)
Definition parseRange (token : list ascii) (min max : Z) : result string (Z * Z) :=
  match split_chars "-" token with
  | [a; b] =>
      match int_within a min max, int_within b min max with
      | Some s, Some e => if e <? s then Err "Invalid range"%string else Ok (s, e)
      | _, _ => Err "Invalid range"%string
      end
  | _ => Err "Invalid range"%string
  end.

(** [/^(.+)\/(\d+)$/]: the text before the last slash and the digits behind it. *)
Definition step_match (part : list ascii) : option (list ascii * list ascii) :=
  let r := reverse part in
  match take_while is_digit r, drop_while is_digit r with
  | (_ :: _) as ds, c :: ((_ :: _) as base) => if bool_decide (c = "/"%char) then Some (reverse base, reverse ds) else None
  | _, _ => None
  end.

Definition star : list ascii := ["*"%char].

(** One part of a comma-separated field. *)
(** @src src/src/core/cron-parser.ts 63-95 expandField *)
Definition expand_part (part : list ascii) (min max : Z) : result string (list Z) :=
  match step_match part with
  | Some (base, ds) =>
      let step := digits_val ds in
      if step <=? 0 then Err "Invalid step value"%string
      else
        '(start, last) ← (if bool_decide (base = star) then Ok (min, max) else parseRange base min max);
        Ok (every start last step)
  | None =>
      if bool_decide (part = star) then Ok (every min max 1)
      else if bool_decide ("-"%char ∈ part) then '(s, e) ← parseRange part min max; Ok (every s e 1)
      else match int_within part min max with Some n => Ok [n] | None => Err "Value out of range"%string end
  end.

Fixpoint expand_parts (parts : list (list ascii)) (min max : Z) : result string (list Z) :=
  match parts with
  | [] => Ok []
  | p :: ps => a ← expand_part p min max; b ← expand_parts ps min max; Ok (a ++ b)
  end.
(** The set is the list of what was added. *)
(** @src src/src/core/cron-parser.ts 60-97 expandField *)
Definition expandField (field : list ascii) (min max : Z) : result string (list Z) :=
  expand_parts (split_chars "," field) min max.

(** [s.split(/\s+/)] of a trimmed text. *)
Fixpoint split_spaces (fuel : nat) (l : list ascii) : list (list ascii) :=
  match fuel with
  | O => [l]
  | S fuel =>
      let w := take_while (fun c => negb (is_space c)) l in
      match drop_while (fun c => negb (is_space c)) l with
      | [] => [w]
      | r => w :: split_spaces fuel (drop_while is_space r)
      end
  end.

Definition unit_ms (c : ascii) : Z :=
  if bool_decide (c = "s"%char) then 1000 else if bool_decide (c = "m"%char) then 60000
  else if bool_decide (c = "h"%char) then 3600000 else 86400000.

(** @src src/src/core/cron-parser.ts 114-144 parse *)
Definition parse (expression : string) : result string ParsedExpression :=
  let trimmed := trim_chars (chars expression) in
  match SHORTHAND_RE trimmed with
  | Some (value, u) =>
      if value <=? 0 then Err "Interval must be > 0"%string
      else Ok (Shorthand (Z.max MIN_INTERVAL_MS (value * unit_ms u)))
  | None =>
      match split_spaces (length trimmed) trimmed with
      | [f1; f2; f3; f4; f5] =>
          mi ← expandField f1 0 59; h ← expandField f2 0 23; d ← expandField f3 1 31;
          mo ← expandField f4 1 12; w ← expandField f5 0 6;
          Ok (Fields {| minute := mi; hour := h; dayOfMonth := d; month := mo; dayOfWeek := w |})
      | _ => Err "Expected 5 fields"%string
      end
  end.

(** @src src/src/core/cron-parser.ts 157-164 isValidCron *)
Definition isValidCron (expression : string) : bool := is_ok (parse expression).

(** ** The next time *)

(** Whether a time meets all five fields; an invalid date meets none. *)
(** @src src/src/core/cron-parser.ts 187-199 nextOccurrence *)
Definition meets (f : CronFields) (t : Z) : bool :=
  bool_decide (is_Some (date_of t)) &&
  bool_decide (getUTCMinutes t ∈ minute f) && bool_decide (getUTCHours t ∈ hour f) &&
  bool_decide (getUTCDate t ∈ dayOfMonth f) && bool_decide (getUTCMonth t + 1 ∈ month f) &&
  bool_decide (getUTCDay t ∈ dayOfWeek f).

(** @src src/src/core/cron-parser.ts 186-204 nextOccurrence *)
Fixpoint scan_minutes (fuel : nat) (f : CronFields) (candidate : Z) : option Z :=
  match fuel with
  | O => None
  | S fuel => if meets f candidate then Some candidate else scan_minutes fuel f (candidate + 60000)
  end.

(** [Ok None] is an invalid date. *)
(** @src src/src/core/cron-parser.ts 172-207 nextOccurrence *)
Definition nextOccurrence (expression : string) (after : option Z) : result string (option Z) :=
  parsed ← parse expression;
  match parsed, after with
  | Shorthand ms, Some base => Ok (date_of (base + ms))
  | Shorthand _, None => Ok None
  | Fields f, Some base =>
      match scan_minutes (Z.to_nat MAX_MINUTES_SCAN) f (base - base mod 60000 + 60000) with
      | Some t => Ok (Some t)
      | None => Err "No matching occurrence within 366 days"%string
      end
  | Fields _, None => Err "No matching occurrence within 366 days"%string
  end.

Example next_1 : nextOccurrence "*/15 9-17 * * 1-5" (Some 1709287387123) = Ok (Some 1709288100000).
Proof. vm_compute. reflexivity. Qed.
Example next_2 : nextOccurrence " 30s" (Some 5) = Ok (Some 60005). Proof. vm_compute. reflexivity. Qed.
Example next_3 : nextOccurrence "0 0 1,,2 * *" (Some 5) = Err "Value out of range"%string. Proof. vm_compute. reflexivity. Qed.

(** ** The calendar is a calendar *)

Lemma div_bounds a b : 0 < b -> b * (a / b) <= a < b * (a / b) + b.
Proof. intros Hb. pose proof (Z.div_mod a b). pose proof (Z.mod_pos_bound a b). lia. Qed.

Lemma day_from_year_close y : 365 * (y - 1970) * 400 + 97 * (y - 1970) - 600 <= 400 * day_from_year y <= 365 * (y - 1970) * 400 + 97 * (y - 1970) + 600.
Proof.
  unfold day_from_year. pose proof (div_bounds (y - 1969) 4). pose proof (div_bounds (y - 1901) 100). pose proof (div_bounds (y - 1601) 400).
  lia.
Qed.

Lemma day_from_year_next y : day_from_year (y + 1) = day_from_year y + if leap y then 366 else 365.
Proof.
  unfold day_from_year, leap. destruct (Z.eqb_spec (y mod 4) 0), (Z.eqb_spec (y mod 100) 0), (Z.eqb_spec (y mod 400) 0);
    cbn [andb orb negb]; Z.to_euclidean_division_equations; lia.
Qed.

Lemma day_from_year_mono y k : 0 <= k -> day_from_year y + 365 * k <= day_from_year (y + k).
Proof.
  intros Hk. pattern k. apply natlike_ind; [|clear k Hk|done].
  - replace (y + 0) with y by lia. lia.
  - intros k Hk IH. rewrite <-Z.add_1_r, Z.add_assoc, day_from_year_next. destruct (leap _); lia.
Qed.

Lemma year_bounds d : day_from_year (year_from_day d) <= d < day_from_year (year_from_day d + 1).
Proof.
  unfold year_from_day. remember (1970 + d * 400 / 146097) as y eqn:Ey. cbv zeta.
  assert (day_from_year (y - 1) <= d < day_from_year (y + 2)) as Hy.
  { pose proof (day_from_year_close (y - 1)). pose proof (day_from_year_close (y + 2)). pose proof (div_bounds (d * 400) 146097). lia. }
  destruct (Z.leb_spec (day_from_year (y + 1)) d); [split; [lia|replace (y + 1 + 1) with (y + 2) by lia; lia]|].
  destruct (Z.ltb_spec d (day_from_year y)); [|lia]. replace (y - 1 + 1) with y by lia. lia.
Qed.

Lemma year_unique d y : day_from_year y <= d < day_from_year (y + 1) -> year_from_day d = y.
Proof.
  intros Hy. pose proof (year_bounds d) as Hb. set (z := year_from_day d) in *.
  destruct (Z.lt_trichotomy z y) as [H|[H|H]]; [|done|]; exfalso.
  - pose proof (day_from_year_mono (z + 1) (y - (z + 1)) ltac:(lia)). replace (z + 1 + (y - (z + 1))) with y in * by lia. lia.
  - pose proof (day_from_year_mono (y + 1) (z - (y + 1)) ltac:(lia)). replace (y + 1 + (z - (y + 1))) with z in * by lia. lia.
Qed.

(** The first of the month, counted in the year. *)
Definition month_start (y m : Z) : Z :=
  let l := if leap y then 1 else 0 in
  match m with
  | 1 => 0 | 2 => 31 | 3 => 59 + l | 4 => 90 + l | 5 => 120 + l | 6 => 151 + l | 7 => 181 + l
  | 8 => 212 + l | 9 => 243 + l | 10 => 273 + l | 11 => 304 + l | _ => 334 + l
  end.

Lemma months_below (P : Z -> Prop) m : 1 <= m <= 12 ->
  P 1 -> P 2 -> P 3 -> P 4 -> P 5 -> P 6 -> P 7 -> P 8 -> P 9 -> P 10 -> P 11 -> P 12 -> P m.
Proof.
  intros Hm. assert (m = 1 \/ m = 2 \/ m = 3 \/ m = 4 \/ m = 5 \/ m = 6 \/ m = 7 \/ m = 8 \/ m = 9 \/ m = 10 \/ m = 11 \/ m = 12) by lia.
  naive_solver.
Qed.

Lemma month_start_bounds y m : 1 <= m <= 12 -> 0 <= month_start y m /\ month_start y m + month_days y m <= if leap y then 366 else 365.
Proof.
  intros Hm. pattern m. apply months_below; [done|..]; unfold month_start, month_days; cbn; destruct (leap y); lia.
Qed.

Lemma month_start_shift y y' m : 1 <= m <= 12 -> (if leap y then 366 else 365) + month_start y' m - month_start y m <= 366.
Proof.
  intros Hm. pattern m. apply months_below; [done|..]; unfold month_start, month_days; cbn; destruct (leap y), (leap y'); lia.
Qed.

Lemma month_start_next y m : 1 <= m < 12 -> month_start y (m + 1) = month_start y m + month_days y m.
Proof.
  intros Hm. cut (m < 12 -> month_start y (m + 1) = month_start y m + month_days y m); [intros H; apply H; lia|].
  pattern m. apply months_below; [lia|..]; intros Hlt; unfold month_start, month_days;
    destruct (leap y); first [reflexivity|exfalso; lia].
Qed.

Lemma month_days_pos y m : 28 <= month_days y m <= 31.
Proof. unfold month_days. repeat case_match; lia. Qed.

Lemma month_start_le y m k : 1 <= m -> m + Z.of_nat k <= 12 -> month_start y m <= month_start y (m + Z.of_nat k).
Proof.
  intros Hm. induction k as [|k IH]; intros Hk; [replace (m + Z.of_nat 0) with m by lia; lia|].
  replace (m + Z.of_nat (S k)) with (m + Z.of_nat k + 1) by lia. rewrite month_start_next by lia.
  pose proof (month_days_pos y (m + Z.of_nat k)). lia.
Qed.

Lemma month_and_date_of fuel y m m' d : 1 <= m <= m' -> m' <= 12 -> m' <= m + Z.of_nat fuel -> 1 <= d <= month_days y m' ->
  month_and_date fuel y m (month_start y m' - month_start y m + d - 1) = (m', d).
Proof.
  revert m. induction fuel as [|fuel IH]; intros m Hm Hm' Hf Hd.
  - assert (m' = m) as -> by lia. cbn. f_equal; lia.
  - cbn [month_and_date]. destruct (Z.eqb_spec m m') as [->|Hne].
    + destruct (Z.ltb_spec (month_start y m' - month_start y m' + d - 1) (month_days y m')); [f_equal; lia|lia].
    + pose proof (month_start_next y m ltac:(lia)) as Hn.
      pose proof (month_start_le y (m + 1) (Z.to_nat (m' - (m + 1))) ltac:(lia) ltac:(lia)) as Hle.
      replace (m + 1 + Z.of_nat (Z.to_nat (m' - (m + 1)))) with m' in Hle by lia.
      destruct (Z.ltb_spec (month_start y m' - month_start y m + d - 1) (month_days y m)); [lia|].
      rewrite <-(IH (m + 1)) by lia. f_equal. lia.
Qed.

(** A date of the calendar is read back from its day number. *)
Lemma civil_of_date y m d : 1 <= m <= 12 -> 1 <= d <= month_days y m -> civil (day_from_year y + month_start y m + d - 1) = (y, m, d).
Proof.
  intros Hm Hd. pose proof (month_start_bounds y m Hm) as Hb. pose proof (day_from_year_next y) as Hn. unfold civil.
  rewrite (year_unique _ y) by lia.
  replace (day_from_year y + month_start y m + d - 1 - day_from_year y) with (month_start y m - month_start y 1 + d - 1)
    by (change (month_start y 1) with 0; lia).
  by rewrite month_and_date_of by lia.
Qed.

(** ** What a parsed expression holds *)

Definition within (min max : Z) (l : list Z) : Prop := l <> [] /\ Forall (fun n => min <= n <= max) l.

Lemma count_from_in fuel i last step n : 0 < step -> n ∈ count_from fuel i last step -> i <= n <= last.
Proof.
  intros Hs. revert i. induction fuel as [|fuel IH]; intros i; cbn [count_from]; [by intros ?%elem_of_nil|].
  destruct (Z.leb_spec i last); [|by intros ?%elem_of_nil]. intros [->|H']%elem_of_cons; [lia|]. apply IH in H'. lia.
Qed.

Lemma every_within first last step min max : 0 < step -> min <= first <= last -> last <= max -> within min max (every first last step).
Proof.
  intros Hs Hf Hl. split.
  - unfold every. destruct (Z.to_nat _) as [|k] eqn:E; [lia|]. cbn [count_from]. by destruct (Z.leb_spec first last); [|lia].
  - apply Forall_forall. intros n Hn%count_from_in; lia.
Qed.

Lemma int_within_bounds s min max n : int_within s min max = Some n -> min <= n <= max.
Proof. unfold int_within. destruct (parseInt _); try done. destruct (_ <=? _) eqn:E1, (_ <=? max) eqn:E2; try done. intros [= <-]. lia. Qed.

Lemma parseRange_bounds token min max a b : parseRange token min max = Ok (a, b) -> min <= a <= b /\ b <= max.
Proof.
  unfold parseRange. destruct (split_chars _ _) as [|x [|y [|]]]; try done.
  destruct (int_within x min max) eqn:Ea; [|done]. destruct (int_within y min max) eqn:Eb; [|done].
  apply int_within_bounds in Ea, Eb. destruct (Z.ltb_spec z0 z); [done|]. intros [= <- <-]. lia.
Qed.

Lemma expand_part_within part min max l : min <= max -> expand_part part min max = Ok l -> within min max l.
Proof.
  intros Hm. unfold expand_part. destruct (step_match part) as [[base ds]|].
  - destruct (Z.leb_spec (digits_val ds) 0); [done|]. intros ([a b] & Hr & [= <-])%bind_Ok.
    case_bool_decide; [injection Hr as <- <-|apply parseRange_bounds in Hr]; apply every_within; lia.
  - case_bool_decide; [intros [= <-]; apply every_within; lia|]. case_bool_decide.
    + intros ([a b] & Hr%parseRange_bounds & [= <-])%bind_Ok. apply every_within; lia.
    + destruct (int_within part min max) eqn:E; [|done]. intros [= <-]. apply int_within_bounds in E.
      split; [done|]. by constructor.
Qed.

Lemma expand_parts_within parts min max l : min <= max -> parts <> [] -> expand_parts parts min max = Ok l -> within min max l.
Proof.
  intros Hm. revert l. induction parts as [|p ps IH]; intros l Hne; [done|]. cbn [expand_parts].
  intros (a & Ha%expand_part_within & (b & Hb & [= <-])%bind_Ok)%bind_Ok; [|done]. destruct Ha as [Ha1 Ha2].
  assert (Forall (fun n => min <= n <= max) b) as Hb2.
  { destruct ps as [|p' ps']; [injection Hb as <-; constructor|]. by apply IH in Hb as [_ ?]. }
  split; [destruct a; [done|]; done|]. by apply Forall_app.
Qed.

Lemma expandField_within field min max l : min <= max -> expandField field min max = Ok l -> within min max l.
Proof. intros Hm H. eapply expand_parts_within; [done| |exact H]. apply split_chars_ne. Qed.

Definition well_formed (f : CronFields) : Prop :=
  within 0 59 (minute f) /\ within 0 23 (hour f) /\ within 1 31 (dayOfMonth f) /\ within 1 12 (month f) /\ within 0 6 (dayOfWeek f).

Lemma parse_well_formed e f : parse e = Ok (Fields f) -> well_formed f.
Proof.
  unfold parse. destruct (SHORTHAND_RE _) as [[v u]|]; [by destruct (_ <=? _)|].
  destruct (split_spaces _ _) as [|f1 [|f2 [|f3 [|f4 [|f5 [|]]]]]]; try done.
  intros (a & Ha & (b & Hb & (c & Hc & (d & Hd & (w & Hw & [= <-])%bind_Ok)%bind_Ok)%bind_Ok)%bind_Ok)%bind_Ok.
  unfold well_formed. cbn. split_and!; eapply expandField_within; try done; lia.
Qed.

Lemma parse_shorthand_floor e ms : parse e = Ok (Shorthand ms) -> MIN_INTERVAL_MS <= ms.
Proof.
  unfold parse. destruct (SHORTHAND_RE _) as [[v u]|].
  - destruct (_ <=? _); [done|]. intros [= <-]. lia.
  - destruct (split_spaces _ _) as [|f1 [|f2 [|f3 [|f4 [|f5 [|]]]]]]; try done.
    by intros (a & Ha & (b & Hb & (c & Hc & (d & Hd & (w & Hw & [=])%bind_Ok)%bind_Ok)%bind_Ok)%bind_Ok)%bind_Ok.
Qed.

(** ** The search *)

(** A minute at which the schedule is due. *)
Definition due (f : CronFields) (t : Z) : Prop := t mod 60000 = 0 /\ meets f t = true.

Lemma scan_minutes_spec fuel f c :
  match scan_minutes fuel f c with
  | Some r => exists k, (k < fuel)%nat /\ r = c + 60000 * Z.of_nat k /\ meets f r = true /\
                        forall j, (j < k)%nat -> meets f (c + 60000 * Z.of_nat j) = false
  | None => forall j, (j < fuel)%nat -> meets f (c + 60000 * Z.of_nat j) = false
  end.
Proof.
  revert c. induction fuel as [|fuel IH]; intros c; cbn [scan_minutes]; [lia|].
  destruct (meets f c) eqn:E.
  - exists 0%nat. split_and!; [lia|lia|done|lia].
  - specialize (IH (c + 60000)). destruct (scan_minutes fuel f (c + 60000)) as [r|].
    + destruct IH as (k & Hk & -> & Hm & Hj). exists (S k). split_and!; [lia|lia|done|].
      intros [|j] Hlt; [by replace (c + 60000 * Z.of_nat 0) with c by lia|].
      replace (c + 60000 * Z.of_nat (S j)) with (c + 60000 + 60000 * Z.of_nat j) by lia. apply Hj. lia.
    + intros [|j] Hlt; [by replace (c + 60000 * Z.of_nat 0) with c by lia|].
      replace (c + 60000 * Z.of_nat (S j)) with (c + 60000 + 60000 * Z.of_nat j) by lia. apply IH. lia.
Qed.

Lemma minute_index t u : u mod 60000 = 0 -> t < u -> exists k, u = t - t mod 60000 + 60000 + 60000 * Z.of_nat k.
Proof.
  intros Hu Hlt. exists (Z.to_nat ((u - (t - t mod 60000 + 60000)) / 60000)).
  pose proof (Z.div_mod u 60000). pose proof (Z.div_mod t 60000). pose proof (Z.mod_pos_bound t 60000).
  replace (u - (t - t mod 60000 + 60000)) with ((u / 60000 - t / 60000 - 1) * 60000) by lia. rewrite Z.div_mul by lia. lia.
Qed.

Lemma scan_spec f t :
  match scan_minutes (Z.to_nat MAX_MINUTES_SCAN) f (t - t mod 60000 + 60000) with
  | Some r => t < r <= t - t mod 60000 + 366 * DAY_MS /\ due f r /\ forall u, t < u < r -> ~ due f u
  | None => forall u, t < u <= t - t mod 60000 + 366 * DAY_MS -> ~ due f u
  end.
Proof.
  pose proof (scan_minutes_spec (Z.to_nat MAX_MINUTES_SCAN) f (t - t mod 60000 + 60000)) as H.
  pose proof (Z.div_mod t 60000). pose proof (Z.mod_pos_bound t 60000).
  destruct (scan_minutes _ _ _) as [r|].
  - destruct H as (k & Hk & Hr & Hm & Hj). split_and!; [lia|unfold MAX_MINUTES_SCAN, DAY_MS in *; lia|split; [|done]|].
    + replace r with ((t / 60000 + 1 + Z.of_nat k) * 60000) by lia. apply Z.mod_mul. lia.
    + intros u Hu [Hu0 Hum]. destruct (minute_index t u Hu0) as [j Ej]; [lia|]. rewrite Ej, Hj in Hum; [done|lia].
  - intros u Hu [Hu0 Hum]. destruct (minute_index t u Hu0) as [j Ej]; [lia|]. rewrite Ej, H in Hum; [done|].
    unfold MAX_MINUTES_SCAN, DAY_MS in *. lia.
Qed.

(** C36. The next time of a schedule is the first one due. For every expression that parses to five fields
    and every time, the answer is a whole minute after it, in every field's set by the UTC calendar, and no
    minute between is; and the search gives up only when no minute of the 366 days after it is due. *)
Theorem nextOccurrence_is_the_first_due e f t :
  parse e = Ok (Fields f) ->
  match nextOccurrence e (Some t) with
  | Ok (Some r) => t < r <= t - t mod 60000 + 366 * DAY_MS /\ due f r /\ forall u, t < u < r -> ~ due f u
  | Ok None => False
  | Err _ => forall u, t < u <= t - t mod 60000 + 366 * DAY_MS -> ~ due f u
  end.
Proof.
  intros He. unfold nextOccurrence. rewrite He. cbn [mbind result_bind]. pose proof (scan_spec f t) as H.
  by destruct (scan_minutes _ _ _).
Qed.

(** ** Schedules that never stop *)

Definition time_at (day h mi : Z) : Z := day * DAY_MS + h * 3600000 + mi * 60000.

Lemma time_at_fields day h mi : 0 <= h <= 23 -> 0 <= mi <= 59 ->
  day_of (time_at day h mi) = day /\ getUTCHours (time_at day h mi) = h /\ getUTCMinutes (time_at day h mi) = mi /\
  time_at day h mi mod 60000 = 0.
Proof.
  intros Hh Hm. unfold time_at, day_of, getUTCHours, getUTCMinutes, DAY_MS. split_and!.
  - symmetry. apply (Z.div_unique _ _ _ (h * 3600000 + mi * 60000)); lia.
  - rewrite <-(Z.div_unique (day * 86400000 + h * 3600000 + mi * 60000) 3600000 (day * 24 + h) (mi * 60000)) by lia.
    symmetry. apply (Z.mod_unique _ _ day); lia.
  - rewrite <-(Z.div_unique (day * 86400000 + h * 3600000 + mi * 60000) 60000 (day * 1440 + h * 60 + mi) 0) by lia.
    symmetry. apply (Z.mod_unique _ _ (day * 24 + h)); lia.
  - symmetry. apply (Z.mod_unique _ _ (day * 1440 + h * 60 + mi)); lia.
Qed.

(** The day of a date. *)
Definition day_at (y m d : Z) : Z := day_from_year y + month_start y m + d - 1.

Lemma meets_at f y m d h mi : 1 <= m <= 12 -> 1 <= d <= month_days y m -> 0 <= h <= 23 -> 0 <= mi <= 59 ->
  Z.abs (time_at (day_at y m d) h mi) <= 8640000000000000 ->
  mi ∈ minute f -> h ∈ hour f -> d ∈ dayOfMonth f -> m ∈ month f -> (day_at y m d + 4) mod 7 ∈ dayOfWeek f ->
  due f (time_at (day_at y m d) h mi).
Proof.
  intros Hm Hd Hh Hmi Hr Fmi Fh Fd Fm Fw. destruct (time_at_fields (day_at y m d) h mi Hh Hmi) as (Ed & Eh & Emi & E0).
  split; [done|]. unfold meets, getUTCDate, getUTCMonth, getUTCDay. rewrite Ed, Eh, Emi.
  assert (civil (day_at y m d) = (y, m, d)) as -> by by apply civil_of_date. cbn [fst snd]. replace (m - 1 + 1) with m by lia.
  rewrite !bool_decide_eq_true_2; [done|done..|]. unfold date_of. destruct (Z.leb_spec (Z.abs (time_at (day_at y m d) h mi)) 8640000000000000); [eauto|lia].
Qed.

Lemma day_at_next_year y m d : 1 <= m <= 12 -> day_at (y + 1) m d <= day_at y m d + 366.
Proof.
  intros Hm. unfold day_at. pose proof (day_from_year_next y). pose proof (month_start_shift y (y + 1) m Hm). destruct (leap y); lia.
Qed.

Lemma weekday_within first w : 0 <= w <= 6 -> exists k, 0 <= k <= 6 /\ (first + k + 4) mod 7 = w.
Proof.
  intros Hw. exists ((w - first - 4) mod 7). split; [pose proof (Z.mod_pos_bound (w - first - 4) 7); lia|].
  replace (w - first - 4) with (w - (first + 4)) by lia.
  replace (first + (w - (first + 4)) mod 7 + 4) with (first + 4 + (w - (first + 4)) mod 7) by lia.
  rewrite Zplus_mod_idemp_r. replace (first + 4 + (w - (first + 4))) with w by lia. by rewrite Z.mod_small by lia.
Qed.

(** At most one of the two day fields is restricted, and the date is one of every year. *)
Definition every_year (f : CronFields) : Prop :=
  (forall w, 0 <= w <= 6 -> w ∈ dayOfWeek f) /\ (exists m d, m ∈ month f /\ d ∈ dayOfMonth f /\ d <= month_days 1970 m) \/
  (forall d, 1 <= d <= 31 -> d ∈ dayOfMonth f).

Lemma month_days_least y m : month_days 1970 m <= month_days y m.
Proof. unfold month_days. repeat case_match; try done; vm_compute in *; done. Qed.

Lemma year_of_time t : day_from_year (year_from_day (day_of t)) * DAY_MS <= t < day_from_year (year_from_day (day_of t) + 1) * DAY_MS.
Proof.
  pose proof (year_bounds (day_of t)) as H. unfold day_of, DAY_MS in *. pose proof (div_bounds t 86400000 ltac:(lia)). lia.
Qed.

Lemma due_within_a_year f t : well_formed f -> every_year f -> Z.abs t <= 8640000000000000 - 367 * DAY_MS ->
  exists u, t < u <= t - t mod 60000 + 366 * DAY_MS /\ due f u.
Proof.
  intros (Hmi & Hh & Hd & Hm & Hw) Hev Ht.
  assert (exists mi h, mi ∈ minute f /\ h ∈ hour f /\ 0 <= mi <= 59 /\ 0 <= h <= 23) as (mi & h & Fmi & Fh & Bmi & Bh).
  { destruct (minute f) as [|mi ?], (hour f) as [|h ?]; try by destruct Hmi, Hh. exists mi, h.
    destruct Hmi as [_ Hmi%Forall_cons], Hh as [_ Hh%Forall_cons]. split_and!; set_solver || tauto. }
  pose proof (year_of_time t) as Hy. revert Hy. generalize (year_from_day (day_of t)). intros y Hy.
  assert (forall D, t < time_at D h mi -> time_at D h mi <= t + 366 * DAY_MS ->
    t < time_at D h mi <= t - t mod 60000 + 366 * DAY_MS /\ Z.abs (time_at D h mi) <= 8640000000000000) as Hin.
  { intros D H1 H2. destruct (time_at_fields D h mi Bh Bmi) as (_ & _ & _ & H0).
    destruct (minute_index t _ H0 H1) as [k Hk]. pose proof (Z.mod_pos_bound t 60000).
    assert (60000 * (1 + Z.of_nat k) < 60000 * (527040 + 1)) by (unfold DAY_MS in *; lia).
    unfold DAY_MS in *. lia. }
  destruct Hev as [(Fw & m & d & Fm & Fd & Hlast)|Fd].
  - assert (1 <= m <= 12 /\ 1 <= d) as [Bm Bd].
    { destruct Hm as [_ Hm], Hd as [_ Hd]. rewrite Forall_forall in Hm, Hd. split; [by apply Hm|by apply Hd]. }
    assert (forall y', t < time_at (day_at y' m d) h mi -> time_at (day_at y' m d) h mi <= t + 366 * DAY_MS ->
      exists u, t < u <= t - t mod 60000 + 366 * DAY_MS /\ due f u) as Hok.
    { intros y' H1 H2. destruct (Hin _ H1 H2) as [? ?]. exists (time_at (day_at y' m d) h mi). split; [done|].
      apply meets_at; try done; [split; [done|]; pose proof (month_days_least y' m); lia|]. apply Fw.
      pose proof (Z.mod_pos_bound (day_at y' m d + 4) 7). lia. }
    pose proof (month_start_bounds y m Bm) as Hb. pose proof (month_days_least y m). pose proof (day_from_year_next y) as Hn.
    destruct (Z.lt_ge_cases t (time_at (day_at y m d) h mi)) as [Hlt|Hge]; [apply (Hok y)|apply (Hok (y + 1))]; try done.
    + unfold time_at, day_at, DAY_MS in *. destruct (leap y); lia.
    + pose proof (month_start_bounds (y + 1) m Bm). unfold time_at, day_at, DAY_MS in *. destruct (leap y); lia.
    + pose proof (day_at_next_year y m d Bm). unfold time_at, DAY_MS in *. lia.
  - destruct Hm as [Hmne Hm], Hw as [Hwne Hw]. destruct (month f) as [|m ms] eqn:Em; [done|]. destruct (dayOfWeek f) as [|w ws] eqn:Ew; [done|].
    apply Forall_cons in Hm as [Bm _]. apply Forall_cons in Hw as [Bw _].
    pose proof (month_start_bounds y m Bm) as Hb. pose proof (month_days_pos y m). pose proof (month_days_pos (y + 1) m).
    pose proof (day_from_year_next y) as Hn.
    assert (forall y' d, 1 <= d <= 28 -> (day_at y' m d + 4) mod 7 = w -> t < time_at (day_at y' m d) h mi ->
      time_at (day_at y' m d) h mi <= t + 366 * DAY_MS -> exists u, t < u <= t - t mod 60000 + 366 * DAY_MS /\ due f u) as Hok.
    { intros y' d Hd28 Hwd H1 H2. destruct (Hin _ H1 H2) as [? ?]. exists (time_at (day_at y' m d) h mi). split; [done|].
      pose proof (month_days_pos y' m). apply meets_at; try done; [lia|apply Fd; lia|rewrite Em; set_solver|]. rewrite Hwd, Ew. set_solver. }
    destruct (Z.lt_ge_cases t (time_at (day_at y m 22) h mi)) as [Hlt|Hge].
    + destruct (weekday_within (day_at y m 22) w Bw) as (k & Hk & Hkw). apply (Hok y (22 + k)); [lia| | |].
      * by replace (day_at y m (22 + k)) with (day_at y m 22 + k) by (unfold day_at; lia).
      * unfold time_at, day_at, DAY_MS in *. lia.
      * unfold time_at, day_at, DAY_MS in *. destruct (leap y); lia.
    + destruct (weekday_within (day_at (y + 1) m 1) w Bw) as (k & Hk & Hkw). apply (Hok (y + 1) (1 + k)); [lia| | |].
      * by replace (day_at (y + 1) m (1 + k)) with (day_at (y + 1) m 1 + k) by (unfold day_at; lia).
      * pose proof (month_start_bounds (y + 1) m Bm). unfold time_at, day_at, DAY_MS in *. destruct (leap y); lia.
      * pose proof (day_at_next_year y m 1 Bm). unfold time_at, day_at, DAY_MS in *. lia.
Qed.

(** A schedule that names a date of every year, or leaves the day of month open, never stops: from
    every time there is a next one, within 366 days; and a shorthand interval always has one, at least a
    minute later. *)
Theorem schedules_recur e t :
  Z.abs t <= 8640000000000000 - 367 * DAY_MS ->
  (forall f, parse e = Ok (Fields f) -> every_year f ->
     exists r, nextOccurrence e (Some t) = Ok (Some r) /\ t < r <= t + 366 * DAY_MS) /\
  (forall ms, parse e = Ok (Shorthand ms) -> ms <= 367 * DAY_MS ->
     nextOccurrence e (Some t) = Ok (Some (t + ms)) /\ t + MIN_INTERVAL_MS <= t + ms).
Proof.
  intros Ht. split.
  - intros f Hp Hev. destruct (due_within_a_year f t (parse_well_formed e f Hp) Hev Ht) as (u & Hu & Hdue).
    unfold nextOccurrence. rewrite Hp. cbn [mbind result_bind]. pose proof (scan_spec f t) as H. pose proof (Z.mod_pos_bound t 60000).
    destruct (scan_minutes _ _ _) as [r|]; [|by destruct (H u Hu)]. destruct H as ([H1 _] & _ & H2). exists r. split; [done|].
    destruct (Z.le_gt_cases r u); [lia|]. by destruct (H2 u ltac:(lia)).
  - intros ms Hp Hms. pose proof (parse_shorthand_floor e ms Hp) as Hf. unfold MIN_INTERVAL_MS in *. split; [|lia].
    unfold nextOccurrence. rewrite Hp. cbn [mbind result_bind]. unfold date_of.
    destruct (Z.leb_spec (Z.abs (t + ms)) 8640000000000000); [done|]. unfold DAY_MS in *. lia.
Qed.

Definition sample_fields : CronFields :=
  {| minute := [0; 15; 30; 45]; hour := [9; 10]; dayOfMonth := every 1 31 1; month := every 1 12 1; dayOfWeek := [1; 2; 3; 4; 5] |}.

Lemma nextOccurrence_is_the_first_due_witness :
  nextOccurrence "*/15 9-10 * * 1-5" (Some 1709287387123) = Ok (Some 1709288100000) /\ due sample_fields 1709288100000.
Proof.
  pose proof (nextOccurrence_is_the_first_due "*/15 9-10 * * 1-5" sample_fields 1709287387123 ltac:(vm_compute; reflexivity)) as H.
  assert (nextOccurrence "*/15 9-10 * * 1-5" (Some 1709287387123) = Ok (Some 1709288100000)) as E by (vm_compute; reflexivity).
  rewrite E in H. split; [exact E|exact (proj1 (proj2 H))].
Defined.

Lemma schedules_recur_witness :
  exists r, nextOccurrence "0 0 13 * *" (Some 1709287387123) = Ok (Some r) /\ 1709287387123 < r <= 1709287387123 + 366 * DAY_MS.
Proof.
  apply (proj1 (schedules_recur "0 0 13 * *" 1709287387123 ltac:(vm_compute; discriminate))
    {| minute := [0]; hour := [0]; dayOfMonth := [13]; month := every 1 12 1; dayOfWeek := every 0 6 1 |}); [vm_compute; reflexivity|].
  left. split.
  - intros w Hw. assert (w = 0 \/ w = 1 \/ w = 2 \/ w = 3 \/ w = 4 \/ w = 5 \/ w = 6) as Hc by lia.
    destruct Hc as [->|[->|[->|[->|[->|[->| ->]]]]]]; apply (bool_decide_unpack _); vm_compute; exact I.
  - exists 1, 13. split_and!; [vm_compute; left|vm_compute; left|vm_compute; discriminate].
Defined.

(** ** Valid schedules without a next time *)

Lemma month_of_offset y k : 0 <= k < (if leap y then 366 else 365) ->
  exists m d, 1 <= m <= 12 /\ 1 <= d <= month_days y m /\ k = month_start y m + d - 1.
Proof.
  intros Hk. assert (forall j, (j <= 11)%nat -> k < month_start y (1 + Z.of_nat j) + month_days y (1 + Z.of_nat j) ->
    exists m d, 1 <= m <= 12 /\ 1 <= d <= month_days y m /\ k = month_start y m + d - 1) as H.
  { induction j as [|j IH]; intros Hj Hlt; [replace (1 + Z.of_nat 0) with 1 in Hlt by lia; change (month_start y 1) with 0 in Hlt; exists 1, (k + 1); change (month_start y 1) with 0; destruct (leap y); lia|].
    replace (1 + Z.of_nat (S j)) with (1 + Z.of_nat j + 1) in Hlt by lia.
    destruct (Z.lt_ge_cases k (month_start y (1 + Z.of_nat j + 1))) as [H|H].
    - apply IH; [lia|]. by rewrite <-month_start_next by lia.
    - exists (1 + Z.of_nat j + 1), (k - month_start y (1 + Z.of_nat j + 1) + 1). lia. }
  apply (H 11%nat); [lia|]. clear H. revert Hk. change (1 + Z.of_nat 11) with 12. change (month_days y 12) with 31. change (month_start y 12) with (334 + if leap y then 1 else 0). destruct (leap y); lia.
Qed.

(** Every day is the date [civil] reads. *)
Lemma civil_is_a_date d y m dd : civil d = (y, m, dd) -> 1 <= m <= 12 /\ 1 <= dd <= month_days y m /\ d = day_at y m dd.
Proof.
  pose proof (year_bounds d) as Hy. remember (year_from_day d) as z eqn:Ez. clear Ez. rewrite day_from_year_next in Hy.
  destruct (month_of_offset z (d - day_from_year z) ltac:(destruct (leap z); lia)) as (m' & d' & Hm & Hd & E).
  assert (d = day_at z m' d') as -> by (unfold day_at; lia). unfold day_at. rewrite civil_of_date by done. by intros [= <- <- <-].
Qed.

Definition leap_day (d : Z) : Prop := (civil d).1.2 = 2 /\ (civil d).2 = 29.

Lemma leap_day_spec d : leap_day d -> exists y, y mod 4 = 0 /\ d = day_at y 2 29.
Proof.
  unfold leap_day. destruct (civil d) as [[y m] dd] eqn:E. cbn. intros [-> ->]. apply civil_is_a_date in E as (_ & Hd & ->).
  exists y. split; [|done]. cbn in Hd. destruct (leap y) eqn:El; [|lia]. unfold leap in El. apply andb_true_iff in El as [El _]. by apply Z.eqb_eq in El.
Qed.

(** Two leap days are more than 366 days apart. *)
Lemma leap_days_are_apart d d' : leap_day d -> leap_day d' -> d < d' -> d + 366 < d'.
Proof.
  intros (y & Hy & ->)%leap_day_spec (y' & Hy' & ->)%leap_day_spec. unfold day_at. change (month_start y 2) with 31. change (month_start y' 2) with 31.
  intros Hlt. destruct (Z.le_gt_cases y' y) as [H|H].
  - pose proof (day_from_year_mono y' (y - y') ltac:(lia)) as Hm. replace (y' + (y - y')) with y in Hm by lia. lia.
  - assert (y + 4 <= y') by (Z.to_euclidean_division_equations; lia).
    pose proof (day_from_year_mono y (y' - y) ltac:(lia)) as Hm. replace (y + (y' - y)) with y' in Hm by lia. lia.
Qed.

Lemma due_on_leap_day f t : month f = [2] -> dayOfMonth f = [29] -> due f t -> leap_day (day_of t).
Proof.
  intros Hm Hd [_ Ht]. unfold meets in Ht. rewrite !andb_true_iff, !bool_decide_eq_true in Ht. rewrite Hm, Hd in Ht.
  destruct Ht as ((((_ & _) & Hdate) & Hmonth) & _). apply list_elem_of_singleton in Hdate, Hmonth. unfold getUTCDate, getUTCMonth in *.
  split; [lia|done].
Qed.

(** C37. Schedules the validation accepts can have no next time. A schedule on the leap day alone, asked on a leap
    day for the time after its last run of that day, throws, in every leap year: its next day lies further ahead
    than the 366 days searched. And a shorthand interval yields an invalid date exactly when it leads beyond the
    range of the language's dates, which no bound on the interval prevents. *)
Theorem valid_schedules_without_a_next_time e :
  (forall f t, parse e = Ok (Fields f) -> month f = [2] -> dayOfMonth f = [29] -> leap_day (day_of t) ->
     (forall u, t < u -> day_of u = day_of t -> ~ due f u) ->
     isValidCron e = true /\ nextOccurrence e (Some t) = Err "No matching occurrence within 366 days"%string) /\
  (forall ms t, parse e = Ok (Shorthand ms) -> -8640000000000000 <= t ->
     isValidCron e = true /\ (nextOccurrence e (Some t) = Ok None <-> 8640000000000000 < t + ms)).
Proof.
  unfold isValidCron, nextOccurrence. split.
  - intros f t -> Hm Hd Ht Hlast. split; [done|]. cbn [mbind result_bind].
    pose proof (scan_spec f t) as H. destruct (scan_minutes _ _ _) as [r|]; [exfalso|done]. destruct H as (Hr & Hdue & _).
    pose proof (due_on_leap_day f r Hm Hd Hdue) as Hl. pose proof (Z.mod_pos_bound t 60000 ltac:(lia)).
    unfold day_of, DAY_MS in *. destruct (Z.lt_ge_cases (t / 86400000) (r / 86400000)) as [Hlt|Hge].
    + pose proof (leap_days_are_apart _ _ Ht Hl Hlt). Z.to_euclidean_division_equations. lia.
    + apply (Hlast r); [lia| |done]. pose proof (Z.div_le_mono t r 86400000). lia.
  - intros ms t He Ht. pose proof (parse_shorthand_floor e ms He) as Hf. unfold MIN_INTERVAL_MS in Hf. rewrite He. split; [done|]. cbn [mbind result_bind].
    unfold date_of. destruct (Z.leb_spec (Z.abs (t + ms)) 8640000000000000); split; try done; lia.
Qed.

(** The run of 29 February 2024 of a yearly schedule, and a shorthand. *)
Lemma valid_schedules_without_a_next_time_witness :
  (isValidCron "0 9 29 2 *" = true /\ nextOccurrence "0 9 29 2 *" (Some 1709197200000) = Err "No matching occurrence within 366 days"%string) /\
  (isValidCron "100000001d" = true /\ nextOccurrence "100000001d" (Some 1709197200000) = Ok None).
Proof.
  split.
  - apply (proj1 (valid_schedules_without_a_next_time "0 9 29 2 *")
      {| minute := [0]; hour := [9]; dayOfMonth := [29]; month := [2]; dayOfWeek := every 0 6 1 |} 1709197200000);
      [vm_compute; reflexivity|reflexivity|reflexivity|split; vm_compute; reflexivity|].
    intros u Hu Hday [Hu0 Hm]. unfold meets in Hm. rewrite !andb_true_iff, !bool_decide_eq_true in Hm.
    destruct Hm as (((((_ & Hmi) & Hh) & _) & _) & _). apply list_elem_of_singleton in Hmi, Hh.
    unfold day_of, getUTCHours, getUTCMinutes, DAY_MS in *. clear -Hu Hday Hu0 Hmi Hh. Z.to_euclidean_division_equations. lia.
  - destruct (proj2 (valid_schedules_without_a_next_time "100000001d") 8640000086400000 1709197200000 ltac:(vm_compute; reflexivity) ltac:(lia)) as [H1 H2].
    split; [exact H1|apply H2; lia].
Defined.
