(* ===== verification/Manifest.v ===== *)
(** The workflow data of [src/src/types/orchestration.ts]: a manifest, its steps, and what a run
    of it records. Fields no modelled function reads (versions of agents, effort and thinking
    hints, timestamps) are left out. *)
From S2P Require Import Prelude Num JsString JsValue.

(** @src src/src/types/orchestration.ts 42-42 ConditionOperator *)
Inductive ConditionOperator : Set :=
| op_lt | op_gt | op_eq | op_neq | op_gte | op_lte | op_exists | op_not_exists | op_contains.

(** @src src/src/types/orchestration.ts 44-48 ManifestCondition *)
Record ManifestCondition : Set := mkCondition {
  cond_path : string;
  cond_operator : ConditionOperator;
  cond_value : jval
}.

(** The [runtime] union of [ManifestStep]. *)
Inductive Runtime : Set := rt_agent | rt_mock | rt_inline | rt_pipeline.

#[export] Instance Runtime_eq_dec : EqDecision Runtime.
Proof. solve_decision. Defined.

(** @src src/src/types/orchestration.ts 14-40 ManifestStep *)
Record ManifestStep : Set := mkStep {
  step_id : string;
  step_agent : string;
  step_runtime : Runtime;
  step_task : option string;
  step_tools : option (list string);
  step_input_from : option (list string);
  step_conditions : option (list ManifestCondition);
  step_tool : option string;
  step_tool_gates : option (list string)
}.

(** The [on_failure] union of [Manifest]. *)
Inductive OnFailure : Set := on_stop | on_continue | on_notify.

(** The [manifest_version] union of [Manifest]. *)
Inductive ManifestVersion : Set := v1_0 | v1_1.

(** The [execution] union of [Manifest]. *)
Inductive Execution : Set := sequential | parallel.

#[export] Instance Execution_eq_dec : EqDecision Execution.
Proof. solve_decision. Defined.
#[export] Instance OnFailure_eq_dec : EqDecision OnFailure.
Proof. solve_decision. Defined.

(** @src src/src/types/orchestration.ts 3-12 Manifest *)
Record Manifest : Set := mkManifest {
  manifest_version : ManifestVersion;
  manifest_name : string;
  manifest_context : list (string * jval);
  manifest_agents : list ManifestStep;
  manifest_gate_points : list string;
  manifest_on_failure : OnFailure;
  manifest_execution : option Execution
}.

(** @src src/src/types/orchestration.ts 65-77 AgentOutput *)
Record AgentOutput := mkOutput {
  o_stepId : string; o_result : string; o_durationMs : num; o_tokensIn : num; o_tokensOut : num;
  o_costUsd : num; o_skipped : bool; o_skipReason : option string; o_error : option string }.

Definition zero_num : num := num_of_Z 0.

(** [step.input_from ?? []]. *)
Definition input_from (s : ManifestStep) : list string := default [] (step_input_from s).
Definition tool_gates (s : ManifestStep) : list string := default [] (step_tool_gates s).

Definition step_ids (steps : list ManifestStep) : list string := step_id <$> steps.

(** A step with an id and dependencies and nothing else, for concrete examples. *)
Definition bare_step (id : string) (deps : list string) : ManifestStep :=
  mkStep id id rt_mock None None (Some deps) None None None.
