(* ===== verification/Graph.v ===== *)
(** The dependency graph of a workflow: [src/src/orchestrator/graph.ts].

    [detectCycle] is the source's explicit-stack three-colour search and [computePhases] its
    phase computation, both with a fuel that the theorems show to be enough. The graph-theoretic
    specification is the relation [depends adj x y] (step [x] reads the output of step [y]) and
    its transitive closure. *)
From S2P Require Import Prelude JsValue Manifest.

(** An adjacency map: step id to the set of step ids it depends on. *)
Abbreviation adjacency := (list (string * list string)).

(** ** Definitions *)

(** @src src/src/orchestrator/graph.ts 24-30 buildDependencyGraph *)
Definition buildDependencyGraph (steps : list ManifestStep) : adjacency :=
  jm_fill step_id (fun s => js_set_of (input_from s)) [] steps.

(** [adjacency.get(node) ?? new Set()]. *)
Definition deps_of (adj : adjacency) (v : string) : list string := default [] (jm_get adj v).

(** The three colours of [detectCycle] ([WHITE], [GRAY], [BLACK]). *)
Inductive color : Set := White | Gray | Black.

#[export] Instance color_eq_dec : EqDecision color.
Proof. solve_decision. Defined.

(** @src src/src/orchestrator/graph.ts 37-39 detectCycle. The state the search mutates: colours, parents ([Some None] is the source's [null]) and the
    stack, its top first. *)
Record dfs_state : Type := mkDfs {
  dfs_color : gmap string color;
  dfs_parent : gmap string (option string);
  dfs_stack : list string
}.

(** @src src/src/orchestrator/graph.ts 58-66 detectCycle. The loop that walks [parent] from [cur] until [dep], pushing each node on [cycle] (kept
    reversed, so the source's final [cycle.reverse()] is the accumulator read front to back). *)
Fixpoint walk_parents (fuel : nat) (parent : gmap string (option string)) (dep cur : string)
    (rev_cycle : list string) : list string :=
  match fuel with
  | O => rev_cycle
  | S n =>
      if decide (cur = dep) then rev_cycle
      else match parent !! cur with
           | Some (Some p) => walk_parents n parent dep p (p :: rev_cycle)
           | _ => rev_cycle
           end
  end.

(** @src src/src/orchestrator/graph.ts 54-73 detectCycle. The [for (const dep of deps)] loop of a visited node: [inl cycle] when it meets a gray
    dependency, otherwise the parents and the stack it leaves. *)
Fixpoint visit_deps (fuel : nat) (adj : adjacency) (col : gmap string color) (node : string)
    (deps : list string) (parent : gmap string (option string)) (stack : list string)
    : list string + gmap string (option string) * list string :=
  match deps with
  | [] => inr (parent, stack)
  | dep :: deps' =>
      if negb (jm_has adj dep) then visit_deps fuel adj col node deps' parent stack
      else match col !! dep with
           | Some Gray => inl (walk_parents fuel parent dep node [node; dep])
           | Some White => visit_deps fuel adj col node deps' (<[dep := Some node]> parent) (dep :: stack)
           | _ => visit_deps fuel adj col node deps' parent stack
           end
  end.

(** What a bounded search answers. *)
Inductive dfs_answer : Type :=
| Found (cycle : list string)
| Done (col : gmap string color) (parent : gmap string (option string))
| OutOfFuel.

(** @src src/src/orchestrator/graph.ts 48-79 detectCycle. The [while (stack.length > 0)] loop. *)
Fixpoint dfs_loop (fuel wfuel : nat) (adj : adjacency) (st : dfs_state) : dfs_answer :=
  match fuel with
  | O => OutOfFuel
  | S n =>
      match dfs_stack st with
      | [] => Done (dfs_color st) (dfs_parent st)
      | node :: rest =>
          if decide (dfs_color st !! node = Some White) then
            let col := <[node := Gray]> (dfs_color st) in
            match visit_deps wfuel adj col node (deps_of adj node) (dfs_parent st) (dfs_stack st) with
            | inl cycle => Found cycle
            | inr (parent, stack) => dfs_loop n wfuel adj (mkDfs col parent stack)
            end
          else dfs_loop n wfuel adj (mkDfs (<[node := Black]> (dfs_color st)) (dfs_parent st) rest)
      end
  end.

(** @src src/src/orchestrator/graph.ts 45-82 detectCycle. The outer [for (const start of adjacency.keys())] loop. *)
Fixpoint dfs_starts (fuel wfuel : nat) (adj : adjacency) (starts : list string)
    (col : gmap string color) (parent : gmap string (option string)) : dfs_answer :=
  match starts with
  | [] => Done col parent
  | start :: starts' =>
      if decide (col !! start = Some White) then
        match dfs_loop fuel wfuel adj (mkDfs col (<[start := None]> parent) [start]) with
        | Done col' parent' => dfs_starts fuel wfuel adj starts' col' parent'
        | r => r
        end
      else dfs_starts fuel wfuel adj starts' col parent
  end.

(** @src src/src/orchestrator/graph.ts 41-43 detectCycle *)
Definition initial_colors (adj : adjacency) : gmap string color :=
  foldr (fun k m => <[k := White]> m) ∅ (jm_keys adj).

(** The number of iterations of the inner [while] one start can need: one visit per node, one
    pop per push, and the last test. *)
Definition dfs_fuel (adj : adjacency) : nat :=
  S (S (sum_list_with (fun k => S (length (deps_of adj k))) (jm_keys adj))).

(** @src src/src/orchestrator/graph.ts 36-84 detectCycle *)
Definition detectCycle_run (adj : adjacency) : dfs_answer :=
  dfs_starts (dfs_fuel adj) (S (length adj)) adj (jm_keys adj) (initial_colors adj) ∅.

Definition detectCycle (adj : adjacency) : option (list string) :=
  match detectCycle_run adj with Found c => Some c | _ => None end.

(** @src src/src/orchestrator/graph.ts 13-18 CycleError. What a call of this file throws: [CycleError], or an [Error] of [validateGraph]. *)
Inductive graph_error : Type :=
| CycleError (cycle : list string)
| DuplicateId (id : string)
| SelfLoop (id : string)
| OrphanRef (id dep : string).

(** @src src/src/orchestrator/graph.ts 3-6 ExecutionPhase *)
Record ExecutionPhase : Type := mkPhase { phaseIndex : nat; phase_stepIds : list string }.
(** @src src/src/orchestrator/graph.ts 8-11 GraphAnalysis *)
Record GraphAnalysis : Type := mkAnalysis { phases : list ExecutionPhase; stepOrder : list string }.

#[export] Instance ExecutionPhase_eq_dec : EqDecision ExecutionPhase.
Proof. solve_decision. Defined.

(** [<] on strings as [Array.prototype.sort] without a comparator orders them. *)
Definition str_le (a b : string) : Prop := String.leb a b = true.
#[export] Instance str_le_dec : RelDecision str_le.
Proof. intros a b. unfold str_le. apply _. Defined.

Definition js_sort (l : list string) : list string := merge_sort str_le l.

(** @src src/src/orchestrator/graph.ts 101-109 computePhases. The in-degree of each step: its dependencies that are steps, counted with repetitions. *)
Definition initial_inDegree (steps : list ManifestStep) (ids : list string) : gmap string Z :=
  gm_fill step_id (fun s => Z.of_nat (length (filter (fun d => d ∈ ids) (input_from s)))) ∅ steps.

(** @src src/src/orchestrator/graph.ts 142-149 computePhases. [inDegree.get(id) ?? 0] decremented once for every step of [ready] that [id] depends on. *)
Definition decrement (adj : adjacency) (ready : list string) (m : gmap string Z) (id : string)
    : gmap string Z :=
  foldl (fun m r => if decide (r ∈ deps_of adj id) then <[id := (default 1%Z (m !! id) - 1)%Z]> m else m)
        m ready.

(** @src src/src/orchestrator/graph.ts 115-152 computePhases. The [while (remaining.size > 0)] loop of [computePhases]. [None]: out of fuel. *)
Fixpoint phases_loop (fuel : nat) (adj : adjacency) (inDegree : gmap string Z)
    (remaining : list string) (acc : list ExecutionPhase) (order : list string)
    : option (result graph_error GraphAnalysis) :=
  match remaining with
  | [] => Some (Ok (mkAnalysis acc order))
  | _ :: _ =>
    match fuel with
    | O => None
    | S n =>
      let ready := filter (fun id => default 0%Z (inDegree !! id) = 0%Z) remaining in
      if decide (ready = []) then
        let subAdj := jm_fill id (fun id => filter (fun d => d ∈ remaining) (deps_of adj id))
          [] remaining in
        Some (Err (CycleError (default remaining (detectCycle subAdj))))
      else
        let sorted := js_sort ready in
        let remaining' := filter (fun id => id ∉ sorted) remaining in
        phases_loop n adj (foldl (decrement adj sorted) inDegree remaining') remaining'
          (acc ++ [mkPhase (length acc) sorted]) (order ++ sorted)
    end
  end.

(** @src src/src/orchestrator/graph.ts 90-153 computePhases *)
Definition computePhases_run (steps : list ManifestStep)
    : option (result graph_error GraphAnalysis) :=
  let ids := js_set_of (step_ids steps) in
  phases_loop (length ids) (buildDependencyGraph steps) (initial_inDegree steps ids) ids [] [].

Definition computePhases (steps : list ManifestStep) : result graph_error GraphAnalysis :=
  default (Ok (mkAnalysis [] [])) (computePhases_run steps).

(** @src src/src/orchestrator/graph.ts 160-167 validateGraph. The three loops of [validateGraph] before the cycle check. *)
Fixpoint check_duplicates (ids : list string) (steps : list ManifestStep) : result graph_error (list string) :=
  match steps with
  | [] => Ok ids
  | s :: steps' =>
      if decide (step_id s ∈ ids) then Err (DuplicateId (step_id s))
      else check_duplicates (js_set_add ids (step_id s)) steps'
  end.

(** @src src/src/orchestrator/graph.ts 169-174 validateGraph *)
Definition check_self_loop (s : ManifestStep) : result graph_error unit :=
  throw_if (bool_decide (step_id s ∈ input_from s)) (SelfLoop (step_id s)).

(** @src src/src/orchestrator/graph.ts 176-183 validateGraph *)
Definition check_orphans (ids : list string) (s : ManifestStep) : result graph_error unit :=
  for_each (fun dep => throw_if (negb (bool_decide (dep ∈ ids))) (OrphanRef (step_id s) dep)) (input_from s).

(** @src src/src/orchestrator/graph.ts 159-191 validateGraph *)
Definition validateGraph (steps : list ManifestStep) : result graph_error unit :=
  ids ← check_duplicates [] steps;
  _ ← for_each check_self_loop steps;
  _ ← for_each (check_orphans ids) steps;
  match detectCycle (buildDependencyGraph steps) with
  | Some cycle => Err (CycleError cycle)
  | None => Ok tt
  end.

(** ** Specification *)

(** [x] depends on [y]: both are nodes and [y] is in the set of [x]. *)
Definition depends (adj : adjacency) (x y : string) : Prop :=
  x ∈ jm_keys adj /\ y ∈ jm_keys adj /\ y ∈ deps_of adj x.

Definition acyclic (adj : adjacency) : Prop := forall x, ~ tc (depends adj) x x.

(** Each element depends on the next. *)
Fixpoint dep_path (adj : adjacency) (l : list string) : Prop :=
  match l with
  | x :: ((y :: _) as t) => depends adj x y /\ dep_path adj t
  | _ => True
  end.

(** A closed dependency path: [x], ..., [x]. *)
Definition is_cycle (adj : adjacency) (c : list string) : Prop :=
  exists x l, c = x :: l /\ last l = Some x /\ dep_path adj c.

Lemma dep_path_tc adj x l y :
  dep_path adj (x :: l) -> last l = Some y -> tc (depends adj) x y.
Proof.
  revert x. induction l as [|z l IH]; intros x; [done|].
  intros [Hxz Hl] Hlast. destruct l as [|z' l].
  - simpl in Hlast. simplify_eq. by apply tc_once.
  - eapply tc_l; [done|]. by apply IH.
Qed.

Lemma is_cycle_not_acyclic adj c : is_cycle adj c -> ~ acyclic adj.
Proof. intros (x & l & -> & Hl & Hp) Ha. eapply Ha, dep_path_tc; done. Qed.

(** ** The search is correct *)

Section Search.
Context (adj : adjacency).
Implicit Types (col : gmap string color) (parent : gmap string (option string)).
Implicit Types (fs : list (string * list string)) (L : list string).

(** A list of finished nodes, latest first, in which every dependency of a node is finished
    before it. *)
Fixpoint topo (L : list string) : Prop :=
  match L with
  | [] => True
  | v :: L' => v ∉ L' /\ (forall d, depends adj v d -> d ∈ L') /\ topo L'
  end.

Lemma topo_split L v : topo L -> v ∈ L ->
  exists L1 L2, L = L1 ++ v :: L2 /\ v ∉ L2 /\ (forall d, depends adj v d -> d ∈ L2) /\ topo L2.
Proof.
  induction L as [|w L IH]; [set_solver|].
  intros (Hw & Hd & Ht) [->|Hv]%elem_of_cons; [by exists [], L|].
  destruct (IH Ht Hv) as (L1 & L2 & -> & ?). by exists (w :: L1), L2.
Qed.

Lemma topo_tc L v w : topo L -> v ∈ L -> tc (depends adj) v w ->
  exists L1 L2, L = L1 ++ v :: L2 /\ v ∉ L2 /\ w ∈ L2 /\ topo L2.
Proof.
  intros Ht Hv Hvw. revert L Ht Hv.
  induction Hvw as [v w H|v u w H Huw IH]; intros L Ht Hv.
  - destruct (topo_split L v Ht Hv) as (L1 & L2 & -> & ? & Hd & ?). exists L1, L2. auto.
  - destruct (topo_split L v Ht Hv) as (L1 & L2 & -> & ? & Hd & Ht2).
    destruct (IH L2 Ht2 (Hd _ H)) as (L3 & L4 & -> & ? & ? & ?).
    exists L1, (L3 ++ u :: L4). set_solver.
Qed.

Lemma topo_acyclic L : topo L -> (forall v, v ∈ jm_keys adj -> v ∈ L) -> acyclic adj.
Proof.
  intros Ht Hk x Hx.
  assert (x ∈ jm_keys adj) as Hin by (inversion Hx; by match goal with H : depends _ _ _ |- _ => destruct H end).
  destruct (topo_tc L x x Ht (Hk _ Hin) Hx) as (? & ? & _ & ? & ? & _). done.
Qed.

(** The stack as frames, top first: a gray node and, above it, the dependencies it pushed that
    are still waiting. *)
Fixpoint flat (fs : list (string * list string)) : list string :=
  match fs with [] => [] | (g, seg) :: fs' => seg ++ g :: flat fs' end.

(** Each gray node's parent is the gray node below it. *)
Fixpoint linked (parent : gmap string (option string)) (gs : list string) : Prop :=
  match gs with
  | [] => True
  | [g] => parent !! g = Some None
  | g :: ((h :: _) as gs') => parent !! g = Some (Some h) /\ depends adj h g /\ linked parent gs'
  end.

(** Each gray node's dependencies are finished, waiting, or the gray node above. *)
Fixpoint wf_frames (L : list string) (next : option string) (fs : list (string * list string)) : Prop :=
  match fs with
  | [] => True
  | (g, seg) :: fs' =>
      g ∈ jm_keys adj /\ g ∉ (fs'.*1) /\
      (forall d, depends adj g d -> d ∈ L \/ d ∈ seg \/ next = Some d) /\
      (forall x, x ∈ seg -> depends adj g x /\ x ∉ g :: fs'.*1) /\
      wf_frames L (Some g) fs'
  end.

(** A white node on the stack has as parent the topmost gray node that pushed it. *)
Fixpoint owned col parent (seen : list string) fs : Prop :=
  match fs with
  | [] => True
  | (g, seg) :: fs' =>
      (forall x, x ∈ seg -> x ∉ seen -> col !! x = Some White -> parent !! x = Some (Some g)) /\
      owned col parent (seen ++ seg) fs'
  end.

Record Inv col parent fs L : Prop := mkInv {
  inv_dom : forall v, is_Some (col !! v) <-> v ∈ jm_keys adj;
  inv_gray : forall v, col !! v = Some Gray <-> v ∈ (fs.*1);
  inv_black : forall v, col !! v = Some Black <-> v ∈ L;
  inv_linked : linked parent (fs.*1);
  inv_wf : wf_frames L None fs;
  inv_owned : owned col parent [] fs;
  inv_topo : topo L
}.

Lemma wf_frames_mono L L' next next' fs :
  wf_frames L next fs -> (forall d, d ∈ L -> d ∈ L') ->
  (forall d, next = Some d -> d ∈ L' \/ next' = Some d) ->
  wf_frames L' next' fs.
Proof.
  revert next next'. induction fs as [|[g seg] fs IH]; intros next next'; [done|].
  intros (? & ? & Hc & ? & ?) HL Hn. simpl. split_and!; [done..| |done|].
  - intros d Hd. destruct (Hc d Hd) as [?|[?|?]]; [by left; auto|auto|].
    destruct (Hn d); auto.
  - eapply IH; [done|done|]. auto.
Qed.

Lemma owned_mono col col' parent parent' seen seen' fs :
  owned col parent seen fs ->
  (forall d, col' !! d = Some White -> d ∉ seen' ->
     col !! d = Some White /\ d ∉ seen /\ parent' !! d = parent !! d) ->
  owned col' parent' seen' fs.
Proof.
  revert seen seen'. induction fs as [|[g seg] fs IH]; intros seen seen'; [done|].
  intros [Ho Hos] Hm. split.
  - intros x Hx Hs Hw. destruct (Hm x Hw Hs) as (? & ? & ->). auto.
  - eapply IH; [done|]. intros d Hd. rewrite !not_elem_of_app. intros [? ?].
    destruct (Hm d) as (? & ? & ?); auto.
Qed.

Lemma linked_agree parent parent' gs :
  linked parent gs -> (forall g, g ∈ gs -> parent' !! g = parent !! g) -> linked parent' gs.
Proof.
  induction gs as [|g gs IH]; [done|]. intros Hl Ha. destruct gs as [|h gs].
  - simpl in *. rewrite Ha; [done|by left].
  - destruct Hl as (? & ? & ?). split_and!.
    + rewrite Ha by left. done.
    + done.
    + apply IH; [done|]. intros. apply Ha. by right.
Qed.

(** Walking the parents from the top gray node to [dep] spells out a cycle. *)
Lemma walk_parents_spec parent dep gs node tl fuel :
  linked parent (node :: gs) -> dep ∈ node :: gs -> length gs < fuel ->
  dep_path adj (node :: tl) ->
  exists l, walk_parents fuel parent dep node (node :: tl) = dep :: l /\
    dep_path adj (dep :: l) /\ last (dep :: l) = last (node :: tl) /\ length tl <= length l.
Proof.
  revert node tl fuel. induction gs as [|h gs IH]; intros node tl fuel Hl Hdep Hf Hp.
  - apply list_elem_of_singleton in Hdep as ->. destruct fuel; [simpl in Hf; lia|].
    simpl. rewrite decide_True by done. eauto.
  - destruct fuel as [|fuel]; [simpl in Hf; lia|]. simpl. case_decide as E.
    + subst. eauto.
    + destruct Hl as (-> & Hh & Hl). apply elem_of_cons in Hdep as [?|Hdep]; [done|].
      destruct (IH h (node :: tl) fuel) as (l & -> & ? & Hlast & Hlen); [done..|simpl in Hf; lia|by split|].
      exists l. split_and!; [done..| |]; [by rewrite Hlast|simpl in Hlen; lia].
Qed.

Lemma visit_deps_spec wfuel col node gs deps parent stack :
  (forall v, is_Some (col !! v) <-> v ∈ jm_keys adj) ->
  (forall v, col !! v = Some Gray <-> v ∈ node :: gs) ->
  (forall d, d ∈ deps -> d ∈ deps_of adj node) -> node ∈ jm_keys adj ->
  linked parent (node :: gs) -> length gs < wfuel ->
  match visit_deps wfuel adj col node deps parent stack with
  | inl c => is_cycle adj c
  | inr (parent', stack') => exists pushed,
      stack' = pushed ++ stack /\ length pushed <= length deps /\
      (forall d, d ∈ pushed -> depends adj node d /\ col !! d = Some White /\ parent' !! d = Some (Some node)) /\
      (forall d, d ∈ deps -> d ∈ jm_keys adj -> d ∈ pushed \/ col !! d = Some Black) /\
      (forall d, d ∉ pushed -> parent' !! d = parent !! d)
  end.
Proof.
  intros Hdom Hgray. revert parent stack.
  induction deps as [|d deps IH]; intros parent stack Hdeps Hnode Hl Hf; simpl.
  - exists []. split_and!; set_solver.
  - unfold jm_has. case_bool_decide as Hd; simpl.
    + assert (depends adj node d) as Hnd by (split_and!; [done..|by apply Hdeps; left]).
      assert (forall x, x ∈ deps -> x ∈ deps_of adj node) as Hdeps' by (intros; apply Hdeps; by right).
      destruct (col !! d) as [[]|] eqn:Ec.
      * specialize (IH (<[d:=Some node]> parent) (d :: stack)).
        destruct (visit_deps _ _ _ _ _ _ _) as [c|[parent' stack']]; apply IH in Hdeps' as Hr; try done.
        all: try (eapply linked_agree; [done|]; intros g Hg; apply Hgray in Hg;
                  rewrite lookup_insert_ne; [done|congruence]).
        destruct Hr as (pu & -> & Hlen & Hpu & Hcov & Hpar). exists (pu ++ [d]).
        assert (d ∉ pu -> parent' !! d = Some (Some node)) as Hpd.
        { intros n. rewrite Hpar by done. apply lookup_insert_eq. }
        split_and!.
        -- by rewrite <-app_assoc.
        -- rewrite length_app. simpl. lia.
        -- intros x [Hx|Hx%list_elem_of_singleton]%elem_of_app; [by apply Hpu|subst].
           split_and!; [done..|]. destruct (decide (d ∈ pu)); [by apply Hpu|auto].
        -- intros x [->|Hx]%elem_of_cons Hk; [left; set_solver|].
           destruct (Hcov x Hx Hk); [left; set_solver|by right].
        -- intros x. rewrite not_elem_of_app, list_elem_of_singleton. intros [? ?].
           rewrite Hpar by done. by rewrite lookup_insert_ne.
      * destruct (walk_parents_spec parent d gs node [d] wfuel) as (l & -> & Hp & Hlast & Hlen);
          [done|by apply Hgray|done|by split|].
        exists d, l. split_and!; [done| |done].
        destruct l as [|x l]; [simpl in Hlen; lia|done].
      * specialize (IH parent stack Hdeps' Hnode Hl Hf).
        destruct (visit_deps _ _ _ _ _ _ _) as [c|[parent' stack']]; [done|].
        destruct IH as (pu & -> & Hlen & Hpu & Hcov & Hpar). exists pu.
        split_and!; [done|lia|done| |done].
        intros x [->|Hx]%elem_of_cons Hk; [by right|auto].
      * apply Hdom in Hd as [? Hc]. congruence.
    + assert (forall x, x ∈ deps -> x ∈ deps_of adj node) as Hdeps' by (intros; apply Hdeps; by right).
      specialize (IH parent stack Hdeps' Hnode Hl Hf).
      destruct (visit_deps _ _ _ _ _ _ _) as [c|[parent' stack']]; [done|].
      destruct IH as (pu & -> & Hlen & Hpu & Hcov & Hpar). exists pu.
      split_and!; [done|lia|done| |done].
      intros x [->|Hx]%elem_of_cons Hk; [done|auto].
Qed.
(** What holds when the top of the stack is a white node [x] about to be visited. *)
Record Pre col parent (x : string) fs L : Prop := mkPre {
  pre_dom : forall v, is_Some (col !! v) <-> v ∈ jm_keys adj;
  pre_gray : forall v, col !! v = Some Gray <-> v ∈ (fs.*1);
  pre_black : forall v, col !! v = Some Black <-> v ∈ L;
  pre_white : col !! x = Some White;
  pre_linked : linked parent (x :: (fs.*1));
  pre_wf : wf_frames L (Some x) fs;
  pre_owned : owned col parent [x] fs;
  pre_topo : topo L
}.

Lemma Inv_Pre col parent g x seg fs L :
  Inv col parent ((g, x :: seg) :: fs) L -> col !! x = Some White ->
  Pre col parent x ((g, seg) :: fs) L.
Proof.
  intros [Hd Hg Hb Hl Hw Ho Ht] Hx. destruct Hw as (Hgk & Hgf & Hc & Hs & Hw).
  destruct Ho as [Ho Hos]. destruct (Hs x) as [Hgx Hxf]; [by left|].
  split; try done.
  - simpl. split_and!; [|done|done]. apply Ho; [by left|set_solver|done].
  - simpl. split_and!; [done|done| | |done].
    + intros d Hdd. destruct (Hc d Hdd) as [?|[[->|?]%elem_of_cons|?]]; [auto..|congruence].
    + intros y Hy. apply Hs. by right.
  - split.
    + intros y Hy Hyx Hyw. apply Ho; [by right|set_solver|done].
    + eapply owned_mono; [done|]. intros d Hdw Hds. split_and!; [done|set_solver|done].
Qed.

(** Visiting a white node keeps the invariant. *)
Lemma visit_Inv wfuel col parent x fs L :
  Pre col parent x fs L -> length fs < wfuel ->
  match visit_deps wfuel adj (<[x := Gray]> col) x (deps_of adj x) parent (x :: flat fs) with
  | inl c => is_cycle adj c
  | inr (parent', stack') => exists pushed,
      stack' = flat ((x, pushed) :: fs) /\ length pushed <= length (deps_of adj x) /\
      Inv (<[x := Gray]> col) parent' ((x, pushed) :: fs) L
  end.
Proof.
  intros [Hd Hg Hb Hx Hl Hw Ho Ht] Hf.
  assert (x ∈ jm_keys adj) as Hxk by (apply Hd; eauto).
  assert (x ∉ (fs.*1)) as Hxf by (intros H; apply Hg in H; congruence).
  assert (forall v, is_Some (<[x:=Gray]> col !! v) <-> v ∈ jm_keys adj) as Hd'.
  { intros v. rewrite lookup_insert. case_decide; subst; naive_solver. }
  assert (forall v, <[x:=Gray]> col !! v = Some Gray <-> v ∈ x :: (fs.*1)) as Hg'.
  { intros v. rewrite lookup_insert, elem_of_cons. case_decide; subst; [naive_solver|].
    rewrite Hg. naive_solver. }
  pose proof (visit_deps_spec wfuel _ x (fs.*1) (deps_of adj x) parent (x :: flat fs)
    Hd' Hg' (fun _ H => H) Hxk Hl) as Hv.
  rewrite length_fmap in Hv. specialize (Hv Hf).
  destruct (visit_deps _ _ _ _ _ _ _) as [c|[parent' stack']]; [done|].
  destruct Hv as (pu & -> & Hlen & Hpu & Hcov & Hpar). exists pu. split_and!; [done..|].
  assert (forall v, v ∈ x :: (fs.*1) -> v ∉ pu) as Hgpu.
  { intros v Hv Hp. apply Hg' in Hv. apply Hpu in Hp. naive_solver congruence. }
  split; try done.
  - intros v. rewrite lookup_insert. case_decide; subst; [|done].
    split; [done|]. intros HL%Hb. congruence.
  - eapply linked_agree; [done|]. intros g Hgg. by apply Hpar, Hgpu.
  - simpl. split_and!; [done|done| | |done].
    + intros d (_ & Hdk & Hdd). destruct (Hcov d Hdd Hdk) as [?|Hbl]; [auto|].
      left. apply Hb. rewrite lookup_insert in Hbl. by case_decide.
    + intros y Hy. split; [by apply Hpu|]. intros Hyg. by apply (Hgpu y).
  - split.
    + intros y Hy _ _. by apply Hpu.
    + eapply owned_mono; [done|]. intros d Hdw Hdp. simpl in Hdp.
      rewrite lookup_insert in Hdw. case_decide; [done|]. split_and!; [done|set_solver|].
      by apply Hpar.
Qed.

(** Popping a finished node that was pushed twice. *)
Lemma pop_black_Inv col parent g x seg fs L :
  Inv col parent ((g, x :: seg) :: fs) L -> col !! x <> Some White ->
  col !! x = Some Black /\ Inv (<[x := Black]> col) parent ((g, seg) :: fs) L.
Proof.
  intros [Hd Hg Hb Hl Hw Ho Ht] Hx. destruct Hw as (Hgk & Hgf & Hc & Hs & Hw).
  destruct Ho as [Ho Hos]. destruct (Hs x) as [(_ & Hxk & _) Hxf]; [by left|].
  assert (col !! x = Some Black) as Hxb.
  { apply Hd in Hxk as [c Hc']. destruct c; [done| |done]. by apply Hg in Hc'. }
  split; [done|]. rewrite insert_id by done.
  split; try done.
  - simpl. split_and!; [done|done| | |done].
    + intros d Hdd. destruct (Hc d Hdd) as [?|[[->|?]%elem_of_cons|?]]; [auto| |auto|congruence].
      left. by apply Hb.
    + intros y Hy. apply Hs. by right.
  - split.
    + intros y Hy Hyx Hyw. apply Ho; [by right|set_solver|done].
    + eapply owned_mono; [done|]. simpl. intros d Hdw Hds.
      split_and!; [done| |done]. intros [->|?]%elem_of_cons; [congruence|done].
Qed.

(** Finishing a gray node. *)
Lemma finish_Inv col parent g fs L :
  Inv col parent ((g, []) :: fs) L ->
  col !! g = Some Gray /\ Inv (<[g := Black]> col) parent fs (g :: L).
Proof.
  intros [Hd Hg Hb Hl Hw Ho Ht]. destruct Hw as (Hgk & Hgf & Hc & Hs & Hw).
  destruct Ho as [Ho Hos]. assert (col !! g = Some Gray) as Hgg by (apply Hg; by left).
  split; [done|]. split.
  - intros v. rewrite lookup_insert. case_decide; subst; naive_solver.
  - intros v. rewrite lookup_insert. case_decide; subst.
    + split; [done|]. intros. done.
    + rewrite Hg. set_solver.
  - intros v. rewrite lookup_insert, elem_of_cons. case_decide; subst; [naive_solver|].
    rewrite Hb. naive_solver.
  - destruct fs as [|[h ?] ?]; [done|]. by destruct Hl as (_ & _ & ?).
  - eapply wf_frames_mono; [done|set_solver|]. intros d [= ->]. left. by left.
  - eapply owned_mono; [done|]. intros d Hdw _. rewrite lookup_insert in Hdw.
    case_decide; [done|]. split_and!; [done|set_solver|done].
  - simpl. split_and!; [intros HL%Hb; congruence| |done].
    intros d Hdd. destruct (Hc d Hdd) as [?|[[]%elem_of_nil|?]]; [done|congruence].
Qed.

(** *** Termination *)

(** The work a node still costs: its visit and the pops of what it pushes. *)
Definition white_cost col (k : string) : nat :=
  if decide (col !! k = Some White) then S (length (deps_of adj k)) else 0.

Definition work col (stack : list string) : nat :=
  length stack + sum_list_with (white_cost col) (jm_keys adj).

Lemma white_cost_insert col x c k : c <> White ->
  white_cost (<[x := c]> col) k = if decide (x = k) then 0 else white_cost col k.
Proof.
  intros Hc. unfold white_cost. rewrite lookup_insert.
  destruct (decide (x = k)) as [->|]; [|done]. rewrite decide_False; [done|]. congruence.
Qed.

Lemma sum_insert_le col x c l : c <> White ->
  sum_list_with (white_cost (<[x := c]> col)) l <= sum_list_with (white_cost col) l.
Proof.
  intros Hc. induction l as [|k l IH]; [done|]. cbn [sum_list_with]. 
  rewrite white_cost_insert by done. case_decide; lia.
Qed.

Lemma sum_visit_le col x l : x ∈ l -> col !! x = Some White ->
  sum_list_with (white_cost (<[x := Gray]> col)) l + S (length (deps_of adj x))
    <= sum_list_with (white_cost col) l.
Proof.
  intros Hin Hx. induction l as [|k l IH]; [by apply not_elem_of_nil in Hin|].
  cbn [sum_list_with]. rewrite white_cost_insert by done. case_decide.
  - subst. pose proof (sum_insert_le col k Gray l). unfold white_cost at 2.
    rewrite decide_True by done. specialize (H ltac:(done)). lia.
  - apply elem_of_cons in Hin as [?|Hin]; [done|]. specialize (IH Hin). lia.
Qed.
Lemma wf_frames_length L next fs : wf_frames L next fs -> length fs <= length adj.
Proof.
  intros Hw. assert (NoDup (fs.*1) /\ (fs.*1) ⊆ jm_keys adj) as [Hnd Hsub].
  { revert next Hw. induction fs as [|[g seg] fs IH]; intros next; [split; [constructor|set_solver]|].
    intros (? & ? & _ & _ & Hw). destruct (IH _ Hw). csimpl. split; [by constructor|set_solver]. }
  rewrite <-(length_fmap fst fs), <-(length_fmap fst adj).
  apply submseteq_length, NoDup_submseteq; [done|]. intros x Hx. by apply Hsub.
Qed.

(** What a run of the loop from [fs] and [L] answers: a real cycle, or a state in which every
    node of the stack is finished. It never runs out of fuel. *)
Definition loop_post (stack L : list string) (r : dfs_answer) : Prop :=
  match r with
  | Found c => is_cycle adj c
  | Done col' parent' => exists L', Inv col' parent' [] L' /\
      (forall v, v ∈ L \/ v ∈ stack -> v ∈ L')
  | OutOfFuel => False
  end.

Lemma loop_post_weaken stack stack' L L' r :
  loop_post stack L r -> (forall v, v ∈ L' \/ v ∈ stack' -> v ∈ L \/ v ∈ stack) ->
  loop_post stack' L' r.
Proof.
  destruct r as [| |]; simpl; [done| |done]. intros (L2 & ? & HL) Hw. exists L2. auto.
Qed.

Definition loop_ok (fuel : nat) : Prop := forall col parent fs L,
  Inv col parent fs L -> work col (flat fs) < fuel ->
  loop_post (flat fs) L (dfs_loop fuel (S (length adj)) adj (mkDfs col parent (flat fs))).

Lemma loop_visit n col parent x fs L :
  loop_ok n -> Pre col parent x fs L -> work col (x :: flat fs) < S n ->
  loop_post (x :: flat fs) L
    (dfs_loop (S n) (S (length adj)) adj (mkDfs col parent (x :: flat fs))).
Proof.
  intros IH Hpre Hwork. pose proof Hpre as [Hd _ _ Hx _ Hw _ _].
  cbn [dfs_loop dfs_stack dfs_color dfs_parent]. rewrite decide_True by done.
  pose proof (visit_Inv (S (length adj)) col parent x fs L Hpre) as Hv.
  specialize (Hv ltac:(apply wf_frames_length in Hw; lia)).
  destruct (visit_deps _ _ _ _ _ _ _) as [c|[parent' stack']]; [done|].
  destruct Hv as (pu & -> & Hlen & HI).
  eapply loop_post_weaken; [apply (IH _ _ _ _ HI)|].
  - unfold work in *. assert (x ∈ jm_keys adj) as Hk by (apply Hd; eauto).
    pose proof (sum_visit_le col x (jm_keys adj) Hk Hx).
    simpl in *. rewrite length_app. simpl. lia.
  - simpl. set_solver.
Qed.

Lemma loop_correct fuel : loop_ok fuel.
Proof.
  induction fuel as [|n IH]; intros col parent fs L HI Hwork; [lia|].
  destruct fs as [|[g [|x seg]] fs].
  - simpl. exists L. set_solver.
  - destruct (finish_Inv _ _ _ _ _ HI) as [Hg HI'].
    cbn [dfs_loop dfs_stack flat app dfs_color dfs_parent]. rewrite decide_False by congruence.
    eapply loop_post_weaken; [apply (IH _ _ _ _ HI')|set_solver].
    unfold work in *. simpl in Hwork.
    pose proof (sum_insert_le col g Black (jm_keys adj) ltac:(done)). lia.
  - destruct (decide (col !! x = Some White)) as [Hx|Hx].
    + apply Inv_Pre in HI as Hpre; [|done].
      change (flat ((g, x :: seg) :: fs)) with (x :: flat ((g, seg) :: fs)) in *.
      by apply loop_visit.
    + destruct (pop_black_Inv _ _ _ _ _ _ _ HI Hx) as [Hb HI'].
      change (flat ((g, x :: seg) :: fs)) with (x :: flat ((g, seg) :: fs)) in *.
      cbn [dfs_loop dfs_stack dfs_color dfs_parent]. rewrite decide_False by congruence.
      eapply loop_post_weaken; [apply (IH _ _ _ _ HI')|].
      * unfold work in *. cbn [length] in Hwork.
        pose proof (sum_insert_le col x Black (jm_keys adj) ltac:(done)). lia.
      * intros v [?|[->|?]%elem_of_cons]; [by left|left; by apply HI|by right].
Qed.

Lemma starts_correct starts col parent L :
  Inv col parent [] L -> (forall v, v ∈ starts -> v ∈ jm_keys adj) ->
  loop_post starts L (dfs_starts (dfs_fuel adj) (S (length adj)) adj starts col parent).
Proof.
  revert col parent L. induction starts as [|s starts IH]; intros col parent L HI Hk.
  - simpl. exists L. set_solver.
  - cbn [dfs_starts]. destruct (decide _) as [Hs|Hs].
    + pose proof (loop_visit (pred (dfs_fuel adj)) col (<[s:=None]> parent) s [] L) as Hv.
      destruct HI as [Hd Hg Hb Hl Hw Ho Ht].
      change (S (pred (dfs_fuel adj))) with (dfs_fuel adj) in Hv. simpl flat in Hv.
      ospecialize (Hv (loop_correct _) _ _).
      { split; try done. apply lookup_insert_eq. }
      { unfold work, dfs_fuel. simpl.
        assert (forall l, sum_list_with (white_cost col) l
          <= sum_list_with (fun k => S (length (deps_of adj k))) l) as Hle.
        { induction l; [done|]. cbn [sum_list_with]. unfold white_cost at 1. case_decide; lia. }
        specialize (Hle (jm_keys adj)). lia. }
      destruct (dfs_loop _ _ _ _) as [c|col' parent'|]; [done| |done].
      destruct Hv as (L' & HI' & HL).
      eapply loop_post_weaken; [apply (IH _ _ _ HI'); set_solver|set_solver].
    + eapply loop_post_weaken; [apply (IH _ _ _ HI); set_solver|].
      intros v [?|[->|?]%elem_of_cons]; [by left| |by right].
      left. apply HI. destruct (proj2 (inv_dom _ _ _ _ HI s)) as [[] Hc]; [by apply Hk; left|done| |done].
      by apply HI, elem_of_nil in Hc.
Qed.

Lemma initial_colors_lookup v :
  initial_colors adj !! v = if decide (v ∈ jm_keys adj) then Some White else None.
Proof.
  unfold initial_colors. induction (jm_keys adj) as [|k l IH]; [done|]. cbn [foldr].
  rewrite lookup_insert, IH. repeat case_decide; set_solver.
Qed.

Lemma initial_Inv : Inv (initial_colors adj) ∅ [] [].
Proof.
  split; try done; intros v; rewrite initial_colors_lookup; case_decide; set_solver.
Qed.

Lemma run_correct : match detectCycle_run adj with
  | Found c => is_cycle adj c
  | Done _ _ => exists L, topo L /\ forall v, v ∈ jm_keys adj -> v ∈ L
  | OutOfFuel => False
  end.
Proof.
  pose proof (starts_correct (jm_keys adj) _ _ _ initial_Inv (fun _ H => H)) as H.
  unfold detectCycle_run. destruct (dfs_starts _ _ _ _ _ _); [done| |done].
  destruct H as (L' & HI & HL). exists L'. split; [apply HI|]. auto.
Qed.

Lemma detectCycle_None : detectCycle adj = None ->
  exists L, topo L /\ forall v, v ∈ jm_keys adj -> v ∈ L.
Proof.
  pose proof run_correct as H. unfold detectCycle. by destruct (detectCycle_run adj).
Qed.

Lemma detectCycle_Some c : detectCycle adj = Some c -> is_cycle adj c.
Proof.
  pose proof run_correct as H. unfold detectCycle. destruct (detectCycle_run adj); naive_solver.
Qed.

(** In a finished order some node has no dependency left. *)
Lemma topo_no_successor L (P : string -> Prop) v :
  topo L -> v ∈ L -> P v -> (forall x, P x -> exists y, P y /\ depends adj x y) -> False.
Proof.
  intros Ht Hv HP Hs. revert v Ht Hv HP.
  induction L as [L IH] using (induction_ltof1 _ (@length string)); unfold ltof in IH.
  intros v Ht Hv HP. destruct (Hs v HP) as (w & Hw & Hvw).
  destruct (topo_split L v Ht Hv) as (L1 & L2 & -> & _ & Hd & Ht2).
  apply (IH L2) with w; [|done|by apply Hd|done].
  rewrite length_app. simpl. lia.
Qed.
End Search.

Lemma detectCycle_spec (adj : adjacency) :
  detectCycle_run adj <> OutOfFuel /\
  (detectCycle adj = None <-> acyclic adj) /\
  (forall c, detectCycle adj = Some c -> is_cycle adj c).
Proof.
  split_and!; [| |apply detectCycle_Some].
  - pose proof (run_correct adj) as H. by intros E; rewrite E in H.
  - split.
    + intros (L & Ht & HL)%detectCycle_None. by apply (topo_acyclic adj L).
    + intros Ha. destruct (detectCycle adj) eqn:E; [|done].
      by apply detectCycle_Some, is_cycle_not_acyclic in E.
Qed.

(** The explicit-stack search of [detectCycle] ends within its fuel on every adjacency map
    and decides acyclicity: it answers a cycle exactly when some node depends on itself through
    one or more dependencies, and then the array is a closed path of dependencies of the map. *)
Theorem detectCycle_correct (adj : adjacency) :
  detectCycle_run adj <> OutOfFuel /\
  (detectCycle adj = None <-> acyclic adj) /\
  (forall c, detectCycle adj = Some c -> is_cycle adj c).
Proof. apply detectCycle_spec. Qed.

(** ** The phases are correct *)

Lemma buildDependencyGraph_keys steps :
  NoDup (step_ids steps) -> jm_keys (buildDependencyGraph steps) = step_ids steps.
Proof.
  intros Hnd. unfold buildDependencyGraph. rewrite jm_fill_keys.
  rewrite foldl_js_set_add_fresh; [done|done|set_solver].
Qed.

Lemma buildDependencyGraph_deps steps s :
  NoDup (step_ids steps) -> s ∈ steps ->
  deps_of (buildDependencyGraph steps) (step_id s) = js_set_of (input_from s).
Proof. intros. unfold deps_of, buildDependencyGraph. by rewrite jm_fill_get. Qed.

Section Counting.
Context {A : Type} `{EqDecision A}.
Implicit Types l r : list A.

Lemma filter_elem_comm l r : NoDup l -> NoDup r ->
  length (filter (fun x => x ∈ r) l) = length (filter (fun x => x ∈ l) r).
Proof.
  intros Hl Hr. apply Permutation_length, NoDup_Permutation; [by apply NoDup_filter..|].
  intros x. rewrite !list_elem_of_filter. tauto.
Qed.

Lemma filter_split l r :
  length (filter (fun x => x ∈ r) l) + length (filter (fun x => x ∉ r) l) = length l.
Proof.
  induction l as [|x l IH]; [done|]. rewrite !filter_cons.
  destruct (decide (x ∈ r)).
  - rewrite (decide_False (P:=(x ∉ r))) by tauto. simpl. lia.
  - rewrite (decide_True (P:=(x ∉ r))) by done. simpl. lia.
Qed.
End Counting.

Lemma decrement_lookup adj ready m id z id' :
  m !! id = Some z ->
  decrement adj ready m id !! id' =
    if decide (id = id') then Some (z - Z.of_nat (length (filter (fun r => r ∈ deps_of adj id) ready)))%Z
    else m !! id'.
Proof.
  unfold decrement. revert m z. induction ready as [|r ready IH]; intros m z Hm.
  - simpl. case_decide; subst; [|done]. rewrite Hm. f_equal. lia.
  - cbn [foldl]. rewrite filter_cons. destruct (decide (r ∈ deps_of adj id)) as [Hr|Hr].
    + rewrite (IH _ (z - 1)%Z) by (rewrite lookup_insert_eq; by rewrite Hm).
      case_decide; [f_equal; simpl length; lia|]. by rewrite lookup_insert_ne.
    + by apply IH.
Qed.

Lemma decrement_all_lookup adj ready l m id z :
  NoDup l -> id ∈ l -> m !! id = Some z -> (forall x, x ∈ l -> is_Some (m !! x)) ->
  foldl (decrement adj ready) m l !! id =
    Some (z - Z.of_nat (length (filter (fun r => r ∈ deps_of adj id) ready)))%Z.
Proof.
  revert m. induction l as [|x l IH]; intros m; [by intros _ []%elem_of_nil|].
  intros [Hx Hl]%NoDup_cons Hin Hm Hall. cbn [foldl].
  destruct (Hall x) as [zx Hzx]; [by left|].
  pose proof (decrement_lookup adj ready m x zx) as Hdec.
  apply elem_of_cons in Hin as [->|Hin].
  - assert (forall l m', x ∉ l -> (forall y, y ∈ l -> is_Some (m' !! y)) ->
      foldl (decrement adj ready) m' l !! x = m' !! x) as Hother.
    { clear. induction l as [|y l IH]; intros m'; [done|].
      intros [? ?]%not_elem_of_cons Hs. cbn [foldl]. destruct (Hs y) as [zy Hy]; [by left|].
      rewrite IH; [|done|].
      - rewrite (decrement_lookup _ _ _ _ zy) by done. by rewrite decide_False.
      - intros w Hw. rewrite (decrement_lookup _ _ _ _ zy) by done.
        case_decide; [by eauto|]. apply Hs. by right. }
    rewrite Hother; [|done|].
    + rewrite Hdec by done. rewrite decide_True by done. by simplify_eq.
    + intros y Hy. rewrite Hdec by done. case_decide; [by eauto|]. apply Hall. by right.
  - apply IH; [done|done| |].
    + rewrite Hdec by done. rewrite decide_False; [done|]. by intros ->.
    + intros y Hy. rewrite Hdec by done. case_decide; [by eauto|]. apply Hall. by right.
Qed.

Lemma subAdj_depends adj remaining x y :
  NoDup remaining -> (forall v, v ∈ remaining -> v ∈ jm_keys adj) ->
  depends (jm_fill id (fun i => filter (fun d => d ∈ remaining) (deps_of adj i)) [] remaining) x y <->
  x ∈ remaining /\ y ∈ remaining /\ depends adj x y.
Proof.
  intros Hnd Hk.
  set (f := fun i => filter (fun d => d ∈ remaining) (deps_of adj i)).
  assert (forall v, v ∈ remaining -> deps_of (jm_fill id f [] remaining) v = f v) as Hdeps.
  { intros v Hv. unfold deps_of. pose proof (jm_fill_get id f [] remaining v) as Hg.
    rewrite list_fmap_id in Hg. unfold id at 2 in Hg. by rewrite Hg. }
  assert (jm_keys (jm_fill id f [] remaining) = remaining) as Hkeys.
  { rewrite jm_fill_keys, list_fmap_id. by rewrite foldl_js_set_add_fresh by set_solver. }
  unfold depends. rewrite Hkeys. split.
  - intros (Hx & Hy & Hd). rewrite Hdeps in Hd by done.
    apply list_elem_of_filter in Hd as [??]. split_and!; auto.
  - intros (Hx & Hy & _ & _ & Hd). split_and!; [done..|].
    rewrite Hdeps by done. by apply list_elem_of_filter.
Qed.

#[export] Instance str_le_total : Total str_le.
Proof. intros a b. apply String.leb_total. Qed.

Lemma js_sort_perm l : js_sort l ≡ₚ l.
Proof. apply merge_sort_Permutation. Qed.

Lemma js_sort_sorted l : Sorted str_le (js_sort l).
Proof. apply Sorted_merge_sort, _. Qed.

Section Phases.
Context (adj : adjacency) (ids : list string).
Hypothesis ids_nodup : NoDup ids.
Hypothesis ids_keys : jm_keys adj = ids.
Hypothesis deps_nodup : forall v, v ∈ ids -> NoDup (deps_of adj v).

(** A phase at position [i] of [acc]: numbered, not empty, sorted, its steps' dependencies all
    in earlier phases and, after the first, at least one in the phase just before. *)
Definition phase_ok (acc : list ExecutionPhase) (i : nat) (p : ExecutionPhase) : Prop :=
  phaseIndex p = i /\ phase_stepIds p <> [] /\ Sorted str_le (phase_stepIds p) /\
  forall x, x ∈ phase_stepIds p ->
    (forall y, depends adj x y -> exists j q, j < i /\ acc !! j = Some q /\ y ∈ phase_stepIds q) /\
    (forall i', i = S i' -> exists y q, acc !! i' = Some q /\ y ∈ phase_stepIds q /\ depends adj x y).

Definition phases_ok (acc : list ExecutionPhase) : Prop :=
  forall i p, acc !! i = Some p -> phase_ok acc i p.

Record kahn_inv (inDegree : gmap string Z) (remaining : list string)
    (acc : list ExecutionPhase) (order : list string) : Prop := mkKahn {
  kahn_nodup : NoDup remaining;
  kahn_perm : order ++ remaining ≡ₚ ids;
  kahn_order : order = concat (phase_stepIds <$> acc);
  kahn_deg : forall v, v ∈ remaining ->
    inDegree !! v = Some (Z.of_nat (length (filter (fun d => d ∈ remaining) (deps_of adj v))));
  kahn_acc : phases_ok acc;
  kahn_late : forall v p, v ∈ remaining -> last acc = Some p ->
    exists d, depends adj v d /\ (d ∈ phase_stepIds p \/ d ∈ remaining)
}.

Lemma kahn_sub inDegree remaining acc order v :
  kahn_inv inDegree remaining acc order -> v ∈ remaining -> v ∈ ids.
Proof. intros H Hv. rewrite <-(kahn_perm _ _ _ _ H). set_solver. Qed.

(** A remaining step is ready exactly when no remaining step is among its dependencies. *)
Lemma kahn_ready inDegree remaining acc order v :
  kahn_inv inDegree remaining acc order -> v ∈ remaining ->
  default 0%Z (inDegree !! v) = 0%Z <-> forall d, depends adj v d -> d ∉ remaining.
Proof.
  intros H Hv. rewrite (kahn_deg _ _ _ _ H v Hv). simpl.
  pose proof (kahn_sub _ _ _ _ v H Hv) as Hid. split.
  - intros Hz d (_ & _ & Hd) Hr.
    assert (d ∈ filter (fun d => d ∈ remaining) (deps_of adj v)) as Hin by (by apply list_elem_of_filter).
    destruct (filter _ _); [by apply elem_of_nil in Hin|]. simpl in Hz. lia.
  - intros Hd. destruct (filter _ _) as [|d l] eqn:E; [done|]. exfalso.
    assert (d ∈ filter (fun d => d ∈ remaining) (deps_of adj v)) as Hin by (rewrite E; by left).
    apply list_elem_of_filter in Hin as [Hr Hin]. apply (Hd d); [|done].
    rewrite <-ids_keys in Hid. split_and!; [done| |done].
    rewrite ids_keys. by apply (kahn_sub _ _ _ _ d H).
Qed.

(** One turn of the loop: the sorted [ready] steps leave [remaining] and become a phase. *)
Section Step.
Context (inDegree : gmap string Z) (remaining : list string)
  (acc : list ExecutionPhase) (order ready : list string).
Hypothesis H : kahn_inv inDegree remaining acc order.
Hypothesis Hready : ready ≡ₚ filter (fun v => default 0%Z (inDegree !! v) = 0%Z) remaining.

Let remaining' := filter (fun v => v ∉ ready) remaining.

Lemma elem_of_ready v : v ∈ ready <-> default 0%Z (inDegree !! v) = 0%Z /\ v ∈ remaining.
Proof. by rewrite Hready, list_elem_of_filter. Qed.

Lemma elem_of_remaining' v : v ∈ remaining' <-> v ∉ ready /\ v ∈ remaining.
Proof. unfold remaining'. by rewrite list_elem_of_filter. Qed.

Lemma ready_nodup : NoDup ready.
Proof. rewrite Hready. apply NoDup_filter, H. Qed.

Lemma ready_split : ready ++ remaining' ≡ₚ remaining.
Proof.
  apply NoDup_Permutation; [|apply H|].
  - apply NoDup_app. split_and!; [apply ready_nodup| |apply NoDup_filter, H].
    by intros v ? [??]%elem_of_remaining'.
  - intros v. rewrite elem_of_app, elem_of_remaining'. pose proof (elem_of_ready v).
    destruct (decide (v ∈ ready)); tauto.
Qed.

Lemma step_deg v : v ∈ remaining' ->
  foldl (decrement adj ready) inDegree remaining' !! v =
    Some (Z.of_nat (length (filter (fun d => d ∈ remaining') (deps_of adj v)))).
Proof.
  intros Hv. apply elem_of_remaining' in Hv as Hv'. destruct Hv' as [Hnr Hv'].
  erewrite decrement_all_lookup;
    [|apply NoDup_filter, H|done|by apply (kahn_deg _ _ _ _ H)|].
  - f_equal. rewrite (filter_elem_comm ready)
      by (apply ready_nodup || by eapply deps_nodup, kahn_sub).
    pose proof (filter_split (filter (fun d => d ∈ remaining) (deps_of adj v)) ready) as Hs.
    rewrite !list_filter_filter in Hs.
    rewrite (list_filter_iff _ (fun d => d ∈ ready)) in Hs
      by (intros d; rewrite elem_of_ready; tauto).
    rewrite (list_filter_iff (fun x => x ∉ ready /\ x ∈ remaining) (fun d => d ∈ remaining')) in Hs
      by (intros d; by rewrite elem_of_remaining'). lia.
  - intros x Hx. apply elem_of_remaining' in Hx as [_ Hx].
    rewrite (kahn_deg _ _ _ _ H x Hx). eauto.
Qed.

(** A finished step sits in some phase. *)
Lemma order_phase y : y ∈ order -> exists j q, acc !! j = Some q /\ y ∈ phase_stepIds q.
Proof.
  rewrite (kahn_order _ _ _ _ H). intros (q & Hq & Hyq)%list_elem_of_In%in_concat.
  apply list_elem_of_In, list_elem_of_fmap in Hq as (p & -> & Hp).
  apply list_elem_of_lookup in Hp as (j & Hj). exists j, p. by rewrite list_elem_of_In.
Qed.

Lemma phase_ok_weaken i p q : phase_ok acc i p -> phase_ok (acc ++ [q]) i p.
Proof.
  intros (? & ? & ? & Hx). split_and!; [done..|].
  intros x Hxp. destruct (Hx x Hxp) as [He Hl]. split.
  - intros y Hy. destruct (He y Hy) as (j & r & ? & ? & ?). exists j, r.
    split_and!; [done|by apply lookup_app_l_Some|done].
  - intros i' ->. destruct (Hl i' eq_refl) as (y & r & ? & ? & ?). exists y, r.
    split_and!; [by apply lookup_app_l_Some|done..].
Qed.

Lemma step_phase : ready <> [] -> Sorted str_le ready ->
  phase_ok (acc ++ [mkPhase (length acc) ready]) (length acc) (mkPhase (length acc) ready).
Proof.
  intros Hne Hsorted. split_and!; [done..|]. simpl.
  intros x Hx. apply elem_of_ready in Hx as [Hz Hxr].
  pose proof (proj1 (kahn_ready _ _ _ _ x H Hxr) Hz) as Hdeps. split.
  - intros y Hy. assert (y ∈ order) as Hyo.
    { pose proof (Hdeps y Hy) as Hyr. destruct Hy as (_ & Hy & _).
      rewrite ids_keys, <-(kahn_perm _ _ _ _ H) in Hy. by apply elem_of_app in Hy as [?|?]. }
    destruct (order_phase y Hyo) as (j & q & Hj & ?). exists j, q.
    split_and!; [by apply lookup_lt_Some in Hj|by apply lookup_app_l_Some|done].
  - intros i' Hi'. destruct (last acc) as [p|] eqn:El; [|by apply last_None in El as ->].
    destruct (kahn_late _ _ _ _ H x p Hxr El) as (d & Hd & Hdp).
    exists d, p. split_and!; [|by destruct Hdp as [?|Hdr]; [|destruct (Hdeps d Hd)]|done].
    apply lookup_app_l_Some. by rewrite last_lookup, Hi' in El.
Qed.

(** A step that stays has a dependency that was still remaining in this turn. *)
Lemma step_late v : v ∈ remaining' -> exists d, depends adj v d /\ (d ∈ ready \/ d ∈ remaining').
Proof.
  intros [Hnr Hv]%elem_of_remaining'.
  assert (~ forall d, depends adj v d -> d ∉ remaining) as Hnd.
  { intros Hd. apply Hnr, elem_of_ready. split; [|done]. by eapply kahn_ready. }
  destruct (filter (fun d => d ∈ remaining) (deps_of adj v)) as [|d l] eqn:E.
  - exfalso. apply Hnd. intros d (_ & _ & Hd) Hdr.
    apply (not_elem_of_nil d). rewrite <-E. by apply list_elem_of_filter.
  - assert (d ∈ filter (fun d => d ∈ remaining) (deps_of adj v)) as Hd by (rewrite E; by left).
    apply list_elem_of_filter in Hd as [Hdr Hd]. exists d. split.
    + split_and!; [rewrite ids_keys; by eapply kahn_sub..|done].
    + destruct (decide (d ∈ ready)); [by left|right]. by apply elem_of_remaining'.
Qed.

Lemma kahn_step : ready <> [] -> Sorted str_le ready ->
  kahn_inv (foldl (decrement adj ready) inDegree remaining') remaining'
    (acc ++ [mkPhase (length acc) ready]) (order ++ ready).
Proof.
  intros Hne Hsorted. split.
  - apply NoDup_filter, H.
  - rewrite <-app_assoc, ready_split. apply H.
  - rewrite (kahn_order _ _ _ _ H) at 1. rewrite fmap_app, concat_app. simpl. by rewrite app_nil_r.
  - apply step_deg.
  - intros i p [Hp|[Hi Hp]]%lookup_app_Some.
    + by apply phase_ok_weaken, (kahn_acc _ _ _ _ H).
    + destruct (i - length acc) as [|n] eqn:Ei; [|done]. simpl in Hp. simplify_eq.
      assert (i = length acc) as -> by lia. by apply step_phase.
  - intros v p Hv. rewrite last_snoc. intros [= <-]. by apply step_late.
Qed.
End Step.

(** Without a ready step the remaining ones hold a cycle, and the search finds it. *)
Lemma kahn_stuck inDegree remaining acc order :
  kahn_inv inDegree remaining acc order -> remaining <> [] ->
  filter (fun v => default 0%Z (inDegree !! v) = 0%Z) remaining = [] ->
  exists c, detectCycle (jm_fill id (fun i => filter (fun d => d ∈ remaining) (deps_of adj i)) [] remaining)
    = Some c /\ is_cycle adj c.
Proof.
  intros H Hne Hf. set (sub := jm_fill _ _ _ _).
  assert (forall x y, depends sub x y <-> x ∈ remaining /\ y ∈ remaining /\ depends adj x y) as Hsub.
  { intros x y. apply subAdj_depends; [apply H|]. intros v Hv. rewrite ids_keys. by eapply kahn_sub. }
  destruct (detectCycle sub) as [c|] eqn:E.
  - exists c. split; [done|]. apply detectCycle_Some in E as (x & l & -> & Hl & Hp).
    exists x, l. split_and!; [done..|]. clear -Hp Hsub. revert x Hp.
    induction l as [|y l IH]; intros x; [done|]. intros [Hxy Hp]. split; [by apply Hsub|by apply IH].
  - exfalso. apply detectCycle_None in E as (L & Ht & HL).
    assert (exists v, v ∈ remaining) as [v Hv] by (destruct remaining as [|v ?]; [done|exists v; by left]).
    assert (jm_keys sub = remaining) as Hk.
    { unfold sub. rewrite jm_fill_keys, list_fmap_id. rewrite foldl_js_set_add_fresh; [done|apply H|set_solver]. }
    apply (topo_no_successor sub L (fun x => x ∈ remaining) v); [done|apply HL; by rewrite Hk|done|].
    intros x Hx.
    assert (forall y, y ∉ filter (fun v => default 0%Z (inDegree !! v) = 0%Z) remaining) as Hf'
      by (rewrite Hf; apply not_elem_of_nil).
    specialize (Hf' x). rewrite list_elem_of_filter, (kahn_ready _ _ _ _ x H Hx) in Hf'.
    destruct (list_exist_dec (fun d => depends adj x d) remaining) as [(y & Hy & Hd)|Hn].
    { intros d. unfold depends. apply _. }
    + exists y. by rewrite Hsub.
    + exfalso. apply Hf'. split; [|done]. intros d Hd Hdr. apply Hn. by exists d.
Qed.
Lemma phases_loop_spec fuel inDegree remaining acc order :
  kahn_inv inDegree remaining acc order -> length remaining <= fuel ->
  match phases_loop fuel adj inDegree remaining acc order with
  | Some (Ok a) => phases_ok (phases a) /\ stepOrder a ≡ₚ ids /\
      stepOrder a = concat (phase_stepIds <$> phases a)
  | Some (Err e) => exists c, e = CycleError c /\ is_cycle adj c
  | None => False
  end.
Proof.
  revert inDegree remaining acc order. induction fuel as [|n IH]; intros inDegree remaining acc order H Hf;
    (destruct remaining as [|v r] eqn:Er;
      [simpl; split_and!; [apply H|by rewrite <-(kahn_perm _ _ _ _ H), app_nil_r|apply H]|]);
    [simpl in Hf; lia|].
  rewrite <-Er in *. assert (remaining <> []) as Hne by by rewrite Er.
  rewrite Er. cbn [phases_loop]. rewrite <-Er. clear v r Er.
  set (ready := filter _ remaining). destruct (decide (ready = [])) as [Hr|Hr].
  - destruct (kahn_stuck _ _ _ _ H Hne Hr) as (c & -> & Hc). simpl. by exists c.
  - assert (js_sort ready <> []) as Hs.
    { intros E. apply Hr, Permutation_nil_r. by rewrite <-E, js_sort_perm. }
    apply IH; [apply kahn_step; [done|by rewrite js_sort_perm|done|apply js_sort_sorted]|].
    pose proof (ready_split _ _ _ _ (js_sort ready) H (js_sort_perm _)) as Hp.
    apply Permutation_length in Hp. rewrite length_app in Hp.
    destruct (js_sort ready); [done|]. simpl in Hp. lia.
Qed.

Lemma phases_acyclic acc : phases_ok acc ->
  (forall v, v ∈ ids -> v ∈ concat (phase_stepIds <$> acc)) -> acyclic adj.
Proof.
  intros Hok Hall.
  assert (forall x y, tc (depends adj) x y -> forall i p, acc !! i = Some p -> x ∈ phase_stepIds p ->
    exists j q, j < i /\ acc !! j = Some q /\ y ∈ phase_stepIds q) as Hdown.
  { induction 1 as [x y Hxy|x y z Hxy _ IH]; intros i p Hp Hx;
      destruct (Hok i p Hp) as (_ & _ & _ & Hd); destruct (Hd x Hx) as [Hd' _];
      destruct (Hd' y Hxy) as (j & q & ? & Hq & Hyq); [by exists j, q|].
    destruct (IH j q Hq Hyq) as (k & r & ? & ? & ?). exists k, r. split_and!; [lia|done..]. }
  intros x Hx.
  assert (exists i p, acc !! i = Some p /\ x ∈ phase_stepIds p) as (i & p & Hp & Hxp).
  { assert (x ∈ jm_keys adj) as Hk by (inversion Hx; by match goal with H : depends _ _ _ |- _ => destruct H end).
    rewrite ids_keys in Hk. apply Hall, list_elem_of_In, in_concat in Hk as (q & Hq & Hxq).
    apply list_elem_of_In, list_elem_of_fmap in Hq as (p & -> & Hp).
    apply list_elem_of_lookup in Hp as (i & Hi). exists i, p. by rewrite list_elem_of_In. }
  revert p Hp Hxp. induction (lt_wf i) as [i _ IH]. intros p Hp Hxp.
  destruct (Hdown x x Hx i p Hp Hxp) as (j & q & ? & ? & ?). by eapply IH.
Qed.
End Phases.

(** The initial state of the loop. *)
Lemma initial_inDegree_lookup steps ids s :
  NoDup (step_ids steps) -> s ∈ steps ->
  initial_inDegree steps ids !! step_id s =
    Some (Z.of_nat (length (filter (fun d => d ∈ ids) (input_from s)))).
Proof.
  intros. unfold initial_inDegree. by rewrite gm_fill_lookup.
Qed.

(** Steps the phase computation is meant for: distinct ids, and no id twice in an [input_from]. *)
Definition well_formed_steps (steps : list ManifestStep) : Prop :=
  NoDup (step_ids steps) /\ Forall (fun s => NoDup (input_from s)) steps.

#[export] Instance well_formed_steps_dec steps : Decision (well_formed_steps steps).
Proof. unfold well_formed_steps. apply _. Defined.

Lemma initial_kahn steps : well_formed_steps steps ->
  kahn_inv (buildDependencyGraph steps) (step_ids steps)
    (initial_inDegree steps (step_ids steps)) (step_ids steps) [] [].
Proof.
  intros [Hnd Hin]. rewrite Forall_forall in Hin. split; try done.
  intros v Hv. apply list_elem_of_fmap in Hv as (s & -> & Hs).
  rewrite initial_inDegree_lookup by done. rewrite buildDependencyGraph_deps by done.
  by rewrite js_set_of_id by auto.
Qed.

Lemma computePhases_run_spec steps : well_formed_steps steps ->
  match computePhases_run steps with
  | Some (Ok a) => phases_ok (buildDependencyGraph steps) (phases a) /\ stepOrder a ≡ₚ step_ids steps /\
      stepOrder a = concat (phase_stepIds <$> phases a)
  | Some (Err e) => exists c, e = CycleError c /\ is_cycle (buildDependencyGraph steps) c
  | None => False
  end.
Proof.
  intros Hwf. pose proof Hwf as [Hnd _]. unfold computePhases_run. rewrite js_set_of_id by done.
  apply phases_loop_spec.
  - done.
  - by apply buildDependencyGraph_keys.
  - intros v (s & -> & Hs)%list_elem_of_fmap. rewrite buildDependencyGraph_deps by done. apply js_set_of_NoDup.
  - by apply initial_kahn.
  - done.
Qed.

(** C32. For steps with distinct ids and no repeated entry in an [input_from], [computePhases]
    ends within its fuel and throws exactly when the dependency graph has a cycle. When it
    returns, [stepOrder] is a permutation of the step ids, the concatenation of the phases; every
    phase is numbered by its position, not empty and sorted; every dependency of a step is in an
    earlier phase, and a step of a later phase has a dependency in the phase just before it. When
    it throws, the error names a real cycle. *)
Theorem computePhases_correct (steps : list ManifestStep) (Hwf : well_formed_steps steps) :
  computePhases_run steps <> None /\
  (is_ok (computePhases steps) = true <-> acyclic (buildDependencyGraph steps)) /\
  match computePhases steps with
  | Ok a => stepOrder a ≡ₚ step_ids steps /\ stepOrder a = concat (phase_stepIds <$> phases a) /\
      phases_ok (buildDependencyGraph steps) (phases a)
  | Err e => exists c, e = CycleError c /\ is_cycle (buildDependencyGraph steps) c
  end.
Proof.
  pose proof (computePhases_run_spec steps Hwf) as H. unfold computePhases.
  destruct (computePhases_run steps) as [[a|e]|]; [| |done]; simpl.
  - destruct H as (Hok & Hp & Ho). split_and!; [done| |done..].
    split; [intros _|done]. eapply phases_acyclic; [by apply buildDependencyGraph_keys, Hwf|done|].
    intros v Hv. by rewrite <-Ho, Hp.
  - destruct H as (c & -> & Hc). split_and!; [done| |by exists c].
    split; [done|]. intros Ha. by apply is_cycle_not_acyclic in Hc.
Qed.

Theorem computePhases_correct_witness :
  let steps := [bare_step "c" ["a"; "b"]; bare_step "b" ["x"]; bare_step "a" []] in
  computePhases steps = Ok (mkAnalysis [mkPhase 0 ["a"; "b"]; mkPhase 1 ["c"]] ["a"; "b"; "c"]) /\
  acyclic (buildDependencyGraph steps).
Proof.
  split; [vm_compute; reflexivity|].
  apply (computePhases_correct [bare_step "c" ["a"; "b"]; bare_step "b" ["x"]; bare_step "a" []]);
    [apply (bool_decide_unpack _); vm_compute; exact I|vm_compute; reflexivity].
Defined.

(** The in-degree counts a repeated entry of [input_from] once per repetition, but the
    decrement removes it once: steps [a] and [b], where [b] lists [a] twice, have an acyclic graph
    that [validateGraph] accepts, and yet [computePhases] throws a [CycleError] naming [b] alone. *)
Theorem computePhases_rejects_repeated_dependency :
  exists steps, validateGraph steps = Ok tt /\ acyclic (buildDependencyGraph steps) /\
    computePhases steps = Err (CycleError ["b"]).
Proof.
  exists [bare_step "a" []; bare_step "b" ["a"; "a"]]. split_and!; [vm_compute; reflexivity| |vm_compute; reflexivity].
  apply detectCycle_spec. vm_compute. reflexivity.
Qed.

Lemma check_duplicates_spec ids steps : NoDup ids ->
  match check_duplicates ids steps with
  | Ok ids' => ids' = ids ++ step_ids steps /\ NoDup ids'
  | Err e => exists s, s ∈ steps /\ e = DuplicateId (step_id s) /\ ~ NoDup (ids ++ step_ids steps)
  end.
Proof.
  revert ids. induction steps as [|s steps IH]; intros ids Hnd; simpl.
  - by rewrite app_nil_r.
  - unfold step_ids in *. csimpl. case_decide as Hs.
    + exists s. split_and!; [by left|done|]. intros (_ & Hd & _)%NoDup_app.
      apply (Hd _ Hs). by left.
    + assert (js_set_add ids (step_id s) = ids ++ [step_id s]) as -> by (unfold js_set_add; by rewrite decide_False).
      specialize (IH (ids ++ [step_id s])). rewrite <-app_assoc in IH. simpl in IH.
      ospecialize (IH _).
      { apply NoDup_app. split_and!; [done|set_solver|apply NoDup_singleton]. }
      destruct (check_duplicates _ _); [done|].
      destruct IH as (t & ? & ? & ?). exists t. split_and!; [by right|done..].
Qed.

Lemma validateGraph_spec (steps : list ManifestStep) :
  validateGraph steps = Ok tt <->
    NoDup (step_ids steps) /\
    (forall s, s ∈ steps -> step_id s ∉ input_from s /\ forall d, d ∈ input_from s -> d ∈ step_ids steps) /\
    acyclic (buildDependencyGraph steps).
Proof.
  unfold validateGraph. pose proof (check_duplicates_spec [] steps ltac:(constructor)) as Hd.
  destruct (check_duplicates [] steps) as [ids|e]; simpl in *.
  2:{ destruct Hd as (s & _ & _ & Hn). split; [done|]. by intros [? _]. }
  destruct Hd as [-> Hnd].
  destruct (for_each check_self_loop steps) as [[]|e] eqn:Hs; simpl.
  2:{ split; [done|]. intros (_ & Hall & _). apply for_each_Err in Hs as (s & Hin & Hs).
      unfold check_self_loop, throw_if in Hs. case_bool_decide; [|done]. by destruct (Hall s Hin). }
  destruct (for_each (check_orphans _) steps) as [[]|e] eqn:Ho; simpl.
  2:{ split; [done|]. intros (_ & Hall & _). apply for_each_Err in Ho as (s & Hin & Ho).
      apply for_each_Err in Ho as (d & Hdin & Ho). unfold throw_if in Ho.
      case_bool_decide; [done|]. destruct (Hall s Hin) as [_ Hd]. naive_solver. }
  rewrite for_each_Ok in Hs. rewrite for_each_Ok in Ho.
  pose proof (detectCycle_spec (buildDependencyGraph steps)) as (_ & Hc & _).
  destruct (detectCycle (buildDependencyGraph steps)); split; try (intros; by naive_solver).
  intros _. split_and!; [done| |by apply Hc].
  intros s Hin. specialize (Hs s Hin). specialize (Ho s Hin).
  unfold check_self_loop, throw_if in Hs. case_bool_decide; [done|]. split; [done|].
  intros d Hd. unfold check_orphans in Ho. rewrite for_each_Ok in Ho. specialize (Ho d Hd).
  unfold throw_if in Ho. by case_bool_decide.
Qed.

Lemma validateGraph_deps steps :
  validateGraph steps = Ok tt ->
  forall s d, s ∈ steps -> d ∈ input_from s -> d ∈ step_ids steps.
Proof. intros H s d Hs Hd. apply validateGraph_spec in H as (_ & H & _). by apply (H s). Qed.

(** [validateGraph] accepts a list of steps exactly when the ids are distinct, no step lists
    itself, every listed dependency is a step of the list, and the graph is acyclic. *)
Theorem validateGraph_iff (steps : list ManifestStep) :
  validateGraph steps = Ok tt <->
    NoDup (step_ids steps) /\
    (forall s, s ∈ steps -> step_id s ∉ input_from s /\ forall d, d ∈ input_from s -> d ∈ step_ids steps) /\
    acyclic (buildDependencyGraph steps).
Proof. apply validateGraph_spec. Qed.
