(* ===== verification/PromptBudget.v ===== *)
(** The per-run prompt budget of [orchestrator/prompt-budget.ts]: the counter every sub-agent of
    one workflow run shares, which caps how often the run may put a question to its owner. *)
From S2P Require Import Prelude Num.

Definition DEFAULT_PROMPT_BUDGET : num := num_of_Z 5.
Definition MAX_PROMPT_BUDGET : num := num_of_Z 10.

(** [None] is an absent setting. *)
(** @src src/src/orchestrator/prompt-budget.ts 14-28 promptBudgetLimit *)
Definition promptBudgetLimit (configured : option num) : num :=
  match configured with
  | None => DEFAULT_PROMPT_BUDGET
  | Some c => if isFinite c then num_min c MAX_PROMPT_BUDGET else DEFAULT_PROMPT_BUDGET
  end.

(** What the class throws: the constructor's plain [Error] and [PromptBudgetExceededError], whose
    message names the setting to raise only below the maximum ([mentions_setting]). *)
(** @src src/src/orchestrator/prompt-budget.ts 30-42 PromptBudgetExceededError *)
Inductive PromptBudgetError :=
| NegativeLimit (limit : num)
| PromptBudgetExceeded (limit : num) (mentions_setting : bool).

Definition exceededError (limit : num) : PromptBudgetError :=
  PromptBudgetExceeded limit (limit <? MAX_PROMPT_BUDGET)%num.

(** @src src/src/orchestrator/prompt-budget.ts 44-45 PromptBudget *)
Record PromptBudget := { pb_used : Z; pb_limit : num }.

(** @src src/src/orchestrator/prompt-budget.ts 47-49 constructor *)
Definition newPromptBudget (limit : num) : result PromptBudgetError PromptBudget :=
  if (limit <? num_of_Z 0)%num then Err (NegativeLimit limit)
  else Ok {| pb_used := 0; pb_limit := limit |}.

(** @src src/src/orchestrator/prompt-budget.ts 51-57 consume *)
Definition consume (b : PromptBudget) : result PromptBudgetError PromptBudget :=
  if (num_of_Z b.(pb_used) >=? b.(pb_limit))%num then Err (exceededError b.(pb_limit))
  else Ok {| pb_used := b.(pb_used) + 1; pb_limit := b.(pb_limit) |}.

(** @src src/src/orchestrator/prompt-budget.ts 64-66 refund *)
Definition refund (b : PromptBudget) : PromptBudget :=
  if bool_decide (0 < b.(pb_used))%Z
  then {| pb_used := b.(pb_used) - 1; pb_limit := b.(pb_limit) |} else b.

(** @src src/src/orchestrator/prompt-budget.ts 68-69 remaining *)
Definition remaining (b : PromptBudget) : num :=
  num_max (num_of_Z 0) (b.(pb_limit) - num_of_Z b.(pb_used))%num.

(** ** A run: prompts raised and prompts given back, in any order *)

Inductive prompt_op := Consume | Refund.

(** The state after one operation, and whether a prompt was granted. A refused [consume] throws
    and changes nothing. *)
Definition prompt_step (b : PromptBudget) (o : prompt_op) : PromptBudget * bool :=
  match o with
  | Consume => match consume b with Ok b' => (b', true) | Err _ => (b, false) end
  | Refund => (refund b, false)
  end.

Definition prompt_run (b : PromptBudget) (ops : list prompt_op) : PromptBudget :=
  foldl (fun b o => (prompt_step b o).1) b ops.

(** The prompts a run granted. *)
Fixpoint granted (b : PromptBudget) (ops : list prompt_op) : nat :=
  match ops with
  | [] => 0
  | o :: ops' =>
      let '(b', g) := prompt_step b o in ((if g then 1 else 0) + granted b' ops')%nat
  end.

Definition refunds (ops : list prompt_op) : nat :=
  sum_list_with (fun o => match o with Refund => 1%nat | Consume => 0%nat end) ops.

(** [used] stays between 0 and ten, and below one more than the limit. *)
Definition pb_ok (b : PromptBudget) : Prop :=
  (0 <= b.(pb_used) <= 10)%Z /\
  exists q, b.(pb_limit) = Fin q /\ (q <= 10)%Q /\ (inject_Z b.(pb_used) < q + 1)%Q.

Lemma promptBudgetLimit_finite c : exists q, promptBudgetLimit c = Fin q /\ (q <= 10)%Q.
Proof.
  destruct c as [[| | |x]|]; simpl; try (eexists; split; [reflexivity|unfold Qle; simpl; lia]).
  unfold MAX_PROMPT_BUDGET. destruct (Qltb x (inject_Z 10)) eqn:E;
    eexists; (split; [reflexivity|]); [apply Qltb_lt in E|]; unfold inject_Z in *; lra.
Qed.

Lemma consume_ok b b' : pb_ok b -> consume b = Ok b' -> pb_ok b'.
Proof.
  intros [Hr (q & Hq & Hq10 & Hlt)]. unfold consume. rewrite Hq.
  destruct (Fin q <=? _)%num eqn:E; [done|]. intros [= <-].
  apply num_leb_Fin_false in E. split; simpl.
  - split; [lia|]. assert (inject_Z (pb_used b) < inject_Z 10)%Q as H.
    { eapply Qlt_le_trans; [apply E|]. unfold inject_Z. lra. }
    rewrite <-Zlt_Qlt in H. lia.
  - exists q. split_and!; [done|done|]. rewrite inject_Z_plus. unfold inject_Z at 2. lra.
Qed.

Lemma refund_ok b : pb_ok b -> pb_ok (refund b).
Proof.
  intros [Hr (q & Hq & Hq10 & Hlt)]. unfold refund.
  destruct (bool_decide_reflect (0 < pb_used b)%Z); [|split; [done|by exists q]].
  split; simpl; [lia|]. exists q. split_and!; [done|done|].
  eapply Qle_lt_trans; [|apply Hlt]. rewrite <-Zle_Qle. lia.
Qed.

Lemma prompt_step_ok b o : pb_ok b -> pb_ok (prompt_step b o).1.
Proof.
  destruct o; simpl; [|by apply refund_ok].
  destruct (consume b) eqn:E; simpl; [|done]. intros H. by eapply consume_ok.
Qed.

Lemma prompt_run_ok ops b : pb_ok b -> pb_ok (prompt_run b ops).
Proof. revert b. induction ops as [|o ops IH]; intros b H; [done|]. by apply IH, prompt_step_ok. Qed.

Lemma granted_bound ops b :
  (0 <= pb_used b)%Z ->
  (pb_used b + Z.of_nat (granted b ops) - Z.of_nat (refunds ops)
   <= pb_used (prompt_run b ops))%Z.
Proof.
  revert b. induction ops as [|o ops IH]; intros b H0; [simpl; unfold refunds; simpl; lia|].
  destruct o; cbn [granted prompt_run foldl prompt_step].
  - unfold consume. destruct (_ <=? _)%num; cbn [fst]; unfold prompt_run in IH.
    + specialize (IH b H0). unfold refunds in *. simpl. lia.
    + ospecialize (IH {| pb_used := pb_used b + 1; pb_limit := pb_limit b |} _); [simpl; lia|].
      unfold refunds in *. simpl in *. lia.
  - assert (refunds (Refund :: ops) = S (refunds ops)) as -> by done. cbn [fst].
    unfold refund. destruct (bool_decide_reflect (0 < pb_used b)%Z); unfold prompt_run in IH.
    + ospecialize (IH {| pb_used := pb_used b - 1; pb_limit := pb_limit b |} _); [simpl; lia|].
      simpl in *. lia.
    + specialize (IH b H0). simpl. lia.
Qed.

Lemma new_ok c b : newPromptBudget (promptBudgetLimit c) = Ok b -> pb_ok b.
Proof.
  destruct (promptBudgetLimit_finite c) as (q & Hq & H10). unfold newPromptBudget. rewrite Hq.
  destruct (_ <? _)%num eqn:E; [done|]. intros [= <-]. apply num_ltb_Fin_false in E.
  split; simpl; [lia|]. exists q. split_and!; try done. unfold inject_Z in *. lra.
Qed.

(** Whatever [pipeline_prompt_budget] says (absent, NaN, infinite, huge), a run whose budget
    was created never has more than ten prompts outstanding, and over any interleaving of prompts
    and refunds it grants at most ten more prompts than were given back. *)
Theorem prompt_budget_bounds_a_run configured b ops :
  newPromptBudget (promptBudgetLimit configured) = Ok b ->
  (0 <= pb_used (prompt_run b ops) <= 10)%Z /\ (granted b ops <= 10 + refunds ops)%nat.
Proof.
  intros Hb. pose proof (new_ok _ _ Hb) as Hok.
  destruct (prompt_run_ok ops b Hok) as [Hr _]. split; [done|].
  pose proof (granted_bound ops b ltac:(destruct Hok; lia)).
  assert (pb_used b = 0)%Z; [|lia].
  unfold newPromptBudget in Hb. destruct (_ <? _)%num; by simplify_eq.
Qed.

Lemma prompt_budget_bounds_a_run_witness :
  (granted {| pb_used := 0; pb_limit := promptBudgetLimit (Some PInf) |}
     (replicate 40 Consume) <= 10)%nat.
Proof.
  exact (proj2 (prompt_budget_bounds_a_run (Some PInf)
    {| pb_used := 0; pb_limit := promptBudgetLimit (Some PInf) |}
    (replicate 40 Consume) eq_refl)).
Defined.

Example consume_five :
  granted {| pb_used := 0; pb_limit := promptBudgetLimit None |} (replicate 9 Consume) = 5%nat.
Proof. reflexivity. Qed.
