(* ===== verification/RateLimiter.v ===== *)
(** The per-user rate limiter of [core/rate-limiter.ts]: a cap on concurrent runs and a sliding
    one-hour window of admissions. The clock is an argument of each call. *)
From S2P Require Import Prelude Num JsString.
Local Open Scope Z_scope.

(** @src src/src/core/rate-limiter.ts 6-11 RateLimiterConfig *)
Record RateLimiterConfig := { cfg_maxConcurrent : option num; cfg_maxPerHour : option num }.

(** The two refusals, each with the limit its message quotes. *)
(** @src src/src/core/rate-limiter.ts 13-16 AcquireResult *)
Inductive AcquireResult := Allowed | TooManyConcurrent (max : num) | TooManyPerHour (max : num).

(** @src src/src/core/rate-limiter.ts 18-21 UserState *)
Record UserState := { timestamps : list Z; concurrent : Z }.

(** @src src/src/core/rate-limiter.ts 23-26 RateLimiter *)
Record RateLimiter := {
  maxConcurrent : num;
  maxPerHour : num;
  users : gmap string UserState }.

(** @src src/src/core/rate-limiter.ts 28-31 constructor *)
Definition newRateLimiter (config : option RateLimiterConfig) : RateLimiter :=
  {| maxConcurrent := default (num_of_Z 2) (config ≫= cfg_maxConcurrent);
     maxPerHour := default (num_of_Z 30) (config ≫= cfg_maxPerHour);
     users := ∅ |}.

Definition set_user (rl : RateLimiter) (u : string) (s : UserState) : RateLimiter :=
  {| maxConcurrent := rl.(maxConcurrent); maxPerHour := rl.(maxPerHour);
     users := <[u := s]> rl.(users) |}.

(** The state [acquire] works on; the entry it creates is written back by [acquire]. *)
(** @src src/src/core/rate-limiter.ts 81-88 getOrCreate *)
Definition getOrCreate (rl : RateLimiter) (u : string) : UserState :=
  default {| timestamps := []; concurrent := 0 |} (rl.(users) !! u).

Definition hour : Z := 3600000.

(** @src src/src/core/rate-limiter.ts 38-66 acquire *)
Definition acquire (rl : RateLimiter) (u : string) (now : Z) : RateLimiter * AcquireResult :=
  let s := getOrCreate rl u in
  let ts := filter (fun t => now - hour < t) s.(timestamps) in
  let rl := set_user rl u {| timestamps := ts; concurrent := s.(concurrent) |} in
  if (num_of_Z s.(concurrent) >=? rl.(maxConcurrent))%num
  then (rl, TooManyConcurrent rl.(maxConcurrent))
  else if (num_of_Z (Z.of_nat (length ts)) >=? rl.(maxPerHour))%num
  then (rl, TooManyPerHour rl.(maxPerHour))
  else (set_user rl u {| timestamps := ts ++ [now]; concurrent := s.(concurrent) + 1 |}, Allowed).

(** @src src/src/core/rate-limiter.ts 69-74 release *)
Definition release (rl : RateLimiter) (u : string) : RateLimiter :=
  match rl.(users) !! u with
  | Some s =>
      if bool_decide (0 < s.(concurrent))
      then set_user rl u {| timestamps := s.(timestamps); concurrent := s.(concurrent) - 1 |}
      else rl
  | None => rl
  end.

(** @src src/src/core/rate-limiter.ts 77-79 reset *)
Definition reset (rl : RateLimiter) : RateLimiter :=
  {| maxConcurrent := rl.(maxConcurrent); maxPerHour := rl.(maxPerHour); users := ∅ |}.

(** The two environment variables, [None] when unset. *)
(** @src src/src/core/rate-limiter.ts 95-102 createRateLimiterFromEnv *)
Definition createRateLimiterFromEnv (env_concurrent env_per_hour : option string) : RateLimiter :=
  let read v :=
    let n := parseInt (default "" v)%string in
    if isFinite n && (n >? num_of_Z 0)%num then Some n else None in
  newRateLimiter
    (Some {| cfg_maxConcurrent := read env_concurrent; cfg_maxPerHour := read env_per_hour |}).

(** ** Traces of calls *)

Inductive call := Acquire (u : string) (now : Z) | Release (u : string).

Definition call_step (rl : RateLimiter) (c : call) : RateLimiter * option (string * Z) :=
  match c with
  | Acquire u now =>
      match acquire rl u now with
      | (rl', Allowed) => (rl', Some (u, now))
      | (rl', _) => (rl', None)
      end
  | Release u => (release rl u, None)
  end.

(** The state after a trace and the admissions it made, oldest first. *)
Fixpoint run (rl : RateLimiter) (log : list (string * Z)) (cs : list call) :=
  match cs with
  | [] => (rl, log)
  | c :: cs' =>
      let '(rl', g) := call_step rl c in
      run rl' (match g with Some e => log ++ [e] | None => log end) cs'
  end.

(** The admission times of one user. *)
Definition hits (u : string) (log : list (string * Z)) : list Z :=
  omap (fun e => if decide (e.1 = u) then Some e.2 else None) log.

(** The admissions in the hour that ends at [T]. *)
Definition in_window (T : Z) (l : list Z) : nat :=
  length (filter (fun t => T - hour < t /\ t <= T) l).

(** A clock that never runs backwards, from [now] on. *)
Fixpoint monotone (now : Z) (cs : list call) : Prop :=
  match cs with
  | [] => True
  | Acquire _ t :: cs' => now <= t /\ monotone t cs'
  | Release _ :: cs' => monotone now cs'
  end.

Definition releases_of (u : string) (cs : list call) : nat :=
  sum_list_with (fun c => match c with Release v => if decide (v = u) then 1%nat else 0%nat
                                     | Acquire _ _ => 0%nat end) cs.

Lemma hits_snoc u v t log :
  hits u (log ++ [(v, t)]) = hits u log ++ (if decide (v = u) then [t] else []).
Proof. unfold hits. rewrite omap_app. simpl. by case_decide. Qed.

Lemma getOrCreate_set rl u s v :
  getOrCreate (set_user rl u s) v = if decide (u = v) then s else getOrCreate rl v.
Proof.
  unfold getOrCreate, set_user. simpl. case_decide; subst.
  - by rewrite lookup_insert_eq.
  - by rewrite lookup_insert_ne.
Qed.

Definition recent (now : Z) (l : list Z) : list Z := filter (fun t => now - hour < t) l.

Lemma recent_recent now now' l : now <= now' -> recent now' (recent now l) = recent now' l.
Proof.
  intros. unfold recent. induction l as [|t l IH]; [done|].
  rewrite !filter_cons. repeat (case_decide; rewrite ?filter_cons); try lia; try congruence.
Qed.

Section Window.
Variables (maxC maxH : Z).

(** What holds between calls at clock [now]: every stored time is an admission, and the recent
    ones are all stored; every window of the log is within the hourly limit. *)
Record Inv (now : Z) (rl : RateLimiter) (log : list (string * Z)) : Prop := {
  inv_limC : rl.(maxConcurrent) = num_of_Z maxC;
  inv_limH : rl.(maxPerHour) = num_of_Z maxH;
  inv_past : forall u t, t ∈ hits u log -> t <= now;
  inv_recent : forall u, recent now (timestamps (getOrCreate rl u)) = recent now (hits u log);
  inv_window : forall u T, (Z.of_nat (in_window T (hits u log)) <= Z.max 0 maxH);
  inv_conc : forall u, 0 <= concurrent (getOrCreate rl u) <= Z.max 0 maxC }.

Lemma Inv_later now now' rl log : now <= now' -> Inv now rl log -> Inv now' rl log.
Proof.
  intros Hle [HC HH Hp Hr Hw Hc]. constructor; try done.
  - intros u t Ht. specialize (Hp u t Ht). lia.
  - intros u. rewrite <-(recent_recent now now' (timestamps _)), Hr, recent_recent by done. done.
Qed.

(** Rewriting one user's times to the recent ones keeps the invariant. *)
Lemma Inv_prune now rl log u :
  Inv now rl log ->
  Inv now (set_user rl u {| timestamps := recent now (timestamps (getOrCreate rl u));
                            concurrent := concurrent (getOrCreate rl u) |}) log.
Proof.
  intros [HC HH Hp Hr Hw Hc]. constructor; try done; intros v; rewrite getOrCreate_set;
    case_decide; subst; simpl; auto. rewrite recent_recent by lia. auto.
Qed.

Lemma in_window_snoc now T l :
  (forall t, t ∈ l -> t <= now) ->
  (in_window T (l ++ [now]) <= in_window T l)%nat \/
  (in_window T (l ++ [now]) <= S (length (recent now l)))%nat.
Proof.
  intros Hp. unfold in_window. rewrite filter_app, filter_cons, filter_nil.
  case_decide as HT; [right|left; rewrite app_nil_r; lia].
  rewrite length_app. simpl. rewrite Nat.add_comm. apply le_n_S.
  unfold recent. clear -HT Hp. induction l as [|t l IH]; [done|].
  ospecialize (IH _); [intros; apply Hp; by right|].
  rewrite !filter_cons. repeat case_decide; simpl; lia.
Qed.

(** An admission, given that the two checks passed on the pruned state. *)
Lemma Inv_admit now rl log u :
  Inv now rl log ->
  let s := getOrCreate rl u in
  concurrent s < maxC -> Z.of_nat (length (recent now (timestamps s))) < maxH ->
  Inv now (set_user rl u {| timestamps := recent now (timestamps s) ++ [now];
                            concurrent := concurrent s + 1 |}) (log ++ [(u, now)]).
Proof.
  intros [HC HH Hp Hr Hw Hc] s Hlc Hlh. constructor; [done|done|..].
  - intros v t. rewrite hits_snoc. case_decide; subst; rewrite ?app_nil_r; [|apply Hp].
    rewrite elem_of_app, list_elem_of_singleton. intros [?| ->]; [eauto|lia].
  - intros v. rewrite getOrCreate_set, hits_snoc. case_decide; subst; [|by rewrite app_nil_r].
    unfold recent at 1 3. simpl. rewrite !filter_app. f_equal.
    fold (recent now (recent now (timestamps s))). rewrite recent_recent by lia. apply Hr.
  - intros v T. rewrite hits_snoc. case_decide; subst; rewrite ?app_nil_r; [|auto].
    specialize (Hw v T). destruct (in_window_snoc now T (hits v log) (Hp v)) as [H|H]; [lia|].
    rewrite <-Hr in H. fold s in H. lia.
  - intros v. rewrite getOrCreate_set. case_decide; subst; [|auto]. simpl.
    specialize (Hc v). fold s in Hc. lia.
Qed.

Lemma num_Z_leb_false a b : (num_of_Z a <=? num_of_Z b)%num = false -> b < a.
Proof. intros H%num_leb_Fin_false. by rewrite Zlt_Qlt. Qed.

Lemma call_step_Inv now rl log c rl' g :
  (match c with Acquire _ t => now <= t | Release _ => True end) ->
  Inv now rl log -> call_step rl c = (rl', g) ->
  Inv (match c with Acquire _ t => t | Release _ => now end) rl'
    (match g with Some e => log ++ [e] | None => log end).
Proof.
  destruct c as [u t|u]; intros Hm HI; simpl.
  - apply (Inv_later now t) in HI; [|done]. unfold acquire.
    fold (recent t (timestamps (getOrCreate rl u))).
    pose proof (Inv_prune t rl log u HI) as HP.
    cbn [maxConcurrent maxPerHour set_user]. rewrite (inv_limC _ _ _ HI), (inv_limH _ _ _ HI).
    destruct (_ <=? _)%num eqn:E1; [intros ?; by simplify_eq|].
    destruct (num_of_Z maxH <=? _)%num eqn:E2; [intros ?; by simplify_eq|].
    intros ?; simplify_eq. apply num_Z_leb_false in E1, E2.
    pose proof (Inv_admit t rl log u HI E1 E2) as HA.
    destruct HA; constructor; try done; intros v;
      repeat (rewrite getOrCreate_set in * || case_decide); subst; try congruence; eauto;
      match goal with H : forall u, _ |- _ => specialize (H v); rewrite getOrCreate_set in H;
        rewrite ?decide_True, ?decide_False in H by done; exact H end.
  - intros ?; simplify_eq. unfold release. destruct (users rl !! u) as [s|] eqn:Es; [|done].
    assert (getOrCreate rl u = s) as Hs by (unfold getOrCreate; by rewrite Es).
    destruct (bool_decide_reflect (0 < concurrent s)); [|done].
    destruct HI as [HC HH Hp Hr Hw Hc]. constructor; try done; intros v; rewrite getOrCreate_set;
      case_decide; subst; simpl; auto. specialize (Hc v). lia.
Qed.

Lemma run_Inv cs now rl log :
  monotone now cs -> Inv now rl log ->
  exists now', Inv now' (run rl log cs).1 (run rl log cs).2.
Proof.
  revert now rl log. induction cs as [|c cs IH]; intros now rl log Hm HI; [by exists now|].
  simpl. destruct (call_step rl c) as [rl' g] eqn:E.
  eapply call_step_Inv in E; [|destruct c; [apply Hm|done]|exact HI].
  destruct c; simpl in *; eapply IH; try apply E; apply Hm.
Qed.

End Window.

(** Every admission raises the user's count by one, and a release lowers it by at most one. *)
Lemma call_step_conc rl c rl' g log u :
  call_step rl c = (rl', g) ->
  Z.of_nat (length (hits u (match g with Some e => log ++ [e] | None => log end)))
    - Z.of_nat (length (hits u log)) - Z.of_nat (releases_of u [c])
  <= concurrent (getOrCreate rl' u) - concurrent (getOrCreate rl u).
Proof.
  unfold releases_of. destruct c as [v t|v]; simpl.
  - unfold acquire. destruct (_ <=? _)%num;
      [|destruct (_ <=? _)%num]; intros ?; simplify_eq; rewrite ?hits_snoc;
      repeat (rewrite getOrCreate_set || case_decide); subst; try congruence; simpl;
      rewrite ?length_app; simpl; lia.
  - intros ?; simplify_eq. unfold release. destruct (users rl !! v) as [s|] eqn:Es.
    + assert (getOrCreate rl v = s) as Hs by (unfold getOrCreate; by rewrite Es).
      destruct (bool_decide_reflect (0 < concurrent s));
        [rewrite getOrCreate_set|]; case_decide; subst; simpl; lia.
    + case_decide; lia.
Qed.

Lemma run_conc cs rl log u :
  Z.of_nat (length (hits u (run rl log cs).2)) - Z.of_nat (length (hits u log))
    - Z.of_nat (releases_of u cs)
  <= concurrent (getOrCreate (run rl log cs).1 u) - concurrent (getOrCreate rl u).
Proof.
  revert rl log. induction cs as [|c cs IH]; intros rl log; [simpl; lia|].
  cbn [run]. destruct (call_step rl c) as [rl' g] eqn:E.
  pose proof (call_step_conc _ _ _ _ log u E) as Hc. specialize (IH rl' (match g with Some e => log ++ [e] | None => log end)).
  unfold releases_of in *. simpl in *. lia.
Qed.

Lemma new_Inv maxC maxH now :
  Inv maxC maxH now (newRateLimiter (Some {| cfg_maxConcurrent := Some (num_of_Z maxC);
                                             cfg_maxPerHour := Some (num_of_Z maxH) |})) [].
Proof.
  constructor; try done; intros; unfold hits, in_window, getOrCreate, newRateLimiter in *;
    cbn in *; rewrite ?lookup_empty; cbn; lia || by set_unfold.
Qed.

(** On a clock that does not run backwards, over any trace of [acquire] and [release] calls by
    any users: no hour-long window holds more than [maxPerHour] admissions of one user, and a
    user's admissions exceed the releases made for them by at most [maxConcurrent]. *)
Theorem rate_limiter_enforces_limits maxC maxH now cs :
  monotone now cs ->
  let log := (run (newRateLimiter (Some {| cfg_maxConcurrent := Some (num_of_Z maxC);
                                           cfg_maxPerHour := Some (num_of_Z maxH) |})) [] cs).2 in
  forall u,
    (forall T, Z.of_nat (in_window T (hits u log)) <= Z.max 0 maxH) /\
    Z.of_nat (length (hits u log)) - Z.of_nat (releases_of u cs) <= Z.max 0 maxC.
Proof.
  intros Hm log u. destruct (run_Inv maxC maxH cs now _ _ Hm (new_Inv maxC maxH now)) as [now' HI].
  split; [intros T; apply (inv_window _ _ _ _ _ HI)|].
  pose proof (run_conc cs (newRateLimiter (Some {| cfg_maxConcurrent := Some (num_of_Z maxC);
                                             cfg_maxPerHour := Some (num_of_Z maxH) |})) [] u) as Hr.
  pose proof (inv_conc _ _ _ _ _ HI u). fold log in Hr.
  assert (forall c, concurrent (getOrCreate (newRateLimiter c) u) = 0) as H0.
  { intros. unfold getOrCreate, newRateLimiter. cbn. by rewrite lookup_empty. }
  rewrite H0 in Hr. change (length (hits u [])) with 0%nat in Hr. lia.
Qed.

Definition sample_trace : list call :=
  [Acquire "a" 0; Acquire "a" 1; Acquire "a" 2; Release "a"; Acquire "b" 2; Acquire "a" 3;
   Release "a"; Acquire "a" 3600000].

Example sample_log :
  (run (newRateLimiter (Some {| cfg_maxConcurrent := Some (num_of_Z 2);
     cfg_maxPerHour := Some (num_of_Z 3) |})) [] sample_trace).2
  = [("a", 0); ("a", 1); ("b", 2); ("a", 3); ("a", 3600000)].
Proof. vm_compute. reflexivity. Qed.

Lemma rate_limiter_enforces_limits_witness :
  Z.of_nat (in_window 3600000 (hits "a"
    (run (newRateLimiter (Some {| cfg_maxConcurrent := Some (num_of_Z 2);
       cfg_maxPerHour := Some (num_of_Z 3) |})) [] sample_trace).2)) <= 3.
Proof.
  refine (proj1 (rate_limiter_enforces_limits 2 3 0 sample_trace _ "a"%string) 3600000).
  simpl. lia.
Defined.
