(* ===== verification/WallClock.v ===== *)
(** The pausable wall clock of [server/wall-clock-budget.ts]: a run's budget counts only the time
    the agent computes, never the time it waits for a human. Times are whole milliseconds. *)
From S2P Require Import Prelude.
Local Open Scope Z_scope.

(** @src src/src/server/wall-clock-budget.ts 24-38 WallClockBudget *)
Record WallClockBudget := { remainingMs : Z; armedAt : option Z; minRearmMs : Z }.

(** @src src/src/server/wall-clock-budget.ts 30-40 constructor *)
Definition newWallClockBudget (totalMs : Z) (minRearm : option Z) : WallClockBudget :=
  {| remainingMs := totalMs; armedAt := None; minRearmMs := default 1000 minRearm |}.

(** @src src/src/server/wall-clock-budget.ts 42-52 arm *)
Definition arm (w : WallClockBudget) (now : Z) : WallClockBudget * Z :=
  ({| remainingMs := w.(remainingMs); armedAt := Some now; minRearmMs := w.(minRearmMs) |},
   Z.max w.(remainingMs) w.(minRearmMs)).

(** @src src/src/server/wall-clock-budget.ts 54-64 pause *)
Definition pause (w : WallClockBudget) (now : Z) : WallClockBudget :=
  match w.(armedAt) with
  | None => w
  | Some t => {| remainingMs := w.(remainingMs) - (now - t); armedAt := None;
                 minRearmMs := w.(minRearmMs) |}
  end.

(** @src src/src/server/wall-clock-budget.ts 66-74 paused *)
Definition paused (w : WallClockBudget) : bool :=
  match w.(armedAt) with None => true | Some _ => false end.

Inductive clock_call := Arm (now : Z) | Pause (now : Z).

Definition clock_step (w : WallClockBudget) (c : clock_call) : WallClockBudget :=
  match c with Arm t => (arm w t).1 | Pause t => pause w t end.
Definition clock_run (w : WallClockBudget) (cs : list clock_call) : WallClockBudget :=
  foldl clock_step w cs.

(** ** What the clock promises *)

(** A run as its observer sees it: intervals of computing, each followed by a wait for a human
    during which the handler may pause the clock any number of further times. *)
Record interval := { from : Z; till : Z; repauses : list Z }.

Definition interval_calls (i : interval) : list clock_call :=
  Arm i.(from) :: Pause i.(till) :: (Pause <$> i.(repauses)).
Definition calls_of (ivs : list interval) : list clock_call := ivs ≫= interval_calls.

(** The time spent computing. *)
Definition compute_time (ivs : list interval) : Z :=
  foldr (fun i n => (i.(till) - i.(from)) + n) 0 ivs.

Lemma repause_noop w l : armedAt w = None -> clock_run w (Pause <$> l) = w.
Proof.
  induction l as [|t l IH]; intros H; [done|]. cbn. unfold pause. rewrite H. by apply IH.
Qed.

Lemma interval_run w i :
  armedAt w = None ->
  clock_run w (interval_calls i) =
  {| remainingMs := remainingMs w - (till i - from i); armedAt := None; minRearmMs := minRearmMs w |}.
Proof. intros _. unfold interval_calls. cbn. by apply repause_noop. Qed.

Lemma calls_run ivs w :
  armedAt w = None ->
  clock_run w (calls_of ivs) =
  {| remainingMs := remainingMs w - compute_time ivs; armedAt := None; minRearmMs := minRearmMs w |}.
Proof.
  revert w. induction ivs as [|i ivs IH]; intros w H.
  - destruct w; simpl in *; subst. by rewrite Z.sub_0_r.
  - unfold calls_of in *. cbn [mbind list_bind]. unfold clock_run in *. rewrite foldl_app.
    pose proof (interval_run w i H) as Hi. unfold clock_run in Hi. rewrite Hi, IH by done.
    cbn. f_equal. unfold compute_time. cbn. lia.
Qed.

(** After any sequence of computing intervals and human waits (repeated pauses included) the
    budget is down by exactly the computing time, the clock is paused, and the next re-arm is
    given what is left, never less than the floor: waiting is free, however long it lasts. *)
Theorem wall_clock_counts_compute_time_only total minRearm ivs now :
  let w := clock_run (newWallClockBudget total minRearm) (calls_of ivs) in
  remainingMs w = total - compute_time ivs /\ paused w = true /\
  (arm w now).2 = Z.max (total - compute_time ivs) (default 1000 minRearm).
Proof. cbn zeta. rewrite calls_run by done. done. Qed.
