(* ===== verification/CostGuard.v ===== *)
(** The per-run cost guard of [core/cost-guard.ts]: the dollar and iteration ceiling of one agent
    run, the spend booked against it and the holds taken for work in flight. *)
From S2P Require Import Prelude Num.

Definition zero : num := num_of_Z 0.

(** The four prices per million tokens, what [getPricing(model)] answers. *)
(** @src src/src/core/cost-guard.ts 9-9 pricePerM *)
Record ModelPricing := { p_input : num; p_output : num; p_cacheWrite : num; p_cacheRead : num }.

(** The figures of one reply; the two cache figures may be absent. *)
(** @src src/src/core/pricing.ts 243-248 usage *)
Record Usage := {
  input_tokens : num; output_tokens : num;
  cache_creation_input_tokens : option num; cache_read_input_tokens : option num }.

(** @src src/src/types/modes.ts 47-51 CostGuardConfig *)
Record CostGuardConfig := {
  cfg_maxBudgetUSD : option num; cfg_warnAtUSD : option num; cfg_maxIterations : option num }.

(** @src src/src/core/cost-guard.ts 5-36 CostGuard *)
Record CostGuard := {
  maxBudgetUSD : num; warnAtUSD : num; maxIterations : num; pricePerM : ModelPricing;
  inputTokens : num; outputTokens : num; cacheWriteTokens : num; cacheReadTokens : num;
  externalCostUSD : num; reservedUSD : num; capOnlyUSD : num;
  iterations : Z; warned : bool }.

Definition per_million : num := Fin (1 # 1000000).

(** [(tokens / 1_000_000) * price]. *)
Definition charge (tokens price : num) : num := (tokens * per_million * price)%num.

(** [calculateCost] with the pricing of the model looked up. *)
(** @src src/src/core/pricing.ts 243-254 calculateCost *)
Definition calculateCost (p : ModelPricing) (u : Usage) : num :=
  (charge u.(input_tokens) p.(p_input) + charge u.(output_tokens) p.(p_output)
   + charge (default zero u.(cache_creation_input_tokens)) p.(p_cacheWrite)
   + charge (default zero u.(cache_read_input_tokens)) p.(p_cacheRead))%num.

(** @src src/src/core/cost-guard.ts 38-43 constructor *)
Definition newCostGuard (config : CostGuardConfig) (p : ModelPricing) : CostGuard :=
  let cap := default PInf config.(cfg_maxBudgetUSD) in
  {| maxBudgetUSD := cap;
     warnAtUSD := default (cap * Fin (8 # 10))%num config.(cfg_warnAtUSD);
     maxIterations := default (num_of_Z 200) config.(cfg_maxIterations);
     pricePerM := p;
     inputTokens := zero; outputTokens := zero; cacheWriteTokens := zero; cacheReadTokens := zero;
     externalCostUSD := zero; reservedUSD := zero; capOnlyUSD := zero;
     iterations := 0; warned := false |}.

(** @src src/src/core/cost-guard.ts 227-233 estimateCost *)
Definition estimateCost (g : CostGuard) : num :=
  (charge g.(inputTokens) g.(pricePerM).(p_input) + charge g.(outputTokens) g.(pricePerM).(p_output)
   + charge g.(cacheWriteTokens) g.(pricePerM).(p_cacheWrite)
   + charge g.(cacheReadTokens) g.(pricePerM).(p_cacheRead)
   + g.(externalCostUSD))%num.

(** @src src/src/core/cost-guard.ts 222-225 capCost *)
Definition capCost (g : CostGuard) : num := (estimateCost g + g.(capOnlyUSD))%num.

(** @src src/src/core/cost-guard.ts 76-83 iterationCapReached *)
Definition iterationCapReached (g : CostGuard) : bool :=
  (num_of_Z g.(iterations) >=? g.(maxIterations))%num.

(** @src src/src/core/cost-guard.ts 65-74 isExceeded *)
Definition isExceeded (g : CostGuard) : bool :=
  let cost := capCost g in
  let costExceeded :=
    if isFinite cost then (cost >=? g.(maxBudgetUSD))%num
    else negb (num_eqb g.(maxBudgetUSD) PInf) in
  costExceeded || iterationCapReached g.

(** The updates of the mutable fields. *)
Definition set_tokens (g : CostGuard) (i o w r : num) (n : Z) : CostGuard :=
  {| maxBudgetUSD := g.(maxBudgetUSD); warnAtUSD := g.(warnAtUSD);
     maxIterations := g.(maxIterations); pricePerM := g.(pricePerM);
     inputTokens := i; outputTokens := o; cacheWriteTokens := w; cacheReadTokens := r;
     externalCostUSD := g.(externalCostUSD); reservedUSD := g.(reservedUSD);
     capOnlyUSD := g.(capOnlyUSD); iterations := n; warned := g.(warned) |}.
Definition set_ledger (g : CostGuard) (ext res cap : num) (w : bool) : CostGuard :=
  {| maxBudgetUSD := g.(maxBudgetUSD); warnAtUSD := g.(warnAtUSD);
     maxIterations := g.(maxIterations); pricePerM := g.(pricePerM);
     inputTokens := g.(inputTokens); outputTokens := g.(outputTokens);
     cacheWriteTokens := g.(cacheWriteTokens); cacheReadTokens := g.(cacheReadTokens);
     externalCostUSD := ext; reservedUSD := res;
     capOnlyUSD := cap; iterations := g.(iterations); warned := w |}.

(** @src src/src/core/cost-guard.ts 45-53 recordTurn *)
Definition recordTurn (g : CostGuard) (u : Usage) : CostGuard * bool :=
  let g' := set_tokens g (g.(inputTokens) + u.(input_tokens))%num
    (g.(outputTokens) + u.(output_tokens))%num
    (g.(cacheWriteTokens) + default zero u.(cache_creation_input_tokens))%num
    (g.(cacheReadTokens) + default zero u.(cache_read_input_tokens))%num
    (g.(iterations) + 1)%Z in
  (g', isExceeded g').

(** @src src/src/core/cost-guard.ts 55-63 shouldWarn *)
Definition shouldWarn (g : CostGuard) : CostGuard * bool :=
  if g.(warned) then (g, false)
  else if (capCost g >=? g.(warnAtUSD))%num
  then (set_ledger g g.(externalCostUSD) g.(reservedUSD) g.(capOnlyUSD) true, true)
  else (g, false).

(** [snapshot] without the rounded percentage. *)
(** @src src/src/types/modes.ts 75-88 CostSnapshot *)
Record CostSnapshot := {
  s_inputTokens : num; s_outputTokens : num; estimatedCostUSD : num; ownCostUSD : num;
  iterationsUsed : Z }.
(** @src src/src/core/cost-guard.ts 85-95 snapshot *)
Definition snapshot (g : CostGuard) : CostSnapshot :=
  let cost := estimateCost g in
  {| s_inputTokens := g.(inputTokens); s_outputTokens := g.(outputTokens);
     estimatedCostUSD := cost; ownCostUSD := (cost - g.(externalCostUSD))%num;
     iterationsUsed := g.(iterations) |}.

(** @src src/src/core/cost-guard.ts 97-108 reset *)
Definition reset (g : CostGuard) : CostGuard :=
  set_ledger (set_tokens g zero zero zero zero 0) zero zero zero false.

(** [None] is the code's [null]: no ceiling. *)
(** @src src/src/core/cost-guard.ts 125-137 remainingBudgetUSD *)
Definition remainingBudgetUSD (g : CostGuard) : option num :=
  if num_eqb g.(maxBudgetUSD) PInf then None
  else if negb (isFinite g.(maxBudgetUSD)) then Some zero
  else let spent := capCost g in
    if negb (isFinite spent) then Some zero
    else Some (num_max zero (g.(maxBudgetUSD) - spent - g.(reservedUSD)))%num.

(** The guard [!Number.isFinite(usd) || usd <= 0] of the two hold operations. *)
Definition nothing_to_hold (usd : num) : bool := negb (isFinite usd) || (usd <=? zero)%num.

(** @src src/src/core/cost-guard.ts 139-160 reserveExternalCost *)
Definition reserveExternalCost (g : CostGuard) (usd : num) : CostGuard * bool :=
  if nothing_to_hold usd then (g, true)
  else
    let refused := match remainingBudgetUSD g with
      | Some r => (usd >? r)%num
      | None => false end in
    if refused then (g, false)
    else (set_ledger g g.(externalCostUSD) (g.(reservedUSD) + usd)%num g.(capOnlyUSD) g.(warned),
          true).

(** @src src/src/core/cost-guard.ts 162-173 releaseExternalCost *)
Definition releaseExternalCost (g : CostGuard) (usd : num) : CostGuard :=
  if nothing_to_hold usd then g
  else set_ledger g g.(externalCostUSD) (num_max zero (g.(reservedUSD) - usd))%num
         g.(capOnlyUSD) g.(warned).

(** @src src/src/core/cost-guard.ts 199-202 recordExternalCost *)
Definition recordExternalCost (g : CostGuard) (usd : num) : CostGuard * bool :=
  let g' := if isFinite usd && (usd >? zero)%num
    then set_ledger g (g.(externalCostUSD) + usd)%num g.(reservedUSD) g.(capOnlyUSD) g.(warned)
    else g in
  (g', isExceeded g').

(** @src src/src/core/cost-guard.ts 204-211 recordCapOnlyCost *)
Definition recordCapOnlyCost (g : CostGuard) (usd : num) : CostGuard * bool :=
  let g' := if isFinite usd && (usd >? zero)%num
    then set_ledger g g.(externalCostUSD) g.(reservedUSD) (g.(capOnlyUSD) + usd)%num g.(warned)
    else g in
  (g', isExceeded g').

(** @src src/src/core/cost-guard.ts 213-220 capOnlyCostUSD *)
Definition capOnlyCostUSD (g : CostGuard) : num := g.(capOnlyUSD).

(** ** The ceiling fails closed *)

Lemma num_add_nonfinite_l a b : isFinite a = false -> isFinite (a + b)%num = false.
Proof. by destruct a, b. Qed.
Lemma num_add_nonfinite_r a b : isFinite b = false -> isFinite (a + b)%num = false.
Proof. by destruct a, b. Qed.

Lemma num_leb_zero_gt x : (Fin x <=? zero)%num = false -> (0 < x)%Q.
Proof. intros H. by apply num_leb_Fin_false in H. Qed.

(** A spend that is not a finite number (one malformed price or token count is enough) stops
    every guard that has a ceiling at all: the run counts as over budget, nothing is left to
    spend, and no positive amount can be held; the same holds of a ceiling that is itself not a
    finite number and not the explicit opt-out. *)
Theorem non_finite_fails_closed g usd :
  num_eqb (maxBudgetUSD g) PInf = false ->
  isFinite (capCost g) = false \/ isFinite (maxBudgetUSD g) = false ->
  remainingBudgetUSD g = Some zero /\
  (isFinite (capCost g) = false -> isExceeded g = true) /\
  (nothing_to_hold usd = false -> reserveExternalCost g usd = (g, false)).
Proof.
  intros Hcap Hbad.
  assert (remainingBudgetUSD g = Some zero) as Hrem.
  { unfold remainingBudgetUSD. rewrite Hcap. destruct (isFinite (maxBudgetUSD g)); [|done].
    destruct Hbad as [-> | ?]; done. }
  split_and!; [done|..].
  - intros Hc. unfold isExceeded. by rewrite Hc, Hcap.
  - unfold reserveExternalCost. intros Hn. rewrite Hn, Hrem.
    unfold nothing_to_hold in Hn. apply orb_false_iff in Hn as [Hf Hz].
    destruct usd as [| | |x]; try done. apply num_leb_zero_gt in Hz.
    assert ((zero <? Fin x)%num = true) as ->; [|done]. by apply num_ltb_Fin.
Qed.

Definition poisoned : CostGuard :=
  (recordTurn
     (newCostGuard {| cfg_maxBudgetUSD := Some (num_of_Z 3); cfg_warnAtUSD := None;
                      cfg_maxIterations := None |}
        {| p_input := NaN; p_output := zero; p_cacheWrite := zero; p_cacheRead := zero |})
     {| input_tokens := num_of_Z 10; output_tokens := num_of_Z 5;
        cache_creation_input_tokens := None; cache_read_input_tokens := None |}).1.

Lemma non_finite_fails_closed_witness : isExceeded poisoned = true.
Proof.
  refine (proj1 (proj2 (non_finite_fails_closed poisoned (num_of_Z 1) _ _)) _);
    [reflexivity|left; reflexivity|reflexivity].
Defined.

(** ** Holds never promise the same dollars twice *)

(** Reservations taken one after the other, as a fan-out does in one instant; the amounts that
    were granted and really held. *)
Fixpoint reserve_all (g : CostGuard) (amounts : list num) : CostGuard * list Q :=
  match amounts with
  | [] => (g, [])
  | a :: rest =>
      let '(g', ok) := reserveExternalCost g a in
      let '(g'', held) := reserve_all g' rest in
      (g'', match a with
            | Fin x => if ok && negb (nothing_to_hold a) then x :: held else held
            | _ => held end)
  end.

Definition Qsum (l : list Q) : Q := foldr Qplus 0%Q l.

Lemma capCost_set_ledger g r w :
  capCost (set_ledger g (externalCostUSD g) r (capOnlyUSD g) w) = capCost g.
Proof. done. Qed.

Section Holds.
Variables (cap spent : Q).

(** A guard with a finite ceiling and finite spend, holding [r]. *)
Definition holding (g : CostGuard) (r : Q) : Prop :=
  maxBudgetUSD g = Fin cap /\ capCost g = Fin spent /\ reservedUSD g = Fin r.

Lemma remaining_finite g r :
  holding g r -> exists m, remainingBudgetUSD g = Some (Fin m) /\
    (m == if Qle_bool (cap - spent - r) 0 then 0 else cap - spent - r)%Q.
Proof.
  intros (Hc & Hs & Hr). unfold remainingBudgetUSD. rewrite Hc, Hs, Hr. cbn.
  unfold Qltb. destruct (Qle_bool (cap + - spent + - r) (inject_Z 0)) eqn:E; cbn;
    (eexists; split; [reflexivity|]); unfold inject_Z in *; unfold Qminus; rewrite E; lra.
Qed.

Lemma reserve_holding g r a g' ok :
  holding g r -> reserveExternalCost g a = (g', ok) ->
  (exists x, a = Fin x /\ (0 < x)%Q /\ (r + x <= cap - spent)%Q /\ ok = true /\
             nothing_to_hold a = false /\ holding g' (r + x)) \/
  (holding g' r /\ g' = g /\ ok && negb (nothing_to_hold a) = false).
Proof.
  intros H. pose proof (remaining_finite g r H) as (m & Hm & Hmv).
  unfold reserveExternalCost. destruct (nothing_to_hold a) eqn:En.
  { intros [= <- <-]. right. by rewrite andb_false_r. }
  rewrite Hm. destruct a as [| | |x]; try done.
  apply orb_false_iff in En as Hz. destruct Hz as [_ Hz]. apply num_leb_zero_gt in Hz.
  destruct (Fin m <? Fin x)%num eqn:E; intros [= <- <-]; [by right|left].
  apply num_ltb_Fin_false in E. destruct H as (Hc & Hs & Hr).
  exists x. split_and!; try done.
  - destruct (Qle_bool _ _) eqn:Eq; [lra|]. lra.
  - split_and!; [done|by rewrite capCost_set_ledger|]. cbn. by rewrite Hr.
Qed.

Lemma reserve_all_holding amounts g r :
  holding g r ->
  exists r', holding (reserve_all g amounts).1 r' /\
    (r' == r + Qsum (reserve_all g amounts).2)%Q /\
    (0 <= Qsum (reserve_all g amounts).2)%Q /\
    (Qsum (reserve_all g amounts).2 == 0 \/ r' <= cap - spent)%Q.
Proof.
  revert g r. induction amounts as [|a rest IH]; intros g r H.
  { exists r. split_and!; [done|simpl; lra..|left; simpl; lra]. }
  cbn [reserve_all]. destruct (reserveExternalCost g a) as [g' ok] eqn:E.
  destruct (reserve_holding _ _ _ _ _ H E) as [(x & -> & Hx & Hle & -> & Hn & H')|(H' & -> & Hf)].
  - destruct (IH _ _ H') as (r' & Hr & Hs & Hp & Hor).
    destruct (reserve_all g' rest) as [g'' held]. rewrite Hn. cbn in *.
    exists r'. split_and!; [done|lra..|right]. destruct Hor; lra.
  - destruct (IH _ _ H') as (r' & Hr & Hs & Hp & Hor).
    destruct (reserve_all g rest) as [g'' held]. rewrite Hf. cbn in *.
    exists r'. destruct a; done.
Qed.
End Holds.

(** However many holds are asked for in the same instant, and whatever the amounts (negative
    and non-finite ones included), the dollars granted never sum to more than the run's ceiling
    leaves free: two callers are not both given the same room. *)
Theorem holds_never_overcommit g cap spent r amounts :
  holding cap spent g r -> (r <= cap - spent)%Q ->
  (Qsum (reserve_all g amounts).2 <= cap - spent - r)%Q.
Proof.
  intros H Hr. destruct (reserve_all_holding cap spent amounts g r H) as (r' & _ & Hs & _ & [Hz|Hle]);
    lra.
Qed.

Definition fresh_guard : CostGuard :=
  newCostGuard {| cfg_maxBudgetUSD := Some (num_of_Z 3); cfg_warnAtUSD := None;
                  cfg_maxIterations := None |}
    {| p_input := num_of_Z 3; p_output := num_of_Z 15; p_cacheWrite := num_of_Z 6;
       p_cacheRead := Fin (3 # 10) |}.

Lemma holds_never_overcommit_witness :
  exists spent r, holding 3 spent fresh_guard r /\
    (Qsum (reserve_all fresh_guard [num_of_Z 2; num_of_Z 2; NaN; num_of_Z 1; num_of_Z 1]).2
     <= 3 - spent - r)%Q.
Proof.
  eexists _, _. split; [split_and!; vm_compute; reflexivity|].
  refine (holds_never_overcommit fresh_guard 3 _ _ _ _ _);
    [split_and!; vm_compute; reflexivity|unfold Qle; simpl; lia].
Defined.

Example two_of_four_held :
  (reserve_all fresh_guard [num_of_Z 2; num_of_Z 2; NaN; num_of_Z 1; num_of_Z 1]).2 = [2; 1]%Q.
Proof. reflexivity. Qed.

(** ** What a run is charged *)

(** The operations that book spend. *)
Inductive booking := Turn (u : Usage) | External (usd : num) | CapOnly (usd : num).

Definition book (g : CostGuard) (b : booking) : CostGuard :=
  match b with
  | Turn u => (recordTurn g u).1
  | External usd => (recordExternalCost g usd).1
  | CapOnly usd => (recordCapOnlyCost g usd).1
  end.

(** A helper figure that counts: finite and above zero. *)
Definition counted (usd : num) : num := if isFinite usd && (usd >? zero)%num then usd else zero.

Definition num_sum (l : list num) : num := foldr num_add zero l.
Definition own_costs (p : ModelPricing) (bs : list booking) : num :=
  num_sum ((fun b => match b with Turn u => calculateCost p u | _ => zero end) <$> bs).
Definition external_costs (bs : list booking) : num :=
  num_sum ((fun b => match b with External usd => counted usd | _ => zero end) <$> bs).
Definition cap_only_costs (bs : list booking) : num :=
  num_sum ((fun b => match b with CapOnly usd => counted usd | _ => zero end) <$> bs).
Definition turns (bs : list booking) : nat :=
  sum_list_with (fun b => match b with Turn _ => 1%nat | _ => 0%nat end) bs.

Definition finite (a : num) : Prop := isFinite a = true.
Definition finite_pricing (p : ModelPricing) : Prop :=
  finite (p_input p) /\ finite (p_output p) /\ finite (p_cacheWrite p) /\ finite (p_cacheRead p).
Definition finite_usage (u : Usage) : Prop :=
  finite (input_tokens u) /\ finite (output_tokens u) /\
  finite (default zero (cache_creation_input_tokens u)) /\
  finite (default zero (cache_read_input_tokens u)).
Definition finite_booking (b : booking) : Prop :=
  match b with Turn u => finite_usage u | _ => True end.
Definition finite_guard (g : CostGuard) : Prop :=
  finite_pricing (pricePerM g) /\ finite (inputTokens g) /\ finite (outputTokens g) /\
  finite (cacheWriteTokens g) /\ finite (cacheReadTokens g) /\ finite (externalCostUSD g) /\
  finite (capOnlyUSD g).

#[global] Instance num_add_proper : Proper (num_eq ==> num_eq ==> num_eq) num_add.
Proof. intros [] [] H1 [] [] H2; simpl in *; try done. by rewrite H1, H2. Qed.

Lemma num_add_comm a b : (a + b == b + a)%num.
Proof. destruct a, b; simpl; try done. ring. Qed.
Lemma num_add_assoc a b c : (a + (b + c) == a + b + c)%num.
Proof. destruct a, b, c; simpl; try done. ring. Qed.
Lemma num_add_0_r a : (a + zero == a)%num.
Proof. destruct a; simpl; try done. unfold inject_Z. ring. Qed.
Lemma num_add_0_l a : (zero + a == a)%num.
Proof. rewrite num_add_comm. apply num_add_0_r. Qed.

Lemma finite_add a b : finite a -> finite b -> finite (a + b)%num.
Proof. by destruct a, b. Qed.
Lemma counted_finite usd : finite (counted usd).
Proof. unfold counted. by destruct usd; simpl; [..|destruct (Qltb _ _)]. Qed.
#[local] Hint Resolve finite_add counted_finite : lynox.

Lemma charge_add a b p :
  finite a -> finite b -> finite p -> (charge (a + b) p == charge a p + charge b p)%num.
Proof. destruct a, b, p; unfold charge; simpl; try done. intros _ _ _. ring. Qed.

Lemma counted_add ext usd :
  finite ext ->
  ((if isFinite usd && (usd >? zero)%num then ext + usd else ext) == ext + counted usd)%num.
Proof.
  intros. unfold counted. destruct (isFinite usd && _); [done|]. by rewrite num_add_0_r.
Qed.

Lemma book_finite g b : finite_guard g -> finite_booking b -> finite_guard (book g b).
Proof.
  unfold finite_guard. destruct b as [u|usd|usd]; cbn.
  - unfold finite_usage. intuition auto with lynox.
  - intros. destruct (isFinite usd && _)%bool eqn:E; cbn; [|done].
    apply andb_true_iff in E as [? _]. intuition auto with lynox.
  - intros. destruct (isFinite usd && _)%bool eqn:E; cbn; [|done].
    apply andb_true_iff in E as [? _]. intuition auto with lynox.
Qed.

(** A value known to be finite is [Fin] of something. *)
Ltac fin a := destruct a as [| | |?]; [discriminate..|].

(** One booking's effect on the three accumulators. *)
Lemma book_costs g b :
  finite_guard g -> finite_booking b ->
  (estimateCost (book g b) == estimateCost g
     + (own_costs (pricePerM g) [b] + external_costs [b]))%num /\
  (externalCostUSD (book g b) == externalCostUSD g + external_costs [b])%num /\
  (capOnlyUSD (book g b) == capOnlyUSD g + cap_only_costs [b])%num.
Proof.
  intros (Hp & Hi & Ho & Hw & Hr & He & Hc).
  destruct b as [u|usd|usd]; unfold own_costs, external_costs, cap_only_costs, num_sum; cbn -[num_add].
  - intros (Ui & Uo & Uw & Ur). destruct Hp as (P1 & P2 & P3 & P4).
    split_and!; [|by rewrite !num_add_0_r..].
    unfold estimateCost, recordTurn, calculateCost. cbn.
    rewrite !charge_add by done. unfold charge.
    clear Hc. unfold finite in *.
    fin (default zero (cache_creation_input_tokens u)). fin (default zero (cache_read_input_tokens u)).
    fin (input_tokens u). fin (output_tokens u). fin (inputTokens g). fin (outputTokens g).
    fin (cacheWriteTokens g). fin (cacheReadTokens g). fin (externalCostUSD g).
    fin (p_input (pricePerM g)). fin (p_output (pricePerM g)).
    fin (p_cacheWrite (pricePerM g)). fin (p_cacheRead (pricePerM g)).
    cbn. ring.
  - intros _. pose proof (counted_add (externalCostUSD g) usd He) as Hx.
    unfold recordExternalCost. split_and!; rewrite ?num_add_0_r; [|by destruct (isFinite usd && _)..].
    unfold estimateCost. destruct (isFinite usd && _); cbn [fst set_ledger inputTokens outputTokens
      cacheWriteTokens cacheReadTokens pricePerM externalCostUSD];
      (etransitivity; [apply num_add_proper; [reflexivity|apply Hx]|]);
      by rewrite num_add_0_l, num_add_assoc.
  - intros _. pose proof (counted_add (capOnlyUSD g) usd Hc) as Hx.
    unfold recordCapOnlyCost.
    split_and!; rewrite ?num_add_0_r; by destruct (isFinite usd && _).
Qed.

Lemma book_pricing g b : pricePerM (book g b) = pricePerM g.
Proof. by destruct b; cbn; try destruct (_ && _). Qed.

Lemma book_iterations g b : iterations (book g b) = (iterations g + Z.of_nat (turns [b]))%Z.
Proof. destruct b; cbn; try destruct (_ && _); cbn; lia. Qed.

Lemma num_sum_fmap_cons {A} (f : A -> num) b bs :
  (num_sum (f <$> b :: bs) == num_sum (f <$> [b]) + num_sum (f <$> bs))%num.
Proof. unfold num_sum. cbn -[num_add]. by rewrite num_add_0_r. Qed.

Lemma own_costs_cons p b bs : (own_costs p (b :: bs) == own_costs p [b] + own_costs p bs)%num.
Proof. apply num_sum_fmap_cons. Qed.
Lemma external_costs_cons b bs : (external_costs (b :: bs) == external_costs [b] + external_costs bs)%num.
Proof. apply num_sum_fmap_cons. Qed.
Lemma cap_only_costs_cons b bs : (cap_only_costs (b :: bs) == cap_only_costs [b] + cap_only_costs bs)%num.
Proof. apply num_sum_fmap_cons. Qed.

Lemma num_shuffle a b c d e : (a + (b + c) + (d + e) == a + ((b + d) + (c + e)))%num.
Proof. destruct a, b, c, d, e; simpl; try done. ring. Qed.

(** Over any mix of turns, helper bookings and aborted-call bounds on a guard whose prices and
    token counts are finite: the figure the ceiling is measured with has grown by the price of
    every turn ([calculateCost]), every valid helper amount and every valid bound; the snapshot's
    estimate leaves the bounds out; the helper account, which the snapshot's own cost leaves out,
    has grown by the valid helper amounts alone; and the iteration count is the number of turns.
    Malformed helper amounts add nothing. *)
Theorem bookings_add_up g bs :
  finite_guard g -> Forall finite_booking bs ->
  let g' := foldl book g bs in
  let own := own_costs (pricePerM g) bs in
  (estimatedCostUSD (snapshot g') == estimateCost g + (own + external_costs bs))%num /\
  (capCost g' == estimateCost g + (own + external_costs bs) + (capOnlyUSD g + cap_only_costs bs))%num /\
  (externalCostUSD g' == externalCostUSD g + external_costs bs)%num /\
  iterationsUsed (snapshot g') = (iterations g + Z.of_nat (turns bs))%Z.
Proof.
  intros Hg Hbs. cbn zeta. cbn [snapshot estimatedCostUSD iterationsUsed].
  revert g Hg. induction Hbs as [|b bs Hb Hbs IH]; intros g Hg.
  { unfold own_costs, external_costs, cap_only_costs, capCost. cbn [foldl fmap list_fmap num_sum foldr turns sum_list_with].
    rewrite !num_add_0_r. split_and!; try done. lia. }
  destruct (IH (book g b) (book_finite g b Hg Hb)) as (I1 & I2 & I3 & I4).
  destruct (book_costs g b Hg Hb) as (B1 & B2 & B3). rewrite book_pricing in *.
  rewrite book_iterations in I4. cbn [foldl].
  split_and!.
  - rewrite I1, B1, (own_costs_cons _ b bs), (external_costs_cons b bs). apply num_shuffle.
  - rewrite I2, B1, B3, (own_costs_cons _ b bs), (external_costs_cons b bs),
      (cap_only_costs_cons b bs).
    by rewrite (num_shuffle (estimateCost g)), (num_add_assoc (capOnlyUSD g)).
  - by rewrite I3, B2, (external_costs_cons b bs), num_add_assoc.
  - rewrite I4. unfold turns. cbn. lia.
Qed.

Definition sample_usage : Usage :=
  {| input_tokens := num_of_Z 1000; output_tokens := num_of_Z 200;
     cache_creation_input_tokens := None; cache_read_input_tokens := Some (num_of_Z 50) |}.

Lemma bookings_add_up_witness :
  (capCost (foldl book fresh_guard [Turn sample_usage; External (num_of_Z 1); CapOnly NaN])
   == estimateCost fresh_guard
      + (own_costs (pricePerM fresh_guard) [Turn sample_usage; External (num_of_Z 1); CapOnly NaN]
         + external_costs [Turn sample_usage; External (num_of_Z 1); CapOnly NaN])
      + (capOnlyUSD fresh_guard
         + cap_only_costs [Turn sample_usage; External (num_of_Z 1); CapOnly NaN]))%num.
Proof.
  refine (proj1 (proj2 (bookings_add_up fresh_guard
    [Turn sample_usage; External (num_of_Z 1); CapOnly NaN] _ _))).
  - repeat split.
  - repeat constructor.
Defined.
