(* ===== verification/SessionBudget.v ===== *)
(** The spending caps of [core/session-budget.ts]: the per-session ceiling every agent-creating path
    reserves against, and the daily and monthly caps background runs are admitted under. The
    module-level variables are a record; the recorded spend and the date are arguments. *)
From S2P Require Import Prelude Num JsString CostGuard.

(** One row of the cost provider. *)
(** @src src/src/core/session-budget.ts 71-74 CostQueryProvider *)
Record CostRow := { day : string; cost_usd : num }.

(** The module's variables; [costProvider] is what [getCostByDay] of the configured provider
    answers, [None] without one. *)
(** @src src/src/core/session-budget.ts 76-93 state *)
Record Budgets := {
  maxSessionCostUSD : num; costProvider : option (list CostRow);
  dailyCapUSD : num; monthlyCapUSD : num; reservedInFlightUSD : num }.

Definition DEFAULT_SESSION_COST_USD : num := num_of_Z 50.
Definition DEFAULT_DAILY_CAP_USD : num := num_of_Z 100.
Definition DEFAULT_MONTHLY_CAP_USD : num := num_of_Z 500.

Inductive SessionBudgetError := NonFiniteEstimate | CeilingExceeded (ceiling current estimate : num).

(** The check and its reservation on [counters.costUSD]. *)
(** @src src/src/core/session-budget.ts 26-47 checkSessionBudget *)
Definition checkSessionBudget (max costUSD estimated : num) : result SessionBudgetError num :=
  if negb (isFinite estimated) then Err NonFiniteEstimate
  else if (costUSD + estimated >? max)%num then Err (CeilingExceeded max costUSD estimated)
  else Ok (costUSD + estimated)%num.

(** @src src/src/core/session-budget.ts 49-57 recordSessionCost *)
Definition recordSessionCost (counter costUSD : num) : num :=
  if negb (isFinite costUSD && (costUSD >? zero)%num) then counter else (counter + costUSD)%num.

(** @src src/src/core/session-budget.ts 59-62 adjustSessionCost *)
Definition adjustSessionCost (counter delta : num) : num := (counter + delta)%num.

(** @src src/src/core/session-budget.ts 95-110 configurePersistentBudget *)
Definition configurePersistentBudget (b : Budgets) (provider : option (list CostRow))
    (session daily monthly : option num) : Budgets :=
  {| costProvider := provider;
     maxSessionCostUSD := default DEFAULT_SESSION_COST_USD session;
     dailyCapUSD := default DEFAULT_DAILY_CAP_USD daily;
     monthlyCapUSD := default DEFAULT_MONTHLY_CAP_USD monthly;
     reservedInFlightUSD := b.(reservedInFlightUSD) |}.

(** @src src/src/core/session-budget.ts 264-271 resetPersistentBudget *)
Definition resetPersistentBudget : Budgets :=
  {| costProvider := None; maxSessionCostUSD := DEFAULT_SESSION_COST_USD;
     reservedInFlightUSD := zero; dailyCapUSD := DEFAULT_DAILY_CAP_USD;
     monthlyCapUSD := DEFAULT_MONTHLY_CAP_USD |}.

(** [s.slice(0, n)]. *)
Definition slice0 (n : nat) (s : string) : string := String.substring 0 n s.

Definition is_inf (a : num) : bool := num_eqb a PInf.

(** [today] is the first ten characters of the ISO date. *)
(** @src src/src/core/session-budget.ts 112-135 computeRecordedSpend *)
Definition computeRecordedSpend (b : Budgets) (today : string) : option (num * num) :=
  match b.(costProvider) with
  | None => None
  | Some rows =>
      if is_inf b.(dailyCapUSD) && is_inf b.(monthlyCapUSD) then None
      else
        let todayCost := match list_find (fun r => r.(day) = today) rows with
          | Some (_, r) => r.(cost_usd) | None => zero end in
        let monthCost := foldl (fun sum r => sum + r.(cost_usd))%num zero
          (filter (fun r => slice0 7 r.(day) = slice0 7 today) rows) in
        Some (todayCost, monthCost)
  end.

(** @src src/src/types/modes.ts 53-60 PersistentBudgetCheck *)
Record PersistentBudgetCheck := {
  allowed : bool; todayCostUSD : num; monthCostUSD : num;
  dailyLimitUSD : option num; monthlyLimitUSD : option num }.

(** A cap that is in force: below infinity. *)
Definition enforced (cap : num) : bool := (cap <? PInf)%num.
Definition limit_of (cap : num) : option num := if enforced cap then Some cap else None.

(** @src src/src/core/session-budget.ts 137-166 checkPersistentBudget *)
Definition checkPersistentBudget (b : Budgets) (today : string) : PersistentBudgetCheck :=
  match computeRecordedSpend b today with
  | None => {| allowed := true; todayCostUSD := zero; monthCostUSD := zero;
               dailyLimitUSD := None; monthlyLimitUSD := None |}
  | Some (t, m) =>
      if enforced b.(dailyCapUSD) && (t >=? b.(dailyCapUSD))%num then
        {| allowed := false; todayCostUSD := t; monthCostUSD := m;
           dailyLimitUSD := Some b.(dailyCapUSD); monthlyLimitUSD := limit_of b.(monthlyCapUSD) |}
      else if enforced b.(monthlyCapUSD) && (m >=? b.(monthlyCapUSD))%num then
        {| allowed := false; todayCostUSD := t; monthCostUSD := m;
           dailyLimitUSD := limit_of b.(dailyCapUSD); monthlyLimitUSD := Some b.(monthlyCapUSD) |}
      else
        {| allowed := true; todayCostUSD := t; monthCostUSD := m;
           dailyLimitUSD := limit_of b.(dailyCapUSD); monthlyLimitUSD := limit_of b.(monthlyCapUSD) |}
  end.

(** The two refusals of the admission, with the cap each names. *)
(** @src src/src/types/modes.ts 62-73 PersistentBudgetReservation *)
Inductive Reservation :=
| Granted (reservedUSD : num)
| RefusedDaily (cap : num)
| RefusedMonthly (cap : num).

Definition set_reserved (b : Budgets) (r : num) : Budgets :=
  {| maxSessionCostUSD := b.(maxSessionCostUSD); costProvider := b.(costProvider);
     dailyCapUSD := b.(dailyCapUSD); monthlyCapUSD := b.(monthlyCapUSD);
     reservedInFlightUSD := r |}.

(** @src src/src/core/session-budget.ts 168-205 reservePersistentBudget *)
Definition reservePersistentBudget (b : Budgets) (today : string) (estimated : num)
    : Budgets * Reservation :=
  match computeRecordedSpend b today with
  | None => (b, Granted zero)
  | Some (t, m) =>
      if (estimated <=? zero)%num then (b, Granted zero)
      else
        let projectedToday := (t + b.(reservedInFlightUSD) + estimated)%num in
        let projectedMonth := (m + b.(reservedInFlightUSD) + estimated)%num in
        if enforced b.(dailyCapUSD) && (projectedToday >? b.(dailyCapUSD))%num
        then (b, RefusedDaily b.(dailyCapUSD))
        else if enforced b.(monthlyCapUSD) && (projectedMonth >? b.(monthlyCapUSD))%num
        then (b, RefusedMonthly b.(monthlyCapUSD))
        else (set_reserved b (b.(reservedInFlightUSD) + estimated)%num, Granted estimated)
  end.

(** @src src/src/core/session-budget.ts 207-240 persistentBudgetHeadroom *)
Definition persistentBudgetHeadroom (b : Budgets) (today : string) : option num :=
  match computeRecordedSpend b today with
  | None => None
  | Some (t, m) =>
      let remaining :=
        (if enforced b.(dailyCapUSD)
         then [b.(dailyCapUSD) - t - b.(reservedInFlightUSD)]%num else []) ++
        (if enforced b.(monthlyCapUSD)
         then [b.(monthlyCapUSD) - m - b.(reservedInFlightUSD)]%num else []) in
      match remaining with
      | [] => None
      | _ => Some (num_max zero (foldl num_min PInf remaining))
      end
  end.

(** @src src/src/core/session-budget.ts 242-246 releasePersistentBudget *)
Definition releasePersistentBudget (b : Budgets) (reservedUSD : num) : Budgets :=
  if (reservedUSD <=? zero)%num then b
  else set_reserved b (num_max zero (b.(reservedInFlightUSD) - reservedUSD))%num.

(** @src src/src/core/session-budget.ts 248-262 getSessionCostCeiling *)
Definition getSessionCostCeiling (b : Budgets) : num := b.(maxSessionCostUSD).
Definition getReservedInFlight (b : Budgets) : num := b.(reservedInFlightUSD).

(** ** The session ceiling *)

(** Checks made one after the other by agents starting in parallel: the counter at the end and the
    estimates that were admitted. *)
Fixpoint check_all (max c : num) (estimates : list num) : num * list num :=
  match estimates with
  | [] => (c, [])
  | e :: rest =>
      match checkSessionBudget max c e with
      | Ok c' => let '(c'', ok) := check_all max c' rest in (c'', e :: ok)
      | Err _ => check_all max c rest
      end
  end.

Lemma check_all_bound estimates m c :
  (c <= m)%Q ->
  exists c', (check_all (Fin m) (Fin c) estimates).1 = Fin c' /\ (c' <= m)%Q.
Proof.
  revert c. induction estimates as [|e rest IH]; intros c Hc; [by exists c|].
  cbn [check_all]. unfold checkSessionBudget. destruct e as [| | |x]; cbn [isFinite negb]; auto.
  destruct (Fin m <? Fin c + Fin x)%num eqn:E; [auto|].
  cbn in E. apply (num_ltb_Fin_false m (c + x)) in E.
  destruct (IH (c + x)%Q E) as (c' & H & Hle). exists c'. split; [|done].
  cbn in *. by destruct (check_all _ _ rest).
Qed.

Lemma check_all_admits_finite estimates max c : Forall (fun e => isFinite e = true) (check_all max c estimates).2.
Proof.
  revert c. induction estimates as [|e rest IH]; intros c; [constructor|].
  cbn [check_all]. unfold checkSessionBudget. destruct (isFinite e) eqn:E; cbn; [|apply IH].
  destruct (_ <? _)%num; [apply IH|]. specialize (IH (c + e)%num).
  destruct (check_all _ _ rest). by constructor.
Qed.

(** Agents that start in parallel each check and reserve in one step, so whatever estimates they
    bring (NaN and infinities are refused) the session counter never passes the ceiling, and
    recording a malformed actual cost afterwards leaves it unchanged. *)
Theorem session_ceiling_holds m c estimates junk :
  (c <= m)%Q ->
  (exists c', (check_all (Fin m) (Fin c) estimates).1 = Fin c' /\ (c' <= m)%Q /\
     (isFinite junk = false -> recordSessionCost (Fin c') junk = Fin c')) /\
  Forall (fun e => isFinite e = true) (check_all (Fin m) (Fin c) estimates).2.
Proof.
  intros Hc. destruct (check_all_bound estimates m c Hc) as (c' & H & Hle).
  split; [|apply check_all_admits_finite]. exists c'. split_and!; [done|done|].
  intros Hj. unfold recordSessionCost. by rewrite Hj.
Qed.

Lemma session_ceiling_holds_witness :
  exists c', (check_all (Fin 50) (Fin 0) [Fin 30; NaN; Fin 30; PInf; Fin 20]).1 = Fin c' /\
    (c' <= 50)%Q /\ (isFinite NaN = false -> recordSessionCost (Fin c') NaN = Fin c').
Proof.
  refine (proj1 (session_ceiling_holds 50 0 [Fin 30; NaN; Fin 30; PInf; Fin 20] NaN _)).
  unfold Qle; simpl; lia.
Defined.

Example two_of_five_start :
  (check_all (Fin 50) (Fin 0) [Fin 30; NaN; Fin 30; PInf; Fin 20]).2 = [Fin 30; Fin 20].
Proof. reflexivity. Qed.

(** ** Admission under the daily and monthly caps *)

(** The tasks a tick dispatches at once; the estimates admitted and held. *)
Fixpoint admit_all (b : Budgets) (today : string) (estimates : list num) : Budgets * list num :=
  match estimates with
  | [] => (b, [])
  | e :: rest =>
      match reservePersistentBudget b today e with
      | (b', Granted _) => let '(b'', ok) := admit_all b' today rest in (b'', e :: ok)
      | (b', _) => admit_all b' today rest
      end
  end.

(** Recorded spend plus what is held stays within a cap that is in force. *)
Definition within (cap spent reserved : num) : Prop :=
  enforced cap = true -> exists c s r, cap = Fin c /\ spent = Fin s /\ reserved = Fin r /\ (s + r <= c)%Q.

Lemma reserve_fields b today e :
  let b' := (reservePersistentBudget b today e).1 in
  costProvider b' = costProvider b /\ dailyCapUSD b' = dailyCapUSD b /\
  monthlyCapUSD b' = monthlyCapUSD b.
Proof.
  cbn. unfold reservePersistentBudget. destruct (computeRecordedSpend b today) as [[t m]|]; [|done].
  destruct (_ <=? _)%num; [done|]. destruct (_ && _); [done|]. by destruct (_ && _).
Qed.

Lemma spend_of_fields b b' today :
  costProvider b' = costProvider b -> dailyCapUSD b' = dailyCapUSD b ->
  monthlyCapUSD b' = monthlyCapUSD b -> computeRecordedSpend b' today = computeRecordedSpend b today.
Proof. unfold computeRecordedSpend. by intros -> -> ->. Qed.

Lemma within_admit cap s r x :
  within cap s (Fin r) -> enforced cap && (s + Fin r + Fin x >? cap)%num = false ->
  within cap s (Fin (r + x)).
Proof.
  unfold within. destruct (enforced cap); [|done]. intros H E _.
  destruct (H eq_refl) as (c & s' & r' & -> & -> & [= <-] & Hle).
  cbn in E. apply (num_ltb_Fin_false c (s' + r + x)) in E.
  exists c, s', (r + x)%Q. split_and!; try done. lra.
Qed.

Lemma reserve_within b today t m e r b' res :
  computeRecordedSpend b today = Some (t, m) -> isFinite e = true ->
  reservedInFlightUSD b = Fin r ->
  within (dailyCapUSD b) t (Fin r) -> within (monthlyCapUSD b) m (Fin r) ->
  reservePersistentBudget b today e = (b', res) ->
  exists r', reservedInFlightUSD b' = Fin r' /\
    within (dailyCapUSD b) t (Fin r') /\ within (monthlyCapUSD b) m (Fin r').
Proof.
  intros Hs He Hr Hd Hm. unfold reservePersistentBudget. rewrite Hs, Hr.
  destruct e as [| | |x]; try done.
  destruct (Fin x <=? zero)%num; [intros ?; simplify_eq; eauto|].
  destruct (enforced (dailyCapUSD b) && _) eqn:Ed; [intros ?; simplify_eq; eauto|].
  destruct (enforced (monthlyCapUSD b) && _) eqn:Em; [intros ?; simplify_eq; eauto|].
  intros ?; simplify_eq. exists (r + x)%Q. split_and!; [done|by apply within_admit..].
Qed.

Lemma admit_all_within estimates b today t m r :
  computeRecordedSpend b today = Some (t, m) -> Forall (fun e => isFinite e = true) estimates ->
  reservedInFlightUSD b = Fin r ->
  within (dailyCapUSD b) t (Fin r) -> within (monthlyCapUSD b) m (Fin r) ->
  exists r', reservedInFlightUSD (admit_all b today estimates).1 = Fin r' /\
    within (dailyCapUSD b) t (Fin r') /\ within (monthlyCapUSD b) m (Fin r').
Proof.
  intros Hs Hall. revert b r Hs. induction Hall as [|e rest He Hall IH]; intros b r Hs Hr Hd Hm.
  { by exists r. }
  cbn [admit_all]. destruct (reservePersistentBudget b today e) as [b' res] eqn:E.
  destruct (reserve_within b today t m e r b' res Hs He Hr Hd Hm E) as (r' & Hr' & Hd' & Hm').
  destruct (reserve_fields b today e) as (F1 & F2 & F3). rewrite E in F1, F2, F3. cbn in *.
  ospecialize (IH b' r' _ Hr' _ _); [by rewrite (spend_of_fields b)|by rewrite F2|by rewrite F3|].
  rewrite F2, F3 in IH. destruct res; [|done..]. by destruct (admit_all b' today rest).
Qed.

(** However many background tasks one tick fires, as long as their estimates are numbers, the
    spend already recorded today and this calendar month plus everything admitted and still in
    flight stays within each cap that is in force. *)
Theorem in_flight_tasks_stay_within_caps b today t m r estimates :
  computeRecordedSpend b today = Some (t, m) ->
  Forall (fun e => isFinite e = true) estimates -> reservedInFlightUSD b = Fin r ->
  within (dailyCapUSD b) t (Fin r) -> within (monthlyCapUSD b) m (Fin r) ->
  let b' := (admit_all b today estimates).1 in
  within (dailyCapUSD b) t (reservedInFlightUSD b') /\
  within (monthlyCapUSD b) m (reservedInFlightUSD b').
Proof.
  intros Hs Hall Hr Hd Hm. destruct (admit_all_within _ _ _ _ _ _ Hs Hall Hr Hd Hm) as (r' & H & ? & ?).
  cbn zeta. by rewrite H.
Qed.

Definition sample_rows : list CostRow :=
  [{| day := "2026-03-02"; cost_usd := Fin 40 |}; {| day := "2026-03-01"; cost_usd := Fin 20 |};
   {| day := "2026-02-28"; cost_usd := Fin 90 |}].
Definition sample_budgets : Budgets :=
  configurePersistentBudget resetPersistentBudget (Some sample_rows) None None None.

Lemma in_flight_tasks_stay_within_caps_witness :
  within (Fin 100) (Fin 40)
    (reservedInFlightUSD (admit_all sample_budgets "2026-03-02" [Fin 50; Fin 50; Fin 10]).1).
Proof.
  refine (proj1 (in_flight_tasks_stay_within_caps sample_budgets "2026-03-02" (Fin 40)
    _ 0 [Fin 50; Fin 50; Fin 10] _ _ _ _ _)); [vm_compute; reflexivity|repeat constructor|reflexivity|..];
    intros _; eexists _, _, _; split_and!; try reflexivity; unfold Qle; simpl; lia.
Defined.

(** Unlike the session check, the admission does not fail closed on a NaN estimate: with a cap
    in force it admits it, the in-flight total becomes NaN, and from then on every estimate is
    admitted. *)
Theorem nan_estimate_disables_admission b today t m e :
  computeRecordedSpend b today = Some (t, m) -> (e <=? zero)%num = false ->
  let b' := (reservePersistentBudget b today NaN).1 in
  (reservePersistentBudget b today NaN).2 = Granted NaN /\
  reservedInFlightUSD b' = NaN /\
  (reservePersistentBudget b' today e).2 = Granted e.
Proof.
  intros Hs He.
  assert (forall a c, enforced c && (c <? a + NaN)%num = false) as Hn.
  { intros a c. by destruct a, c. }
  assert (reservePersistentBudget b today NaN
    = (set_reserved b (reservedInFlightUSD b + NaN)%num, Granted NaN)) as ->.
  { unfold reservePersistentBudget. rewrite Hs. by rewrite !Hn. }
  cbn [fst snd]. assert ((reservedInFlightUSD b + NaN)%num = NaN) as ->.
  { by destruct (reservedInFlightUSD b). }
  split_and!; [done|done|]. unfold reservePersistentBudget.
  rewrite (spend_of_fields b) by done. rewrite Hs, He. cbn.
  assert (forall a, enforced (dailyCapUSD b) && (dailyCapUSD b <? a + NaN + e)%num = false) as ->.
  { intros a. destruct (a + NaN)%num eqn:Ea; by destruct a, e, (dailyCapUSD b). }
  assert (forall a, enforced (monthlyCapUSD b) && (monthlyCapUSD b <? a + NaN + e)%num = false) as ->.
  { intros a. by destruct a, e, (monthlyCapUSD b). }
  done.
Qed.

Lemma nan_estimate_disables_admission_witness :
  (reservePersistentBudget (reservePersistentBudget sample_budgets "2026-03-02" NaN).1
     "2026-03-02" (Fin 100000)).2 = Granted (Fin 100000).
Proof.
  refine (proj2 (proj2 (nan_estimate_disables_admission sample_budgets "2026-03-02" (Fin 40) _
    (Fin 100000) _ _))); [vm_compute; reflexivity|reflexivity].
Defined.
