(* ===== verification/Principal.v ===== *)
(** Who a request acts as and who shaped a plan, [core/request-principal.ts]: principals and their
    tags, ownership of rows, the marks a plan carries and the mandates its run depends on. *)
From S2P Require Import Prelude Num JsString.

(** @src src/src/core/request-principal.ts 23-39 RequestPrincipal *)
Inductive RequestPrincipal :=
| Owner
| Mandate (email : string) (mandateId : option string) (mandateExp : option Z)
| CpAdmin.

#[global] Instance RequestPrincipal_eq_dec : EqDecision RequestPrincipal.
Proof. solve_decision. Defined.

(** @src src/src/core/request-principal.ts 41-49 MANDATE_TAG_PREFIX *)
Definition MANDATE_TAG_PREFIX : string := "mandate:".
Definition CP_ADMIN_TAG : string := "cp-admin".
Definition OWNER_TAG : string := "owner".

(** @src src/src/core/request-principal.ts 56-58 isOwnerPrincipal *)
Definition isOwnerPrincipal (p : RequestPrincipal) : bool :=
  match p with Owner => true | _ => false end.

(** @src src/src/core/request-principal.ts 60-65 mandateIdOf *)
Definition mandateIdOf (p : RequestPrincipal) : option string :=
  match p with Mandate _ i _ => i | _ => None end.

(** @src src/src/core/request-principal.ts 67-75 principalTag *)
Definition principalTag (p : RequestPrincipal) : string :=
  match p with
  | Owner => OWNER_TAG
  | Mandate email _ _ => MANDATE_TAG_PREFIX ++ email
  | CpAdmin => CP_ADMIN_TAG
  end.

(** A tag column: [None] is a missing or null one. *)
(** @src src/src/core/request-principal.ts 88-92 isMandateTag *)
Definition isMandateTag (tag : option string) : bool :=
  match tag with Some t => startsWith t MANDATE_TAG_PREFIX | None => false end.

(** [!t.confirmed_at]: absent or the empty string. *)
Definition falsy (s : option string) : bool :=
  match s with None => true | Some t => bool_decide (t = ""%string) end.

(** @src src/src/core/request-principal.ts 77-86 mandateNeedsOwnerStamp *)
Definition mandateNeedsOwnerStamp (confirmed_at created_by edited_by : option string) : bool :=
  falsy confirmed_at && isMandateTag (match edited_by with Some e => Some e | None => created_by end).

(** The row's [created_by], or [None] for a row that does not exist. *)
(** @src src/src/core/request-principal.ts 94-110 ownedBy *)
Definition ownedBy (row : option (option string)) (p : RequestPrincipal) : bool :=
  match p with
  | Owner => true
  | Mandate _ _ _ => match row with
      | Some (Some tag) => bool_decide (tag = principalTag p)
      | _ => false end
  | CpAdmin => false
  end.

(** @src src/src/core/request-principal.ts 112-128 principalHasEnded *)
Definition principalHasEnded (p : RequestPrincipal) (isLive : string -> bool) : bool :=
  match p with
  | Owner => false
  | Mandate _ None _ => true
  | Mandate _ (Some i) _ => negb (isLive i)
  | CpAdmin => true
  end.

(** One mark: tag, grant and time. *)
Record mark := { m_tag : option string; m_id : option string; m_at : option string }.

#[global] Instance mark_eq_dec : EqDecision mark.
Proof. solve_decision. Defined.

(** @src src/src/core/request-principal.ts 130-195 PlanAuthorship *)
Record PlanAuthorship := {
  created : mark; mandate_edited : mark; covered_created : mark; covered_edited : mark }.

(** @src src/src/core/request-principal.ts 197-201 sameMark *)
Definition sameMark (m c : mark) : bool :=
  negb (bool_decide (m.(m_tag) = None)) && bool_decide (m.(m_tag) = c.(m_tag)) &&
  bool_decide (m.(m_id) = c.(m_id)) && bool_decide (m.(m_at) = c.(m_at)).

(** @src src/src/core/request-principal.ts 203-206 editorCovered *)
Definition editorCovered (a : PlanAuthorship) : bool := sameMark a.(mandate_edited) a.(covered_edited).
(** @src src/src/core/request-principal.ts 208-211 creatorCovered *)
Definition creatorCovered (a : PlanAuthorship) : bool := sameMark a.(created) a.(covered_created).

(** @src src/src/core/request-principal.ts 213-219 PlanMandate *)
Record PlanMandate := { principal : RequestPrincipal; at_ : num }.

Definition drop_prefix (tag : string) : string :=
  unchars (drop (length (chars MANDATE_TAG_PREFIX)) (chars tag)).

(** The empty grant id is falsy and left out. *)
(** @src src/src/core/request-principal.ts 221-223 mandateOfTag *)
Definition mandateOfTag (tag : string) (mandateId : option string) : RequestPrincipal :=
  Mandate (drop_prefix tag) (if falsy mandateId then None else mandateId) None.

(** [/^\d{4}-\d{2}-\d{2} \d{2}:\d{2}:\d{2}$/] as a list of expected characters. *)
Definition sqlite_time_shape : list (ascii -> bool) :=
  let d := is_digit in let lit n c := (code c =? n)%Z in
  [d; d; d; d; lit 45%Z; d; d; lit 45%Z; d; d; lit 32%Z; d; d; lit 58%Z; d; d; lit 58%Z; d; d].
Fixpoint has_shape (sh : list (ascii -> bool)) (l : list ascii) : bool :=
  match sh, l with
  | [], [] => true
  | f :: sh', c :: l' => f c && has_shape sh' l'
  | _, _ => false
  end.
(** [at.replace(' ', 'T')]: the first blank. *)
Fixpoint replace_blank (l : list ascii) : list ascii :=
  match l with
  | [] => []
  | c :: l' => if (code c =? 32)%Z then chr 84 :: l' else c :: replace_blank l'
  end.

Section PlanTime.
(** [Date.parse]: NaN on what it cannot read. *)
Variable Date_parse : string -> num.

(** @src src/src/core/request-principal.ts 225-230 planTime *)
Definition planTime (at' : option string) : num :=
  match at' with
  | None => NInf
  | Some s =>
      if bool_decide (s = ""%string) then NInf
      else
        let s' := if has_shape sqlite_time_shape (chars s)
          then (unchars (replace_blank (chars s)) ++ "Z")%string else s in
        match Date_parse s' with NaN => NInf | t => t end
  end.

(** @src src/src/core/request-principal.ts 232-243 planMandate *)
Definition planMandate (a : PlanAuthorship) : option PlanMandate :=
  match a.(mandate_edited).(m_tag), a.(created).(m_tag) with
  | e, c =>
    if isMandateTag e && negb (editorCovered a)
    then Some {| principal := mandateOfTag (default "" e)%string a.(mandate_edited).(m_id);
                 at_ := planTime a.(mandate_edited).(m_at) |}
    else if isMandateTag c && negb (creatorCovered a)
    then Some {| principal := mandateOfTag (default "" c)%string a.(created).(m_id);
                 at_ := planTime a.(created).(m_at) |}
    else None
  end.
End PlanTime.

(** The member the run acts for, and all the members it depends on. *)
(** @src src/src/core/request-principal.ts 245-257 planMembers *)
Definition planMembers (trigger workflow : option PlanMandate)
    : option RequestPrincipal * list RequestPrincipal :=
  let marks := omap id [trigger; workflow] in
  match marks with
  | [] => (None, [])
  | m :: ms =>
      let last := foldl (fun a b => if (b.(at_) >? a.(at_))%num then b else a) m ms in
      (Some last.(principal), principal <$> marks)
  end.

(** @src src/src/core/request-principal.ts 259-268 principalFromTag *)
Definition principalFromTag (tag : option string) : RequestPrincipal :=
  match tag with
  | None => Owner
  | Some t =>
      if bool_decide (t = CP_ADMIN_TAG) then CpAdmin
      else if isMandateTag tag then Mandate (drop_prefix t) None None else Owner
  end.

(** ** Tags *)

Lemma startsWith_app p s : startsWith (p ++ s)%string p = true.
Proof. unfold startsWith. rewrite chars_app. apply is_prefix_app. Qed.

Lemma drop_prefix_app s : drop_prefix (MANDATE_TAG_PREFIX ++ s)%string = s.
Proof. unfold drop_prefix. rewrite chars_app, drop_app_length. apply unchars_chars. Qed.

(** What a tag keeps of a principal. *)
Definition tag_view (p : RequestPrincipal) : RequestPrincipal :=
  match p with Mandate email _ _ => Mandate email None None | _ => p end.

(** A principal's tag reads back as that principal (a mandate without its grant): no mandate's
    address, however chosen, yields the owner's or the control plane's tag, and two principals
    share a tag only when they are the same party. *)
Theorem tag_roundtrip p q :
  principalFromTag (Some (principalTag p)) = tag_view p /\
  (principalTag p = principalTag q <-> tag_view p = tag_view q).
Proof.
  assert (forall p, principalFromTag (Some (principalTag p)) = tag_view p) as R.
  { intros [|e i x|]; [reflexivity| |reflexivity]. cbn [principalTag principalFromTag].
    rewrite bool_decide_eq_false_2 by done. unfold isMandateTag. rewrite startsWith_app.
    by rewrite drop_prefix_app. }
  split; [apply R|]. split.
  - intros H. by rewrite <-(R p), <-(R q), H.
  - destruct p, q; simpl; intros; simplify_eq; done.
Qed.

(** Ownership of a row by its [created_by]: the owner reaches every row, the control plane none,
    and a mandate exactly the rows that mandate created: a row without a tag, a missing row, the
    owner's rows and every other mandate's rows are refused. *)
Theorem ownership_is_exact row p :
  ownedBy row p = true <->
  p = Owner \/ exists email i x q, p = Mandate email i x /\ row = Some (Some (principalTag q)) /\
                 tag_view q = Mandate email None None.
Proof.
  destruct p as [|e i x|]; simpl; [naive_solver| |naive_solver].
  destruct row as [[t|]|]; try naive_solver. rewrite bool_decide_eq_true. split.
  - intros ->. right. exists e, i, x, (Mandate e i x). done.
  - intros [?|(e' & i' & x' & q & ? & ? & Hq)]; [done|]. simplify_eq.
    destruct q; simpl in *; by simplify_eq.
Qed.

(** ** The members of a plan *)

Section Members.
Variable Date_parse : string -> num.

Lemma sameMark_spec m c : sameMark m c = true <-> m = c /\ m_tag m <> None.
Proof.
  unfold sameMark. rewrite !andb_true_iff, negb_true_iff, !bool_decide_eq_true, bool_decide_eq_false.
  destruct m, c; simpl. naive_solver.
Qed.

(** A mark that makes a plan depend on a mandate. *)
Definition open_mark (m c : mark) : Prop := isMandateTag (m_tag m) = true /\ m <> c.

Lemma open_mark_iff m c : isMandateTag (m_tag m) && negb (sameMark m c) = true <-> open_mark m c.
Proof.
  rewrite andb_true_iff, negb_true_iff, <-not_true_iff_false, sameMark_spec. unfold open_mark.
  split; intros [H1 H2]; split; try done; intros ?; [apply H2|].
  - split; [done|]. by destruct (m_tag m).
  - by destruct H.
Qed.

(** A plan depends on a mandate exactly when one of its two marks names one and was not taken
    over whole (tag, grant and time); the editor's mark counts before the creator's. In particular
    a plan whose two marks were both taken over is the owner's, and a later change by a mandate,
    which writes another mark, makes it depend on that mandate again. *)
Theorem plan_mandate_spec a :
  (planMandate Date_parse a = None <->
     ~ open_mark (mandate_edited a) (covered_edited a) /\ ~ open_mark (created a) (covered_created a)) /\
  (open_mark (mandate_edited a) (covered_edited a) ->
     principal <$> planMandate Date_parse a
     = Some (mandateOfTag (default "" (m_tag (mandate_edited a)))%string (m_id (mandate_edited a)))) /\
  (~ open_mark (mandate_edited a) (covered_edited a) -> open_mark (created a) (covered_created a) ->
     principal <$> planMandate Date_parse a
     = Some (mandateOfTag (default "" (m_tag (created a)))%string (m_id (created a)))).
Proof.
  unfold Principal.planMandate, editorCovered, creatorCovered.
  rewrite <-!open_mark_iff.
  destruct (isMandateTag (m_tag (mandate_edited a)) && _), (isMandateTag (m_tag (created a)) && _);
    naive_solver.
Qed.
End Members.

Definition edited_by_mandate : PlanAuthorship :=
  {| created := {| m_tag := Some "owner"%string; m_id := None; m_at := None |};
     mandate_edited := {| m_tag := Some "mandate:a@b.c"%string; m_id := Some "g1"%string;
                          m_at := Some "2026-03-02 10:00:00"%string |};
     covered_created := {| m_tag := None; m_id := None; m_at := None |};
     covered_edited := {| m_tag := Some "mandate:a@b.c"%string; m_id := Some "g1"%string;
                          m_at := Some "2026-03-01 10:00:00"%string |} |}.

Lemma plan_mandate_spec_witness :
  principal <$> planMandate (fun _ => NaN) edited_by_mandate
  = Some (Mandate "a@b.c" (Some "g1"%string) None).
Proof.
  refine (proj1 (proj2 (plan_mandate_spec (fun _ => NaN) edited_by_mandate)) _).
  split; [reflexivity|discriminate].
Defined.

(** Every member is live. *)
Definition members_live (isLive : string -> bool) (ms : list RequestPrincipal) : bool :=
  forallb (fun p => negb (principalHasEnded p isLive)) ms.

(** The party a run acts for is one of the mandates it depends on; it is the one that changed the
    plan last, the schedule's on a tie or when neither records a time; and without any mandate the
    plan is the owner's. So when every member is live, the party it acts for is live. *)
Theorem plan_members_spec t w isLive :
  let '(of', ms) := planMembers t w in
  ms = omap (fmap principal) [t; w] /\
  of' = match t, w with
        | None, None => None
        | Some m, None | None, Some m => Some (principal m)
        | Some a, Some b => Some (principal (if (at_ b >? at_ a)%num then b else a))
        end /\
  (members_live isLive ms = true -> forall p, of' = Some p -> principalHasEnded p isLive = false).
Proof.
  unfold members_live. destruct t as [a|], w as [b|]; simpl; (split_and!; [done|done|]);
    rewrite ?andb_true_iff, ?negb_true_iff; try naive_solver.
  intros (Ha & Hb & _) p. destruct (at_ a <? at_ b)%num; intros; by simplify_eq.
Qed.
