(* ===== verification/BulkData.v ===== *)
(** Bulk changes, the data of [core/bulk-ledger.ts]: images of a target, planned changes, the
    comparison of two values, the diff shown to the owner, and the vocabularies of the ledger.

    Values are the JavaScript values of [JsValue]. What the HTML comparison of [core/bulk-html.ts] and
    [core/html-tree.ts] answers is an argument. *)
From S2P Require Import Prelude Num JsString JsValue.
From Stdlib Require Import Sorting.
Close Scope string_scope.

(** ** Vocabularies *)

(** @src src/src/core/bulk-ledger.ts 61-61 BulkPhase *)
Inductive BulkPhase := planned | previewed | approved | writing | finished | aborted | undone.
(** [finished] is the source's [done]. *)
#[export] Instance BulkPhase_eq_dec : EqDecision BulkPhase.
Proof. solve_decision. Defined.

(** @src src/src/core/bulk-ledger.ts 63-63 BulkChange *)
Inductive BulkChange := update | create | delete_ | unchanged | invalid.
#[export] Instance BulkChange_eq_dec : EqDecision BulkChange.
Proof. solve_decision. Defined.
Definition change_text (c : BulkChange) : string :=
  match c with update => "update" | create => "create" | delete_ => "delete" | unchanged => "unchanged" | invalid => "invalid" end%string.

(** @src src/src/core/bulk-ledger.ts 64-64 BulkRunKind *)
Inductive BulkRunKind := apply_ | undo_.
#[export] Instance BulkRunKind_eq_dec : EqDecision BulkRunKind.
Proof. solve_decision. Defined.
Definition kind_text (k : BulkRunKind) : string := match k with apply_ => "apply" | undo_ => "undo" end%string.

(** [UndoKind | 'mixed']. *)
Inductive UndoClass := restorable | compensatable | no_undo | mixed.
#[export] Instance UndoClass_eq_dec : EqDecision UndoClass.
Proof. solve_decision. Defined.

(** @src src/src/core/bulk-ledger.ts 364-411 BULK_HALT_REASONS *)
Inductive BulkHaltReason :=
| h_awaitingStart | h_failureRate | h_consecutiveFailures | h_timeBudget | h_expired | h_checksum
| h_maxTargets | h_probeRequired | h_atomicRolledBack | h_atomicRollbackIncomplete
| h_atomicStoppedRolledBack | h_atomicStoppedRollbackIncomplete | h_atomicTimeRolledBack
| h_atomicTimeRollbackIncomplete | h_unavailable | h_credential | h_unauthorized | h_blocked | h_contract
| h_stoppedByOwner | h_mandateEnded | h_unrecorded | h_runUnrecorded | h_listed | h_listNotAList
| h_listUnreadable | h_listTooLarge | h_listNoProgress | h_listFormWithdrawn | h_listFilterWithdrawn
| h_listOrder | h_listReadFailed | h_shopInactive | h_formCost | h_shopifyReadOff | h_shopifyWriteOff
| h_markupAddedByShop | h_superseded | h_costCap | h_spendLimit | h_creditRefused | h_judgeModel.
#[export] Instance BulkHaltReason_eq_dec : EqDecision BulkHaltReason.
Proof. solve_decision. Defined.

(** @src src/src/core/bulk-ledger.ts 418-418 BulkTargetError *)
Inductive BulkTargetError := e_conflict | e_write_failed | e_path_changed | e_redirect | e_secret | e_sent_unknown.
#[export] Instance BulkTargetError_eq_dec : EqDecision BulkTargetError.
Proof. solve_decision. Defined.
(** The text stored in a target's [error] cell. *)
Definition error_text (e : BulkTargetError) : string :=
  match e with
  | e_conflict => "conflict" | e_write_failed => "write_failed" | e_path_changed => "path_changed"
  | e_redirect => "redirect" | e_secret => "secret" | e_sent_unknown => "sent_unknown"
  end%string.
(** @src src/src/core/bulk-ledger.ts 426-426 NOT_FAILURES *)
Definition NOT_FAILURES : list BulkTargetError := [e_conflict; e_sent_unknown].

(** @src src/src/core/bulk-ledger.ts 472-472 BULK_TARGET_BUDGET_MS *)
Definition BULK_TARGET_BUDGET_MS : Z := 5000.
(** @src src/src/core/bulk-ledger.ts 473-475 BULK_CLAIM_STALE_MS *)
Definition BULK_CLAIM_STALE_MS : Z := 30000.
(** @src src/src/core/bulk-ledger.ts 476-477 BULK_APPROVAL_SLACK_MS *)
Definition BULK_APPROVAL_SLACK_MS : Z := 15 * 60000.
(** @src src/src/core/bulk-ledger.ts 478-478 BULK_APPROVAL_MAX_MS *)
Definition BULK_APPROVAL_MAX_MS : Z := 24 * 60 * 60000.
(** @src src/src/core/bulk-ledger.ts 486-486 BULK_MAX_PREVIEWED_RUNS *)
Definition BULK_MAX_PREVIEWED_RUNS : Z := 10.

(** The share of 0.05 on an integer: the binary64 product of an integer and 0.05 is never below an
    integer the exact product reaches. *)
(** @src src/src/core/bulk-ledger.ts 444-455 bulkFailureLimit *)
Definition bulkFailureLimit (writing : Z) : Z := writing / 20.

(** @src src/src/core/bulk-ledger.ts 457-464 bulkWriteCap *)
Definition bulkWriteCap (maxTargets : option Z) (probeHolds : bool) : option Z :=
  if probeHolds then maxTargets else Some (Z.min (default 1%Z maxTargets) 1).

(** @src src/src/core/bulk-ledger.ts 880-882 externalHostOf *)
Definition externalHostOf (targetSystem : string) : option string :=
  if startsWith targetSystem "http:" then Some (unchars (drop 5 (chars targetSystem))) else None.

(** ** Images *)

(** @src src/src/core/bulk-ledger.ts 67-67 BeforeImage *)
Inductive BeforeImage := Absent | Present (value : jval).
Definition absent (b : BeforeImage) : bool := match b with Absent => true | Present _ => false end.

(** @src src/src/core/bulk-ledger.ts 961-964 undoFor *)
Definition undoFor (before : BeforeImage) : UndoClass := if absent before then compensatable else restorable.

(** [!Array.isArray(v)] of an object. *)
(** @src src/src/core/bulk-ledger.ts 837-839 isPlainRecord *)
Definition isPlainRecord (v : jval) : bool := match v with JObj _ => true | JProto a => negb a | _ => false end.
(** [Object.keys(v)], the prototypes' members are not enumerable. *)
Definition own_keys (v : jval) : list string := match v with JObj fs => fs.*1 | _ => [] end.

(** The order of [sort()] on texts: by code unit. *)
Definition key_le (a b : string) : Prop := String.leb a b = true.
#[export] Instance key_le_dec : RelDecision key_le.
Proof. intros a b. unfold key_le. apply _. Defined.
Definition entry_le {A} (x y : string * A) : Prop := key_le x.1 y.1.
#[export] Instance entry_le_dec {A} : RelDecision (@entry_le A).
Proof. intros x y. apply key_le_dec. Defined.

(** [JSON.parse(JSON.stringify(v))]: what a stored value is read back as. *)
Fixpoint json_round (v : jval) : option jval :=
  match v with
  | JUndef | JFun _ => None
  | JNum n => Some (if isFinite n then JNum n else JNull)
  | JArr l => Some (JArr ((fun x => default JNull (json_round x)) <$> l))
  | JObj fs => Some (JObj (omap (fun kv => (fun x => (kv.1, x)) <$> json_round kv.2) fs))
  | JProto true => Some (JArr [])
  | JProto false => Some (JObj [])
  | _ => Some v
  end.
(** The same of [{ absent: false, value: v }]: a value without text is missing. *)
Definition image_round (b : BeforeImage) : BeforeImage :=
  match b with Absent => Absent | Present v => Present (default JUndef (json_round v)) end.

(** ** Comparing *)

Section Values.
Variable num_text : Q -> string.

Definition image_json (b : BeforeImage) : jval :=
  match b with
  | Absent => JObj [("absent"%string, JBool true)]
  | Present v => JObj [("absent"%string, JBool false); ("value"%string, v)]
  end.
Definition json_text (v : jval) : string := default "null"%string (stringify num_text v).

(** @src src/src/core/bulk-ledger.ts 966-972 canonicalJson *)
Fixpoint canonicalJson (v : jval) : string :=
  match v with
  | JArr l => ("[" ++ join_with "," (canonicalJson <$> l) ++ "]")%string
  | JObj fs =>
      let texts := (fun kv => (kv.1, canonicalJson kv.2)) <$> fs in
      let sorted := merge_sort entry_le texts in
      ("{" ++ join_with "," ((fun kt => quote_text kt.1 ++ ":" ++ kt.2)%string <$> sorted) ++ "}")%string
  | JProto true => "[]"%string
  | JProto false => "{}"%string
  | _ => json_text v
  end.

(** [endsClosed] and [droppedTagsOf(x).length === 0] of [core/bulk-html.ts], [htmlEqual] of
    [core/html-tree.ts]. *)
Variables endsClosed keepsTags : string -> bool.
Variable htmlEqual : string -> string -> bool.

Definition same_json (a b : jval) : bool := bool_decide (canonicalJson a = canonicalJson b).
Definition is_html_text (v : jval) : option string :=
  match v with JStr s => if endsClosed s && keepsTags s then Some s else None | _ => None end.

(** @src src/src/core/bulk-ledger.ts 974-997 sameValue *)
Definition sameValue (a b : jval) (htmlFields : list string) : bool :=
  if bool_decide (htmlFields = []) || negb (isPlainRecord a) || negb (isPlainRecord b) then same_json a b
  else forallb (fun k =>
    bool_decide (bool_decide (k ∈ own_keys a) = bool_decide (k ∈ own_keys b)) &&
    let x := js_prop a k in let y := js_prop b k in
    match is_html_text x, is_html_text y with
    | Some s, Some t => if bool_decide (k ∈ htmlFields) then htmlEqual s t else same_json x y
    | _, _ => same_json x y
    end) (js_set_of (own_keys a ++ own_keys b)).

(** @src src/src/core/bulk-ledger.ts 999-1003 classifyChange *)
Definition classifyChange (before : BeforeImage) (after : jval) (htmlFields : list string) : BulkChange :=
  match before with
  | Absent => create
  | Present v => if sameValue v after htmlFields then unchanged else update
  end.

(** @src src/src/core/bulk-apply.ts 136-139 sameImage *)
Definition sameImage (a b : BeforeImage) (htmlFields : list string) : bool :=
  match a, b with
  | Present x, Present y => sameValue x y htmlFields
  | Absent, Absent => true
  | _, _ => false
  end.

(** ** The diff the owner is shown *)

Record FieldDiff := { field : string; field_before : jval; field_after : jval }.
(** @src src/src/core/bulk-ledger.ts 588-594 TargetDiff *)
Inductive TargetDiff :=
| NoDiff
| TextDiff (from : nat) (removed added : list string)
| FieldsDiff (fields : list FieldDiff).

Definition lines (s : string) : list string := split "010"%char s.

(** [while (start < a.length && start < b.length && a[start] === b[start]) start++]. *)
Fixpoint common_prefix (a b : list string) : nat :=
  match a, b with
  | x :: a', y :: b' => if bool_decide (x = y) then S (common_prefix a' b') else O
  | _, _ => O
  end.

Definition diff_lines (a b : list string) : TargetDiff :=
  let start := common_prefix a b in
  let ra := drop start a in
  let rb := drop start b in
  let kept := common_prefix (reverse ra) (reverse rb) in
  TextDiff start (take (length ra - kept) ra) (take (length rb - kept) rb).

(** [prior] of a before-image. *)
Definition prior_of (before : BeforeImage) : jval := match before with Absent => JUndef | Present v => v end.
(** [typeof after === 'string' && (prior === undefined || typeof prior === 'string')]: the two texts. *)
Definition text_pair (prior after : jval) : option (option string * string) :=
  match after, prior with
  | JStr s, JUndef => Some (None, s)
  | JStr s, JStr p => Some (Some p, s)
  | _, _ => None
  end.
(** The fields of [after] that differ, by name. *)
Definition field_diffs (prior after : jval) : list FieldDiff :=
  (fun f => {| field := f; field_before := js_prop prior f; field_after := js_prop after f |}) <$>
    filter (fun f => canonicalJson (js_prop prior f) <> canonicalJson (js_prop after f)) (merge_sort key_le (own_keys after)).
Definition record_of (prior : jval) : jval := if isPlainRecord prior then prior else JObj [].
Definition lines_of (p : option string) : list string := match p with Some p => lines p | None => [] end.

(** @src src/src/core/bulk-ledger.ts 1005-1031 diffTarget *)
Definition diffTarget (before : BeforeImage) (after : jval) : TargetDiff :=
  let prior := prior_of before in
  match text_pair prior after with
  | Some (p, s) => if bool_decide (p = Some s) then NoDiff else diff_lines (lines_of p) (lines s)
  | None =>
      if isPlainRecord after then
        match field_diffs (record_of prior) after with [] => NoDiff | l => FieldsDiff l end
      else if same_json prior after then NoDiff
      else FieldsDiff [{| field := ""; field_before := prior; field_after := after |}]
  end.

(** ** What the diff says *)

Lemma common_prefix_take a b : take (common_prefix a b) a = take (common_prefix a b) b.
Proof.
  revert b. induction a as [|x a IH]; intros [|y b]; cbn; [done..|]. case_bool_decide; [|done]. subst. cbn. by rewrite IH.
Qed.

Lemma common_prefix_stops a b x y : drop (common_prefix a b) a !! 0 = Some x -> drop (common_prefix a b) b !! 0 = Some y -> x <> y.
Proof.
  revert b. induction a as [|u a IH]; intros [|v b]; cbn; try done. case_bool_decide; cbn; [by apply IH|congruence].
Qed.

Lemma common_prefix_le a b : (common_prefix a b <= length a /\ common_prefix a b <= length b)%nat.
Proof. revert b. induction a as [|x a IH]; intros [|y b]; cbn; try lia. case_bool_decide; [destruct (IH b)|]; lia. Qed.

(** The lines a diff turns [a] into. *)
Definition patch (a : list string) (from : nat) (removed added : list string) : list string :=
  take from a ++ added ++ drop (from + length removed) a.

Lemma diff_lines_spec a b :
  match diff_lines a b with
  | TextDiff from removed added =>
      take (length removed) (drop from a) = removed /\ patch a from removed added = b /\
      (forall x y, removed !! 0 = Some x -> added !! 0 = Some y -> x <> y) /\
      (forall x y, last removed = Some x -> last added = Some y -> x <> y)
  | _ => False
  end.
Proof.
  unfold diff_lines. set (n := common_prefix a b). set (ra := drop n a). set (rb := drop n b).
  set (k := common_prefix (reverse ra) (reverse rb)).
  pose proof (common_prefix_le (reverse ra) (reverse rb)) as Hk. fold k in Hk. rewrite !length_reverse in Hk.
  assert (drop (length ra - k) ra = drop (length rb - k) rb) as Htail.
  { pose proof (common_prefix_take (reverse ra) (reverse rb)) as H. fold k in H.
    rewrite !take_reverse in H. by apply (inj reverse) in H. }
  assert (length (take (length ra - k) ra) = length ra - k)%nat as Hlen by (rewrite length_take; lia).
  split_and!.
  - rewrite Hlen. done.
  - unfold patch. rewrite Hlen. rewrite <-drop_drop. fold ra. rewrite Htail, take_drop.
    unfold n. rewrite common_prefix_take. fold n. apply take_drop.
  - intros x y Hx Hy. apply (common_prefix_stops a b).
    + fold n ra. destruct (length ra - k)%nat; [done|]. destruct ra; [done|]. exact Hx.
    + fold n rb. destruct (length rb - k)%nat; [done|]. destruct rb; [done|]. exact Hy.
  - intros x y Hx Hy. apply (common_prefix_stops (reverse ra) (reverse rb)); fold k.
    + rewrite drop_reverse. rewrite <-head_lookup, head_reverse. done.
    + rewrite drop_reverse. rewrite <-head_lookup, head_reverse. done.
Qed.

(** A text is its lines. *)
Lemma join_lines s : join_with (String "010" EmptyString) (lines s) = s.
Proof.
  unfold lines, split. rewrite <-(unchars_chars s) at 2. generalize (chars s) as l. clear s.
  induction l as [|c l IH]; [done|]. cbn [split_chars]. pose proof (split_chars_ne "010" l) as Hne. case_decide as Hc.
  - subst c. destruct (split_chars "010" l) as [|w ws]; [done|]. change (unchars ("010"%char :: l)) with (String "010" (unchars l)).
    rewrite <-IH. done.
  - destruct (split_chars "010" l) as [|w ws]; [done|]. change (unchars (c :: l)) with (String c (unchars l)).
    rewrite <-IH. by destruct ws.
Qed.

Lemma field_diffs_spec prior after d :
  d ∈ field_diffs prior after <-> exists f, f ∈ own_keys after /\
    d = {| field := f; field_before := js_prop prior f; field_after := js_prop after f |} /\
    canonicalJson (js_prop prior f) <> canonicalJson (js_prop after f).
Proof.
  unfold field_diffs. rewrite list_elem_of_fmap. split.
  - intros (f & -> & [H1 H2]%list_elem_of_filter). rewrite (merge_sort_Permutation key_le) in H2. eauto.
  - intros (f & H1 & -> & H2). exists f. split; [done|]. apply list_elem_of_filter. split; [done|]. by rewrite (merge_sort_Permutation key_le).
Qed.

(** The diff the owner approves is the change. A text is shown as one stretch of lines: putting the
    added lines in place of the removed ones, which are the lines there, gives exactly the planned text,
    and neither the first nor the last lines of the two stretches agree, so nothing unchanged is shown at
    either end. A record is shown by field: exactly its fields whose value differs, as canonical JSON, from
    what is there, each with both values. And no difference is shown only where there is none. *)
Theorem shown_diff_is_the_change before after :
  match text_pair (prior_of before) after, diffTarget before after with
  | Some (p, s), NoDiff => p = Some s
  | Some (p, s), TextDiff from removed added =>
      p <> Some s /\ take (length removed) (drop from (lines_of p)) = removed /\
      join_with (String "010" EmptyString) (patch (lines_of p) from removed added) = s /\
      (forall x y, removed !! 0 = Some x -> added !! 0 = Some y -> x <> y) /\
      (forall x y, last removed = Some x -> last added = Some y -> x <> y)
  | None, NoDiff =>
      if isPlainRecord after then forall f, f ∈ own_keys after ->
        canonicalJson (js_prop (record_of (prior_of before)) f) = canonicalJson (js_prop after f)
      else canonicalJson (prior_of before) = canonicalJson after
  | None, FieldsDiff l =>
      if isPlainRecord after then forall d, d ∈ l <-> exists f, f ∈ own_keys after /\
        d = {| field := f; field_before := js_prop (record_of (prior_of before)) f; field_after := js_prop after f |} /\
        canonicalJson (js_prop (record_of (prior_of before)) f) <> canonicalJson (js_prop after f)
      else l = [{| field := ""; field_before := prior_of before; field_after := after |}] /\
           canonicalJson (prior_of before) <> canonicalJson after
  | _, _ => False
  end.
Proof.
  unfold diffTarget. destruct (text_pair (prior_of before) after) as [[p s]|].
  - case_bool_decide as Hp; [done|]. pose proof (diff_lines_spec (lines_of p) (lines s)) as H.
    destruct (diff_lines _ _); try done. destruct H as (H1 & H2 & H3 & H4). rewrite H2, join_lines. done.
  - destruct (isPlainRecord after).
    + pose proof (field_diffs_spec (record_of (prior_of before)) after) as H.
      destruct (field_diffs _ _) as [|d0 l0] eqn:E; [|rewrite <-E in *; exact H].
      intros f Hf. destruct (decide (canonicalJson (js_prop (record_of (prior_of before)) f) = canonicalJson (js_prop after f))) as [|n]; [done|].
      pose proof (proj2 (H _) (ex_intro _ f (conj Hf (conj eq_refl n)))) as Hin. by apply elem_of_nil in Hin.
    + unfold same_json. by case_bool_decide.
Qed.
End Values.

Example diff_1 : diffTarget (fun _ => ""%string) (Present (JStr "a b")) (JStr "a b") = NoDiff. Proof. reflexivity. Qed.
