(* ===== verification/BulkLedger.v ===== *)
(** Bulk changes, the ledger of [core/bulk-ledger.ts]: a planned change over many targets, its reading
    and judging, the owner's selection and approval, and the records of the writing.

    The two tables are one map of runs, each with its targets in [seq] order (a target's [seq] is its
    position); a transaction is one function. A cell that holds JSON is the value it is parsed to, and
    encryption of a cell is left out. Times are milliseconds, [created_at] counts the seconds SQLite
    stores. Calls of the trigger table are recorded in the order they are made; whether a trigger still
    fires is an argument. *)
From S2P Require Import Prelude Num JsString JsValue Principal BulkData.
Open Scope Z_scope.

(** ** Rows *)

(** [AttachedConnection]: a connection's id and grant. *)
Abbreviation Connection := (string * option string)%type.

(** What a target is to become; nothing of it changes once the run is approved. *)
Record Plan := {
  target_key : string; change : BulkChange; undo_class : option UndoClass; before : option BeforeImage;
  after_planned : option jval; deselected_at : option Z; source_seq : option nat }.
Record Judging := {
  context : option jval; judged_at : option Z; judge_claimed_at : option Z; judge_claim_token : option string;
  context_secret_field : option Z; link_domain : option string }.
(** What the writing recorded. *)
Record Life := {
  claimed_at : option Z; applied_at : option Z; result_ : option string; after_actual : option (jval * bool);
  write_sent : bool; unknown_sends : Z; found_unsent : bool; undone_at : option Z; failed_once : option bool;
  shop_added_markup : bool; host_rewrote : bool }.
Record Target := {
  plan : Plan; judging : Judging; life : Life; error : option string;
  read_connection : option Connection; write_connection : option Connection }.

Inductive ListState := pending | listed.
#[export] Instance ListState_eq_dec : EqDecision ListState.
Proof. solve_decision. Defined.

(** What a run is from its recording on. *)
Record Head := {
  created_at : Z; rowid : Z; created_by : option string; kind : BulkRunKind; target_system : string;
  target_collection : option string; atomic : bool; planner_tag : option string; planner_mandate : option string;
  judge_rule : option jval; judge_rule_hash : option string; list_source : option jval; unsent_tracked : bool }.
(** What the reading and judging write. *)
Record Preparation := {
  rule_hash : string; contract_json : option string; run_undo : UndoClass; list_state : option ListState;
  list_page : Z; list_calls : Z; list_bytes : Z; list_last_id : Z; cost_usd : num; cost_cap_usd : option num;
  judge_started_at : option Z; start_domains : option (list string) }.
Record Approval := {
  approved_by : option string; approved_at : option Z; approval_checksum : option string;
  max_targets : option Z; expires_at : option Z }.
(** @src src/src/core/bulk-ledger.ts 649-660 RunRow *)
Record RunRow := {
  head : Head; source_run_id : option string; prep : Preparation; phase : BulkPhase;
  halt_reason : option BulkHaltReason; approval : Approval; targets_total : Z; targets_applied : Z;
  targets_failed : Z; first_connection : option Connection; targets : list Target }.

Record Probe := { p_host : string; p_method : string; p_kind : string; p_run : string; p_by : option string; p_at : Z }.
Inductive TriggerEffect := bulk_apply | bulk_undo | bulk_preview | bulk_judge.
Inductive TriggerCall := Arm (id : string) (effect : TriggerEffect) (nextRunAt : Z) | Remove (id : string).
Record Ledger := { runs : gmap string RunRow; probes : list Probe; trigger_calls : list TriggerCall }.

Definition no_life : Life :=
  {| claimed_at := None; applied_at := None; result_ := None; after_actual := None; write_sent := false; unknown_sends := 0;
     found_unsent := false; undone_at := None; failed_once := Some false; shop_added_markup := false; host_rewrote := false |}.
Definition no_judging : Judging :=
  {| context := None; judged_at := None; judge_claimed_at := None; judge_claim_token := None; context_secret_field := None;
     link_domain := None |}.
Definition no_approval : Approval :=
  {| approved_by := None; approved_at := None; approval_checksum := None; max_targets := None; expires_at := None |}.
Definition new_target (p : Plan) (e : option string) : Target :=
  {| plan := p; judging := no_judging; life := no_life; error := e; read_connection := None; write_connection := None |}.

(** ** Updates of one column group *)

Definition set_plan (f : Plan -> Plan) (t : Target) : Target :=
  {| plan := f (plan t); judging := judging t; life := life t; error := error t;
     read_connection := read_connection t; write_connection := write_connection t |}.
Definition set_judging (f : Judging -> Judging) (t : Target) : Target :=
  {| plan := plan t; judging := f (judging t); life := life t; error := error t;
     read_connection := read_connection t; write_connection := write_connection t |}.
Definition set_life (f : Life -> Life) (t : Target) : Target :=
  {| plan := plan t; judging := judging t; life := f (life t); error := error t;
     read_connection := read_connection t; write_connection := write_connection t |}.
Definition set_error (e : option string) (t : Target) : Target :=
  {| plan := plan t; judging := judging t; life := life t; error := e;
     read_connection := read_connection t; write_connection := write_connection t |}.

Definition set_targets (f : list Target -> list Target) (r : RunRow) : RunRow :=
  {| head := head r; source_run_id := source_run_id r; prep := prep r; phase := phase r; halt_reason := halt_reason r;
     approval := approval r; targets_total := targets_total r; targets_applied := targets_applied r;
     targets_failed := targets_failed r; first_connection := first_connection r; targets := f (targets r) |}.
Definition set_phase (p : BulkPhase) (h : option BulkHaltReason) (r : RunRow) : RunRow :=
  {| head := head r; source_run_id := source_run_id r; prep := prep r; phase := p; halt_reason := h;
     approval := approval r; targets_total := targets_total r; targets_applied := targets_applied r;
     targets_failed := targets_failed r; first_connection := first_connection r; targets := targets r |}.
Definition set_prep (f : Preparation -> Preparation) (r : RunRow) : RunRow :=
  {| head := head r; source_run_id := source_run_id r; prep := f (prep r); phase := phase r; halt_reason := halt_reason r;
     approval := approval r; targets_total := targets_total r; targets_applied := targets_applied r;
     targets_failed := targets_failed r; first_connection := first_connection r; targets := targets r |}.
Definition set_approval (a : Approval) (r : RunRow) : RunRow :=
  {| head := head r; source_run_id := source_run_id r; prep := prep r; phase := phase r; halt_reason := halt_reason r;
     approval := a; targets_total := targets_total r; targets_applied := targets_applied r;
     targets_failed := targets_failed r; first_connection := first_connection r; targets := targets r |}.
Definition set_counts (total applied failed : Z) (r : RunRow) : RunRow :=
  {| head := head r; source_run_id := source_run_id r; prep := prep r; phase := phase r; halt_reason := halt_reason r;
     approval := approval r; targets_total := total; targets_applied := applied; targets_failed := failed;
     first_connection := first_connection r; targets := targets r |}.
Definition set_source (s : option string) (r : RunRow) : RunRow :=
  {| head := head r; source_run_id := s; prep := prep r; phase := phase r; halt_reason := halt_reason r;
     approval := approval r; targets_total := targets_total r; targets_applied := targets_applied r;
     targets_failed := targets_failed r; first_connection := first_connection r; targets := targets r |}.
Definition set_first_connection (c : option Connection) (r : RunRow) : RunRow :=
  {| head := head r; source_run_id := source_run_id r; prep := prep r; phase := phase r; halt_reason := halt_reason r;
     approval := approval r; targets_total := targets_total r; targets_applied := targets_applied r;
     targets_failed := targets_failed r; first_connection := c; targets := targets r |}.

Definition set_runs (f : gmap string RunRow -> gmap string RunRow) (L : Ledger) : Ledger :=
  {| runs := f (runs L); probes := probes L; trigger_calls := trigger_calls L |}.
Definition call_trigger (c : TriggerCall) (L : Ledger) : Ledger :=
  {| runs := runs L; probes := probes L; trigger_calls := trigger_calls L ++ [c] |}.
(** [UPDATE bulk_runs SET … WHERE id = ?]. *)
Definition update_run (i : string) (f : RunRow -> RunRow) (L : Ledger) : Ledger := set_runs (alter f i) L.
(** [UPDATE bulk_targets SET … WHERE run_id = ? AND seq = ?]. *)
Definition update_target (i : string) (s : nat) (f : Target -> Target) (L : Ledger) : Ledger :=
  update_run i (set_targets (alter f s)) L.
Definition target_of (L : Ledger) (i : string) (s : nat) : option Target := runs L !! i ≫= fun r => targets r !! s.
(** The same with a guard on the target, and whether a row changed. *)
Definition update_target_if (i : string) (s : nat) (guard : Target -> bool) (f : Target -> Target) (L : Ledger) : Ledger * bool :=
  match target_of L i s with
  | Some t => if guard t then (update_target i s f L, true) else (L, false)
  | None => (L, false)
  end.
(** [DELETE FROM bulk_runs WHERE id = ?]: the targets go with it, a run that names it as its source names none. *)
Definition orphan (i : string) (r : RunRow) : RunRow := if bool_decide (source_run_id r = Some i) then set_source None r else r.
Definition delete_run (i : string) (L : Ledger) : Ledger := set_runs (fun m => orphan i <$> delete i m) L.

Definition count_targets (P : Target -> bool) (r : RunRow) : Z := Z.of_nat (length (filter (fun t => P t = true) (targets r))).
Definition is_valid (t : Target) : bool := bool_decide (change (plan t) <> invalid).
Definition is_null {A} (o : option A) : bool := match o with None => true | _ => false end.

(** ** Reading the tables *)

(** @src src/src/core/bulk-ledger.ts 930-934 WRITING_SQL *)
Definition writing_target (t : Target) : bool :=
  bool_decide (change (plan t) ∈ [update; create; delete_]) && is_null (deselected_at (plan t)).
(** @src src/src/core/bulk-ledger.ts 944-958 undoEligible *)
Definition undoEligible (external : bool) (t : Target) : bool :=
  is_null (undone_at (life t)) && writing_target t &&
  ((negb (is_null (applied_at (life t))) && negb (found_unsent (life t))) || external && write_sent (life t)).
(** @src src/src/core/bulk-ledger.ts 488-496 PRUNABLE_RUNS *)
Definition prunable (r : RunRow) : bool :=
  bool_decide (kind (head r) = apply_) &&
  (bool_decide (phase r ∈ [previewed; planned]) && negb (negb (is_null (judge_rule (head r))) && negb (is_null (cost_cap_usd (prep r))))
   || bool_decide (phase r = aborted) && bool_decide (halt_reason r = Some h_superseded)).
(** @src src/src/core/bulk-ledger.ts 519-521 UNAPPROVED_JUDGED *)
Definition unapproved_judged (r : RunRow) : bool :=
  bool_decide (phase r ∈ [planned; previewed]) ||
  bool_decide (phase r = aborted) && bool_decide (halt_reason r ∈ [Some h_superseded; Some h_mandateEnded]).
(** @src src/src/core/bulk-ledger.ts 874-877 isStopped *)
Definition isStopped (r : RunRow) : bool :=
  bool_decide (phase r = finished) || bool_decide (phase r = aborted) ||
  bool_decide (phase r = writing) && negb (is_null (halt_reason r)).
(** Approved or writing, and not halted. *)
Definition is_open (r : RunRow) : bool := bool_decide (phase r ∈ [approved; writing]) && is_null (halt_reason r).
(** [phase = 'planned' AND halt_reason IS NULL]. *)
Definition is_preparing (r : RunRow) : bool := bool_decide (phase r = planned) && is_null (halt_reason r).
Definition is_external (r : RunRow) : bool := negb (is_null (externalHostOf (target_system (head r)))).
(** The same and [target_system LIKE 'http:%'], whose letters match in either case. *)
Definition is_reading (r : RunRow) : bool := is_preparing r && startsWith (toLowerCase (target_system (head r))) "http:".

(** @src src/src/core/bulk-ledger.ts 710-712 planner *)
Definition planner (p : RequestPrincipal) : string * option string := (principalTag p, mandateIdOf p).
(** @src src/src/core/bulk-ledger.ts 719-724 delegatedPlannerOf *)
Definition delegatedPlannerOf (h : Head) : option RequestPrincipal :=
  if negb (isMandateTag (planner_tag h)) then None
  else match principalFromTag (planner_tag h) with
  | Mandate e i x => Some (match planner_mandate h with None => Mandate e i x | Some j => Mandate e (Some j) x end)
  | _ => None
  end.

(** @src src/src/core/bulk-ledger.ts 691-699 BulkOwnership *)
Record BulkOwnership := { own_isLive : string -> bool; threadCreator : string -> option string; threadsKnown : bool }.
(** [BULK_OWNER_THREADS_SINCE], as the second it names. *)
(** @src src/src/core/bulk-ledger.ts 701-707 BULK_OWNER_THREADS_SINCE *)
Definition BULK_OWNER_THREADS_SINCE : Z := 1791797599.

(** @src src/src/core/bulk-ledger.ts 735-747 plannerHasEnded *)
Definition plannerHasEnded (h : Head) (own : BulkOwnership) : bool :=
  match planner_tag h with
  | Some tag =>
      if bool_decide (tag = principalTag Owner) then false
      else if negb (isMandateTag (Some tag)) then true
      else match planner_mandate h with None => true | Some i => negb (own_isLive own i) end
  | None =>
      match created_by h with
      | None => true
      | Some thread =>
          if created_at h <=? BULK_OWNER_THREADS_SINCE then true
          else negb (bool_decide (threadCreator own thread = Some (principalTag Owner)))
      end
  end.
(** @src src/src/core/bulk-ledger.ts 757-765 plannerUnshown *)
Definition plannerUnshown (h : Head) (own : BulkOwnership) : bool :=
  if bool_decide (planner_tag h = Some (principalTag Owner)) then false
  else match planner_tag h with
  | Some _ => is_null (delegatedPlannerOf h)
  | None => if negb (threadsKnown own) then true else plannerHasEnded h own
  end.

(** ** What the ledger asks of its siblings *)

(** Code outside this file: the text of a number, [engineDb.keyedHash], [JSON.parse], [new URL(_).pathname];
    [core/bulk-html.ts], [core/html-tree.ts], [core/shopify-graphql.ts], [core/shopify-saved-form.ts],
    [core/bulk-shopify.ts], [core/bulk-write-forms.ts], [core/bulk-mail-targets.ts],
    [core/bulk-judge-rule.ts]. *)
Record Siblings := {
  num_text : Q -> string;
  keyedHash : list string -> string;
  JSON_parse : string -> option jval;
  url_pathname : string -> option string;
  endsClosed : string -> bool;
  keepsTags : string -> bool;
  htmlEqual : string -> string -> bool;
  canonicalHtml : string -> string;
  htmlFieldsOfListForm : option string -> list string;
  isShopifyStoreHostName : string -> bool;
  shopifySavedForm : jval -> option string -> jval;
  shopifyPairedAfter : jval -> jval -> jval;
  shopifyBulkReadEnabled : bool;
  isMeasuredWriteForm : string -> string -> string -> bool;
  isMailProviderTarget : string -> bool;
  judgeAfterBound : jval -> Z;
  judgeRuleRefusal : RunRow -> option string;
  normalizeStartDomains : list jval -> option (list string) }.

Section Ledger.
Variable E : Siblings.

Definition text_of (v : jval) : string := json_text (num_text E) v.
Definition canonical (v : jval) : string := canonicalJson (num_text E) v.
Definition same_value (a b : jval) (html : list string) : bool := sameValue (num_text E) (endsClosed E) (keepsTags E) (htmlEqual E) a b html.
Definition classify (b : BeforeImage) (after : jval) (html : list string) : BulkChange :=
  classifyChange (num_text E) (endsClosed E) (keepsTags E) (htmlEqual E) b after html.
(** [JSON.stringify(t.after ?? null)] read back. *)
Definition stored (v : jval) : jval := match v with JUndef => JNull | _ => default JNull (json_round v) end.

(** [contract_json] parsed; a text that is none is [None]. *)
Definition contract_prop (c : option string) (k : string) : option (list jval) :=
  match c ≫= JSON_parse E with
  | Some v => match v with JNull | JUndef => None | _ => match js_prop v k with JArr l => Some l | _ => None end end
  | None => None
  end.
(** @src src/src/core/bulk-ledger.ts 782-792 parseContractMethods *)
Definition parseContractMethods (c : option string) : option string :=
  match contract_prop c "httpMethods" with
  | Some l => match filter (fun m => match m with JStr s => negb (bool_decide (s = "GET"%string)) | _ => true end = true) l with
              | [JStr m] => Some m
              | _ => None end
  | None => None
  end.
(** @src src/src/core/bulk-ledger.ts 852-860 parseContractPaths *)
Definition parseContractPaths (c : option string) : list string :=
  match contract_prop c "pathPatterns" with
  | Some l => omap (fun p => match p with JStr s => Some s | _ => None end) l
  | None => []
  end.
(** @src src/src/core/bulk-ledger.ts 889-893 contractWritesMail *)
Definition contractWritesMail (system : string) (c : option string) : bool :=
  match externalHostOf system with
  | None => false
  | Some host => existsb (fun path => isMailProviderTarget E ("https://" ++ host ++ path)%string) (parseContractPaths c)
  end.

(** [path.replace(/\/+$/, '')] up to its last slash. *)
(** @src src/src/core/bulk-ledger.ts 798-801 resourceKindOf *)
Definition resourceKindOf (path : string) : string :=
  let slash c := bool_decide (c = "/"%char) in
  let trimmed := drop_while slash (reverse (chars path)) in
  unchars (reverse (drop_while (fun c => negb (slash c)) trimmed)).

(** The form of the list the family was planned from, at most 64 runs up. *)
(** @src src/src/core/bulk-ledger.ts 2060-2069 listFormOfFamily *)
Fixpoint list_form_up (fuel : nat) (L : Ledger) (r : RunRow) : option string :=
  match fuel with
  | O => None
  | S fuel =>
      match list_source (head r) with
      | Some src => match js_prop src "form" with JStr f => Some f | _ => None end
      | None => match source_run_id r ≫= fun i => runs L !! i with Some up => list_form_up fuel L up | None => None end
      end
  end.
Definition listFormOfFamily (L : Ledger) (r : RunRow) : option string := list_form_up 64 L r.

Definition SHOPIFY_MEDIA_LIST_FORM : string := "shopify_media".
Definition SHOPIFY_PRODUCT : string := "shopify_product".
(** @src src/src/core/bulk-ledger.ts 1991-1999 shopifyFormOfFamily *)
Definition shopifyFormOfFamily (L : Ledger) (r : RunRow) : string :=
  if bool_decide (listFormOfFamily L r = Some SHOPIFY_MEDIA_LIST_FORM) then "shopify_media_alt" else SHOPIFY_PRODUCT.
(** @src src/src/core/bulk-ledger.ts 1978-1990 shopifyFormOfRun *)
Definition shopifyFormOfRun (L : Ledger) (r : RunRow) : option string :=
  match externalHostOf (target_system (head r)) with
  | Some host =>
      if isShopifyStoreHostName E host && is_null (parseContractMethods (contract_json (prep r)))
      then Some (shopifyFormOfFamily L r) else None
  | None => None
  end.
Definition is_shopify_product (L : Ledger) (r : RunRow) : bool := bool_decide (shopifyFormOfRun L r = Some SHOPIFY_PRODUCT).
Definition html_fields (L : Ledger) (r : RunRow) : list string :=
  js_set_of (htmlFieldsOfListForm E (listFormOfFamily L r) ++
             if is_shopify_product L r then htmlFieldsOfListForm E (Some "shopify"%string) else []).
(** @src src/src/core/bulk-ledger.ts 2001-2014 htmlFieldsOf *)
Definition htmlFieldsOf (L : Ledger) (i : string) : list string :=
  match runs L !! i with Some r => html_fields L r | None => [] end.
(** @src src/src/core/bulk-ledger.ts 2040-2048 comparedAsHtml *)
Definition comparedAsHtml (L : Ledger) (i : string) : list string :=
  match runs L !! i with Some r => if is_shopify_product L r then html_fields L r else [] | None => [] end.
(** @src src/src/core/bulk-ledger.ts 2050-2058 comparedInSavedForm *)
Definition comparedInSavedForm (L : Ledger) (i : string) : bool :=
  match runs L !! i with Some r => is_shopify_product L r | None => false end.
(** @src src/src/core/bulk-ledger.ts 2071-2076 isShopifyRunSwitchedOff *)
Definition isShopifyRunSwitchedOff (L : Ledger) (r : RunRow) : bool :=
  bool_decide (kind (head r) = apply_) && negb (is_null (shopifyFormOfRun L r)) && negb (shopifyBulkReadEnabled E).
(** @src src/src/core/bulk-ledger.ts 2078-2082 isWriteSwitchedOff *)
Definition isWriteSwitchedOff (L : Ledger) (i : string) : bool :=
  match runs L !! i with Some r => isShopifyRunSwitchedOff L r | None => false end.

Definition obj_set (v : jval) (k : string) (x : jval) : jval :=
  match v with JObj fs => JObj (jm_set fs k x) | _ => v end.
Definition js_same_text (x : jval) (y : jval) : bool :=
  match x, y with JStr s, JStr t => bool_decide (s = t) | _, _ => false end.
(** The after-state with its changed HTML fields in the serialisation that is read back unchanged. *)
(** @src src/src/core/bulk-ledger.ts 2016-2038 canonicalAfterOf *)
Definition canonicalAfterOf (L : Ledger) (i : string) (after before : jval) : jval :=
  if negb (isPlainRecord after) then after
  else
    let held := if isPlainRecord before then before else JObj [] in
    foldl (fun out f =>
      match js_prop after f with
      | JStr s =>
          if js_same_text (js_prop after f) (js_prop held f) then out
          else let c := canonicalHtml E s in if bool_decide (canonicalHtml E c = c) then obj_set out f (JStr c) else out
      | _ => out
      end) after (htmlFieldsOf L i).

(** ** Planning *)

Inductive Planned := PlannedChange (key : string) (before : BeforeImage) (after : jval) | PlannedInvalid (key : string) (reason : string).
(** An external target, whose before-image is read later. *)
Inductive ExternalPlanned := ExternalChange (key : string) (after : jval) | ExternalInvalid (key : string) (reason : string).
Definition planned_key (p : Planned) : string := match p with PlannedChange k _ _ | PlannedInvalid k _ => k end.
Definition external_key (p : ExternalPlanned) : string := match p with ExternalChange k _ | ExternalInvalid k _ => k end.

(** A key with its after-state, [None] for an invalid target. *)
(** @src src/src/core/bulk-ledger.ts 1033-1046 rulePairs *)
Definition rulePairs (system scope : string) (targets : list (string * option jval)) : list string :=
  system :: scope :: mjoin ((fun t => [t.1; match t.2 with Some a => canonical a | None => ""%string end]) <$> merge_sort entry_le targets).

(** What [canonicalJson(v)] is parsed to: the keys sorted, [null] for what has no text. *)
Fixpoint parsed_canonical (v : jval) : jval :=
  match v with
  | JUndef | JFun _ => JNull
  | JNum n => if isFinite n then JNum n else JNull
  | JArr l => JArr (parsed_canonical <$> l)
  | JObj fs => JObj (merge_sort entry_le ((fun kv => (kv.1, parsed_canonical kv.2)) <$> fs))
  | JProto true => JArr []
  | JProto false => JObj []
  | _ => v
  end.
Definition judge_hash (judge : option jval) : option string :=
  (fun j => keyedHash E ["bulk-judge-rule-v1"%string; canonical j]) <$> judge.
(** [1 + MAX(rowid)]. *)
Definition next_rowid (L : Ledger) : Z := 1 + map_fold (fun _ r n => Z.max (rowid (head r)) n) 0 (runs L).

Inductive PlanError := DuplicateTarget | JudgeNeedsRows | PreviewCap (waiting : Z) | ExternalInProgress.
(** A recording: the ledger after it, and why it recorded nothing. *)
Abbreviation Recorded := (Ledger * option PlanError)%type.

Definition count_runs (P : RunRow -> bool) (L : Ledger) : Z := Z.of_nat (size (filter (fun p => P p.2 = true) (runs L))).
Definition planned_by (p : RequestPrincipal) (r : RunRow) : bool :=
  bool_decide (planner_tag (head r) = Some (planner p).1) && bool_decide (planner_mandate (head r) = (planner p).2).

(** @src src/src/core/bulk-ledger.ts 1151-1165 capRoomFor *)
Definition capRoomFor (L : Ledger) (p : RequestPrincipal) : result PlanError Z :=
  if isOwnerPrincipal p then Ok 0
  else
    let over := count_runs prunable L + 1 - BULK_MAX_PREVIEWED_RUNS in
    if over <=? 0 then Ok 0
    else if over <=? count_runs (fun r => prunable r && planned_by p r) L then Ok over
    else Err (PreviewCap (count_runs (fun r => bool_decide (kind (head r) = apply_) && bool_decide (phase r = previewed)) L)).

(** [ORDER BY created_at, rowid]. *)
Definition older (a b : string * RunRow) : Prop :=
  created_at (head a.2) < created_at (head b.2) \/
  created_at (head a.2) = created_at (head b.2) /\ rowid (head a.2) <= rowid (head b.2).
#[export] Instance older_dec : RelDecision older.
Proof. intros a b. unfold older. apply _. Defined.
(** The runs a condition selects, oldest first. *)
Definition select_runs (P : string -> RunRow -> bool) (L : Ledger) : list string :=
  (merge_sort older (filter (fun p => P p.1 p.2 = true) (map_to_list (runs L)))).*1.

Definition bulkPreviewTriggerId (i : string) : string := "bulk-preview-" ++ i.
Definition drop_run (L : Ledger) (i : string) : Ledger := delete_run i (call_trigger (Remove (bulkPreviewTriggerId i)) L).

(** The runs a planning drops. *)
Definition doomed (L : Ledger) (p : RequestPrincipal) (own : Z) (newRun : option string) : list string :=
  if isOwnerPrincipal p then
    let all := select_runs (fun _ r => prunable r) L in take (length all - Z.to_nat BULK_MAX_PREVIEWED_RUNS) all
  else if own <=? 0 then []
  else take (Z.to_nat own) (select_runs (fun i r => prunable r && planned_by p r && negb (bool_decide (Some i = newRun))) L).
(** @src src/src/core/bulk-ledger.ts 1175-1195 pruneUnapproved *)
Definition pruneUnapproved (L : Ledger) (p : RequestPrincipal) (own : Z) (newRun : option string) : Ledger :=
  foldl drop_run L (doomed L p own newRun).

Definition insert_run (i : string) (r : RunRow) (L : Ledger) : Ledger := set_runs (insert i r) L.

Definition undo_of_classes (l : list UndoClass) : UndoClass :=
  match remove_dups l with [] => no_undo | [u] => u | _ => mixed end.

(** What a plan's recording is given: the new id, the second, who plans it. *)
Record Origin := { new_id : string; now_s : Z; by_thread : option string; by_principal : RequestPrincipal }.
Definition new_head (L : Ledger) (o : Origin) (k : BulkRunKind) (system : string) (collection : option string) (at_once : bool)
    (judge : option jval) (source : option jval) : Head :=
  {| created_at := now_s o; rowid := next_rowid L; created_by := by_thread o; kind := k; target_system := system;
     target_collection := collection; atomic := at_once; planner_tag := Some (planner (by_principal o)).1;
     planner_mandate := (planner (by_principal o)).2; judge_rule := parsed_canonical <$> judge; judge_rule_hash := judge_hash judge;
     list_source := source; unsent_tracked := true |}.
Definition new_prep (hash : string) (contract : option string) (u : UndoClass) (ls : option ListState) : Preparation :=
  {| rule_hash := hash; contract_json := contract; run_undo := u; list_state := ls; list_page := 0; list_calls := 0;
     list_bytes := 0; list_last_id := 0; cost_usd := num_of_Z 0; cost_cap_usd := None; judge_started_at := None; start_domains := None |}.
Definition new_run (h : Head) (src : option string) (p : Preparation) (ph : BulkPhase) (halt : option BulkHaltReason) (ts : list Target) : RunRow :=
  {| head := h; source_run_id := src; prep := p; phase := ph; halt_reason := halt; approval := no_approval;
     targets_total := Z.of_nat (length ts); targets_applied := 0; targets_failed := 0; first_connection := None; targets := ts |}.

Definition invalid_target (k reason : string) : Target :=
  new_target {| target_key := k; change := invalid; undo_class := None; before := None; after_planned := None;
                deselected_at := None; source_seq := None |} (Some reason).
Definition dry_target (judged : bool) (p : Planned) : Target :=
  match p with
  | PlannedInvalid k reason => invalid_target k reason
  | PlannedChange k b a =>
      new_target {| target_key := k; change := if judged then update else classify b a []; undo_class := Some (undoFor b);
                    before := Some (image_round b); after_planned := Some (stored a); deselected_at := None; source_seq := None |} None
  end.
Definition planned_undo (p : Planned) : option UndoClass := match p with PlannedChange _ b _ => Some (undoFor b) | _ => None end.
Definition planned_pair (p : Planned) : string * option jval :=
  match p with PlannedChange k _ a => (k, Some a) | PlannedInvalid k _ => (k, None) end.

(** @src src/src/core/bulk-ledger.ts 1057-1134 recordDryRun *)
Definition recordDryRun (L : Ledger) (o : Origin) (system scope : string) (ts : list Planned) (collection : option string)
    (at_once : bool) (judge : option jval) : Recorded :=
  if negb (is_null judge) && negb (bool_decide (system = "data_store"%string)) then (L, Some JudgeNeedsRows)
  else if negb (bool_decide (NoDup (planned_key <$> ts))) then (L, Some DuplicateTarget)
  else match capRoomFor L (by_principal o) with
  | Err e => (L, Some e)
  | Ok own =>
    let judged := negb (is_null judge) in
    let r := new_run (new_head L o apply_ system collection at_once judge None) None
               (new_prep (keyedHash E (rulePairs system scope (planned_pair <$> ts))) None (undo_of_classes (omap planned_undo ts)) None)
               (if judged then planned else previewed) (if judged then Some h_awaitingStart else None)
               (dry_target judged <$> ts) in
    (pruneUnapproved (insert_run (new_id o) r L) (by_principal o) own (Some (new_id o)), None)
  end.

(** The runs planned and not halted on an external host whose trigger no longer fires. *)
(** @src src/src/core/bulk-ledger.ts 1565-1576 deadReads *)
Definition deadReads (live : string -> bool) (only : option string) (L : Ledger) : list string :=
  select_runs (fun i r => is_reading r && match only with Some j => bool_decide (i = j) | None => true end &&
                          negb (live (bulkPreviewTriggerId i))) L.
(** @src src/src/core/bulk-ledger.ts 1560-1563 haltDeadReads *)
Definition haltDeadReads (live : string -> bool) (only : option string) (L : Ledger) : Ledger :=
  foldl (fun L i => update_run i (fun r => set_phase (phase r) (Some h_unavailable) r) L) L (deadReads live only L).

Definition external_target (p : ExternalPlanned) : Target :=
  match p with
  | ExternalInvalid k reason => invalid_target k reason
  | ExternalChange k a =>
      new_target {| target_key := k; change := update; undo_class := Some restorable; before := None;
                    after_planned := Some (stored a); deselected_at := None; source_seq := None |} None
  end.
Definition external_pair (p : ExternalPlanned) : string * option jval :=
  match p with ExternalChange k a => (k, Some a) | ExternalInvalid k _ => (k, None) end.

(** @src src/src/core/bulk-ledger.ts 1207-1272 recordExternalPlan *)
Definition recordExternalPlan (live : string -> bool) (L : Ledger) (o : Origin) (host : string) (ts : list ExternalPlanned)
    (contract : jval) (judge : option jval) : Recorded :=
  if negb (bool_decide (NoDup (external_key <$> ts))) then (L, Some DuplicateTarget)
  else
    let system := ("http:" ++ host)%string in
    let valid := existsb (fun t => match t with ExternalChange _ _ => true | _ => false end) ts in
    let L' := haltDeadReads live None L in
    if 0 <? count_runs is_reading L' then (L', Some ExternalInProgress)
    else match capRoomFor L' (by_principal o) with
    | Err e => (L, Some e)
    | Ok own =>
      let r := new_run (new_head L' o apply_ system None false judge None) None
                 (new_prep (keyedHash E (rulePairs system host (external_pair <$> ts))) (Some (text_of contract))
                   (if valid then restorable else no_undo) None)
                 (if valid then planned else previewed) (if valid then Some h_awaitingStart else None) (external_target <$> ts) in
      (pruneUnapproved (insert_run (new_id o) r L') (by_principal o) own (Some (new_id o)), None)
    end.

(** @src src/src/core/bulk-ledger.ts 1282-1325 recordExternalListPlan *)
Definition recordExternalListPlan (live : string -> bool) (L : Ledger) (o : Origin) (host : string) (source contract : jval)
    (judge : option jval) : Recorded :=
  let system := ("http:" ++ host)%string in
  let L' := haltDeadReads live None L in
  if 0 <? count_runs is_reading L' then (L', Some ExternalInProgress)
  else match capRoomFor L' (by_principal o) with
  | Err e => (L, Some e)
  | Ok own =>
    let r := new_run (new_head L' o apply_ system None false judge (Some (parsed_canonical source))) None
               (new_prep (keyedHash E ["bulk-list-rule-v1"%string; system; canonical source]) (Some (text_of contract)) restorable (Some pending))
               planned (Some h_awaitingStart) [] in
    (pruneUnapproved (insert_run (new_id o) r L') (by_principal o) own (Some (new_id o)), None)
  end.

(** ** Reading a list *)

(** @src src/src/core/bulk-ledger.ts 1332-1341 listStartChecksum *)
Definition listStartChecksum (L : Ledger) (i : string) : option string :=
  match runs L !! i with
  | Some r =>
      match list_state (prep r), list_source (head r) with
      | Some pending, Some src =>
          Some (keyedHash E (["bulk-list-start-v1"%string; target_system (head r); canonical src; default ""%string (contract_json (prep r))]
                             ++ match judge_rule_hash (head r) with Some h => ["judge"%string; h] | None => [] end))
      | _, _ => None
      end
  | None => None
  end.

Definition set_list (page calls bytes last : Z) (p : Preparation) : Preparation :=
  {| rule_hash := rule_hash p; contract_json := contract_json p; run_undo := run_undo p; list_state := list_state p;
     list_page := page; list_calls := calls; list_bytes := bytes; list_last_id := last; cost_usd := cost_usd p;
     cost_cap_usd := cost_cap_usd p; judge_started_at := judge_started_at p; start_domains := start_domains p |}.
Definition set_cost (cost : num) (cap : option num) (started : option Z) (domains : option (list string)) (p : Preparation) : Preparation :=
  {| rule_hash := rule_hash p; contract_json := contract_json p; run_undo := run_undo p; list_state := list_state p;
     list_page := list_page p; list_calls := list_calls p; list_bytes := list_bytes p; list_last_id := list_last_id p;
     cost_usd := cost; cost_cap_usd := cap; judge_started_at := started; start_domains := domains |}.
Definition set_rule (hash : string) (contract : option string) (u : UndoClass) (ls : option ListState) (p : Preparation) : Preparation :=
  {| rule_hash := hash; contract_json := contract; run_undo := u; list_state := ls;
     list_page := list_page p; list_calls := list_calls p; list_bytes := list_bytes p; list_last_id := list_last_id p;
     cost_usd := cost_usd p; cost_cap_usd := cost_cap_usd p; judge_started_at := judge_started_at p; start_domains := start_domains p |}.

Definition is_listing (r : RunRow) : bool := is_preparing r && bool_decide (list_state (prep r) = Some pending).
(** @src src/src/core/bulk-ledger.ts 1360-1365 takeListCall *)
Definition takeListCall (L : Ledger) (i : string) (max : Z) : Ledger * bool :=
  match runs L !! i with
  | Some r =>
      if is_listing r && (list_calls (prep r) <? max) then
        (update_run i (set_prep (fun p => set_list (list_page p) (list_calls p + 1) (list_bytes p) (list_last_id p) p)) L, true)
      else (L, false)
  | None => (L, false)
  end.
(** @src src/src/core/bulk-ledger.ts 1369-1371 returnListCall *)
Definition returnListCall (L : Ledger) (i : string) : Ledger :=
  update_run i (set_prep (fun p => set_list (list_page p) (list_calls p - 1) (list_bytes p) (list_last_id p) p)) L.

(** @src src/src/core/bulk-ledger.ts 684-684 ListPageItem *)
Inductive ListPageItem := PageKey (key : string) | PageInvalid (reason : string).
Definition BULK_MAX_TARGETS : Z := 5000.
Definition BULK_MAX_TOTAL_BYTES : Z := 32 * 1024 * 1024.
(** [Buffer.byteLength(s, 'utf8')]: a code unit from 128 to 255 takes two bytes. *)
Definition byte_length (s : string) : Z := foldl (fun n c => n + if code c <? 128 then 1 else 2) 0 (chars s).

(** The targets a page adds, [known] the keys the run holds: a key already there is none. *)
Fixpoint page_fresh (page : Z) (index : nat) (known : list string) (items : list ListPageItem) : list (string * option string) :=
  match items with
  | [] => []
  | PageInvalid reason :: items =>
      (("#" ++ int_text page ++ "." ++ int_text (Z.of_nat index))%string, Some reason) :: page_fresh page (S index) known items
  | PageKey k :: items =>
      if bool_decide (k ∈ known) then page_fresh page (S index) known items
      else (k, None) :: page_fresh page (S index) (known ++ [k]) items
  end.
Inductive PageAnswer := PageOk (added total : Z) | PageMoved | PageTooLarge.
(** @src src/src/core/bulk-ledger.ts 1383-1428 recordListPage *)
Definition recordListPage (L : Ledger) (i : string) (page : Z) (items : list ListPageItem) (bytes : Z) (lastId : option Z) : Ledger * PageAnswer :=
  match runs L !! i with
  | Some r =>
      match list_source (head r), is_listing r && (list_page (prep r) =? page - 1) with
      | Some src, true =>
          let after := js_prop src "after" in
          let known := js_set_of (target_key ∘ plan <$> filter (fun t => is_valid t = true) (targets r)) in
          let fresh := page_fresh page 0 known items in
          let total := targets_total r + Z.of_nat (length fresh) in
          let valid := Z.of_nat (length known + length (filter (fun t => t.2 = None) fresh)) in
          let perTarget := match judge_rule (head r) with
            | Some j => judgeAfterBound E (js_prop j "schema") | None => byte_length (text_of after) end in
          if (BULK_MAX_TARGETS <? total) || (BULK_MAX_TOTAL_BYTES <? valid * perTarget) then (L, PageTooLarge)
          else
            let row t := match t.2 with Some reason => invalid_target t.1 reason | None => external_target (ExternalChange t.1 after) end in
            (update_run i (fun r => set_counts total (targets_applied r) (targets_failed r)
               (set_prep (fun p => set_list page (list_calls p) (list_bytes p + bytes) (default (list_last_id p) lastId) p)
               (set_targets (fun ts => ts ++ (row <$> fresh)) r))) L,
             PageOk (Z.of_nat (length (filter (fun t => t.2 = None) fresh))) total)
      | _, _ => (L, PageMoved)
      end
  | None => (L, PageMoved)
  end.

Definition planned_after (t : Target) : string * option jval :=
  (target_key (plan t), if is_valid t then after_planned (plan t) else None).
Inductive ListAnswer := ListListed | ListEmpty | ListMoved.
(** [mint]: the contract for the keys the list held. *)
(** @src src/src/core/bulk-ledger.ts 1437-1464 finishList *)
Definition finishList (L : Ledger) (i : string) (mint : list string -> jval) : Ledger * ListAnswer :=
  match runs L !! i with
  | Some r =>
      match externalHostOf (target_system (head r)), is_listing r with
      | Some host, true =>
          let pairs := planned_after <$> targets r in
          let keys := omap (fun p => match p.2 with Some _ => Some p.1 | None => None end) pairs in
          let empty := bool_decide (keys = []) in
          (update_run i (fun r => set_phase (if empty then previewed else planned) (if empty then None else Some h_listed)
             (set_prep (set_rule (keyedHash E (rulePairs (target_system (head r)) host pairs)) (Some (text_of (mint keys)))
               (if empty then no_undo else restorable) (Some listed)) r)) L,
           if empty then ListEmpty else ListListed)
      | _, _ => (L, ListMoved)
      end
  | None => (L, ListMoved)
  end.

(** ** The planner's end *)

Definition is_unapproved (r : RunRow) : bool := bool_decide (phase r ∈ [planned; previewed]).
(** @src src/src/core/bulk-ledger.ts 1514-1525 endRun *)
Definition endRun (L : Ledger) (i : string) : Ledger * bool :=
  match runs L !! i with
  | Some r =>
      if is_unapproved r
      then (call_trigger (Remove (bulkPreviewTriggerId i)) (update_run i (set_phase aborted (Some h_mandateEnded)) L), true)
      else (L, false)
  | None => (L, false)
  end.
(** @src src/src/core/bulk-ledger.ts 1483-1493 expireEndedPlanners *)
Definition expireEndedPlanners (L : Ledger) (own : BulkOwnership) : Ledger :=
  foldl (fun L p =>
    let r := p.2 in
    if is_unapproved r && negb (is_null (planner_tag (head r)) && negb (threadsKnown own)) && plannerHasEnded (head r) own
    then (endRun L p.1).1 else L) L (map_to_list (runs L)).
(** @src src/src/core/bulk-ledger.ts 1500-1505 endIfPlannerEnded *)
Definition endIfPlannerEnded (L : Ledger) (i : string) (own : BulkOwnership) : Ledger * bool :=
  match runs L !! i with
  | Some r =>
      if negb (plannerHasEnded (head r) own) then (L, false)
      else if is_null (planner_tag (head r)) && negb (threadsKnown own) then (L, is_unapproved r)
      else endRun L i
  | None => (L, false)
  end.
(** @src src/src/core/bulk-ledger.ts 1509-1512 resumeRefusedForPlanner *)
Definition resumeRefusedForPlanner (L : Ledger) (i : string) (own : BulkOwnership) : bool :=
  match runs L !! i with
  | Some r => bool_decide (phase r ∈ [approved; writing]) && plannerUnshown (head r) own
  | None => false
  end.

(** ** Reading the targets *)

(** @src src/src/core/bulk-ledger.ts 2774-2792 noteConnection *)
Definition noteConnection (i : string) (s : nat) (write : bool) (via : option Connection) (L : Ledger) : Ledger :=
  match via with
  | None => L
  | Some v =>
      let note (c : option Connection) (unrecorded : bool) : option Connection :=
        match c with
        | None => Some (v.1, if unrecorded then None else v.2)
        | Some c => Some (c.1, if bool_decide (c.1 = v.1) && bool_decide (c.2 = v.2) then c.2 else None)
        end in
      let f t := {| plan := plan t; judging := judging t; life := life t; error := error t;
                    read_connection := if write then read_connection t else note (read_connection t) false;
                    write_connection := if write then note (write_connection t) (write_sent (life t)) else write_connection t |} in
      update_run i (fun r => if is_null (first_connection r) then set_first_connection (Some v) r else r) (update_target i s f L)
  end.

(** @src src/src/core/bulk-ledger.ts 2608-2614 listUnread *)
Definition listUnread (L : Ledger) (i : string) : list nat :=
  match runs L !! i with
  | None => []
  | Some r =>
      let unread := filter (fun p => is_valid p.2 && is_null (before (plan p.2)) = true) (imap pair (targets r)) in
      (filter (fun p => error p.2 = None) unread ++ filter (fun p => error p.2 <> None) unread).*1
  end.

Definition set_change (c : BulkChange) (u : option UndoClass) (p : Plan) : Plan :=
  {| target_key := target_key p; change := c; undo_class := u; before := before p; after_planned := after_planned p;
     deselected_at := deselected_at p; source_seq := source_seq p |}.
Definition set_images (c : BulkChange) (b : option BeforeImage) (a : jval) (p : Plan) : Plan :=
  {| target_key := target_key p; change := c; undo_class := undo_class p; before := b; after_planned := Some a;
     deselected_at := deselected_at p; source_seq := source_seq p |}.
Definition linkDomainCell (reason : string) (domain : option string) : option string :=
  match domain with Some d => if bool_decide (reason = "new_link_domain"%string) && negb (bool_decide (d = ""%string)) then Some d else None | None => None end.
Definition set_verdict (field : option Z) (domain : option string) (at_ : option Z) (j : Judging) : Judging :=
  {| context := context j; judged_at := at_; judge_claimed_at := None; judge_claim_token := None;
     context_secret_field := field; link_domain := domain |}.
Definition set_link_domain (d : option string) (j : Judging) : Judging :=
  {| context := context j; judged_at := judged_at j; judge_claimed_at := judge_claimed_at j; judge_claim_token := judge_claim_token j;
     context_secret_field := context_secret_field j; link_domain := d |}.
Definition set_context (c : option jval) (j : Judging) : Judging :=
  {| context := c; judged_at := judged_at j; judge_claimed_at := judge_claimed_at j; judge_claim_token := judge_claim_token j;
     context_secret_field := context_secret_field j; link_domain := link_domain j |}.

(** Valid, not read, in a run that is being prepared. *)
Definition unread_in (L : Ledger) (i : string) (t : Target) : bool :=
  is_valid t && is_null (before (plan t)) && match runs L !! i with Some r => is_preparing r | None => false end.

Inductive Read := ReadBefore (value : jval) | ReadInvalid (reason : string) (domain : option string).
(** What a read may carry besides: the completed after-state, the shop's title, the judge's context. *)
Record ReadExtra := { completedAfter : option jval; titleNow : option (option string); read_context : option jval }.
(** @src src/src/core/bulk-ledger.ts 2719-2764 recordRead *)
Definition recordRead (L : Ledger) (i : string) (s : nat) (read : Read) (via : option Connection) (x : ReadExtra) : Ledger * bool :=
  match read with
  | ReadInvalid reason domain =>
      update_target_if i s (unread_in L i) (fun t => set_error (Some reason) (set_judging (set_link_domain (linkDomainCell reason domain))
        (set_plan (set_change invalid None) t))) L
  | ReadBefore value =>
      match target_of L i s with
      | None => (L, false)
      | Some t =>
          match after_planned (plan t) with
          | None => (L, false)
          | Some held =>
              let b := Present value in
              let after := canonicalAfterOf L i (default held (completedAfter x)) value in
              let html := comparedAsHtml L i in
              let saved := match titleNow x with
                | Some title => comparedInSavedForm L i && same_value value (shopifySavedForm E after title) html
                | None => false end in
              let judged := match runs L !! i with Some r => negb (is_null (judge_rule (head r))) | None => false end in
              let c := if judged then update else if saved then unchanged else classify b after html in
              let '(L', ok) := update_target_if i s (unread_in L i) (fun t => set_error None
                (set_judging (set_context (stored <$> read_context x)) (set_plan (set_images c (Some (image_round b)) (stored after)) t))) L in
              if ok then (noteConnection i s false via L', true) else (L', false)
          end
      end
  end.

Inductive ReadFailure := Retry | NowInvalid.
(** @src src/src/core/bulk-ledger.ts 2800-2815 recordReadFailure *)
Definition recordReadFailure (L : Ledger) (i : string) (s : nat) : Ledger * option ReadFailure :=
  match target_of L i s with
  | None => (L, None)
  | Some t =>
      if negb (unread_in L i t) then (L, None)
      else if is_null (error t) then (update_target i s (set_error (Some "read_failed"%string)) L, Some Retry)
      else (update_target i s (fun t => set_error (Some "read_failed"%string) (set_plan (set_change invalid None) t)) L, Some NowInvalid)
  end.
(** @src src/src/core/bulk-ledger.ts 2818-2822 haltPreview *)
Definition haltPreview (L : Ledger) (i : string) (reason : BulkHaltReason) : Ledger :=
  update_run i (fun r => if is_preparing r then set_phase (phase r) (Some reason) r else r) L.
(** @src src/src/core/bulk-ledger.ts 2829-2845 finishPreview *)
Definition finishPreview (L : Ledger) (i : string) : Ledger * bool :=
  match runs L !! i with
  | Some r =>
      if (count_targets (fun t => is_valid t && is_null (before (plan t))) r =? 0) && is_preparing r &&
         bool_decide (list_state (prep r) ∈ [None; Some listed]) && is_null (judge_rule (head r)) then
        let u := if 0 <? count_targets is_valid r then restorable else no_undo in
        (update_run i (fun r => set_phase previewed None
           (set_prep (fun p => set_rule (rule_hash p) (contract_json p) u (list_state p) p) r)) L, true)
      else (L, false)
  | None => (L, false)
  end.

(** ** The checksum of an approval *)

Definition target_parts (s : nat) (t : Target) : list string :=
  [int_text (Z.of_nat s); target_key (plan t); change_text (change (plan t));
   match before (plan t) with Some b => text_of (image_json b) | None => ""%string end;
   match after_planned (plan t) with Some a => text_of a | None => ""%string end]
  ++ match deselected_at (plan t) with Some _ => ["deselected"%string] | None => [] end.
Definition domains_text (l : list string) : string := text_of (JArr (JStr <$> l)).
Definition head_parts (r : RunRow) : list string :=
  ["bulk-approval-v1"%string; kind_text (kind (head r)); target_system (head r); default ""%string (target_collection (head r));
   (if atomic (head r) then "1" else "0")%string; default ""%string (source_run_id r); rule_hash (prep r)]
  ++ match contract_json (prep r) with Some c => ["contract"%string; c] | None => [] end
  ++ match list_source (head r) with Some src => ["list"%string; canonical src] | None => [] end
  ++ match judge_rule_hash (head r) with Some h => ["judge"%string; h] | None => [] end
  ++ match start_domains (prep r) with Some l => ["start_domains"%string; domains_text l] | None => [] end.
Definition checksum_parts (r : RunRow) : list string := head_parts r ++ mjoin (imap target_parts (targets r)).
(** @src src/src/core/bulk-ledger.ts 1780-1829 computeChecksum *)
Definition computeChecksum (L : Ledger) (i : string) : option string := (fun r => keyedHash E (checksum_parts r)) <$> runs L !! i.

(** ** Probes *)

(** The targets applied by a send, oldest first; [applied_at] decides, then [seq]. *)
Definition sent_applied (t : Target) : bool := negb (is_null (applied_at (life t))) && negb (found_unsent (life t)).
Definition applied_before (a b : Target) : Prop := default 0 (applied_at (life a)) <= default 0 (applied_at (life b)).
#[export] Instance applied_before_dec : RelDecision applied_before.
Proof. intros a b. unfold applied_before. apply _. Defined.

Definition UNMEASURED_PROBE : string := "unmeasured:".
Definition SHOPIFY_PROBE_METHOD : string := "POST".
(** @src src/src/core/bulk-ledger.ts 814-816 unmeasuredProbeKind *)
Definition unmeasuredProbeKind (i k : string) : string := UNMEASURED_PROBE ++ i ++ ":" ++ k.
Definition probe_at (host method : string) (p : Probe) : bool := bool_decide (p_host p = host) && bool_decide (p_method p = method).
(** [own]: the run's own probe, else any run's. *)
(** @src src/src/core/bulk-ledger.ts 1909-1919 unmeasuredProbeOf *)
Definition unmeasuredProbeOf (L : Ledger) (host method k i : string) (own : bool) : bool :=
  let legacy := (UNMEASURED_PROBE ++ k)%string in
  existsb (fun p => probe_at host method p &&
    if own then bool_decide (p_kind p ∈ [unmeasuredProbeKind i k; legacy]) && bool_decide (p_run p = i)
    else bool_decide (p_kind p = legacy) || bool_decide (p_kind p = unmeasuredProbeKind (p_run p) k)) (probes L).
(** @src src/src/core/bulk-ledger.ts 1929-1941 probeWroteMeasuredForm *)
Definition probeWroteMeasuredForm (L : Ledger) (i host method k : string) : bool :=
  match runs L !! i with
  | None => false
  | Some r =>
      match merge_sort applied_before (filter (fun t => sent_applied t = true) (targets r)) with
      | [] => false
      | t :: _ =>
          match url_pathname E (target_key (plan t)) with
          | None => false
          | Some path => bool_decide (resourceKindOf path = k) && isMeasuredWriteForm E host path method
          end
      end
  end.

(** @src src/src/core/bulk-ledger.ts 333-336 BulkProbeCause *)
Inductive BulkProbeCause := cause_none | cause_wrong_form | cause_filed_measured | cause_other_run | cause_own_missing.
(** Why one kind of resource is not covered, if it is not. *)
Definition missing_probe (L : Ledger) (i host method : string) (paths : list string) (k : string) : option BulkProbeCause :=
  if existsb (fun p => bool_decide (resourceKindOf p = k) && negb (isMeasuredWriteForm E host p method)) paths then
    if unmeasuredProbeOf L host method k i true then None
    else Some (if unmeasuredProbeOf L host method k i false then cause_other_run
      else if existsb (fun p => probe_at host method p && bool_decide (p_kind p = k) && bool_decide (p_run p = i)) (probes L)
              && probeWroteMeasuredForm L i host method k then cause_filed_measured
      else cause_own_missing)
  else match filter (fun p => probe_at host method p && bool_decide (p_kind p = k) = true) (probes L) with
  | p :: _ => if probeWroteMeasuredForm L (p_run p) host method k then None else Some cause_wrong_form
  | [] => Some cause_none
  end.
(** Whether the probe holds, and what is missing. *)
(** @src src/src/core/bulk-ledger.ts 1856-1901 probeCoverage *)
Definition probeCoverage (L : Ledger) (i : string) (r : RunRow) : bool * list (string * BulkProbeCause) :=
  match externalHostOf (target_system (head r)) with
  | None => (true, [])
  | Some host =>
      match shopifyFormOfRun L r with
      | Some form =>
          if bool_decide (kind (head r) = undo_) then (true, [])
          else if unmeasuredProbeOf L host SHOPIFY_PROBE_METHOD form i true then (true, [])
          else (false, [(form, if unmeasuredProbeOf L host SHOPIFY_PROBE_METHOD form i false then cause_other_run else cause_own_missing)])
      | None =>
          let paths := parseContractPaths (contract_json (prep r)) in
          let kinds := js_set_of (resourceKindOf <$> paths) in
          match parseContractMethods (contract_json (prep r)) with
          | None => (false, [])
          | Some method =>
              if bool_decide (kinds = []) then (false, [])
              else if bool_decide (kind (head r) = undo_) then (true, [])
              else let missing := omap (fun k => (fun c => (k, c)) <$> missing_probe L i host method paths k) kinds in
                   (bool_decide (missing = []), missing)
          end
      end
  end.
(** @src src/src/core/bulk-ledger.ts 1847-1849 probeHolds *)
Definition probeHolds (L : Ledger) (i : string) (r : RunRow) : bool := (probeCoverage L i r).1.
(** @src src/src/core/bulk-ledger.ts 1945-1948 probeHoldsFor *)
Definition probeHoldsFor (L : Ledger) (i : string) : bool := match runs L !! i with Some r => probeHolds L i r | None => false end.
(** [unmeasured], [measured], or nothing to say. *)
(** @src src/src/core/bulk-ledger.ts 2087-2093 writeFormOfRun *)
Definition is_unmeasured (L : Ledger) (r : RunRow) : option bool :=
  match externalHostOf (target_system (head r)) with
  | None => None
  | Some host =>
      if bool_decide (list_state (prep r) = Some pending) then None
      else if negb (is_null (shopifyFormOfRun L r)) then Some true
      else match parseContractMethods (contract_json (prep r)), parseContractPaths (contract_json (prep r)) with
      | Some method, (_ :: _) as paths => Some (negb (forallb (fun p => isMeasuredWriteForm E host p method) paths))
      | _, _ => Some true
      end
  end.

Record Candidate := { c_host : string; c_method : string; c_key : string; c_form : option string; c_found : bool }.
Inductive ProbeCandidate := NoRun | NoProbe | ProbeOf (c : Candidate).
(** @src src/src/core/bulk-ledger.ts 2133-2155 probeCandidate *)
Definition probeCandidate (L : Ledger) (i : string) : ProbeCandidate :=
  match runs L !! i with
  | None => NoRun
  | Some r =>
      let form := shopifyFormOfRun L r in
      match externalHostOf (target_system (head r)),
            (match form with Some _ => Some SHOPIFY_PROBE_METHOD | None => parseContractMethods (contract_json (prep r)) end) with
      | Some host, Some method =>
          if negb (bool_decide (kind (head r) = apply_)) then NoProbe
          else if negb (bool_decide (phase r = finished) || bool_decide (phase r = writing) && negb (is_null (halt_reason r))) then NoProbe
          else match filter (fun t => sent_applied t = true) (targets r) with
          | [t] =>
              match result_ (life t) with
              | Some res =>
                  if bool_decide (res = "written"%string) || bool_decide (res = "already"%string) && (0 <? unknown_sends (life t))
                  then ProbeOf {| c_host := host; c_method := method; c_key := target_key (plan t); c_form := form;
                                  c_found := bool_decide (res = "already"%string) |}
                  else NoProbe
              | None => NoProbe
              end
          | _ => NoProbe
          end
      | _, _ => NoProbe
      end
  end.
(** [None]: the key is no URL, and the call throws. *)
(** @src src/src/core/bulk-ledger.ts 820-826 probeRowKind *)
Definition probeRowKind (c : Candidate) (i : string) : option string :=
  match c_form c with
  | Some form => Some (unmeasuredProbeKind i form)
  | None =>
      (fun path => let k := resourceKindOf path in
         if isMeasuredWriteForm E (c_host c) path (c_method c) then k else unmeasuredProbeKind i k) <$> url_pathname E (c_key c)
  end.
Definition put_probe (p : Probe) (l : list Probe) : list Probe :=
  filter (fun q => negb (probe_at (p_host p) (p_method p) q && bool_decide (p_kind q = p_kind p)) = true) l ++ [p].
Inductive ProbeAnswer := ProbeOk | ProbeNotFound | NotAProbe | ProbeThrew.
(** @src src/src/core/bulk-ledger.ts 2106-2118 confirmProbe *)
Definition confirmProbe (L : Ledger) (i : string) (by_ : option string) (now : Z) : Ledger * ProbeAnswer :=
  match probeCandidate L i with
  | NoRun => (L, ProbeNotFound)
  | NoProbe => (L, NotAProbe)
  | ProbeOf c =>
      match probeRowKind c i with
      | None => (L, ProbeThrew)
      | Some k => ({| runs := runs L; probes := put_probe {| p_host := c_host c; p_method := c_method c; p_kind := k; p_run := i; p_by := by_; p_at := now |} (probes L);
                      trigger_calls := trigger_calls L |}, ProbeOk)
      end
  end.
(** @src src/src/core/bulk-ledger.ts 2170-2193 probeToConfirm *)
Definition probeToConfirm (L : Ledger) (i : string) : option Candidate :=
  match probeCandidate L i with
  | ProbeOf c =>
      match probeRowKind c i with
      | None => None
      | Some k =>
          let own_prefix := (UNMEASURED_PROBE ++ i ++ ":")%string in
          let filed := if startsWith k own_prefix
            then unmeasuredProbeOf L (c_host c) (c_method c) (unchars (drop (length (chars own_prefix)) (chars k))) i true
            else existsb (fun p => probe_at (c_host c) (c_method c) p && bool_decide (p_kind p = k) && bool_decide (p_run p = i)) (probes L) in
          if filed then None else Some c
      end
  | _ => None
  end.

(** ** Selection, approval, resumption *)

(** @src src/src/core/bulk-ledger.ts 2205-2210 countWriting *)
Definition countWriting (r : RunRow) : Z := count_targets writing_target r.
(** @src src/src/core/bulk-ledger.ts 2195-2203 countUndoable *)
Definition countUndoable (r : RunRow) : Z := count_targets (undoEligible (is_external r)) r.
(** @src src/src/core/bulk-ledger.ts 2212-2214 approvalWindow *)
Definition approvalWindow (n now : Z) : Z := now + Z.min (n * BULK_TARGET_BUDGET_MS + BULK_APPROVAL_SLACK_MS) BULK_APPROVAL_MAX_MS.
(** @src src/src/core/bulk-ledger.ts 2216-2224 armTrigger *)
Definition armTrigger (i : string) (k : BulkRunKind) (now : Z) : TriggerCall :=
  Arm ("bulk-" ++ i)%string (match k with undo_ => bulk_undo | apply_ => bulk_apply end) now.

Definition set_deselected (at_ : option Z) (p : Plan) : Plan :=
  {| target_key := target_key p; change := change p; undo_class := undo_class p; before := before p; after_planned := after_planned p;
     deselected_at := at_; source_seq := source_seq p |}.
Definition can_write (t : Target) : bool := bool_decide (change (plan t) ∈ [update; create; delete_]).
Inductive SelectAnswer := SelectOk | SelectNotFound | SelectWrongPhase | SelectAtomicUndo | SelectChecksum | SelectNotWriting.
(** @src src/src/core/bulk-ledger.ts 2234-2258 setSelected *)
Definition setSelected (L : Ledger) (i : string) (s : nat) (selected : bool) (checksum : string) (now : Z) : Ledger * SelectAnswer :=
  match runs L !! i with
  | None => (L, SelectNotFound)
  | Some r =>
      if negb (bool_decide (phase r = previewed)) then (L, SelectWrongPhase)
      else if bool_decide (kind (head r) = undo_) && atomic (head r) then (L, SelectAtomicUndo)
      else if negb (bool_decide (Some checksum = computeChecksum L i)) then (L, SelectChecksum)
      else
        let '(L', moved) :=
          if selected then update_target_if i s (fun t => can_write t && negb (is_null (deselected_at (plan t)))) (set_plan (set_deselected None)) L
          else update_target_if i s writing_target (set_plan (set_deselected (Some now))) L in
        if moved then (L', SelectOk) else (L', SelectNotWriting)
  end.

(** The first run of the chain, followed up by the source. *)
Fixpoint climb (fuel : nat) (L : Ledger) (seen : list string) (root : string) : string :=
  match fuel with
  | O => root
  | S fuel =>
      match runs L !! root ≫= source_run_id with
      | None => root
      | Some up => if bool_decide (up ∈ root :: seen) then root else climb fuel L (root :: seen) up
      end
  end.
Definition root_of (L : Ledger) (i : string) : string := climb (S (size (runs L))) L [] i.
(** Whether following the sources up from [i] passes [root]. *)
Fixpoint descends (fuel : nat) (L : Ledger) (root i : string) : bool :=
  bool_decide (i = root) ||
  match fuel with
  | O => false
  | S fuel => match runs L !! i ≫= source_run_id with Some up => descends fuel L root up | None => false end
  end.
(** A run of the family that is open, other than the excepted one. *)
(** @src src/src/core/bulk-ledger.ts 866-869 OPEN_IN_FAMILY_SQL *)
Definition open_below (L : Ledger) (root : string) (except : option string) : option string :=
  List.head (select_runs (fun i r => descends (size (runs L)) L root i && is_open r && negb (bool_decide (Some i = except))) L).
(** @src src/src/core/bulk-ledger.ts 2430-2446 openInFamily *)
Definition openInFamily (L : Ledger) (i : string) (except : option string) : option string := open_below L (root_of L i) except.

(** @src src/src/core/bulk-ledger.ts 871-872 UndoRefusal *)
Inductive UndoRefusal := undo_open | source_running | undo_stale.
(** @src src/src/core/bulk-ledger.ts 2416-2428 writeBlocked *)
Definition writeBlocked (L : Ledger) (i : string) (r : RunRow) : option UndoRefusal :=
  match openInFamily L i (Some i) with
  | Some open => Some (if bool_decide (Some open = source_run_id r) then source_running else undo_open)
  | None =>
      match bool_decide (kind (head r) = undo_), source_run_id r with
      | true, Some j =>
          match runs L !! j with
          | None => None
          | Some src =>
              if bool_decide (phase src = undone) then Some undo_stale
              else
                let planned_seqs := omap (source_seq ∘ plan) (targets r) in
                if existsb (fun p => undoEligible (is_external src) p.2 && negb (bool_decide (p.1 ∈ planned_seqs))) (imap pair (targets src))
                then Some undo_stale else None
          end
      | _, _ => None
      end
  end.

Inductive ApproveAnswer :=
| ApproveOk (trigger : string) | ApproveNotFound | ApproveWrongPhase | ApproveShopifyOff | ApproveMailApi | ApproveChecksum
| ApproveUnmeasuredUnconfirmed | ApproveNothing | ApproveBadMaxTargets | ApproveProbeRequired (missing : list (string * BulkProbeCause))
| ApproveRefused (why : UndoRefusal).
(** [Number.isInteger(n) && n >= 1 && n <= writing]. *)
Definition good_max (n : num) (total : Z) : option Z :=
  match n with
  | Fin q => if Qeq_bool q (inject_Z (Qtrunc q)) && (1 <=? Qtrunc q) && (Qtrunc q <=? total) then Some (Qtrunc q) else None
  | _ => None
  end.
(** @src src/src/core/bulk-ledger.ts 2266-2323 approve *)
Definition approve (L : Ledger) (i checksum : string) (by_ : option string) (maxTargets : option num) (unmeasuredConfirmed : bool) (now : Z)
    : Ledger * ApproveAnswer :=
  match runs L !! i with
  | None => (L, ApproveNotFound)
  | Some r =>
      let total := countWriting r in
      if negb (bool_decide (phase r = previewed)) || bool_decide (list_state (prep r) = Some pending) then (L, ApproveWrongPhase)
      else if isShopifyRunSwitchedOff L r then (L, ApproveShopifyOff)
      else if contractWritesMail (target_system (head r)) (contract_json (prep r)) then (L, ApproveMailApi)
      else if negb (bool_decide (Some checksum = computeChecksum L i)) then (L, ApproveChecksum)
      else if bool_decide (kind (head r) = apply_) && bool_decide (is_unmeasured L r = Some true) && negb unmeasuredConfirmed
           then (L, ApproveUnmeasuredUnconfirmed)
      else if total =? 0 then (L, ApproveNothing)
      else match good_max (default (num_of_Z total) maxTargets) total with
      | None => (L, ApproveBadMaxTargets)
      | Some m =>
          if (1 <? m) && negb (probeHolds L i r) then (L, ApproveProbeRequired (probeCoverage L i r).2)
          else if atomic (head r) && negb (m =? total) then (L, ApproveBadMaxTargets)
          else match writeBlocked L i r with
          | Some why => (L, ApproveRefused why)
          | None =>
              let a := {| approved_by := by_; approved_at := Some now; approval_checksum := Some checksum; max_targets := Some m;
                          expires_at := Some (approvalWindow total now) |} in
              (call_trigger (armTrigger i (kind (head r)) now) (call_trigger (Remove (bulkPreviewTriggerId i))
                 (update_run i (fun r => set_approval a (set_phase approved None r)) L)),
               ApproveOk ("bulk-" ++ i)%string)
          end
      end
  end.

Inductive ResumeAnswer :=
| ResumeOk (trigger : string) | ResumeNotFound | ResumeWrongPhase | ResumeShopifyOff | ResumeMailApi | ResumeChecksum
| ResumeBadMaxTargets | ResumeProbeRequired (missing : list (string * BulkProbeCause)) | ResumeRefused (why : UndoRefusal).
Definition set_claim (c : option Z) (l : Life) : Life :=
  {| claimed_at := c; applied_at := applied_at l; result_ := result_ l; after_actual := after_actual l; write_sent := write_sent l;
     unknown_sends := unknown_sends l; found_unsent := found_unsent l; undone_at := undone_at l; failed_once := failed_once l;
     shop_added_markup := shop_added_markup l; host_rewrote := host_rewrote l |}.
(** Not applied, with an error that a resumption takes back. *)
Definition resume_target (t : Target) : Target :=
  if is_null (applied_at (life t)) && negb (is_null (error t)) && negb (bool_decide (error t = Some "secret"%string)) && is_valid t
  then set_error None (set_life (set_claim None) t) else t.
(** @src src/src/core/bulk-ledger.ts 2331-2381 resume *)
Definition resume (L : Ledger) (i checksum : string) (maxTargets : option num) (now : Z) : Ledger * ResumeAnswer :=
  match runs L !! i with
  | None => (L, ResumeNotFound)
  | Some r =>
      let total := countWriting r in
      if negb (bool_decide (phase r ∈ [approved; writing])) then (L, ResumeWrongPhase)
      else if isShopifyRunSwitchedOff L r then (L, ResumeShopifyOff)
      else if contractWritesMail (target_system (head r)) (contract_json (prep r)) then (L, ResumeMailApi)
      else if negb (bool_decide (Some checksum = approval_checksum (approval r)) && bool_decide (Some checksum = computeChecksum L i))
           then (L, ResumeChecksum)
      else match (match maxTargets with
                  | None => Some (max_targets (approval r))
                  | Some n => m ← good_max n total; if atomic (head r) && negb (m =? total) then None else Some (Some m)
                  end) with
      | None => (L, ResumeBadMaxTargets)
      | Some m =>
          if (1 <? default total m) && negb (probeHolds L i r) then (L, ResumeProbeRequired (probeCoverage L i r).2)
          else match writeBlocked L i r with
          | Some why => (L, ResumeRefused why)
          | None =>
              let a := {| approved_by := approved_by (approval r); approved_at := approved_at (approval r);
                          approval_checksum := approval_checksum (approval r); max_targets := m;
                          expires_at := Some (approvalWindow total now) |} in
              (call_trigger (armTrigger i (kind (head r)) now)
                 (update_run i (fun r => set_targets (fmap resume_target) (set_counts (targets_total r) (targets_applied r) 0
                    (set_approval a (set_phase (phase r) None r)))) L),
               ResumeOk ("bulk-" ++ i)%string)
          end
      end
  end.

(** ** Planning an undo *)

(** @src src/src/core/bulk-ledger.ts 918-927 ApplyTarget *)
Record ApplyTarget := {
  a_seq : nat; a_key : string; a_change : BulkChange; expected : BeforeImage; after : BeforeImage; a_source : option nat }.
(** A target that is not written throws; the callers read only those that are. *)
(** @src src/src/core/bulk-ledger.ts 3255-3262 toApplyTarget *)
Definition toApplyTarget (s : nat) (t : Target) : option ApplyTarget :=
  if negb (can_write t) then None
  else Some {| a_seq := s; a_key := target_key (plan t); a_change := change (plan t);
    expected := default Absent (before (plan t));
    after := match change (plan t), after_planned (plan t) with delete_, _ | _, None => Absent | _, Some a => Present a end;
    a_source := source_seq (plan t) |}.

(** @src src/src/core/bulk-ledger.ts 831-835 onlySentFields *)
Definition onlySentFields (b sent : BeforeImage) : BeforeImage :=
  match b, sent with
  | Present (JObj fs), Present ((JObj _ | JProto false) as v) => Present (JObj (filter (fun kv => kv.1 ∈ own_keys v) fs))
  | _, _ => b
  end.
(** @src src/src/core/bulk-connection.ts 27-35 mergeConnections *)
Definition mergeConnections (l : list (option Connection)) : option Connection :=
  foldl (fun merged c =>
    match c, merged with
    | None, _ => merged
    | Some c, None => Some c
    | Some c, Some m => if bool_decide (c = m) then Some m else Some (m.1, None)
    end) None l.

(** @src src/src/core/bulk-ledger.ts 2567-2596 restoresShopAddedMarkup *)
Fixpoint markup_up (fuel : nat) (L : Ledger) (first : bool) (i : string) (s : nat) (restored : jval) (html : list string) : bool :=
  match fuel with
  | O => true
  | S fuel =>
      match runs L !! i with
      | None => true
      | Some r =>
          match targets r !! s with
          | None => true
          | Some t =>
              let here := negb first && shop_added_markup (life t) && match after_actual (life t) with
                | Some (kept, _) => is_object kept && existsb (fun f => match js_prop restored f, js_prop kept f with
                    | JStr a, JStr k => htmlEqual E a k | _, _ => false end) html
                | None => false end in
              here || match source_run_id r, source_seq (plan t) with
                | Some j, Some n => markup_up fuel L false j n restored html
                | _, _ => false end
          end
      end
  end.
Definition restoresShopAddedMarkup (L : Ledger) (i : string) (s : nat) (a : jval) (html : list string) : bool :=
  is_object a && markup_up 65 L true i s a html.

(** One target of an undo, for the source's target [t] at [s]. *)
Definition undo_target (L : Ledger) (i : string) (external : bool) (html : list string) (s : nat) (t : Target) : option (UndoClass * Target) :=
  a ← toApplyTarget s t;
  let expected' := match after_actual (life t) with Some (v, _) => Present v | None => after a end in
  let after' := if external then onlySentFields (expected a) (after a) else expected a in
  let change' := match after', expected' with Absent, _ => delete_ | _, Absent => create | _, _ => update end in
  let sides := [read_connection t; write_connection t] in
  let merged := mergeConnections sides in
  let read := match merged with
    | Some m => Some (if external && bool_decide (None ∈ sides) then (m.1, None) else m)
    | None => None end in
  let tainted := negb (bool_decide (html = [])) && match after' with
    | Present v => restoresShopAddedMarkup L i s v html | Absent => false end in
  Some (undoFor expected',
    if tainted then
      new_target {| target_key := a_key a; change := invalid; undo_class := None; before := None; after_planned := None;
                    deselected_at := None; source_seq := Some s |} (Some "shop_added_markup"%string)
    else
      {| plan := {| target_key := a_key a; change := change'; undo_class := Some (undoFor expected'); before := Some (image_round expected');
                    after_planned := match after' with Absent => None | Present v => Some (stored v) end;
                    deselected_at := None; source_seq := Some s |};
         judging := no_judging; life := no_life; error := None; read_connection := read; write_connection := None |}).

Inductive PlanUndoAnswer := UndoPlanned | UndoNotFound | UndoMailApi | UndoNotUndoable | UndoOpen | UndoAtomicPartial | UndoNothing.
(** @src src/src/core/bulk-ledger.ts 2457-2555 planUndo *)
Definition planUndo (L : Ledger) (o : Origin) (i : string) : Ledger * PlanUndoAnswer :=
  match runs L !! i with
  | None => (L, UndoNotFound)
  | Some src =>
      let h := head src in
      if contractWritesMail (target_system h) (contract_json (prep src)) then (L, UndoMailApi)
      else if negb (isStopped src) then (L, UndoNotUndoable)
      else if negb (is_null (openInFamily L i None)) then (L, UndoOpen)
      else if atomic h && (negb (bool_decide (phase src = finished)) ||
                (0 <? count_targets (fun t => writing_target t && (is_null (applied_at (life t)) || negb (is_null (undone_at (life t))))) src))
           then (L, UndoAtomicPartial)
      else
        let external := is_external src in
        let rows := reverse (filter (fun p => undoEligible external p.2 = true) (imap pair (targets src))) in
        if bool_decide (rows = []) then (L, UndoNothing)
        else
          let html := htmlFieldsOf L i in
          let planned := omap (fun p => undo_target L i external html p.1 p.2) rows in
          let hash := keyedHash E ("undo"%string :: i :: mjoin ((fun p => [int_text (Z.of_nat p.1); target_key (plan p.2)]) <$> rows)) in
          let o := {| new_id := new_id o; now_s := now_s o; by_thread := by_thread o; by_principal := Owner |} in
          let r := new_run (new_head L o undo_ (target_system h) (target_collection h) (atomic h) None None) (Some i)
                     (new_prep hash (contract_json (prep src)) (undo_of_classes planned.*1) None) previewed None planned.*2 in
          (pruneUnapproved (insert_run (new_id o) r L) Owner 0 None, UndoPlanned)
  end.

(** ** Starting the reading or judging *)

(** @src src/src/core/bulk-ledger.ts 563-567 isWholeCents *)
Definition isWholeCents (usd : num) : bool :=
  match usd with
  | Fin q => if Qle_bool q 0 then false else
      let cents := (q * 100)%Q in let d := (cents - inject_Z (Qfloor (cents + (1 # 2))))%Q in
      Qle_bool d (1 # 1000000) && Qle_bool (- (1 # 1000000)) d && negb (Qeq_bool d (1 # 1000000)) && negb (Qeq_bool d (- (1 # 1000000)))
  | _ => false
  end.

Record PreviewOpts := {
  listChecksum : option string; judgeRuleHash : option string; costCapUsd : option num; supersedes : option string;
  startDomains : option jval }.
Inductive PreviewAnswer :=
| PreviewOk (trigger : string) | PreviewNotFound | PreviewWrongPhase | PreviewBusy | PreviewChecksum | PreviewCostCap
| PreviewNotAtThisStart | PreviewDomainsNotHere | PreviewDomainsInvalid | PreviewDomainsFrozen
| PreviewSupersede (other : string) (cost : num) | PreviewRuleRefused (message : string).

(** A run whose judge was started and which is not approved. *)
Definition is_judged_open (r : RunRow) : bool :=
  negb (is_null (judge_rule (head r))) && negb (is_null (cost_cap_usd (prep r))) && is_unapproved r.
Definition domain_list (v : jval) : option (list string) := match v with JArr l => normalizeStartDomains E l | _ => None end.
(** What the guards before the transaction answer: the judging flag and the domains of this start. *)
Definition preview_guards (L : Ledger) (i : string) (r : RunRow) (o : PreviewOpts) : result PreviewAnswer (bool * option (list string)) :=
  let listPending := bool_decide (list_state (prep r) = Some pending) in
  let judging := negb (is_null (judge_rule (head r))) && negb listPending in
  let listJudging := judging && negb (is_null (list_source (head r))) in
  if negb (bool_decide (phase r = planned)) || is_null (halt_reason r) then Err PreviewWrongPhase
  else if listPending && (is_null (listChecksum o) || negb (bool_decide (listChecksum o = listStartChecksum L i))) then Err PreviewChecksum
  else if negb (is_null (judge_rule (head r))) && listPending && (negb (is_null (costCapUsd o)) || negb (is_null (supersedes o)))
       then Err PreviewNotAtThisStart
  else
    startList ← (match startDomains o with
      | None => Ok None
      | Some v => if negb listJudging then Err PreviewDomainsNotHere
                  else match domain_list v with None => Err PreviewDomainsInvalid | Some l => Ok (Some l) end end);
    if negb judging then Ok (false, startList)
    else match judgeRuleRefusal E r with
    | Some m => Err (PreviewRuleRefused m)
    | None =>
        if is_null (judgeRuleHash o) || negb (bool_decide (judgeRuleHash o = judge_rule_hash (head r))) then Err PreviewChecksum
        else if match costCapUsd o with None => is_null (cost_cap_usd (prep r)) | Some c => negb (isWholeCents c) end then Err PreviewCostCap
        else Ok (true, startList)
    end.
(** The transaction, on the ledger whose dead reads are halted. *)
Definition preview_start (L : Ledger) (i : string) (r : RunRow) (o : PreviewOpts) (judging : bool) (startList : option (list string))
    (frozen : bool) (now : Z) : Ledger * PreviewAnswer :=
  let listJudging := judging && negb (is_null (list_source (head r))) in
  let trigger := bulkPreviewTriggerId i in
  let start L :=
    (call_trigger (Arm trigger (if judging then bulk_judge else bulk_preview) now)
      (update_run i (fun r => set_phase (phase r) None (set_prep (fun p => set_cost (cost_usd p)
         (if judging then match costCapUsd o with Some c => Some c | None => cost_cap_usd p end else cost_cap_usd p)
         (if judging then Some (default now (judge_started_at p)) else judge_started_at p)
         (if listJudging && negb frozen then match startList with Some (d :: l) => Some (d :: l) | _ => None end else start_domains p) p) r)) L),
     PreviewOk trigger) in
  let others := select_runs (fun j r => is_reading r && negb (bool_decide (j = i))) L in
  if startsWith (target_system (head r)) "http:" && negb (bool_decide (others = [])) then (L, PreviewBusy)
  else if negb judging then start L
  else match select_runs (fun j r => is_judged_open r && negb (bool_decide (j = i))) L with
  | [] => start L
  | j :: _ =>
      match runs L !! j with
      | None => (L, PreviewWrongPhase)
      | Some other =>
          if negb (bool_decide (supersedes o = Some j)) then (L, PreviewSupersede j (cost_usd (prep other)))
          else start (call_trigger (Remove (bulkPreviewTriggerId j)) (update_run j (set_phase aborted (Some h_superseded)) L))
      end
  end.
(** @src src/src/core/bulk-ledger.ts 2874-2987 resumePreview *)
Definition resumePreview (live : string -> bool) (L : Ledger) (i : string) (o : PreviewOpts) (now : Z) : Ledger * PreviewAnswer :=
  let L := haltDeadReads live (Some i) L in
  match runs L !! i with
  | None => (L, PreviewNotFound)
  | Some r =>
      match preview_guards L i r o with
      | Err e => (L, e)
      | Ok (judging, startList) =>
          let listJudging := judging && negb (is_null (list_source (head r))) in
          let frozen := listJudging && (negb (is_null (judge_started_at (prep r))) || existsb (fun t => negb (is_null (before (plan t)))) (targets r)) in
          if frozen && match startList with Some l => negb (bool_decide (default [] (start_domains (prep r)) = l)) | None => false end
          then (L, PreviewDomainsFrozen)
          else preview_start (haltDeadReads live None L) i r o judging startList frozen now
      end
  end.

(** ** Judging *)

Definition is_unjudged (t : Target) : bool :=
  is_valid t && negb (is_null (before (plan t))) && is_null (judged_at (judging t)).
(** @src src/src/core/bulk-ledger.ts 3013-3017 listUnjudged *)
Definition listUnjudged (L : Ledger) (i : string) : list nat :=
  match runs L !! i with Some r => (filter (fun p => is_unjudged p.2 = true) (imap pair (targets r))).*1 | None => [] end.
Definition set_judge_claim (at_ : option Z) (token : option string) (j : Judging) : Judging :=
  {| context := context j; judged_at := judged_at j; judge_claimed_at := at_; judge_claim_token := token;
     context_secret_field := context_secret_field j; link_domain := link_domain j |}.
(** @src src/src/core/bulk-ledger.ts 3025-3032 claimJudge *)
Definition claimJudge (L : Ledger) (i : string) (s : nat) (token : string) (now staleMs : Z) : Ledger * bool :=
  update_target_if i s (fun t => is_unjudged t &&
      match judge_claimed_at (judging t) with None => true | Some c => c <? now - staleMs end &&
      match runs L !! i with Some r => is_preparing r | None => false end)
    (set_judging (set_judge_claim (Some now) (Some token))) L.
(** @src src/src/core/bulk-ledger.ts 3036-3041 releaseJudgeClaim *)
Definition releaseJudgeClaim (L : Ledger) (i : string) (s : nat) (token : string) : Ledger :=
  (update_target_if i s (fun t => bool_decide (judge_claim_token (judging t) = Some token) && is_null (judged_at (judging t)))
    (set_judging (set_judge_claim None None)) L).1.
Definition is_positive (n : num) : bool := match n with Fin q => negb (Qle_bool q 0) | _ => false end.
Definition is_nonneg (n : num) : bool := match n with Fin q => Qle_bool 0 q | _ => false end.
Definition set_cost_usd (c : num) (p : Preparation) : Preparation := set_cost c (cost_cap_usd p) (judge_started_at p) (start_domains p) p.
(** @src src/src/core/bulk-ledger.ts 3064-3067 addJudgeCost *)
Definition addJudgeCost (L : Ledger) (i : string) (usd : num) : Ledger :=
  if is_positive usd then update_run i (set_prep (fun p => set_cost_usd (num_add (cost_usd p) usd) p)) L else L.
(** @src src/src/core/bulk-ledger.ts 3071-3074 settleJudgeCost *)
Definition settleJudgeCost (L : Ledger) (i : string) (provisionalUsd usd : num) : Ledger :=
  if is_nonneg provisionalUsd && is_nonneg usd then
    update_run i (set_prep (fun p => set_cost_usd (num_max (num_of_Z 0) (num_add (num_sub (cost_usd p) provisionalUsd) usd)) p)) L
  else L.

Inductive Verdict := VerdictAfter (value : jval) | VerdictInvalid (reason : string) (refused : option jval) (contextField : option Z) (domain : option string).
(** Claimed under the token, not judged, valid, in a planned run. *)
Definition judged_under (L : Ledger) (i token : string) (t : Target) : bool :=
  bool_decide (judge_claim_token (judging t) = Some token) && is_null (judged_at (judging t)) && is_valid t &&
  match runs L !! i with Some r => bool_decide (phase r = planned) | None => false end.
Definition refuse_plan (kept : option jval) (p : Plan) : Plan :=
  {| target_key := target_key p; change := invalid; undo_class := None; before := before p;
     after_planned := match kept with Some v => Some v | None => after_planned p end;
     deselected_at := deselected_at p; source_seq := source_seq p |}.
(** @src src/src/core/bulk-ledger.ts 3087-3120 recordJudgement *)
Definition recordJudgement (L : Ledger) (i : string) (s : nat) (token : string) (v : Verdict) (now : Z) : Ledger * bool :=
  match v with
  | VerdictInvalid reason refused field domain =>
      let kept := if bool_decide (reason = "shortcode_changed"%string) then stored <$> refused else None in
      update_target_if i s (judged_under L i token) (fun t => set_error (Some reason)
        (set_judging (set_verdict field (linkDomainCell reason domain) (Some now)) (set_plan (refuse_plan kept) t))) L
  | VerdictAfter value =>
      match target_of L i s ≫= fun t => before (plan t) with
      | None => (L, false)
      | Some b =>
          let held := match b with Present v => v | Absent => JNull end in
          let shopify := match runs L !! i with Some r => negb (is_null (shopifyFormOfRun L r)) | None => false end in
          let paired := if shopify && negb (absent b) && isPlainRecord held && isPlainRecord value then shopifyPairedAfter E value held else value in
          let a := canonicalAfterOf L i paired held in
          update_target_if i s (judged_under L i token) (fun t => set_error None
            (set_judging (fun j => set_verdict (context_secret_field j) (link_domain j) (Some now) j)
              (set_plan (fun p => set_images (classify b a (comparedAsHtml L i)) (before p) (stored a) p) t))) L
      end
  end.
(** @src src/src/core/bulk-ledger.ts 3127-3154 finishJudge *)
Definition finishJudge (L : Ledger) (i : string) : Ledger * bool :=
  match runs L !! i with
  | Some r =>
      if is_preparing r && negb (is_null (judge_rule (head r))) && bool_decide (list_state (prep r) ∈ [None; Some listed]) &&
         (count_targets (fun t => is_valid t && (is_null (before (plan t)) || is_null (judged_at (judging t)))) r =? 0) then
        let pairs := planned_after <$> targets r in
        let scope := match externalHostOf (target_system (head r)) with
          | Some host => host | None => ("data_store:" ++ default "" (target_collection (head r)))%string end in
        let valid := existsb (fun p => negb (is_null p.2)) pairs in
        let u := if valid then if bool_decide (run_undo (prep r) = no_undo) then restorable else run_undo (prep r) else no_undo in
        (update_run i (fun r => set_phase previewed None
           (set_prep (fun p => set_rule (keyedHash E (rulePairs (target_system (head r)) scope pairs)) (contract_json p) u (list_state p) p) r)) L, true)
      else (L, false)
  | None => (L, false)
  end.
(** @src src/src/core/bulk-ledger.ts 3165-3182 expireStaleJudgedRuns *)
Definition expireStaleJudgedRuns (L : Ledger) (now maxAgeMs : Z) : Ledger :=
  foldl (fun L i =>
    let L := call_trigger (Remove (bulkPreviewTriggerId i)) L in
    match runs L !! i with Some r => if unapproved_judged r then delete_run i L else L | None => L end) L
    (select_runs (fun _ r => negb (is_null (judge_rule (head r))) && negb (is_null (cost_cap_usd (prep r))) && unapproved_judged r &&
                             match judge_started_at (prep r) with Some t => t <? now - maxAgeMs | None => false end) L).

(** ** Writing *)

(** @src src/src/core/bulk-ledger.ts 3202-3206 sentCount *)
Definition sentCount (r : RunRow) : Z := count_targets (fun t => sent_applied t || write_sent (life t)) r.
(** @src src/src/core/bulk-ledger.ts 3210-3214 wasSent *)
Definition wasSent (L : Ledger) (i : string) (s : nat) : bool :=
  match target_of L i s with Some t => negb (is_null (applied_at (life t))) || write_sent (life t) | None => false end.
(** @src src/src/core/bulk-ledger.ts 3219-3223 hasUnknownSend *)
Definition hasUnknownSend (L : Ledger) (i : string) (s : nat) : bool :=
  match target_of L i s with Some t => 0 <? unknown_sends (life t) | None => false end.
Definition is_pending (t : Target) : bool :=
  writing_target t && is_null (applied_at (life t)) && is_null (error t) && is_null (undone_at (life t)).
(** @src src/src/core/bulk-ledger.ts 3226-3231 listPending *)
Definition listPending (L : Ledger) (i : string) : list nat :=
  match runs L !! i with Some r => (filter (fun p => is_pending p.2 = true) (imap pair (targets r))).*1 | None => [] end.
(** @src src/src/core/bulk-ledger.ts 3240-3246 claimTarget *)
Definition claimTarget (L : Ledger) (i : string) (s : nat) (now : Z) : Ledger * bool :=
  update_target_if i s (fun t => is_null (applied_at (life t)) && is_null (error t) && is_null (undone_at (life t)) &&
      is_null (deselected_at (plan t)) && match claimed_at (life t) with None => true | Some c => c <? now - BULK_CLAIM_STALE_MS end)
    (set_life (set_claim (Some now))) L.
(** [None] of a target that cannot be written throws; see [toApplyTarget]. *)
(** @src src/src/core/bulk-ledger.ts 3248-3253 loadTarget *)
Definition loadTarget (L : Ledger) (i : string) (s : nat) : option ApplyTarget := target_of L i s ≫= toApplyTarget s.

Definition set_applied (at_ : Z) (res : string) (actual : option (jval * bool)) (markup rewrote : bool) (l : Life) : Life :=
  {| claimed_at := None; applied_at := Some at_; result_ := Some res; after_actual := actual; write_sent := write_sent l;
     unknown_sends := unknown_sends l; found_unsent := found_unsent l; undone_at := undone_at l; failed_once := failed_once l;
     shop_added_markup := markup; host_rewrote := rewrote |}.
Definition set_found_unsent (l : Life) : Life :=
  {| claimed_at := claimed_at l; applied_at := applied_at l; result_ := result_ l; after_actual := after_actual l; write_sent := write_sent l;
     unknown_sends := unknown_sends l; found_unsent := true; undone_at := undone_at l; failed_once := failed_once l;
     shop_added_markup := shop_added_markup l; host_rewrote := host_rewrote l |}.
Definition set_undone (at_ : option Z) (l : Life) : Life :=
  {| claimed_at := claimed_at l; applied_at := applied_at l; result_ := result_ l; after_actual := after_actual l; write_sent := write_sent l;
     unknown_sends := unknown_sends l; found_unsent := found_unsent l; undone_at := at_; failed_once := failed_once l;
     shop_added_markup := shop_added_markup l; host_rewrote := host_rewrote l |}.
Definition set_sends (sent : bool) (n : Z) (l : Life) : Life :=
  {| claimed_at := claimed_at l; applied_at := applied_at l; result_ := result_ l; after_actual := after_actual l; write_sent := sent;
     unknown_sends := n; found_unsent := found_unsent l; undone_at := undone_at l; failed_once := failed_once l;
     shop_added_markup := shop_added_markup l; host_rewrote := host_rewrote l |}.
Definition set_failed (counted : bool) (l : Life) : Life :=
  {| claimed_at := None; applied_at := applied_at l; result_ := result_ l; after_actual := after_actual l; write_sent := write_sent l;
     unknown_sends := unknown_sends l; found_unsent := found_unsent l; undone_at := undone_at l;
     failed_once := if negb counted || is_null (failed_once l) then failed_once l else Some true;
     shop_added_markup := shop_added_markup l; host_rewrote := host_rewrote l |}.

(** The target of the source an undo target takes back. *)
Definition source_target (L : Ledger) (i : string) (s : nat) : option (string * nat) :=
  match runs L !! i with
  | Some r =>
      match bool_decide (kind (head r) = undo_), source_run_id r, targets r !! s ≫= source_seq ∘ plan with
      | true, Some j, Some n => Some (j, n)
      | _, _, _ => None
      end
  | None => None
  end.
Definition mark_source (L : Ledger) (i : string) (s : nat) (at_ : option Z) (L' : Ledger) : Ledger :=
  match source_target L i s with Some (j, n) => update_target j n (set_life (set_undone at_)) L' | None => L' end.

(** @src src/src/core/bulk-ledger.ts 3268-3306 recordApplied *)
Definition recordApplied (L : Ledger) (i : string) (s : nat) (res : string) (now : Z) (actual : option (jval * bool)) (via : option Connection)
    (markup rewrote : bool) : Ledger :=
  let '(L1, moved) := update_target_if i s (fun t => is_null (applied_at (life t))) (set_life (set_applied now res actual markup rewrote)) L in
  if negb moved then L
  else
    let L2 := noteConnection i s true via L1 in
    let L3 := if bool_decide (res = "already"%string) then
        (update_target_if i s (fun t => negb (write_sent (life t)) && match runs L !! i with Some r => unsent_tracked (head r) | None => false end)
          (set_life set_found_unsent) L2).1 else L2 in
    mark_source L i s (Some now) (update_run i (fun r => set_counts (targets_total r) (targets_applied r + 1) (targets_failed r) r) L3).
(** @src src/src/core/bulk-ledger.ts 3315-3326 markSent *)
Definition markSent (L : Ledger) (i : string) (s : nat) (via : option Connection) : Ledger :=
  update_target i s (set_life (fun l => set_sends true (unknown_sends l + 1) l)) (noteConnection i s true via L).
(** @src src/src/core/bulk-ledger.ts 3331-3334 markRefused *)
Definition markRefused (L : Ledger) (i : string) (s : nat) : Ledger :=
  (update_target_if i s (fun t => 0 <? unknown_sends (life t)) (set_life (fun l => set_sends (write_sent l) (unknown_sends l - 1) l)) L).1.
(** @src src/src/core/bulk-ledger.ts 3337-3340 releaseClaim *)
Definition releaseClaim (L : Ledger) (i : string) (s : nat) : Ledger :=
  (update_target_if i s (fun t => is_null (applied_at (life t))) (set_life (set_claim None)) L).1.
(** @src src/src/core/bulk-ledger.ts 3345-3365 recordFailed *)
Definition recordFailed (L : Ledger) (i : string) (s : nat) (e : BulkTargetError) (via : option Connection) : Ledger :=
  let counted := negb (bool_decide (e ∈ NOT_FAILURES)) in
  let '(L1, moved) := update_target_if i s (fun t => is_null (applied_at (life t)))
    (fun t => set_error (Some (error_text e)) (set_life (set_failed counted) t)) L in
  if negb moved then L
  else
    let L2 := noteConnection i s true via L1 in
    if counted then update_run i (fun r => set_counts (targets_total r) (targets_applied r) (targets_failed r + 1) r) L2 else L2.
(** @src src/src/core/bulk-ledger.ts 3373-3376 recordUnrecordedSettled *)
Definition recordUnrecordedSettled (L : Ledger) (i : string) (s : nat) (now : Z) : Ledger :=
  (update_target_if i s (fun t => is_null (applied_at (life t)) && write_sent (life t)) (set_life (set_undone (Some now))) L).1.
(** @src src/src/core/bulk-ledger.ts 3383-3395 recordRolledBack *)
Definition recordRolledBack (L : Ledger) (i : string) (s : nat) (now : Z) : Ledger :=
  mark_source L i s None
    (update_target_if i s (fun t => negb (is_null (applied_at (life t)))) (set_life (set_undone (Some now))) L).1.

Definition targets_desc (P : Target -> bool) (L : Ledger) (i : string) : list ApplyTarget :=
  match runs L !! i with
  | Some r => omap (fun p => toApplyTarget p.1 p.2) (reverse (filter (fun p => P p.2 = true) (imap pair (targets r))))
  | None => []
  end.
(** @src src/src/core/bulk-ledger.ts 3400-3407 listAppliedDesc *)
Definition listAppliedDesc : Ledger -> string -> list ApplyTarget :=
  targets_desc (fun t => sent_applied t && is_null (undone_at (life t)) && writing_target t).
(** @src src/src/core/bulk-ledger.ts 3414-3421 listSentUnrecordedDesc *)
Definition listSentUnrecordedDesc : Ledger -> string -> list ApplyTarget :=
  targets_desc (fun t => write_sent (life t) && is_null (applied_at (life t)) && is_null (undone_at (life t)) && writing_target t).

(** @src src/src/core/bulk-ledger.ts 3424-3429 setPhase *)
Definition setPhase (L : Ledger) (i : string) (from : list BulkPhase) (to : BulkPhase) (reason : option BulkHaltReason) : Ledger * bool :=
  match runs L !! i with
  | Some r =>
      if bool_decide (phase r ∈ from)
      then (update_run i (fun r => set_phase to (match reason with Some h => Some h | None => halt_reason r end) r) L, true)
      else (L, false)
  | None => (L, false)
  end.
(** @src src/src/core/bulk-ledger.ts 3432-3434 halt *)
Definition halt (L : Ledger) (i : string) (reason : BulkHaltReason) : Ledger :=
  update_run i (fun r => set_phase (phase r) (Some reason) r) L.
(** @src src/src/core/bulk-ledger.ts 3441-3458 finish *)
Definition finish (L : Ledger) (i : string) : Ledger :=
  let L1 := (setPhase L i [writing] finished None).1 in
  match runs L !! i with
  | Some r =>
      match bool_decide (kind (head r) = undo_), source_run_id r with
      | true, Some j =>
          match runs L1 !! j with
          | Some src => if countUndoable src =? 0 then (setPhase L1 j [finished; aborted; writing] undone None).1 else L1
          | None => L1
          end
      | _, _ => L1
      end
  | None => L1
  end.
End Ledger.
