(* ===== verification/BulkLaws.v ===== *)
(** Bulk changes, the laws of the ledger: what every sequence of its operations keeps.

    Each operation of [BulkLedger] is a sequence of a few kinds of row changes ([row_step]); the
    invariants are proved for those kinds and hold for every operation. *)
From S2P Require Import Prelude Num JsString JsValue Principal BulkData BulkLedger.
Open Scope Z_scope.

(** ** Families *)

Definition parent (L : Ledger) (i j : string) : Prop := exists r, runs L !! i = Some r /\ source_run_id r = Some j.
Definition ancestor (L : Ledger) : string -> string -> Prop := rtc (parent L).
Definition same_family (L : Ledger) (i j : string) : Prop := exists k, ancestor L i k /\ ancestor L j k.

(** A run's source is a row inserted before it, and approved once. *)
Definition well_sourced (L : Ledger) : Prop :=
  forall i r j, runs L !! i = Some r -> source_run_id r = Some j ->
    exists s, runs L !! j = Some s /\ rowid (head s) < rowid (head r) /\ is_unapproved s = false.

Definition rows_below (L : Ledger) (i : string) : nat :=
  match runs L !! i with Some r => size (filter (fun p => rowid (head p.2) < rowid (head r)) (runs L)) | None => 0 end.

Lemma parent_functional L i j k : parent L i j -> parent L i k -> j = k.
Proof. intros (r & H1 & H2) (s & H3 & H4). congruence. Qed.

Lemma parent_descends L i j : well_sourced L -> parent L i j -> (rows_below L j < rows_below L i)%nat.
Proof.
  intros Hw (r & Hr & Hs). destruct (Hw _ _ _ Hr Hs) as (s & Hj & Hlt & _). unfold rows_below. rewrite Hr, Hj.
  apply map_subset_size. split.
  - apply map_subseteq_spec. intros k t. rewrite !map_lookup_filter_Some. cbn. intros [? ?]. split; [done|lia].
  - intros Hsub. rewrite map_subseteq_spec in Hsub. specialize (Hsub j s). rewrite !map_lookup_filter_Some in Hsub. cbn in Hsub.
    destruct Hsub as [_ ?]; [done|lia].
Qed.

Lemma rows_below_size L i r : runs L !! i = Some r -> (rows_below L i < size (runs L))%nat.
Proof.
  intros Hi. unfold rows_below. rewrite Hi. apply map_subset_size. split; [apply map_filter_subseteq|].
  intros Hsub. rewrite map_subseteq_spec in Hsub. specialize (Hsub i r Hi). rewrite map_lookup_filter_Some in Hsub. cbn in Hsub. lia.
Qed.

(** The fuel of a walk up, bounded by the rows below. *)
Lemma climb_terminal fuel L seen i : well_sourced L -> (rows_below L i < fuel)%nat ->
  (forall x, x ∈ seen -> (rows_below L i < rows_below L x)%nat) ->
  ancestor L i (climb fuel L seen i) /\ forall k, ~ parent L (climb fuel L seen i) k.
Proof.
  intros Hw. revert i seen. induction fuel as [|fuel IH]; intros i seen Hf Hseen; [lia|]. cbn [climb].
  destruct (runs L !! i ≫= source_run_id) as [up|] eqn:E.
  - assert (parent L i up) as Hp. { destruct (runs L !! i) as [r|] eqn:Er; [|done]. by exists r. }
    pose proof (parent_descends L i up Hw Hp) as Hlt. rewrite bool_decide_eq_false_2.
    + destruct (IH up (i :: seen)) as [H1 H2]; [lia| |].
      * intros x [->|Hx]%elem_of_cons; [done|]. specialize (Hseen x Hx). lia.
      * split; [by eapply rtc_l|done].
    + intros [->|Hx]%elem_of_cons; [lia|]. specialize (Hseen up Hx). lia.
  - split; [done|]. intros k (r & Hr & Hs). rewrite Hr in E. cbn in E. congruence.
Qed.

Lemma root_of_spec L i : well_sourced L -> ancestor L i (root_of L i) /\ forall k, ~ parent L (root_of L i) k.
Proof.
  intros Hw. unfold root_of. apply climb_terminal; [done| |by intros x []%elem_of_nil].
  destruct (runs L !! i) as [r|] eqn:E; [pose proof (rows_below_size L i r E)|unfold rows_below; rewrite E]; lia.
Qed.

Lemma descends_ancestor fuel L k i : descends fuel L k i = true -> ancestor L i k.
Proof.
  revert i. induction fuel as [|fuel IH]; intros i; cbn [descends]; rewrite orb_true_iff, bool_decide_eq_true; intros [->|H]; try done.
  destruct (runs L !! i ≫= source_run_id) as [up|] eqn:E; [|done]. destruct (runs L !! i) as [r|] eqn:Er; [|done].
  eapply rtc_l; [exists r; eauto|by apply IH].
Qed.

Lemma ancestor_descends fuel L k i : well_sourced L -> ancestor L i k -> (rows_below L i <= fuel)%nat -> descends fuel L k i = true.
Proof.
  intros Hw H. revert fuel. induction H as [i|i j k Hp _ IH]; intros fuel Hf.
  - destruct fuel; cbn [descends]; by rewrite bool_decide_eq_true_2.
  - pose proof (parent_descends L i j Hw Hp) as Hlt. destruct fuel as [|fuel]; [lia|]. cbn [descends].
    destruct Hp as (r & Hr & Hs). rewrite Hr. cbn. rewrite Hs, IH by lia. by rewrite orb_true_r.
Qed.

Lemma ancestor_terminal L i m k : ancestor L i m -> ancestor L i k -> (forall x, ~ parent L k x) -> ancestor L m k.
Proof.
  intros H. revert k. induction H as [i|i j m Hp _ IH]; intros k Hk Ht; [done|].
  apply IH; [|done]. inversion Hk as [|? y ? Hy Hyk]; subst; [by destruct (Ht j)|]. by rewrite (parent_functional _ _ _ _ Hp Hy).
Qed.

Lemma elem_of_select_runs P L i : i ∈ select_runs P L <-> exists r, runs L !! i = Some r /\ P i r = true.
Proof.
  unfold select_runs. rewrite list_elem_of_fmap. split.
  - intros ([k r] & -> & H). rewrite (merge_sort_Permutation older), list_elem_of_filter in H. destruct H as [H1 H2%elem_of_map_to_list].
    cbn in *. eauto.
  - intros (r & Hr & HP). exists (i, r). split; [done|]. rewrite (merge_sort_Permutation older), list_elem_of_filter. cbn.
    split; [done|]. by apply elem_of_map_to_list.
Qed.

(** No open run of the family means none. *)
Lemma openInFamily_None L i except : well_sourced L -> openInFamily L i except = None ->
  forall j s, runs L !! j = Some s -> is_open s = true -> same_family L i j -> Some j = except.
Proof.
  intros Hw Ho j s Hj Hs (m & Hi & Hjm). unfold openInFamily, open_below in Ho.
  destruct (root_of_spec L i Hw) as [Hr Ht]. pose proof (ancestor_terminal L i m _ Hi Hr Ht) as Hm.
  destruct (decide (Some j = except)) as [|Hne]; [done|]. exfalso.
  assert (j ∈ select_runs (fun x r => descends (size (runs L)) L (root_of L i) x && is_open r && negb (bool_decide (Some x = except))) L) as Hin.
  { apply elem_of_select_runs. exists s. split; [done|]. rewrite Hs, bool_decide_eq_false_2 by done.
    rewrite ancestor_descends; [done|done|etrans; [exact Hjm|exact Hm]|]. pose proof (rows_below_size L j s Hj). lia. }
  destruct (select_runs _ _); [by apply elem_of_nil in Hin|done].
Qed.

Lemma openInFamily_Some L i except j : well_sourced L -> openInFamily L i except = Some j ->
  exists s, runs L !! j = Some s /\ is_open s = true /\ same_family L i j /\ Some j <> except.
Proof.
  intros Hw Ho. unfold openInFamily, open_below in Ho.
  assert (j ∈ select_runs (fun x r => descends (size (runs L)) L (root_of L i) x && is_open r && negb (bool_decide (Some x = except))) L) as Hin.
  { destruct (select_runs _ _); [done|]. injection Ho as ->. left. }
  apply elem_of_select_runs in Hin as (s & Hs & [[Hd Hopen]%andb_true_iff Hne]%andb_true_iff). exists s. split_and!; [done|done| |].
  - exists (root_of L i). split; [by apply root_of_spec|by eapply descends_ancestor].
  - intros H. by rewrite bool_decide_eq_true_2 in Hne.
Qed.

(** ** The kinds of row changes *)

Definition keeps (r r' : RunRow) : Prop := head r' = head r /\ source_run_id r' = source_run_id r.
Definition all_new (l : list Life) : Prop := Forall (fun x => x = no_life) l.
Definition system_ok (s : string) : Prop := s = "workspace"%string \/ s = "data_store"%string \/ startsWith s "http:" = true.
Definition no_other_open (L : Ledger) (i : string) : Prop :=
  forall j s, runs L !! j = Some s -> is_open s = true -> same_family L i j -> j = i.
Definition droppable (r : RunRow) : bool := prunable r || unapproved_judged r.
(** What may change of the preparation once a run is approved: the counters. *)
Definition same_rule (p p' : Preparation) : Prop :=
  rule_hash p' = rule_hash p /\ contract_json p' = contract_json p /\ start_domains p' = start_domains p /\
  cost_cap_usd p' = cost_cap_usd p /\ list_state p' = list_state p.

(** Membership in a list of phases, by cases. *)
Ltac phases :=
  unfold is_unapproved in *; rewrite ?bool_decide_eq_true, ?bool_decide_eq_false in *; cbn in *;
  repeat match goal with
  | H : context [_ ∈ _ :: _] |- _ => rewrite elem_of_cons in H
  | H : context [_ ∈ []] |- _ => rewrite elem_of_nil in H
  | |- context [_ ∈ _ :: _] => rewrite elem_of_cons
  | |- context [_ ∈ []] => rewrite elem_of_nil
  end; intuition congruence.

Section Laws.
Variable E : Siblings.

Inductive row_step (L : Ledger) (i : string) (r : RunRow) : RunRow -> Prop :=
| R_prepare r' : keeps r r' -> is_unapproved r = true -> is_unapproved r' = true ->
    (exists l, all_new l /\ life <$> targets r' = (life <$> targets r) ++ l) ->
    (is_reading r' = true -> is_reading r = true) -> cost_cap_usd (prep r') = cost_cap_usd (prep r) -> row_step L i r r'
| R_start r' (judging : bool) : keeps r r' -> phase r = planned -> phase r' = planned -> targets r' = targets r ->
    (is_external r = true -> forall j s, runs L !! j = Some s -> is_reading s = true -> j = i) ->
    (if judging then forall j s, runs L !! j = Some s -> is_judged_open s = true -> j = i
     else cost_cap_usd (prep r') = cost_cap_usd (prep r)) -> row_step L i r r'
| R_end h : is_unapproved r = true -> row_step L i r (set_phase aborted (Some h) r)
| R_approve a : phase r = previewed -> no_other_open L i -> approval_checksum a = Some (keyedHash E (checksum_parts E r)) ->
    row_step L i r (set_approval a (set_phase approved None r))
| R_resume a : phase r ∈ [approved; writing] -> no_other_open L i -> approval_checksum a = approval_checksum (approval r) ->
    row_step L i r (set_targets (fmap resume_target) (set_counts (targets_total r) (targets_applied r) 0 (set_approval a (set_phase (phase r) None r))))
| R_halt h : row_step L i r (set_phase (phase r) (Some h) r)
| R_phase to h : is_unapproved r = false -> to ∈ [writing; finished; aborted; undone] -> (to = writing -> phase r ∈ [approved; writing]) ->
    (h = None -> halt_reason r = None) -> row_step L i r (set_phase to h r)
| R_life r' : keeps r r' -> is_unapproved r = false -> phase r' = phase r -> halt_reason r' = halt_reason r -> approval r' = approval r ->
    prep r' = prep r -> plan <$> targets r' = plan <$> targets r -> row_step L i r r'
| R_cost f : (forall p, same_rule p (f p)) -> row_step L i r (set_prep f r).

(** ** What they keep *)

Record well_formed (L : Ledger) : Prop := {
  wf_sources : well_sourced L;
  wf_systems : forall i r, runs L !! i = Some r -> system_ok (target_system (head r));
  wf_new : forall i r, runs L !! i = Some r -> is_unapproved r = true -> all_new (life <$> targets r);
  wf_family : forall i j r s, runs L !! i = Some r -> runs L !! j = Some s -> is_open r = true -> is_open s = true ->
    same_family L i j -> i = j;
  wf_reading : forall i j r s, runs L !! i = Some r -> runs L !! j = Some s -> is_reading r = true -> is_reading s = true -> i = j;
  wf_judged : forall i j r s, runs L !! i = Some r -> runs L !! j = Some s -> is_judged_open r = true -> is_judged_open s = true -> i = j }.

Lemma row_step_keeps L i r r' : row_step L i r r' -> keeps r r'.
Proof. by destruct 1. Qed.

Lemma row_step_approved L i r r' : row_step L i r r' -> is_unapproved r = false -> is_unapproved r' = false.
Proof. unfold is_unapproved. rewrite !bool_decide_eq_false. destruct 1; phases. Qed.

(** A run opens only by an approval or a resumption. *)
Lemma row_step_open L i r r' : row_step L i r r' -> is_open r' = true -> is_open r = true \/ no_other_open L i.
Proof.
  unfold is_open. rewrite !andb_true_iff, !bool_decide_eq_true.
  destruct 1 as [? _ _ H _ _ _|? ? _ _ H _ _ _|? _|a _ ? _|a _ ? _|h|to h _ Hto Hw Hh|? _ _ Hp Hh _ _ _|f Hf]; try (by right); try (by left).
  - phases.
  - phases.
  - phases.
  - cbn. by intros [? ?].
  - intros [Hin Hn]. left. destruct h; [done|]. rewrite (Hh eq_refl). split; [|done]. apply Hw. phases.
  - rewrite Hp, Hh. by left.
Qed.

Lemma row_step_reading L i r r' : row_step L i r r' -> system_ok (target_system (head r)) -> is_reading r' = true ->
  is_reading r = true \/ forall j s, runs L !! j = Some s -> is_reading s = true -> j = i.
Proof.
  intros Hstep Hok. pose proof (row_step_keeps _ _ _ _ Hstep) as [Hh _].
  assert (is_reading r' = true -> startsWith (target_system (head r)) "http:" = true) as Hsys.
  { unfold is_reading. rewrite andb_true_iff, Hh. intros [_ Ht].
    destruct Hok as [Hs|[Hs|Hs]]; [rewrite Hs in Ht; vm_compute in Ht; done..|done]. }
  intros Hr. specialize (Hsys Hr). revert Hr. unfold is_reading at 1 2, is_preparing. rewrite !andb_true_iff, !bool_decide_eq_true, Hh.
  destruct Hstep as [? _ _ _ _ H _|? ? _ _ _ _ H _|? _|a _ ? _|a Hp ? _|h|to h _ Hto Hw _|? _ _ Hp Hhl _ _ _|f Hf].
  - intros Hr. left. unfold is_reading, is_preparing in H. rewrite !andb_true_iff, !bool_decide_eq_true, Hh in H. by apply H.
  - intros _. right. apply H. unfold is_external, externalHostOf. by rewrite Hsys.
  - phases.
  - phases.
  - phases.
  - cbn. intros [[? ?] ?]. done.
  - phases.
  - rewrite Hp, Hhl. by left.
  - by left.
Qed.

Lemma row_step_judged L i r r' : row_step L i r r' -> is_judged_open r' = true ->
  is_judged_open r = true \/ forall j s, runs L !! j = Some s -> is_judged_open s = true -> j = i.
Proof.
  intros Hstep. pose proof (row_step_keeps _ _ _ _ Hstep) as [Hh _]. revert Hstep.
  unfold is_judged_open at 1 2. rewrite !andb_true_iff, Hh.
  destruct 1 as [? _ Hu _ _ _ Hc|? judging _ Hp _ _ _ Hj|? _|a _ ? _|a Hp ? _|h|to h _ Hto Hw _|? _ Hu Hp _ _ Hpr _|f Hf].
  - rewrite Hc. tauto.
  - destruct judging; [by right|]. rewrite Hj. intros [? _]. left. split; [done|]. phases.
  - phases.
  - phases.
  - intros [_ Hu]. exfalso. phases.
  - cbn. tauto.
  - intros [_ Hu]. exfalso. phases.
  - rewrite Hpr. intros [? Hu']. exfalso. unfold is_unapproved in *. rewrite Hp in Hu'. congruence.
  - cbn. destruct (Hf (prep r)) as (_ & _ & _ & -> & _). tauto.
Qed.

Lemma row_step_new L i r r' : row_step L i r r' -> is_unapproved r' = true ->
  is_unapproved r = true /\ (all_new (life <$> targets r) -> all_new (life <$> targets r')).
Proof.
  intros Hstep Hu'. split.
  { destruct (is_unapproved r) eqn:E0; [done|]. rewrite (row_step_approved _ _ _ _ Hstep E0) in Hu'. done. }
  destruct Hstep as [? _ _ _ (l & Hl & ->) _ _|? ? _ _ _ -> _ _|? _|a _ ? _|a Hp ? _|h|to h Hu Hto Hw _|? _ Hu Hp _ _ Hpr _|f Hf]; try done.
  - intros H. by apply Forall_app.
  - phases.
  - unfold is_unapproved in *. rewrite Hp in Hu'. congruence.
Qed.

(** Families only come apart: a change of rows adds no parent but the new run's. *)
Lemma ancestor_mono L L' i j : (forall x y, parent L' x y -> parent L x y) -> ancestor L' i j -> ancestor L i j.
Proof. intros H. induction 1; [done|]. eapply rtc_l; eauto. Qed.
Lemma family_mono L L' i j : (forall x y, parent L' x y -> parent L x y) -> same_family L' i j -> same_family L i j.
Proof. intros H (k & H1 & H2). exists k. split; by eapply ancestor_mono. Qed.
Lemma same_family_sym L i j : same_family L i j -> same_family L j i.
Proof. intros (k & ? & ?). by exists k. Qed.

Lemma parent_row L L' i r r' : runs L !! i = Some r -> keeps r r' -> runs L' = <[i := r']> (runs L) -> forall x y, parent L' x y -> parent L x y.
Proof.
  intros Hi [_ Hs] HL x y (t & Ht & Hty). rewrite HL in Ht. destruct (decide (i = x)) as [->|Hne].
  - rewrite lookup_insert_eq in Ht. injection Ht as <-. exists r. split; congruence.
  - rewrite lookup_insert_ne in Ht by done. by exists t.
Qed.

Lemma orphan_same {A} (P : RunRow -> A) i r : (forall r, P (set_source None r) = P r) -> P (orphan i r) = P r.
Proof. intros H. unfold orphan. case_bool_decide; [apply H|done]. Qed.

Lemma lookup_delete_run i L k t : runs (delete_run i L) !! k = Some t <->
  k <> i /\ exists s, runs L !! k = Some s /\ t = orphan i s.
Proof.
  unfold delete_run, set_runs. cbn. rewrite lookup_fmap. destruct (decide (i = k)) as [->|Hne].
  - rewrite lookup_delete_eq. naive_solver.
  - rewrite lookup_delete_ne by done. destruct (runs L !! k); cbn; naive_solver.
Qed.

(** The ids a change may create. *)
Variable N : string -> Prop.
Inductive prim (L L' : Ledger) : Prop :=
| P_same : runs L' = runs L -> prim L L'
| P_new i r : N i -> runs L !! i = None -> is_unapproved r = true -> is_reading r = false -> cost_cap_usd (prep r) = None ->
    system_ok (target_system (head r)) -> all_new (life <$> targets r) ->
    (forall j s, runs L !! j = Some s -> rowid (head s) < rowid (head r)) ->
    (forall j, source_run_id r = Some j -> exists s, runs L !! j = Some s /\ is_unapproved s = false) ->
    runs L' = <[i := r]> (runs L) -> prim L L'
| P_gone i r : runs L !! i = Some r -> droppable r = true -> runs L' = runs (delete_run i L) -> prim L L'
| P_row i r r' : runs L !! i = Some r -> row_step L i r r' -> runs L' = <[i := r']> (runs L) -> prim L L'.

(** At most one run has a property. *)
Definition unique (P : RunRow -> bool) (L : Ledger) : Prop :=
  forall i j r s, runs L !! i = Some r -> runs L !! j = Some s -> P r = true -> P s = true -> i = j.

Lemma unique_insert P L L' i r : unique P L -> runs L' = <[i := r]> (runs L) ->
  (P r = true -> (exists r0, runs L !! i = Some r0 /\ P r0 = true) \/ forall j s, runs L !! j = Some s -> P s = true -> j = i) -> unique P L'.
Proof.
  intros Hu HL Hr. assert (forall j s, runs L !! j = Some s -> P s = true -> P r = true -> j = i) as Hother.
  { intros j s Hj Hs HP. destruct (Hr HP) as [(r0 & Hi & H0)|H]; [by eapply Hu|by eapply H]. }
  intros a b x y. rewrite HL, !lookup_insert_Some. intros [[<- <-]|[Ha Hx]] [[<- <-]|[Hb Hy]] Px Py; [done| | |by eapply Hu].
  - symmetry. by eapply Hother.
  - by eapply Hother.
Qed.

Lemma unique_delete P L L' i : unique P L -> (forall r, P (set_source None r) = P r) -> runs L' = runs (delete_run i L) -> unique P L'.
Proof.
  intros Hu HP HL a b x y. rewrite HL, !lookup_delete_run. intros (_ & s & Hs & ->) (_ & t & Ht & ->).
  rewrite !(orphan_same P) by done. by eapply Hu.
Qed.

Lemma ancestor_insert L L' i r a k : well_sourced L -> runs L !! i = None -> runs L' = <[i := r]> (runs L) -> a <> i ->
  ancestor L' a k -> ancestor L a k.
Proof.
  intros Hw Hi HL Ha H. revert Ha. induction H as [a|a y k (t & Ht & Hs) _ IH]; intros Ha; [done|].
  rewrite HL, lookup_insert_ne in Ht by done. eapply rtc_l; [by exists t|]. apply IH. intros ->.
  destruct (Hw _ _ _ Ht Hs) as (? & ? & _). congruence.
Qed.

Lemma parent_delete L L' i x y : runs L' = runs (delete_run i L) -> parent L' x y -> parent L x y.
Proof.
  intros HL (t & Ht & Hs). rewrite HL, lookup_delete_run in Ht. destruct Ht as (_ & s & Hx & ->).
  unfold orphan in Hs. case_bool_decide; [done|]. by exists s.
Qed.

Lemma sourced_row L L' i r r' : well_sourced L -> runs L !! i = Some r -> keeps r r' ->
  (is_unapproved r = false -> is_unapproved r' = false) -> runs L' = <[i := r']> (runs L) -> well_sourced L'.
Proof.
  intros Hw Hi [Hh Hs] Hu HL x t j Hx Hj.
  assert (exists t0, runs L !! x = Some t0 /\ source_run_id t0 = Some j /\ head t0 = head t) as (t0 & Hx0 & Hj0 & Hh0).
  { rewrite HL in Hx. destruct (decide (i = x)) as [->|Hne]; [rewrite lookup_insert_eq in Hx; injection Hx as <-; exists r|
      rewrite lookup_insert_ne in Hx by done; exists t]; split_and!; congruence. }
  destruct (Hw _ _ _ Hx0 Hj0) as (s & Hjs & Hlt & Hus). rewrite Hh0 in Hlt. rewrite HL.
  destruct (decide (i = j)) as [->|Hne]; [rewrite lookup_insert_eq; exists r'|rewrite lookup_insert_ne by done; by exists s].
  assert (s = r) as -> by congruence. split_and!; [done|by rewrite Hh|by apply Hu].
Qed.

Lemma sourced_prim L L' : prim L L' -> well_sourced L -> well_sourced L'.
Proof.
  destruct 1 as [HL|i r _ Hi _ _ _ _ _ Hid Hsrc HL|i r Hi _ HL|i r r' Hi Hstep HL]; intros Hw.
  - unfold well_sourced. by rewrite HL.
  - intros x t j Hx Hj. rewrite HL in Hx |- *. destruct (decide (i = x)) as [Heq|Hne].
    + subst x. rewrite lookup_insert_eq in Hx. injection Hx as ->. destruct (Hsrc j Hj) as (s & Hs & Hus). exists s.
      rewrite lookup_insert_ne by (intros ->; congruence). split_and!; [done|by eapply Hid|done].
    + rewrite lookup_insert_ne in Hx by done. destruct (Hw _ _ _ Hx Hj) as (s & Hs & Hlt). exists s.
      rewrite lookup_insert_ne by (intros ->; congruence). done.
  - intros x t j Hx Hj. rewrite HL, lookup_delete_run in Hx. destruct Hx as (Hne & s & Hs & ->).
    unfold orphan in Hj |- *. case_bool_decide as Hb; [done|]. destruct (Hw _ _ _ Hs Hj) as (u & Hu & Hlt & Huu).
    exists (orphan i u). rewrite HL, (orphan_same head), (orphan_same is_unapproved) by done. split; [|done].
    apply lookup_delete_run. split; [congruence|]. eauto.
  - eapply sourced_row; [done|done|by eapply row_step_keeps|by eapply row_step_approved|done].
Qed.

Lemma prim_well_formed L L' : prim L L' -> well_formed L -> well_formed L'.
Proof.
  intros Hp W. pose proof (sourced_prim _ _ Hp (wf_sources _ W)) as Hw'. destruct W as [Hw Hsys Hnew Hfam Hread Hjudge].
  destruct Hp as [HL|i r _ Hi Hu Hrd Hcost Hok Hall Hid Hsrc HL|i r Hi Hd HL|i r r' Hi Hstep HL].
  - split; try done; unfold same_family, ancestor; setoid_rewrite HL; try done.
    intros x y s t Hx Hy Hs Ht Hf. eapply Hfam; [exact Hx|exact Hy|done|done|]. eapply family_mono; [|exact Hf].
    intros a b (u & Hau & Hub). exists u. by rewrite <-HL.
  - assert (is_open r = false) as Ho. { unfold is_open. rewrite andb_false_iff, bool_decide_eq_false. left. phases. }
    assert (is_judged_open r = false) as Hj. { unfold is_judged_open. rewrite Hcost. by rewrite andb_false_r. }
    split; [done| | | | |].
    + intros x t. rewrite HL, lookup_insert_Some. intros [[<- <-]|[_ Hx]]; [done|by eapply Hsys].
    + intros x t. rewrite HL, lookup_insert_Some. intros [[<- <-]|[_ Hx]]; [done|by eapply Hnew].
    + intros x y s t. rewrite HL, !lookup_insert_Some. intros [[<- <-]|[Hx0 Hx]] [[<- <-]|[Hy0 Hy]] Hs Ht (k & H1 & H2); try congruence.
      eapply Hfam; [exact Hx|exact Hy|done|done|]. exists k. split; (eapply ancestor_insert; [done|exact Hi|exact HL| |done]); congruence.
    + eapply (unique_insert is_reading); [exact Hread|exact HL|congruence].
    + eapply (unique_insert is_judged_open); [exact Hjudge|exact HL|congruence].
  - split; [done| | | | |].
    + intros x t. rewrite HL, lookup_delete_run. intros (_ & s & Hs & ->). rewrite (orphan_same head) by done. by eapply Hsys.
    + intros x t. rewrite HL, lookup_delete_run. intros (_ & s & Hs & ->).
      rewrite (orphan_same is_unapproved), (orphan_same targets) by done. by eapply Hnew.
    + intros x y s t. rewrite HL, !lookup_delete_run. intros (_ & s' & Hs' & ->) (_ & t' & Ht' & ->) Hs Ht Hf.
      rewrite (orphan_same is_open) in Hs, Ht by done.
      eapply Hfam; [exact Hs'|exact Ht'|done|done|]. eapply family_mono; [|exact Hf]. intros ? ?. by apply (parent_delete L L' i).
    + by eapply (unique_delete is_reading).
    + by eapply (unique_delete is_judged_open).
  - pose proof (row_step_keeps _ _ _ _ Hstep) as Hk. split; [done| | | | |].
    + intros x t. rewrite HL, lookup_insert_Some. intros [[<- <-]|[_ Hx]]; [|by eapply Hsys]. destruct Hk as [-> _]. by eapply Hsys.
    + intros x t. rewrite HL, lookup_insert_Some. intros [[<- <-]|[_ Hx]] Hu; [|by eapply Hnew].
      destruct (row_step_new _ _ _ _ Hstep Hu) as [H1 H2]. by eapply H2, Hnew.
    + intros x y s t Hx Hy Hs Ht Hf. assert (same_family L x y) as Hf0.
      { eapply family_mono; [|exact Hf]. intros. by eapply parent_row. }
      rewrite HL, lookup_insert_Some in Hx, Hy. destruct Hx as [[<- <-]|[Hx0 Hx]], Hy as [[<- <-]|[Hy0 Hy]]; try done.
      * destruct (row_step_open _ _ _ _ Hstep Hs) as [Ho|Hno]; [by eapply Hfam|]. symmetry. by eapply Hno.
      * destruct (row_step_open _ _ _ _ Hstep Ht) as [Ho|Hno]; [by eapply Hfam|]. eapply Hno; [done|done|by apply same_family_sym].
      * by eapply Hfam.
    + eapply (unique_insert is_reading); [exact Hread|exact HL|]. intros H.
      destruct (row_step_reading _ _ _ _ Hstep (Hsys _ _ Hi) H); [left; eauto|by right].
    + eapply (unique_insert is_judged_open); [exact Hjudge|exact HL|]. intros H.
      destruct (row_step_judged _ _ _ _ Hstep H); [left; eauto|by right].
Qed.

Lemma prims_well_formed L L' : rtc prim L L' -> well_formed L -> well_formed L'.
Proof. induction 1; eauto using prim_well_formed. Qed.

(** ** The operations *)

(** A run the effect writes: it was approved. *)
Definition written_run (L : Ledger) (i : string) : Prop := forall r, runs L !! i = Some r -> is_unapproved r = false.
Definition fresh_run (L : Ledger) (o : Origin) : Prop := runs L !! new_id o = None.
Definition may_create (L : Ledger) : Prop := forall j, runs L !! j = None -> N j.

(** One call of an operation. A new run has a new id; the records of the writing are made for runs that
    were approved ([BulkApply]). *)
Inductive step (L : Ledger) : Ledger -> Prop :=
| s_dry o system scope ts coll once judge : fresh_run L o -> system ∈ ["workspace"; "data_store"]%string ->
    step L (recordDryRun E L o system scope ts coll once judge).1
| s_external live o host ts contract judge : fresh_run L o -> step L (recordExternalPlan E live L o host ts contract judge).1
| s_list live o host src contract judge : fresh_run L o -> step L (recordExternalListPlan E live L o host src contract judge).1
| s_takeListCall i max : step L (takeListCall L i max).1
| s_returnListCall i : step L (returnListCall L i)
| s_recordListPage i page items bytes last : step L (recordListPage E L i page items bytes last).1
| s_finishList i mint : step L (finishList E L i mint).1
| s_expireEndedPlanners own : step L (expireEndedPlanners L own)
| s_endIfPlannerEnded i own : step L (endIfPlannerEnded L i own).1
| s_haltDeadReads live only : step L (haltDeadReads live only L)
| s_recordRead i s read via x : step L (recordRead E L i s read via x).1
| s_recordReadFailure i s : step L (recordReadFailure L i s).1
| s_haltPreview i h : step L (haltPreview L i h)
| s_finishPreview i : step L (finishPreview L i).1
| s_setSelected i s selected c now : step L (setSelected E L i s selected c now).1
| s_approve i c by_ max unmeasured now : step L (approve E L i c by_ max unmeasured now).1
| s_resume i c max now : step L (resume E L i c max now).1
| s_planUndo o i : fresh_run L o -> step L (planUndo E L o i).1
| s_confirmProbe i by_ now : step L (confirmProbe E L i by_ now).1
| s_resumePreview live i o now : step L (resumePreview E live L i o now).1
| s_claimJudge i s token now stale : step L (claimJudge L i s token now stale).1
| s_releaseJudgeClaim i s token : step L (releaseJudgeClaim L i s token)
| s_addJudgeCost i usd : step L (addJudgeCost L i usd)
| s_settleJudgeCost i a b : step L (settleJudgeCost L i a b)
| s_recordJudgement i s token v now : step L (recordJudgement E L i s token v now).1
| s_finishJudge i : step L (finishJudge E L i).1
| s_expireStale now age : step L (expireStaleJudgedRuns L now age)
| s_claimTarget i s now : written_run L i -> step L (claimTarget L i s now).1
| s_markSent i s via : written_run L i -> step L (markSent L i s via)
| s_markRefused i s : written_run L i -> step L (markRefused L i s)
| s_releaseClaim i s : written_run L i -> step L (releaseClaim L i s)
| s_recordApplied i s res now actual via markup rewrote : written_run L i -> step L (recordApplied L i s res now actual via markup rewrote)
| s_recordFailed i s e via : written_run L i -> step L (recordFailed L i s e via)
| s_recordUnrecordedSettled i s now : written_run L i -> step L (recordUnrecordedSettled L i s now)
| s_recordRolledBack i s now : written_run L i -> step L (recordRolledBack L i s now)
| s_begin i : step L (setPhase L i [approved] writing None).1
| s_rolledBack i h : step L (setPhase L i [writing] aborted (Some h)).1
| s_halt i h : step L (halt L i h)
| s_finish i : step L (finish L i).

(** ** Operations as row changes *)

Lemma runs_update_run L i r f : runs L !! i = Some r -> runs (update_run i f L) = <[i := f r]> (runs L).
Proof.
  intros Hi. cbn. apply map_eq. intros k. destruct (decide (i = k)) as [->|Hne].
  - by rewrite lookup_alter_eq, lookup_insert_eq, Hi.
  - by rewrite lookup_alter_ne, lookup_insert_ne.
Qed.
Lemma runs_update_none L i f : runs L !! i = None -> runs (update_run i f L) = runs L.
Proof.
  intros Hi. cbn. apply map_eq. intros k. destruct (decide (i = k)) as [->|Hne].
  - by rewrite lookup_alter_eq, Hi.
  - by rewrite lookup_alter_ne.
Qed.

Lemma prim_update L L0 i f : runs L0 = runs L -> (forall r, runs L !! i = Some r -> row_step L i r (f r)) -> prim L (update_run i f L0).
Proof.
  intros HL H. destruct (runs L !! i) as [r|] eqn:Hi.
  - eapply P_row; [exact Hi|by apply H|]. rewrite (runs_update_run _ _ r); [by rewrite HL|by rewrite HL].
  - apply P_same. rewrite runs_update_none; [done|by rewrite HL].
Qed.

Lemma fmap_alter_same {A B} (g : A -> B) f s (l : list A) : (forall x, g (f x) = g x) -> g <$> alter f s l = g <$> l.
Proof. intros H. revert s. induction l as [|x l IH]; intros [|s]; csimpl; try done; f_equal; auto. Qed.

Lemma row_prepare L i r g : is_unapproved r = true -> life <$> g (targets r) = life <$> targets r -> row_step L i r (set_targets g r).
Proof.
  intros Hu Hl. apply R_prepare; try done. exists []. rewrite app_nil_r. split; [constructor|done].
Qed.
Lemma row_life L i r g : is_unapproved r = false -> plan <$> g (targets r) = plan <$> targets r -> row_step L i r (set_targets g r).
Proof. intros Hu Hp. by apply R_life. Qed.

Lemma prim_target_prepare L i s f : (forall r, runs L !! i = Some r -> is_unapproved r = true) -> (forall t, life (f t) = life t) ->
  prim L (update_target i s f L).
Proof.
  intros Hu Hf. apply prim_update; [done|]. intros r Hr. apply row_prepare; [by apply Hu|]. by apply fmap_alter_same.
Qed.
Lemma prim_target_life L i s f : written_run L i -> (forall t, plan (f t) = plan t) -> prim L (update_target i s f L).
Proof.
  intros Hu Hf. apply prim_update; [done|]. intros r Hr. apply row_life; [by apply Hu|]. by apply fmap_alter_same.
Qed.
(** What touches neither the plan nor the writing. *)
Lemma prim_target_other L i s f : (forall t, plan (f t) = plan t) -> (forall t, life (f t) = life t) -> prim L (update_target i s f L).
Proof.
  intros Hp Hl. apply prim_update; [done|]. intros r Hr. destruct (is_unapproved r) eqn:Hu.
  - apply row_prepare; [done|]. by apply fmap_alter_same.
  - apply row_life; [done|]. by apply fmap_alter_same.
Qed.

Lemma update_target_if_spec i s g f L :
  ((update_target_if i s g f L) = (L, false)) \/
  exists t, target_of L i s = Some t /\ g t = true /\ update_target_if i s g f L = (update_target i s f L, true).
Proof.
  unfold update_target_if. destruct (target_of L i s) as [t|] eqn:E0; [|by left]. destruct (g t) eqn:Eg; [|by left].
  right. by exists t.
Qed.

Lemma row_step_refl L i r : row_step L i r r.
Proof. assert (r = set_prep (fun p => p) r) as Hr by (by destruct r). rewrite Hr at 2. by apply R_cost. Qed.

Lemma noteConnection_prims L i s w via : rtc prim L (noteConnection i s w via L).
Proof.
  unfold noteConnection. destruct via as [v|]; [|done]. cbv zeta. eapply rtc_r; [|apply prim_update; [reflexivity|]]; [by apply rtc_once, prim_target_other|].
  intros r Hr. destruct (is_null (first_connection r)).
  - destruct (is_unapproved r) eqn:Hu; [apply R_prepare; try done; exists []; rewrite app_nil_r; split; [constructor|done]|by apply R_life].
  - by apply row_step_refl.
Qed.

Lemma update_written i f L : (forall r, is_unapproved r = false -> is_unapproved (f r) = false) -> written_run L i ->
  forall j, written_run L j -> written_run (update_run i f L) j.
Proof.
  intros Hf Hi j Hj r. cbn. destruct (decide (i = j)) as [->|Hne].
  - rewrite lookup_alter_eq. intros (r0 & H & ->)%fmap_Some. apply Hf. by apply Hj.
  - rewrite lookup_alter_ne by done. apply Hj.
Qed.
Lemma update_target_written i s f L j : written_run L j -> written_run (update_target i s f L) j.
Proof.
  intros Hj r. cbn. destruct (decide (i = j)) as [->|Hne].
  - rewrite lookup_alter_eq. intros (r0 & H & ->)%fmap_Some. by apply (Hj r0).
  - rewrite lookup_alter_ne by done. apply Hj.
Qed.
Lemma noteConnection_written L i s w via j : written_run L j -> written_run (noteConnection i s w via L) j.
Proof.
  intros Hj. unfold noteConnection. destruct via as [v|]; [|done]. intros r. cbn.
  destruct (decide (i = j)) as [->|Hne]; [|rewrite !lookup_alter_ne by done; apply Hj].
  rewrite !lookup_alter_eq, <-option_fmap_compose. intros (r0 & H & ->)%fmap_Some. cbn.
  destruct (is_null _); by apply (Hj r0).
Qed.

(** A call of the trigger table changes no row. *)
Lemma call_prims L L' c : rtc prim L L' -> rtc prim L (call_trigger c L').
Proof. intros H. eapply rtc_r; [exact H|]. by apply P_same. Qed.

(** ** Planning, reading and judging *)

Lemma next_rowid_above L i r : runs L !! i = Some r -> rowid (head r) < next_rowid L.
Proof.
  unfold next_rowid. revert i r. apply (map_fold_weak_ind (fun n m => forall i r, m !! i = Some r -> rowid (head r) < 1 + n)); [done|].
  intros i x m n Hi IH j r. rewrite lookup_insert_Some. intros [[-> ->]|[_ Hj]]; [lia|]. specialize (IH j r Hj). lia.
Qed.

Lemma droppable_set_source r : droppable (set_source None r) = droppable r.
Proof. done. Qed.

Lemma drop_run_prim L i : well_sourced L -> (forall r, runs L !! i = Some r -> droppable r = true) -> rtc prim L (drop_run L i).
Proof.
  intros Hw Hd. unfold drop_run. eapply rtc_l; [by apply P_same|]. apply rtc_once.
  destruct (runs L !! i) as [r|] eqn:Hi; [by eapply P_gone; [|apply Hd|]|]. apply P_same. cbn. apply map_eq. intros k.
  rewrite lookup_fmap. destruct (decide (i = k)) as [->|Hne]; [by rewrite lookup_delete_eq, Hi|]. rewrite lookup_delete_ne by done.
  destruct (runs L !! k) as [t|] eqn:Hk; [|done]. cbn. f_equal. unfold orphan. case_bool_decide as Hs; [|done].
  destruct (Hw _ _ _ Hk Hs) as (? & ? & _). congruence.
Qed.

Lemma drop_runs_prims l L : well_sourced L -> (forall i r, i ∈ l -> runs L !! i = Some r -> droppable r = true) -> rtc prim L (foldl drop_run L l).
Proof.
  revert L. induction l as [|i l IH]; intros L Hw Hd; [done|]. cbn [foldl].
  assert (rtc prim L (drop_run L i)) as H1. { apply drop_run_prim; [done|]. intros r. apply Hd. left. }
  etrans; [exact H1|]. apply IH.
  - clear -H1 Hw. induction H1; [done|]. apply IHrtc. by eapply sourced_prim.
  - intros j r Hj Hr. unfold drop_run in Hr. rewrite lookup_delete_run in Hr. destruct Hr as (_ & s & Hs & ->).
    rewrite (orphan_same droppable) by done. eapply Hd; [by right|exact Hs].
Qed.

Lemma prims_sourced L L' : rtc prim L L' -> well_sourced L -> well_sourced L'.
Proof. induction 1; eauto using sourced_prim. Qed.

Lemma prune_prims L p own new : well_sourced L -> rtc prim L (pruneUnapproved L p own new).
Proof.
  intros Hw. apply drop_runs_prims; [done|]. intros i r Hi Hr.
  assert (prunable r = true) as Hp; [|unfold droppable; by rewrite Hp].
  unfold doomed in Hi. destruct (isOwnerPrincipal p); [|destruct (own <=? 0); [by apply elem_of_nil in Hi|]];
    apply elem_of_take in Hi as (k & Hk & _); apply list_elem_of_lookup_2, elem_of_select_runs in Hk as (r' & Hr' & HP).
  - congruence.
  - rewrite !andb_true_iff in HP. assert (r' = r) as -> by congruence. tauto.
Qed.

Lemma new_life ts : (forall t : Target, t ∈ ts -> life t = no_life) -> all_new (life <$> ts).
Proof. intros H. apply Forall_fmap, Forall_forall. exact H. Qed.
Lemma dry_target_new judged p : life (dry_target E judged p) = no_life.
Proof. by destruct p. Qed.
Lemma external_target_new p : life (external_target p) = no_life.
Proof. by destruct p. Qed.

(** A recorded run and the runs dropped for it. *)
Lemma record_prims L o k system coll once judge src p ph h ts own new :
  well_sourced L -> N (new_id o) -> fresh_run L o -> system_ok system -> ph ∈ [planned; previewed] -> (ph = planned -> h <> None) ->
  cost_cap_usd p = None -> all_new (life <$> ts) ->
  rtc prim L (pruneUnapproved (insert_run (new_id o) (new_run (new_head E L o k system coll once judge src) None p ph h ts) L) (by_principal o) own new).
Proof.
  intros Hw HN Hf Hok Hph Hh Hc Hl.
  set (r := new_run _ _ _ _ _ _).
  assert (prim L (insert_run (new_id o) r L)) as Hp.
  { apply (P_new _ _ (new_id o) r); try done.
    - unfold is_unapproved. cbn. by apply bool_decide_eq_true.
    - unfold is_reading, is_preparing. cbn. case_bool_decide as Hpl; [|done]. destruct h; [done|]. by destruct (Hh Hpl).
    - intros j s. apply next_rowid_above. }
  eapply rtc_l; [exact Hp|]. apply prune_prims. by eapply sourced_prim.
Qed.

Lemma halt_reads_prims L live only : rtc prim L (haltDeadReads live only L).
Proof.
  unfold haltDeadReads. generalize (deadReads live only L) as l. intros l. revert L. induction l as [|i l IH]; intros L; [done|].
  cbn [foldl]. eapply rtc_l; [|apply IH]. apply prim_update; [done|]. intros r _. apply R_halt.
Qed.

Lemma preparing_unapproved r : is_preparing r = true -> is_unapproved r = true.
Proof. unfold is_preparing. rewrite andb_true_iff. intros [H _]. phases. Qed.

Lemma if_prims L i s g f (L' := (update_target_if i s g f L).1) :
  (forall t, target_of L i s = Some t -> g t = true -> prim L (update_target i s f L)) -> rtc prim L L'.
Proof.
  intros H. unfold L'. destruct (update_target_if_spec i s g f L) as [->|(t & Ht & Hg & ->)]; [done|]. apply rtc_once. by eapply H.
Qed.
Lemma if_prims_prepare L i s g f : (forall t, g t = true -> forall r, runs L !! i = Some r -> is_unapproved r = true) ->
  (forall t, life (f t) = life t) -> rtc prim L (update_target_if i s g f L).1.
Proof. intros Hg Hf. apply if_prims. intros t _ Ht. apply prim_target_prepare; [by eapply Hg|done]. Qed.
Lemma if_prims_life L i s g f : written_run L i -> (forall t, plan (f t) = plan t) -> rtc prim L (update_target_if i s g f L).1.
Proof. intros Hw Hf. apply if_prims. intros t _ _. by apply prim_target_life. Qed.
Lemma if_prims_other L i s g f : (forall t, plan (f t) = plan t) -> (forall t, life (f t) = life t) -> rtc prim L (update_target_if i s g f L).1.
Proof. intros Hp Hl. apply if_prims. intros t _ _. by apply prim_target_other. Qed.

Lemma preparing_of L i b : match runs L !! i with Some r => is_preparing r | None => b end = true ->
  forall r, runs L !! i = Some r -> is_unapproved r = true.
Proof. intros H r Hr. rewrite Hr in H. by apply preparing_unapproved. Qed.

(** A change of the preparation and the phase of a run that stays unapproved. *)
Lemma prim_prepare L i f : (forall r, runs L !! i = Some r -> is_unapproved r = true /\ keeps r (f r) /\ is_unapproved (f r) = true /\
    targets (f r) = targets r /\ (is_reading (f r) = true -> is_reading r = true) /\ cost_cap_usd (prep (f r)) = cost_cap_usd (prep r)) ->
  prim L (update_run i f L).
Proof.
  intros H. apply prim_update; [done|]. intros r Hr. destruct (H r Hr) as (Hu & Hk & Hu' & Ht & Hrd & Hc).
  apply R_prepare; try done. exists []. rewrite app_nil_r, Ht. split; [constructor|done].
Qed.
Lemma prim_cost L i f : (forall p, same_rule p (f p)) -> prim L (update_run i (set_prep f) L).
Proof. intros H. apply prim_update; [done|]. intros r _. by apply R_cost. Qed.

Lemma list_prims L i page items bytes last : rtc prim L (recordListPage E L i page items bytes last).1.
Proof.
  unfold recordListPage. destruct (runs L !! i) as [r|] eqn:Hi; [|done]. destruct (list_source (head r)) as [src|]; [|done].
  destruct (is_listing r && _) eqn:Hl; [|done]. cbv zeta. destruct (_ || _); [done|]. cbn [fst]. apply rtc_once, prim_update; [done|].
  intros r' Hr'. assert (r' = r) as -> by congruence. rewrite !andb_true_iff in Hl. destruct Hl as [[Hp _]%andb_true_iff _].
  apply preparing_unapproved in Hp. apply R_prepare; try done. cbn. rewrite fmap_app. eexists. split; [|done].
  apply new_life. intros t (x & -> & _)%list_elem_of_fmap. destruct x as [k [reason|]]; done.
Qed.

Lemma finishList_prims L i mint : rtc prim L (finishList E L i mint).1.
Proof.
  unfold finishList. destruct (runs L !! i) as [r|] eqn:Hi; [|done]. destruct (externalHostOf _); [|done].
  destruct (is_listing r) eqn:Hl; [|done]. cbn [fst]. apply rtc_once, prim_prepare. intros r' Hr'. assert (r' = r) as -> by congruence.
  apply andb_true_iff in Hl as [Hp%preparing_unapproved _].
  match goal with |- context [if ?b then previewed else planned] => destruct b end; done.
Qed.

Lemma endRun_prims L i : rtc prim L (endRun L i).1.
Proof.
  unfold endRun. destruct (runs L !! i) as [r|] eqn:Hi; [|done]. destruct (is_unapproved r) eqn:Hu; [|done]. cbn [fst].
  apply call_prims, rtc_once, prim_update; [done|]. intros r' Hr'. assert (r' = r) as -> by congruence. by apply R_end.
Qed.
Lemma expirePlanners_prims L own : rtc prim L (expireEndedPlanners L own).
Proof.
  unfold expireEndedPlanners. generalize (map_to_list (runs L)) as l. intros l. revert L. induction l as [|x l IH]; intros L; [done|].
  cbn [foldl]. etrans; [|apply IH]. destruct (_ && _ && _); [apply endRun_prims|done].
Qed.
Lemma endIfPlannerEnded_prims L i own : rtc prim L (endIfPlannerEnded L i own).1.
Proof.
  unfold endIfPlannerEnded. destruct (runs L !! i) as [r|]; [|done]. destruct (negb _); [done|]. destruct (_ && _); [done|apply endRun_prims].
Qed.

Lemma unread_unapproved L i t : unread_in L i t = true -> forall r, runs L !! i = Some r -> is_unapproved r = true.
Proof. unfold unread_in. intros [_ H]%andb_true_iff. by eapply preparing_of. Qed.

Lemma recordRead_prims L i s read via x : rtc prim L (recordRead E L i s read via x).1.
Proof.
  unfold recordRead. destruct read as [value|reason domain].
  - destruct (target_of L i s) as [t|]; [|done]. destruct (after_planned (plan t)) as [held|]; [|done]. cbv zeta.
    match goal with |- context [update_target_if i s ?g ?f L] => pose proof (if_prims_prepare L i s g f (unread_unapproved L i) ltac:(done)) as H;
      destruct (update_target_if i s g f L) as [L' ok] end. cbn [fst] in H. destruct ok; cbn [fst]; [|done]. etrans; [exact H|apply noteConnection_prims].
  - apply if_prims_prepare; [apply unread_unapproved|done].
Qed.
Lemma recordReadFailure_prims L i s : rtc prim L (recordReadFailure L i s).1.
Proof.
  unfold recordReadFailure. destruct (target_of L i s) as [t|]; [|done]. destruct (unread_in L i t) eqn:Hu; [|done]. cbn [negb].
  pose proof (unread_unapproved L i t Hu). destruct (is_null (error t)); cbn [fst]; apply rtc_once; by apply prim_target_prepare.
Qed.
Lemma haltPreview_prims L i h : rtc prim L (haltPreview L i h).
Proof.
  apply rtc_once, prim_update; [done|]. intros r _. destruct (is_preparing r); [apply R_halt|apply row_step_refl].
Qed.
Lemma finishPreview_prims L i : rtc prim L (finishPreview L i).1.
Proof.
  unfold finishPreview. destruct (runs L !! i) as [r|] eqn:Hi; [|done]. destruct (_ && _) eqn:Hg; [|done]. cbn [fst].
  rewrite !andb_true_iff in Hg. destruct Hg as [[[_ Hp%preparing_unapproved] _] _].
  apply rtc_once, prim_prepare. intros r' Hr'. assert (r' = r) as -> by congruence. done.
Qed.
Lemma finishJudge_prims L i : rtc prim L (finishJudge E L i).1.
Proof.
  unfold finishJudge. destruct (runs L !! i) as [r|] eqn:Hi; [|done]. destruct (_ && _) eqn:Hg; [|done]. cbn [fst].
  rewrite !andb_true_iff in Hg. destruct Hg as [[[Hp%preparing_unapproved _] _] _].
  apply rtc_once, prim_prepare. intros r' Hr'. assert (r' = r) as -> by congruence. done.
Qed.
Lemma claimJudge_prims L i s token now stale : rtc prim L (claimJudge L i s token now stale).1.
Proof. by apply if_prims_other. Qed.
Lemma recordJudgement_prims L i s token v now : rtc prim L (recordJudgement E L i s token v now).1.
Proof.
  assert (forall t, judged_under L i token t = true -> forall r, runs L !! i = Some r -> is_unapproved r = true) as Hg.
  { intros t H r Hr. unfold judged_under in H. rewrite Hr, andb_true_iff in H. destruct H as [_ H]. phases. }
  unfold recordJudgement. destruct v as [value|reason refused fld domain].
  - destruct (_ ≫= _); [|done]. by apply if_prims_prepare.
  - by apply if_prims_prepare.
Qed.
Lemma expireStale_prims L now age : well_sourced L -> rtc prim L (expireStaleJudgedRuns L now age).
Proof.
  unfold expireStaleJudgedRuns. generalize (select_runs (fun _ r => negb (is_null (judge_rule (head r))) && negb (is_null (cost_cap_usd (prep r))) &&
    unapproved_judged r && match judge_started_at (prep r) with Some t => t <? now - age | None => false end) L) as l.
  intros l. revert L. induction l as [|i l IH]; intros L Hw; [done|]. cbn [foldl].
  match goal with |- rtc prim L (foldl _ ?L1 _) => assert (rtc prim L L1) as H end; [|etrans; [exact H|]; apply IH; by eapply prims_sourced].
  cbn [runs call_trigger]. destruct (runs L !! i) as [r|] eqn:Hi; [|apply rtc_once; by apply P_same].
  destruct (unapproved_judged r) eqn:Hu; [|apply rtc_once; by apply P_same]. eapply rtc_l; [by apply P_same|].
  apply rtc_once, (P_gone _ _ i r); [done|unfold droppable; rewrite Hu; by rewrite orb_true_r|done].
Qed.

(** ** Selecting, approving, resuming *)

Lemma setSelected_prims L i s selected c now : rtc prim L (setSelected E L i s selected c now).1.
Proof.
  unfold setSelected. destruct (runs L !! i) as [r|] eqn:Hi; [|done]. case_bool_decide as Hp; [|done]. cbn [negb].
  destruct (_ && _); [done|]. destruct (negb _); [done|].
  assert (forall r0, runs L !! i = Some r0 -> is_unapproved r0 = true) as Hu. { intros r0 Hr0. assert (r0 = r) as -> by congruence. phases. }
  match goal with |- context [let '(L', moved) := ?e in _] => assert (rtc prim L e.1) as H; [|destruct e as [L' []]; exact H] end.
  destruct selected; by apply if_prims_prepare.
Qed.

Lemma writeBlocked_None L i r : well_sourced L -> writeBlocked L i r = None -> no_other_open L i.
Proof.
  unfold writeBlocked. intros Hw. destruct (openInFamily L i (Some i)) eqn:Ho; [done|]. intros _ j s Hj Hs Hf.
  pose proof (openInFamily_None L i (Some i) Hw Ho j s Hj Hs Hf). congruence.
Qed.

Lemma approve_cases L i c by_ max unmeasured now : well_sourced L ->
  (approve E L i c by_ max unmeasured now).1 = L /\ (forall t, (approve E L i c by_ max unmeasured now).2 <> ApproveOk t) \/
  exists r a, runs L !! i = Some r /\ phase r = previewed /\ no_other_open L i /\ approval_checksum a = Some c /\
    c = keyedHash E (checksum_parts E r) /\
    runs (approve E L i c by_ max unmeasured now).1 = <[i := set_approval a (set_phase approved None r)]> (runs L).
Proof.
  intros Hw. unfold approve. destruct (runs L !! i) as [r|] eqn:Hi; [|by left]. cbv zeta.
  case_bool_decide as Hp; [|by left]. cbn [negb orb]. case_bool_decide; [by left|]. destruct (isShopifyRunSwitchedOff _ _ _); [by left|].
  destruct (contractWritesMail _ _ _); [by left|]. case_bool_decide as Hc; [|by left]. cbn [negb]. destruct (_ && _ && _); [by left|].
  destruct (_ =? 0); [by left|]. destruct (good_max _ _) as [m|]; [|by left]. destruct (_ && _); [by left|]. destruct (_ && _); [by left|].
  destruct (writeBlocked L i r) eqn:Hb; [by left|]. right.
  exists r, {| approved_by := by_; approved_at := Some now; approval_checksum := Some c; max_targets := Some m; expires_at := Some (approvalWindow (countWriting r) now) |}.
  cbn [fst].
  split_and!; [done|done|by eapply writeBlocked_None|done| |cbn [runs call_trigger]; by rewrite (runs_update_run _ _ r)].
  unfold computeChecksum in Hc. rewrite Hi in Hc. by injection Hc.
Qed.

Lemma approve_prims L i c by_ max unmeasured now : well_sourced L -> rtc prim L (approve E L i c by_ max unmeasured now).1.
Proof.
  intros Hw. destruct (approve_cases L i c by_ max unmeasured now Hw) as [[-> _]|(r & a & Hi & Hp & Hno & Ha & Hc & HL)]; [done|].
  apply rtc_once. eapply P_row; [exact Hi| |exact HL]. apply R_approve; [done|done|congruence].
Qed.

Lemma resume_prims L i c max now : well_sourced L -> rtc prim L (resume E L i c max now).1.
Proof.
  intros Hw. unfold resume. destruct (runs L !! i) as [r|] eqn:Hi; [|done]. cbv zeta.
  case_bool_decide as Hp; [|done]. cbn [negb]. destruct (isShopifyRunSwitchedOff _ _ _); [done|].
  destruct (contractWritesMail _ _ _); [done|]. destruct (negb _) eqn:Hc; [done|]. 
  match goal with |- context [match ?o with Some _ => _ | None => (_, ResumeBadMaxTargets) end] => destruct o as [m|]; [|done] end.
  match goal with |- context [if ?b then (_, ResumeProbeRequired _) else _] => destruct b; [done|] end.
  destruct (writeBlocked L i r) eqn:Hb; [done|]. cbn [fst].
  apply call_prims, rtc_once, prim_update; [done|]. intros r' Hr'. assert (r' = r) as -> by congruence. apply R_resume; [done|by eapply writeBlocked_None|done].
Qed.

(** ** Starting a read or a judge, planning an undo *)

Lemma halt_reads_row L live only i r : runs L !! i = Some r ->
  exists r', runs (haltDeadReads live only L) !! i = Some r' /\ head r' = head r /\ phase r' = phase r.
Proof.
  unfold haltDeadReads. generalize (deadReads live only L) as l. intros l. revert L r. induction l as [|j l IH]; intros L r Hi; [eauto|].
  cbn [foldl]. destruct (decide (j = i)) as [->|Hne].
  - destruct (IH (update_run i (fun r => set_phase (phase r) (Some h_unavailable) r) L) (set_phase (phase r) (Some h_unavailable) r)) as (r' & ? & ? & ?).
    + cbn. by rewrite lookup_alter_eq, Hi.
    + exists r'. done.
  - apply IH. cbn. by rewrite lookup_alter_ne.
Qed.

Lemma halt_reads_back L live only i r' : runs (haltDeadReads live only L) !! i = Some r' -> exists r, runs L !! i = Some r /\ phase r' = phase r.
Proof.
  intros H. destruct (runs L !! i) as [r|] eqn:Hi.
  - destruct (halt_reads_row L live only i r Hi) as (r0 & H0 & _ & Hp). exists r. split; [done|]. congruence.
  - exfalso. revert H. unfold haltDeadReads. generalize (deadReads live only L) as l. intros l. revert L Hi. induction l as [|j l IH]; intros L Hi; [cbn; congruence|].
    cbn [foldl]. apply IH. cbn. destruct (decide (j = i)) as [->|Hne]; [by rewrite lookup_alter_eq, Hi|by rewrite lookup_alter_ne].
Qed.

Lemma preview_guards_planned L i r o x : preview_guards E L i r o = Ok x -> phase r = planned.
Proof. unfold preview_guards. cbv zeta. case_bool_decide as Hp; [done|]. done. Qed.

Lemma start_prims L i r0 o r judging startList frozen now : well_formed L -> runs L !! i = Some r0 -> head r0 = head r -> phase r0 = planned ->
  rtc prim L (preview_start L i r o judging startList frozen now).1.
Proof.
  intros W Hi Hh Hp. unfold preview_start. cbv zeta.
  destruct (startsWith (target_system (head r)) "http:" && _) eqn:Hbusy; [done|].
  assert (is_external r0 = true -> forall j s, runs L !! j = Some s -> is_reading s = true -> j = i) as Hread.
  { intros Hext j s Hj Hs. unfold is_external, externalHostOf in Hext. rewrite Hh in Hext. destruct (startsWith _ _); [|done]. cbn in Hbusy.
    apply negb_false_iff, bool_decide_eq_true in Hbusy. destruct (decide (j = i)) as [|Hne]; [done|]. exfalso.
    assert (j ∈ select_runs (fun j r => is_reading r && negb (bool_decide (j = i))) L) as Hin; [|rewrite Hbusy in Hin; by apply elem_of_nil in Hin].
    apply elem_of_select_runs. exists s. by rewrite Hs, bool_decide_eq_false_2. }
  destruct judging.
  2: { cbn [negb fst]. apply call_prims, rtc_once, prim_update; [done|]. intros r' Hr'. assert (r' = r0) as -> by congruence.
       by apply (R_start _ _ _ _ false). }
  cbn [negb]. destruct (select_runs (fun j r => is_judged_open r && negb (bool_decide (j = i))) L) as [|j l] eqn:Hsel.
  { cbn [fst]. apply call_prims, rtc_once, prim_update; [done|]. intros r' Hr'. assert (r' = r0) as -> by congruence.
    apply (R_start _ _ _ _ true); try done. intros j s Hj Hs. destruct (decide (j = i)) as [|Hne]; [done|]. exfalso.
    assert (j ∈ select_runs (fun j r => is_judged_open r && negb (bool_decide (j = i))) L) as Hin; [|rewrite Hsel in Hin; by apply elem_of_nil in Hin].
    apply elem_of_select_runs. exists s. by rewrite Hs, bool_decide_eq_false_2. }
  assert (exists other, runs L !! j = Some other /\ is_judged_open other = true /\ j <> i) as (other & Hj & Hjo & Hji).
  { assert (j ∈ select_runs (fun j r => is_judged_open r && negb (bool_decide (j = i))) L) as Hin by (rewrite Hsel; left).
    apply elem_of_select_runs in Hin as (s & Hs & [H1 H2]%andb_true_iff). exists s. split_and!; [done|done|]. intros ->.
    by rewrite bool_decide_eq_true_2 in H2. }
  rewrite Hj. match goal with |- context [if ?b then (_, PreviewSupersede _ _) else _] => destruct b; [done|] end. cbn [fst].
  set (L1 := call_trigger (Remove (bulkPreviewTriggerId j)) (update_run j (set_phase aborted (Some h_superseded)) L)).
  assert (runs L1 = <[j := set_phase aborted (Some h_superseded) other]> (runs L)) as HL1 by (by apply runs_update_run).
  assert (rtc prim L L1) as H1.
  { apply call_prims, rtc_once, prim_update; [done|]. intros r' Hr'. assert (r' = other) as -> by congruence. apply R_end.
    unfold is_judged_open in Hjo. by apply andb_true_iff in Hjo as [_ ?]. }
  etrans; [exact H1|]. apply call_prims, rtc_once, prim_update; [done|]. intros r' Hr'. fold L1 in Hr'. rewrite HL1, lookup_insert_ne in Hr' by done.
  assert (r' = r0) as -> by congruence. apply (R_start _ _ _ _ true); try done; fold L1.
  - intros Hext k s. rewrite HL1, lookup_insert_Some. intros [[<- <-]|[_ Hk]]; [by unfold is_reading, is_preparing|by apply Hread].
  - intros k s. rewrite HL1, lookup_insert_Some. intros [[<- <-]|[Hkj Hk]] Hs.
    + revert Hs. unfold is_judged_open, is_unapproved. cbn. by rewrite andb_false_r.
    + destruct Hkj. symmetry. by apply (wf_judged L W k j s other).
Qed.

Lemma resumePreview_prims live L i o now : well_formed L -> rtc prim L (resumePreview E live L i o now).1.
Proof.
  intros W. unfold resumePreview. cbv zeta. set (L1 := haltDeadReads live (Some i) L).
  assert (rtc prim L L1) as H1 by apply halt_reads_prims. pose proof (prims_well_formed _ _ H1 W) as W1.
  etrans; [exact H1|]. clearbody L1. clear H1 W L. destruct (runs L1 !! i) as [r|] eqn:Hi; [|done].
  destruct (preview_guards E L1 i r o) as [[judging startList]|e] eqn:Hg; [|done]. cbn [fst snd].
  match goal with |- context [if ?b then (_, PreviewDomainsFrozen) else _] => destruct b; [done|] end.
  etrans; [apply (halt_reads_prims L1 live None)|]. destruct (halt_reads_row L1 live None i r Hi) as (r0 & H0 & Hh & Hp).
  eapply start_prims; [eapply prims_well_formed; [apply halt_reads_prims|done]|exact H0|done|].
  rewrite Hp. by eapply preview_guards_planned.
Qed.

Lemma stopped_approved r : isStopped r = true -> is_unapproved r = false.
Proof. unfold isStopped. rewrite !orb_true_iff, andb_true_iff, !bool_decide_eq_true. intros H. phases. Qed.

Lemma planUndo_prims L o i : well_formed L -> N (new_id o) -> fresh_run L o -> rtc prim L (planUndo E L o i).1.
Proof.
  intros W HN Hf. unfold planUndo. destruct (runs L !! i) as [src|] eqn:Hi; [|done]. cbv zeta.
  destruct (contractWritesMail _ _ _); [done|]. destruct (isStopped src) eqn:Hs; [|done]. cbn [negb].
  destruct (negb (is_null _)); [done|]. destruct (_ && (_ || _)); [done|]. case_bool_decide; [done|]. cbn [fst].
  match goal with |- rtc prim L (pruneUnapproved (insert_run ?n ?r L) _ _ _) => set (x := r) end.
  assert (prim L (insert_run (new_id o) x L)) as Hp.
  { apply (P_new _ _ (new_id o) x); try done.
    - by apply (wf_systems L W i src).
    - apply new_life. cbn. intros t ([u t'] & -> & Ht)%list_elem_of_fmap. cbn. apply list_elem_of_omap in Ht as ([s t0] & _ & Ht).
      unfold undo_target in Ht. destruct (toApplyTarget _ _); [|done]. cbn in Ht. injection Ht as _ <-. by destruct (_ && _).
    - intros j s. apply next_rowid_above.
    - intros j [= <-]. exists src. split; [done|by apply stopped_approved]. }
  eapply rtc_l; [exact Hp|]. apply prune_prims. eapply sourced_prim; [exact Hp|]. apply W.
Qed.

(** ** Writing *)

Lemma source_written L i s j n : well_sourced L -> source_target L i s = Some (j, n) -> written_run L j.
Proof.
  intros Hw. unfold source_target. destruct (runs L !! i) as [r|] eqn:Hi; [|done]. case_bool_decide; [|done].
  destruct (source_run_id r) as [j'|] eqn:Hs; [|done]. destruct (_ ≫= _); [|done]. intros [= <- <-] t Ht.
  destruct (Hw _ _ _ Hi Hs) as (? & Hj & _ & ?). congruence.
Qed.

Lemma mark_source_prims L L' i s at_ : well_sourced L -> (forall j, written_run L j -> written_run L' j) ->
  rtc prim L L' -> rtc prim L (mark_source L i s at_ L').
Proof.
  intros Hw Hmono H. unfold mark_source. destruct (source_target L i s) as [[j n]|] eqn:Hs; [|done].
  eapply rtc_r; [exact H|]. apply prim_target_life; [|done]. apply Hmono. by eapply source_written.
Qed.

Lemma if_written i s g f L j : written_run L j -> written_run (update_target_if i s g f L).1 j.
Proof.
  intros Hj. destruct (update_target_if_spec i s g f L) as [->|(t & _ & _ & ->)]; [done|]. by apply update_target_written.
Qed.

Lemma counts_written i L a b c j : written_run L i -> written_run L j -> written_run (update_run i (fun r => set_counts (a r) (b r) (c r) r) L) j.
Proof. intros Hi Hj. by apply update_written. Qed.

Lemma prim_counts L i a b c : written_run L i -> prim L (update_run i (fun r => set_counts (a r) (b r) (c r) r) L).
Proof. intros Hi. apply prim_update; [done|]. intros r Hr. apply R_life; try done. by apply Hi. Qed.

Lemma recordApplied_prims L i s res now actual via markup rewrote : well_sourced L -> written_run L i ->
  rtc prim L (recordApplied L i s res now actual via markup rewrote).
Proof.
  intros Hw Hi. unfold recordApplied.
  pose proof (if_prims_life L i s (fun t => is_null (applied_at (life t))) (set_life (set_applied now res actual markup rewrote)) Hi ltac:(done)) as H1.
  pose proof (fun j => if_written i s (fun t => is_null (applied_at (life t))) (set_life (set_applied now res actual markup rewrote)) L j) as Hm1.
  destruct (update_target_if i s _ _ L) as [L1 moved]. cbn [fst] in *. destruct moved; [|done]. cbn [negb].
  set (L2 := noteConnection i s true via L1).
  assert (rtc prim L L2) as H2 by (etrans; [exact H1|apply noteConnection_prims]).
  assert (forall j, written_run L j -> written_run L2 j) as Hm2 by (intros j Hj; by apply noteConnection_written, Hm1).
  match goal with |- rtc prim L (mark_source _ _ _ _ (update_run _ _ ?x)) => set (L3 := x) end.
  assert (rtc prim L L3 /\ forall j, written_run L j -> written_run L3 j) as [H3 Hm3].
  { unfold L3. case_bool_decide; [|done]. split; [etrans; [exact H2|]; apply if_prims_life; [by apply Hm2|done]|].
    intros j Hj. by apply if_written, Hm2. }
  apply mark_source_prims; [done| |].
  - intros j Hj. apply (counts_written i L3); by apply Hm3.
  - eapply rtc_r; [exact H3|]. apply (prim_counts L3 i). by apply Hm3.
Qed.

Lemma markSent_prims L i s via : written_run L i -> rtc prim L (markSent L i s via).
Proof.
  intros Hi. unfold markSent. eapply rtc_r; [apply (noteConnection_prims L i s true via)|]. apply prim_target_life; [|done].
  by apply noteConnection_written.
Qed.

Lemma recordFailed_prims L i s e via : written_run L i -> rtc prim L (recordFailed L i s e via).
Proof.
  intros Hi. unfold recordFailed. set (counted := negb (bool_decide (e ∈ NOT_FAILURES))).
  match goal with |- context [update_target_if i s ?g ?f L] => pose proof (if_prims_life L i s g f Hi ltac:(done)) as H1;
    pose proof (if_written i s g f L i Hi) as Hm; destruct (update_target_if i s g f L) as [L1 moved] end. cbn [fst] in *.
  destruct moved; [|done]. cbn [negb].
  assert (rtc prim L (noteConnection i s true via L1)) as H2 by (etrans; [exact H1|apply noteConnection_prims]).
  destruct counted; [|done]. eapply rtc_r; [exact H2|]. apply prim_counts. by apply noteConnection_written.
Qed.

Lemma recordRolledBack_prims L i s now : well_sourced L -> written_run L i -> rtc prim L (recordRolledBack L i s now).
Proof.
  intros Hw Hi. unfold recordRolledBack. apply mark_source_prims; [done|intros j Hj; by apply if_written|by apply if_prims_life].
Qed.

Lemma setPhase_prims L i from to h : from <> [] -> (forall p, p ∈ from -> p ∈ [approved; writing; finished; aborted]) ->
  to ∈ [writing; finished; aborted; undone] -> (to = writing -> from = [approved]) -> rtc prim L (setPhase L i from to h).1.
Proof.
  intros _ Hfrom Hto Hw. unfold setPhase. destruct (runs L !! i) as [r|] eqn:Hi; [|done]. case_bool_decide as Hp; [|done]. cbn [fst].
  apply rtc_once, prim_update; [done|]. intros r' Hr'. assert (r' = r) as -> by congruence. specialize (Hfrom _ Hp).
  apply R_phase; [|done| |by destruct h].
  - unfold is_unapproved. apply bool_decide_eq_false. phases.
  - intros ->. rewrite (Hw eq_refl) in Hp. phases.
Qed.

Lemma finish_prims L i : rtc prim L (finish L i).
Proof.
  unfold finish. assert (rtc prim L (setPhase L i [writing] finished None).1) as H1.
  { apply setPhase_prims; [done| | |done]; set_solver. }
  set (L1 := (setPhase L i [writing] finished None).1) in *. destruct (runs L !! i) as [r|]; [|done]. case_bool_decide; [|done].
  destruct (source_run_id r) as [j|]; [|done]. destruct (runs L1 !! j) as [src|]; [|done]. destruct (_ =? 0); [|done].
  etrans; [exact H1|]. apply setPhase_prims; [done| | |done]; set_solver.
Qed.

Lemma recordDryRun_prims L o system scope ts coll once judge : well_sourced L -> N (new_id o) -> fresh_run L o -> system_ok system ->
  rtc prim L (recordDryRun E L o system scope ts coll once judge).1.
Proof.
  intros Hw HN Hf Hok. unfold recordDryRun. destruct (_ && _); [done|]. destruct (negb _); [done|]. destruct (capRoomFor _ _); [|done]. cbn [fst].
  apply record_prims; try done.
  - destruct (is_null judge); cbn [negb]; set_solver.
  - by destruct (is_null judge).
  - apply new_life. intros t (p & -> & _)%list_elem_of_fmap. apply dry_target_new.
Qed.
Lemma http_system host : system_ok ("http:" ++ host)%string.
Proof. right. right. apply startsWith_app. Qed.
Lemma recordExternalPlan_prims live L o host ts contract judge : well_sourced L -> N (new_id o) -> fresh_run L o ->
  rtc prim L (recordExternalPlan E live L o host ts contract judge).1.
Proof.
  intros Hw HN Hf. unfold recordExternalPlan. destruct (negb _); [done|]. cbv zeta.
  pose proof (halt_reads_prims L live None) as H1. set (L1 := haltDeadReads live None L) in *.
  assert (fresh_run L1 o) as Hf1. { unfold fresh_run. destruct (runs L1 !! new_id o) eqn:E1; [|done]. by destruct (halt_reads_back L live None _ _ E1) as (? & ? & _); unfold fresh_run in Hf; congruence. }
  pose proof (prims_sourced _ _ H1 Hw) as Hw1.
  destruct (0 <? _); [done|]. destruct (capRoomFor _ _); [|done]. cbn [fst]. etrans; [exact H1|].
  apply record_prims; try done; [apply http_system| | |].
  - destruct (existsb _ _); set_solver.
  - by destruct (existsb _ _).
  - apply new_life. intros t (p & -> & _)%list_elem_of_fmap. apply external_target_new.
Qed.
Lemma recordExternalListPlan_prims live L o host src contract judge : well_sourced L -> N (new_id o) -> fresh_run L o ->
  rtc prim L (recordExternalListPlan E live L o host src contract judge).1.
Proof.
  intros Hw HN Hf. unfold recordExternalListPlan. cbv zeta.
  pose proof (halt_reads_prims L live None) as H1. set (L1 := haltDeadReads live None L) in *.
  assert (fresh_run L1 o) as Hf1. { unfold fresh_run. destruct (runs L1 !! new_id o) eqn:E1; [|done]. by destruct (halt_reads_back L live None _ _ E1) as (? & ? & _); unfold fresh_run in Hf; congruence. }
  pose proof (prims_sourced _ _ H1 Hw) as Hw1.
  destruct (0 <? _); [done|]. destruct (capRoomFor _ _); [|done]. cbn [fst]. etrans; [exact H1|].
  apply record_prims; try done; [apply http_system|set_solver|constructor].
Qed.

(** Every operation is a sequence of row changes. *)
Lemma step_prims L L' : step L L' -> well_formed L -> may_create L -> rtc prim L L'.
Proof.
  intros Hs W HN. pose proof (wf_sources L W) as Hw. destruct Hs.
  - apply recordDryRun_prims; [done|by apply HN|done|]. unfold system_ok. set_solver.
  - apply recordExternalPlan_prims; [done|by apply HN|done].
  - apply recordExternalListPlan_prims; [done|by apply HN|done].
  - unfold takeListCall. destruct (runs L !! i); [|done]. destruct (_ && _); [|done]. by apply rtc_once, prim_cost.
  - by apply rtc_once, prim_cost.
  - apply list_prims.
  - apply finishList_prims.
  - apply expirePlanners_prims.
  - apply endIfPlannerEnded_prims.
  - apply halt_reads_prims.
  - apply recordRead_prims.
  - apply recordReadFailure_prims.
  - apply haltPreview_prims.
  - apply finishPreview_prims.
  - apply setSelected_prims.
  - by apply approve_prims.
  - by apply resume_prims.
  - apply planUndo_prims; [done|by apply HN|done].
  - unfold confirmProbe. destruct (probeCandidate _ _ _); [done|done|]. destruct (probeRowKind _ _ _); [|done]. by apply rtc_once, P_same.
  - by apply resumePreview_prims.
  - apply claimJudge_prims.
  - by apply if_prims_other.
  - unfold addJudgeCost. destruct (is_positive usd); [|done]. by apply rtc_once, prim_cost.
  - unfold settleJudgeCost. destruct (_ && _); [|done]. by apply rtc_once, prim_cost.
  - apply recordJudgement_prims.
  - apply finishJudge_prims.
  - by apply expireStale_prims.
  - by apply if_prims_life.
  - by apply markSent_prims.
  - by apply if_prims_life.
  - by apply if_prims_life.
  - by apply recordApplied_prims.
  - by apply recordFailed_prims.
  - by apply if_prims_life.
  - by apply recordRolledBack_prims.
  - apply setPhase_prims; [done|set_solver|set_solver|done].
  - apply setPhase_prims; [done|set_solver|set_solver|done].
  - apply rtc_once, prim_update; [done|]. intros r _. apply R_halt.
  - apply finish_prims.
Qed.

End Laws.

Section Kept.
Variable E : Siblings.

Definition empty_ledger : Ledger := {| runs := ∅; probes := []; trigger_calls := [] |}.
Definition reachable (L : Ledger) : Prop := rtc (step E) empty_ledger L.

Lemma empty_well_formed : well_formed empty_ledger.
Proof. by split. Qed.
Lemma step_well_formed L L' : step E L L' -> well_formed L -> well_formed L'.
Proof. intros Hs W. eapply (prims_well_formed E (fun _ => True)); [|done]. by apply step_prims. Qed.
Lemma steps_well_formed L L' : rtc (step E) L L' -> well_formed L -> well_formed L'.
Proof. induction 1; eauto using step_well_formed. Qed.
Lemma reachable_well_formed L : reachable L -> well_formed L.
Proof. intros H. by eapply steps_well_formed, empty_well_formed. Qed.

(** C27. A family has one writer. In every reachable ledger, of a run, its undos, their undos and so on, at
    most one is approved or writing and not halted, so no two effects ever write the same targets in
    opposite directions: an approval and a resumption look at the whole family, whatever was planned,
    approved, halted, dropped or undone in between. *)
Theorem a_family_has_one_writer L i j r s : reachable L -> runs L !! i = Some r -> runs L !! j = Some s ->
  is_open r = true -> is_open s = true -> same_family L i j -> i = j.
Proof. intros H. apply (wf_family L). by apply reachable_well_formed. Qed.

(** One host read and one judge at a time. In every reachable ledger at most one run of an external
    host is being read, and at most one run whose judge was started is waiting for its approval: starting
    one is refused, or ends the other. *)
Theorem one_read_and_one_judge L i j r s : reachable L -> runs L !! i = Some r -> runs L !! j = Some s ->
  is_reading r && is_reading s || is_judged_open r && is_judged_open s = true -> i = j.
Proof.
  intros H%reachable_well_formed Hi Hj. rewrite orb_true_iff, !andb_true_iff. intros [[? ?]|[? ?]].
  - by apply (wf_reading L H i j r s).
  - by apply (wf_judged L H i j r s).
Qed.

(** ** What was approved stays *)

Definition frozen (r r' : RunRow) : Prop :=
  is_unapproved r' = false /\ head r' = head r /\ same_rule (prep r) (prep r') /\ plan <$> targets r' = plan <$> targets r.

Lemma resume_plans (ts : list Target) : plan <$> (resume_target <$> ts) = plan <$> ts.
Proof.
  rewrite <-list_fmap_compose. apply list_fmap_ext. intros _ t _. unfold compose, resume_target. by destruct (_ && _).
Qed.

Lemma row_step_frozen L i r r' : row_step E L i r r' -> is_unapproved r = false -> frozen r r'.
Proof.
  intros Hstep Hu. split; [by apply (row_step_approved E L i r r')|]. split; [apply (row_step_keeps E L i r r' Hstep)|].
  destruct Hstep as [? ? Hu' _ _ _ _|? ? ? Hp _ _ _ _|h Hu'|a Hp _ _|a _ _ _|h|to h _ _ _ _|? _ _ _ _ _ -> ->|f Hf];
    try (exfalso; phases); try done.
  - split; [done|]. apply resume_plans.
Qed.

Lemma frozen_trans r1 r2 r3 : frozen r1 r2 -> frozen r2 r3 -> frozen r1 r3.
Proof.
  intros (_ & H1 & (A1 & A2 & A3 & A4 & A5) & P1) (U & H2 & (B1 & B2 & B3 & B4 & B5) & P2). unfold frozen, same_rule. split_and!; congruence.
Qed.

Lemma orphan_frozen i r : is_unapproved r = false -> frozen r (orphan i r).
Proof. intros H. unfold orphan. by case_bool_decide. Qed.

(** A ledger later on, the run still there. *)
Definition lives (i : string) (L L' : Ledger) : Prop := step E L L' /\ is_Some (runs L' !! i).

Lemma prims_frozen L L' i r : rtc (prim E (fun j => j <> i)) L L' -> runs L !! i = Some r -> is_unapproved r = false ->
  runs L' !! i = None \/ exists r', runs L' !! i = Some r' /\ frozen r r'.
Proof.
  assert (forall L L', rtc (prim E (fun j => j <> i)) L L' -> runs L !! i = None -> runs L' !! i = None) as Hgone.
  { intros L1 L2 H. induction H as [|L1 L2 L3 Hp _ IH]; [done|]. intros Hn. apply IH. clear IH.
    destruct Hp as [HL|j x Hne _ _ _ _ _ _ _ _ HL|j x Hj _ HL|j x x' Hj _ HL]; rewrite HL; [done| | |].
    - by rewrite lookup_insert_ne.
    - destruct (runs (delete_run j L1) !! i) as [y|] eqn:E0; [|done]. rewrite lookup_delete_run in E0. destruct E0 as (_ & z & Hz & _). congruence.
    - rewrite lookup_insert_ne by congruence. done. }
  intros H. revert r. induction H as [L|L L1 L2 Hp Hps IH]; intros r Hi Hu; [right; by exists r|].
  assert (runs L1 !! i = None \/ exists r', runs L1 !! i = Some r' /\ frozen r r') as [Hn|(r1 & Hr1 & Hf1)].
  { destruct Hp as [HL|j x _ Hj _ _ _ _ _ _ _ HL|j x Hj _ HL|j x x' Hj Hstep HL].
    - right. exists r. rewrite HL. done.
    - right. exists r. rewrite HL, lookup_insert_ne by congruence. done.
    - destruct (decide (i = j)) as [->|Hne].
      + left. rewrite HL. destruct (runs (delete_run j L) !! j) eqn:E0; [|done]. apply lookup_delete_run in E0 as [? _]. done.
      + right. exists (orphan j r). split; [rewrite HL; apply lookup_delete_run; eauto|by apply orphan_frozen].
    - right. destruct (decide (j = i)) as [->|Hne].
      + exists x'. rewrite HL, lookup_insert_eq. assert (x = r) as -> by congruence. split; [done|by eapply row_step_frozen].
      + exists r. rewrite HL, lookup_insert_ne by done. done. }
  - left. by eapply Hgone.
  - destruct (IH r1 Hr1 ltac:(apply Hf1)) as [?|(r2 & ? & ?)]; [by left|]. right. exists r2. split; [done|by eapply frozen_trans].
Qed.

Lemma lives_frozen L L' i r : rtc (lives i) L L' -> well_formed L -> runs L !! i = Some r -> is_unapproved r = false ->
  exists r', runs L' !! i = Some r' /\ frozen r r'.
Proof.
  intros H. revert r. induction H as [L|L L1 L2 [Hs [r1 Hr1]] _ IH]; intros r W Hi Hu; [by exists r|].
  assert (rtc (prim E (fun j => j <> i)) L L1) as Hp by (apply step_prims; [done|done|intros j ? ->; congruence]).
  destruct (prims_frozen _ _ _ _ Hp Hi Hu) as [?|(r1' & Hr1' & Hf)]; [congruence|].
  destruct (IH r1' (step_well_formed _ _ Hs W) Hr1' ltac:(apply Hf)) as (r2 & ? & ?). exists r2. split; [done|by eapply frozen_trans].
Qed.

(** ** What the checksum binds *)

(** A target as the owner is shown it: the key, what is to happen, the two images as their texts, and
    whether it is taken out. *)
Definition target_view (t : Target) : string * BulkChange * string * string * bool :=
  (target_key (plan t), change (plan t), match before (plan t) with Some b => text_of E (image_json b) | None => ""%string end,
   match after_planned (plan t) with Some a => text_of E a | None => ""%string end, negb (is_null (deselected_at (plan t)))).
Definition run_view (r : RunRow) : BulkRunKind * string * bool * string * list (string * BulkChange * string * string * bool) :=
  (kind (head r), target_system (head r), atomic (head r), rule_hash (prep r), target_view <$> targets r).

Lemma z_digits_all fuel n acc : 0 <= n -> forallb is_digit acc = true -> forallb is_digit (z_digits fuel n acc) = true.
Proof.
  revert n acc. induction fuel as [|fuel IH]; intros n acc Hn Hacc; [done|]. cbn [z_digits].
  destruct (chr_digit (n mod 10) ltac:(pose proof (Z.mod_pos_bound n 10); lia)) as [Hd _].
  assert (forallb is_digit (chr (48 + n mod 10) :: acc) = true) as Ha by (cbn [forallb]; by rewrite Hd).
  destruct (n <? 10); [done|]. apply IH; [apply Z.div_pos; lia|done].
Qed.

(** The number a target starts with is no word of the checksum. *)
Lemma seq_is_no_word n w : negb (forallb is_digit (chars w)) = true -> int_text (Z.of_nat n) <> w.
Proof.
  intros Hw <-. unfold int_text in Hw. destruct (Z.ltb_spec (Z.of_nat n) 0); [lia|]. rewrite chars_unchars in Hw.
  unfold nat_text in Hw. rewrite z_digits_all in Hw; [done|lia|done].
Qed.

Lemma change_text_inj a b : change_text a = change_text b -> a = b.
Proof. destruct a, b; done. Qed.

Definition targets_parts (k : nat) (l : list Target) : list string := mjoin (imap (fun n => target_parts E (k + n)) l).

Lemma targets_parts_cons k t l : targets_parts k (t :: l) = target_parts E k t ++ targets_parts (S k) l.
Proof.
  unfold targets_parts. cbn [imap mjoin list_join]. f_equal; [by rewrite Nat.add_0_r|].
  f_equal. apply imap_ext. intros n y _. unfold compose. by rewrite Nat.add_succ_r.
Qed.

Lemma targets_parts_first k l w ws : targets_parts k l = w :: ws -> forallb is_digit (chars w) = true.
Proof.
  destruct l as [|t l]; [done|]. rewrite targets_parts_cons. unfold target_parts. cbn [app]. intros [= <- _].
  destruct (forallb _ _) eqn:Hd; [done|]. exfalso. eapply (seq_is_no_word k); [|done]. by rewrite Hd.
Qed.

Lemma targets_parts_inj k l l' : targets_parts k l = targets_parts k l' -> target_view <$> l = target_view <$> l'.
Proof.
  revert k l'. induction l as [|t l IH]; intros k [|t' l'] H; [done|discriminate H|discriminate H|].
  rewrite !targets_parts_cons in H. unfold target_parts in H. cbn [app] in H. injection H as Hk Hc Hb Ha Hrest.
  assert (is_null (deselected_at (plan t)) = is_null (deselected_at (plan t')) /\ targets_parts (S k) l = targets_parts (S k) l') as [Hd Htail].
  { destruct (deselected_at (plan t)), (deselected_at (plan t')); cbn [app] in Hrest; [injection Hrest as Hrest; done| | |done].
    - symmetry in Hrest. by apply targets_parts_first in Hrest.
    - by apply targets_parts_first in Hrest. }
  csimpl. f_equal; [|by eapply IH]. unfold target_view. apply change_text_inj in Hc. by rewrite Hk, Hc, Hb, Ha, Hd.
Qed.

(** The optional parts after the fixed ones. *)
Definition optional_parts (w : string) (o : option string) : list string := match o with Some x => [w; x] | None => [] end.

Lemma optional_inj w o o' rest rest' : optional_parts w o ++ rest = optional_parts w o' ++ rest' ->
  (forall x l, rest = x :: l -> x <> w) -> (forall x l, rest' = x :: l -> x <> w) -> o = o' /\ rest = rest'.
Proof.
  destruct o, o'; cbn; intros H H1 H2; [by simplify_eq| | |done].
  - by destruct (H2 _ _ (eq_sym H)).
  - by destruct (H1 _ _ H).
Qed.

Lemma checksum_parts_shape r : checksum_parts E r =
  ["bulk-approval-v1"%string; kind_text (kind (head r)); target_system (head r); default ""%string (target_collection (head r));
   (if atomic (head r) then "1" else "0")%string; default ""%string (source_run_id r); rule_hash (prep r)] ++
  optional_parts "contract" (contract_json (prep r)) ++ optional_parts "list" (canonical E <$> list_source (head r)) ++
  optional_parts "judge" (judge_rule_hash (head r)) ++ optional_parts "start_domains" (domains_text E <$> start_domains (prep r)) ++
  targets_parts 0 (targets r).
Proof.
  unfold checksum_parts, head_parts. rewrite <-!app_assoc. by destruct (contract_json _), (list_source _), (judge_rule_hash _), (start_domains _).
Qed.

Lemma checksum_parts_inj r r' : checksum_parts E r = checksum_parts E r' -> run_view r = run_view r'.
Proof.
  rewrite !checksum_parts_shape. cbn [app]. intros H. injection H as Hk Hs _ Ha _ Hr Hrest.
  repeat (apply optional_inj in Hrest as [_ Hrest];
    [|repeat match goal with |- context [optional_parts _ ?o] => destruct o; cbn [optional_parts app]; try (intros ? ? [= <- _]; done) end;
      intros x l Hx ->; apply targets_parts_first in Hx; done..]).
  unfold run_view. apply targets_parts_inj in Hrest. rewrite Hs, Hr, Hrest.
  f_equal. f_equal. f_equal; [f_equal; by destruct (kind _), (kind _)|by destruct (atomic _), (atomic _)].
Qed.

Lemma frozen_view r r' : frozen r r' -> run_view r' = run_view r.
Proof.
  intros (_ & Hh & (Hr & _) & Ht). unfold run_view. rewrite Hh, Hr. f_equal.
  assert (forall l : list Target, target_view <$> l = (fun p => target_view (new_target p None)) <$> (plan <$> l)) as Hp.
  { intros l. rewrite <-list_fmap_compose. done. }
  by rewrite !Hp, Ht.
Qed.

(** The targets the writing loads, too. *)
Lemma frozen_load L L' i r r' s : runs L !! i = Some r -> runs L' !! i = Some r' -> plan <$> targets r' = plan <$> targets r ->
  loadTarget L' i s = loadTarget L i s.
Proof.
  intros Hr Hr' Ht. unfold loadTarget, target_of. rewrite Hr, Hr'. cbn [mbind option_bind].
  apply (f_equal (fun l => l !! s)) in Ht. rewrite !list_lookup_fmap in Ht.
  destruct (targets r' !! s) as [t2|], (targets r !! s) as [t1|]; cbn in Ht |- *; try done.
  injection Ht as Ht. unfold toApplyTarget, can_write. by rewrite Ht.
Qed.

(** C26. What is written is what was shown. Let the owner be shown a run with the checksum [c], and let an
    approval with [c] succeed, in whatever ledger it then finds. Through every later operation that leaves
    the run in the ledger, and whatever happened between the showing and the approval, the kind, the target
    system, the targets' keys, changes, before-images, after-images and the owner's selection are, as
    texts, those that were shown, and the targets the writing loads are those of the approved ledger: what
    is not as it was shown makes the approval fail. *)
Theorem writes_what_was_shown L0 L L2 i c r0 by_ max unmeasured now t :
  (forall x y, keyedHash E x = keyedHash E y -> x = y) -> reachable L ->
  runs L0 !! i = Some r0 -> computeChecksum E L0 i = Some c ->
  (approve E L i c by_ max unmeasured now).2 = ApproveOk t -> rtc (lives i) (approve E L i c by_ max unmeasured now).1 L2 ->
  exists r2, runs L2 !! i = Some r2 /\ run_view r2 = run_view r0 /\ forall s, loadTarget L2 i s = loadTarget L i s.
Proof.
  intros Hinj HL%reachable_well_formed H0 Hc Hok Hlater.
  destruct (approve_cases E L i c by_ max unmeasured now (wf_sources L HL)) as [[_ Hno]|(r & a & Hi & Hp & Hno & Ha & Hcs & HL')]; [by destruct (Hno t)|].
  unfold computeChecksum in Hc. rewrite H0 in Hc. injection Hc as <-. apply Hinj, checksum_parts_inj in Hcs.
  set (r1 := set_approval a (set_phase approved None r)) in *.
  assert (runs (approve E L i (keyedHash E (checksum_parts E r0)) by_ max unmeasured now).1 !! i = Some r1) as Hr1
    by (rewrite HL'; apply lookup_insert_eq).
  destruct (lives_frozen _ _ i r1 Hlater) as (r2 & Hr2 & Hf); [|done|done|].
  { eapply step_well_formed; [by apply s_approve|done]. }
  exists r2. split; [done|]. split; [rewrite (frozen_view _ _ Hf), Hcs; done|].
  intros s. apply (frozen_load L L2 i r r2 s Hi Hr2), Hf.
Qed.

(** ** Planned changes that wait *)

Lemma lookup_drop_run L i k t : runs (drop_run L i) !! k = Some t <-> k <> i /\ exists s, runs L !! k = Some s /\ t = orphan i s.
Proof. apply (lookup_delete_run i (call_trigger (Remove (bulkPreviewTriggerId i)) L)). Qed.

Lemma count_drop_run P L i r : (forall x, P (set_source None x) = P x) -> runs L !! i = Some r -> P r = true ->
  count_runs P (drop_run L i) = count_runs P L - 1.
Proof.
  intros HP Hi Hr. unfold count_runs, drop_run, delete_run, set_runs. cbn [runs call_trigger].
  assert (forall m : gmap string RunRow, size (filter (fun p => P p.2 = true) (orphan i <$> m)) = size (filter (fun p => P p.2 = true) m)) as ->.
  { intros m. rewrite map_filter_fmap, map_size_fmap. f_equal. apply map_filter_ext. intros k x _. cbn. by rewrite (orphan_same P). }
  rewrite map_filter_delete, map_size_delete_Some by (exists r; by apply map_lookup_filter_Some).
  assert (size (filter (fun p : string * RunRow => P p.2 = true) (runs L)) <> O)%nat; [|lia].
  apply map_size_non_empty_iff. intros He. apply (map_filter_empty_not_lookup _ _ i r He); done.
Qed.

Lemma count_drop_runs P l L : (forall x, P (set_source None x) = P x) -> NoDup l ->
  (forall i, i ∈ l -> exists r, runs L !! i = Some r /\ P r = true) ->
  count_runs P (foldl drop_run L l) = count_runs P L - Z.of_nat (length l).
Proof.
  intros HP. revert L. induction l as [|i l IH]; intros L Hd Hl; [cbn; lia|]. apply NoDup_cons in Hd as [Hn Hd].
  destruct (Hl i) as (r & Hr & HPr); [left|]. cbn [foldl length]. rewrite IH; [rewrite (count_drop_run P L i r); [lia|done..]|done|].
  intros j Hj. destruct (Hl j) as (x & Hx & HPx); [by right|]. exists (orphan i x).
  split; [apply lookup_drop_run; split; [congruence|eauto]|by rewrite (orphan_same P)].
Qed.

Lemma select_runs_NoDup P L : NoDup (select_runs P L).
Proof.
  unfold select_runs. rewrite (merge_sort_Permutation older).
  apply (sublist_NoDup _ (map_to_list (runs L)).*1); [apply NoDup_fst_map_to_list|apply fmap_sublist, sublist_filter].
Qed.

Lemma select_runs_length P L : Z.of_nat (length (select_runs (fun _ r => P r) L)) = count_runs P L.
Proof.
  unfold select_runs, count_runs. rewrite length_fmap, (merge_sort_Permutation older), map_filter_alt.
  rewrite <-length_map_to_list, map_to_list_to_map; [done|].
  apply (sublist_NoDup _ (map_to_list (runs L)).*1); [apply NoDup_fst_map_to_list|apply fmap_sublist, sublist_filter].
Qed.

Lemma drop_runs_lookup l L i r : runs L !! i = Some r -> i ∉ l -> exists r', runs (foldl drop_run L l) !! i = Some r'.
Proof.
  revert L r. induction l as [|j l IH]; intros L r Hi Hn; [eauto|]. cbn [foldl]. apply not_elem_of_cons in Hn as [Hne Hn].
  apply (IH _ (orphan j r)); [|done]. apply lookup_drop_run. eauto.
Qed.

Lemma count_insert_run P L i r : runs L !! i = None -> P r = true -> count_runs P (insert_run i r L) = count_runs P L + 1.
Proof.
  intros Hi Hr. unfold count_runs, insert_run, set_runs. cbn [runs]. rewrite map_filter_insert_True by done.
  rewrite map_size_insert_None; [lia|]. apply map_lookup_filter_None. left. done.
Qed.

Lemma count_runs_nonneg P L : 0 <= count_runs P L.
Proof. unfold count_runs. lia. Qed.

Lemma select_runs_prunable P L i : i ∈ select_runs P L -> (forall j r, P j r = true -> prunable r = true) ->
  exists r, runs L !! i = Some r /\ prunable r = true.
Proof. intros (r & Hr & HP)%elem_of_select_runs H. eauto. Qed.

Lemma doomed_prunable L p own new i : i ∈ doomed L p own new -> exists r, runs L !! i = Some r /\ prunable r = true.
Proof.
  unfold doomed. destruct (isOwnerPrincipal p); [|destruct (own <=? 0); [by intros ?%elem_of_nil|]];
    intros (k & Hk & _)%elem_of_take; eapply select_runs_prunable; try (by eapply list_elem_of_lookup_2); intros j r; [done|].
  rewrite !andb_true_iff. tauto.
Qed.

Lemma doomed_NoDup L p own new : NoDup (doomed L p own new).
Proof.
  unfold doomed. destruct (isOwnerPrincipal p); [|destruct (own <=? 0); [constructor|]];
    eapply sublist_NoDup; try apply sublist_take; apply select_runs_NoDup.
Qed.

(** What a non-owner's plan drops, none of them the new run. *)
Lemma doomed_own L p own new i : isOwnerPrincipal p = false -> i ∈ doomed L p own new ->
  Some i <> new /\ exists r, runs L !! i = Some r /\ planned_by p r = true.
Proof.
  unfold doomed. intros ->. destruct (own <=? 0); [by intros ?%elem_of_nil|].
  intros (k & Hk & _)%elem_of_take. apply list_elem_of_lookup_2, elem_of_select_runs in Hk as (r & Hr & HP).
  rewrite !andb_true_iff, negb_true_iff, bool_decide_eq_false in HP. split; [tauto|]. exists r. tauto.
Qed.

(** How many there are, once the new run is in. *)
Lemma doomed_enough L p own i r : runs L !! i = None -> prunable r = true -> capRoomFor L p = Ok own ->
  count_runs prunable (insert_run i r L) - Z.of_nat (length (doomed (insert_run i r L) p own (Some i))) <= BULK_MAX_PREVIEWED_RUNS.
Proof.
  intros Hi Hr. unfold capRoomFor, doomed. rewrite (count_insert_run prunable) by done.
  destruct (isOwnerPrincipal p) eqn:Ho.
  - intros _. rewrite length_take. pose proof (select_runs_length prunable (insert_run i r L)) as Hl.
    rewrite (count_insert_run prunable) in Hl by done. unfold BULK_MAX_PREVIEWED_RUNS in *. pose proof (count_runs_nonneg prunable L). lia.
  - destruct (_ <=? 0) eqn:Hover; [intros [= <-]; apply Z.leb_le in Hover; rewrite Z.leb_refl; cbn [length]; lia|].
    destruct (_ <=? count_runs _ _) eqn:Hown; [|done]. intros [= <-]. rewrite Hover. apply Z.leb_le in Hown. apply Z.leb_gt in Hover.
    rewrite length_take.
    assert (count_runs (fun r => prunable r && planned_by p r) L <=
      Z.of_nat (length (select_runs (fun j x => prunable x && planned_by p x && negb (bool_decide (Some j = Some i))) (insert_run i r L)))) as Hc; [|lia].
    rewrite <-select_runs_length. apply inj_le, submseteq_length, NoDup_submseteq; [apply select_runs_NoDup|].
    intros j (x & Hx & HP)%elem_of_select_runs. apply elem_of_select_runs. exists x.
    assert (j <> i) as Hne by congruence. split; [cbn; by rewrite lookup_insert_ne|]. rewrite HP. cbn. rewrite bool_decide_false by congruence. done.
Qed.

(** A plan recorded by any of the three recordings. *)
Definition recorded (L : Ledger) (o : Origin) (L' : Ledger) : Prop :=
  (exists system scope ts coll once judge, recordDryRun E L o system scope ts coll once judge = (L', None)) \/
  (exists live host ts contract judge, recordExternalPlan E live L o host ts contract judge = (L', None)) \/
  (exists live host src contract judge, recordExternalListPlan E live L o host src contract judge = (L', None)).

(** The ledger it is recorded in, with the dead reads halted, and the run. *)
Lemma recorded_shape L o L' : recorded L o L' -> exists Lh own r,
  (Lh = L \/ exists live, Lh = haltDeadReads live None L) /\ capRoomFor Lh (by_principal o) = Ok own /\
  prunable r = true /\ L' = pruneUnapproved (insert_run (new_id o) r Lh) (by_principal o) own (Some (new_id o)).
Proof.
  intros [(system & scope & ts & coll & once & judge & H)|[(live & host & ts & contract & judge & H)|(live & host & src & contract & judge & H)]].
  - unfold recordDryRun in H. destruct (_ && _); [done|]. destruct (negb _); [done|]. destruct (capRoomFor _ _) as [own|e] eqn:Hc; [|done].
    injection H as <-. eexists L, own, _. split; [by left|]. split; [done|]. split; [|done].
    unfold prunable. cbn. destruct judge; done.
  - unfold recordExternalPlan in H. destruct (negb _); [done|]. cbv zeta in H. destruct (0 <? _); [done|].
    destruct (capRoomFor _ _) as [own|e] eqn:Hc; [|done]. injection H as <-. eexists _, own, _. split; [right; eauto|]. split; [exact Hc|].
    split; [|done]. unfold prunable. cbn. by destruct judge, (existsb _ _).
  - unfold recordExternalListPlan in H. cbv zeta in H. destruct (0 <? _); [done|].
    destruct (capRoomFor _ _) as [own|e] eqn:Hc; [|done]. injection H as <-. eexists _, own, _. split; [right; eauto|]. split; [exact Hc|].
    split; [|done]. unfold prunable. cbn. by destruct judge.
Qed.

(** Plans that wait are capped. After a plan is recorded, of the workspace, of rows, of an external
    host or of a host's list, at most ten applies wait unapproved outside a started judge; when it is not
    the owner who plans, the new run is among them and every run dropped to make room was planned by the
    same principal, so that none makes room at another's expense. *)
Theorem waiting_plans_are_capped L o L' : recorded L o L' -> fresh_run L o ->
  count_runs prunable L' <= BULK_MAX_PREVIEWED_RUNS /\
  (isOwnerPrincipal (by_principal o) = false ->
   is_Some (runs L' !! new_id o) /\
   forall i r, runs L !! i = Some r -> runs L' !! i = None -> planned_by (by_principal o) r = true).
Proof.
  intros (Lh & own & r & Hh & Hcap & Hr & ->)%recorded_shape Hf.
  assert (runs Lh !! new_id o = None) as Hn.
  { destruct Hh as [->|[live ->]]; [done|]. destruct (runs (haltDeadReads live None L) !! new_id o) as [x|] eqn:Hx; [|done].
    apply halt_reads_back in Hx as (y & Hy & _). unfold fresh_run in Hf. congruence. }
  split.
  - unfold pruneUnapproved. rewrite (count_drop_runs prunable); [by apply doomed_enough|done|apply doomed_NoDup|apply doomed_prunable].
  - intros Ho. unfold pruneUnapproved. split.
    + eapply drop_runs_lookup; [cbn; apply lookup_insert_eq|]. intros Hd. by apply doomed_own in Hd as [? _].
    + intros i x Hi Hgone.
      assert (exists y, runs Lh !! i = Some y /\ head y = head x) as (y & Hy & Hhead).
      { destruct Hh as [->|[live ->]]; [eauto|]. destruct (halt_reads_row L live None i x Hi) as (y & ? & ? & _). eauto. }
      assert (i <> new_id o) as Hne by congruence.
      assert (runs (insert_run (new_id o) r Lh) !! i = Some y) as Hy' by (cbn; by rewrite lookup_insert_ne).
      destruct (decide (i ∈ doomed (insert_run (new_id o) r Lh) (by_principal o) own (Some (new_id o)))) as [Hd|Hd].
      * apply doomed_own in Hd as [_ (z & Hz & Hp)]; [|done]. assert (z = y) as -> by congruence.
        unfold planned_by in Hp |- *. by rewrite <-Hhead.
      * destruct (drop_runs_lookup _ _ _ _ Hy' Hd). congruence.
Qed.
End Kept.

(** ** A ledger to try them on *)

(** A text that tells its parts apart. *)
Fixpoint spell (s rest : string) : string :=
  match s with EmptyString => String "0" rest | String c s => String "1" (String c (spell s rest)) end.
Definition spell_all (l : list string) : string := foldr spell EmptyString l.

Lemma spell_inj s s' r r' : spell s r = spell s' r' -> s = s' /\ r = r'.
Proof.
  revert s'. induction s as [|c s IH]; intros [|c' s'] H; cbn in H; try discriminate H; injection H as H; [done|].
  subst. destruct (IH s') as [-> ->]; done.
Qed.
Lemma spell_all_inj x y : spell_all x = spell_all y -> x = y.
Proof.
  revert y. induction x as [|s x IH]; intros [|t y] H; cbn in H; [done|by destruct t|by destruct s|].
  apply spell_inj in H as [-> H]. f_equal. by apply IH.
Qed.

Definition sample_siblings : Siblings :=
  {| num_text q := int_text (Qnum q); keyedHash := spell_all; JSON_parse _ := None; url_pathname s := Some s;
     endsClosed _ := true; keepsTags _ := true; htmlEqual := String.eqb; canonicalHtml s := s; htmlFieldsOfListForm _ := [];
     isShopifyStoreHostName _ := false; shopifySavedForm v _ := v; shopifyPairedAfter v _ := v; shopifyBulkReadEnabled := true;
     isMeasuredWriteForm _ _ _ := true; isMailProviderTarget _ := false; judgeAfterBound _ := 0; judgeRuleRefusal _ := None;
     normalizeStartDomains _ := None |}.
Definition sample_origin (i : string) (p : RequestPrincipal) : Origin := {| new_id := i; now_s := 1; by_thread := Some "t"%string; by_principal := p |}.
Definition sample_change (k : string) : Planned := PlannedChange k (Present (JStr "old")) (JStr "new").
Definition sample_plan (i : string) (L : Ledger) : Ledger :=
  (recordDryRun sample_siblings L (sample_origin i Owner) "workspace" "*.md" [sample_change "a.md"; sample_change "b.md"] None false None).1.
Definition sample_checksum (L : Ledger) (i : string) : string := default ""%string (computeChecksum sample_siblings L i).
Definition sample_approve (L : Ledger) (i : string) : Ledger :=
  (approve sample_siblings L i (sample_checksum L i) (Some "o"%string) None true 5).1.
Definition sample_planned : Ledger := sample_plan "r" empty_ledger.
Definition sample_approved : Ledger := sample_approve sample_planned "r".
Definition sample_claimed : Ledger := (claimTarget sample_approved "r" 0 7).1.
Definition sample_read : Ledger :=
  (resumePreview sample_siblings (fun _ => true)
    (recordExternalPlan sample_siblings (fun _ => true) empty_ledger (sample_origin "x" Owner) "shop.example"
       [ExternalChange "/p/1" (JStr "new")] JNull None).1 "x"
    {| listChecksum := None; judgeRuleHash := None; costCapUsd := None; supersedes := None; startDomains := None |} 5).1.

Lemma sample_planned_reachable : reachable sample_siblings sample_planned.
Proof. apply rtc_once, s_dry; [done|by left]. Qed.
Lemma sample_approved_reachable : reachable sample_siblings sample_approved.
Proof. eapply rtc_r; [apply sample_planned_reachable|apply s_approve]. Qed.

Lemma a_family_has_one_writer_witness : reachable sample_siblings sample_approved /\ "r"%string = "r"%string.
Proof.
  split; [apply sample_approved_reachable|].
  destruct (runs sample_approved !! "r"%string) as [r|] eqn:Hr; [|by vm_compute in Hr].
  assert (is_open r = true) as Ho by (vm_compute in Hr; injection Hr as <-; reflexivity).
  apply (a_family_has_one_writer sample_siblings sample_approved "r" "r" r r); try done; [apply sample_approved_reachable|].
  exists "r"%string. done.
Defined.

Lemma one_read_and_one_judge_witness : reachable sample_siblings sample_read /\ "x"%string = "x"%string.
Proof.
  assert (reachable sample_siblings sample_read) as Hreach.
  { eapply rtc_l; [apply s_external; done|]. apply rtc_once, s_resumePreview. }
  split; [exact Hreach|].
  destruct (runs sample_read !! "x"%string) as [r|] eqn:Hr; [|by vm_compute in Hr].
  apply (one_read_and_one_judge sample_siblings sample_read "x" "x" r r Hreach Hr Hr).
  vm_compute in Hr. injection Hr as <-. reflexivity.
Defined.

Lemma writes_what_was_shown_witness : (approve sample_siblings sample_planned "r" (sample_checksum sample_planned "r") (Some "o"%string) None true 5).2 = ApproveOk "bulk-r" /\
  exists r2, runs sample_claimed !! "r"%string = Some r2 /\ is_Some (loadTarget sample_claimed "r" 0).
Proof.
  split; [reflexivity|].
  destruct (runs sample_planned !! "r"%string) as [r|] eqn:Hr; [|by vm_compute in Hr].
  destruct (writes_what_was_shown sample_siblings sample_planned sample_planned sample_claimed "r" (sample_checksum sample_planned "r") r
    (Some "o"%string) None true 5 "bulk-r") as (r2 & Hr2 & _ & Hload).
  - apply spell_all_inj.
  - apply sample_planned_reachable.
  - exact Hr.
  - reflexivity.
  - reflexivity.
  - apply rtc_once. split; [|eexists; reflexivity]. apply s_claimTarget. intros x Hx.
    vm_compute in Hx. injection Hx as <-. reflexivity.
  - exists r2. split; [exact Hr2|]. rewrite Hload. eexists. reflexivity.
Defined.

Lemma waiting_plans_are_capped_witness : recorded sample_siblings empty_ledger (sample_origin "r" Owner) sample_planned /\
  count_runs prunable sample_planned <= 10.
Proof.
  assert (recorded sample_siblings empty_ledger (sample_origin "r" Owner) sample_planned) as Hrec.
  { left. exists "workspace"%string, "*.md"%string, [sample_change "a.md"; sample_change "b.md"], None, false, None. reflexivity. }
  split; [exact Hrec|]. by apply (waiting_plans_are_capped sample_siblings empty_ledger (sample_origin "r" Owner) sample_planned Hrec).
Defined.
