(* ===== verification/BulkApply.v ===== *)
(** Bulk changes, the apply loop of [core/bulk-apply.ts]: the guards of an approved run, one pass over its
    pending targets, the writing of one target, the end of a stopped run and the rollback of an atomic
    one.

    A computation is a function of the state: what lies outside (the stores and hosts written to, the
    clock, the owner's stop, the trail), the ledger, and the calls made of a writer. Whatever the
    outside answers is the outside's own state; it may change the ledger wherever the code awaits, which
    is how another loop, an approval or a halt of the owner comes in between. *)
From S2P Require Import Prelude Num JsString JsValue Principal BulkData BulkLedger BulkLaws.
Open Scope Z_scope.

(** What a writer throws: the classes [writeOne] tells apart. *)
(** @src src/src/core/bulk-apply.ts 76-102 BulkWriterHalt *)
Inductive Thrown := BulkWriterHalt (reason : BulkHaltReason) | BulkRedirectError | BulkSecretError | OtherError.

Inductive ReadAnswer := Image (cur : BeforeImage) (titleNow : option string) | PathChanged | Foreign | ReadThrows (e : Thrown).
(** What happens while a write is awaited, in order: the writer reports a send or a refusal, or others
    change the ledger. *)
Inductive WriteEvent := OnSend (via : option Connection) | OnRefused | Meanwhile (others : Ledger -> Ledger).
Inductive WriteAnswer := Wrote (result : string) | WroteImage (result : string) (actual : jval * bool) (hostAddedMarkup hostRewrote : bool) | WriteThrows (e : Thrown).

(** @src src/src/core/bulk-apply.ts 110-125 BulkEffectOutcome *)
Inductive EffectStatus := st_done | st_halted | st_refused | st_aborted | st_pending | st_stopped.
Record BulkEffectOutcome := { status : EffectStatus; o_planned : bool }.
Definition outcome (s : EffectStatus) : BulkEffectOutcome := {| status := s; o_planned := false |}.

(** The calls made of a writer, a rollback's apart, and of the trail. *)
Inductive Call :=
| Reads (t : ApplyTarget) (answer : ReadAnswer) | Writes (t : ApplyTarget) (answer : WriteAnswer)
| BackReads (t : ApplyTarget) (answer : ReadAnswer) | BackWrites (t : ApplyTarget) (answer : WriteAnswer)
| TrailBegins | TrailEnds (o : BulkEffectOutcome) (written failed : option Z).

(** @src src/src/core/bulk-apply.ts 128-128 BULK_RETRY_DELAY_MS *)
Definition BULK_RETRY_DELAY_MS : Z := 30000.
(** @src src/src/core/bulk-apply.ts 130-130 MIN_RUN_BUDGET_MS *)
Definition MIN_RUN_BUDGET_MS : Z := 60000.
(** @src src/src/core/bulk-apply.ts 133-133 HALT_CONSECUTIVE *)
Definition HALT_CONSECUTIVE : Z := 3.

(** @src src/src/core/bulk-apply.ts 105-108 fieldsOf *)
Definition fieldsOf (t : ApplyTarget) : option (list string) :=
  match after t with Present v => if isPlainRecord v then Some (own_keys v) else None | Absent => None end.

Section Apply.
Context {W : Type}.
Variable E : Siblings.

(** @src src/src/core/bulk-apply.ts 46-69 TargetWriter *)
Record TargetWriter := {
  readsBack : bool; reportsSend : bool; carried : W -> option Connection;
  read : string -> option (list string) -> W -> W * (Ledger -> Ledger) * ReadAnswer;
  write : string -> BeforeImage -> W -> W * list WriteEvent * WriteAnswer }.
(** [trailFor]: no trail, or whether its [begin] returns. *)
(** @src src/src/core/bulk-apply.ts 175-198 BulkEffectDeps *)
Record BulkEffectDeps := {
  writerFor : RunRow -> option TargetWriter; now : W -> W * Z; yieldToLoop : W -> W * (Ledger -> Ledger);
  ownerStopped : W -> bool; trailFor : RunRow -> W -> option (W * bool) }.

Record State := { world : W; ledger : Ledger; calls : list Call }.

(** ** Computations *)

Definition M (A : Type) : Type := State -> A * State.
#[local] Instance M_ret : MRet M := fun A a s => (a, s).
#[local] Instance M_bind : MBind M := fun A B f m s => let '(a, s') := m s in f a s'.

Definition asks {A} (f : Ledger -> A) : M A := fun s => (f (ledger s), s).
Definition changes (f : Ledger -> Ledger) : M unit := fun s => (tt, {| world := world s; ledger := f (ledger s); calls := calls s |}).
Definition steps {A} (f : Ledger -> Ledger * A) : M A := fun s =>
  let '(L, a) := f (ledger s) in (a, {| world := world s; ledger := L; calls := calls s |}).
Definition outside {A} (f : W -> W * A) : M A := fun s =>
  let '(w, a) := f (world s) in (a, {| world := w; ledger := ledger s; calls := calls s |}).
Definition calls_ (c : Call) : M unit := fun s => (tt, {| world := world s; ledger := ledger s; calls := calls s ++ [c] |}).

(** [await yieldToLoop()]: others may change the ledger. *)
Definition yields (D : BulkEffectDeps) : M unit := fun s =>
  let '(w, others) := yieldToLoop D (world s) in (tt, {| world := w; ledger := others (ledger s); calls := calls s |}).

(** What a pass holds fixed. *)
Record Pass := {
  p_id : string; p_deps : BulkEffectDeps; p_writer : TargetWriter; p_atomic : bool; p_total : Z; p_html : list string;
  p_saved : bool; p_canonical : list string; p_deadline : Z; p_probed : bool }.

(** ** One target *)

(** @src src/src/core/bulk-apply.ts 146-150 sameInSavedForm *)
Definition sameInSavedForm (cur : BeforeImage) (titleNow : option string) (planned : BeforeImage) (html : list string) : bool :=
  match cur, planned with
  | Present v, Present p => same_value E v (shopifySavedForm E p titleNow) html
  | _, _ => false
  end.
Definition same_image (a b : BeforeImage) (html : list string) : bool :=
  sameImage (num_text E) (endsClosed E) (keepsTags E) (htmlEqual E) a b html.

(** @src src/src/core/bulk-apply.ts 157-167 rawHtmlField *)
Definition rawHtmlField (t : ApplyTarget) (fields : list string) : option string :=
  match after t with
  | Absent => None
  | Present v =>
      if negb (isPlainRecord v) then None
      else
        let was := match expected t with Present w => if is_object w then w else JObj [] | Absent => JObj [] end in
        list_find (fun f => match js_prop v f with
          | JStr x => negb (js_same_text (JStr x) (js_prop was f)) && negb (bool_decide (canonicalHtml E x = x))
          | _ => false end = true) fields ≫= fun nf => Some nf.2
  end.

Definition reads (back : bool) (w : TargetWriter) (t : ApplyTarget) (fields : option (list string)) : M ReadAnswer := fun s =>
  let '(w', others, a) := read w (a_key t) fields (world s) in
  (a, {| world := w'; ledger := others (ledger s); calls := calls s ++ [if back then BackReads t a else Reads t a] |}).
(** A write event reaches the ledger; a rollback passes no callbacks. *)
Definition event (i : string) (t : ApplyTarget) (back : bool) (L : Ledger) (e : WriteEvent) : Ledger :=
  match e with
  | OnSend via => if back then L else markSent L i (a_seq t) via
  | OnRefused => if back then L else markRefused L i (a_seq t)
  | Meanwhile f => f L
  end.
Definition writes (i : string) (back : bool) (w : TargetWriter) (t : ApplyTarget) (image : BeforeImage) : M WriteAnswer := fun s =>
  let '(w', events, a) := write w (a_key t) image (world s) in
  (a, {| world := w'; ledger := foldl (event i t back) (ledger s) events; calls := calls s ++ [if back then BackWrites t a else Writes t a] |}).

Inductive WriteOutcome := Applied (result : string) (actual : option (jval * bool)) (markup rewrote : bool) | Failed (e : BulkTargetError) | Halts (reason : BulkHaltReason).
Definition thrown (e : Thrown) : WriteOutcome :=
  match e with
  | BulkWriterHalt reason => Halts reason | BulkRedirectError => Failed e_redirect | BulkSecretError => Failed e_secret
  | OtherError => Failed e_write_failed
  end.
Definition written (a : WriteAnswer) : WriteOutcome :=
  match a with
  | Wrote result => Applied result None false false
  | WroteImage result actual markup rewrote => Applied result (Some actual) markup rewrote
  | WriteThrows e => thrown e
  end.

(** The target is as it is to become. *)
Definition in_place (saved : bool) (cur : BeforeImage) (titleNow : option string) (t : ApplyTarget) (html : list string) : bool :=
  same_image cur (after t) html || saved && sameInSavedForm cur titleNow (after t) html.
(** @src src/src/core/bulk-apply.ts 442-490 writeOne *)
Definition writeOne (p : Pass) (t : ApplyTarget) : M WriteOutcome :=
  let w := p_writer p in
  a ← reads false w t (fieldsOf t);
  match a with
  | ReadThrows e => mret (thrown e)
  | PathChanged => mret (Failed e_path_changed)
  | Foreign => mret (Failed e_conflict)
  | Image cur titleNow =>
      if in_place (p_saved p) cur titleNow t (p_html p) then
        let rewritten := negb (bool_decide (p_html p = [])) && negb (in_place (p_saved p) cur titleNow t []) in
        mret (Applied "already" (match readsBack w, cur with true, Present v => Some (v, false) | _, _ => None end) false rewritten)
      else if negb (same_image cur (expected t) (p_html p)) then mret (Failed e_conflict)
      else if negb (is_null (rawHtmlField t (p_canonical p))) then mret (Halts h_contract)
      else
        unknown ← asks (fun L => hasUnknownSend L (p_id p) (a_seq t));
        if reportsSend w && unknown then mret (Failed e_sent_unknown)
        else
          via ← outside (fun x => (x, carried w x));
          _ ← (if reportsSend w then mret tt else changes (fun L => markSent L (p_id p) (a_seq t) via));
          out ← writes (p_id p) false w t (after t);
          mret (written out)
  end.

(** ** Rollback *)

Inductive RollBackCause := c_failed | c_stopped | c_time.
Definition back_reason (cause : RollBackCause) (complete : bool) : BulkHaltReason :=
  match cause, complete with
  | c_stopped, true => h_atomicStoppedRolledBack | c_stopped, false => h_atomicStoppedRollbackIncomplete
  | c_time, true => h_atomicTimeRolledBack | c_time, false => h_atomicTimeRollbackIncomplete
  | c_failed, true => h_atomicRolledBack | c_failed, false => h_atomicRollbackIncomplete
  end.

(** One target of the rollback; [false] leaves it incomplete. *)
Definition back_one (p : Pass) (t : ApplyTarget) (recorded : bool) : M bool :=
  let i := p_id p in
  a ← reads true (p_writer p) t None;
  match a with
  | Image cur _ =>
      if negb recorded && same_image cur (expected t) [] then
        n ← outside (now (p_deps p));
        _ ← changes (fun L => recordUnrecordedSettled L i (a_seq t) n);
        mret true
      else if negb (same_image cur (after t) []) then mret false
      else
        out ← writes i true (p_writer p) t (expected t);
        match out with
        | WriteThrows _ => mret false
        | _ =>
            n ← outside (now (p_deps p));
            _ ← changes (fun L => if recorded then recordRolledBack L i (a_seq t) n else recordUnrecordedSettled L i (a_seq t) n);
            mret true
        end
  | _ => mret false
  end.
Fixpoint back_all (p : Pass) (l : list (ApplyTarget * bool)) : M bool :=
  match l with
  | [] => mret true
  | (t, recorded) :: l => this ← back_one p t recorded; rest ← back_all p l; mret (this && rest)
  end.
(** Latest target first. *)
Definition later (a b : ApplyTarget * bool) : Prop := (a_seq b.1 <= a_seq a.1)%nat.
#[local] Instance later_dec : RelDecision later.
Proof. intros a b. unfold later. apply _. Defined.
Definition back_targets (L : Ledger) (i : string) : list (ApplyTarget * bool) :=
  merge_sort later (((fun t => (t, true)) <$> listAppliedDesc L i) ++ ((fun t => (t, false)) <$> listSentUnrecordedDesc L i)).
(** @src src/src/core/bulk-apply.ts 499-537 rollBack *)
Definition rollBack (p : Pass) (cause : RollBackCause) : M BulkEffectOutcome :=
  targets ← asks (fun L => back_targets L (p_id p));
  complete ← back_all p targets;
  _ ← changes (fun L => (setPhase L (p_id p) [writing] aborted (Some (back_reason cause complete))).1);
  mret (outcome st_aborted).

(** ** The pass *)

Definition halts (p : Pass) (reason : BulkHaltReason) (s : EffectStatus) (planned : bool) : M BulkEffectOutcome :=
  _ ← changes (fun L => halt L (p_id p) reason); mret {| status := s; o_planned := planned |}.
Definition has_applied (L : Ledger) (i : string) : bool := negb (bool_decide (listAppliedDesc L i = [])).
(** @src src/src/core/bulk-apply.ts 432-439 endStopped *)
Definition endStopped (p : Pass) : M BulkEffectOutcome :=
  applied ← asks (fun L => has_applied L (p_id p));
  if p_atomic p && applied then (o ← rollBack p c_stopped; mret {| status := st_stopped; o_planned := o_planned o |})
  else halts p h_stoppedByOwner st_stopped false.

(** Where a turn leaves the pass: on to the next target with the failures in a row and the two flags of
    the cap, or at its end. *)
Inductive Turn := Next (consecutive : Z) (cappedOut cappedByProbe : bool) | End (o : BulkEffectOutcome).
Definition ends (m : M BulkEffectOutcome) : M Turn := o ← m; mret (End o).

(** What the outcome of a write is recorded as. *)
(** @src src/src/core/bulk-apply.ts 352-390 applyRunEffect *)
Definition settle (p : Pass) (s : nat) (via : option Connection) (consecutive : Z) (cappedOut cappedByProbe : bool) (o : WriteOutcome) : M Turn :=
  let i := p_id p in
  match o with
  | Halts reason => _ ← changes (fun L => releaseClaim L i s); ends (halts p reason st_halted false)
  | Applied result actual markup rewrote =>
      n ← outside (now (p_deps p));
      _ ← changes (fun L => recordApplied L i s result n actual via markup rewrote);
      if markup then ends (halts p h_markupAddedByShop st_halted false) else mret (Next 0 cappedOut cappedByProbe)
  | Failed e =>
      _ ← changes (fun L => recordFailed L i s e via);
      match e with
      | e_sent_unknown => mret (Next consecutive cappedOut cappedByProbe)
      | _ =>
          if p_atomic p then ends (rollBack p c_failed)
          else match e with
          | e_conflict => mret (Next 0 cappedOut cappedByProbe)
          | _ =>
              failed ← asks (fun L => match runs L !! i with Some r => targets_failed r | None => 0 end);
              if HALT_CONSECUTIVE <=? consecutive + 1 then ends (halts p h_consecutiveFailures st_halted false)
              else if bulkFailureLimit (p_total p) <? failed then ends (halts p h_failureRate st_halted false)
              else mret (Next (consecutive + 1) cappedOut cappedByProbe)
          end
      end
  end.

(** The cap: no new target once as many were sent. *)
(** @src src/src/core/bulk-apply.ts 325-330 applyRunEffect *)
Definition capped (p : Pass) (r : RunRow) (L : Ledger) (s : nat) : bool :=
  match bulkWriteCap (max_targets (approval r)) (p_probed p) with
  | Some cap => (cap <=? sentCount r) && negb (wasSent L (p_id p) s)
  | None => false
  end.
(** The turn of a target that may be sent. *)
(** @src src/src/core/bulk-apply.ts 335-351 applyRunEffect *)
Definition attempt (p : Pass) (s : nat) (consecutive : Z) (cappedOut cappedByProbe : bool) : M Turn :=
  let i := p_id p in let D := p_deps p in
  n ← outside (now D);
  if p_deadline p <? n then
    applied ← asks (fun L => has_applied L i);
    if p_atomic p && applied then ends (rollBack p c_time) else ends (halts p h_timeBudget st_halted false)
  else
    n ← outside (now D);
    claimed ← steps (fun L => claimTarget L i s n);
    if negb claimed then mret (Next consecutive cappedOut cappedByProbe)
    else
      target ← asks (fun L => loadTarget L i s);
      match target with
      | None => mret (Next consecutive cappedOut cappedByProbe)
      | Some t =>
          o ← writeOne p t;
          via ← outside (fun x => (x, carried (p_writer p) x));
          settle p s via consecutive cappedOut cappedByProbe o
      end.
(** @src src/src/core/bulk-apply.ts 311-334 applyRunEffect *)
Definition turn (p : Pass) (s : nat) (consecutive : Z) (cappedOut cappedByProbe : bool) : M Turn :=
  let i := p_id p in let D := p_deps p in
  _ ← yields D;
  L ← asks id;
  match runs L !! i with
  | None => mret (End (outcome st_halted))
  | Some r =>
      if bool_decide (phase r = finished) then mret (End (outcome st_done))
      else if negb (bool_decide (phase r = writing)) || negb (is_null (halt_reason r)) then mret (End (outcome st_halted))
      else
        stop ← outside (fun x => (x, ownerStopped D x));
        if stop : bool then ends (endStopped p)
        else if capped p r L s then
          mret (Next consecutive true (cappedByProbe || negb (p_probed p) && match max_targets (approval r) with None => true | Some m => 1 <? m end))
        else attempt p s consecutive cappedOut cappedByProbe
  end.
(** @src src/src/core/bulk-apply.ts 393-421 applyRunEffect *)
Definition after_loop (p : Pass) (cappedOut cappedByProbe : bool) : M BulkEffectOutcome :=
  let i := p_id p in
  L ← asks id;
  if bool_decide (listPending L i = []) then
    _ ← changes (fun L => finish L i); mret (outcome st_done)
  else if cappedOut then
    halts p (if cappedByProbe then h_probeRequired else h_maxTargets) st_halted
      (negb cappedByProbe && match runs L !! i with Some r => targets_failed r =? 0 | None => true end)
  else
    stop ← outside (fun x => (x, ownerStopped (p_deps p) x));
    if stop : bool then endStopped p else mret (outcome st_pending).
Fixpoint loop (p : Pass) (seqs : list nat) (consecutive : Z) (cappedOut cappedByProbe : bool) : M BulkEffectOutcome :=
  match seqs with
  | [] => after_loop p cappedOut cappedByProbe
  | s :: seqs =>
      t ← turn p s consecutive cappedOut cappedByProbe;
      match t with Next c a b => loop p seqs c a b | End o => mret o end
  end.

(** ** The effect *)

(** A refusal that halts the run. *)
Definition refuses (i : string) (reason : BulkHaltReason) (s : EffectStatus) : M BulkEffectOutcome :=
  _ ← changes (fun L => halt L i reason); mret (outcome s).
Definition expired (D : BulkEffectDeps) (r : RunRow) : M bool :=
  match expires_at (approval r) with None => mret true | Some e => n ← outside (now D); mret (e <? n) end.
Definition checksum_holds (L : Ledger) (i : string) (r : RunRow) : bool :=
  negb (is_null (approval_checksum (approval r))) && bool_decide (computeChecksum E L i = approval_checksum (approval r)).
Definition pass_of (D : BulkEffectDeps) (i : string) (w : TargetWriter) (r : RunRow) (L : Ledger) (n : Z) : Pass :=
  {| p_id := i; p_deps := D; p_writer := w; p_atomic := atomic (head r);
     p_total := match runs L !! i with Some r => countWriting r | None => 0 end;
     p_html := comparedAsHtml E L i; p_saved := comparedInSavedForm E L i;
     p_canonical := if bool_decide (kind (head r) = undo_) then [] else htmlFieldsOf E L i;
     p_deadline := n + Z.max MIN_RUN_BUDGET_MS (Z.of_nat (length (listPending L i)) * BULK_TARGET_BUDGET_MS);
     p_probed := probeHoldsFor E L i |}.
(** @src src/src/core/bulk-apply.ts 289-309 applyRunEffect *)
Definition run_pass (D : BulkEffectDeps) (i : string) (w : TargetWriter) (r : RunRow) : M BulkEffectOutcome :=
  _ ← changes (fun L => (setPhase L i [approved] writing None).1);
  n ← outside (now D);
  L ← asks id;
  loop (pass_of D i w r L n) (listPending L i) 0 false false.

(** The outcome, with the run as it was when its trail began. *)
(** @src src/src/core/bulk-apply.ts 242-288 applyRunEffect *)
Definition applyRunEffect (D : BulkEffectDeps) (i : string) (undoing : bool) : M (BulkEffectOutcome * option RunRow) :=
  let refused (m : M BulkEffectOutcome) := o ← m; mret (o, None) in
  L ← asks id;
  match runs L !! i with
  | None => mret (outcome st_refused, None)
  | Some r =>
      if negb (bool_decide (undoing = bool_decide (kind (head r) = undo_))) then mret (outcome st_refused, None)
      else if negb (bool_decide (phase r ∈ [approved; writing])) then mret (outcome st_refused, None)
      else if negb (is_null (halt_reason r)) then mret (outcome st_refused, None)
      else
        late ← expired D r;
        if late : bool then refused (refuses i h_expired st_refused)
        else if negb (checksum_holds L i r) then refused (refuses i h_checksum st_refused)
        else if isWriteSwitchedOff E L i then refused (refuses i h_shopifyWriteOff st_refused)
        else match writerFor D r with
        | None => refused (refuses i h_unavailable st_refused)
        | Some w =>
            trail ← outside (fun x => match trailFor D r x with None => (x, None) | Some (x', began) => (x', Some began) end);
            match trail with
            | Some false => refused (refuses i h_runUnrecorded st_halted)
            | Some true => _ ← calls_ TrailBegins; o ← run_pass D i w r; mret (o, Some r)
            | None => o ← run_pass D i w r; mret (o, None)
            end
        end
  end.
(** @src src/src/core/bulk-apply.ts 219-240 runBulkEffect *)
Definition runBulkEffect (D : BulkEffectDeps) (i : string) (undoing : bool) : M BulkEffectOutcome :=
  x ← applyRunEffect D i undoing;
  let '(o, opened) := x in
  match opened with
  | None => mret o
  | Some r =>
      L ← asks id;
      _ ← calls_ (TrailEnds o ((fun a => targets_applied a - targets_applied r) <$> runs L !! i)
                             ((fun a => targets_failed a - targets_failed r) <$> runs L !! i));
      mret o
  end.

(** ** What the pass does to the ledger *)

(** The operations a pass calls at the target [n]: reports of a write, failures that count, others. *)
Inductive OpKind := o_send | o_fail | o_other.
#[local] Instance OpKind_eq_dec : EqDecision OpKind.
Proof. solve_decision. Defined.
Inductive op (i : string) (n : nat) : OpKind -> (Ledger -> Ledger) -> Prop :=
| op_sent via : op i n o_send (fun L => markSent L i n via)
| op_refused : op i n o_send (fun L => markRefused L i n)
| op_claim t : op i n o_other (fun L => (claimTarget L i n t).1)
| op_release : op i n o_other (fun L => releaseClaim L i n)
| op_applied res t actual via markup rewrote : op i n o_other (fun L => recordApplied L i n res t actual via markup rewrote)
| op_failed e via : op i n (if decide (e ∈ NOT_FAILURES) then o_other else o_fail) (fun L => recordFailed L i n e via)
| op_settled m t : op i n o_other (fun L => recordUnrecordedSettled L i m t)
| op_back m t : op i n o_other (fun L => recordRolledBack L i m t)
| op_halt h : op i n o_other (fun L => halt L i h)
| op_begin : op i n o_other (fun L => (setPhase L i [approved] writing None).1)
| op_aborted h : op i n o_other (fun L => (setPhase L i [writing] aborted (Some h)).1)
| op_finish : op i n o_other (fun L => finish L i).

(** The run but for the target [n], with at most [d] failures more: what [view] shows of a target stays. *)
Section Near.
Context {X : Type} (view : Target -> X).
Record near (n : nat) (d : Z) (r r' : RunRow) : Prop := {
  near_approval : approval r' = approval r;
  near_failed : targets_failed r <= targets_failed r' <= targets_failed r + d;
  near_length : length (targets r') = length (targets r);
  near_targets : forall m, m <> n -> view <$> targets r' !! m = view <$> targets r !! m }.
Definition touch (i : string) (n : nat) (d : Z) (L L' : Ledger) : Prop :=
  forall r, runs L !! i = Some r -> exists r', runs L' !! i = Some r' /\ near n d r r'.

Lemma near_refl n d r : 0 <= d -> near n d r r.
Proof. by split; [|lia| |]. Qed.
Lemma near_trans n d d' r1 r2 r3 : near n d r1 r2 -> near n d' r2 r3 -> near n (d + d') r1 r3.
Proof.
  intros [A1 A2 A3 A4] [B1 B2 B3 B4]. split; [congruence|lia|congruence|]. intros m Hm. by rewrite B4, A4.
Qed.
Lemma touch_refl i n L : touch i n 0 L L.
Proof. intros r Hr. exists r. split; [done|by apply near_refl]. Qed.
Lemma touch_trans i n d d' L1 L2 L3 : touch i n d L1 L2 -> touch i n d' L2 L3 -> touch i n (d + d') L1 L3.
Proof.
  intros H1 H2 r Hr. destruct (H1 r Hr) as (r2 & Hr2 & N1). destruct (H2 r2 Hr2) as (r3 & Hr3 & N2).
  exists r3. split; [done|by eapply near_trans].
Qed.
Lemma touch_trans0 i n d L1 L2 L3 : touch i n d L1 L2 -> touch i n 0 L2 L3 -> touch i n d L1 L3.
Proof. intros H1 H2. rewrite <-(Z.add_0_r d). by eapply touch_trans. Qed.
Lemma touch_weaken i n d d' L L' : d <= d' -> touch i n d L L' -> touch i n d' L L'.
Proof. intros Hd H r Hr. destruct (H r Hr) as (r' & ? & [? ? ? ?]). exists r'. split; [done|]. split; [done|lia|done|done]. Qed.

Lemma touch_run i n d L j f : 0 <= d -> (forall r, near n d r (f r)) -> touch i n d L (update_run j f L).
Proof.
  intros Hd H r Hr. cbn. destruct (decide (j = i)) as [->|Hne].
  - rewrite lookup_alter_eq, Hr. exists (f r). done.
  - rewrite lookup_alter_ne by done. exists r. split; [done|by apply near_refl].
Qed.
(** An update of a target, when it is the one left out or what is seen of it stays. *)
Definition unseen (n m : nat) (f : Target -> Target) : Prop := m = n \/ forall t, view (f t) = view t.
Lemma touch_target i n L j m f : unseen n m f -> touch i n 0 L (update_target j m f L).
Proof.
  intros H. apply touch_run; [done|]. intros r. split; cbn; [done|lia|by rewrite length_alter|]. intros k Hk.
  destruct (decide (m = k)) as [->|Hne]; [|by rewrite list_lookup_alter_ne]. destruct H as [?|H]; [done|].
  rewrite list_lookup_alter_eq. destruct (targets r !! k); cbn; [by rewrite H|done].
Qed.
Lemma touch_target_if i n L j m g f : unseen n m f -> touch i n 0 L (update_target_if j m g f L).1.
Proof.
  intros H. destruct (update_target_if_spec j m g f L) as [->|(t & _ & _ & ->)]; [apply touch_refl|by apply touch_target].
Qed.
Lemma touch_phase i n L j from to h : touch i n 0 L (setPhase L j from to h).1.
Proof.
  unfold setPhase. destruct (runs L !! j); [|apply touch_refl]. case_bool_decide; [|apply touch_refl].
  apply touch_run; [done|]. intros x. by split; cbn; [|lia| |].
Qed.
Lemma touch_counts i n d L j (a b c : RunRow -> Z) : 0 <= d -> (forall r, targets_failed r <= c r <= targets_failed r + d) ->
  touch i n d L (update_run j (fun r => set_counts (a r) (b r) (c r) r) L).
Proof. intros Hd H. apply touch_run; [done|]. intros r. split; cbn; [done|apply H|done|done]. Qed.
Lemma touch_connection i n L j v : touch i n 0 L (update_run j (fun r => if is_null (first_connection r) then set_first_connection (Some v) r else r) L).
Proof.
  apply touch_run; [done|]. intros r. destruct (is_null _); by apply near_refl || (split; cbn; [done|lia|done|done]).
Qed.
Lemma touch_if_eq i n L j m g f L' moved : unseen n m f -> update_target_if j m g f L = (L', moved) -> touch i n 0 L L'.
Proof. intros H Hu. replace L' with (update_target_if j m g f L).1 by (by rewrite Hu). by apply touch_target_if. Qed.
End Near.

Definition op_failures (c : OpKind) : Z := if decide (c = o_fail) then 1 else 0.
(** The seen of an update of the target left out, or of one that leaves the view as it is. *)
Ltac unseen := solve [by left | by right | right; intros; eauto].
Ltac touches :=
  match goal with
  | |- touch _ _ _ _ _ (update_target_if _ _ _ _ _).1 => apply touch_target_if; unseen
  | |- touch _ _ _ _ _ (update_target _ _ _ _) => apply touch_target; unseen
  | |- touch _ _ _ _ _ (setPhase _ _ _ _ _).1 => apply touch_phase
  | |- touch _ _ _ _ _ (noteConnection _ _ _ ?via _) =>
      unfold noteConnection; destruct via; [|apply touch_refl]; cbv zeta; eapply touch_trans0; [|apply touch_connection]; apply touch_target; unseen
  | |- touch _ _ _ _ _ (mark_source ?L _ _ _ _) => unfold mark_source; destruct (source_target L _ _) as [[? ?]|]; [apply touch_target; unseen|apply touch_refl]
  | |- touch _ _ _ _ ?L ?L => apply touch_refl
  end.
(** An operation at the target left out, or one whose updates the view does not see. *)
Ltac op_touches := match goal with
  | |- touch ?v ?i ?n _ ?L (recordApplied _ ?j ?m _ _ _ ?via _ _) => unfold recordApplied;
      destruct (update_target_if j m _ _ L) as [L1 moved] eqn:HL1; apply (touch_if_eq v i n) in HL1; [|unseen]; destruct moved; cbn [negb]; cbv iota; [|touches];
      eapply touch_trans0; [|touches]; eapply touch_trans0; [|apply touch_counts; [done|intros r; lia]];
      assert (touch v i n 0 L (noteConnection j m true via L1)) as H2 by (eapply touch_trans0; [exact HL1|touches]);
      case_bool_decide; [|exact H2]; eapply touch_trans0; [exact H2|touches]
  | |- touch ?v ?i ?n _ ?L (recordFailed _ ?j ?m ?e ?via) => unfold recordFailed;
      destruct (update_target_if j m _ _ L) as [L1 moved] eqn:HL1; apply (touch_if_eq v i n) in HL1; [|unseen];
      assert (touch v i n 0 L (noteConnection j m true via L1)) as H2 by (eapply touch_trans0; [exact HL1|touches]);
      destruct moved; cbn [negb]; cbv iota; [|eapply touch_weaken; [|apply touch_refl]; unfold op_failures; by case_decide];
      destruct (decide (e ∈ NOT_FAILURES)); [rewrite bool_decide_true by done; exact H2|rewrite bool_decide_false by done; cbn [negb]; cbv iota];
      change (op_failures o_fail) with (0 + 1); eapply touch_trans; [exact H2|apply touch_counts; [done|intros r; lia]]
  | |- touch _ _ _ _ _ (finish ?L ?i) => unfold finish; destruct (runs L !! i); [|touches]; case_bool_decide; [|touches];
      destruct (source_run_id _); [|touches]; destruct (runs _ !! _); [|touches]; destruct (_ =? 0); [|touches];
      eapply touch_trans0; [|touches]; touches
  | |- touch _ _ _ _ _ (halt _ _ _) => apply touch_run; [done|]; intros x; by split; cbn; [|lia| |]
  end.

(** What of a target a cap and a failure limit look at. *)
Definition sends (t : Target) : Plan * option Z * bool * bool := (plan t, applied_at (life t), found_unsent (life t), write_sent (life t)).
Lemma op_touch {X} (view : Target -> X) i n c f L : (forall x t, view (set_life (set_undone x) t) = view t) ->
  op i n c f -> touch view i n (op_failures c) L (f L).
Proof.
  intros Hv. destruct 1 as [via| |t| |res t actual via markup rewrote|e via|m t|m t|h| |h|]; cbv beta;
    try (change (op_failures o_other) with 0); try (change (op_failures o_send) with 0).
  - unfold markSent. eapply touch_trans0; [|touches]. touches.
  - unfold markRefused. touches.
  - unfold claimTarget. touches.
  - unfold releaseClaim. touches.
  - op_touches.
  - op_touches.
  - unfold recordUnrecordedSettled. touches.
  - unfold recordRolledBack. eapply touch_trans0; [|touches]. touches.
  - op_touches.
  - touches.
  - touches.
  - op_touches.
Qed.

(** The sends of a target of unclear effect: only the reports of a write change them. *)
Definition unclear (t : Target) : Z := unknown_sends (life t).
Lemma op_unclear i n m c f L : op i n c f -> c <> o_send -> touch unclear i m (op_failures c) L (f L).
Proof.
  destruct 1 as [via| |t| |res t actual via markup rewrote|e via|k t|k t|h| |h|]; intros Hc; try done; cbv beta; try (change (op_failures o_other) with 0); try (change (op_failures o_send) with 0).
  - unfold claimTarget. touches.
  - unfold releaseClaim. touches.
  - op_touches.
  - op_touches.
  - unfold recordUnrecordedSettled. touches.
  - unfold recordRolledBack. eapply touch_trans0; [|touches]. touches.
  - op_touches.
  - touches.
  - touches.
  - op_touches.
Qed.

(** ** What a pass keeps *)

Definition with_world (w : W) (s : State) : State := {| world := w; ledger := ledger s; calls := calls s |}.
Definition with_ledger (L : Ledger) (s : State) : State := {| world := world s; ledger := L; calls := calls s |}.
Definition with_call (c : Call) (s : State) : State := {| world := world s; ledger := ledger s; calls := calls s ++ [c] |}.

Section Keeps.
Variable I : State -> Prop.
Definition keeps_at {A} (m : M A) (s : State) : Prop := I s -> I (m s).2.

Lemma keeps_bind {A B} (m : M A) (f : A -> M B) s : keeps_at m s ->
  (forall a s', m s = (a, s') -> keeps_at (f a) s') -> keeps_at (m ≫= f) s.
Proof.
  unfold keeps_at. intros Hm Hf HI. unfold mbind, M_bind. specialize (Hm HI). destruct (m s) as [a s'] eqn:E1. by apply (Hf a s').
Qed.
Lemma keeps_ret {A} (a : A) s : keeps_at (mret a) s.
Proof. intros HI. exact HI. Qed.
Lemma keeps_asks {A B} (g : Ledger -> A) (f : A -> M B) s : keeps_at (f (g (ledger s))) s -> keeps_at (asks g ≫= f) s.
Proof. intros H HI. exact (H HI). Qed.

Variables (p : Pass) (n : nat).
Hypothesis I_world : forall s w, I s -> I (with_world w s).
Hypothesis I_op : forall f s, op (p_id p) n o_other f -> I s -> I (with_ledger (f (ledger s)) s).
Hypothesis I_write : forall t s, I s -> loadTarget (ledger s) (p_id p) n = Some t -> I (writeOne p t s).2.
Hypothesis I_back : forall t b s s0, I s0 -> (t, b) ∈ back_targets (ledger s0) (p_id p) -> I s -> I (back_one p t b s).2.

Lemma keeps_outside {A} (f : W -> W * A) s : keeps_at (outside f) s.
Proof. intros HI. unfold outside. destruct (f (world s)) as [w a]. by apply I_world. Qed.
Lemma keeps_op f s : op (p_id p) n o_other f -> keeps_at (changes f) s.
Proof. intros Ho HI. by apply (I_op f s Ho). Qed.

Lemma keeps_halts h st pl s : keeps_at (halts p h st pl) s.
Proof. apply keeps_bind; [apply keeps_op, op_halt|]. intros ? ? _. apply keeps_ret. Qed.

Lemma keeps_back_all l s s0 : I s0 -> (forall x, x ∈ l -> x ∈ back_targets (ledger s0) (p_id p)) -> keeps_at (back_all p l) s.
Proof.
  intros H0. revert s. induction l as [|[t b] l IH]; intros s Hl; [apply keeps_ret|]. cbn [back_all].
  apply keeps_bind; [intros HI; eapply I_back; [exact H0|apply Hl; left|done]|]. intros a s1 _.
  apply keeps_bind; [apply IH; intros x Hx; apply Hl; by right|]. intros ? ? _. apply keeps_ret.
Qed.
Lemma keeps_rollBack cause s : keeps_at (rollBack p cause) s.
Proof.
  intros HI. assert (keeps_at (rollBack p cause) s) as K; [|by apply K]. apply keeps_asks.
  apply keeps_bind; [by apply (keeps_back_all _ s s)|].
  intros complete s1 _. apply keeps_bind; [|intros ? ? _; apply keeps_ret]. apply keeps_op, op_aborted.
Qed.
Lemma keeps_endStopped s : keeps_at (endStopped p) s.
Proof.
  apply keeps_asks. destruct (_ && _); [|apply keeps_halts]. apply keeps_bind; [apply keeps_rollBack|]. intros ? ? _. apply keeps_ret.
Qed.
Lemma keeps_ends m s : keeps_at m s -> keeps_at (ends m) s.
Proof. intros H. apply keeps_bind; [done|]. intros ? ? _. apply keeps_ret. Qed.

Hypothesis I_fail : forall f s, op (p_id p) n o_fail f -> I s -> I (with_ledger (f (ledger s)) s).
Lemma keeps_failed e via s : keeps_at (changes (fun L => recordFailed L (p_id p) n e via)) s.
Proof.
  intros HI. pose proof (op_failed (p_id p) n e via) as Ho. destruct (decide (e ∈ NOT_FAILURES)); [by apply (I_op _ s Ho)|by apply (I_fail _ s Ho)].
Qed.
Lemma keeps_settle via c a b o s : keeps_at (settle p n via c a b o) s.
Proof.
  destruct o as [res actual markup rewrote|e|h]; cbn [settle].
  - apply keeps_bind; [apply keeps_outside|]. intros t s1 _. apply keeps_bind; [apply keeps_op, op_applied|]. intros _ s2 _.
    destruct markup; [apply keeps_ends, keeps_halts|apply keeps_ret].
  - apply keeps_bind; [apply keeps_failed|]. intros _ s1 _.
    destruct e; try apply keeps_ret; (destruct (p_atomic p); [apply keeps_ends, keeps_rollBack|]); try apply keeps_ret;
      apply keeps_asks; repeat (destruct (_ : bool); [apply keeps_ends, keeps_halts|]); apply keeps_ret.
  - apply keeps_bind; [apply keeps_op, op_release|]. intros _ s1 _. apply keeps_ends, keeps_halts.
Qed.
Lemma keeps_attempt c a b s : keeps_at (attempt p n c a b) s.
Proof.
  apply keeps_bind; [apply keeps_outside|]. intros t s1 _. destruct (_ <? t).
  - apply keeps_asks. destruct (_ && _); apply keeps_ends; [apply keeps_rollBack|apply keeps_halts].
  - apply keeps_bind; [apply keeps_outside|]. intros t' s2 _. apply keeps_bind.
    { intros HI. unfold steps. destruct (claimTarget _ _ _ _) as [L x] eqn:Hc.
      pose proof (I_op (fun L => (claimTarget L (p_id p) n t').1) s2 (op_claim _ _ _) HI) as Hop. cbv beta in Hop. by rewrite Hc in Hop. }
    intros claimed s3 _. destruct claimed; [|apply keeps_ret]. cbn [negb]. apply keeps_asks.
    destruct (loadTarget _ _ _) as [x|] eqn:Hx; [|apply keeps_ret].
    apply keeps_bind; [intros HI; by apply I_write|]. intros o s4 _. apply keeps_bind; [apply keeps_outside|]. intros via s5 _.
    apply keeps_settle.
Qed.

Hypothesis I_yield : forall s, I s -> I (yields (p_deps p) s).2.

Lemma keeps_turn c a b s : keeps_at (turn p n c a b) s.
Proof.
  apply keeps_bind; [intros HI; by apply I_yield|]. intros _ s1 _. apply keeps_asks. unfold id.
  destruct (runs (ledger s1) !! p_id p) as [r|]; [|apply keeps_ret]. destruct (bool_decide _); [apply keeps_ret|].
  destruct (_ || _); [apply keeps_ret|]. apply keeps_bind; [apply keeps_outside|]. intros stop s2 _.
  destruct stop; [apply keeps_ends, keeps_endStopped|]. destruct (capped _ _ _ _); [apply keeps_ret|apply keeps_attempt].
Qed.
Lemma keeps_after_loop a b s : keeps_at (after_loop p a b) s.
Proof.
  apply keeps_asks. destruct (bool_decide _).
  - apply keeps_bind; [apply keeps_op, op_finish|]. intros ? ? _. apply keeps_ret.
  - destruct a; [apply keeps_halts|]. apply keeps_bind; [apply keeps_outside|]. intros stop s2 _.
    destruct stop; [apply keeps_endStopped|apply keeps_ret].
Qed.
End Keeps.

Record pass_laws (I : State -> Prop) (p : Pass) (n : nat) : Prop := {
  law_world : forall s w, I s -> I (with_world w s);
  law_op : forall f s, op (p_id p) n o_other f -> I s -> I (with_ledger (f (ledger s)) s);
  law_fail : forall f s, op (p_id p) n o_fail f -> I s -> I (with_ledger (f (ledger s)) s);
  law_write : forall t s, I s -> loadTarget (ledger s) (p_id p) n = Some t -> I (writeOne p t s).2;
  law_back : forall t b s s0, I s0 -> (t, b) ∈ back_targets (ledger s0) (p_id p) -> I s -> I (back_one p t b s).2;
  law_yield : forall s, I s -> I (yields (p_deps p) s).2 }.

Lemma keeps_loop I p seqs c a b s : (forall n, pass_laws I p n) -> keeps_at I (loop p seqs c a b) s.
Proof.
  intros HL. revert c a b s. induction seqs as [|n seqs IH]; intros c a b s; cbn [loop].
  - destruct (HL 0%nat). by apply (keeps_after_loop I p 0).
  - destruct (HL n). apply keeps_bind; [by apply keeps_turn|]. intros t s1 _. destruct t; [apply IH|apply keeps_ret].
Qed.

(** ** Others *)

(** All others do to the ledger while the pass awaits is of the kind [G]. *)
Record polite (G : (Ledger -> Ledger) -> Prop) (D : BulkEffectDeps) (w : TargetWriter) : Prop := {
  polite_yield : forall x, G (yieldToLoop D x).2;
  polite_read : forall k fields x, G (read w k fields x).1.2;
  polite_write : forall k image x f, Meanwhile f ∈ (write w k image x).1.2 -> G f }.

(** ** An effect is steps of the ledger *)

(** Steps of the ledger that leave the run in it. *)
Definition lively (i : string) (f : Ledger -> Ledger) : Prop := forall L, well_formed L -> is_Some (runs L !! i) -> rtc (lives E i) L (f L).

(** What a pass asks of a writer for one target. *)
Inductive exchange (L0 : Ledger) (i : string) (html : list string) (saved : bool) : list Call -> Prop :=
| x_read t a : exchange L0 i html saved [Reads t a]
| x_write t cur title a : loadTarget L0 i (a_seq t) = Some t -> same_image cur (expected t) html = true ->
    in_place saved cur title t html = false -> exchange L0 i html saved [Reads t (Image cur title); Writes t a]
| x_back_read t a : exchange L0 i html saved [BackReads t a]
| x_back_write t cur title a : loadTarget L0 i (a_seq t) = Some t -> same_image cur (after t) [] = true ->
    exchange L0 i html saved [BackReads t (Image cur title); BackWrites t a]
| x_trail c : (c = TrailBegins \/ exists o x y, c = TrailEnds o x y) -> exchange L0 i html saved [c].

Lemma op_step i n c f L : op i n c f -> written_run L i -> step E L (f L).
Proof. destruct 1; intros Hw; by constructor. Qed.

Lemma op_lives i n c f L : op i n c f -> well_formed L -> written_run L i -> is_Some (runs L !! i) -> lives E i L (f L).
Proof.
  intros Ho _ Hw [r Hr]. split; [by eapply op_step|]. destruct (op_touch sends i n c f L ltac:(done) Ho r Hr) as (r' & ? & _). by exists r'.
Qed.

Lemma lives_steps i L L' : rtc (lives E i) L L' -> rtc (step E) L L'.
Proof. induction 1 as [|L1 L2 L3 [H _] _ IH]; [done|]. by eapply rtc_l. Qed.

Lemma toApplyTarget_seq k t a : toApplyTarget k t = Some a -> a_seq a = k.
Proof. unfold toApplyTarget. destruct (negb _); [done|]. by intros [= <-]. Qed.

Lemma targets_desc_load P L i t : t ∈ targets_desc P L i -> loadTarget L i (a_seq t) = Some t.
Proof.
  unfold targets_desc, loadTarget, target_of. destruct (runs L !! i) as [r|]; [|by intros ?%elem_of_nil]. cbn [mbind option_bind].
  intros ([k x] & Hin & Ht)%list_elem_of_omap. rewrite elem_of_reverse, list_elem_of_filter in Hin. destruct Hin as [_ Hin].
  apply elem_of_lookup_imap in Hin as (k' & x' & [= -> ->] & Hk). cbn in Ht. rewrite (toApplyTarget_seq _ _ _ Ht), Hk. done.
Qed.

Lemma back_targets_load L i t b : (t, b) ∈ back_targets L i -> loadTarget L i (a_seq t) = Some t.
Proof.
  unfold back_targets. rewrite (merge_sort_Permutation later), elem_of_app, !list_elem_of_fmap.
  intros [(x & [= -> _] & H)|(x & [= -> _] & H)]; by apply targets_desc_load in H.
Qed.

(** The ledger and the calls of an effect on an approved run. *)
Section Approved.
Variables (L0 : Ledger) (i : string) (r0 : RunRow) (calls0 : list Call).
Hypothesis L0_well_formed : well_formed L0.
Hypothesis L0_run : runs L0 !! i = Some r0.
Hypothesis r0_approved : is_unapproved r0 = false.

Definition follows (L : Ledger) : Prop := rtc (lives E i) L0 L.

Lemma follows_spec L : follows L -> well_formed L /\ exists r, runs L !! i = Some r /\ is_unapproved r = false /\ plan <$> targets r = plan <$> targets r0.
Proof.
  intros H. split.
  - eapply steps_well_formed; [by eapply lives_steps|done].
  - destruct (lives_frozen E L0 L i r0 H L0_well_formed L0_run r0_approved) as (r & Hr & Hu & _ & _ & Ht). exists r. done.
Qed.
Lemma follows_load L s : follows L -> loadTarget L i s = loadTarget L0 i s.
Proof. intros H. destruct (follows_spec L H) as (_ & r & Hr & _ & Ht). by apply (frozen_load L0 L i r0 r s). Qed.
Lemma follows_op n c f L : op i n c f -> follows L -> follows (f L).
Proof.
  intros Ho H. destruct (follows_spec L H) as (Wf & r & Hr & Hu & _). eapply rtc_r; [exact H|].
  eapply op_lives; [done|done| |by exists r]. intros x Hx. congruence.
Qed.
Lemma follows_lively f L : lively i f -> follows L -> follows (f L).
Proof. intros Hf H. destruct (follows_spec L H) as (Wf & r & Hr & _). unfold follows in *. etrans; [exact H|]. apply Hf; [done|by exists r]. Qed.
Lemma follows_events (t : ApplyTarget) back events L : (forall f, Meanwhile f ∈ events -> lively i f) -> follows L ->
  follows (foldl (event i t back) L events).
Proof.
  revert L. induction events as [|e events IH]; intros L He H; [done|]. cbn [foldl]. apply IH; [intros f Hf; apply He; by right|].
  destruct e as [via| |f]; cbn [event].
  - destruct back; [done|]. apply (follows_op (a_seq t) o_send (fun L => markSent L i (a_seq t) via)); [constructor|done].
  - destruct back; [done|]. apply (follows_op (a_seq t) o_send (fun L => markRefused L i (a_seq t))); [constructor|done].
  - apply follows_lively; [|done]. apply He. left.
Qed.

Variable p : Pass.
Hypothesis p_of : p_id p = i.
Hypothesis p_lively : polite (lively i) (p_deps p) (p_writer p).

(** Steps so far, and calls in exchanges. *)
Definition faithful (s : State) : Prop :=
  follows (ledger s) /\ exists bs, calls s = calls0 ++ mjoin bs /\ Forall (exchange L0 i (p_html p) (p_saved p)) bs.

Lemma faithful_calls s s' b : faithful s -> follows (ledger s') -> calls s' = calls s ++ b -> exchange L0 i (p_html p) (p_saved p) b -> faithful s'.
Proof.
  intros (_ & bs & Hc & Hb) Hf Hc' He. split; [done|]. exists (bs ++ [b]). split; [|apply Forall_app; split; [done|by constructor]].
  assert (mjoin (bs ++ [b]) = mjoin bs ++ b) as -> by (rewrite join_app; cbn; by rewrite app_nil_r).
  by rewrite Hc', Hc, app_assoc.
Qed.

Lemma reads_calls back t fields s a s' : reads back (p_writer p) t fields s = (a, s') -> faithful s ->
  follows (ledger s') /\ calls s' = calls s ++ [if back then BackReads t a else Reads t a].
Proof.
  unfold reads. pose proof (polite_read _ _ _ p_lively (a_key t) fields (world s)) as Hp.
  destruct (read _ _ _ _) as [[w f] a']. intros [= <- <-] [Hf _]. cbn. split; [|done]. by apply follows_lively.
Qed.
Lemma writes_calls back t image s a s' : writes i back (p_writer p) t image s = (a, s') -> follows (ledger s) ->
  follows (ledger s') /\ calls s' = calls s ++ [if back then BackWrites t a else Writes t a].
Proof.
  unfold writes. pose proof (polite_write _ _ _ p_lively (a_key t) image (world s)) as Hp.
  destruct (write _ _ _ _) as [[w events] a']. intros [= <- <-] Hf. cbn. split; [|done]. by apply follows_events.
Qed.

Lemma faithful_write t s : faithful s -> loadTarget (ledger s) i (a_seq t) = Some t -> faithful (writeOne p t s).2.
Proof.
  intros HI Ht. rewrite follows_load in Ht by apply HI. unfold writeOne, mbind, M_bind. rewrite p_of.
  destruct (reads false (p_writer p) t (fieldsOf t) s) as [a s1] eqn:Hr. apply reads_calls in Hr as [Hf1 Hc1]; [|done].
  assert (faithful s1) as H1 by (eapply faithful_calls; [exact HI|exact Hf1|exact Hc1|apply x_read]).
  destruct a as [cur title| | |e]; try exact H1. destruct (in_place _ _ _ _ _) eqn:Hin; [exact H1|].
  destruct (same_image cur (expected t) (p_html p)) eqn:Hsame; [|exact H1]. cbn [negb].
  destruct (is_null (rawHtmlField _ _)); [|exact H1]. cbn [negb]. unfold asks. destruct (_ && _); [exact H1|].
  unfold outside. cbn [fst snd].

  assert (forall s2, follows (ledger s2) -> calls s2 = calls s1 -> faithful (writes i false (p_writer p) t (after t) s2).2) as Hlast.
  { intros s2 Hf2 Hc2. destruct (writes i false (p_writer p) t (after t) s2) as [a s3] eqn:Hw. apply writes_calls in Hw as [Hf3 Hc3]; [|done]. cbn [snd].
    eapply faithful_calls; [exact HI|exact Hf3| |by eapply x_write]. cbn [snd]. by rewrite Hc3, Hc2, Hc1, <-app_assoc. }
  destruct (reportsSend (p_writer p)).
  - specialize (Hlast (with_world (world s1) s1) Hf1 eq_refl). unfold with_world in Hlast. cbn. by destruct (writes _ _ _ _ _ _).
  - specialize (Hlast (with_ledger (markSent (ledger s1) i (a_seq t) (carried (p_writer p) (world s1))) s1)). unfold with_ledger in Hlast.
    cbn. destruct (writes _ _ _ _ _ _). apply Hlast; [|done].
    apply (follows_op (a_seq t) o_send (fun L => markSent L i (a_seq t) (carried (p_writer p) (world s1)))); [constructor|done].
Qed.

Lemma faithful_ledger s L : faithful s -> follows L -> faithful (with_ledger L s).
Proof. intros [_ H] HL. by split. Qed.

Lemma faithful_back t b s : faithful s -> loadTarget L0 i (a_seq t) = Some t -> faithful (back_one p t b s).2.
Proof.
  intros HI Ht. unfold back_one, mbind, M_bind. rewrite p_of.
  destruct (reads true (p_writer p) t None s) as [a s1] eqn:Hr. apply reads_calls in Hr as [Hf1 Hc1]; [|done].
  assert (faithful s1) as H1 by (eapply faithful_calls; [exact HI|exact Hf1|exact Hc1|apply x_back_read]).
  destruct a as [cur title| | |e]; try exact H1. destruct (negb b && _).
  - unfold outside, changes. destruct (now _ _) as [w n]. cbn. apply (faithful_ledger (with_world w s1)); [exact H1|].
    apply (follows_op 0 o_other (fun L => recordUnrecordedSettled L i (a_seq t) n)); [constructor|exact Hf1].
  - destruct (same_image cur (after t) []) eqn:Hsame; [|exact H1]. cbn [negb].
    destruct (writes i true (p_writer p) t (expected t) s1) as [a s2] eqn:Hw. apply writes_calls in Hw as [Hf2 Hc2]; [|exact Hf1].
    assert (faithful s2) as H2.
    { eapply faithful_calls; [exact HI|exact Hf2| |by eapply x_back_write]. by rewrite Hc2, Hc1, <-app_assoc. }
    assert (forall w n, faithful (with_ledger (if b then recordRolledBack (ledger s2) i (a_seq t) n
      else recordUnrecordedSettled (ledger s2) i (a_seq t) n) (with_world w s2))) as Hlast.
    { intros w n. apply faithful_ledger; [exact H2|]. destruct b.
      - apply (follows_op 0 o_other (fun L => recordRolledBack L i (a_seq t) n)); [constructor|exact Hf2].
      - apply (follows_op 0 o_other (fun L => recordUnrecordedSettled L i (a_seq t) n)); [constructor|exact Hf2]. }
    destruct a; try exact H2; unfold outside, changes; destruct (now _ _) as [w n]; apply (Hlast w n).
Qed.

Lemma faithful_laws n : pass_laws faithful p n.
Proof.
  split.
  - done.
  - intros f s Ho HI. apply faithful_ledger; [done|]. rewrite p_of in Ho. eapply follows_op; [exact Ho|apply HI].
  - intros f s Ho HI. apply faithful_ledger; [done|]. rewrite p_of in Ho. eapply follows_op; [exact Ho|apply HI].
  - intros t s HI Ht. rewrite p_of in Ht. assert (a_seq t = n) as <-.
    { unfold loadTarget in Ht. destruct (target_of _ _ _); [|done]. by eapply toApplyTarget_seq. }
    by apply faithful_write.
  - intros t b s s0 H0 Hin HI. apply faithful_back; [done|]. rewrite p_of in Hin. rewrite <-(follows_load (ledger s0)) by apply H0.
    by eapply back_targets_load.
  - intros s HI. unfold yields. pose proof (polite_yield _ _ _ p_lively (world s)) as Hy. destruct (yieldToLoop _ _) as [w f]. cbn in *.
    apply (faithful_ledger (with_world w s)); [exact HI|]. apply follows_lively; [done|apply HI].
Qed.

Lemma faithful_loop seqs c a b s : faithful s -> faithful (loop p seqs c a b s).2.
Proof. apply keeps_loop. apply faithful_laws. Qed.
End Approved.

(** An effect that does not begin its pass: nothing but the outside's state and at most a halt. *)
Definition not_begun (i : string) (s s' : State) : Prop :=
  exists f w, (f = id \/ exists h, f = fun L => halt L i h) /\ s' = with_ledger (f (ledger s)) (with_world w s).
Lemma not_begun_refuses i s w h st : not_begun i s ((o ← refuses i h st; mret (o, @None RunRow)) (with_world w s)).2.
Proof. exists (fun L => halt L i h), w. split; [right; by exists h|done]. Qed.
Lemma expired_shape D r s : exists late w, expired D r s = (late, with_world w s).
Proof.
  unfold expired, mbind, M_bind, outside. destruct (expires_at (approval r)); [|exists true, (world s); by destruct s].
  destruct (now D (world s)) as [w n]. eexists _, w. reflexivity.
Qed.

(** What an effect does before and after its pass. *)
Lemma applyRunEffect_ind D i undoing s (P : State -> Prop) :
  (forall s', not_begun i s s' -> P s') ->
  (forall r w x began, runs (ledger s) !! i = Some r -> is_unapproved r = false -> writerFor D r = Some w ->
    P (run_pass D i w r {| world := x; ledger := ledger s; calls := calls s ++ (if began : bool then [TrailBegins] else []) |}).2) ->
  P (applyRunEffect D i undoing s).2.
Proof.
  intros Hnot Hpass. assert (P s) as Hs by (apply Hnot; exists id, (world s); split; [by left|by destruct s]).
  assert (forall w h st, P ((o ← refuses i h st; mret (o, @None RunRow)) (with_world w s)).2) as Href by (intros; apply Hnot, not_begun_refuses).
  unfold applyRunEffect, mbind at 1, M_bind at 1, asks, id. destruct (runs (ledger s) !! i) as [r|] eqn:Hr; [|exact Hs].
  destruct (negb (bool_decide (undoing = _))); [exact Hs|]. case_bool_decide as Hp; [|exact Hs].
  destruct (negb (is_null (halt_reason r))); [exact Hs|]. cbn [negb]. unfold mbind at 1, M_bind at 1.
  destruct (expired_shape D r s) as (late & w & ->). destruct late; [apply Href|].
  destruct (checksum_holds _ _ _); [|apply Href]. cbn [negb]. destruct (isWriteSwitchedOff _ _ _); [apply Href|].
  destruct (writerFor D r) as [wr|] eqn:Hwr; [|apply Href].
  assert (is_unapproved r = false) as Hu by (apply bool_decide_eq_false; phases).
  unfold mbind at 1, M_bind at 1, outside. cbn [world with_world]. destruct (trailFor D r w) as [[w' began]|].
  - destruct began; [|apply (Href w')]. specialize (Hpass r wr w' true eq_refl Hu Hwr).
    unfold calls_, mbind, M_bind. cbn in *. by destruct (run_pass _ _ _ _ _).
  - specialize (Hpass r wr w false eq_refl Hu Hwr). rewrite app_nil_r in Hpass. unfold mbind, M_bind.
    change {| world := w; ledger := _; calls := _ |} with (with_world w s) in *. by destruct (run_pass _ _ _ _ _).
Qed.

Lemma runBulkEffect_after D i undoing s : exists l, (l = [] \/ exists o x y, l = [TrailEnds o x y]) /\
  world (runBulkEffect D i undoing s).2 = world (applyRunEffect D i undoing s).2 /\
  ledger (runBulkEffect D i undoing s).2 = ledger (applyRunEffect D i undoing s).2 /\
  calls (runBulkEffect D i undoing s).2 = calls (applyRunEffect D i undoing s).2 ++ l.
Proof.
  unfold runBulkEffect, mbind, M_bind. destruct (applyRunEffect D i undoing s) as [[o [r|]] s1]; cbn.
  - eexists. split; [right; by do 3 eexists|done].
  - exists []. rewrite app_nil_r. split; [by left|done].
Qed.

(** Whatever the outside does to the ledger, it does by its operations, and the run stays. *)
Definition orderly (D : BulkEffectDeps) (i : string) : Prop := forall r w, writerFor D r = Some w -> polite (lively i) D w.
(** The calls so far are followed by exchanges, their values compared as the run's ledger [L1] says. *)
Definition calls_of (L0 : Ledger) (i : string) (c c' : list Call) : Prop := exists L1 bs, rtc (step E) L0 L1 /\ c' = c ++ mjoin bs /\
  Forall (exchange L0 i (comparedAsHtml E L1 i) (comparedInSavedForm E L1 i)) bs.

Lemma calls_of_more L0 i c c' b : calls_of L0 i c c' -> (forall html saved, exchange L0 i html saved b) -> calls_of L0 i c (c' ++ b).
Proof.
  intros (L1 & bs & HL & -> & Hb) He. exists L1, (bs ++ [b]). split; [done|]. split; [|apply Forall_app; split; [done|by constructor]].
  assert (mjoin (bs ++ [b]) = mjoin bs ++ b) as -> by (rewrite join_app; cbn; by rewrite app_nil_r). by rewrite app_assoc.
Qed.

Lemma run_pass_faithful D i w r r0 s : well_formed (ledger s) -> polite (lively i) D w -> runs (ledger s) !! i = Some r0 ->
  is_unapproved r0 = false -> let s' := (run_pass D i w r s).2 in
  rtc (step E) (ledger s) (ledger s') /\ calls_of (ledger s) i (calls s) (calls s').
Proof.
  intros Wf Hp Hr0 Hu. cbv zeta. unfold run_pass, mbind, M_bind, changes, outside, asks, id. cbn [world ledger calls].
  destruct (now D (world s)) as [x n]. set (L1 := (setPhase (ledger s) i [approved] writing None).1).
  set (p := pass_of D i w r L1 n).
  assert (follows (ledger s) i L1) as Hf by (apply (follows_op _ _ r0 Wf Hr0 Hu 0 o_other (fun L => (setPhase L i [approved] writing None).1)); [constructor|constructor]).
  destruct (faithful_loop (ledger s) i r0 (calls s) Wf Hr0 Hu p eq_refl Hp (listPending L1 i) 0 false false
    {| world := x; ledger := L1; calls := calls s |}) as (Hl & bs & Hc & Hb).
  { split; [exact Hf|]. exists []. split; [cbn; by rewrite app_nil_r|constructor]. }
  split; [by eapply lives_steps|]. exists L1, bs. split; [by eapply lives_steps|done].
Qed.

Lemma effect_faithful D i undoing s : well_formed (ledger s) -> orderly D i -> let s' := (runBulkEffect D i undoing s).2 in
  rtc (step E) (ledger s) (ledger s') /\ calls_of (ledger s) i (calls s) (calls s').
Proof.
  intros Wf Hord. cbv zeta. destruct (runBulkEffect_after D i undoing s) as (l & Hl & _ & -> & ->).
  assert (forall c, calls_of (ledger s) i (calls s) c -> calls_of (ledger s) i (calls s) (c ++ l)) as Hend.
  { intros c Hc. destruct Hl as [->|(o & x & y & ->)]; [by rewrite app_nil_r|]. apply calls_of_more; [done|]. intros html saved. apply x_trail. right. by do 3 eexists. }
  assert (calls_of (ledger s) i (calls s) (calls s)) as H0.
  { exists (ledger s), []. split; [done|]. split; [cbn; by rewrite app_nil_r|constructor]. }
  apply (applyRunEffect_ind D i undoing s (fun s' => rtc (step E) (ledger s) (ledger s') /\ calls_of (ledger s) i (calls s) (calls s' ++ l))).
  - intros s' (f & w & Hf & ->). split; [|by apply Hend]. cbn. destruct Hf as [->|[h ->]]; [done|]. apply rtc_once, s_halt.
  - intros r w x began Hr Hu Hw.
    destruct (run_pass_faithful D i w r r {| world := x; ledger := ledger s; calls := calls s ++ (if began then [TrailBegins] else []) |}) as [Hs Hc];
      [done|by eapply Hord|done|done|]. split; [exact Hs|]. apply Hend. cbn [ledger calls] in Hc. clear Hs.
    destruct began; [|rewrite app_nil_r in *; exact Hc]. destruct Hc as (L1 & bs & HL & Hc & Hb). exists L1, ([TrailBegins] :: bs).
    split; [done|]. split; [by rewrite Hc, <-app_assoc|]. constructor; [|done]. apply x_trail. by left.
Qed.

(** C28. An effect is steps of the ledger. Whatever the writer, the clock, the owner and the others answer
    and do meanwhile, one [runBulkEffect] changes the ledger only by its operations, each in a state that
    allows it: what is so of every reachable ledger, one writer per family, one host read, one judge and the
    freezing of what was approved, is so while and after a run is written. *)
Theorem an_effect_is_ledger_steps D i undoing s : reachable E (ledger s) -> orderly D i ->
  rtc (step E) (ledger s) (ledger (runBulkEffect D i undoing s).2) /\ reachable E (ledger (runBulkEffect D i undoing s).2).
Proof.
  intros H Hord. destruct (effect_faithful D i undoing s) as [Hs _]; [by eapply reachable_well_formed|done|].
  split; [exact Hs|]. unfold reachable. by etrans.
Qed.

(** C25. A change made by someone else is not overwritten. Every write of an effect directly follows a
    read of the same target whose answer was an image equal to the one the owner was shown as before, and
    not yet the one to write; every write of a rollback directly follows a read whose answer was what the
    run wrote; and the targets are those of the ledger the effect began with. A target that someone else
    changed, that is gone, unreadable or another kind of thing is left alone. *)
Theorem foreign_changes_are_kept D i undoing s : reachable E (ledger s) -> orderly D i ->
  calls_of (ledger s) i (calls s) (calls (runBulkEffect D i undoing s).2).
Proof. intros H Hord. apply effect_faithful; [by eapply reachable_well_formed|done]. Qed.

(** ** A rollback *)

(** One target is back as it was: read as the run wrote it and written back, or, of a send that was not
    recorded, read as it was before. *)
Definition restored (x : ApplyTarget * bool) (b : list Call) : Prop :=
  (exists cur title a, b = [BackReads x.1 (Image cur title); BackWrites x.1 a] /\ same_image cur (after x.1) [] = true /\
     forall e, a <> WriteThrows e) \/
  (x.2 = false /\ exists cur title, b = [BackReads x.1 (Image cur title)] /\ same_image cur (expected x.1) [] = true).

Lemma back_one_calls p t r s : exists b, calls (back_one p t r s).2 = calls s ++ b /\ ((back_one p t r s).1 = true <-> restored (t, r) b).
Proof.
  unfold back_one, mbind, M_bind, reads. destruct (read _ _ _ _) as [[w f] a]. cbn [calls].
  assert (forall x : ReadAnswer, (forall cur title, x <> Image cur title) -> ~ restored (t, r) [BackReads t x]) as Hno.
  { intros x Hx [(cur & title & a' & ? & _)|(_ & cur & title & [= ->] & _)]; [done|by eapply Hx]. }
  destruct a as [cur title| | |e]; try (eexists; split; [reflexivity|]; split; [done|intros H; exfalso; by eapply Hno in H]).
  destruct (negb r && same_image cur (expected t) []) eqn:Hexp.
  - unfold outside, changes. cbn [world]. destruct (now _ _) as [w' n]. eexists. split; [reflexivity|]. split; [|done]. intros _. right.
    apply andb_true_iff in Hexp as [Hr Hs]. split; [by destruct r|]. by exists cur, title.
  - destruct (same_image cur (after t) []) eqn:Hs; cbn [negb].
    2:{ eexists. split; [reflexivity|]. split; [done|]. intros [(? & ? & ? & ? & _)|(Hr & cur' & title' & [= <- <-] & Hs')]; [done|].
        cbn in Hr, Hs'. by rewrite Hr, Hs' in Hexp. }
    unfold writes. cbn [world ledger calls]. destruct (write _ _ _ _) as [[w2 events] out]. cbn [calls].
    assert (forall x, (forall e, x <> WriteThrows e) -> restored (t, r) [BackReads t (Image cur title); BackWrites t x]) as Hyes.
    { intros x Hx. left. by exists cur, title, x. }
    destruct out as [res|res actual markup rewrote|e].
    3:{ eexists. split; [cbn; by rewrite <-app_assoc|]. split; [done|]. intros [(? & ? & ? & [= <- <- <-] & _ & H)|(_ & ? & ? & ? & _)]; [by destruct (H e)|done]. }
    all: unfold outside, changes; cbn [world]; destruct (now _ _) as [w3 n]; eexists; (split; [cbn; by rewrite <-app_assoc|]); split; [intros _|done]; by apply Hyes.
Qed.

Lemma back_all_calls p l s : exists bs, calls (back_all p l s).2 = calls s ++ mjoin bs /\ length bs = length l /\
  ((back_all p l s).1 = true <-> Forall2 restored l bs).
Proof.
  revert s. induction l as [|[t r] l IH]; intros s.
  - exists []. cbn. split; [by rewrite app_nil_r|]. split; [done|]. split; [constructor|done].
  - cbn [back_all]. unfold mbind, M_bind. destruct (back_one_calls p t r s) as (b & Hb & Hr). destruct (back_one p t r s) as [this s1].
    destruct (IH s1) as (bs & Hbs & Hl & Hrs). destruct (back_all p l s1) as [rest s2]. exists (b :: bs). cbn in *.
    split; [by rewrite Hbs, Hb, app_assoc|]. split; [lia|]. rewrite andb_true_iff, Hr, Hrs. split.
    + intros [? ?]. by constructor.
    + by inversion 1.
Qed.

(** What a complete rollback has done. A rollback goes through the targets the run wrote or may have
    written, the last first, and ends the run as aborted with the reason it found: complete when, and only
    when, every one of them was read as the run wrote it and written back without an error, or, if its
    write was not recorded, was read as it was before the run. *)
Theorem a_complete_rollback_restored p cause s : exists bs complete L,
  calls (rollBack p cause s).2 = calls s ++ mjoin bs /\
  ledger (rollBack p cause s).2 = (setPhase L (p_id p) [writing] aborted (Some (back_reason cause complete))).1 /\
  (complete = true <-> Forall2 restored (back_targets (ledger s) (p_id p)) bs).
Proof.
  unfold rollBack, mbind, M_bind, asks, changes. destruct (back_all_calls p (back_targets (ledger s) (p_id p)) s) as (bs & Hbs & _ & Hr).
  destruct (back_all _ _ _) as [complete s1]. exists bs, complete, (ledger s1). done.
Qed.

(** ** What of the ledger a pass keeps, when others leave the run's targets alone *)

Section Ledgers.
Variables (J : Ledger -> Prop) (G : (Ledger -> Ledger) -> Prop) (p : Pass) (n : nat).
Hypothesis p_polite : polite G (p_deps p) (p_writer p).
Hypothesis J_others : forall f L, G f -> J L -> J (f L).
Hypothesis J_op : forall c f L, op (p_id p) n c f -> c <> o_fail -> J L -> J (f L).

Lemma J_reads back t fields s : J (ledger s) -> J (ledger (reads back (p_writer p) t fields s).2).
Proof.
  intros HJ. unfold reads. pose proof (polite_read _ _ _ p_polite (a_key t) fields (world s)) as Hp.
  destruct (read _ _ _ _) as [[w f] a]. by apply J_others.
Qed.
Lemma J_events t back events L : (back = true \/ a_seq t = n) -> (forall f, Meanwhile f ∈ events -> G f) -> J L ->
  J (foldl (event (p_id p) t back) L events).
Proof.
  intros Hb. revert L. induction events as [|e events IH]; intros L He HJ; [done|]. cbn [foldl].
  apply IH; [intros f Hf; apply He; by right|]. destruct e as [via| |f]; cbn [event].
  - destruct back; [done|]. destruct Hb as [?|Hb]; [done|]. rewrite Hb. apply (J_op o_send (fun L => markSent L (p_id p) n via)); [constructor|done|done].
  - destruct back; [done|]. destruct Hb as [?|Hb]; [done|]. rewrite Hb. apply (J_op o_send (fun L => markRefused L (p_id p) n)); [constructor|done|done].
  - apply J_others; [|done]. apply He. left.
Qed.
Lemma J_writes back t image s : (back = true \/ a_seq t = n) -> J (ledger s) -> J (ledger (writes (p_id p) back (p_writer p) t image s).2).
Proof.
  intros Hb HJ. unfold writes. pose proof (polite_write _ _ _ p_polite (a_key t) image (world s)) as Hp.
  destruct (write _ _ _ _) as [[w events] a]. by apply J_events.
Qed.

Lemma J_writeOne t s : a_seq t = n -> keeps_at (fun s => J (ledger s)) (writeOne p t) s.
Proof.
  intros Ht. apply keeps_bind; [intros HJ; by apply J_reads|]. intros a s0 _.
  destruct a as [cur title| | |e]; try apply keeps_ret. destruct (in_place _ _ _ _ _); [apply keeps_ret|].
  destruct (negb _); [apply keeps_ret|]. destruct (negb _); [apply keeps_ret|]. apply keeps_asks. destruct (_ && _); [apply keeps_ret|].
  apply keeps_bind; [intros HJ; exact HJ|]. intros via s1 _. apply keeps_bind.
  { destruct (reportsSend _); [apply keeps_ret|]. intros HJ. rewrite Ht. apply (J_op o_send (fun L => markSent L (p_id p) n via)); [constructor|done|exact HJ]. }
  intros _ s2 _. apply keeps_bind; [intros HJ; apply J_writes; [by right|exact HJ]|]. intros out s3 _. apply keeps_ret.
Qed.
Lemma J_back_one t b s : keeps_at (fun s => J (ledger s)) (back_one p t b) s.
Proof.
  apply keeps_bind; [intros HJ; by apply J_reads|]. intros a s0 _.
  assert (forall (f : Z -> Ledger -> Ledger) s, (forall x L, J L -> J (f x L)) ->
    keeps_at (fun s => J (ledger s)) (x ← outside (now (p_deps p)); _ ← changes (f x); mret true) s) as Hrec.
  { intros f s1 Hf. apply keeps_bind; [intros HJ; unfold outside; by destruct (now _ _)|]. intros x s2 _. apply keeps_bind; [|intros; apply keeps_ret].
    intros HJ. by apply Hf. }
  assert (forall x L, J L -> J (recordUnrecordedSettled L (p_id p) (a_seq t) x)) as Hs.
  { intros x L. apply (J_op o_other (fun L => recordUnrecordedSettled L (p_id p) (a_seq t) x)); [constructor|done]. }
  assert (forall x L, J L -> J (recordRolledBack L (p_id p) (a_seq t) x)) as Hk.
  { intros x L. apply (J_op o_other (fun L => recordRolledBack L (p_id p) (a_seq t) x)); [constructor|done]. }
  destruct a as [cur title| | |e]; try apply keeps_ret. destruct (_ && _); [by apply Hrec|]. destruct (negb _); [apply keeps_ret|].
  apply keeps_bind; [intros HJ; apply J_writes; [by left|exact HJ]|]. intros out s3 _. destruct out; try apply keeps_ret;
    apply Hrec; destruct b; done.
Qed.

Hypothesis J_fail : forall f L, op (p_id p) n o_fail f -> J L -> J (f L).
Lemma ledger_laws : pass_laws (fun s => J (ledger s)) p n.
Proof.
  split.
  - done.
  - intros f s Ho HJ. by eapply J_op.
  - intros f s Ho HJ. by eapply J_fail.
  - intros t s HJ Ht. apply J_writeOne; [|done]. unfold loadTarget in Ht. destruct (target_of _ _ _); [|done]. by eapply toApplyTarget_seq.
  - intros t b s s0 _ _ HJ. by apply J_back_one.
  - intros s HJ. unfold yields. pose proof (polite_yield _ _ _ p_polite (world s)) as Hy. destruct (yieldToLoop _ _) as [w f]. by apply J_others.
Qed.
End Ledgers.

(** Others may halt the run, read it, or work on other runs. *)
Definition quiet (i : string) (f : Ledger -> Ledger) : Prop := forall L r, runs L !! i = Some r ->
  exists r', runs (f L) !! i = Some r' /\ targets r' = targets r /\ approval r' = approval r /\ targets_failed r' = targets_failed r.

Lemma quiet_touch {X} (view : Target -> X) i f n L : quiet i f -> touch view i n 0 L (f L).
Proof.
  intros H r Hr. destruct (H L r Hr) as (r' & Hr' & Ht & Ha & Hf). exists r'. split; [done|].
  split; [done|lia|by rewrite Ht|]. intros m _. by rewrite Ht.
Qed.

Definition sent_flag (t : Target) : bool := sent_applied t || write_sent (life t).
Lemma sent_flag_view t u : sends t = sends u -> sent_flag t = sent_flag u.
Proof. unfold sends, sent_flag, sent_applied. by intros [= _ -> -> ->]. Qed.

(** Two lists alike but at one place. *)
Lemma count_but_one {A X} (P : A -> bool) (g : A -> X) n (l l' : list A) : (forall x y, g x = g y -> P x = P y) -> length l' = length l ->
  (forall m, m <> n -> g <$> l' !! m = g <$> l !! m) ->
  (length (filter (fun x => P x = true) l') <= length (filter (fun x => P x = true) l) +
    match l !! n with Some x => if P x then 0 else 1 | None => 0 end)%nat.
Proof.
  intros HP. revert n l'. induction l as [|x l IH]; intros n [|x' l'] Hlen H; try discriminate Hlen; [cbn; lia|].
  injection Hlen as Hlen. rewrite !filter_cons. destruct n as [|n]; cbn [lookup list_lookup].
  - assert (length (filter (fun x => P x = true) l') <= length (filter (fun x => P x = true) l))%nat as Hl.
    { specialize (IH (length l) l' Hlen). rewrite lookup_ge_None_2, Nat.add_0_r in IH by lia. apply IH.
      intros m Hm. apply (H (S m)). lia. }
    destruct (P x); repeat case_decide; cbn [length]; try done; lia.
  - specialize (IH n l' Hlen ltac:(intros m Hm; apply (H (S m)); lia)). pose proof (H 0%nat ltac:(lia)) as Hx. injection Hx as Hx.
    rewrite (HP _ _ Hx). change ((x :: l) !! S n) with (l !! n). case_decide; cbn [length]; [apply le_n_S; exact IH|exact IH].
Qed.

Lemma sentCount_near n d r r' : near sends n d r r' ->
  sentCount r' <= sentCount r + match targets r !! n with Some t => if sent_flag t then 0 else 1 | None => 0 end.
Proof.
  intros [_ _ Hlen Ht]. unfold sentCount, count_targets.
  pose proof (count_but_one sent_flag sends n (targets r) (targets r') sent_flag_view Hlen Ht) as H. unfold sent_flag in *.
  destruct (targets r !! n) as [t|]; [destruct (_ || _)|]; lia.
Qed.

Section Quiet.
Variables (i : string) (p : Pass).
Hypothesis p_of : p_id p = i.
Hypothesis p_quiet : polite (quiet i) (p_deps p) (p_writer p).

(** The laws of a ledger but for one target, from [L1] on. *)
Lemma touch_laws L1 n : pass_laws (fun s => exists d, touch sends i n d L1 (ledger s)) p n.
Proof.
  apply (ledger_laws (fun L => exists d, touch sends i n d L1 L) (quiet i)); [done| | |].
  - intros f L Hf [d H]. exists d. eapply touch_trans0; [exact H|]. by apply quiet_touch.
  - intros c f L Ho _ [d H]. rewrite p_of in Ho. exists (d + op_failures c). eapply touch_trans; [exact H|by apply op_touch].
  - intros f L Ho [d H]. rewrite p_of in Ho. exists (d + 1). eapply touch_trans; [exact H|by apply (op_touch sends i n o_fail)].
Qed.

(** The cap, and what a run holds it to. *)
Variables (a0 : Approval) (k : Z).
Definition under_cap (L : Ledger) : Prop := exists r, runs L !! i = Some r /\ approval r = a0 /\ sentCount r <= k.

Lemma under_cap_touch n L L' d : under_cap L -> touch sends i n d L L' ->
  (forall r t, runs L !! i = Some r -> targets r !! n = Some t -> sent_flag t = false -> sentCount r < k) -> under_cap L'.
Proof.
  intros (r & Hr & Ha & Hk) Ht Hn. destruct (Ht r Hr) as (r' & Hr' & N). exists r'. split; [done|].
  split; [rewrite <-Ha; apply N|]. pose proof (sentCount_near n d r r' N) as Hc.
  destruct (targets r !! n) as [t|] eqn:E1; [|lia]. destruct (sent_flag t) eqn:E2; [lia|]. pose proof (Hn r t Hr E1 E2). lia.
Qed.

Lemma under_cap_quiet f L : quiet i f -> under_cap L -> under_cap (f L).
Proof.
  intros Hf HL. assert (HL' := HL). destruct HL' as (r & Hr & _). apply (under_cap_touch (length (targets r)) L _ 0 HL); [by apply quiet_touch|].
  intros r' t Hr' Ht. assert (r' = r) as -> by congruence. apply lookup_lt_Some in Ht. lia.
Qed.

(** What a computation does that is lawful at a place no target has. *)
Lemma under_cap_lawful {A} (m : M A) s : (forall n, keeps_at (fun s' => exists d, touch sends i n d (ledger s) (ledger s')) m s) ->
  under_cap (ledger s) -> under_cap (ledger (m s).2).
Proof.
  intros Hm HL. assert (HL' := HL). destruct HL' as (r & Hr & _).
  destruct (Hm (length (targets r))) as [d Hd]; [exists 0; apply touch_refl|].
  apply (under_cap_touch (length (targets r)) (ledger s) _ d HL Hd).
  intros r' t Hr' Ht. assert (r' = r) as -> by congruence. apply lookup_lt_Some in Ht. lia.
Qed.

Lemma rollBack_cap cause s : under_cap (ledger s) -> under_cap (ledger (rollBack p cause s).2).
Proof. apply under_cap_lawful. intros n. destruct (touch_laws (ledger s) n). by eapply keeps_rollBack. Qed.
Lemma halts_cap h st pl s : under_cap (ledger s) -> under_cap (ledger (halts p h st pl s).2).
Proof. apply under_cap_lawful. intros n. destruct (touch_laws (ledger s) n). by eapply keeps_halts. Qed.
Lemma endStopped_cap s : under_cap (ledger s) -> under_cap (ledger (endStopped p s).2).
Proof. apply under_cap_lawful. intros n. destruct (touch_laws (ledger s) n). by eapply keeps_endStopped. Qed.
Lemma after_loop_cap a b s : under_cap (ledger s) -> under_cap (ledger (after_loop p a b s).2).
Proof. apply under_cap_lawful. intros n. destruct (touch_laws (ledger s) n). by eapply keeps_after_loop. Qed.

Lemma claim_done L n t x : target_of L i n = Some x -> is_null (applied_at (life x)) = false -> claimTarget L i n t = (L, false).
Proof. intros Hx Ha. unfold claimTarget, update_target_if. by rewrite Hx, Ha. Qed.

Abbreviation caps := (keeps_at (fun s => under_cap (ledger s))).
Lemma attempt_done n c a b s x : target_of (ledger s) i n = Some x -> is_null (applied_at (life x)) = false -> caps (attempt p n c a b) s.
Proof.
  intros Hx Ha HL. unfold attempt, mbind, M_bind, outside, asks, steps. destruct (now _ _) as [w t]. cbn [world ledger calls]. rewrite p_of.
  destruct (_ <? t).
  - unfold ends, mbind, M_bind. set (s1 := {| world := w; ledger := ledger s; calls := calls s |}).
    destruct (_ && _).
    + pose proof (rollBack_cap c_time s1 HL) as H. by destruct (rollBack p c_time s1).
    + pose proof (halts_cap h_timeBudget st_halted false s1 HL) as H. by destruct (halts p h_timeBudget st_halted false s1).
  - cbn [world ledger calls]. destruct (now (p_deps p) w) as [w' t']. cbn [world ledger calls]. by rewrite (claim_done _ _ _ x).
Qed.
Lemma attempt_cap n c a b s r : runs (ledger s) !! i = Some r -> (k <=? sentCount r) && negb (wasSent (ledger s) i n) = false ->
  caps (attempt p n c a b) s.
Proof.
  intros Hr Hopen. destruct (targets r !! n) as [t|] eqn:Ht.
  - destruct (decide (sent_flag t = false /\ k <= sentCount r)) as [[Hf Hk]|Hno].
    + apply attempt_done with t; [unfold target_of; by rewrite Hr|].
      rewrite (proj2 (Z.leb_le _ _) Hk) in Hopen. unfold wasSent, target_of in Hopen. rewrite Hr in Hopen. cbn in Hopen. rewrite Ht in Hopen.
      unfold sent_flag in Hf. apply orb_false_iff in Hf as [_ Hw]. rewrite Hw in Hopen. by destruct (applied_at (life t)).
    + intros HL. destruct (touch_laws (ledger s) n) as [A1 A2 A3 A4 A5 A6].
      destruct (keeps_attempt _ p n A1 A2 A4 A5 A3 c a b s) as [d Hd]; [exists 0; apply touch_refl|].
      apply (under_cap_touch n (ledger s) _ d HL Hd). intros r' t' Hr' Ht' Hf. assert (r' = r) as -> by congruence. assert (t' = t) as -> by congruence. destruct (Z.lt_ge_cases (sentCount r) k); [done|by destruct Hno].
  - intros HL. destruct (touch_laws (ledger s) n) as [A1 A2 A3 A4 A5 A6].
    destruct (keeps_attempt _ p n A1 A2 A4 A5 A3 c a b s) as [d Hd]; [exists 0; apply touch_refl|].
    apply (under_cap_touch n (ledger s) _ d HL Hd). intros r' t' Hr' Ht'. congruence.
Qed.

Variable cap : Z.
Hypothesis a0_cap : bulkWriteCap (max_targets a0) (p_probed p) = Some cap.
Hypothesis cap_le : cap <= k.

Lemma turn_cap n c a b s : caps (turn p n c a b) s.
Proof.
  apply keeps_bind.
  { intros HL. unfold yields. pose proof (polite_yield _ _ _ p_quiet (world s)) as Hy. destruct (yieldToLoop _ _) as [w f]. by apply under_cap_quiet. }
  intros _ s1 _. apply keeps_asks. rewrite p_of. unfold id. destruct (runs (ledger s1) !! i) as [r|] eqn:Hr; [|apply keeps_ret].
  destruct (bool_decide _); [apply keeps_ret|]. destruct (_ || _); [apply keeps_ret|].
  apply keeps_bind; [intros HL; exact HL|]. intros stop s2 Hs2.
  assert (ledger s2 = ledger s1) as HL2 by (unfold outside in Hs2; by injection Hs2 as _ <-).
  destruct stop; [apply keeps_ends; intros HL; by apply endStopped_cap|].
  intros HL. destruct (capped p r (ledger s1) n) eqn:Hc; [exact HL|].
  apply (attempt_cap n c a b s2 r); [by rewrite HL2| |exact HL].
  assert (approval r = a0) as Ha by (rewrite HL2 in HL; destruct HL as (r' & Hr' & Ha & _); congruence).
  unfold capped in Hc. rewrite Ha, a0_cap, p_of in Hc. rewrite HL2.
  destruct (Z.leb_spec k (sentCount r)); [|done]. rewrite (proj2 (Z.leb_le _ _)) in Hc by lia. exact Hc.
Qed.

Lemma loop_cap seqs c a b s : caps (loop p seqs c a b) s.
Proof.
  revert c a b s. induction seqs as [|n seqs IH]; intros c a b s; cbn [loop]; [intros HL; by apply after_loop_cap|].
  apply keeps_bind; [apply turn_cap|]. intros t s1 _. destruct t; [apply IH|apply keeps_ret].
Qed.
End Quiet.

(** The ledger a pass begins with. *)
Definition begun (L : Ledger) (i : string) : Ledger := (setPhase L i [approved] writing None).1.
Definition left_alone (D : BulkEffectDeps) (i : string) : Prop := forall r w, writerFor D r = Some w -> polite (quiet i) D w.

(** What holds of the run's row after at most a halt, and after every pass, holds after an effect. *)
Lemma effect_row D i undoing s r (P : RunRow -> RunRow -> Prop) : runs (ledger s) !! i = Some r ->
  P r r -> (forall h, P r (set_phase (phase r) (Some h) r)) ->
  (forall w x c r1, writerFor D r = Some w -> runs (begun (ledger s) i) !! i = Some r1 ->
     near sends (length (targets r)) 0 r r1 -> targets r1 = targets r ->
     forall n, let s1 := {| world := x; ledger := begun (ledger s) i; calls := c |} in
     exists r2, runs (ledger (loop (pass_of D i w r (begun (ledger s) i) n) (listPending (begun (ledger s) i) i) 0 false false s1).2) !! i = Some r2 /\ P r r2) ->
  exists r2, runs (ledger (runBulkEffect D i undoing s).2) !! i = Some r2 /\ P r r2.
Proof.
  intros Hr Hsame Hhalt Hpass. destruct (runBulkEffect_after D i undoing s) as (l & _ & _ & -> & _).
  apply (applyRunEffect_ind D i undoing s (fun s' => exists r2, runs (ledger s') !! i = Some r2 /\ P r r2)).
  - intros s' (f & w & [->|[h ->]] & ->); cbn; [by exists r|]. rewrite lookup_alter_eq, Hr. eexists. split; [done|apply Hhalt].
  - intros r' w x began Hr' _ Hw. assert (r' = r) as -> by congruence.
    unfold run_pass, mbind, M_bind, changes, outside, asks, id. cbn [world ledger calls]. destruct (now D x) as [x' n].
    assert (exists r1, runs (begun (ledger s) i) !! i = Some r1 /\ near sends (length (targets r)) 0 r r1 /\ targets r1 = targets r) as (r1 & Hr1 & N & Ht).
    { unfold begun, setPhase. rewrite Hr. case_bool_decide; cbn [fst].
      - eexists. split; [cbn; by rewrite lookup_alter_eq, Hr|]. split; [|done]. by split; cbn; [|lia| |].
      - exists r. split; [done|]. split; [by apply near_refl|done]. }
    apply (Hpass w x' _ r1 Hw Hr1 N Ht n).
Qed.

(** C31. The cap holds. When no other loop writes the run meanwhile, one effect leaves at most as many
    different targets sent as the approval allows, or as many as had been sent before: with the owner's
    number once a probe holds, with one before that. A write of unclear effect counts as sent, a target
    found as it was to become does not. *)
Theorem the_cap_holds D i undoing s r cap : left_alone D i -> runs (ledger s) !! i = Some r ->
  bulkWriteCap (max_targets (approval r)) (probeHoldsFor E (begun (ledger s) i) i) = Some cap ->
  exists r', runs (ledger (runBulkEffect D i undoing s).2) !! i = Some r' /\ sentCount r' <= Z.max (sentCount r) cap.
Proof.
  intros Hq Hr Hcap. apply (effect_row D i undoing s r (fun r r' => sentCount r' <= Z.max (sentCount r) cap) Hr); [lia|intros h; cbn; unfold sentCount, count_targets; cbn; lia|].
  intros w x c r1 Hw Hr1 N Ht n s1.
  destruct (loop_cap i (pass_of D i w r (begun (ledger s) i) n) eq_refl (Hq r w Hw) (approval r) (Z.max (sentCount r) cap) cap Hcap ltac:(lia)
    (listPending (begun (ledger s) i) i) 0 false false s1) as (r2 & Hr2 & _ & Hc); [|by exists r2].
  exists r1. split; [done|]. split; [apply N|]. unfold sentCount, count_targets. rewrite Ht. unfold sentCount, count_targets. lia.
Qed.

(** ** How many failures *)

Section Failures.
Variables (i : string) (p : Pass).
Hypothesis p_of : p_id p = i.
Hypothesis p_quiet : polite (quiet i) (p_deps p) (p_writer p).
Definition failures (b : Z) (L : Ledger) : Prop := exists r, runs L !! i = Some r /\ targets_failed r <= b.

Lemma failures_touch n d L L' b : failures b L -> touch sends i n d L L' -> failures (b + d) L'.
Proof. intros (r & Hr & Hb) Ht. destruct (Ht r Hr) as (r' & Hr' & [_ Hf _ _]). exists r'. split; [done|lia]. Qed.
Lemma failures_op n c f L b : op i n c f -> c <> o_fail -> failures b L -> failures b (f L).
Proof.
  intros Ho Hc HL. pose proof (op_touch sends i n c f L ltac:(done) Ho) as Ht. unfold op_failures in Ht. rewrite decide_False in Ht by done.
  pose proof (failures_touch n 0 L (f L) b HL Ht) as H. by rewrite Z.add_0_r in H.
Qed.
Lemma failures_quiet f L b : quiet i f -> failures b L -> failures b (f L).
Proof. intros Hf (r & Hr & Hb). destruct (Hf L r Hr) as (r' & Hr' & _ & _ & He). exists r'. split; [done|lia]. Qed.
Lemma failures_more b b' L : b <= b' -> failures b L -> failures b' L.
Proof. intros Hb (r & Hr & H). exists r. split; [done|lia]. Qed.

Abbreviation J b := (fun s : State => failures b (ledger s)).
Lemma failures_write b t s : keeps_at (J b) (writeOne p t) s.
Proof.
  apply (J_writeOne (failures b) (quiet i) p (a_seq t)); [done|by intros; apply failures_quiet| |done].
  intros c f L Ho Hc. rewrite p_of in Ho. by eapply failures_op.
Qed.
Lemma failures_back b t x s : keeps_at (J b) (back_one p t x) s.
Proof.
  apply (J_back_one (failures b) (quiet i) p 0); [done|by intros; apply failures_quiet|].
  intros c f L Ho Hc. rewrite p_of in Ho. by eapply failures_op.
Qed.
Lemma failures_other b n f s : op (p_id p) n o_other f -> J b s -> J b (with_ledger (f (ledger s)) s).
Proof. intros Ho. rewrite p_of in Ho. by eapply failures_op. Qed.
Lemma failures_rollBack b cause s : keeps_at (J b) (rollBack p cause) s.
Proof. apply (keeps_rollBack _ p 0); [intros f s1; by apply failures_other|intros; by apply failures_back]. Qed.
Lemma failures_halts b h st pl s : keeps_at (J b) (halts p h st pl) s.
Proof. apply (keeps_halts _ p 0). intros f s1. by apply failures_other. Qed.
Lemma failures_endStopped b s : keeps_at (J b) (endStopped p) s.
Proof. apply (keeps_endStopped _ p 0); [intros f s1; by apply failures_other|intros; by apply failures_back]. Qed.
Lemma failures_after_loop b x y s : keeps_at (J b) (after_loop p x y) s.
Proof.
  apply (keeps_after_loop _ p 0); [by intros|intros f s1; by apply failures_other|intros; by apply failures_back].
Qed.

Variable b : Z.
Hypothesis b_limit : bulkFailureLimit (p_total p) <= b.
(** A turn that goes on leaves the bound, one that ends may pass it by one. *)
Definition bounded (m : M Turn) (s : State) : Prop := failures b (ledger s) ->
  failures (match (m s).1 with Next _ _ _ => b | End _ => b + 1 end) (ledger (m s).2).
Lemma bounded_ends m s : keeps_at (J (b + 1)) m s -> bounded (ends m) s.
Proof.
  intros H HJ. unfold ends, mbind, M_bind. specialize (H (failures_more b (b + 1) _ ltac:(lia) HJ)). by destruct (m s).
Qed.
Lemma bounded_keeps m s : keeps_at (J b) m s -> bounded m s.
Proof. intros H HJ. specialize (H HJ). eapply failures_more; [|exact H]. destruct (m s).1; lia. Qed.
Lemma bounded_bind {A} (m : M A) f s : keeps_at (J b) m s -> (forall a s', m s = (a, s') -> bounded (f a) s') -> bounded (m ≫= f) s.
Proof.
  intros Hm Hf HJ. specialize (Hm HJ). unfold mbind, M_bind. destruct (m s) as [a s'] eqn:E1. by apply (Hf a s').
Qed.

Lemma bounded_op n f (k : unit -> M Turn) s : op (p_id p) n o_other f -> (forall s', bounded (k tt) s') -> bounded (changes f ≫= k) s.
Proof.
  intros Ho Hk. apply bounded_bind; [intros HJ; by apply (failures_other b n)|]. intros [] s' _. apply Hk.
Qed.
Lemma bounded_next x y z s : bounded (mret (Next x y z)) s.
Proof. intros HJ. exact HJ. Qed.
Lemma bounded_end o s : bounded (mret (End o)) s.
Proof. intros HJ. eapply failures_more; [|exact HJ]. cbn. lia. Qed.
Lemma bounded_outside {A} (f : W -> W * A) k s : (forall a s', bounded (k a) s') -> bounded (outside f ≫= k) s.
Proof.
  intros Hk. apply bounded_bind; [|intros a s' _; apply Hk]. intros HJ. unfold outside. by destruct (f (world s)).
Qed.
Lemma bounded_asks {A} (g : Ledger -> A) k s : bounded (k (g (ledger s))) s -> bounded (asks g ≫= k) s.
Proof. intros H HJ. exact (H HJ). Qed.

Lemma bounded_settle n via c x y o s : bounded (settle p n via c x y o) s.
Proof.
  destruct o as [res actual markup rewrote|e|h]; cbn [settle].
  - apply bounded_outside. intros t s1. eapply bounded_op; [apply op_applied|]. intros s2.
    destruct markup; [apply bounded_ends, failures_halts|apply bounded_next].
  - destruct (decide (e ∈ NOT_FAILURES)) as [He|He].
    + eapply bounded_op; [pose proof (op_failed (p_id p) n e via) as Ho; by rewrite decide_True in Ho|]. intros s2.
      destruct e; try (exfalso; apply (bool_decide_pack _) in He; by vm_compute in He); try apply bounded_next.
      destruct (p_atomic p); [apply bounded_ends, failures_rollBack|apply bounded_next].
    + intros HJ. unfold mbind, M_bind, changes. set (s1 := {| world := world s; ledger := recordFailed (ledger s) (p_id p) n e via; calls := calls s |}).
      assert (failures (b + 1) (ledger s1)) as HJ1.
      { unfold s1. cbn [ledger]. rewrite p_of. apply (failures_touch n 1 (ledger s)); [exact HJ|].
        pose proof (op_touch sends i n _ _ (ledger s) ltac:(done) (op_failed i n e via)) as Ht. by rewrite decide_False in Ht. }
      assert (forall m, keeps_at (J (b + 1)) m s1 -> failures (match (ends m s1).1 with Next _ _ _ => b | End _ => b + 1 end) (ledger (ends m s1).2)) as Hend.
      { intros m Hm. specialize (Hm HJ1). unfold ends, mbind, M_bind. by destruct (m s1). }
      destruct e; try (exfalso; apply He; by apply (bool_decide_unpack _)); (destruct (p_atomic p); [apply Hend, failures_rollBack|]);
        unfold asks; (destruct (_ <=? _); [apply Hend, failures_halts|]);
        (destruct (_ <? _) eqn:Hlim; [apply Hend, failures_halts|]);
        destruct HJ1 as (r & Hr & _); exists r; (split; [exact Hr|]); rewrite p_of, Hr in Hlim; apply Z.ltb_ge in Hlim; change (targets_failed r <= b); lia.
  - eapply bounded_op; [apply op_release|]. intros s2. apply bounded_ends, failures_halts.
Qed.
Lemma bounded_attempt n c x y s : bounded (attempt p n c x y) s.
Proof.
  apply bounded_outside. intros t s1. destruct (_ <? t).
  - apply bounded_asks. destruct (_ && _); apply bounded_ends; [apply failures_rollBack|apply failures_halts].
  - apply bounded_outside. intros t' s2. apply bounded_bind.
    { intros HJ. unfold steps. pose proof (failures_other b n _ s2 (op_claim _ n t') HJ) as H. cbn in H. by destruct (claimTarget _ _ _ _). }
    intros claimed s3 _. destruct claimed; [|apply bounded_next]. cbn [negb]. apply bounded_asks.
    destruct (loadTarget _ _ _) as [t0|]; [|apply bounded_next]. apply bounded_bind; [apply failures_write|]. intros o s4 _.
    apply bounded_outside. intros via s5. apply bounded_settle.
Qed.
Lemma bounded_turn n c x y s : bounded (turn p n c x y) s.
Proof.
  apply bounded_bind.
  { intros HJ. unfold yields. pose proof (polite_yield _ _ _ p_quiet (world s)) as Hy. destruct (yieldToLoop _ _). by apply failures_quiet. }
  intros _ s1 _. apply bounded_asks. unfold id. destruct (runs (ledger s1) !! p_id p) as [r|]; [|apply bounded_end].
  destruct (bool_decide _); [apply bounded_end|]. destruct (_ || _); [apply bounded_end|]. apply bounded_outside. intros stop s2.
  destruct stop; [apply bounded_ends, failures_endStopped|]. destruct (capped _ _ _ _); [apply bounded_next|apply bounded_attempt].
Qed.
Lemma bounded_loop seqs c x y s : failures b (ledger s) -> failures (b + 1) (ledger (loop p seqs c x y s).2).
Proof.
  revert c x y s. induction seqs as [|n seqs IH]; intros c x y s HJ; cbn [loop].
  - apply failures_after_loop. eapply failures_more; [|exact HJ]. lia.
  - pose proof (bounded_turn n c x y s HJ) as Ht. unfold mbind, M_bind. destruct (turn p n c x y s) as [[c' x' y'|o] s1]; [by apply IH|exact Ht].
Qed.
End Failures.

(** Failures stop a run. When no other loop writes the run meanwhile, one effect leaves at most one
    failure more than the larger of the failures it began with and a twentieth of the targets to write: the
    failure that passes the limit is the last. Conflicts and unclear sends are not counted. *)
Theorem failures_are_bounded D i undoing s r : left_alone D i -> runs (ledger s) !! i = Some r ->
  exists r', runs (ledger (runBulkEffect D i undoing s).2) !! i = Some r' /\
    targets_failed r' <= Z.max (targets_failed r) (bulkFailureLimit (countWriting r)) + 1.
Proof.
  intros Hq Hr. set (b := Z.max (targets_failed r) (bulkFailureLimit (countWriting r))).
  apply (effect_row D i undoing s r (fun _ r' => targets_failed r' <= b + 1) Hr); [lia|intros h; cbn; lia|].
  intros w x c r1 Hw Hr1 N Ht n s1.
  apply (bounded_loop i (pass_of D i w r (begun (ledger s) i) n) eq_refl (Hq r w Hw) b).
  - cbn [p_total pass_of]. rewrite Hr1. assert (countWriting r1 = countWriting r) as -> by (unfold countWriting, count_targets; by rewrite Ht). lia.
  - exists r1. split; [done|]. destruct N as [_ Hf _ _]. lia.
Qed.

(** ** A send of unclear effect *)

Section Unclear.
Variables (i : string) (p : Pass) (n0 : nat) (calls0 : list Call).
Hypothesis p_of : p_id p = i.
Hypothesis p_quiet : polite (quiet i) (p_deps p) (p_writer p).
Hypothesis p_reports : reportsSend (p_writer p) = true.

Definition unclear_at (L : Ledger) : Prop := hasUnknownSend L i n0 = true.
Definition not_written (s : State) : Prop := unclear_at (ledger s) /\
  exists new, calls s = calls0 ++ new /\ forall t a, Writes t a ∈ new -> a_seq t <> n0.

Lemma unclear_touch n d L L' : unclear_at L -> touch unclear i n d L L' -> n <> n0 -> unclear_at L'.
Proof.
  unfold unclear_at, hasUnknownSend, target_of. destruct (runs L !! i) as [r|] eqn:Hr; [|done]. cbn [mbind option_bind].
  intros Hu Ht Hn. destruct (Ht r Hr) as (r' & -> & [_ _ _ Hv]). specialize (Hv n0 ltac:(congruence)). cbn [mbind option_bind].
  destruct (targets r !! n0), (targets r' !! n0); try done. injection Hv as Hv. unfold unclear in Hv. by rewrite Hv.
Qed.
Lemma unclear_quiet f L : quiet i f -> unclear_at L -> unclear_at (f L).
Proof. intros Hf Hu. eapply (unclear_touch (S n0) 0); [exact Hu|by apply quiet_touch|lia]. Qed.
Lemma unclear_op n c f L : op i n c f -> n <> n0 \/ c <> o_send -> unclear_at L -> unclear_at (f L).
Proof.
  intros Ho [Hn|Hc] Hu.
  - eapply (unclear_touch n); [exact Hu|by apply op_touch|done].
  - eapply (unclear_touch (S n0)); [exact Hu|by eapply op_unclear|lia].
Qed.

(** Calls that write no [n0]. *)
Lemma not_written_more s s' new : not_written s -> unclear_at (ledger s') -> calls s' = calls s ++ new ->
  (forall t a, Writes t a ∈ new -> a_seq t <> n0) -> not_written s'.
Proof.
  intros (_ & old & Hc & Ho) Hu Hc' Hn. split; [done|]. exists (old ++ new). split; [by rewrite Hc', Hc, app_assoc|].
  intros t a [Ht|Ht]%elem_of_app; eauto.
Qed.
Lemma not_written_op n c f s : op i n c f -> n <> n0 \/ c <> o_send -> not_written s -> not_written (with_ledger (f (ledger s)) s).
Proof. intros Ho Hc [Hu H]. split; [by eapply unclear_op|exact H]. Qed.

Lemma not_written_reads back t fields s : keeps_at not_written (reads back (p_writer p) t fields) s.
Proof.
  intros HI. assert (unclear_at (ledger (reads back (p_writer p) t fields s).2)) as Hu.
  { apply (J_reads unclear_at (quiet i) p p_quiet); [intros; by apply unclear_quiet|apply HI]. }
  revert Hu. unfold reads. destruct (read _ _ _ _) as [[w f] a]. intros Hu.
  eapply not_written_more; [exact HI|exact Hu|reflexivity|]. intros x a' Hx. apply list_elem_of_singleton in Hx. by destruct back.
Qed.
Lemma not_written_writes back t image s : back = true \/ a_seq t <> n0 -> keeps_at not_written (writes i back (p_writer p) t image) s.
Proof.
  intros Hb HI. assert (unclear_at (ledger (writes i back (p_writer p) t image s).2)) as Hu.
  { rewrite <-p_of. destruct back.
    - apply (J_writes unclear_at (quiet i) p (S n0) p_quiet); [intros; by apply unclear_quiet| |by left|apply HI].
      intros c f L Ho Hc. rewrite p_of in Ho. eapply unclear_op; [exact Ho|left; lia].
    - destruct Hb as [?|Hb]; [done|]. apply (J_writes unclear_at (quiet i) p (a_seq t) p_quiet); [intros; by apply unclear_quiet| |by right|apply HI].
      intros c f L Ho Hc. rewrite p_of in Ho. eapply unclear_op; [exact Ho|by left]. }
  revert Hu. unfold writes. destruct (write _ _ _ _) as [[w events] a]. intros Hu.
  eapply not_written_more; [exact HI|exact Hu|reflexivity|]. intros x a' Hx. apply list_elem_of_singleton in Hx.
  destruct back; [done|]. destruct Hb as [?|Hb]; [done|]. by injection Hx as -> _.
Qed.

Lemma not_written_writeOne t s : keeps_at not_written (writeOne p t) s.
Proof.
  apply keeps_bind; [apply not_written_reads|]. intros a s1 _. destruct a as [cur title| | |e]; try apply keeps_ret.
  destruct (in_place _ _ _ _ _); [apply keeps_ret|]. destruct (negb _); [apply keeps_ret|]. destruct (negb _); [apply keeps_ret|].
  apply keeps_asks. rewrite p_reports, p_of. cbn [andb]. destruct (decide (a_seq t = n0)) as [Hn|Hn].
  - intros HI. assert (hasUnknownSend (ledger s1) i (a_seq t) = true) as -> by (rewrite Hn; apply HI). exact HI.
  - destruct (hasUnknownSend _ _ _); [apply keeps_ret|]. apply keeps_bind; [intros HI; exact HI|]. intros via s2 _.
    apply keeps_bind; [apply keeps_ret|]. intros _ s3 _. apply keeps_bind; [apply not_written_writes; by right|]. intros out s4 _. apply keeps_ret.
Qed.
Lemma not_written_back t b s : keeps_at not_written (back_one p t b) s.
Proof.
  apply keeps_bind; [apply not_written_reads|]. intros a s1 _. rewrite p_of.
  assert (forall f s, (forall x, op i 0 o_other (f x)) -> keeps_at not_written (x ← outside (now (p_deps p)); _ ← changes (f x); mret true) s) as Hrec.
  { intros f s2 Hf. apply keeps_bind; [intros HI; unfold outside; by destruct (now _ _)|]. intros x s3 _. apply keeps_bind; [|intros; apply keeps_ret].
    intros HI. eapply not_written_op; [apply Hf|by right|exact HI]. }
  destruct a as [cur title| | |e]; try apply keeps_ret. destruct (_ && _); [apply Hrec; intros x; constructor|]. destruct (negb _); [apply keeps_ret|].
  apply keeps_bind; [apply not_written_writes; by left|]. intros out s3 _. destruct out; try apply keeps_ret; apply Hrec; intros x; destruct b; constructor.
Qed.

Lemma not_written_laws n : pass_laws not_written p n.
Proof.
  split.
  - done.
  - intros f s Ho HI. rewrite p_of in Ho. eapply not_written_op; [exact Ho|by right|exact HI].
  - intros f s Ho HI. rewrite p_of in Ho. eapply not_written_op; [exact Ho|by right|exact HI].
  - intros t s HI _. by apply not_written_writeOne.
  - intros t b s s0 _ _ HI. by apply not_written_back.
  - intros s [Hu H]. unfold yields. pose proof (polite_yield _ _ _ p_quiet (world s)) as Hy. destruct (yieldToLoop _ _) as [w f].
    split; [by apply unclear_quiet|exact H].
Qed.
End Unclear.

(** An unclear send is not repeated. On a writer that reports its sends, a target whose earlier send
    may have gone out is not written by an effect, whatever the host is read to hold, and stays so
    marked: it is found as it was to become, or recorded as unclear. *)
Theorem an_unclear_send_is_not_repeated D i undoing s n : (forall r w, writerFor D r = Some w -> polite (quiet i) D w /\ reportsSend w = true) ->
  hasUnknownSend (ledger s) i n = true ->
  hasUnknownSend (ledger (runBulkEffect D i undoing s).2) i n = true /\
  exists new, calls (runBulkEffect D i undoing s).2 = calls s ++ new /\ forall t a, Writes t a ∈ new -> a_seq t <> n.
Proof.
  intros Hw Hu. destruct (runBulkEffect_after D i undoing s) as (l & Hl & _ & -> & ->).
  assert (forall (t : ApplyTarget) a, Writes t a ∈ l -> a_seq t <> n) as Hl'.
  { intros t a Ht. destruct Hl as [->|(o & x & y & ->)]; [by apply elem_of_nil in Ht|by apply list_elem_of_singleton in Ht]. }
  assert (not_written i n (calls s) (applyRunEffect D i undoing s).2) as (Hu' & new & -> & Hnew).
  2:{ split; [exact Hu'|]. exists (new ++ l). split; [by rewrite app_assoc|]. intros t a [Ht|Ht]%elem_of_app; eauto. }
  assert (forall f, f = id \/ (exists h, f = fun L => halt L i h) \/ f = (fun L => begun L i) -> hasUnknownSend (f (ledger s)) i n = true) as Hf.
  { intros f [->|[[h ->]| ->]]; [done| |].
    - apply (unclear_op i n 0 o_other (fun L => halt L i h)); [apply op_halt|by right|exact Hu].
    - apply (unclear_op i n 0 o_other (fun L => begun L i)); [apply op_begin|by right|exact Hu]. }
  apply applyRunEffect_ind.
  - intros s' (f & w & Hfw & ->). split; [apply Hf; tauto|]. exists []. split; [cbn; by rewrite app_nil_r|by intros t a ?%elem_of_nil].
  - intros r w x began Hr _ Hwr. destruct (Hw r w Hwr) as [Hq Hrep]. unfold run_pass, mbind, M_bind, changes, outside, asks, id. cbn [world ledger calls].
    destruct (now D x) as [x' m].
    apply (keeps_loop _ (pass_of D i w r (begun (ledger s) i) m)); [intros k; by apply not_written_laws|].
    split; [apply (Hf (fun L => begun L i)); tauto|]. eexists. split; [reflexivity|]. intros t a Ht.
    destruct began; [by apply list_elem_of_singleton in Ht|by apply elem_of_nil in Ht].
Qed.
End Apply.

(** ** An effect to try them on *)

Definition sample_writer : TargetWriter (W := unit) :=
  {| readsBack := false; reportsSend := true; carried _ := None;
     read _ _ x := (x, id, Image (Present (JStr "old")) None); write _ _ x := (x, [OnSend None], Wrote "written") |}.
Definition sample_deps : BulkEffectDeps (W := unit) :=
  {| writerFor _ := Some sample_writer; now x := (x, 6); yieldToLoop x := (x, id); ownerStopped _ := false; trailFor _ _ := None |}.
Definition sample_state (L : Ledger) : State (W := unit) := {| world := tt; ledger := L; calls := [] |}.
Definition sample_run : RunRow := default (new_run (new_head sample_siblings empty_ledger (sample_origin "r" Owner) apply_ "" None false None None) None
  (new_prep "" None restorable None) planned None []) (runs sample_approved !! "r"%string).

Lemma sample_polite G : G id -> polite G sample_deps sample_writer.
Proof. intros H. split; [done|done|]. intros k image x f Hf. by apply list_elem_of_singleton in Hf. Qed.
Lemma sample_orderly : orderly sample_siblings sample_deps "r".
Proof. intros r w [= <-]. apply sample_polite. intros L _ _. apply rtc_refl. Qed.
Lemma sample_left_alone : left_alone sample_deps "r".
Proof. intros r w [= <-]. apply sample_polite. intros L x Hx. by exists x. Qed.

Lemma an_effect_is_ledger_steps_witness : reachable sample_siblings sample_approved /\
  reachable sample_siblings (ledger (runBulkEffect sample_siblings sample_deps "r" false (sample_state sample_approved)).2).
Proof.
  split; [apply sample_approved_reachable|].
  apply (an_effect_is_ledger_steps sample_siblings sample_deps "r" false (sample_state sample_approved)); [apply sample_approved_reachable|apply sample_orderly].
Defined.

Lemma foreign_changes_are_kept_witness : length (calls (runBulkEffect sample_siblings sample_deps "r" false (sample_state sample_approved)).2) = 4%nat /\
  calls_of sample_siblings sample_approved "r" [] (calls (runBulkEffect sample_siblings sample_deps "r" false (sample_state sample_approved)).2).
Proof.
  split; [reflexivity|].
  apply (foreign_changes_are_kept sample_siblings sample_deps "r" false (sample_state sample_approved)); [apply sample_approved_reachable|apply sample_orderly].
Defined.

Lemma the_cap_holds_witness : sentCount sample_run = 0 /\ exists r',
  runs (ledger (runBulkEffect sample_siblings sample_deps "r" false (sample_state sample_approved)).2) !! "r"%string = Some r' /\ sentCount r' <= 2.
Proof.
  split; [reflexivity|].
  apply (the_cap_holds sample_siblings sample_deps "r" false (sample_state sample_approved) sample_run 2); [apply sample_left_alone|reflexivity|reflexivity].
Defined.

Lemma failures_are_bounded_witness : targets_failed sample_run = 0 /\ exists r',
  runs (ledger (runBulkEffect sample_siblings sample_deps "r" false (sample_state sample_approved)).2) !! "r"%string = Some r' /\ targets_failed r' <= 1.
Proof.
  split; [reflexivity|].
  apply (failures_are_bounded sample_siblings sample_deps "r" false (sample_state sample_approved) sample_run); [apply sample_left_alone|reflexivity].
Defined.

Definition sample_unclear : Ledger := markSent sample_approved "r" 0 None.
Lemma an_unclear_send_is_not_repeated_witness : hasUnknownSend sample_unclear "r" 0 = true /\
  hasUnknownSend (ledger (runBulkEffect sample_siblings sample_deps "r" false (sample_state sample_unclear)).2) "r" 0 = true.
Proof.
  split; [reflexivity|].
  apply (an_unclear_send_is_not_repeated sample_siblings sample_deps "r" false (sample_state sample_unclear) 0); [|reflexivity].
  intros r w Hw. split; [by apply (sample_left_alone r)|]. by injection Hw as <-.
Defined.
