(* ===== verification/BulkUndo.v ===== *)
(** Bulk changes, workspace files: the writer of [core/bulk-apply.ts] over a file system, a pass that
    nothing disturbs, and an apply taken back by its undo.

    A file system is a map of absolute paths; directories above a file are made as needed and are not
    part of it, and a temporary file that is renamed is the renamed file. What a path resolves to, the
    UTF-8 coding of texts, the process's umask and the disk's errors are arguments. *)
From S2P Require Import Prelude Num JsString JsValue Principal BulkData BulkLedger BulkLaws BulkApply.
Open Scope Z_scope.

Inductive Node := RegularFile (content : string) (mode : Z) | Symlink | OtherNode.
Abbreviation Files := (gmap string Node).

(** @src src/src/core/bulk-plan.ts 25-25 BULK_MAX_TARGET_BYTES *)
Definition BULK_MAX_TARGET_BYTES : Z := 1024 * 1024.

(** ** The writer *)

(** [resolve]; [Buffer.toString('utf-8')] and [Buffer.from(_, 'utf-8')]; the umask; a disk that refuses. *)
Record Platform := {
  resolve : string -> option string; utf8_text : string -> string; utf8_bytes : string -> string; umask : Z;
  refuses_disk : string -> bool }.

Section Writer.
Variable P : Platform.

(** @src src/src/core/bulk-apply.ts 562-562 confined *)
Definition confined (key : string) : bool := bool_decide (resolve P key = Some key).
(** @src src/src/core/bulk-apply.ts 564-586 read *)
Definition file_read (key : string) (fs : Files) : ReadAnswer :=
  if negb (confined key) then PathChanged
  else if refuses_disk P key then ReadThrows OtherError
  else match fs !! key with
  | None => Image Absent None
  | Some Symlink => Foreign
  | Some OtherNode => Foreign
  | Some (RegularFile content _) =>
      if BULK_MAX_TARGET_BYTES <? Z.of_nat (String.length content) then Foreign
      else
        let value := utf8_text P content in
        if negb (bool_decide (utf8_bytes P value = content)) then Foreign else Image (Present (JStr value)) None
  end.
(** @src src/src/core/bulk-apply.ts 587-632 write *)
Definition file_write (key : string) (after : BeforeImage) (fs : Files) : Files * WriteAnswer :=
  if negb (confined key) || refuses_disk P key then (fs, WriteThrows OtherError)
  else match after with
  | Absent =>
      match fs !! key with
      | Some (RegularFile _ _) => (delete key fs, Wrote "deleted")
      | _ => (fs, WriteThrows OtherError)
      end
  | Present (JStr text) =>
      match fs !! key with
      | None => (<[key := RegularFile (utf8_bytes P text) (Z.ldiff 438 (umask P))]> fs, Wrote "created")
      | Some (RegularFile _ mode) => (<[key := RegularFile (utf8_bytes P text) (Z.land mode 4095)]> fs, Wrote "written")
      | Some _ => (fs, WriteThrows OtherError)
      end
  | Present _ => (fs, WriteThrows OtherError)
  end.
(** @src src/src/core/bulk-apply.ts 561-563 workspaceWriterByName *)
Definition workspaceWriterByName : TargetWriter (W := Files) :=
  {| readsBack := false; reportsSend := false; carried _ := None;
     read key _ fs := (fs, id, file_read key fs);
     write key after fs := let '(fs', a) := file_write key after fs in (fs', [], a) |}.

(** The writers of rows and of external hosts are arguments. *)
(** @src src/src/core/bulk-apply.ts 753-763 bulkWriterFor *)
Definition bulkWriterFor (dataStoreWriter : string -> option (TargetWriter (W := Files))) (external : RunRow -> option (TargetWriter (W := Files)))
    (r : RunRow) : option TargetWriter :=
  let system := target_system (head r) in
  if startsWith system "http:" then external r
  else if bool_decide (system = "workspace"%string) then Some workspaceWriterByName
  else if bool_decide (system = "data_store"%string) then
    match target_collection (head r) with None => None | Some c => dataStoreWriter c end
  else None.

(** ** One file *)

(** What can be written to a file and read back. *)
Definition writable (b : BeforeImage) : Prop := match b with
  | Absent => True
  | Present v => exists text, v = JStr text /\ utf8_text P (utf8_bytes P text) = text /\
      Z.of_nat (String.length (utf8_bytes P text)) <= BULK_MAX_TARGET_BYTES
  end.

Lemma file_read_writable key fs b title : file_read key fs = Image b title -> writable b /\ title = None.
Proof.
  unfold file_read. destruct (negb _); [done|]. destruct (refuses_disk _ _); [done|].
  destruct (fs !! key) as [[content mode| |]|]; [|done|done|by intros [= <- <-]].
  destruct (Z.ltb_spec BULK_MAX_TARGET_BYTES (Z.of_nat (String.length content))); [done|]. cbv zeta.
  case_bool_decide as Hu; [|done]. intros [= <- <-]. split; [|done]. exists (utf8_text P content). by rewrite Hu.
Qed.

(** A write after a read of another image is read back, and touches no other file. *)
Lemma file_write_lands key fs b a title : file_read key fs = Image b title -> writable a -> (a = Absent -> b <> Absent) ->
  exists fs' res, file_write key a fs = (fs', Wrote res) /\ res <> "already"%string /\ file_read key fs' = Image a None /\
    forall k, k <> key -> fs' !! k = fs !! k.
Proof.
  unfold file_read, file_write. intros Hr Ha Hne. destruct (confined key); [|done]. cbn [negb orb] in *.
  destruct (refuses_disk P key); [done|]. destruct a as [|v]; cbn [writable] in Ha.
  - destruct (fs !! key) as [[content mode| |]|]; try done; [|by injection Hr as <- _; destruct (Hne eq_refl)].
    exists (delete key fs), "deleted"%string. rewrite lookup_delete_eq. split_and!; try done. intros k Hk. by rewrite lookup_delete_ne.
  - destruct Ha as (text & -> & Htext & Hlen).
    assert (forall mode, exists fs', <[key := RegularFile (utf8_bytes P text) mode]> fs = fs' /\
      match fs' !! key with
      | None => Image Absent None | Some Symlink => Foreign | Some OtherNode => Foreign
      | Some (RegularFile content _) => if BULK_MAX_TARGET_BYTES <? Z.of_nat (String.length content) then Foreign
        else if negb (bool_decide (utf8_bytes P (utf8_text P content) = content)) then Foreign else Image (Present (JStr (utf8_text P content))) None
      end = Image (Present (JStr text)) None /\ forall k, k <> key -> fs' !! k = fs !! k) as Hput.
    { intros mode. eexists. split; [done|]. rewrite lookup_insert_eq, Htext. rewrite (proj2 (Z.ltb_ge _ _)) by done.
      rewrite bool_decide_true by done. split; [done|]. intros k Hk. by rewrite lookup_insert_ne. }
    destruct (fs !! key) as [[content mode| |]|]; try done.
    + destruct (Hput (Z.land mode 4095)) as (fs' & -> & Hback & Hk). by exists fs', "written"%string.
    + destruct (Hput (Z.ldiff 438 (umask P))) as (fs' & -> & Hback & Hk). by exists fs', "created"%string.
Qed.
End Writer.

(** ** A pass that nothing disturbs *)

Section Calm.
Variables (E : Siblings) (P : Platform) (dataStoreWriter : string -> option (TargetWriter (W := Files)))
  (external : RunRow -> option (TargetWriter (W := Files))).

(** No one else changes the ledger or the files, nobody stops the run, and the clock stands at [t]. *)
Definition calm (t : Z) : BulkEffectDeps (W := Files) :=
  {| writerFor := bulkWriterFor P dataStoreWriter external; now fs := (fs, t); yieldToLoop fs := (fs, id);
     ownerStopped _ := false; trailFor _ _ := None |}.
Record calm_pass (p : Pass (W := Files)) (t : Z) : Prop := {
  calm_writer : p_writer p = workspaceWriterByName P;
  calm_deps : p_deps p = calm t;
  calm_html : p_html p = [];
  calm_saved : p_saved p = false;
  calm_time : t <= p_deadline p }.

Lemma same_image_refl b : same_image E b b [] = true.
Proof. destruct b; cbn; [done|]. unfold sameValue. cbn. by apply bool_decide_eq_true. Qed.
Lemma same_image_sym a b : same_image E a b [] = same_image E b a [].
Proof. destruct a, b; cbn; try done. unfold sameValue, same_json. cbn. apply bool_decide_ext. split; congruence. Qed.

(** A target whose file is as it is expected, and can become what is to be written. *)
Definition fits (fs : Files) (t : ApplyTarget) : Prop :=
  file_read P (a_key t) fs = Image (expected t) None /\ same_image E (expected t) (after t) [] = false /\ writable P (after t).

Lemma fits_keys fs fs' t : (forall k, k = a_key t -> fs' !! k = fs !! k) -> fits fs t -> fits fs' t.
Proof. intros H (Hr & ?). split; [|done]. rewrite <-Hr. unfold file_read. by rewrite (H (a_key t)). Qed.

Lemma writeOne_lands p tm t s : calm_pass p tm -> fits (world s) t -> exists fs' res c,
  writeOne E p t s = (Applied res None false false, {| world := fs'; ledger := markSent (ledger s) (p_id p) (a_seq t) None; calls := calls s ++ c |}) /\
  res <> "already"%string /\ file_read P (a_key t) fs' = Image (after t) None /\ forall k, k <> a_key t -> fs' !! k = world s !! k.
Proof.
  intros [Hw HD Hh Hs _] (Hr & Hd & Ha). destruct (file_write_lands P (a_key t) (world s) (expected t) (after t) None Hr Ha) as (fs' & res & Hwr & Hres & Hback & Hk).
  { intros Hab He. rewrite Hab, He in Hd. done. }
  exists fs', res, [Reads t (Image (expected t) None); Writes t (Wrote res)]. split; [|done].
  unfold writeOne, mbind, M_bind, reads. rewrite Hw, Hh, Hs. cbn [read workspaceWriterByName]. rewrite Hr. cbn [id].
  unfold in_place. rewrite Hd. cbn [orb andb]. rewrite same_image_refl. cbn [negb].
  assert (rawHtmlField E t (p_canonical p) = None) as ->.
  { unfold rawHtmlField. destruct (after t) as [|v]; [done|]. cbn in Ha. by destruct Ha as (text & -> & _). }
  cbn [is_null negb reportsSend workspaceWriterByName andb]. unfold asks, outside, changes, writes. cbn [write workspaceWriterByName carried world ledger calls].
  rewrite Hwr. cbn. by rewrite <-app_assoc.
Qed.

(** ** The row of a written target *)

Definition done_life (tm : Z) (res : string) (l : Life) : Life :=
  set_applied tm res None false false (set_sends true (unknown_sends l + 1) (set_claim (Some tm) l)).
Definition done_row (tm : Z) (res : string) (n : nat) (r : RunRow) : RunRow :=
  set_counts (targets_total r) (targets_applied r + 1) (targets_failed r) (set_targets (alter (set_life (done_life tm res)) n) r).
(** A target that the pass takes and that no other loop holds. *)
Definition free (x : Target) : Prop := is_pending x = true /\ claimed_at (life x) = None.

Lemma claim_free L i n tm r x : runs L !! i = Some r -> targets r !! n = Some x -> free x ->
  claimTarget L i n tm = (update_target i n (set_life (set_claim (Some tm))) L, true).
Proof.
  intros Hr Hx [Hp Hc]. unfold claimTarget, update_target_if, target_of. rewrite Hr. cbn [mbind option_bind]. rewrite Hx, Hc.
  unfold is_pending, writing_target in Hp. rewrite !andb_true_iff in Hp. destruct Hp as [[[[_ ->] ->] ->] ->]. done.
Qed.

Lemma update_run_row L i f r : runs L !! i = Some r -> runs (update_run i f L) !! i = Some (f r).
Proof. intros Hr. cbn. by rewrite lookup_alter_eq, Hr. Qed.
Lemma update_target_row L i n f r : runs L !! i = Some r -> runs (update_target i n f L) !! i = Some (set_targets (alter f n) r).
Proof. intros Hr. unfold update_target. cbn. by rewrite lookup_alter_eq, Hr. Qed.
Lemma update_target_other L j n f i : j <> i -> runs (update_target j n f L) !! i = runs L !! i.
Proof. intros Hne. unfold update_target. cbn. by rewrite lookup_alter_ne. Qed.

Lemma mark_source_other L i n at_ L' r : runs L !! i = Some r -> source_run_id r <> Some i -> runs (mark_source L i n at_ L') !! i = runs L' !! i.
Proof.
  intros Hr Hs. unfold mark_source, source_target. rewrite Hr. case_bool_decide; [|done]. destruct (source_run_id r) as [j|]; [|done].
  destruct (_ ≫= _); [|done]. apply update_target_other. congruence.
Qed.

(** The three records of one write, for a run that is not its own source. *)
Lemma records_row L i n tm res r x : runs L !! i = Some r -> targets r !! n = Some x -> free x -> source_run_id r <> Some i ->
  res <> "already"%string ->
  runs (recordApplied (markSent (update_target i n (set_life (set_claim (Some tm))) L) i n None) i n res tm None None false false) !! i
    = Some (done_row tm res n r).
Proof.
  intros Hr Hx Hfree Hsrc Hres. set (L1 := update_target _ _ _ L). set (L2 := markSent L1 i n None).
  assert (runs L1 !! i = Some (set_targets (alter (set_life (set_claim (Some tm))) n) r)) as H1 by (by apply update_target_row).
  assert (runs L2 !! i = Some (set_targets (alter (set_life (fun l => set_sends true (unknown_sends l + 1) (set_claim (Some tm) l))) n) r)) as H2.
  { unfold L2, markSent. cbn [noteConnection]. rewrite (update_target_row _ _ _ _ _ H1). unfold set_targets. cbn. do 2 f_equal.
    rewrite list_alter_alter_eq. by apply list_alter_ext. }
  unfold recordApplied, update_target_if. unfold target_of at 1. rewrite H2. cbn [mbind option_bind targets set_targets].
  rewrite list_lookup_alter_eq, Hx. cbn [fmap option_fmap option_map].
  assert (is_null (applied_at (life x)) = true) as Hap by (destruct Hfree as [Hp _]; unfold is_pending in Hp; rewrite !andb_true_iff in Hp; tauto).
  cbn [life set_life applied_at set_sends set_claim]. rewrite Hap. cbn [negb noteConnection]. rewrite bool_decide_false by done.
  erewrite mark_source_other; [|exact H2|exact Hsrc].
  rewrite (update_run_row _ _ _ _ (update_target_row _ _ _ _ _ H2)).
  unfold done_row, set_counts, set_targets. cbn. do 2 f_equal. rewrite list_alter_alter_eq. by apply list_alter_ext.
Qed.

(** ** One turn *)

(** The run while its pass goes on. *)
Record going (i : string) (a : Approval) (r : RunRow) : Prop := {
  going_phase : phase r = writing; going_halt : halt_reason r = None; going_approval : approval r = a;
  going_source : source_run_id r <> Some i }.
Lemma done_row_going i a tm res n r : going i a r -> going i a (done_row tm res n r).
Proof. intros [? ? ? ?]. by split. Qed.
Lemma done_row_near tm res n r : near sends n 0 r (done_row tm res n r).
Proof.
  split; cbn; [done|lia|by rewrite length_alter|]. intros m Hm. by rewrite list_lookup_alter_ne.
Qed.
Definition with_room (p : Pass (W := Files)) (a : Approval) (r : RunRow) (k : nat) : Prop :=
  match bulkWriteCap (max_targets a) (p_probed p) with Some cap => sentCount r + Z.of_nat k <= cap | None => True end.

Lemma turn_writes p tm i a r n x t c u v s : p_id p = i -> calm_pass p tm -> runs (ledger s) !! i = Some r -> going i a r ->
  with_room p a r 1 -> targets r !! n = Some x -> free x -> toApplyTarget n x = Some t -> fits (world s) t ->
  exists s' res, turn E p n c u v s = (Next 0 u v, s') /\ runs (ledger s') !! i = Some (done_row tm res n r) /\ res <> "already"%string /\
    file_read P (a_key t) (world s') = Image (after t) None /\ forall k, k <> a_key t -> world s' !! k = world s !! k.
Proof.
  intros Hid Hcalm Hr [Hph Hh Ha Hsrc] Hroom Hx Hfree Ht Hfit. assert (Hc' := Hcalm). destruct Hc' as [Hw HD _ _ Htime].
  assert (a_seq t = n) as Hn by (by eapply toApplyTarget_seq).
  set (L1 := update_target i n (set_life (set_claim (Some tm))) (ledger s)).
  set (s1 := {| world := world s; ledger := L1; calls := calls s |}).
  destruct (writeOne_lands p tm t s1 Hcalm Hfit) as (fs' & res & cs & Hone & Hres & Hback & Hk).
  assert (capped p r (ledger s) n = false) as Hcap.
  { unfold capped. rewrite Ha. unfold with_room in Hroom. destruct (bulkWriteCap _ _) as [cap|]; [|done].
    rewrite (proj2 (Z.leb_gt _ _)) by lia. done. }
  assert (loadTarget L1 i n = Some t) as Hload.
  { unfold L1, loadTarget, target_of. rewrite (update_target_row _ _ _ _ _ Hr). cbn [mbind option_bind targets set_targets].
    rewrite list_lookup_alter_eq, Hx. exact Ht. }
  eexists _, res. split.
  - unfold turn, mbind, M_bind, yields. rewrite HD, Hid. cbn [yieldToLoop calm]. unfold asks, id. cbn [ledger]. rewrite Hr, Hph, Hh.
    rewrite bool_decide_false, bool_decide_true by done. cbn [negb orb is_null]. unfold outside. cbn [ownerStopped calm world].
    cbn [ledger]. rewrite Hcap.
    unfold attempt, mbind, M_bind, outside. rewrite HD, Hid. cbn [now calm world].
    rewrite (proj2 (Z.ltb_ge _ _)) by exact Htime. unfold steps. cbn [world ledger calls]. rewrite (claim_free _ _ _ _ _ _ Hr Hx Hfree). cbn [negb].
    unfold asks. cbn [ledger]. fold L1. rewrite Hload. fold s1. rewrite Hone.
    rewrite Hw. cbn [carried workspaceWriterByName settle]. unfold mbind, M_bind, outside, changes. rewrite HD, Hid, Hn.
    cbn [now calm world ledger calls]. reflexivity.
  - cbn [ledger world]. split; [|done]. apply (records_row _ _ _ _ _ _ x); try done.
Qed.

(** ** The whole pass *)

(** A target the pass will write. *)
Definition due (fs : Files) (r : RunRow) (n : nat) : Prop := exists x t, targets r !! n = Some x /\ free x /\ toApplyTarget n x = Some t /\ fits fs t.
Definition key_at (r : RunRow) (n : nat) : option string := target_key ∘ plan <$> targets r !! n.

Lemma toApplyTarget_key n x t : toApplyTarget n x = Some t -> a_key t = target_key (plan x).
Proof. unfold toApplyTarget. destruct (negb _); [done|]. by intros [= <-]. Qed.
Lemma done_row_key tm res n r m : key_at (done_row tm res n r) m = key_at r m.
Proof.
  unfold key_at. cbn. destruct (decide (n = m)) as [->|Hne]; [|by rewrite list_lookup_alter_ne].
  rewrite list_lookup_alter_eq. by destruct (targets r !! m).
Qed.

(** The row with the targets [seqs] written. *)
Definition written_row (tm : Z) (seqs : list nat) (r r' : RunRow) : Prop :=
  head r' = head r /\ prep r' = prep r /\ source_run_id r' = source_run_id r /\ length (targets r') = length (targets r) /\
  forall n, if decide (n ∈ seqs) then exists res, res <> "already"%string /\ targets r' !! n = set_life (done_life tm res) <$> targets r !! n
            else targets r' !! n = targets r !! n.

Lemma loop_writes p tm i a seqs r c u v s : p_id p = i -> calm_pass p tm -> runs (ledger s) !! i = Some r -> going i a r ->
  with_room p a r (length seqs) -> NoDup seqs -> (forall n, n ∈ seqs -> due (world s) r n) ->
  (forall n m, n ∈ seqs -> m ∈ seqs -> key_at r n = key_at r m -> n = m) ->
  exists s' r', loop E p seqs c u v s = after_loop E p u v s' /\ runs (ledger s') !! i = Some r' /\ going i a r' /\ written_row tm seqs r r' /\
    (forall n x t, n ∈ seqs -> targets r !! n = Some x -> toApplyTarget n x = Some t -> file_read P (a_key t) (world s') = Image (after t) None) /\
    (forall k, (forall n, n ∈ seqs -> key_at r n <> Some k) -> world s' !! k = world s !! k).
Proof.
  intros Hid Hcalm. revert r c s. induction seqs as [|n seqs IH]; intros r c s Hr Hg Hroom Hnd Hdue Hkeys.
  { exists s, r. split_and!; try done. intros n x t Hn. by apply elem_of_nil in Hn. }
  apply NoDup_cons in Hnd as [Hnin Hnd].
  destruct (Hdue n) as (x & t & Hx & Hfree & Ht & Hfit); [left|].
  destruct (turn_writes p tm i a r n x t c u v s Hid Hcalm Hr Hg) as (s1 & res & Hturn & Hr1 & Hres & Hback & Hk1); [| done..|].
  { unfold with_room in *. destruct (bulkWriteCap _ _); [cbn [length] in Hroom; lia|done]. }
  assert (forall m, m ∈ seqs -> m <> n) as Hmn by (intros m Hm ->; done).
  assert (key_at r n = Some (a_key t)) as Hkn by (unfold key_at; rewrite Hx; cbn; by rewrite (toApplyTarget_key n x t)).
  destruct (IH (done_row tm res n r) 0 s1 Hr1 (done_row_going i a tm res n r Hg)) as (s' & r' & Hloop & Hr' & Hg' & Hw & Hfiles & Hrest).
  - unfold with_room in *. destruct (bulkWriteCap _ _) as [cap|]; [|done]. pose proof (sentCount_near n 0 r _ (done_row_near tm res n r)).
    cbn [length] in Hroom. destruct (targets r !! n) as [y|]; [destruct (sent_flag y)|]; lia.
  - done.
  - intros m Hm. destruct (Hdue m) as (y & t' & Hy & Hfy & Ht' & Hfit'); [by right|]. exists y, t'. cbn.
    rewrite list_lookup_alter_ne by (intros ->; by apply (Hmn m Hm)). split_and!; try done. apply (fits_keys (world s)); [|done].
    intros k ->. apply Hk1. intros He. apply (Hmn m Hm). apply Hkeys; [by right|left|]. rewrite Hkn. unfold key_at. rewrite Hy. cbn.
    by rewrite <-(toApplyTarget_key m y t' Ht'), He.
  - intros m k Hm Hkk. rewrite !done_row_key. apply Hkeys; by right.
  - exists s', r'. split; [cbn [loop]; unfold mbind, M_bind; by rewrite Hturn|]. split; [done|]. split; [done|]. split_and!.
    + destruct Hw as (W1 & W2 & W3 & W4 & W5). split; [exact W1|]. split; [exact W2|]. split; [exact W3|]. split; [rewrite W4; apply length_alter|].
      intros m. specialize (W5 m). cbn in W5. destruct (decide (m = n)) as [->|Hne].
      * rewrite decide_True by left. rewrite decide_False in W5 by done. rewrite list_lookup_alter_eq in W5. by exists res.
      * rewrite list_lookup_alter_ne in W5 by done. destruct (decide (m ∈ seqs)); [rewrite decide_True by (by right); exact W5|].
        rewrite decide_False; [exact W5|]. by intros [?|?]%elem_of_cons.
    + intros m y t' Hm Hy Ht'. destruct (decide (m = n)) as [->|Hne].
      * assert (y = x) as -> by congruence. assert (t' = t) as -> by congruence. rewrite <-Hback. unfold file_read.
        rewrite Hrest; [done|]. intros m Hm' He. rewrite done_row_key in He. apply (Hmn m Hm'). apply Hkeys; [by right|left|congruence].
      * apply elem_of_cons in Hm as [?|Hm]; [done|]. apply (Hfiles m y t' Hm); [cbn; by rewrite list_lookup_alter_ne|done].
    + intros k Hk. rewrite Hrest; [apply Hk1; intros ->; by apply (Hk n); [left|]|]. intros m Hm. rewrite done_row_key. apply Hk. by right.
Qed.

Lemma elem_of_listPending L i r n : runs L !! i = Some r -> n ∈ listPending L i <-> exists x, targets r !! n = Some x /\ is_pending x = true.
Proof.
  intros Hr. unfold listPending. rewrite Hr, list_elem_of_fmap. split.
  - intros ([m x] & -> & [Hp Hin]%list_elem_of_filter). apply elem_of_lookup_imap in Hin as (k & y & [= -> ->] & Hk). by exists y.
  - intros (x & Hx & Hp). exists (n, x). split; [done|]. apply list_elem_of_filter. split; [done|]. apply elem_of_lookup_imap. by exists n, x.
Qed.
Lemma imap_pair_NoDup {A} (l : list A) k : NoDup (imap (fun n x => ((k + n)%nat, x)) l).*1.
Proof.
  revert k. induction l as [|x l IH]; intros k; [constructor|]. csimpl. constructor.
  - rewrite list_elem_of_fmap. intros ([m y] & Hm & Hin). apply elem_of_lookup_imap in Hin as (j & z & [= -> ->] & _). cbn in Hm. lia.
  - specialize (IH (S k)). erewrite imap_ext; [exact IH|]. intros n y _. cbn. f_equal. lia.
Qed.
Lemma listPending_NoDup L i : NoDup (listPending L i).
Proof.
  unfold listPending. destruct (runs L !! i) as [r|]; [|constructor].
  eapply sublist_NoDup; [exact (imap_pair_NoDup (targets r) 0)|apply fmap_sublist, sublist_filter].
Qed.

(** The end of such a pass. *)
Lemma after_loop_done (p : Pass (W := Files)) i a s r : p_id p = i -> runs (ledger s) !! i = Some r -> going i a r ->
  (forall n x, targets r !! n = Some x -> is_pending x = false) ->
  exists s', after_loop E p false false s = (outcome st_done, s') /\ world s' = world s /\
    runs (ledger s') !! i = Some (set_phase finished None r).
Proof.
  intros Hid Hr Hg Hnone. unfold after_loop, mbind, M_bind, asks, id, changes. rewrite Hid.
  assert (listPending (ledger s) i = []) as ->.
  { apply elem_of_nil_inv. intros n Hn. apply (elem_of_listPending _ _ r) in Hn as (x & Hx & Hp); [|done]. by rewrite (Hnone n x Hx) in Hp. }
  rewrite bool_decide_true by done. eexists. split; [reflexivity|]. split; [done|]. cbn [ledger].
  destruct Hg as [Hph Hh _ Hsrc]. unfold finish. rewrite Hr.
  assert (runs (setPhase (ledger s) i [writing] finished None).1 !! i = Some (set_phase finished None r)) as H1.
  { unfold setPhase. rewrite Hr, Hph, bool_decide_true by (by left). cbn [fst]. rewrite (update_run_row _ _ _ _ Hr). by rewrite Hh. }
  case_bool_decide; [|done]. destruct (source_run_id r) as [j|]; [|done]. destruct (runs _ !! j) as [src|] eqn:Hj; [|done].
  destruct (_ =? 0); [|done]. unfold setPhase at 1. rewrite Hj. case_bool_decide; [|done]. cbn [fst]. unfold update_run. cbn [runs set_runs].
  rewrite lookup_alter_ne by congruence. done.
Qed.

(** An approved run of files, and what it finds. *)
Record approved_run (L : Ledger) (fs : Files) (i : string) (r : RunRow) (tm : Z) : Prop := {
  ar_run : runs L !! i = Some r;
  ar_phase : phase r = approved /\ halt_reason r = None;
  ar_time : exists e, expires_at (approval r) = Some e /\ tm <= e;
  ar_checksum : checksum_holds E L i r = true;
  ar_files : target_system (head r) = "workspace"%string;
  ar_source : source_run_id r <> Some i;
  ar_room : exists m, max_targets (approval r) = Some m /\ sentCount r + Z.of_nat (length (listPending L i)) <= m;
  ar_due : forall n, n ∈ listPending L i -> due fs r n;
  ar_keys : forall n m, n ∈ listPending L i -> m ∈ listPending L i -> key_at r n = key_at r m -> n = m }.

(** The effect of such a run is its pass. *)
Lemma effect_is_pass L fs i r tm c : approved_run L fs i r tm ->
  runBulkEffect E (calm tm) i (bool_decide (kind (head r) = undo_)) {| world := fs; ledger := L; calls := c |} =
  run_pass E (calm tm) i (workspaceWriterByName P) r {| world := fs; ledger := L; calls := c |}.
Proof.
  intros [Hr [Hph Hh] (e & He & Htm) Hcs Hws _ _ _ _]. unfold runBulkEffect, applyRunEffect, mbind, M_bind, asks, id. cbn [ledger]. rewrite Hr.
  rewrite bool_decide_true by done. cbn [negb]. rewrite Hph, Hh, bool_decide_true by (by left). cbn [negb is_null].
  unfold expired. rewrite He. unfold mbind, M_bind, outside. cbn [now calm world ledger calls].
  rewrite (proj2 (Z.ltb_ge _ _)) by exact Htm. cbn [mret M_ret]. rewrite Hcs. cbn [negb].
  assert (isWriteSwitchedOff E L i = false) as ->.
  { unfold isWriteSwitchedOff, isShopifyRunSwitchedOff, shopifyFormOfRun. rewrite Hr, Hws. cbn. by destruct (bool_decide _). }
  cbn [writerFor calm]. unfold bulkWriterFor. rewrite Hws. change (startsWith "workspace" "http:") with false. rewrite bool_decide_true by done.
  cbn [trailFor calm world ledger calls].
  by destruct (run_pass _ _ _ _ _ _).
Qed.

Lemma effect_writes L fs i r tm c : approved_run L fs i r tm ->
  exists o s' r', runBulkEffect E (calm tm) i (bool_decide (kind (head r) = undo_)) {| world := fs; ledger := L; calls := c |} = (o, s') /\
    status o = st_done /\ runs (ledger s') !! i = Some r' /\ phase r' = finished /\ written_row tm (listPending L i) r r' /\
    (forall n x t, n ∈ listPending L i -> targets r !! n = Some x -> toApplyTarget n x = Some t -> file_read P (a_key t) (world s') = Image (after t) None) /\
    (forall k, (forall n, n ∈ listPending L i -> key_at r n <> Some k) -> world s' !! k = fs !! k).
Proof.
  intros [Hr [Hph Hh] (e & He & Htm) Hcs Hws Hsrc (m & Hm & Hroom) Hdue Hkeys].
  set (r1 := set_phase writing None r). set (L1 := (setPhase L i [approved] writing None).1).
  assert (runs L1 !! i = Some r1) as Hr1.
  { unfold L1, setPhase. rewrite Hr, Hph, bool_decide_true by (by left). cbn [fst]. rewrite (update_run_row _ _ _ _ Hr). by rewrite Hh. }
  assert (listPending L1 i = listPending L i) as Hpend by (unfold listPending; by rewrite Hr, Hr1).
  set (w := workspaceWriterByName P). set (p := pass_of E (calm tm) i w r L1 tm).
  assert (externalHostOf (target_system (head r)) = None) as Hhost by (by rewrite Hws).
  assert (shopifyFormOfRun E L1 r1 = None) as Hshop by (unfold shopifyFormOfRun; cbn; by rewrite Hhost).
  assert (calm_pass p tm) as Hcalm.
  { split; [done|done| | |].
    - cbn. unfold comparedAsHtml. rewrite Hr1. unfold is_shopify_product. by rewrite Hshop.
    - cbn. unfold comparedInSavedForm. rewrite Hr1. unfold is_shopify_product. by rewrite Hshop.
    - cbn. unfold MIN_RUN_BUDGET_MS. lia. }
  assert (probeHoldsFor E L1 i = true) as Hprobe.
  { unfold probeHoldsFor. rewrite Hr1. unfold probeHolds, probeCoverage. cbn. by rewrite Hhost. }
  rewrite (effect_is_pass L fs i r tm c) by (split; eauto). unfold run_pass, mbind, M_bind, changes, outside, asks, id. cbn [now calm world ledger calls].
  fold L1. fold w. fold p. rewrite Hpend.
  destruct (loop_writes p tm i (approval r) (listPending L i) r1 0 false false {| world := fs; ledger := L1; calls := c |} eq_refl Hcalm Hr1)
    as (s' & r' & -> & Hr' & Hg & Hw & Hfiles & Hrest); try done.
  { unfold with_room, bulkWriteCap. cbn [p_probed pass_of p]. rewrite Hprobe, Hm. exact Hroom. }
  { apply listPending_NoDup. }
  destruct (after_loop_done p i (approval r) s' r' eq_refl Hr' Hg) as (s2 & -> & Hfs & Hr2).
  { intros n x Hx. destruct Hw as (_ & _ & _ & _ & Hw). specialize (Hw n). destruct (decide (n ∈ listPending L i)) as [Hn|Hn].
    - destruct Hw as (res & _ & Hw). rewrite Hx in Hw. apply (elem_of_listPending _ _ r n Hr) in Hn as (y & Hy & _).
      change (targets r1) with (targets r) in Hw. rewrite Hy in Hw. injection Hw as ->. unfold is_pending. cbn. by rewrite andb_false_r.
    - destruct (is_pending x) eqn:Hp; [|done]. exfalso. apply Hn, (elem_of_listPending _ _ r n Hr). exists x. split; [|done]. by rewrite <-Hx, Hw. }
  exists (outcome st_done), s2, (set_phase finished None r'). split_and!; try done.
  - intros n x t Hn Hx Ht. rewrite Hfs. by apply (Hfiles n x t).
  - intros k Hk. rewrite Hfs. by apply Hrest.
Qed.

(** C30. An undisturbed run is written. An approved run of workspace files, before its approval ends, with
    room for every pending target, the files as they were shown, and nobody else at them: its effect ends
    as done and the run as finished; every pending target is recorded as written, read back it is what the
    plan says, and no other file is touched. *)
Theorem an_undisturbed_run_is_written L fs i r tm c : approved_run L fs i r tm ->
  exists o s' r', runBulkEffect E (calm tm) i (bool_decide (kind (head r) = undo_)) {| world := fs; ledger := L; calls := c |} = (o, s') /\
    status o = st_done /\ runs (ledger s') !! i = Some r' /\ phase r' = finished /\ written_row tm (listPending L i) r r' /\
    (forall n x t, n ∈ listPending L i -> targets r !! n = Some x -> toApplyTarget n x = Some t -> file_read P (a_key t) (world s') = Image (after t) None) /\
    (forall k, (forall n, n ∈ listPending L i -> key_at r n <> Some k) -> world s' !! k = fs !! k).
Proof. apply effect_writes. Qed.

(** ** From the approval to the written run *)

(** A planned run of files as they are. *)
Record fitting (fs : Files) (r : RunRow) : Prop := {
  fit_files : target_system (head r) = "workspace"%string;
  fit_due : forall n x, targets r !! n = Some x -> writing_target x = true -> error x = None /\ exists t, toApplyTarget n x = Some t /\ fits fs t;
  fit_keys : forall n m x y, targets r !! n = Some x -> targets r !! m = Some y -> writing_target x = true -> writing_target y = true ->
    target_key (plan x) = target_key (plan y) -> n = m }.

Lemma good_max_all n : 0 < n -> good_max (num_of_Z n) n = Some n.
Proof.
  intros Hn. unfold good_max. assert (Qtrunc (inject_Z n) = n) as ->.
  { unfold Qtrunc. destruct (Qle_bool _ _); [apply Qfloor_Z|apply Qceiling_Z]. }
  rewrite (proj2 (Qeq_bool_iff _ _)) by reflexivity. rewrite (proj2 (Z.leb_le 1 n)) by lia. by rewrite Z.leb_refl.
Qed.

Lemma well_sourced_self L i r : well_formed L -> runs L !! i = Some r -> source_run_id r <> Some i.
Proof. intros Wf Hr Hs. destruct (wf_sources L Wf i r i Hr Hs) as (s & Hi & Hlt & _). assert (s = r) as -> by congruence. lia. Qed.

Lemma approve_all L i c by_ u tm L1 tr r : runs L !! i = Some r -> approve E L i c by_ None u tm = (L1, ApproveOk tr) ->
  exists a, runs L1 !! i = Some (set_approval a (set_phase approved None r)) /\ max_targets a = Some (countWriting r) /\
    expires_at a = Some (approvalWindow (countWriting r) tm) /\ approval_checksum a = computeChecksum E L i.
Proof.
  intros Hr. unfold approve. rewrite Hr. cbv zeta. destruct (_ || _); [done|]. destruct (isShopifyRunSwitchedOff _ _ _); [done|].
  destruct (contractWritesMail _ _ _); [done|]. case_bool_decide as Hc; [|done]. cbn [negb]. destruct (_ && _ && _); [done|].
  destruct (Z.eqb_spec (countWriting r) 0) as [|Hne]; [done|].
  assert (0 < countWriting r) as Hpos by (unfold countWriting, count_targets in *; lia).
  cbn [default]. rewrite (good_max_all _ Hpos). destruct (_ && _); [done|]. destruct (_ && _); [done|]. destruct (writeBlocked L i r); [done|].
  intros [= <- _]. eexists. split; [cbn; by rewrite lookup_alter_eq, Hr|]. done.
Qed.

Lemma new_targets_none L i r : well_formed L -> runs L !! i = Some r -> is_unapproved r = true -> forall n x, targets r !! n = Some x -> life x = no_life.
Proof.
  intros Wf Hr Hu n x Hx. pose proof (wf_new L Wf i r Hr Hu) as Hall. unfold all_new in Hall. rewrite Forall_fmap, Forall_lookup in Hall.
  exact (Hall n x Hx).
Qed.

Lemma filter_imap_pair {A} (Q : A -> bool) (l : list A) k :
  length (filter (fun p : nat * A => Q p.2 = true) (imap (fun n x => ((k + n)%nat, x)) l)) = length (filter (fun x => Q x = true) l).
Proof.
  revert k. induction l as [|x l IH]; intros k; [done|]. csimpl. rewrite !filter_cons. cbn [snd].
  assert (imap ((fun n y => ((k + n)%nat, y)) ∘ S) l = imap (fun n y => ((S k + n)%nat, y)) l) as -> by (apply imap_ext; intros n y _; cbn; f_equal; lia).
  case_decide; cbn [length]; by rewrite IH.
Qed.
Lemma pending_length L i r : runs L !! i = Some r -> length (listPending L i) = length (filter (fun x => is_pending x = true) (targets r)).
Proof. intros Hr. unfold listPending. rewrite Hr, length_fmap. exact (filter_imap_pair is_pending (targets r) 0). Qed.
Lemma filter_length_le {A} (Q R : A -> bool) (l : list A) : (forall x, Q x = true -> R x = true) ->
  (length (filter (fun x => Q x = true) l) <= length (filter (fun x => R x = true) l))%nat.
Proof.
  intros H. induction l as [|x l IH]; [done|]. rewrite !filter_cons. repeat case_decide; cbn [length]; try lia. exfalso. naive_solver.
Qed.
Lemma pending_writing x : is_pending x = true -> writing_target x = true.
Proof. unfold is_pending. rewrite !andb_true_iff. tauto. Qed.
Lemma sentCount_new r : (forall n x, targets r !! n = Some x -> life x = no_life) -> sentCount r = 0.
Proof.
  intros H. unfold sentCount, count_targets. assert (filter (fun t => sent_applied t || write_sent (life t) = true) (targets r) = []) as ->; [|done].
  apply elem_of_nil_inv. intros x [Hs Hx]%list_elem_of_filter. apply list_elem_of_lookup in Hx as [n Hx]. unfold sent_applied in Hs. by rewrite (H n x Hx) in Hs.
Qed.

(** A previewed run approved in whole, with the files as it expects them, can be written. *)
Lemma approve_ready L i c by_ u tm L1 tr r fs tm' : well_formed L -> runs L !! i = Some r -> approve E L i c by_ None u tm = (L1, ApproveOk tr) ->
  fitting fs r -> tm' <= approvalWindow (countWriting r) tm ->
  exists r1, approved_run L1 fs i r1 tm' /\ targets r1 = targets r /\ head r1 = head r /\ is_unapproved r = true /\
    forall n, n ∈ listPending L1 i <-> exists x, targets r !! n = Some x /\ writing_target x = true.
Proof.
  intros Wf Hr Hok [Hfiles Hdue Hkeys] Htm.
  destruct (approve_all L i c by_ u tm L1 tr r Hr Hok) as (a & Hr1 & Hm & He & Hcs).
  assert (is_unapproved r = true) as Hu.
  { unfold approve in Hok. rewrite Hr in Hok. cbv zeta in Hok. unfold is_unapproved. case_bool_decide as Hp; [rewrite Hp; by apply bool_decide_eq_true; right; left|done]. }
  pose proof (new_targets_none L i r Wf Hr Hu) as Hnew.
  set (r1 := set_approval a (set_phase approved None r)) in *.
  assert (forall n, n ∈ listPending L1 i <-> exists x, targets r !! n = Some x /\ writing_target x = true) as Hpend.
  { intros n. rewrite (elem_of_listPending L1 i r1 n Hr1). cbn. split; intros (x & Hx & Hp); exists x; (split; [done|]); unfold is_pending in *.
    - rewrite !andb_true_iff in Hp. tauto.
    - destruct (Hdue n x Hx Hp) as [-> _]. by rewrite Hp, (Hnew n x Hx). }
  exists r1. split; [|split_and!; done]. split.
  - exact Hr1.
  - done.
  - eexists. split; [exact He|done].
  - unfold checksum_holds, computeChecksum. rewrite Hr1. change (approval r1) with a. rewrite Hcs. unfold computeChecksum. rewrite Hr. cbn [fmap option_fmap option_map is_null negb andb].
    by apply bool_decide_eq_true.
  - done.
  - exact (well_sourced_self L i r Wf Hr).
  - exists (countWriting r). split; [exact Hm|].
    rewrite (sentCount_new r1 Hnew), (pending_length L1 i r1 Hr1). change (targets r1) with (targets r).
    pose proof (filter_length_le is_pending writing_target (targets r) pending_writing). unfold countWriting, count_targets. lia.
  - intros n Hn. destruct (proj1 (Hpend n) Hn) as (x & Hx & Hw). destruct (Hdue n x Hx Hw) as (_ & t & Ht & Hfit).
    apply (elem_of_listPending L1 i r1 n Hr1) in Hn as (y & Hy & Hp). change (targets r1) with (targets r) in Hy. assert (y = x) as -> by congruence.
    exists x, t. split_and!; [exact Hx|split; [exact Hp|by rewrite (Hnew n x Hx)]|exact Ht|exact Hfit].
  - intros n m Hn Hm'. apply Hpend in Hn as (x & Hx & Hwx). apply Hpend in Hm' as (y & Hy & Hwy). unfold key_at. change (targets r1) with (targets r).
    rewrite Hx, Hy. cbn. intros [= Hk]. by apply (Hkeys n m x y).
Qed.

(** ** From the written run to its undo *)

(** A written run whose files are as it left them. *)
Record taken (fs : Files) (r : RunRow) : Prop := {
  tk_files : target_system (head r) = "workspace"%string;
  tk_due : forall n x, targets r !! n = Some x -> undoEligible false x = true -> after_actual (life x) = None /\
    exists t, toApplyTarget n x = Some t /\ file_read P (a_key t) fs = Image (after t) None /\
      same_image E (expected t) (after t) [] = false /\ writable P (expected t) /\ writable P (after t);
  tk_keys : forall n m x y, targets r !! n = Some x -> targets r !! m = Some y -> undoEligible false x = true -> undoEligible false y = true ->
    target_key (plan x) = target_key (plan y) -> n = m }.

Lemma undo_target_text L i html n x t : toApplyTarget n x = Some t -> after_actual (life x) = None ->
  writable P (expected t) -> writable P (after t) -> same_image E (expected t) (after t) [] = false ->
  exists u y, undo_target E L i false html n x = Some (u, y) /\ target_key (plan y) = a_key t /\ writing_target y = true /\ error y = None /\
    forall m, exists t', toApplyTarget m y = Some t' /\ a_key t' = a_key t /\ expected t' = after t /\ after t' = expected t.
Proof.
  intros Ht Ha Hwe Hwa Hne. unfold undo_target. rewrite Ht. cbn [mbind option_bind]. rewrite Ha.
  destruct (expected t) as [|v] eqn:He, (after t) as [|v'] eqn:Haf; cbn [writable] in Hwe, Hwa; [done| | |].
  - destruct Hwa as (text & -> & _). rewrite andb_false_r. eexists _, _. split; [reflexivity|]. split_and!; [done..|].
    intros m. eexists. split; [reflexivity|]. done.
  - destruct Hwe as (text & -> & _). cbn [restoresShopAddedMarkup is_object andb]. rewrite andb_false_r. eexists _, _. split; [reflexivity|].
    split_and!; [done..|]. intros m. eexists. split; [reflexivity|]. done.
  - destruct Hwe as (text & -> & _), Hwa as (text' & -> & _). cbn [restoresShopAddedMarkup is_object andb]. rewrite andb_false_r.
    eexists _, _. split; [reflexivity|]. split_and!; [done..|]. intros m. eexists. split; [reflexivity|]. done.
Qed.

Lemma omap_all {A B} (f : A -> option B) l : (forall p, p ∈ l -> is_Some (f p)) ->
  length (omap f l) = length l /\ forall m q, omap f l !! m = Some q -> exists p, l !! m = Some p /\ f p = Some q.
Proof.
  induction l as [|p l IH]; intros H; [done|]. destruct (H p) as [q Hq]; [left|]. destruct IH as [Hl Hm]; [intros x Hx; apply H; by right|].
  assert (omap f (p :: l) = q :: omap f l) as -> by (cbn; by rewrite Hq). split; [cbn; by rewrite Hl|].
  intros [|m] q'; cbn [lookup list_lookup]; [intros [= <-]; by exists p|apply Hm].
Qed.

Definition undo_rows (r : RunRow) : list (nat * Target) := reverse (filter (fun p => undoEligible false p.2 = true) (imap pair (targets r))).
Lemma elem_of_undo_rows r n x : (n, x) ∈ undo_rows r <-> targets r !! n = Some x /\ undoEligible false x = true.
Proof.
  unfold undo_rows. rewrite elem_of_reverse, list_elem_of_filter, elem_of_lookup_imap. cbn. split.
  - intros [He (k & y & [= -> ->] & Hk)]. done.
  - intros [Hx He]. split; [done|]. by exists n, x.
Qed.
Lemma undo_rows_NoDup r : NoDup (undo_rows r).*1.
Proof.
  unfold undo_rows. rewrite fmap_reverse, reverse_Permutation.
  eapply sublist_NoDup; [exact (imap_pair_NoDup (targets r) 0)|apply fmap_sublist, sublist_filter].
Qed.

Lemma drop_runs_keep l L k x : runs L !! k = Some x -> k ∉ l -> (forall j, source_run_id x = Some j -> j ∉ l) ->
  runs (foldl drop_run L l) !! k = Some x.
Proof.
  revert L. induction l as [|j l IH]; intros L Hk Hn Hs; [done|]. cbn [foldl]. apply not_elem_of_cons in Hn as [Hne Hn].
  apply IH; [|done|intros j' Hj'; specialize (Hs j' Hj'); set_solver].
  apply lookup_drop_run. split; [done|]. exists x. split; [done|]. unfold orphan. rewrite bool_decide_false; [done|].
  intros Hj. apply (Hs j Hj). left.
Qed.

(** The planned undo. *)
Lemma planUndo_row L o i r L2 : runs L !! i = Some r -> fresh_run L o -> phase r = finished -> target_system (head r) = "workspace"%string ->
  planUndo E L o i = (L2, UndoPlanned) ->
  exists rU html, runs L2 !! new_id o = Some rU /\ kind (head rU) = undo_ /\ target_system (head rU) = "workspace"%string /\
    targets rU = (omap (fun p => undo_target E L i false html p.1 p.2) (undo_rows r)).*2.
Proof.
  intros Hr Hf Hph Hsys. unfold planUndo. rewrite Hr. cbv zeta. destruct (contractWritesMail _ _ _); [done|]. destruct (negb (isStopped r)); [done|].
  destruct (negb _); [done|]. destruct (_ && _); [done|].
  assert (is_external r = false) as -> by (unfold is_external; by rewrite Hsys).
  change (reverse (filter (fun p => undoEligible false p.2 = true) (imap pair (targets r)))) with (undo_rows r).
  case_bool_decide; [done|]. intros [= <-]. eexists _, (htmlFieldsOf E L i). split.
  { unfold pruneUnapproved. apply drop_runs_keep; [cbn; apply lookup_insert_eq| |].
    - intros Hd. apply doomed_prunable in Hd as (x & Hx & Hp). cbn in Hx. rewrite lookup_insert_eq in Hx. by injection Hx as <-.
    - cbn [source_run_id new_run]. intros j [= <-] Hd. apply doomed_prunable in Hd as (x & Hx & Hp). cbn in Hx. rewrite lookup_insert_ne in Hx; [|intros He; unfold fresh_run in Hf; congruence].
      assert (x = r) as -> by congruence. unfold prunable in Hp. rewrite Hph in Hp. cbn in Hp. by rewrite andb_false_r in Hp. }
  cbn. rewrite Hsys. done.
Qed.

(** A target of the undo, and the target it takes back. *)
Lemma undo_targets L i html fs r rU : taken fs r -> targets rU = (omap (fun p => undo_target E L i false html p.1 p.2) (undo_rows r)).*2 ->
  length (targets rU) = length (undo_rows r) /\
  forall m y, targets rU !! m = Some y -> exists n x t, undo_rows r !! m = Some (n, x) /\ targets r !! n = Some x /\ undoEligible false x = true /\
    toApplyTarget n x = Some t /\ target_key (plan y) = a_key t /\ writing_target y = true /\ error y = None /\
    file_read P (a_key t) fs = Image (after t) None /\ same_image E (expected t) (after t) [] = false /\ writable P (expected t) /\
    exists t', toApplyTarget m y = Some t' /\ a_key t' = a_key t /\ expected t' = after t /\ after t' = expected t.
Proof.
  intros Htk Hts. set (f := fun p : nat * Target => undo_target E L i false html p.1 p.2) in *.
  assert (forall p, p ∈ undo_rows r -> exists t, toApplyTarget p.1 p.2 = Some t /\ file_read P (a_key t) fs = Image (after t) None /\
    same_image E (expected t) (after t) [] = false /\ writable P (expected t) /\ exists u y, f p = Some (u, y) /\ target_key (plan y) = a_key t /\
    writing_target y = true /\ error y = None /\
    forall m, exists t', toApplyTarget m y = Some t' /\ a_key t' = a_key t /\ expected t' = after t /\ after t' = expected t) as Hall.
  { intros [n x] Hin. apply elem_of_undo_rows in Hin as [Hx He]. destruct (tk_due fs r Htk n x Hx He) as (Hact & t & Ht & Hr & Hne & Hwe & Hwa).
    exists t. split_and!; try done. by apply undo_target_text. }
  destruct (omap_all f (undo_rows r)) as [Hlen Hlook].
  { intros p Hp. destruct (Hall p Hp) as (t & _ & _ & _ & _ & u & y & -> & _). done. }
  split; [by rewrite Hts, length_fmap|]. intros m y Hy. rewrite Hts, list_lookup_fmap in Hy.
  destruct (omap f (undo_rows r) !! m) as [[u y']|] eqn:Hm; [|done]. injection Hy as <-.
  destruct (Hlook m (u, y') Hm) as ([n x] & Hrow & Hf). assert ((n, x) ∈ undo_rows r) as Hin by (by eapply list_elem_of_lookup_2).
  destruct (Hall (n, x) Hin) as (t & Ht & Hr & Hne & Hwe & u' & y'' & Hf' & Hk & Hw & He & Hm'). assert (y'' = y') as -> by congruence.
  apply elem_of_undo_rows in Hin as [Hx Helig]. exists n, x, t. by split_and!.
Qed.

Lemma undo_fitting L i html fs r rU : taken fs r -> target_system (head rU) = "workspace"%string ->
  targets rU = (omap (fun p => undo_target E L i false html p.1 p.2) (undo_rows r)).*2 -> fitting fs rU.
Proof.
  intros Htk Hsys Hts. destruct (undo_targets L i html fs r rU Htk Hts) as [_ Hall]. split; [done| |].
  - intros m y Hy _. destruct (Hall m y Hy) as (n & x & t & _ & _ & _ & _ & _ & _ & He & Hr & Hne & Hwe & t' & Ht' & Hk & Hex & Haf).
    split; [done|]. exists t'. split; [done|]. unfold fits. rewrite Hk, Hex, Haf, same_image_sym. done.
  - intros m m' y y' Hy Hy' _ _ Hkey.
    destruct (Hall m y Hy) as (n & x & t & Hrow & Hx & He & Ht & Hk & _). destruct (Hall m' y' Hy') as (n' & x' & t2 & Hrow' & Hx' & He' & Ht2 & Hk' & _).
    assert (n = n') as <-.
    { apply (tk_keys fs r Htk n n' x x' Hx Hx' He He'). by rewrite <-(toApplyTarget_key _ _ _ Ht), <-(toApplyTarget_key _ _ _ Ht2), <-Hk, <-Hk', Hkey. }
    apply (NoDup_lookup _ m m' n (undo_rows_NoDup r)); rewrite list_lookup_fmap; [by rewrite Hrow|by rewrite Hrow'].
Qed.

(** What the effect of a newly approved run leaves is taken. *)
Lemma written_taken fs fs' r r' tm pending : fitting fs r -> (forall n x, targets r !! n = Some x -> life x = no_life) ->
  (forall n, n ∈ pending <-> exists x, targets r !! n = Some x /\ writing_target x = true) -> written_row tm pending r r' ->
  (forall n x t, n ∈ pending -> targets r !! n = Some x -> toApplyTarget n x = Some t -> file_read P (a_key t) fs' = Image (after t) None) ->
  taken fs' r' /\ (forall n x', targets r' !! n = Some x' -> undoEligible false x' = true <-> n ∈ pending) /\ forall n, key_at r' n = key_at r n.
Proof.
  intros [Hsys Hdue Hkeys] Hnew Hpend (Hhead & _ & _ & _ & Hts) Hfiles.
  assert (forall n x', targets r' !! n = Some x' -> exists x, targets r !! n = Some x /\ plan x' = plan x /\ after_actual (life x') = None /\
    (undoEligible false x' = true <-> n ∈ pending)) as Hrow.
  { intros n x' Hx'. specialize (Hts n). destruct (decide (n ∈ pending)) as [Hn|Hn].
    - destruct Hts as (res & _ & He). rewrite Hx' in He. destruct (targets r !! n) as [x|] eqn:Hx; [|done]. injection He as ->.
      exists x. split; [done|]. split; [done|]. split; [done|]. split; [done|]. intros _. apply Hpend in Hn as (y & Hy & Hw).
      assert (y = x) as -> by congruence. unfold undoEligible. change (writing_target (set_life _ x)) with (writing_target x). rewrite Hw.
      cbn. by rewrite (Hnew n x Hx).
    - rewrite Hx' in Hts. exists x'. split; [done|]. split; [done|]. rewrite (Hnew n x' (eq_sym Hts)). split; [done|]. split; [|done].
      unfold undoEligible. rewrite (Hnew n x' (eq_sym Hts)). cbn. by rewrite andb_false_r. }
  assert (forall n, key_at r' n = key_at r n) as Hkey.
  { intros n. unfold key_at. specialize (Hts n). destruct (targets r' !! n) as [x'|] eqn:Hx'.
    - destruct (Hrow n x' Hx') as (x & -> & Hp & _). cbn. by rewrite Hp.
    - destruct (decide (n ∈ pending)); [destruct Hts as (res & _ & He); by destruct (targets r !! n)|by rewrite <-Hts]. }
  split; [|split; [|exact Hkey]].
  2:{ intros n x' Hx'. by destruct (Hrow n x' Hx') as (x & _ & _ & _ & ?). }
  split; [by rewrite Hhead| |].
  - intros n x' Hx' He. destruct (Hrow n x' Hx') as (x & Hx & Hp & Ha & Hiff). split; [done|]. apply Hiff in He as Hn.
    apply Hpend in Hn as (y & Hy & Hw). assert (y = x) as -> by congruence. destruct (Hdue n x Hx Hw) as (_ & t & Ht & Hr & Hne & Hwa).
    exists t. split_and!; [|by apply (Hfiles n x t); [apply Hiff| |]|done|by eapply file_read_writable|done].
    rewrite <-Ht. unfold toApplyTarget, can_write. by rewrite Hp.
  - intros n m x' y' Hx' Hy' Hex Hey Hk. destruct (Hrow n x' Hx') as (x & Hx & Hpx & _ & Hix). destruct (Hrow m y' Hy') as (y & Hy & Hpy & _ & Hiy).
    apply Hix, Hpend in Hex as (x2 & Hx2 & Hwx). apply Hiy, Hpend in Hey as (y2 & Hy2 & Hwy).
    assert (x2 = x) as -> by congruence. assert (y2 = y) as -> by congruence. apply (Hkeys n m x y Hx Hy Hwx Hwy). by rewrite <-Hpx, <-Hpy.
Qed.

Lemma workspace_polite t i : polite (lively E i) (calm t) (workspaceWriterByName P).
Proof.
  split.
  - intros x L _ _. apply rtc_refl.
  - intros k fields x L _ _. apply rtc_refl.
  - intros k image x f Hf. cbn in Hf. destruct (file_write P k image x). by apply elem_of_nil in Hf.
Qed.
Lemma written_well_formed L fs i r t c : approved_run L fs i r t -> well_formed L ->
  well_formed (ledger (run_pass E (calm t) i (workspaceWriterByName P) r {| world := fs; ledger := L; calls := c |}).2).
Proof.
  intros Har Wf. destruct (run_pass_faithful E (calm t) i (workspaceWriterByName P) r r {| world := fs; ledger := L; calls := c |}) as [Hs _];
    [exact Wf|apply workspace_polite|apply (ar_run _ _ _ _ _ Har)| |by eapply steps_well_formed].
  unfold is_unapproved. apply bool_decide_eq_false. destruct (ar_phase _ _ _ _ _ Har) as [-> _]. phases.
Qed.
Lemma slack_enough n t t' : 0 <= n -> t' <= t + BULK_APPROVAL_SLACK_MS -> t' <= approvalWindow n t.
Proof. unfold approvalWindow, BULK_APPROVAL_SLACK_MS, BULK_TARGET_BUDGET_MS, BULK_APPROVAL_MAX_MS. lia. Qed.
Lemma countWriting_nonneg r : 0 <= countWriting r.
Proof. unfold countWriting, count_targets. lia. Qed.

Lemma written_plan t pending r r' n x x' : written_row t pending r r' -> targets r !! n = Some x -> targets r' !! n = Some x' -> plan x' = plan x.
Proof.
  intros (_ & _ & _ & _ & Hts) Hx Hx'. specialize (Hts n). rewrite Hx, Hx' in Hts. destruct (decide (n ∈ pending)).
  - destruct Hts as (res & _ & [= ->]). done.
  - by injection Hts as ->.
Qed.

(** C29. An undo restores the files. Let a planned change of workspace files be as the files are, be approved
    in whole and be written undisturbed within a quarter of an hour; let its undo then be planned, approved
    in whole and written undisturbed as soon after. Then every file is read as it was before the change:
    a file that was changed has its text again, one that was created is gone, one that was deleted is
    back, and no other is touched. *)
Theorem an_undo_restores_the_files L fs i r c1 by1 u1 t1 L1 tr1 t1' o L2 c2 by2 u2 t2 L3 tr2 t2' cs1 cs2 :
  reachable E L -> runs L !! i = Some r -> kind (head r) = apply_ -> fitting fs r ->
  approve E L i c1 by1 None u1 t1 = (L1, ApproveOk tr1) -> t1' <= t1 + BULK_APPROVAL_SLACK_MS ->
  let s1 := (runBulkEffect E (calm t1') i false {| world := fs; ledger := L1; calls := cs1 |}).2 in
  fresh_run (ledger s1) o -> planUndo E (ledger s1) o i = (L2, UndoPlanned) ->
  approve E L2 (new_id o) c2 by2 None u2 t2 = (L3, ApproveOk tr2) -> t2' <= t2 + BULK_APPROVAL_SLACK_MS ->
  let s2 := (runBulkEffect E (calm t2') (new_id o) true {| world := world s1; ledger := L3; calls := cs2 |}).2 in
  forall k, file_read P k (world s2) = file_read P k fs.
Proof.
  intros Hreach Hr Hkind Hfit Hok1 Ht1 s1 Hfresh Hundo Hok2 Ht2 s2 k. pose proof (reachable_well_formed E L Hreach) as Wf.
  destruct (approve_ready L i c1 by1 u1 t1 L1 tr1 r fs t1' Wf Hr Hok1 Hfit) as (r1 & Har & Hts1 & Hhead1 & Hu & Hpend).
  { apply slack_enough; [apply countWriting_nonneg|done]. }
  assert (well_formed L1) as Wf1.
  { assert (L1 = (approve E L i c1 by1 None u1 t1).1) as -> by (by rewrite Hok1). by apply (step_well_formed E L); [apply s_approve|]. }
  pose proof (effect_is_pass L1 fs i r1 t1' cs1 Har) as Hpass. destruct (effect_writes L1 fs i r1 t1' cs1 Har) as (o1 & s1' & r' & Heff & _ & Hr' & Hph' & Hw & Hfiles & Hrest).
  rewrite Hhead1, Hkind, bool_decide_false in Hpass, Heff by done. assert (s1 = s1') as He1 by (unfold s1; by rewrite Heff). rewrite <-He1 in *. clear He1 s1' Heff.
  assert (well_formed (ledger s1)) as Wfs by (unfold s1; rewrite Hpass; by apply written_well_formed).
  assert (fitting fs r1) as Hfit1 by (destruct Hfit; split; rewrite ?Hts1, ?Hhead1; done).
  rewrite <-Hts1 in Hpend. assert (forall n x, targets r1 !! n = Some x -> life x = no_life) as Hnew.
  { rewrite Hts1. by apply (new_targets_none L i r). }
  destruct (written_taken fs (world s1) r1 r' t1' _ Hfit1 Hnew Hpend Hw Hfiles) as (Htk & Helig & Hkey).
  destruct (planUndo_row (ledger s1) o i r' L2 Hr' Hfresh Hph' (tk_files _ _ Htk) Hundo) as (rU & html & HrU & HkU & HsU & HtU).
  assert (well_formed L2) as Wf2.
  { assert (L2 = (planUndo E (ledger s1) o i).1) as -> by (by rewrite Hundo). by apply (step_well_formed E (ledger s1)); [apply s_planUndo|]. }
  pose proof (undo_fitting _ _ html _ _ _ Htk HsU HtU) as HfitU.
  destruct (approve_ready L2 (new_id o) c2 by2 u2 t2 L3 tr2 rU (world s1) t2' Wf2 HrU Hok2 HfitU) as (rU1 & HarU & HtsU1 & HheadU1 & _ & HpendU).
  { apply slack_enough; [apply countWriting_nonneg|done]. }
  destruct (effect_writes L3 (world s1) (new_id o) rU1 t2' cs2 HarU) as (o2 & s2' & rU' & Heff2 & _ & _ & _ & _ & Hfiles2 & Hrest2).
  rewrite HheadU1, HkU, bool_decide_true in Heff2 by done. assert (s2 = s2') as -> by (unfold s2; by rewrite Heff2). clear Heff2.
  destruct (undo_targets _ _ html _ _ _ Htk HtU) as [HlenU HallU].
  destruct (decide (Exists (fun x => writing_target x = true /\ target_key (plan x) = k) (targets r1))) as [Hk|Hk].
  - apply Exists_exists in Hk as (x & [n Hx]%list_elem_of_lookup & Hwx & <-).
    assert (n ∈ listPending L1 i) as Hn by (apply Hpend; by exists x).
    destruct (fit_due fs r1 Hfit1 n x Hx Hwx) as (_ & t & Ht & Hread & _).
    destruct (targets r' !! n) as [x'|] eqn:Hx'; [|specialize (Hkey n); unfold key_at in Hkey; by rewrite Hx', Hx in Hkey].
    apply (Helig n x' Hx') in Hn as He. assert ((n, x') ∈ undo_rows r') as [m Hm]%list_elem_of_lookup by (by apply elem_of_undo_rows).
    destruct (targets rU !! m) as [y|] eqn:Hy; [|apply lookup_ge_None in Hy; apply lookup_lt_Some in Hm; lia].
    destruct (HallU m y Hy) as (n2 & x2 & tt2 & Hm2 & Hx2 & _ & Htt & _ & Hwy & _ & _ & _ & _ & t' & Ht' & Hk' & _ & Haf).
    assert (n2 = n) as -> by congruence. assert (x2 = x') as -> by congruence.
    assert (tt2 = t) as ->.
    { pose proof (written_plan t1' _ r1 r' n x x' Hw Hx Hx') as Hpl. unfold toApplyTarget, can_write in Ht, Htt. rewrite Hpl in Htt. congruence. }
    rewrite <-(toApplyTarget_key n x t Ht), Hread, <-Haf, <-Hk'. apply (Hfiles2 m y t'); [|by rewrite HtsU1|done].
    apply HpendU. by exists y.
  - unfold file_read. rewrite Hrest2; [rewrite Hrest; [done|]|].
    + intros n Hn Hkn. apply Hk, Exists_exists. apply Hpend in Hn as (x & Hx & Hwx). exists x. split; [by eapply list_elem_of_lookup_2|].
      unfold key_at in Hkn. rewrite Hx in Hkn. by injection Hkn.
    + intros m Hm Hkm. apply HpendU in Hm as (y & Hy & _). destruct (HallU m y Hy) as (n & x' & t & _ & Hx' & He & Ht & Hky & _).
      apply (Helig n x' Hx'), Hpend in He as (x & Hx & Hwx). apply Hk, Exists_exists. exists x. split; [by eapply list_elem_of_lookup_2|]. split; [done|].
      rewrite <-(written_plan t1' _ r1 r' n x x' Hw Hx Hx'), <-(toApplyTarget_key n x' t Ht), <-Hky.
      unfold key_at in Hkm. rewrite HtsU1, Hy in Hkm. by injection Hkm.
Qed.
End Calm.

(** ** A change and its undo to try them on *)

Definition sample_platform : Platform :=
  {| resolve := Some; utf8_text s := s; utf8_bytes s := s; umask := 18; refuses_disk _ := false |}.
Definition sample_files : Files := {["a.md"%string := RegularFile "old" 420; "b.md"%string := RegularFile "old" 420; "c.md"%string := RegularFile "else" 420]}.
Definition sample_calm (t : Z) : BulkEffectDeps := calm sample_platform (fun _ => None) (fun _ => None) t.
Definition row_of (L : Ledger) (i : string) : RunRow := default sample_run (runs L !! i).
Definition sample_written : State := (runBulkEffect sample_siblings (sample_calm 6) "r" false {| world := sample_files; ledger := sample_approved; calls := [] |}).2.
Definition sample_undo : Ledger := (planUndo sample_siblings (ledger sample_written) (sample_origin "u" Owner) "r").1.
Definition sample_undone : State :=
  (runBulkEffect sample_siblings (sample_calm 8) "u" true {| world := world sample_written; ledger := sample_approve sample_undo "u"; calls := [] |}).2.

Lemma sample_fits n x : targets (row_of sample_planned "r") !! n = Some x ->
  (n = 0%nat \/ n = 1%nat) /\ error x = None /\ life x = no_life /\ exists t, toApplyTarget n x = Some t /\ fits sample_siblings sample_platform sample_files t.
Proof.
  assert (forall key m, exists t, toApplyTarget m (dry_target sample_siblings false (sample_change key)) = Some t /\ a_key t = key /\
    expected t = Present (JStr "old") /\ after t = Present (JStr "new")) as Hdry by (intros key m; eexists; split; [reflexivity|done]).
  assert (forall key m, file_read sample_platform key sample_files = Image (Present (JStr "old")) None -> exists t,
    toApplyTarget m (dry_target sample_siblings false (sample_change key)) = Some t /\ fits sample_siblings sample_platform sample_files t) as Hfit.
  { intros key m Hr. destruct (Hdry key m) as (t & Ht & Hk & He & Ha). exists t. split; [exact Ht|]. unfold fits. rewrite Hk, He, Ha, Hr.
    split; [done|]. split; [reflexivity|]. exists "new"%string. split; [done|]. split; [done|by vm_compute]. }
  change (targets (row_of sample_planned "r")) with (dry_target sample_siblings false <$> [sample_change "a.md"; sample_change "b.md"]).
  destruct n as [|[|n]]; intros Hx; [| |by destruct n].
  - injection Hx as <-. split; [by left|]. split; [done|]. split; [done|]. by apply Hfit.
  - injection Hx as <-. split; [by right|]. split; [done|]. split; [done|]. by apply Hfit.
Qed.
Lemma sample_fitting : fitting sample_siblings sample_platform sample_files (row_of sample_planned "r").
Proof.
  split; [reflexivity| |].
  - intros n x Hx _. destruct (sample_fits n x Hx) as (_ & ? & _ & ?). done.
  - intros n m x y Hx Hy _ _ Hk. destruct (sample_fits n x Hx) as [[->| ->] _], (sample_fits m y Hy) as [[->| ->] _]; try done;
      vm_compute in Hx, Hy; injection Hx as <-; injection Hy as <-; discriminate Hk.
Qed.

Lemma sample_pending n : n ∈ listPending sample_approved "r" -> n = 0%nat \/ n = 1%nat.
Proof.
  change (listPending sample_approved "r") with [0; 1]%nat. rewrite !elem_of_cons, elem_of_nil. tauto.
Qed.

Lemma an_undisturbed_run_is_written_witness : listPending sample_approved "r" = [0; 1]%nat /\ exists o s' r',
  runBulkEffect sample_siblings (sample_calm 6) "r" false {| world := sample_files; ledger := sample_approved; calls := [] |} = (o, s') /\ status o = st_done /\
  runs (ledger s') !! "r"%string = Some r' /\ phase r' = finished.
Proof.
  split; [reflexivity|].
  destruct (an_undisturbed_run_is_written sample_siblings sample_platform (fun _ => None) (fun _ => None) sample_approved sample_files "r"
    (row_of sample_approved "r") 6 []) as (o & s' & r' & He & Hs & Hr & Hp & _).
  - split.
    + reflexivity.
    + split; reflexivity.
    + eexists. split; [reflexivity|by vm_compute].
    + reflexivity.
    + reflexivity.
    + vm_compute. discriminate.
    + eexists. split; [reflexivity|by vm_compute].
    + intros n Hn2%sample_pending.
      assert (exists x, targets (row_of sample_planned "r") !! n = Some x) as [x Hx] by (destruct Hn2 as [->| ->]; eexists; reflexivity).
      destruct (sample_fits n x Hx) as (_ & He & Hl & t & Ht & Hfit). exists x, t. split; [exact Hx|]. split; [|done].
      split; [|by rewrite Hl]. unfold is_pending. rewrite He, Hl. destruct Hn2 as [->| ->]; vm_compute in Hx; by injection Hx as <-.
    + intros n m Hn Hm Hk. apply sample_pending in Hn, Hm.
      destruct Hn as [->| ->], Hm as [->| ->]; [reflexivity|vm_compute in Hk; discriminate Hk|vm_compute in Hk; discriminate Hk|reflexivity].
  - assert (bool_decide (kind (head (row_of sample_approved "r")) = undo_) = false) as Hk by (vm_compute; reflexivity).
    rewrite Hk in He. exists o, s', r'. exact (conj He (conj Hs (conj Hr Hp))).
Defined.

Lemma an_undo_restores_the_files_witness : world sample_written !! "a.md"%string = Some (RegularFile "new" 420) /\
  forall k, file_read sample_platform k (world sample_undone) = file_read sample_platform k sample_files.
Proof.
  split; [vm_compute; reflexivity|].
  refine (an_undo_restores_the_files sample_siblings sample_platform (fun _ => None) (fun _ => None) sample_planned sample_files "r" (row_of sample_planned "r")
    (sample_checksum sample_planned "r") (Some "o"%string) true 5 sample_approved "bulk-r" 6 (sample_origin "u" Owner) sample_undo
    (sample_checksum sample_undo "u") (Some "o"%string) true 5 (sample_approve sample_undo "u") "bulk-u" 8 [] []
    sample_planned_reachable _ _ sample_fitting _ _ _ _ _ _).
  - vm_compute; reflexivity.
  - vm_compute; reflexivity.
  - vm_compute; reflexivity.
  - vm_compute. discriminate.
  - vm_compute; reflexivity.
  - vm_compute; reflexivity.
  - vm_compute; reflexivity.
  - vm_compute. discriminate.
Defined.
