(* ===== verification/IsoTime.v ===== *)
(** Times as the texts the engine's tables hold: [Date.prototype.toISOString] of the language, the order
    SQLite compares texts in, and that on the years 0 to 9999 the two orders are one. *)
From S2P Require Import Prelude JsString Cron.
Open Scope Z_scope.

(** ** Texts in SQLite's binary collation *)

Definition text_lt (a b : string) : bool := String.ltb a b.
Definition text_le (a b : string) : bool := String.leb a b.

(** ** [toISOString] *)

(** The [k] last decimal digits of [n], highest first. *)
Fixpoint digits (k : nat) (n : Z) : list ascii :=
  match k with O => [] | S k => digits k (n / 10) ++ [chr (48 + n mod 10)] end.

Definition iso_year (y : Z) : list ascii :=
  if (0 <=? y) && (y <=? 9999) then digits 4 y
  else (if 0 <=? y then "+"%char else "-"%char) :: digits 6 (Z.abs y).

Definition iso_chars (t : Z) : list ascii :=
  let '(y, m, d) := civil (day_of t) in
  iso_year y ++ "-"%char :: digits 2 m ++ "-"%char :: digits 2 d ++ "T"%char :: digits 2 (getUTCHours t) ++
  ":"%char :: digits 2 (getUTCMinutes t) ++ ":"%char :: digits 2 ((t / 1000) mod 60) ++ "."%char :: digits 3 (t mod 1000) ++
  ["Z"%char].
Definition toISOString (t : Z) : string := unchars (iso_chars t).

Example iso_1 : toISOString 0 = "1970-01-01T00:00:00.000Z"%string. Proof. vm_compute. reflexivity. Qed.
Example iso_2 : toISOString 1709251199987 = "2024-02-29T23:59:59.987Z"%string. Proof. vm_compute. reflexivity. Qed.
Example iso_3 : toISOString 253402300800000 = "+010000-01-01T00:00:00.000Z"%string. Proof. vm_compute. reflexivity. Qed.
Example iso_4 : toISOString (-62167219200001) = "-000001-12-31T23:59:59.999Z"%string. Proof. vm_compute. reflexivity. Qed.

(** The times of the years 0 to 9999. *)
Definition iso_range (t : Z) : Prop := -62167219200000 <= t < 253402300800000.

(** ** The text order *)

Definition lex (a b : comparison) : comparison := match a with Eq => b | c => c end.

Fixpoint chars_compare (a b : list ascii) : comparison :=
  match a, b with
  | [], [] => Eq | [], _ => Lt | _, [] => Gt
  | x :: a, y :: b => lex (code x ?= code y) (chars_compare a b)
  end.

Lemma compare_chars a b : String.compare a b = chars_compare (chars a) (chars b).
Proof.
  revert b. induction a as [|x a IH]; intros [|y b]; [done..|]. cbn. unfold Ascii.compare. rewrite IH.
  unfold code, lex. rewrite N2Z.inj_compare. case_match; done.
Qed.

Lemma compare_refl a : String.compare a a = Eq.
Proof. rewrite compare_chars. induction (chars a) as [|x l IH]; [done|]. cbn. by rewrite Z.compare_refl. Qed.

Lemma text_le_refl a : text_le a a = true.
Proof. unfold text_le, String.leb. by rewrite compare_refl. Qed.

Lemma text_lt_le a b : text_lt a b = negb (text_le b a).
Proof. unfold text_lt, text_le, String.ltb, String.leb. rewrite (String.compare_antisym b a). by destruct (String.compare a b). Qed.

Lemma chars_compare_eq a b : chars_compare a b = Eq -> a = b.
Proof.
  revert b. induction a as [|x a IH]; intros [|y b]; try done. cbn. unfold lex. destruct (Z.compare_spec (code x) (code y)) as [E| |]; [|done..].
  intros H. f_equal; [|by apply IH]. unfold code in E. apply (inj Z.of_N) in E. rewrite <-(ascii_N_embedding x), <-(ascii_N_embedding y). by f_equal.
Qed.

Lemma chars_compare_trans a b c r : chars_compare a b = r -> chars_compare b c = r -> chars_compare a c = r.
Proof.
  revert b c. induction a as [|x a IH]; intros [|y b] [|z c]; cbn; unfold lex;
    repeat match goal with |- context [?m ?= ?n] => destruct (Z.compare_spec m n) end;
    intros; subst; try congruence; try lia; by eapply IH.
Qed.

Lemma text_lt_trans a b c : text_lt a b = true -> text_lt b c = true -> text_lt a c = true.
Proof.
  unfold text_lt, String.ltb. rewrite !compare_chars. intros H1 H2.
  rewrite (chars_compare_trans (chars a) (chars b) (chars c) Lt); [done|by destruct (chars_compare _ _)|by destruct (chars_compare (chars b) _)].
Qed.

Lemma text_le_lt_trans a b c : text_le a b = true -> text_lt b c = true -> text_lt a c = true.
Proof.
  unfold text_le, text_lt, String.leb, String.ltb. rewrite !compare_chars.
  destruct (chars_compare (chars a) (chars b)) eqn:E; [|intros _|done].
  - by rewrite (chars_compare_eq _ _ E).
  - intros H. rewrite (chars_compare_trans (chars a) (chars b) (chars c) Lt); [done|done|by destruct (chars_compare (chars b) _)].
Qed.

(** ** Digits sort like the number they write *)

Lemma code_chr n : 0 <= n < 256 -> code (chr n) = n.
Proof. intros Hn. unfold code, chr. rewrite N_ascii_embedding by lia. lia. Qed.

Lemma lex_assoc a b c : lex a (lex b c) = lex (lex a b) c.
Proof. by destruct a. Qed.
Lemma lex_Eq_r a : lex a Eq = a.
Proof. by destruct a. Qed.

Lemma chars_compare_app a b c d : length a = length b -> chars_compare (a ++ c) (b ++ d) = lex (chars_compare a b) (chars_compare c d).
Proof.
  revert b. induction a as [|x a IH]; intros [|y b]; try done. intros [= Hl]. cbn. by rewrite IH, lex_assoc.
Qed.

Lemma length_digits k n : length (digits k n) = k.
Proof. revert n. induction k as [|k IH]; intros n; [done|]. cbn. rewrite length_app, IH. cbn. lia. Qed.

Lemma lex_div k a b : 0 < k -> lex (a / k ?= b / k) (a mod k ?= b mod k) = (a ?= b).
Proof.
  intros Hk. pose proof (Z.div_mod a k). pose proof (Z.div_mod b k). pose proof (Z.mod_pos_bound a k). pose proof (Z.mod_pos_bound b k).
  unfold lex. destruct (Z.compare_spec (a / k) (b / k)), (Z.compare_spec (a mod k) (b mod k)), (Z.compare_spec a b); try done; nia.
Qed.

Lemma iso_not_empty t : toISOString t <> ""%string.
Proof.
  unfold toISOString, iso_chars. destruct (civil (day_of t)) as [[y m] d]. unfold iso_year. destruct (_ && _); [|done].
  pose proof (length_digits 4 y) as H. by destruct (digits 4 y).
Qed.

Lemma digits_compare k a b : 0 <= a < 10 ^ Z.of_nat k -> 0 <= b < 10 ^ Z.of_nat k -> chars_compare (digits k a) (digits k b) = (a ?= b).
Proof.
  revert a b. induction k as [|k IH]; intros a b; [cbn; intros; by replace a with b by lia; rewrite Z.compare_refl|].
  rewrite Nat2Z.inj_succ, Z.pow_succ_r by lia. intros Ha Hb. cbn [digits].
  rewrite chars_compare_app by by rewrite !length_digits. rewrite IH by (split; [apply Z.div_pos|apply Z.div_lt_upper_bound]; lia).
  cbn. pose proof (Z.mod_pos_bound a 10). pose proof (Z.mod_pos_bound b 10). rewrite !code_chr by lia.
  rewrite <-(lex_div 10 a b) by lia. f_equal. unfold lex. destruct (Z.compare_spec (48 + a mod 10) (48 + b mod 10)), (Z.compare_spec (a mod 10) (b mod 10)); try done; lia.
Qed.

(** A field of digits in front of a rest, and a separator. *)
Lemma field_compare k a b c d : 0 <= a < 10 ^ Z.of_nat k -> 0 <= b < 10 ^ Z.of_nat k ->
  chars_compare (digits k a ++ c) (digits k b ++ d) = lex (a ?= b) (chars_compare c d).
Proof. intros Ha Hb. by rewrite chars_compare_app, digits_compare by by rewrite ?length_digits. Qed.

Lemma sep_compare x c d : chars_compare (x :: c) (x :: d) = chars_compare c d.
Proof. cbn. by rewrite Z.compare_refl. Qed.

(** ** Every day has a date, and dates sort like days *)

Lemma month_and_date_valid fuel y m d : 1 <= m -> m + Z.of_nat fuel = 12 -> 0 <= d ->
  month_start y m + d < (if leap y then 366 else 365) ->
  let '(m', dd) := month_and_date fuel y m d in
  m <= m' <= 12 /\ 1 <= dd <= month_days y m' /\ month_start y m' + dd - 1 = month_start y m + d.
Proof.
  revert m d. induction fuel as [|fuel IH]; intros m d Hm Hf Hd Hl; cbn [month_and_date].
  - assert (m = 12) as -> by lia. cbn in Hl |- *. destruct (leap y); lia.
  - destruct (Z.ltb_spec d (month_days y m)); [lia|]. pose proof (month_start_next y m ltac:(lia)) as Hn.
    specialize (IH (m + 1) (d - month_days y m) ltac:(lia) ltac:(lia) ltac:(lia) ltac:(lia)).
    destruct (month_and_date _ _ _ _) as [m' dd]. lia.
Qed.

Lemma civil_valid d : let '(y, m, dom) := civil d in
  y = year_from_day d /\ 1 <= m <= 12 /\ 1 <= dom <= month_days y m /\ day_at y m dom = d.
Proof.
  unfold civil, day_at. pose proof (year_bounds d) as Hy. pose proof (day_from_year_next (year_from_day d)) as Hn.
  pose proof (month_and_date_valid 11 (year_from_day d) 1 (d - day_from_year (year_from_day d)) ltac:(lia) ltac:(lia) ltac:(lia)
    ltac:(change (month_start _ 1) with 0; lia)) as H.
  destruct (month_and_date _ _ _ _) as [m dom]. change (month_start _ 1) with 0 in H. lia.
Qed.

Lemma month_start_lt y m m' : 1 <= m < m' -> m' <= 12 -> month_start y m + month_days y m <= month_start y m'.
Proof.
  intros Hm Hm'. rewrite <-month_start_next by lia. pose proof (month_start_le y (m + 1) (Z.to_nat (m' - (m + 1))) ltac:(lia) ltac:(lia)) as H.
  by replace (m + 1 + Z.of_nat (Z.to_nat (m' - (m + 1)))) with m' in H by lia.
Qed.

Lemma day_at_lt y m d y' m' d' : 1 <= m <= 12 -> 1 <= m' <= 12 -> 1 <= d <= month_days y m -> 1 <= d' <= month_days y' m' ->
  y < y' \/ y = y' /\ (m < m' \/ m = m' /\ d < d') -> day_at y m d < day_at y' m' d'.
Proof.
  intros Hm Hm' Hd Hd' H. unfold day_at. destruct H as [H|[E [H|[E' H]]]]; [|rewrite <-E in *|rewrite <-E, <-E'; lia].
  - pose proof (month_start_bounds y m Hm). pose proof (month_start_bounds y' m' Hm'). pose proof (day_from_year_next y).
    pose proof (day_from_year_mono (y + 1) (y' - (y + 1)) ltac:(lia)). replace (y + 1 + (y' - (y + 1))) with y' in * by lia.
    destruct (leap y); lia.
  - pose proof (month_start_lt y m m'). lia.
Qed.

Lemma date_compare y m d y' m' d' : 1 <= m <= 12 -> 1 <= m' <= 12 -> 1 <= d <= month_days y m -> 1 <= d' <= month_days y' m' ->
  lex (y ?= y') (lex (m ?= m') (d ?= d')) = (day_at y m d ?= day_at y' m' d').
Proof.
  intros Hm Hm' Hd Hd'.
  pose proof (day_at_lt y m d y' m' d' Hm Hm' Hd Hd') as Hlt. pose proof (day_at_lt y' m' d' y m d Hm' Hm Hd' Hd) as Hgt.
  unfold lex. destruct (Z.compare_spec (day_at y m d) (day_at y' m' d')) as [E|E|E];
    destruct (Z.compare_spec y y'), (Z.compare_spec m m'), (Z.compare_spec d d'); try done; subst; lia.
Qed.

(** ** The two orders are one *)

Lemma iso_year_range t : iso_range t -> 0 <= year_from_day (day_of t) <= 9999.
Proof.
  intros Ht. pose proof (year_bounds (day_of t)) as Hy. set (y := year_from_day (day_of t)) in *. unfold iso_range, day_of, DAY_MS in *.
  pose proof (div_bounds t 86400000 ltac:(lia)). split.
  - apply Z.nlt_ge. intros H0. pose proof (day_from_year_mono (y + 1) (0 - (y + 1)) ltac:(lia)) as Hf.
    replace (y + 1 + (0 - (y + 1))) with 0 in Hf by lia. change (day_from_year 0) with (-719528) in Hf. lia.
  - apply Z.nlt_ge. intros H0. pose proof (day_from_year_mono 10000 (y - 10000) ltac:(lia)) as Hf.
    replace (10000 + (y - 10000)) with y in Hf by lia. change (day_from_year 10000) with 2932897 in Hf. lia.
Qed.

Lemma clock_compare t t' :
  (t ?= t') = lex (day_of t ?= day_of t') (lex (getUTCHours t ?= getUTCHours t') (lex (getUTCMinutes t ?= getUTCMinutes t')
    (lex ((t / 1000) mod 60 ?= (t' / 1000) mod 60) (t mod 1000 ?= t' mod 1000)))).
Proof.
  unfold day_of, getUTCHours, getUTCMinutes, DAY_MS. rewrite <-(lex_div 1000) by lia. rewrite <-(lex_div 60 (t / 1000)) by lia.
  rewrite !Z.div_div by lia. change (1000 * 60) with 60000. rewrite <-(lex_div 60 (t / 60000)) by lia.
  rewrite !Z.div_div by lia. change (60000 * 60) with 3600000. rewrite <-(lex_div 24 (t / 3600000)) by lia.
  rewrite !Z.div_div by lia. change (3600000 * 24) with 86400000. by rewrite !lex_assoc.
Qed.

Lemma iso_chars_compare t t' : iso_range t -> iso_range t' -> chars_compare (iso_chars t) (iso_chars t') = (t ?= t').
Proof.
  intros Ht Ht'. pose proof (iso_year_range t Ht) as Hy. pose proof (iso_year_range t' Ht') as Hy'.
  pose proof (civil_valid (day_of t)) as Hc. pose proof (civil_valid (day_of t')) as Hc'. unfold iso_chars.
  destruct (civil (day_of t)) as [[y m] d]. destruct (civil (day_of t')) as [[y' m'] d'].
  destruct Hc as (Ey & Hm & Hd & Eday), Hc' as (Ey' & Hm' & Hd' & Eday'). rewrite <-Ey in Hy. rewrite <-Ey' in Hy'.
  pose proof (month_days_pos y m). pose proof (month_days_pos y' m'). unfold iso_year.
  rewrite !(proj2 (Z.leb_le 0 _)), !(proj2 (Z.leb_le _ 9999)) by lia. cbn [andb].
  pose proof (Z.mod_pos_bound (t / 3600000) 24). pose proof (Z.mod_pos_bound (t' / 3600000) 24).
  pose proof (Z.mod_pos_bound (t / 60000) 60). pose proof (Z.mod_pos_bound (t' / 60000) 60).
  pose proof (Z.mod_pos_bound (t / 1000) 60). pose proof (Z.mod_pos_bound (t' / 1000) 60).
  pose proof (Z.mod_pos_bound t 1000). pose proof (Z.mod_pos_bound t' 1000).
  unfold getUTCHours, getUTCMinutes.
  do 6 (rewrite field_compare by lia; rewrite sep_compare). rewrite field_compare by lia. rewrite (sep_compare "Z"). cbn [chars_compare].
  rewrite (clock_compare t t'), <-Eday, <-Eday', <-date_compare by done. by rewrite !lex_assoc, lex_Eq_r.
Qed.

(** On the years 0 to 9999 the instants that [toISOString] writes sort as texts, the way SQLite compares them, exactly
    as the times they stand for: this is what lets the engine keep due times, lease ends and deadlines as texts. *)
Theorem iso_texts_sort_as_times t t' : iso_range t -> iso_range t' ->
  text_lt (toISOString t) (toISOString t') = (t <? t') /\ text_le (toISOString t) (toISOString t') = (t <=? t').
Proof.
  intros Ht Ht'. unfold text_lt, text_le, String.ltb, String.leb. rewrite compare_chars. unfold toISOString.
  rewrite !chars_unchars, iso_chars_compare by done. done.
Qed.

Lemma iso_texts_sort_as_times_witness :
  text_lt (toISOString 1709251199987) (toISOString 1709251200000) = true /\ iso_range 1709251199987.
Proof.
  split; [|by split]. rewrite (proj1 (iso_texts_sort_as_times 1709251199987 1709251200000 ltac:(by split) ltac:(by split))). done.
Defined.
