(* ===== verification/Triggers.v ===== *)
(** The schedules the engine fires by itself: [core/trigger-store.ts], the store over the table of triggers.

    The table is the list of its rows in the order they were inserted; every method is one statement or one
    transaction, so what several engines on one file do is a list of calls ([TriggerLaws]). Times are the texts
    the code stores and compares; [now] is the caller's [toISOString()], [stamped] SQLite's [datetime('now')].
    A JSON column is the value it parses to: [condition_json] and [paused_for] are written only by code that
    serialises them. The workflows a trigger can name are a list of ids, and whether the pause of plans is
    switched on is an argument. Row types that repeat the row under other names, the test-only readers [get] and
    [list], the model tier's old spellings and the columns nothing here reads are left out. *)
From coqutil Require Import Datatypes.RecordSetters.
From S2P Require Import Prelude JsString Principal IsoTime.
Import TriangleBracketNotations.
Open Scope Z_scope.

(** ** The row *)

(** @src src/src/types/pipeline.ts 255-255 TriggerStatus *)
Inductive TriggerStatus : Set := open_ | in_progress | completed | failed | waiting | stopped.
(** @src src/src/types/pipeline.ts 281-284 TriggerSource *)
Inductive TriggerSource : Set := cron | watch | webhook | inbox_event | manual.
(** @src src/src/types/pipeline.ts 304-304 TriggerEffect *)
Inductive TriggerEffect : Set :=
  run_workflow | run_agent | backup | notify | bulk_apply | bulk_undo | bulk_preview | bulk_judge.
#[export] Instance TriggerStatus_eq_dec : EqDecision TriggerStatus.
Proof. solve_decision. Defined.
#[export] Instance TriggerSource_eq_dec : EqDecision TriggerSource.
Proof. solve_decision. Defined.
#[export] Instance TriggerEffect_eq_dec : EqDecision TriggerEffect.
Proof. solve_decision. Defined.
Inductive ModelTier : Set := fast | balanced | deep.

(** What [condition_json] holds; the last two keys are present only on the triggers that carry them. *)
Record WebhookSpec := { verifier : string; shared_token_hash : option string; mapping : option (list (string * string)) }.
Record Condition := { schedule_cron : option string; watch_config : option string; run_id : option string;
  hook : option WebhookSpec }.

(** An ended member of a paused plan, [core/plan-pause.ts]. *)
(** @src src/src/core/plan-pause.ts 56-57 PauseRole *)
Inductive PauseRole : Set := r_created | r_edited | r_workflow_created | r_workflow_edited.
#[export] Instance PauseRole_eq_dec : EqDecision PauseRole.
Proof. solve_decision. Defined.
Inductive EndReason : Set := expired | revoked.
(** @src src/src/core/plan-pause.ts 59-71 PausedFor *)
Record PausedFor := { mandateId : string; email : string; reason : EndReason; endsAt : Z; roles : list PauseRole;
  closedPrompt : bool; warned : bool }.

(** What the trigger does. *)
Record What := { title : string; description : string; source : TriggerSource; effect : TriggerEffect;
  condition : Condition; target_workflow_id : option string; params_json : string; scope_type : option string;
  scope_id : option string; notification_channel : option string; max_retries : option Z }.
(** When it runs and how it went. *)
Record Sched := { status : TriggerStatus; enabled : bool; next_run_at : option string; last_run_at : option string;
  last_run_result : option string; last_run_status : option string; retry_count : Z }.
(** The owner's stamp. *)
Record Consent := { confirmed_at : option string; confirmed_by : option string; consent_reminded_at : option string;
  stamp_connections : option string }.
(** Who set it up and changed it; the marks a takeover covered. *)
Record Authors := { created_untrusted : option string; created_by : option string; created_mandate_id : option string;
  edited_by : option string; mandate_editor : option string; mandate_editor_id : option string;
  mandate_edited_at : option string; cover_created : mark; cover_edited : mark; covered_at : option Z }.
(** Who runs it now, until when without a sign of life, and since when. *)
Record Lease := { lease_holder : option string; lease_until : option string; lease_since : option string }.
(** [paused_for]: null, a list of entries, or a text that does not read as one. *)
Record Pause := { paused_at : option Z; paused_db_at : option Z; paused_due_at : option string;
  paused_for : option (option (list PausedFor)); pause_noticed_at : option Z }.
(** @src src/src/core/trigger-store.ts 345-350 EscalationOutcome *)
Inductive EscalationOutcome : Set := delivered | not_delivered | no_channel | unconfirmed.

(** The row of the table. *)
(** @src src/src/core/trigger-store.ts 187-231 TriggerFullDbRow *)
Record Trigger := { id : string; what : What; sched : Sched; waiting_until : option string; consent : Consent;
  authors : Authors; lease : Lease; pause : Pause; last_escalation_at : option string;
  last_escalation_outcome : option EscalationOutcome; model_tier : option ModelTier; route_token_hash : option string;
  source_connection_id : option string; created_at : string; updated_at : string }.

Abbreviation Table := (list Trigger).

Definition no_mark : mark := {| m_tag := None; m_id := None; m_at := None |}.
Definition no_lease : Lease := {| lease_holder := None; lease_until := None; lease_since := None |}.
Definition no_pause : Pause :=
  {| paused_at := None; paused_db_at := None; paused_due_at := None; paused_for := None; pause_noticed_at := None |}.

(** ** Statements *)

Definition ids (t : Table) : list string := id <$> t.
Definition find_row (t : Table) (i : string) : option Trigger := snd <$> list_find (fun r => id r = i) t.
(** [UPDATE triggers SET .. WHERE p]: the table and whether a row changed. *)
Definition update_rows (p : Trigger -> bool) (f : Trigger -> Trigger) (t : Table) : Table * bool :=
  ((fun r => if p r then f r else r) <$> t, existsb p t).
Definition at_id (i : string) (r : Trigger) : bool := bool_decide (id r = i).

(** [a <= b] and [a > b] of SQL, false on null. *)
Definition col_le (a : option string) (b : string) : bool := match a with Some a => text_le a b | None => false end.
Definition col_gt (a : option string) (b : string) : bool := match a with Some a => text_lt b a | None => false end.
Definition is_null {A} (a : option A) : bool := match a with None => true | Some _ => false end.
Definition coalesce {A} (a b : option A) : option A := match a with None => b | _ => a end.

(** [text LIKE prefix || '%'] with the prefix escaped: the letters of the alphabet match in either case. *)
(** @src src/src/core/trigger-store.ts 352-359 likePrefix *)
Definition like_prefix (prefix text : string) : bool := startsWith (toLowerCase text) (toLowerCase prefix).

(** [ORDER BY c ASC], null first, equal rows in table order. *)
Definition col_before (a b : option string) : Prop :=
  match a, b with None, _ => True | Some _, None => False | Some a, Some b => text_le a b = true end.
#[export] Instance col_before_dec a b : Decision (col_before a b).
Proof. destruct a, b; simpl; apply _. Defined.
Definition order_by (c : Trigger -> option string) (l : list Trigger) : list Trigger :=
  merge_sort (fun a b => col_before (c a) (c b)) l.

(** ** Which triggers fire *)

Section Store.
(** [planPauseOn()]. *)
Variable planPauseOn : bool.
(** The ids of the table of workflows. *)
Variable workflows : list string.

Definition unstamped (r : Trigger) : bool := falsy (confirmed_at (consent r)).

(** @src src/src/core/trigger-store.ts 370-381 UNHELD_SQL *)
Definition unheld (r : Trigger) : bool :=
  enabled (sched r) && negb (bool_decide (status (sched r) = completed)) && negb (bool_decide (status (sched r) = waiting)) &&
  negb (bool_decide (status (sched r) = stopped)) &&
  (negb (bool_decide (status (sched r) = failed)) || negb (is_null (schedule_cron (condition (what r))))) &&
  (is_null (paused_at (pause r)) || negb planPauseOn).

(** @src src/src/core/trigger-store.ts 383-391 ACCEPTS_SQL *)
Definition accepts (r : Trigger) : bool :=
  unheld r && negb (bool_decide (effect (what r) = run_agent) && unstamped r) &&
  negb (unstamped r && like_prefix MANDATE_TAG_PREFIX
    (default "" (coalesce (edited_by (authors r)) (created_by (authors r))))%string).

(** @src src/src/core/trigger-store.ts 393-401 ARMED_SQL *)
Definition armed (r : Trigger) : bool := negb (is_null (next_run_at (sched r))) && accepts r.

(** @src src/src/core/trigger-store.ts 1014-1019 getDue *)
Definition is_due (now : string) (r : Trigger) : bool :=
  armed r && col_le (next_run_at (sched r)) now &&
  (is_null (lease_until (lease r)) || col_le (lease_until (lease r)) now).
(** @src src/src/core/trigger-store.ts 955-1023 getDue *)
Definition getDue (t : Table) (now : string) : list Trigger :=
  order_by (fun r => next_run_at (sched r)) (filter (fun r => is_due now r = true) t).

(** @src src/src/core/trigger-store.ts 1025-1035 isLive *)
Definition isLive (t : Table) (i now : string) : bool :=
  existsb (fun r => at_id i r && (armed r || col_gt (lease_until (lease r)) now)) t.

(** @src src/src/core/trigger-store.ts 403-408 WebhookReceiverRow *)
Definition receiver_row (r : Trigger) : string * Condition * option string :=
  (id r, condition (what r), source_connection_id r).
Definition accepts_delivery (r : Trigger) : bool :=
  bool_decide (source (what r) = webhook) && bool_decide (effect (what r) = run_workflow) && accepts r.
(** @src src/src/core/trigger-store.ts 1037-1052 findWebhookReceiver *)
Definition findWebhookReceiver (t : Table) (routeTokenHash : string) : option (string * Condition * option string) :=
  receiver_row ∘ snd <$> list_find (fun r => bool_decide (route_token_hash r = Some routeTokenHash) && accepts_delivery r = true) t.
(** @src src/src/core/trigger-store.ts 1054-1068 findAcceptingWebhook *)
Definition findAcceptingWebhook (t : Table) (i : string) : option (string * Condition * option string) :=
  receiver_row ∘ snd <$> list_find (fun r => at_id i r && accepts_delivery r = true) t.

(** @src src/src/core/trigger-store.ts 1082-1091 getAwaitingConsentUnreminded *)
Definition awaits_consent (now : string) (r : Trigger) : bool :=
  col_le (next_run_at (sched r)) now && unheld r && bool_decide (effect (what r) = run_agent) && unstamped r &&
  is_null (consent_reminded_at (consent r)) && (is_null (lease_until (lease r)) || col_le (lease_until (lease r)) now).
(** @src src/src/core/trigger-store.ts 1070-1094 getAwaitingConsentUnreminded *)
Definition getAwaitingConsentUnreminded (t : Table) (now : string) : list Trigger :=
  order_by (fun r => next_run_at (sched r)) (filter (fun r => awaits_consent now r = true) t).

(** ** Writes *)

(** [consent_reminded_at] after a write of [confirmed_at]. *)
(** @src src/src/core/trigger-store.ts 233-239 KEEP_MARKER_IF_UNSTAMPED_SQL *)
Definition keep_marker (stamp : option string) (c : Consent) : option string :=
  if falsy stamp && falsy (confirmed_at c) then consent_reminded_at c else None.

(** @src src/src/core/trigger-store.ts 523-544 _resolveTargetWorkflowId *)
Definition resolveTargetWorkflowId (candidate : option string) : option string :=
  match candidate with
  | None => None
  | Some c =>
      if bool_decide (c = ""%string) then None
      else if bool_decide (c ∈ workflows) then Some c
      else match filter (fun w => like_prefix c w = true) workflows with [w] => Some w | _ => None end
  end.

(** The row a caller hands to [upsert]; [row_what] and [row_sched] are its columns of those groups. *)
(** @src src/src/core/trigger-store.ts 59-97 TriggerRow *)
Record TriggerRow := { row_id : string; row_what : What; row_sched : Sched; confirmedAt : option string;
  createdUntrusted : option string; createdBy : option string; confirmedBy : option string;
  createdMandateId : option string }.

(** [VALUES (...)]. *)
(** @src src/src/core/trigger-store.ts 444-453 upsert *)
Definition values (row : TriggerRow) (createdAt updatedAt : option string) (now : string) : Trigger :=
  {| id := row_id row;
     what := (row_what row) <| target_workflow_id := resolveTargetWorkflowId (target_workflow_id (row_what row)) |>;
     sched := row_sched row; waiting_until := None;
     consent := {| confirmed_at := confirmedAt row;
       confirmed_by := if falsy (confirmedAt row) then None else confirmedBy row;
       consent_reminded_at := None; stamp_connections := None |};
     authors := {| created_untrusted := createdUntrusted row; created_by := createdBy row;
       created_mandate_id := if isMandateTag (createdBy row) then createdMandateId row else None;
       edited_by := None; mandate_editor := None; mandate_editor_id := None; mandate_edited_at := None;
       cover_created := no_mark; cover_edited := no_mark; covered_at := None |};
     lease := no_lease; pause := no_pause; last_escalation_at := None; last_escalation_outcome := None;
     model_tier := None; route_token_hash := None; source_connection_id := None;
     created_at := default now createdAt; updated_at := default now updatedAt |}.

(** [ON CONFLICT(id) DO UPDATE SET ..] of [new] on [old]. *)
(** @src src/src/core/trigger-store.ts 454-491 upsert *)
Definition on_conflict (new old : Trigger) : Trigger :=
  old <| what := what new |> <| sched := sched new |>
      <| consent := {| confirmed_at := confirmed_at (consent new);
           confirmed_by := if falsy (confirmed_at (consent new)) then None
                           else coalesce (confirmed_by (consent new)) (confirmed_by (consent old));
           consent_reminded_at := keep_marker (confirmed_at (consent new)) (consent old);
           stamp_connections := stamp_connections (consent old) |} |>
      <| authors := (authors old)
           <| created_untrusted := coalesce (created_untrusted (authors new)) (created_untrusted (authors old)) |>
           <| created_by := coalesce (created_by (authors old)) (created_by (authors new)) |>
           <| created_mandate_id := if is_null (created_by (authors old)) then created_mandate_id (authors new)
                                    else created_mandate_id (authors old) |> |>
      <| updated_at := updated_at new |>.

(** @src src/src/core/trigger-store.ts 426-521 upsert *)
Definition upsert (t : Table) (row : TriggerRow) (createdAt updatedAt : option string) (now : string) : Table :=
  let new := values row createdAt updatedAt now in
  match find_row t (row_id row) with
  | Some _ => (update_rows (at_id (row_id row)) (on_conflict new) t).1
  | None => t ++ [new]
  end.

(** @src src/src/core/trigger-store.ts 546-550 remove *)
Definition remove (t : Table) (i : string) : Table * bool :=
  if bool_decide (i = ""%string) then (t, false)
  else (filter (fun r => at_id i r = false) t, existsb (at_id i) t).

(** @src src/src/core/trigger-store.ts 563-592 insert *)
Record InsertParams := { p_id : string; p_title : string; p_description : option string; p_status : option TriggerStatus;
  p_scopeType : option string; p_scopeId : option string; p_scheduleCron : option string; p_nextRunAt : option string;
  p_source : option TriggerSource; p_effect : option TriggerEffect; p_watchConfig : option string;
  p_maxRetries : option Z; p_notificationChannel : option string; p_pipelineId : option string;
  p_pipelineParams : option string; p_confirmedAt : option string; p_createdUntrusted : option string;
  p_createdBy : option string; p_createdMandateId : option string; p_confirmedBy : option string }.

Definition fresh_sched (s : TriggerStatus) (next : option string) : Sched :=
  {| status := s; enabled := true; next_run_at := next; last_run_at := None; last_run_result := None;
     last_run_status := None; retry_count := 0 |}.

(** @src src/src/core/trigger-store.ts 593-625 insert *)
Definition insert_row (p : InsertParams) : TriggerRow :=
  {| row_id := p_id p;
     row_what := {| title := p_title p; description := default ""%string (p_description p);
       source := default manual (p_source p); effect := default run_agent (p_effect p);
       condition := {| schedule_cron := p_scheduleCron p; watch_config := p_watchConfig p; run_id := None; hook := None |};
       target_workflow_id := p_pipelineId p; params_json := default "{}"%string (p_pipelineParams p);
       scope_type := Some (default "project"%string (p_scopeType p)); scope_id := Some (default ""%string (p_scopeId p));
       notification_channel := p_notificationChannel p; max_retries := Some (default 0 (p_maxRetries p)) |};
     row_sched := fresh_sched (default open_ (p_status p)) (p_nextRunAt p);
     confirmedAt := p_confirmedAt p; createdUntrusted := p_createdUntrusted p; createdBy := p_createdBy p;
     confirmedBy := p_confirmedBy p; createdMandateId := p_createdMandateId p |}.
(** @src src/src/core/trigger-store.ts 552-626 insert *)
Definition insert (t : Table) (p : InsertParams) (now : string) : Table := upsert t (insert_row p) None None now.

(** @src src/src/core/trigger-store.ts 361-365 bulkPreviewTriggerId *)
Definition bulkPreviewTriggerId (runId : string) : string := ("bulk-preview-" ++ runId)%string.

Definition engine_row (i title : string) (s : TriggerSource) (e : TriggerEffect) (c : Condition) (target : option string)
    (scopeType scopeId : string) : TriggerRow :=
  {| row_id := i;
     row_what := {| title := title; description := ""%string; source := s; effect := e; condition := c;
       target_workflow_id := target; params_json := "{}"%string; scope_type := Some scopeType; scope_id := Some scopeId;
       notification_channel := None; max_retries := Some 0 |};
     row_sched := fresh_sched open_ None; confirmedAt := None; createdUntrusted := None; createdBy := None;
     confirmedBy := None; createdMandateId := None |}.

(** The effect is one of the four of a bulk run. *)
(** @src src/src/core/trigger-store.ts 628-664 armBulkEffect *)
Definition armBulkEffect (t : Table) (runId : string) (e : TriggerEffect) (title nextRunAt now : string) : Table * string :=
  let i := if bool_decide (e = bulk_preview) || bool_decide (e = bulk_judge) then bulkPreviewTriggerId runId
           else ("bulk-" ++ runId)%string in
  let row := engine_row i title manual e {| schedule_cron := None; watch_config := None; run_id := Some runId; hook := None |}
    None "project" "" in
  (upsert t (row <| row_sched := fresh_sched open_ (Some nextRunAt) |>) None None now, i).

(** @src src/src/core/trigger-store.ts 673-688 insertWebhook *)
Record WebhookParams := { w_id : string; w_title : string; w_description : option string; w_pipelineId : string;
  w_spec : WebhookSpec; w_routeTokenHash : string; w_sourceConnectionId : option string; w_scopeType : option string;
  w_scopeId : option string; w_confirmedAt : option string; w_confirmedBy : option string;
  w_createdUntrusted : option string; w_createdBy : option string; w_createdMandateId : option string }.

Inductive WebhookRefusal := NoSavedWorkflow (w : string) | IdTaken (i : string).

(** @src src/src/core/trigger-store.ts 666-731 insertWebhook *)
Definition insertWebhook (t : Table) (p : WebhookParams) (now : string) : result WebhookRefusal Table :=
  match resolveTargetWorkflowId (Some (w_pipelineId p)) with
  | None => Err (NoSavedWorkflow (w_pipelineId p))
  | Some workflowId =>
      if existsb (at_id (w_id p)) t then Err (IdTaken (w_id p))
      else
        let row := engine_row (w_id p) (w_title p) webhook run_workflow
          {| schedule_cron := None; watch_config := None; run_id := None; hook := Some (w_spec p) |} (Some workflowId)
          (default "project"%string (w_scopeType p)) (default ""%string (w_scopeId p)) in
        let row := row <| row_what := (row_what row) <| description := default ""%string (w_description p) |> |>
          <| confirmedAt := w_confirmedAt p |> <| createdUntrusted := w_createdUntrusted p |>
          <| createdBy := w_createdBy p |> <| createdMandateId := w_createdMandateId p |>
          <| confirmedBy := if is_null (w_confirmedAt p) then None else w_confirmedBy p |> in
        Ok (update_rows (at_id (w_id p)) (fun r => r <| route_token_hash := Some (w_routeTokenHash p) |>
             <| source_connection_id := w_sourceConnectionId p |>) (upsert t row None None now)).1
  end.

(** @src src/src/core/trigger-store.ts 733-739 setEnabled *)
Definition setEnabled (t : Table) (i : string) (on : bool) (now : string) : Table * bool :=
  update_rows (at_id i) (fun r => r <| sched -> enabled := on |> <| updated_at := now |>) t.

(** @src src/src/core/trigger-store.ts 741-763 setConfirmedAt *)
Definition setConfirmedAt (t : Table) (i : string) (at_ by_ connections : option string) (now : string) : Table * bool :=
  let by_ := if is_null at_ then None else by_ in
  update_rows (at_id i) (fun r =>
    r <| consent := {| confirmed_at := at_; confirmed_by := by_; consent_reminded_at := keep_marker at_ (consent r);
           stamp_connections := if is_null at_ then None else connections |} |>
      <| authors -> edited_by := coalesce by_ (edited_by (authors r)) |> <| updated_at := now |>) t.

(** @src src/src/core/trigger-store.ts 765-774 getStampConnections *)
Definition getStampConnections (t : Table) (i : string) : option (option string * option string) :=
  (fun r => (confirmed_at (consent r), stamp_connections (consent r))) <$> find_row t i.

(** The editor's mark: a mandate's is kept apart, and drops the takeover of the mark before it. *)
(** @src src/src/core/trigger-store.ts 793-803 markEditedBy *)
Definition mark_row (editor : RequestPrincipal) (clearStamp : bool) (now : string) (r : Trigger) : Trigger :=
  let tag := Some (principalTag editor) in
  let r := r <| authors -> edited_by := tag |> <| updated_at := now |> in
  let r := match editor with
    | Mandate _ mid _ =>
        r <| authors -> mandate_editor := tag |> <| authors -> mandate_editor_id := mid |>
          <| authors -> mandate_edited_at := Some now |> <| authors -> cover_edited := no_mark |>
    | _ => r end in
  if clearStamp then
    r <| consent := (consent r) <| confirmed_at := None |> <| confirmed_by := None |>
                                <| consent_reminded_at := keep_marker None (consent r) |> |>
  else r.
(** @src src/src/core/trigger-store.ts 776-804 markEditedBy *)
Definition markEditedBy (t : Table) (i : string) (editor : RequestPrincipal) (clearStamp : bool) (now : string) : Table * bool :=
  update_rows (at_id i) (mark_row editor clearStamp now) t.

(** [x || null]: the empty text clears. *)
Definition or_null (x : option string) : option string := if falsy x then None else x.

(** An outer [None] is a key that is not passed. *)
(** @src src/src/core/trigger-store.ts 817-830 updateFields *)
Record UpdateFields := { u_title : option string; u_description : option string; u_status : option TriggerStatus;
  u_assignee : option string; u_nextRunAt : option (option string); u_scheduleCron : option (option string);
  u_waitingUntil : option (option string); u_modelTier : option (option ModelTier) }.

Definition no_update : UpdateFields :=
  {| u_title := None; u_description := None; u_status := None; u_assignee := None; u_nextRunAt := None;
     u_scheduleCron := None; u_waitingUntil := None; u_modelTier := None |}.

Definition in_scopes (scopes : list (string * string)) (r : Trigger) : bool :=
  match scopes with
  | [] => true
  | _ => existsb (fun s => bool_decide (scope_type (what r) = Some s.1) && bool_decide (scope_id (what r) = Some s.2)) scopes
  end.

(** A status other than [waiting] ends a wait, whatever deadline comes with it. *)
(** @src src/src/core/trigger-store.ts 854-878 updateFields *)
Definition clears_wait (p : UpdateFields) : bool :=
  match u_status p with Some s => negb (bool_decide (s = waiting)) | None => false end.

Definition given {A} (x : option A) (f : A -> Trigger -> Trigger) (r : Trigger) : Trigger :=
  match x with Some x => f x r | None => r end.

(** The instruction's edit takes the owner's stamp away. *)
(** @src src/src/core/trigger-store.ts 835-848 updateFields *)
Definition edit_unstamps (p : UpdateFields) (r : Trigger) : Trigger :=
  if is_null (u_title p) && is_null (u_description p) then r
  else r <| consent := (consent r) <| confirmed_at := None |> <| confirmed_by := None |>
                                   <| consent_reminded_at := keep_marker None (consent r) |> |>.

(** @src src/src/core/trigger-store.ts 831-891 updateFields *)
Definition set_fields (p : UpdateFields) (now : string) (r : Trigger) : Trigger :=
  let r := given (u_title p) (fun x r => r <| what -> title := x |>) r in
  let r := given (u_description p) (fun x r => r <| what -> description := x |>) r in
  let r := edit_unstamps p r in
  let r := given (u_status p) (fun s r => r <| sched -> status := s |>) r in
  let r := given (u_nextRunAt p) (fun x r => r <| sched -> next_run_at := or_null x |>) r in
  let r := given (if clears_wait p then Some None else u_waitingUntil p) (fun x r => r <| waiting_until := or_null x |>) r in
  let r := given (u_scheduleCron p)
    (fun x r => r <| what := (what r) <| condition := (condition (what r)) <| schedule_cron := or_null x |> |> |>) r in
  let r := given (u_modelTier p) (fun x r => r <| model_tier := x |>) r in
  r <| updated_at := now |>.

Definition sets_nothing (p : UpdateFields) : bool :=
  is_null (u_title p) && is_null (u_description p) && is_null (u_status p) && is_null (u_assignee p) &&
  is_null (u_nextRunAt p) && is_null (u_scheduleCron p) && is_null (u_waitingUntil p) && is_null (u_modelTier p).

(** @src src/src/core/trigger-store.ts 806-900 updateFields *)
Definition updateFields (t : Table) (i : string) (p : UpdateFields) (scopes : list (string * string)) (now : string)
    : Table * bool :=
  if sets_nothing p then (t, false) else update_rows (fun r => at_id i r && in_scopes scopes r) (set_fields p now) t.

(** @src src/src/core/trigger-store.ts 905-911 updateRunResult *)
Record RunResult := { rr_lastRunAt : string; rr_lastRunResult : string; rr_lastRunStatus : string;
  rr_nextRunAt : option (option string); rr_retryCount : option Z }.

(** @src src/src/core/trigger-store.ts 912-918 updateRunResult *)
Definition result_row (u : RunResult) (now : string) (r : Trigger) : Trigger :=
  let s := (sched r) <| last_run_at := Some (rr_lastRunAt u) |> <| last_run_result := Some (rr_lastRunResult u) |>
                     <| last_run_status := Some (rr_lastRunStatus u) |> in
  let s := match rr_nextRunAt u with Some x => s <| next_run_at := x |> | None => s end in
  let s := match rr_retryCount u with Some n => s <| retry_count := n |> | None => s end in
  r <| sched := s |> <| updated_at := now |>.
(** @src src/src/core/trigger-store.ts 902-919 updateRunResult *)
Definition updateRunResult (t : Table) (i : string) (u : RunResult) (now : string) : Table :=
  (update_rows (at_id i) (result_row u now) t).1.

(** @src src/src/core/trigger-store.ts 925-927 updateWatchConfig *)
Definition watch_row (config now : string) (r : Trigger) : Trigger :=
  r <| what := (what r) <| condition := (condition (what r)) <| watch_config := Some config |> |> |> <| updated_at := now |>.
(** @src src/src/core/trigger-store.ts 921-928 updateWatchConfig *)
Definition updateWatchConfig (t : Table) (i config now : string) : Table := (update_rows (at_id i) (watch_row config now) t).1.

(** @src src/src/core/trigger-store.ts 1096-1120 startEscalation *)
Definition startEscalation (t : Table) (i at_ : string) (onlyIfLater : bool) : Table * bool :=
  update_rows (fun r => at_id i r && (negb onlyIfLater || is_null (last_escalation_at r) ||
      match last_escalation_at r with Some x => text_lt x at_ | None => false end))
    (fun r => r <| last_escalation_at := Some at_ |> <| last_escalation_outcome := Some unconfirmed |>) t.

(** The outcome is an answer of the channels. *)
(** @src src/src/core/trigger-store.ts 1122-1133 recordEscalationOutcome *)
Definition recordEscalationOutcome (t : Table) (i : string) (outcome : EscalationOutcome) (startedAt : string) : Table * bool :=
  update_rows (fun r => at_id i r && bool_decide (last_escalation_at r = Some startedAt))
    (fun r => r <| last_escalation_outcome := Some outcome |>) t.

(** @src src/src/core/trigger-store.ts 1135-1146 markConsentReminded *)
Definition markConsentReminded (t : Table) (i at_ : string) : Table * bool :=
  update_rows (fun r => at_id i r && is_null (consent_reminded_at (consent r)) && unstamped r)
    (fun r => r <| consent -> consent_reminded_at := Some at_ |>) t.

(** The new status is not [waiting]. *)
(** @src src/src/core/trigger-store.ts 1148-1181 endWait *)
Definition endWait (t : Table) (i : string) (to : TriggerStatus) (now : string) : Table * bool :=
  update_rows (fun r => at_id i r && bool_decide (status (sched r) = waiting))
    (fun r => r <| sched -> status := to |> <| waiting_until := None |> <| updated_at := now |>) t.

(** ** The lease of a run *)

Inductive ClaimLease := Claimed | Interrupted | Held | Missing.
#[export] Instance ClaimLease_eq_dec : EqDecision ClaimLease.
Proof. solve_decision. Defined.

(** The occurrence the row's holder ran is still the due one. *)
(** @src src/src/core/trigger-store.ts 1201-1211 claimLease *)
Definition unsettled (r : Trigger) : bool :=
  negb (is_null (lease_holder (lease r))) &&
  match lease_since (lease r) with Some since => col_le (next_run_at (sched r)) since | None => false end.

(** @src src/src/core/trigger-store.ts 1183-1212 claimLease *)
Definition claimLease (t : Table) (i holder until now : string) : Table * ClaimLease :=
  match find_row t i with
  | None => (t, Missing)
  | Some r =>
      if col_gt (lease_until (lease r)) now then (t, Held)
      else ((update_rows (at_id i) (fun r => r <| lease := {| lease_holder := Some holder; lease_until := Some until;
              lease_since := Some now |} |>) t).1, if unsettled r then Interrupted else Claimed)
  end.

(** @src src/src/core/trigger-store.ts 1214-1219 leaseUntil *)
Definition leaseUntil (t : Table) (i : string) : option string := find_row t i ≫= fun r => lease_until (lease r).
(** @src src/src/core/trigger-store.ts 1221-1225 leaseOf *)
Definition leaseOf (t : Table) (i : string) : option (option string * option string) :=
  (fun r => (lease_holder (lease r), lease_until (lease r))) <$> find_row t i.

Definition held_by (i holder : string) (r : Trigger) : bool := at_id i r && bool_decide (lease_holder (lease r) = Some holder).
(** @src src/src/core/trigger-store.ts 1227-1231 renewLease *)
Definition renewLease (t : Table) (i holder until : string) : Table * bool :=
  update_rows (held_by i holder) (fun r => r <| lease -> lease_until := Some until |>) t.
(** @src src/src/core/trigger-store.ts 1233-1237 releaseLease *)
Definition releaseLease (t : Table) (i holder : string) : Table :=
  (update_rows (held_by i holder) (fun r => r <| lease := no_lease |>) t).1.

(** ** Reading *)

(** @src src/src/core/trigger-store.ts 1239-1253 getWaiting *)
Definition getWaiting (t : Table) : list Trigger :=
  order_by (fun r => Some (updated_at r)) (filter (fun r => status (sched r) = waiting) t).

(** @src src/src/core/trigger-store.ts 1255-1289 getExpiredWaiting *)
Definition getExpiredWaiting (t : Table) (now : string) : list Trigger :=
  order_by waiting_until (filter (fun r => status (sched r) = waiting /\ col_le (waiting_until r) now = true) t).

(** The exact row first, else one whose id starts with the text. *)
(** @src src/src/core/trigger-store.ts 1291-1312 getById *)
Definition getById (t : Table) (i : string) (scopes : list (string * string)) : option Trigger :=
  if bool_decide (i = ""%string) then None
  else match list_find (fun r => at_id i r && in_scopes scopes r = true) t with
       | Some (_, r) => Some r
       | None => snd <$> list_find (fun r => like_prefix i (id r) && in_scopes scopes r = true) t
       end.

(** @src src/src/core/trigger-store.ts 1314-1326 isAmbiguousId *)
Definition isAmbiguousId (t : Table) (i : string) : bool :=
  if bool_decide (i = ""%string) then false
  else if existsb (at_id i) t then false
  else (1 <? length (take 2 (filter (fun r => like_prefix i (id r) = true) t)))%nat.

Definition filter_text {A} `{EqDecision A} (f : option A) (v : A) : bool := match f with Some x => bool_decide (v = x) | None => true end.

(** What a filter on the kind names: a source or an effect. *)
Inductive TaskType := OfSource (s : TriggerSource) | OfEffect (e : TriggerEffect) | OfNeither.
Definition has_type (ty : TaskType) (r : Trigger) : bool :=
  match ty with
  | OfSource s => bool_decide (source (what r) = s)
  | OfEffect e => bool_decide (effect (what r) = e)
  | OfNeither => false
  end.

(** [next_run_at ASC NULLS LAST, created_at DESC]. *)
Definition list_before (a b : Trigger) : Prop :=
  match next_run_at (sched a), next_run_at (sched b) with
  | Some x, Some y => text_lt x y = true \/ x = y /\ text_le (created_at b) (created_at a) = true
  | Some _, None => True
  | None, Some _ => False
  | None, None => text_le (created_at b) (created_at a) = true
  end.
#[export] Instance list_before_dec a b : Decision (list_before a b).
Proof. unfold list_before. destruct (next_run_at (sched a)), (next_run_at (sched b)); apply _. Defined.

(** @src src/src/core/trigger-store.ts 1328-1362 listFiltered *)
Definition listFiltered (t : Table) (scopeType scopeId : option string) (st : option TriggerStatus) (ty : option TaskType)
    (paused : bool) (limit : nat) : list Trigger :=
  take limit (merge_sort list_before (filter (fun r =>
    match or_null scopeType with Some x => bool_decide (scope_type (what r) = Some x) | None => true end &&
    match or_null scopeId with Some x => bool_decide (scope_id (what r) = Some x) | None => true end &&
    filter_text st (status (sched r)) && match ty with Some ty => has_type ty r | None => true end &&
    (negb paused || negb (is_null (paused_at (pause r))) && planPauseOn) = true) t)).

(** @src src/src/core/trigger-store.ts 1364-1373 countPausedOpen *)
Definition countPausedOpen (t : Table) : nat :=
  length (filter (fun r => negb (is_null (paused_at (pause r))) && negb (bool_decide (status (sched r) = completed)) &&
    planPauseOn = true) t).

(** @src src/src/core/trigger-store.ts 1375-1389 getByWorkflowId *)
Definition getByWorkflowId (t : Table) (w : string) : list Trigger :=
  reverse (order_by (fun r => Some (created_at r)) (filter (fun r =>
    bool_decide (target_workflow_id (what r) = Some w) && enabled (sched r) &&
    negb (bool_decide (status (sched r) = completed)) && negb (bool_decide (status (sched r) = stopped)) = true) t)).

(** What a reader is handed of a row. *)
(** @src src/src/core/trigger-store.ts 302-310 triggerDbRowToRecord *)
Definition pipeline_params (r : Trigger) : option string :=
  if bool_decide (params_json (what r) = "{}"%string) then None else Some (params_json (what r)).
(** @src src/src/core/trigger-store.ts 338-343 escalationOf *)
Definition escalationOf (r : Trigger) : option (string * EscalationOutcome) :=
  match last_escalation_at r, last_escalation_outcome r with Some a, Some o => Some (a, o) | _, _ => None end.
End Store.
