(* ===== verification/PlanPause.v ===== *)
(** Plans whose helper's access ended, [core/plan-pause.ts]: who a plan depends on, whose end is proven, the pause
    and the sweeps that write it, the notices and the warnings before an end.

    A statement that fails is an argument ([unwritable]); reading a workflow's row returns or throws. Message
    texts, the lines on stderr and the language of a notice are left out: a notice is the end it is about, how many
    plans and how many of them were warned. *)
From coqutil Require Import Datatypes.RecordSetters.
From S2P Require Import Prelude Num JsString Principal IsoTime Triggers.
Import TriangleBracketNotations.
Open Scope Z_scope.

(** @src src/src/core/plan-pause.ts 73-77 EndRow *)
Record EndRow := { ends_at : Z; revoked_at : option Z }.
(** @src src/src/core/plan-pause.ts 139-153 WorkflowAuthorRow *)
Record WorkflowRow := { wf_id : string; wf_name : string; definition_json : string; wf_authorship : PlanAuthorship;
  wf_covered_at : option Z }.

(** [planAuthorshipOf] of a trigger. *)
(** @src src/src/core/request-principal.ts 172-180 planAuthorshipOf *)
Definition authorship (r : Trigger) : PlanAuthorship :=
  let a := authors r in
  {| created := {| m_tag := created_by a; m_id := created_mandate_id a; m_at := Some (created_at r) |};
     mandate_edited := {| m_tag := mandate_editor a; m_id := mandate_editor_id a; m_at := mandate_edited_at a |};
     covered_created := cover_created a; covered_edited := cover_edited a |}.

(** [planAuthorshipOf] of a trigger's columns, with [null] for an absent one. *)
Definition same_grant (a b : option string) : bool := bool_decide (a = b).

Section Pause.
Variable planPauseOn : bool.
(** [Date.parse]. *)
Variable Date_parse : string -> num.

(** ** Whose end is proven *)

(** @src src/src/core/plan-pause.ts 85-94 provenEnd *)
Definition provenEnd (member : RequestPrincipal) (endOf : string -> option EndRow) (nowS : Z) : option EndRow :=
  match member with
  | Mandate _ (Some i) _ =>
      match endOf i with
      | Some row => if negb (is_null (revoked_at row)) || (ends_at row <=? nowS) then Some row else None
      | None => None
      end
  | _ => None
  end.

(** An ended member: address and grant, with the row that proves it. *)
(** @src src/src/core/plan-pause.ts 96-108 planEndedMembers *)
Fixpoint ended_from (out : list (string * string * EndRow)) (members : list RequestPrincipal)
    (endOf : string -> option EndRow) (nowS : Z) : list (string * string * EndRow) :=
  match members with
  | [] => out
  | Mandate e (Some i) x :: ms =>
      match provenEnd (Mandate e (Some i) x) endOf nowS with
      | Some row => ended_from (if existsb (fun o => bool_decide (o.1.2 = i)) out then out else out ++ [(e, i, row)]) ms endOf nowS
      | None => ended_from out ms endOf nowS
      end
  | _ :: ms => ended_from out ms endOf nowS
  end.
(** @src src/src/core/plan-pause.ts 96-108 planEndedMembers *)
Definition planEndedMembers (members : list RequestPrincipal) (endOf : string -> option EndRow) (nowS : Z) :=
  ended_from [] members endOf nowS.

(** The consent half of the gate on due triggers. *)
(** @src src/src/core/plan-pause.ts 162-171 consentLetsThrough *)
Definition consentLetsThrough (r : Trigger) : bool :=
  if bool_decide (effect (what r) = run_agent) && unstamped r then false
  else negb (unstamped r &&
    startsWith (default "" (coalesce (edited_by (authors r)) (created_by (authors r))))%string MANDATE_TAG_PREFIX).

(** @src src/src/core/plan-pause.ts 173-180 rolesOn *)
Definition rolesOn (a : PlanAuthorship) (addr : string) (grant : option string) (creator editor : PauseRole) : list PauseRole :=
  let tag := Some (MANDATE_TAG_PREFIX ++ addr)%string in
  (if bool_decide (m_tag (created a) = tag) && same_grant (m_id (created a)) grant then [creator] else []) ++
  (if bool_decide (m_tag (mandate_edited a) = tag) && same_grant (m_id (mandate_edited a)) grant then [editor] else []).

(** @src src/src/core/plan-pause.ts 182-186 PlanMembership *)
Record PlanMembership := { members : list RequestPrincipal; roles_of : string -> option string -> list PauseRole }.

(** The workflow a run of the trigger would read. *)
Definition named_workflow (r : Trigger) : option string :=
  if bool_decide (effect (what r) = run_workflow) then or_null (target_workflow_id (what r)) else None.

(** @src src/src/core/plan-pause.ts 188-203 rowPlanMembers *)
Definition membership_with (r : Trigger) (wf : option WorkflowRow) : PlanMembership :=
  {| members := (planMembers (planMandate Date_parse (authorship r)) (wf ≫= fun w => planMandate Date_parse (wf_authorship w))).2;
     roles_of := fun addr grant => rolesOn (authorship r) addr grant r_created r_edited ++
       match wf with Some w => rolesOn (wf_authorship w) addr grant r_workflow_created r_workflow_edited | None => [] end |}.
(** @src src/src/core/plan-pause.ts 194-203 rowPlanMembers *)
Definition rowPlanMembers {E} (r : Trigger) (workflowOf : string -> result E (option WorkflowRow)) : result E PlanMembership :=
  match named_workflow r with
  | None => Ok (membership_with r None)
  | Some w => wf ← workflowOf w; Ok (membership_with r wf)
  end.

(** ** The pause *)

(** The entries of the column, and whether it does not read. *)
(** @src src/src/core/plan-pause.ts 205-225 pausedForOf *)
Definition pausedForOf (raw : option (option (list PausedFor))) : list PausedFor * bool :=
  match raw with None => ([], false) | Some None => ([], true) | Some (Some l) => (l, false) end.

(** @src src/src/core/plan-pause.ts 227-246 pausedForEntries *)
Definition pausedForEntries (m : PlanMembership) (ended : list (string * string * EndRow)) (closed : bool)
    (warned : string -> Z -> bool) : list PausedFor :=
  (fun '(e, i, row) => {| mandateId := i; email := e; reason := if is_null (revoked_at row) then expired else revoked;
     endsAt := ends_at row; roles := roles_of m e (Some i); closedPrompt := closed; warned := warned i (ends_at row) |}) <$> ended.

(** A row of [plan_advance_warnings]. *)
(** @src src/src/core/plan-pause.ts 555-560 WarningKey *)
Record Warning := { warns : string; warns_of : string; warned_end : Z; claimed_at : Z; delivered_at : option Z }.

(** @src src/src/core/plan-pause.ts 248-257 deliveredWarning *)
Definition deliveredWarning (ws : list Warning) (triggerId mandate : string) (end_ : Z) : bool :=
  existsb (fun w => bool_decide (warns w = triggerId) && bool_decide (warns_of w = mandate) && (warned_end w =? end_) &&
    match delivered_at w with Some d => d <? warned_end w | None => false end) ws.

(** [for (const e of entries) if (!merged.some(..)) merged.push(e)]. *)
Definition merge_entries (before entries : list PausedFor) : list PausedFor :=
  foldl (fun m e => if existsb (fun x => bool_decide (mandateId x = mandateId e)) m then m else m ++ [e]) before entries.

(** [dbS] is SQLite's [unixepoch('now')]. *)
(** @src src/src/core/plan-pause.ts 259-286 writePause *)
Definition pause_row (nowS dbS : Z) (r : Trigger) : Trigger :=
  r <| pause := {| paused_at := Some nowS; paused_db_at := Some dbS; paused_due_at := next_run_at (sched r);
         paused_for := paused_for (pause r); pause_noticed_at := None |} |>.
(** @src src/src/core/plan-pause.ts 270-286 writePause *)
Definition writePause (t : Table) (i : string) (entries : list PausedFor) (nowS dbS : Z) : Table * bool :=
  let '(t, fresh) := update_rows (fun r => at_id i r && is_null (paused_at (pause r))) (pause_row nowS dbS) t in
  match find_row t i with
  | None => (t, false)
  | Some stored =>
      let '(before, broken) := pausedForOf (paused_for (pause stored)) in
      let merged := merge_entries before entries in
      ((if broken || negb (Nat.eqb (length merged) (length before))
        then (update_rows (at_id i) (fun r => r <| pause -> paused_for := Some (Some merged) |>) t).1 else t), fresh)
  end.

(** @src src/src/core/plan-pause.ts 295-298 isPaused *)
Definition isPaused (r : Trigger) : bool := planPauseOn && negb (is_null (paused_at (pause r))).
(** @src src/src/core/plan-pause.ts 300-304 pausedAtNow *)
Definition pausedAtNow (t : Table) (i : string) : option Z := find_row t i ≫= fun r => paused_at (pause r).

(** ** The sweep *)

(** What a sweep is given. [unwritable] and [workflowOf] are where the database may fail; [closeQuestion] is
    [None] for a caller that closes no questions, as the login, and false for a plan where closing threw. *)
(** @src src/src/core/plan-pause.ts 312-331 PauseSweepDeps *)
Record SweepDeps := { endOf : string -> option EndRow; closedPromptOf : string -> bool; sweep_nowS : Z; sweep_dbS : Z;
  onlyMandate : option string; onlyMandateEmail : option string; workflows_named : list string;
  workflowOf : string -> result string (option WorkflowRow); unwritable : string -> bool; warnings : list Warning;
  closeQuestion : option (string -> bool) }.

(** [SELECT id FROM workflows WHERE ..]: the workflows a grant is recorded on. *)
(** @src src/src/core/plan-pause.ts 355-360 pauseEndedPlans *)
Definition is_candidate (d : SweepDeps) (r : Trigger) : bool :=
  negb (bool_decide (status (sched r) = completed)) &&
  (negb (is_null (created_mandate_id (authors r))) || negb (is_null (mandate_editor_id (authors r))) ||
   match target_workflow_id (what r) with Some w => bool_decide (w ∈ workflows_named d) | None => false end).

(** The members a candidate is judged by, [None] to skip it; a login cannot skip. *)
(** @src src/src/core/plan-pause.ts 363-385 pauseEndedPlans *)
Definition sweep_members (d : SweepDeps) (r : Trigger) : result string (option PlanMembership) :=
  match rowPlanMembers r (workflowOf d) with
  | Ok m => Ok (Some m)
  | Err _ =>
      match onlyMandate d with
      | None => Ok None
      | Some only =>
          match onlyMandateEmail d with
          | None => Err (id r)
          | Some addr =>
              let own := membership_with r None in
              Ok (Some (if existsb (fun m => bool_decide (mandateIdOf m = Some only)) (members own) then own
                else {| members := members own ++ [Mandate addr (Some only) None]; roles_of := roles_of own |}))
          end
      end
  end.

(** The loop's state: the table, what was paused, what was skipped. *)
(** @src src/src/core/plan-pause.ts 306-310 PauseSweepResult *)
Record Swept := { swept_table : Table; swept_paused : list string; swept_skipped : list string }.

(** One candidate; the row is the one the query returned. *)
(** @src src/src/core/plan-pause.ts 361-399 pauseEndedPlans *)
Definition sweep_row (d : SweepDeps) (s : Swept) (r : Trigger) : Swept * result string unit :=
  if negb (consentLetsThrough r) then (s, Ok tt)
  else match sweep_members d r with
  | Err e => (s, Err e)
  | Ok None => (s <| swept_skipped := swept_skipped s ++ [id r] |>, Ok tt)
  | Ok (Some m) =>
      let ms := match onlyMandate d with
        | None => members m
        | Some only => filter (fun p => mandateIdOf p = Some only) (members m) end in
      match planEndedMembers ms (endOf d) (sweep_nowS d) with
      | [] => (s, Ok tt)
      | ended =>
          if unwritable d (id r) then
            match onlyMandate d with
            | Some _ => (s, Err (id r))
            | None => (s <| swept_skipped := swept_skipped s ++ [id r] |>, Ok tt)
            end
          else
            let entries := pausedForEntries m ended (closedPromptOf d (id r)) (deliveredWarning (warnings d) (id r)) in
            (s <| swept_table := (writePause (swept_table s) (id r) entries (sweep_nowS d) (sweep_dbS d)).1 |>
               <| swept_paused := swept_paused s ++ [id r] |>, Ok tt)
      end
  end.

Fixpoint sweep_rows (d : SweepDeps) (s : Swept) (rows : list Trigger) : Swept * result string unit :=
  match rows with
  | [] => (s, Ok tt)
  | r :: rows => match sweep_row d s r with (s, Ok _) => sweep_rows d s rows | (s, Err e) => (s, Err e) end
  end.

(** The plans whose open question is closed after the pauses are written: every paused one, this sweep's or
    an earlier one's, where the caller closes questions and closing did not throw. *)
(** @src src/src/core/plan-pause.ts 400-408 pauseEndedPlans *)
Definition close_questions (d : SweepDeps) (t : Table) : list string :=
  match closeQuestion d with
  | None => []
  | Some close => filter (fun i => close i = true) (ids (filter (fun r => negb (is_null (paused_at (pause r))) = true) t))
  end.

(** Also the plans whose open question is then closed. *)
(** @src src/src/core/plan-pause.ts 333-410 pauseEndedPlans *)
Definition pauseEndedPlans (t : Table) (d : SweepDeps) : Table * result string (list string * list string * list string) :=
  if negb planPauseOn then (t, Ok ([], [], []))
  else
    let '(s, e) := sweep_rows d {| swept_table := t; swept_paused := []; swept_skipped := [] |}
      (filter (fun r => is_candidate d r = true) t) in
    match e with
    | Err e => (swept_table s, Err e)
    | Ok _ => (swept_table s, Ok (swept_paused s, swept_skipped s, close_questions d (swept_table s)))
    end.

(** At a plan's own gate: [None] for a plan no proven end holds. *)
(** @src src/src/core/plan-pause.ts 412-426 pausePlanNow *)
Definition pausePlanNow (t : Table) (d : SweepDeps) (i : string) (closed : bool) : Table * result string (option bool) :=
  match find_row t i with
  | None => (t, Ok None)
  | Some r =>
      if bool_decide (status (sched r) = completed) || negb (consentLetsThrough r) then (t, Ok None)
      else match rowPlanMembers r (workflowOf d) with
      | Err e => (t, Err e)
      | Ok m =>
          match planEndedMembers (members m) (endOf d) (sweep_nowS d) with
          | [] => (t, Ok None)
          | ended =>
              ((writePause t i (pausedForEntries m ended closed (deliveredWarning (warnings d) i)) (sweep_nowS d) (sweep_dbS d)).1,
               Ok (Some true))
          end
      end
  end.

(** ** The owner's notices *)

(** A notice: the end, the plans it paused, and how many of them were not warned of. *)
(** @src src/src/core/plan-pause.ts 452-455 claimPauseNotices *)
Record PauseNotice := { entry : PausedFor; plans : Z; unwarned : Z }.
Definition same_end (a b : PausedFor) : bool :=
  bool_decide (mandateId a = mandateId b) && (endsAt a =? endsAt b) &&
  match reason a, reason b with expired, expired | revoked, revoked => true | _, _ => false end.
(** [byEnd]: one group per grant, end and reason. *)
(** @src src/src/core/plan-pause.ts 458-464 claimPauseNotices *)
Fixpoint note_entry (e : PausedFor) (groups : list PauseNotice) : list PauseNotice :=
  let u := if warned e then 0 else 1 in
  match groups with
  | [] => [{| entry := e; plans := 1; unwarned := u |}]
  | g :: gs => if same_end (entry g) e then {| entry := entry g; plans := plans g + 1; unwarned := unwarned g + u |} :: gs
               else g :: note_entry e gs
  end.

(** @src src/src/core/plan-pause.ts 451-451 claimPauseNotices *)
Definition claim_notice (nowS : Z) (t : Table) (i : string) : Table * bool :=
  update_rows (fun r => at_id i r && is_null (pause_noticed_at (pause r))) (fun r => r <| pause -> pause_noticed_at := Some nowS |>) t.

(** @src src/src/core/plan-pause.ts 435-467 claimPauseNotices *)
Definition claimPauseNotices (t : Table) (nowS : Z) : Table * list PauseNotice :=
  if negb planPauseOn then (t, [])
  else foldl (fun '(t, groups) p =>
      let '(t, won) := claim_notice nowS t (id p) in
      if won then (t, foldl (fun g e => note_entry e g) groups (pausedForOf (paused_for (pause p))).1) else (t, groups))
    (t, []) (filter (fun r => negb (is_null (paused_at (pause r))) && is_null (pause_noticed_at (pause r)) &&
      negb (bool_decide (status (sched r) = completed)) = true) t).

(** ** Warnings before an end *)

(** @src src/src/core/plan-pause.ts 552-553 ADVANCE_WARNING_S *)
Definition ADVANCE_WARNING_S : Z := 24 * 60 * 60.

(** [endsAt] in milliseconds is compared with a due time that may not read as one. *)
(** @src src/src/core/plan-pause.ts 580-593 wouldRunAt *)
Definition wouldRunAt (r : Trigger) (end_ : Z) : bool :=
  if negb (enabled (sched r)) || negb (is_null (paused_at (pause r))) || bool_decide (status (sched r) = completed) ||
     bool_decide (status (sched r) = stopped) then false
  else if negb (bool_decide (source (what r) = manual)) then true
  else if bool_decide (status (sched r) = failed) then false
  else match next_run_at (sched r) with
       | None => true
       | Some at_ => match Date_parse at_ with NaN => true | next => (next >=? num_of_Z (1000 * end_))%num end
       end.

(** A row of [mandate_ends]. *)
Record EndsRow := { of_grant : string; end_row : EndRow }.

Definition has_key (triggerId mandate : string) (end_ : Z) (w : Warning) : bool :=
  bool_decide (warns w = triggerId) && bool_decide (warns_of w = mandate) && (warned_end w =? end_).

(** @src src/src/core/plan-pause.ts 610-613 claimAdvanceWarnings *)
Definition ending (ends : list EndsRow) (nowS : Z) : list EndsRow :=
  filter (fun e => is_null (revoked_at (end_row e)) && (nowS <? ends_at (end_row e)) &&
    (ends_at (end_row e) - ADVANCE_WARNING_S <=? nowS) = true) ends.

(** [endOf.get(id)]: the last of equal keys wins. *)
Definition end_in (l : list EndsRow) (i : string) : option Z :=
  ends_at ∘ end_row <$> last (filter (fun e => of_grant e = i) l).

(** A plan to name in a warning: the plan, the grant, its end, the address. *)
Record Wanted := { want_plan : string; want_grant : string; want_end : Z; want_email : string }.
Definition same_want (a b : Wanted) : bool :=
  bool_decide (want_plan a = want_plan b) && bool_decide (want_grant a = want_grant b) && (want_end a =? want_end b).

(** @src src/src/core/plan-pause.ts 639-647 claimAdvanceWarnings *)
Definition want_member (soon : list EndsRow) (claimed : list Warning) (r : Trigger) (wanted : list Wanted) (m : RequestPrincipal)
    : list Wanted :=
  match m with
  | Mandate addr (Some i) _ =>
      match end_in soon i with
      | Some e =>
          let w := {| want_plan := id r; want_grant := i; want_end := e; want_email := addr |} in
          if negb (wouldRunAt r e) || existsb (has_key (id r) i e) claimed || existsb (same_want w) wanted then wanted else wanted ++ [w]
      | None => wanted
      end
  | _ => wanted
  end.

(** @src src/src/core/plan-pause.ts 619-648 claimAdvanceWarnings *)
Definition want_row (d : SweepDeps) (soon : list EndsRow) (claimed : list Warning) (wanted : list Wanted) (r : Trigger) : list Wanted :=
  if negb (consentLetsThrough r) then wanted
  else match rowPlanMembers r (workflowOf d) with
       | Ok m => foldl (want_member soon claimed r) wanted (members m)
       | Err _ => wanted
       end.

Definition warnable (d : SweepDeps) (r : Trigger) : bool :=
  is_null (paused_at (pause r)) && negb (bool_decide (status (sched r) = completed)) &&
  negb (bool_decide (status (sched r) = stopped)) && enabled (sched r) && is_candidate d r.

(** One warning: the grant and the end it is about, the plans it names, whether an earlier one was delivered. *)
(** @src src/src/core/plan-pause.ts 562-566 AdvanceWarning *)
Record AdvanceWarning := { warn_email : string; warn_grant : string; warn_end : Z; keys : list string; more : bool }.

(** @src src/src/core/plan-pause.ts 667-669 claimAdvanceWarnings *)
Fixpoint group_key (w : Wanted) (m : bool) (groups : list AdvanceWarning) : list AdvanceWarning :=
  match groups with
  | [] => [{| warn_email := want_email w; warn_grant := want_grant w; warn_end := want_end w; keys := [want_plan w]; more := m |}]
  | g :: gs => if bool_decide (warn_grant g = want_grant w) && (warn_end g =? want_end w)
               then g <| keys := keys g ++ [want_plan w] |> :: gs else g :: group_key w m gs
  end.

(** One key, in the transaction that reads plan and end again. *)
(** @src src/src/core/plan-pause.ts 657-670 claimAdvanceWarnings *)
Definition claim_key (t : Table) (ends : list EndsRow) (nowS : Z) (s : list Warning * list AdvanceWarning) (w : Wanted)
    : list Warning * list AdvanceWarning :=
  let '(ws, groups) := s in
  match find_row t (want_plan w), snd <$> list_find (fun e => of_grant e = want_grant w) ends with
  | Some plan, Some e =>
      if negb (is_null (revoked_at (end_row e))) || negb (ends_at (end_row e) =? want_end w) || negb (wouldRunAt plan (want_end w))
         || existsb (has_key (want_plan w) (want_grant w) (want_end w)) ws then (ws, groups)
      else
        let m := existsb (fun x => bool_decide (warns_of x = want_grant w) && (warned_end x =? want_end w) && negb (is_null (delivered_at x))) ws in
        (ws ++ [{| warns := want_plan w; warns_of := want_grant w; warned_end := want_end w; claimed_at := nowS; delivered_at := None |}],
         group_key w m groups)
  | _, _ => (ws, groups)
  end.

(** The tables as the first reads find them, and as the transaction finds them. *)
(** @src src/src/core/plan-pause.ts 595-673 claimAdvanceWarnings *)
Definition claimAdvanceWarnings (d : SweepDeps) (t : Table) (ends : list EndsRow) (t' : Table) (ends' : list EndsRow)
    (ws' : list Warning) : list Warning * list AdvanceWarning :=
  if negb planPauseOn then (ws', [])
  else
    let nowS := sweep_nowS d in
    match ending ends nowS with
    | [] => (ws', [])
    | soon =>
        let claimed := filter (fun w => nowS <? warned_end w = true) (warnings d) in
        let wanted := foldl (want_row d soon claimed) [] (filter (fun r => warnable d r = true) t) in
        foldl (claim_key t' ends' nowS) (ws', []) wanted
    end.

(** @src src/src/core/plan-pause.ts 675-681 markWarningsDelivered *)
Definition markWarningsDelivered (ws : list Warning) (keys : list (string * string * Z)) (nowS : Z) : list Warning :=
  foldl (fun ws '(i, g, e) => (fun w => if has_key i g e w && is_null (delivered_at w) then w <| delivered_at := Some nowS |> else w) <$> ws)
    ws keys.
End Pause.
