(* ===== verification/PlanTakeover.v ===== *)
(** The owner's takeover of a paused plan, [core/plan-takeover.ts], and the list of connections a stamp carries,
    [core/plan-stamp.ts]: what a takeover would cover and release, what the owner is shown of it, and the one
    transaction that does it if that is still what it would do.

    What a call reads is a record [Reads]: the tables, the clock, whose access lives; the second read of a takeover,
    inside its transaction, may find other tables than the first. The digests are functions of what they digest;
    closing questions and the audit log are answers. [next_run_at] after a release is computed by [Cron]. *)
From coqutil Require Import Datatypes.RecordSetters.
From S2P Require Import Prelude Num JsString JsValue Cron Graph Principal IsoTime Triggers PlanPause.
Import TriangleBracketNotations.
Open Scope Z_scope.

(** @src src/src/core/plan-pause.ts 49-50 PLAN_ENDED_RESULT *)
Definition PLAN_ENDED_RESULT : string :=
  "This schedule, or the workflow it runs, was set up or changed by someone whose access has ended, so it does not run.".
(** @src src/src/core/plan-pause.ts 51-52 ACCESS_ENDED_RESULT *)
Definition ACCESS_ENDED_RESULT : string :=
  "Stopped part-way because the access of someone who set up or changed this plan ended.".
(** @src src/src/core/plan-pause.ts 53-54 ACCESS_ENDED_PAUSED_RESULT *)
Definition ACCESS_ENDED_PAUSED_RESULT : string :=
  (ACCESS_ENDED_RESULT ++ " The plan is paused until the owner takes it over.")%string.

(** @src src/src/core/plan-run-context.ts 24-28 StampEntry *)
Record StampEntry := { profile : string; grant : string; binding : string }.

(** @src src/src/core/plan-takeover.ts 47-48 TakeoverRefusal *)
Inductive Refusal := not_available | bulk | nothing_to_take_over | unreadable | running | changed | prompts_failed | unrecorded.
(** @src src/src/core/plan-takeover.ts 50-51 TakeoverSchedule *)
Inductive TakeoverSchedule := kept | next_cron | run_now_only_missed | run_now_only_partial.
#[export] Instance TakeoverSchedule_eq_dec : EqDecision TakeoverSchedule.
Proof. solve_decision. Defined.

(** @src src/src/core/plan-takeover.ts 71-77 TakeoverMember *)
Record TakeoverMember := { m_name : string; m_roles : list PauseRole; m_ended : bool; m_reason : option EndReason }.
(** @src src/src/core/plan-takeover.ts 79-88 TakeoverMemberChange *)
Record TakeoverMemberChange := { c_id : string; c_title : string; c_before : option string; c_after : option string;
  runsNoMore : bool }.

(** What a call reads. *)
(** @src src/src/core/plan-takeover.ts 60-69 TakeoverDeps *)
Record Reads := { rd_triggers : Table; rd_workflows : list WorkflowRow; rd_readable : string -> bool;
  rd_isLive : string -> bool; rd_now : Z }.

Section Takeover.
Variable planPauseOn : bool.
(** [Date.parse], [JSON.parse], and the text of a number in a serialised object. *)
Variable Date_parse : string -> num.
Variable JSON_parse : string -> option jval.
Variable num_text : Q -> string.

(** @src src/src/core/plan-takeover.ts 42-42 isWorkflowRole *)
Definition isWorkflowRole (r : PauseRole) : bool :=
  match r with r_workflow_created | r_workflow_edited => true | _ => false end.

(** @src src/src/core/plan-takeover.ts 148-154 workflowRowOf *)
Definition workflowRowOf (d : Reads) (w : string) : result unit (option WorkflowRow) :=
  if rd_readable d w then Ok (snd <$> list_find (fun x => wf_id x = w) (rd_workflows d)) else Err tt.

(** @src src/src/core/plan-takeover.ts 156-166 workflowConfirmedAt *)
Definition workflowConfirmedAt (wf : option WorkflowRow) : option string :=
  match wf ≫= fun w => JSON_parse (definition_json w) with
  | Some v => match (if is_object v then js_prop v "confirmedAt" else JUndef) with JStr s => Some s | _ => None end
  | None => None
  end.

(** [`${email}\u0000${mandateId ?? ''}`]. *)
Definition grantKey (addr : string) (i : option string) : string :=
  (addr ++ String Ascii.zero (default "" i))%string.
(** @src src/src/core/plan-takeover.ts 168-170 memberKey *)
Definition memberKey (p : RequestPrincipal) : string :=
  match p with Mandate addr i _ => grantKey addr i | Owner => "owner"%string | CpAdmin => "cp-admin"%string end.

(** [Math.floor(at / 1000) < s]. *)
Definition before_second (at' : num) (s : Z) : bool :=
  match at' with NInf => true | Fin q => Qround.Qfloor (q / inject_Z 1000) <? s | _ => false end.

(** @src src/src/core/plan-takeover.ts 172-192 holds *)
Definition holds (m : PlanMandate) (pausedFor : list string) (pausedDbAt : option Z) (isLive : string -> bool) : bool :=
  if principalHasEnded (principal m) isLive then true
  else match mandateIdOf (principal m) with
       | Some i => if bool_decide (i ∈ pausedFor)
                   then match pausedDbAt with Some s => before_second (at_ m) s | None => false end else false
       | None => false
       end.

(** @src src/src/core/plan-takeover.ts 200-202 pausedForIds *)
Definition pausedForIds (r : Trigger) : list string := mandateId <$> (pausedForOf (paused_for (pause r))).1.

(** @src src/src/core/plan-takeover.ts 204-212 scheduleOf *)
Definition scheduleOf (r : Trigger) (now : Z) : TakeoverSchedule :=
  if negb (falsy (schedule_cron (condition (what r)))) then next_cron
  else if bool_decide (source (what r) = watch) || bool_decide (source (what r) = webhook) ||
          bool_decide (source (what r) = inbox_event) then kept
  else if match next_run_at (sched r) with Some x => (Date_parse x >? num_of_Z now)%num | None => false end then kept
  else if bool_decide (last_run_status (sched r) = Some "stopped"%string) &&
          (bool_decide (last_run_result (sched r) = Some ACCESS_ENDED_PAUSED_RESULT) ||
           bool_decide (last_run_result (sched r) = Some ACCESS_ENDED_RESULT)) then run_now_only_partial
  else run_now_only_missed.

(** @src src/src/core/plan-takeover.ts 214-216 stopResults *)
Definition stopResults (x : option string) : bool :=
  bool_decide (x = Some ACCESS_ENDED_PAUSED_RESULT) || bool_decide (x = Some ACCESS_ENDED_RESULT) ||
  bool_decide (x = Some PLAN_ENDED_RESULT).

(** ** The connections of a stamp *)

(** @src src/src/core/plan-stamp.ts 109-115 stampFromRow *)
Fixpoint stamp_entries (l : list jval) : option (list StampEntry) :=
  match l with
  | [] => Some []
  | e :: l =>
      if negb (is_object e) then None
      else match js_prop e "profile", js_prop e "grant", js_prop e "binding" with
           | JStr p, JStr g, JStr b => cons {| profile := p; grant := g; binding := b |} <$> stamp_entries l
           | _, _, _ => None
           end
  end.
Definition json_is (v : jval) (x : option string) : bool :=
  match v, x with JStr s, Some y => bool_decide (s = y) | JNull, None => true | _, _ => false end.
(** @src src/src/core/plan-stamp.ts 93-117 stampFromRow *)
Definition stampFromRow (raw confirmed wfConfirmed : option string) : option (list StampEntry) :=
  match raw, confirmed with
  | Some raw, Some _ =>
      match JSON_parse raw with
      | Some v =>
          if negb (is_object v) then None
          else if negb (json_is (js_prop v "at") confirmed) || negb (json_is (js_prop v "wf") wfConfirmed) then None
          else match js_prop v "entries" with
               | JArr l => match stamp_entries l with Some (e :: es) => Some (e :: es) | _ => None end
               | _ => None
               end
      | None => None
      end
  | _, _ => None
  end.

(** @src src/src/core/plan-stamp.ts 73-86 watchWithoutBaseline *)
Definition watchWithoutBaseline (raw : option string) : option string :=
  match raw with
  | None => None
  | Some raw =>
      match JSON_parse raw with
      | Some (JObj fs) => stringify num_text (JObj (jm_del (jm_del fs "last_hash") "last_summary"))
      | _ => Some raw
      end
  end.

(** What [stampExpect] digests. *)
(** @src src/src/core/plan-stamp.ts 57-71 stampExpect *)
Record StampSubject := { s_id : string; s_effect : TriggerEffect; s_title : string; s_description : string;
  s_cron : option string; s_watch : option string; s_pipeline : option string; s_params : option string;
  s_tier : option ModelTier; s_created_mandate : option string; s_mandate_editor : option string; s_wf : option string;
  s_entries : list StampEntry }.
(** @src src/src/core/plan-stamp.ts 64-69 stampExpect *)
Definition stamp_subject (r : Trigger) (wf : option string) (entries : list StampEntry) : StampSubject :=
  {| s_id := id r; s_effect := effect (what r); s_title := title (what r); s_description := description (what r);
     s_cron := schedule_cron (condition (what r)); s_watch := watchWithoutBaseline (watch_config (condition (what r)));
     s_pipeline := target_workflow_id (what r); s_params := pipeline_params r; s_tier := model_tier r;
     s_created_mandate := created_mandate_id (authors r); s_mandate_editor := mandate_editor_id (authors r);
     s_wf := wf; s_entries := entries |}.

(** The digests: of a stamp's subject, of a text, of a takeover's subject. *)
Variable digest_stamp : StampSubject -> string.
Variable digest_text : string -> string.

(** ** What a takeover would do *)

(** What [expect] digests. *)
(** @src src/src/core/plan-takeover.ts 352-361 planOf *)
Record Subject := { e_stamp : string; e_status : TriggerStatus; e_next : option string; e_paused_at : option Z;
  e_paused_for : option (option (list PausedFor)); e_marks : mark * mark; e_workflow : option (string * string * string * (mark * mark));
  e_covers : bool; e_runsAs : string; e_changes : list TakeoverMemberChange;
  e_released : list (string * string * TriggerStatus * option string * option (option (list PausedFor)));
  e_schedule : TakeoverSchedule; e_dueAt : option string }.

Variable digest : Subject -> string.

(** @src src/src/core/plan-takeover.ts 127-143 TakeoverPlan *)
Record TakeoverPlan := { tp_trigger : Trigger; tp_wf : option WorkflowRow; coverWorkflow : bool; runsAs : RequestPrincipal;
  tp_members : list TakeoverMember; memberChanges : list TakeoverMemberChange; released : list Trigger;
  connections : list StampEntry; connectionBy : list (option string); schedule : TakeoverSchedule; dueAt : option string;
  coveredMandates : list string; subject : Subject }.
Inductive PlanOf := Plan (p : TakeoverPlan) | Refused (r : Refusal) | NotFound.

(** @src src/src/core/plan-takeover.ts 239-241 planOf *)
Definition is_running (d : Reads) (r : Trigger) : bool := col_gt (lease_until (lease r)) (toISOString (rd_now d)).

(** The marks a takeover covers, tag and grant: the trigger's, and the workflow's where it covers those. *)
(** @src src/src/core/plan-takeover.ts 268-273 planOf *)
Definition coveredMarks (r : Trigger) (wf : option WorkflowRow) (covers : bool) : list (option string * option string) :=
  let of_ (a : PlanAuthorship) := [(m_tag (created a), m_id (created a)); (m_tag (mandate_edited a), m_id (mandate_edited a))] in
  of_ (authorship r) ++ match wf with Some w => if covers then of_ (wf_authorship w) else [] | None => [] end.

(** *** The members the owner is shown *)

Definition add_roles (had more : list PauseRole) : list PauseRole := had ++ filter (fun r => r ∉ had) more.

(** The entries of the pause, with the roles on the workflow that came later. *)
(** @src src/src/core/plan-takeover.ts 256-267 planOf *)
Definition entry_member (d : Reads) (m : PlanMembership) (e : PausedFor) : TakeoverMember :=
  let over := principalHasEnded (Mandate (email e) (Some (mandateId e)) None) (rd_isLive d) in
  {| m_name := email e;
     m_roles := add_roles (roles e) (filter (fun r => isWorkflowRole r = true) (roles_of m (email e) (Some (mandateId e))));
     m_ended := over; m_reason := if over then Some (reason e) else None |}.

(** A further member, unless it is there; one without a grant joins a member of its address. *)
(** @src src/src/core/plan-takeover.ts 274-290 planOf *)
Definition named (d : Reads) (m : PlanMembership) (s : list string * list TakeoverMember) (p : string * option string)
    : list string * list TakeoverMember :=
  let '(seen, ms) := s in
  let '(addr, i) := p in
  let roles := roles_of m addr i in
  if bool_decide (grantKey addr i ∈ seen) then s
  else
    let same := match i with
      | Some _ => None
      | None => match list_find (fun x => m_name x = addr /\ m_ended x = false) ms with
                | Some (k, _) => Some k
                | None => fst <$> list_find (fun x => m_name x = addr) ms
                end
      end in
    match same with
    | Some k => (seen, alter (fun had => had <| m_roles := add_roles (m_roles had) roles |>) k ms)
    | None => (seen ++ [grantKey addr i],
               ms ++ [{| m_name := addr; m_roles := roles;
                         m_ended := principalHasEnded (Mandate addr i None) (rd_isLive d); m_reason := None |}])
    end.

Definition as_mandate (p : RequestPrincipal) : list (string * option string) :=
  match p with Mandate addr i _ => [(addr, i)] | _ => [] end.

(** @src src/src/core/plan-takeover.ts 247-298 planOf *)
Definition shown_members (d : Reads) (m : PlanMembership) (r : Trigger) (marks : list (option string * option string))
    (runs_as : RequestPrincipal) : list TakeoverMember :=
  let entries := (pausedForOf (paused_for (pause r))).1 in
  let candidates := mjoin ((fun k => if isMandateTag k.1 then as_mandate (mandateOfTag (default "" k.1)%string k.2) else []) <$> marks)
    ++ as_mandate runs_as in
  (foldl (named d m) ((fun e => grantKey (email e) (Some (mandateId e))) <$> entries, entry_member d m <$> entries)
    (filter (fun c => c.2 <> None) candidates ++ filter (fun c => c.2 = None) candidates)).2.

(** *** The other schedules of the workflow *)

(** [ORDER BY id]. *)
Definition other_plans (t : Table) (w i : string) : list Trigger :=
  order_by (fun r => Some (id r)) (filter (fun r =>
    bool_decide (target_workflow_id (what r) = Some w) && negb (at_id i r) &&
    negb (bool_decide (status (sched r) = completed)) = true) t).

(** The members with and without the workflow's mark. *)
(** @src src/src/core/plan-takeover.ts 312-318 planOf *)
Definition change_of (wfMark : option PlanMandate) (o : Trigger) : option TakeoverMemberChange :=
  let m := planMandate Date_parse (authorship o) in
  let before := planMembers m wfMark in
  let after := planMembers m None in
  let kb := js_set_of (memberKey <$> before.2) in
  let ka := js_set_of (memberKey <$> after.2) in
  if bool_decide (length kb = length ka) && forallb (fun k => bool_decide (k ∈ ka)) kb then None
  else Some {| c_id := id o; c_title := title (what o); c_before := principalTag <$> before.1; c_after := principalTag <$> after.1;
    runsNoMore := is_null (paused_at (pause o)) && is_null (next_run_at (sched o)) &&
      (bool_decide (status (sched o) = stopped) || bool_decide (status (sched o) = failed)) |}.

(** Whether the takeover releases the other plan too. *)
(** @src src/src/core/plan-takeover.ts 329-335 planOf *)
Definition released_too (d : Reads) (o : Trigger) : bool :=
  negb (is_null (paused_at (pause o))) &&
  negb match planMandate Date_parse (authorship o) with
       | Some m => holds m (pausedForIds o) (paused_db_at (pause o)) (rd_isLive d)
       | None => false
       end.

(** What changes for the others, and which of them are released; [None] while one of those runs. *)
(** @src src/src/core/plan-takeover.ts 304-337 planOf *)
Fixpoint others_of (d : Reads) (wfMark : option PlanMandate) (l : list Trigger)
    : option (list TakeoverMemberChange * list Trigger) :=
  match l with
  | [] => Some ([], [])
  | o :: l =>
      match change_of wfMark o with
      | None => others_of d wfMark l
      | Some c =>
          let rel := released_too d o in
          if rel && is_running d o then None
          else (fun '(cs, rs) => (c :: cs, if rel then o :: rs else rs)) <$> others_of d wfMark l
      end
  end.

Definition marks_of (a : PlanAuthorship) : mark * mark := (created a, mandate_edited a).

(** @src src/src/core/plan-takeover.ts 218-367 planOf *)
Definition planOf (d : Reads) (i : string) : PlanOf :=
  match getById (rd_triggers d) i [] with
  | None => NotFound
  | Some r =>
      if negb (bool_decide (id r = i)) then NotFound
      else if match effect (what r) with bulk_apply | bulk_undo | bulk_preview | bulk_judge => true | _ => false end then Refused bulk
      else if is_null (paused_at (pause r)) || bool_decide (status (sched r) = completed) then Refused nothing_to_take_over
      else match (match named_workflow r with Some w => workflowRowOf d w | None => Ok None end) with
      | Err _ => Refused unreadable
      | Ok wf =>
          if is_running d r then Refused running
          else
            let m := membership_with Date_parse r wf in
            let wfMark := wf ≫= fun w => planMandate Date_parse (wf_authorship w) in
            let covers := match wfMark with
              | Some k => holds k (pausedForIds r) (paused_db_at (pause r)) (rd_isLive d) | None => false end in
            let runs_as := match wfMark with Some k => if covers then Owner else principal k | None => Owner end in
            let marks := coveredMarks r wf covers in
            match (match wf with
                   | Some w => if covers then others_of d wfMark (other_plans (rd_triggers d) (wf_id w) i) else Some ([], [])
                   | None => Some ([], []) end) with
            | None => Refused running
            | Some (changes, rel) =>
                let conns := match getStampConnections (rd_triggers d) i with
                  | Some (at_, sc) => default [] (stampFromRow sc at_ (workflowConfirmedAt wf)) | None => [] end in
                let granted := omap (fun k => if isMandateTag k.1 && negb (falsy k.2)
                  then Some (default "" k.2, drop_prefix (default "" k.1))%string else None) marks in
                let emails := foldl (fun mp kv => jm_set mp kv.1 kv.2) []
                  (((fun e => (mandateId e, email e)) <$> (pausedForOf (paused_for (pause r))).1) ++ granted) in
                let sch := scheduleOf r (rd_now d) in
                let due := match sch with
                  | run_now_only_missed | run_now_only_partial => coalesce (paused_due_at (pause r)) (next_run_at (sched r))
                  | _ => None end in
                Plan {| tp_trigger := r; tp_wf := wf; coverWorkflow := covers; runsAs := runs_as;
                  tp_members := shown_members d m r marks runs_as; memberChanges := changes; released := rel;
                  connections := conns; connectionBy := (fun c => jm_get emails (grant c)) <$> conns;
                  schedule := sch; dueAt := due; coveredMandates := js_sort (js_set_of granted.*1);
                  subject := {| e_stamp := digest_stamp (stamp_subject r (workflowConfirmedAt wf) conns);
                    e_status := status (sched r); e_next := next_run_at (sched r); e_paused_at := paused_at (pause r);
                    e_paused_for := paused_for (pause r); e_marks := marks_of (authorship r);
                    e_workflow := (fun w => (wf_id w, wf_name w, digest_text (definition_json w), marks_of (wf_authorship w))) <$> wf;
                    e_covers := covers; e_runsAs := principalTag runs_as; e_changes := changes;
                    e_released := (fun o => (id o, title (what o), status (sched o), next_run_at (sched o), paused_for (pause o))) <$> rel;
                    e_schedule := sch; e_dueAt := due |} |}
            end
      end
  end.

(** ** The preview *)

(** @src src/src/core/plan-takeover.ts 369-386 workflowsCoveredByTakeover *)
Definition workflowsCoveredByTakeover (d : Reads) : list (string * Z) :=
  if negb planPauseOn then []
  else foldl (fun m r =>
      match planOf d (id r) with
      | Plan p => match tp_wf p with
          | Some w => if coverWorkflow p then jm_set m (wf_id w) (default 0 (jm_get m (wf_id w)) + 1) else m
          | None => m end
      | _ => m
      end) []
    (filter (fun r => negb (is_null (paused_at (pause r))) && bool_decide (effect (what r) = run_workflow) &&
      negb (is_null (target_workflow_id (what r))) = true) (rd_triggers d)).

(** The workflow's part: its id and name, whether it is taken over, and from whom in which role. *)
(** @src src/src/core/plan-takeover.ts 388-398 workflowOfPreview *)
Definition workflowOfPreview (wf : option WorkflowRow) (covers : bool)
    : option (string * string * bool * option (string * PauseRole)) :=
  w ← wf; k ← planMandate Date_parse (wf_authorship w);
  let a := wf_authorship w in
  let role := if isMandateTag (m_tag (mandate_edited a)) && negb (editorCovered a) then r_workflow_edited else r_workflow_created in
  Some (wf_id w, wf_name w, covers, match principal k with Mandate addr _ _ => Some (addr, role) | _ => None end).

(** @src src/src/core/plan-takeover.ts 110-113 TakeoverPreviewResult *)
Inductive PreviewResult := Preview (expect : string) (p : TakeoverPlan) | PreviewRefused (r : Refusal) | PreviewNotFound.
(** @src src/src/core/plan-takeover.ts 400-421 takeoverPreview *)
Definition takeoverPreview (d : Reads) (i : string) : PreviewResult :=
  if negb planPauseOn then PreviewRefused not_available
  else match planOf d i with
       | NotFound => PreviewNotFound
       | Refused r => PreviewRefused r
       | Plan p => Preview (digest (subject p)) p
       end.

(** ** The takeover *)

(** [UPDATE triggers SET next_run_at = ?] of what a release schedules; a time out of range throws. *)
(** @src src/src/core/plan-takeover.ts 445-455 release *)
Definition reschedule (r : Trigger) (now : Z) : result string (option (option string)) :=
  match scheduleOf r now with
  | next_cron =>
      n ← nextOccurrence (default "" (schedule_cron (condition (what r))))%string (Some now);
      match n with Some n => Ok (Some (Some (toISOString n))) | None => Err "Invalid time value"%string end
  | run_now_only_missed | run_now_only_partial => Ok (Some None)
  | kept => Ok None
  end.

Definition unpaused (p : Pause) : Pause := p <| paused_at := None |> <| paused_db_at := None |> <| paused_for := None |>.

(** What a release writes into a row; [r] is the row as the plan read it. *)
(** @src src/src/core/plan-takeover.ts 433-456 release *)
Definition released_row (r : Trigger) (next : option (option string)) (now stamped : string) (x : Trigger) : Trigger :=
  let x := if is_null (lease_until (lease x)) || col_le (lease_until (lease x)) now then x <| lease := no_lease |> else x in
  let x := x <| pause := unpaused (pause x) |> in
  let x := if bool_decide (status (sched r) = waiting) then
      if bool_decide (status (sched x) = waiting)
      then x <| sched -> status := open_ |> <| waiting_until := None |> <| updated_at := stamped |> else x
    else if bool_decide (status (sched r) = stopped) && stopResults (last_run_result (sched r)) &&
            bool_decide (status (sched x) = stopped)
    then x <| sched -> status := open_ |> <| updated_at := stamped |> else x in
  match next with Some n => x <| sched -> next_run_at := n |> | None => x end.
(** @src src/src/core/plan-takeover.ts 433-456 release *)
Definition release (t : Table) (r : Trigger) (now : Z) (stamped : string) : result string Table :=
  next ← reschedule r now;
  Ok (update_rows (at_id (id r)) (released_row r next (toISOString now) stamped) t).1.

(** @src src/src/core/plan-takeover.ts 458-459 COVER_FROM_MARKS *)
Definition cover_trigger (nowS : Z) (r : Trigger) : Trigger :=
  r <| authors := (authors r) <| cover_created := created (authorship r) |> <| cover_edited := mandate_edited (authorship r) |>
                              <| covered_at := Some nowS |> |>.
(** @src src/src/core/plan-takeover.ts 458-459 COVER_FROM_MARKS *)
Definition cover_workflow (nowS : Z) (w : WorkflowRow) : WorkflowRow :=
  let a := wf_authorship w in
  w <| wf_authorship := {| created := created a; mandate_edited := mandate_edited a; covered_created := created a;
         covered_edited := mandate_edited a |} |> <| wf_covered_at := Some nowS |>.

(** @src src/src/core/plan-takeover.ts 115-118 TakeoverResult *)
Inductive TakeoverResult := TakenOver (r : Trigger) (runs_as : string) | TakeoverRefused (r : Refusal) | TakeoverNotFound.

Definition release_all (t : Table) (rs : list Trigger) (now : Z) (stamped : string) : result string Table :=
  foldl (fun t r => t ← t; release t r now stamped) (Ok t) rs.

(** The transaction: the tables as it finds them, whether the audit log takes the entry. *)
(** @src src/src/core/plan-takeover.ts 492-514 takeOver *)
Definition takeover_tx (d : Reads) (i expect : string) (audit : bool) (stamped : string)
    : Table * list WorkflowRow * result string TakeoverResult :=
  let keep x := (rd_triggers d, rd_workflows d, x) in
  match planOf d i with
  | NotFound => keep (Ok TakeoverNotFound)
  | Refused r => keep (Ok (TakeoverRefused r))
  | Plan p =>
      if negb (bool_decide (digest (subject p) = expect)) then keep (Ok (TakeoverRefused changed))
      else
        let nowS := rd_now d / 1000 in
        let t := (update_rows (at_id i) (cover_trigger nowS) (rd_triggers d)).1 in
        let ws := match tp_wf p with
          | Some w => if coverWorkflow p then (fun x => if decide (wf_id x = wf_id w) then cover_workflow nowS x else x) <$> rd_workflows d
                      else rd_workflows d
          | None => rd_workflows d end in
        match release_all t (tp_trigger p :: released p) (rd_now d) stamped with
        | Err e => keep (Err e)
        | Ok t =>
            let t := (setConfirmedAt t i (Some (toISOString (rd_now d))) (Some (principalTag Owner)) None stamped).1 in
            if negb audit then keep (Ok (TakeoverRefused unrecorded))
            else match getById t i [] with
                 | Some after => (t, ws, Ok (TakenOver after (principalTag (runsAs p))))
                 | None => keep (Ok (TakeoverRefused unrecorded))
                 end
        end
  end.

(** [None] for an audit log or a store of questions that is not there; [closes]: closing the questions of a plan succeeds.
    Also the plans whose questions were closed. *)
(** @src src/src/core/plan-takeover.ts 461-519 takeOver *)
Definition takeOver (d d' : Reads) (i expect : string) (audit : option bool) (closes : option (string -> bool)) (stamped : string)
    : Table * list WorkflowRow * result string TakeoverResult * list string :=
  let keep x := (rd_triggers d', rd_workflows d', Ok x, []) in
  if negb planPauseOn then keep (TakeoverRefused not_available)
  else match planOf d i with
  | NotFound => keep TakeoverNotFound
  | Refused r => keep (TakeoverRefused r)
  | Plan first =>
      if negb (bool_decide (digest (subject first) = expect)) then keep (TakeoverRefused changed)
      else match audit, closes with
      | None, _ => keep (TakeoverRefused unrecorded)
      | _, None => keep (TakeoverRefused prompts_failed)
      | Some records, Some closes =>
          let plans := ids (tp_trigger first :: released first) in
          if forallb closes plans then (takeover_tx d' i expect records stamped, plans)
          else (rd_triggers d', rd_workflows d', Ok (TakeoverRefused prompts_failed), take_while closes plans)
      end
  end.
End Takeover.
