(* ===== verification/TriggerLaws.v ===== *)
(** What every sequence of calls on the table of triggers keeps, whoever makes them and in whatever order: the store of
    [Triggers], the pauses of [PlanPause] and the takeovers of [PlanTakeover] as the operations of one trace.

    [row_step] says what one operation may do to one row; the theorems are proved against it. *)
From coqutil Require Import Datatypes.RecordSetters.
From S2P Require Import Prelude Num JsString JsValue Cron Principal IsoTime Triggers PlanPause PlanTakeover.
Import TriangleBracketNotations.
Open Scope Z_scope.

Section Laws.
Variable Date_parse : string -> num.
Variable JSON_parse : string -> option jval.
Variable num_text : Q -> string.
Variable digest_stamp : StampSubject -> string.
Variable digest_text : string -> string.
Variable digest : Subject -> string.

Abbreviation planOf := (planOf Date_parse JSON_parse num_text digest_stamp digest_text).
Abbreviation takeover_tx := (takeover_tx Date_parse JSON_parse num_text digest_stamp digest_text digest).

(** ** Operations *)

(** Where an operation resolves a workflow it carries the ids of the table it finds; a takeover carries what else it
    reads. [ODropWorkflow] is the foreign key's [ON DELETE SET NULL]. *)
Inductive Op :=
| OUpsert (workflows : list string) (row : TriggerRow) (createdAt updatedAt : option string) (now : string)
| OInsert (workflows : list string) (p : InsertParams) (now : string)
| OArm (workflows : list string) (runId : string) (e : TriggerEffect) (title nextRunAt now : string)
| OWebhook (workflows : list string) (p : WebhookParams) (now : string)
| ORemove (i : string)
| OEnable (i : string) (on : bool) (now : string)
| OConfirm (i : string) (at_ by_ connections : option string) (now : string)
| OMark (i : string) (editor : RequestPrincipal) (clearStamp : bool) (now : string)
| OUpdate (i : string) (p : UpdateFields) (scopes : list (string * string)) (now : string)
| OResult (i : string) (u : RunResult) (now : string)
| OWatch (i config now : string)
| OEscalate (i at_ : string) (onlyIfLater : bool)
| OOutcome (i : string) (outcome : EscalationOutcome) (startedAt : string)
| ORemind (i at_ : string)
| OEndWait (i : string) (to : TriggerStatus) (now : string)
| OClaim (i holder until now : string)
| ORenew (i holder until : string)
| ORelease (i holder : string)
| OPause (i : string) (entries : list PausedFor) (nowS dbS : Z)
| ONotice (i : string) (nowS : Z)
| OTakeOver (workflows : list WorkflowRow) (readable isLive : string -> bool) (clock : Z) (i expect : string) (audit : bool)
    (stamped : string)
| ODropWorkflow (w : string).

Definition reads (t : Table) (ws : list WorkflowRow) (readable isLive : string -> bool) (clock : Z) : Reads :=
  {| rd_triggers := t; rd_workflows := ws; rd_readable := readable; rd_isLive := isLive; rd_now := clock |}.

Definition drop_workflow (w : string) (t : Table) : Table :=
  (update_rows (fun r => bool_decide (target_workflow_id (what r) = Some w)) (fun r => r <| what -> target_workflow_id := None |>) t).1.

Definition step (t : Table) (op : Op) : Table :=
  match op with
  | OUpsert ws row c u now => upsert ws t row c u now
  | OInsert ws p now => insert ws t p now
  | OArm ws runId e title next now => (armBulkEffect ws t runId e title next now).1
  | OWebhook ws p now => match insertWebhook ws t p now with Ok t' => t' | Err _ => t end
  | ORemove i => (remove t i).1
  | OEnable i on now => (setEnabled t i on now).1
  | OConfirm i at_ by_ conns now => (setConfirmedAt t i at_ by_ conns now).1
  | OMark i editor clear now => (markEditedBy t i editor clear now).1
  | OUpdate i p scopes now => (updateFields t i p scopes now).1
  | OResult i u now => updateRunResult t i u now
  | OWatch i config now => updateWatchConfig t i config now
  | OEscalate i at_ later => (startEscalation t i at_ later).1
  | OOutcome i o started => (recordEscalationOutcome t i o started).1
  | ORemind i at_ => (markConsentReminded t i at_).1
  | OEndWait i to now => (endWait t i to now).1
  | OClaim i holder until now => (claimLease t i holder until now).1
  | ORenew i holder until => (renewLease t i holder until).1
  | ORelease i holder => releaseLease t i holder
  | OPause i entries nowS dbS => (writePause t i entries nowS dbS).1
  | ONotice i nowS => (claim_notice nowS t i).1
  | OTakeOver ws readable isLive clock i expect audit stamped =>
      (takeover_tx (reads t ws readable isLive clock) i expect audit stamped).1.1
  | ODropWorkflow w => drop_workflow w t
  end.
Definition run (t : Table) (ops : list Op) : Table := foldl step t ops.

(** ** What an operation does to a row *)

(** What a takeover may do to a row: it covers the marks of the plan taken over and stamps it; it ends the pause of that
    plan and of the plans it releases, drops their lapsed leases, ends a wait or a stop, and reschedules. *)
Record takeover_effect (i now stamped : string) (r r' : Trigger) : Prop := {
  te_id : id r' = id r;
  te_what : what r' = what r;
  te_lease : lease r' = lease r \/ col_gt (lease_until (lease r)) now = false /\ lease r' = no_lease;
  te_consent : consent r' = consent r \/ id r = i /\
    consent r' = {| confirmed_at := Some now; confirmed_by := Some OWNER_TAG;
                    consent_reminded_at := keep_marker (Some now) (consent r); stamp_connections := None |};
  te_pause : pause r' = pause r \/ pause r' = unpaused (pause r);
  te_creator : created_by (authors r') = created_by (authors r) }.

(** A pause and its record of who ended; a plan paused before keeps its time and its due time. *)
Definition paused_row (entries : list PausedFor) (nowS dbS : Z) (r : Trigger) : Trigger :=
  let r := if is_null (paused_at (pause r)) then pause_row nowS dbS r else r in
  let '(before, broken) := pausedForOf (paused_for (pause r)) in
  let merged := merge_entries before entries in
  if broken || negb (Nat.eqb (length merged) (length before)) then r <| pause -> paused_for := Some (Some merged) |> else r.

(** The operations that name their row and always act on it where they apply. *)
Definition applies (op : Op) (r : Trigger) : bool :=
  match op with
  | OConfirm i _ _ _ _ | OMark i _ _ _ | OEnable i _ _ | OResult i _ _ | OPause i _ _ _ => at_id i r
  | ORemind i _ => at_id i r && is_null (consent_reminded_at (consent r)) && unstamped r
  | OEndWait i _ _ => at_id i r && bool_decide (status (sched r) = waiting)
  | OClaim i _ _ now => at_id i r && negb (col_gt (lease_until (lease r)) now)
  | ORenew i holder _ | ORelease i holder => held_by i holder r
  | _ => false
  end.

Inductive row_step : Op -> Trigger -> Trigger -> Prop :=
| rs_same op r : applies op r = false -> row_step op r r
| rs_upsert ws row c u now r : id r = row_id row ->
    row_step (OUpsert ws row c u now) r (on_conflict (values ws row c u now) r)
| rs_insert ws p now r : id r = p_id p -> row_step (OInsert ws p now) r (on_conflict (values ws (insert_row p) None None now) r)
| rs_arm ws runId e ttl next now row r : id r = row_id row ->
    (exists i c, row = (engine_row i ttl manual e c None "project" "") <| row_sched := fresh_sched open_ (Some next) |>) ->
    row_step (OArm ws runId e ttl next now) r (on_conflict (values ws row None None now) r)
| rs_enable i on now r : id r = i -> row_step (OEnable i on now) r (r <| sched -> enabled := on |> <| updated_at := now |>)
| rs_confirm i at_ by_ conns now r : id r = i ->
    row_step (OConfirm i at_ by_ conns now) r
      (r <| consent := {| confirmed_at := at_; confirmed_by := if is_null at_ then None else by_;
              consent_reminded_at := keep_marker at_ (consent r); stamp_connections := if is_null at_ then None else conns |} |>
         <| authors -> edited_by := coalesce (if is_null at_ then None else by_) (edited_by (authors r)) |> <| updated_at := now |>)
| rs_mark i editor clear now r : id r = i -> row_step (OMark i editor clear now) r (mark_row editor clear now r)
| rs_update i p scopes now r : id r = i -> row_step (OUpdate i p scopes now) r (set_fields p now r)
| rs_result i u now r : id r = i -> row_step (OResult i u now) r (result_row u now r)
| rs_watch i config now r : id r = i -> row_step (OWatch i config now) r (watch_row config now r)
| rs_escalate i at_ later r : id r = i ->
    row_step (OEscalate i at_ later) r (r <| last_escalation_at := Some at_ |> <| last_escalation_outcome := Some unconfirmed |>)
| rs_outcome i o started r : id r = i -> row_step (OOutcome i o started) r (r <| last_escalation_outcome := Some o |>)
| rs_remind i at_ r : id r = i -> consent_reminded_at (consent r) = None -> unstamped r = true ->
    row_step (ORemind i at_) r (r <| consent -> consent_reminded_at := Some at_ |>)
| rs_end_wait i to now r : id r = i -> status (sched r) = waiting ->
    row_step (OEndWait i to now) r (r <| sched -> status := to |> <| waiting_until := None |> <| updated_at := now |>)
| rs_claim i holder until now r : id r = i -> col_gt (lease_until (lease r)) now = false ->
    row_step (OClaim i holder until now) r
      (r <| lease := {| lease_holder := Some holder; lease_until := Some until; lease_since := Some now |} |>)
| rs_renew i holder until r : id r = i -> lease_holder (lease r) = Some holder ->
    row_step (ORenew i holder until) r (r <| lease -> lease_until := Some until |>)
| rs_release i holder r : id r = i -> lease_holder (lease r) = Some holder -> row_step (ORelease i holder) r (r <| lease := no_lease |>)
| rs_pause i entries nowS dbS r : id r = i -> row_step (OPause i entries nowS dbS) r (paused_row entries nowS dbS r)
| rs_notice i nowS r : id r = i -> row_step (ONotice i nowS) r (r <| pause -> pause_noticed_at := Some nowS |>)
| rs_takeover ws readable isLive clock i expect audit stamped r r' :
    takeover_effect i (toISOString clock) stamped r r' -> row_step (OTakeOver ws readable isLive clock i expect audit stamped) r r'
| rs_drop w r : target_workflow_id (what r) = Some w -> row_step (ODropWorkflow w) r (r <| what -> target_workflow_id := None |>).

(** The rows an operation may add. *)
Inductive creates : Op -> Trigger -> Prop :=
| cr_upsert ws row c u now : creates (OUpsert ws row c u now) (values ws row c u now)
| cr_insert ws p now : creates (OInsert ws p now) (values ws (insert_row p) None None now)
| cr_arm ws runId e ttl next now i c :
    creates (OArm ws runId e ttl next now)
      (values ws ((engine_row i ttl manual e c None "project" "") <| row_sched := fresh_sched open_ (Some next) |>) None None now)
| cr_webhook ws p now x w c :
    x = values ws ((engine_row (w_id p) (w_title p) webhook run_workflow c (Some w) (default "project" (w_scopeType p)) (default "" (w_scopeId p)))
          <| row_what -> description := default "" (w_description p) |> <| confirmedAt := w_confirmedAt p |>
          <| createdUntrusted := w_createdUntrusted p |> <| createdBy := w_createdBy p |>
          <| createdMandateId := w_createdMandateId p |>
          <| confirmedBy := if is_null (w_confirmedAt p) then None else w_confirmedBy p |>)%string None None now ->
    creates (OWebhook ws p now)
      (x <| route_token_hash := Some (w_routeTokenHash p) |> <| source_connection_id := w_sourceConnectionId p |>).

(** The shape of an operation: every row takes its step or is removed, at most one row with a new id is added. *)
Definition shaped (op : Op) (t t' : Table) : Prop :=
  exists g new, t' = omap g t ++ new /\
    (forall r, r ∈ t -> match g r with Some r' => row_step op r r' | None => op = ORemove (id r) end) /\
    (new = [] \/ exists x, new = [x] /\ creates op x /\ id x ∉ ids t).

Lemma at_id_true i r : at_id i r = true <-> id r = i.
Proof. apply bool_decide_eq_true. Qed.

Lemma find_row_Some t i r : find_row t i = Some r -> r ∈ t /\ id r = i.
Proof.
  unfold find_row. destruct (list_find _ t) as [[k x]|] eqn:E; [|done]. intros [= <-].
  apply list_find_Some in E as (H & Hi & _). split; [by eapply list_elem_of_lookup_2|done].
Qed.

Lemma find_trigger_None t i : find_row t i = None <-> i ∉ ids t.
Proof.
  unfold find_row. destruct (list_find _ t) as [[k x]|] eqn:E.
  - apply list_find_Some in E as (H & Hi & _). split; [done|]. intros Hn. exfalso. apply Hn, list_elem_of_fmap.
    exists x. split; [done|by eapply list_elem_of_lookup_2].
  - split; [|done]. intros _ (r & -> & Hr)%list_elem_of_fmap. apply list_find_None in E. rewrite Forall_forall in E. by apply (E r).
Qed.

Lemma same_trigger t r1 r2 : NoDup (ids t) -> r1 ∈ t -> r2 ∈ t -> id r1 = id r2 -> r1 = r2.
Proof.
  intros Hnd H1 H2 He. apply list_elem_of_lookup in H1 as [i Hi]. apply list_elem_of_lookup in H2 as [j Hj].
  assert (i = j) as ->; [|congruence]. apply (NoDup_lookup (ids t) i j (id r1)); [done| |];
    unfold ids; rewrite list_lookup_fmap, ?Hi, ?Hj; cbn; congruence.
Qed.

Lemma find_trigger_in t r : NoDup (ids t) -> r ∈ t -> find_row t (id r) = Some r.
Proof.
  intros Hnd Hr. destruct (find_row t (id r)) as [r'|] eqn:E.
  - apply find_row_Some in E as [? ?]. f_equal. by eapply same_trigger.
  - apply find_trigger_None in E. exfalso. apply E, list_elem_of_fmap. eauto.
Qed.

Lemma omap_Some_fmap (f : Trigger -> Trigger) (t : Table) : omap (fun r => Some (f r)) t = f <$> t.
Proof. induction t as [|r t IH]; [done|]. csimpl. by rewrite IH. Qed.

Lemma shaped_map op t f new : (forall r, r ∈ t -> row_step op r (f r)) ->
  (new = [] \/ exists x, new = [x] /\ creates op x /\ id x ∉ ids t) -> shaped op t ((f <$> t) ++ new).
Proof. intros Hf Hn. exists (fun r => Some (f r)), new. rewrite omap_Some_fmap. split_and!; auto. Qed.

Lemma shaped_add op t new : (forall r, r ∈ t -> applies op r = false) -> (new = [] \/ exists x, new = [x] /\ creates op x /\ id x ∉ ids t) -> shaped op t (t ++ new).
Proof.
  intros Ha Hn. exists Some, new. split_and!; [|intros r Hr; by apply rs_same, Ha|done]. clear Ha. f_equal. induction t as [|r t IH]; [done|].
  csimpl. rewrite <-IH; [done|]. destruct Hn as [|(x & -> & ? & Hx)]; [by left|right]. exists x. split_and!; [done..|]. set_solver.
Qed.

Lemma shaped_unchanged op t : (forall r, r ∈ t -> applies op r = false) -> shaped op t t.
Proof. intros Ha. rewrite <-(app_nil_r t) at 2. apply shaped_add; [done|by left]. Qed.

Lemma shaped_update_rows op t p f : (forall r, r ∈ t -> p r = false -> applies op r = false) ->
  (forall r, r ∈ t -> p r = true -> row_step op r (f r)) -> shaped op t (update_rows p f t).1.
Proof.
  intros Ha Hf. unfold update_rows. cbn [fst]. rewrite <-(app_nil_r (_ <$> _)). apply shaped_map; [|by left].
  intros r Hr. destruct (p r) eqn:E; [by apply Hf|by apply rs_same, Ha].
Qed.

Lemma shaped_at op t i f : (forall r, at_id i r = false -> applies op r = false) -> (forall r, r ∈ t -> id r = i -> row_step op r (f r)) -> shaped op t (update_rows (at_id i) f t).1.
Proof. intros Ha Hf. apply shaped_update_rows; [auto|]. intros r Hr E%at_id_true. by apply Hf. Qed.

Lemma shaped_upsert op ws t row c u now : (forall r, applies op r = false) ->
  (forall r, r ∈ t -> id r = row_id row -> row_step op r (on_conflict (values ws row c u now) r)) ->
  creates op (values ws row c u now) -> shaped op t (upsert ws t row c u now).
Proof.
  intros Ha Hf Hc. unfold upsert. destruct (find_row t (row_id row)) eqn:E; [by apply shaped_at|].
  apply shaped_add; [done|]. right. eexists. split_and!; [done|done|]. by apply find_trigger_None.
Qed.

(** *** The takeover *)

(** A release, and a cover before it: all but the stamp of a takeover. *)
Definition release_effect (now : string) (r r' : Trigger) : Prop :=
  id r' = id r /\ what r' = what r /\ consent r' = consent r /\ created_by (authors r') = created_by (authors r) /\
  (lease r' = lease r \/ col_gt (lease_until (lease r)) now = false /\ lease r' = no_lease) /\
  (pause r' = pause r \/ pause r' = unpaused (pause r)).

Lemma release_effect_refl now r : release_effect now r r.
Proof. split_and!; auto. Qed.

Lemma release_effect_trans now r r' r'' : release_effect now r r' -> release_effect now r' r'' -> release_effect now r r''.
Proof.
  intros (I1 & W1 & C1 & A1 & L1 & P1) (I2 & W2 & C2 & A2 & L2 & P2). split_and!; [congruence..| |].
  - destruct L1 as [E1|[H1 E1]], L2 as [E2|[H2 E2]]; rewrite ?E1 in *; auto.
  - destruct P1 as [E1|E1], P2 as [E2|E2]; rewrite ?E1 in *; auto.
Qed.

(** Every row of [t'] is one of [t] after an effect. *)
Definition rows_by (R : Trigger -> Trigger -> Prop) (t t' : Table) : Prop := exists h, t' = h <$> t /\ forall r, r ∈ t -> R r (h r).

Lemma rows_by_update R p f t : (forall r, R r r) -> (forall r, r ∈ t -> p r = true -> R r (f r)) -> rows_by R t (update_rows p f t).1.
Proof.
  intros Hr Hf. eexists. split; [done|]. intros r Hin. cbn. destruct (p r) eqn:E; auto.
Qed.

Lemma rows_by_trans R t t' t'' : (forall a b c, R a b -> R b c -> R a c) -> rows_by R t t' -> rows_by R t' t'' -> rows_by R t t''.
Proof.
  intros HR (h & -> & Hh) (k & -> & Hk). exists (k ∘ h). split; [by rewrite list_fmap_compose|].
  intros r Hr. eapply HR; [by apply Hh|]. by apply Hk, list_elem_of_fmap_2.
Qed.

Lemma lapsed_or_null now l : is_null (lease_until l) || col_le (lease_until l) now = negb (col_gt (lease_until l) now).
Proof. destruct (lease_until l); [|done]. cbn. rewrite text_lt_le. by rewrite negb_involutive. Qed.

Lemma released_row_effect r next now stamped x : release_effect now x (released_row r next now stamped x).
Proof.
  unfold released_row. rewrite lapsed_or_null. destruct (col_gt (lease_until (lease x)) now) eqn:E; cbn [negb];
    destruct next; repeat case_match; split_and!; try done; auto.
Qed.

Lemma release_rows_by r now stamped t t' : release Date_parse t r now stamped = Ok t' -> rows_by (release_effect (toISOString now)) t t'.
Proof.
  unfold release. intros (next & _ & [= <-])%bind_Ok. apply rows_by_update; [apply release_effect_refl|].
  intros x _ _. apply released_row_effect.
Qed.

Lemma release_all_rows_by rs now stamped t t' : release_all Date_parse t rs now stamped = Ok t' ->
  rows_by (release_effect (toISOString now)) t t'.
Proof.
  unfold release_all. assert (forall rs (m : result string Table), foldl (fun t r => t ← t; release Date_parse t r now stamped) m rs = Ok t' ->
    exists t0, m = Ok t0 /\ rows_by (release_effect (toISOString now)) t0 t') as H.
  { clear rs t. intros rs. induction rs as [|r rs IH]; intros m Hm; cbn [foldl] in Hm.
    - exists t'. split; [done|]. exists (fun r => r). split; [|intros; apply release_effect_refl].
      symmetry. apply list_fmap_id.
    - destruct (IH _ Hm) as (t1 & Hb & H1). apply bind_Ok in Hb as (t0 & -> & H0). exists t0. split; [done|].
      eapply rows_by_trans; [apply release_effect_trans|by eapply release_rows_by|done]. }
  intros Hm. destruct (H rs _ Hm) as (t0 & [= ->] & ?). done.
Qed.

Lemma takeover_shaped t ws readable isLive clock i expect audit stamped :
  shaped (OTakeOver ws readable isLive clock i expect audit stamped) t
    (takeover_tx (reads t ws readable isLive clock) i expect audit stamped).1.1.
Proof.
  unfold PlanTakeover.takeover_tx. destruct (PlanTakeover.planOf _ _ _ _ _ _ _) as [p| |]; try by apply shaped_unchanged.
  destruct (negb _); [by apply shaped_unchanged|]. destruct (release_all _ _ _ _ _) as [t1|] eqn:E1; [|by apply shaped_unchanged].
  destruct (negb audit); [by apply shaped_unchanged|]. destruct (getById _ _ _); [|by apply shaped_unchanged]. cbn [fst].
  apply release_all_rows_by in E1 as H. cbn [rd_now reads rd_triggers] in *.
  assert (rows_by (release_effect (toISOString clock)) t t1) as (h & -> & Hh).
  { eapply rows_by_trans; [apply release_effect_trans| |exact H]. apply rows_by_update; [apply release_effect_refl|].
    intros r _ _. split_and!; auto. }
  unfold setConfirmedAt, update_rows. cbn [fst]. rewrite <-list_fmap_compose, <-(app_nil_r (_ <$> _)).
  apply shaped_map; [|by left]. intros r Hr. apply rs_takeover. destruct (Hh r Hr) as (I & W & C & A & L & P). unfold compose.
  destruct (at_id i (h r)) eqn:Ei; [|split; auto]. apply at_id_true in Ei. split; try done. right. split; [congruence|].
  cbn. by rewrite C.
Qed.

Lemma webhook_shaped t ws p now t' : insertWebhook ws t p now = Ok t' -> shaped (OWebhook ws p now) t t'.
Proof.
  unfold insertWebhook. destruct (resolveTargetWorkflowId _ _) as [w|]; [|done]. destruct (existsb (at_id (w_id p)) t) eqn:E; [done|].
  intros [= <-]. assert (w_id p ∉ ids t) as Hn.
  { intros (r & Hr & Hin)%list_elem_of_fmap. apply not_true_iff_false in E. apply E, existsb_exists.
    exists r. split; [by apply list_elem_of_In|]. by apply at_id_true. }
  unfold upsert. cbn [row_id engine_row]. apply find_trigger_None in Hn as Hf. cbn in Hf |- *. rewrite Hf.
  rewrite fmap_app. cbn [fmap list_fmap]. rewrite (proj2 (at_id_true _ _)) by done. rewrite (list_fmap_ext _ (fun r => r) _).
  - rewrite list_fmap_id. apply shaped_add; [done|]. right. eexists. split_and!; [done| |done]. eapply cr_webhook. done.
  - intros k r Hk. destruct (at_id (w_id p) r) eqn:Ei; [|done]. apply at_id_true in Ei. exfalso. apply Hn. rewrite <-Ei.
    apply list_elem_of_fmap_2. by eapply list_elem_of_lookup_2.
Qed.

Lemma remove_shaped t i : shaped (ORemove i) t (remove t i).1.
Proof.
  unfold remove. case_bool_decide; [by apply shaped_unchanged|]. exists (fun r => if at_id i r then None else Some r), []. split_and!; [|..].
  - cbn [fst]. rewrite app_nil_r. induction t as [|r t IH]; [done|]. csimpl. destruct (at_id i r) eqn:E.
    + rewrite filter_cons_False by congruence. done.
    + rewrite filter_cons_True by done. by rewrite IH.
  - intros r _. destruct (at_id i r) eqn:E; [|by apply rs_same]. apply at_id_true in E. by subst.
  - by left.
Qed.

Lemma writePause_map t i entries nowS dbS : NoDup (ids t) ->
  (writePause t i entries nowS dbS).1 = (fun r => if at_id i r then paused_row entries nowS dbS r else r) <$> t.
Proof.
  intros Hnd. unfold writePause. destruct (update_rows _ (pause_row nowS dbS) t) as [t1 fresh] eqn:E1.
  unfold update_rows in E1. injection E1 as E1 _. symmetry in E1.
  assert (ids t1 = ids t) as Hids.
  { rewrite E1. unfold ids. rewrite <-list_fmap_compose. apply list_fmap_ext. intros k r _. unfold compose.
    by destruct (_ && _). }
  destruct (find_row t1 i) as [x|] eqn:E; cbn [fst].
  2: { apply find_trigger_None in E. rewrite Hids in E. rewrite E1. apply list_fmap_ext. intros k r Hk%list_elem_of_lookup_2.
       destruct (at_id i r) eqn:Ei; [|done]. apply at_id_true in Ei. exfalso. apply E. subst i. by apply list_elem_of_fmap_2. }
  apply find_row_Some in E as [Hx Hi].
  assert (forall r, r ∈ t -> at_id i r = true -> x = if is_null (paused_at (pause r)) then pause_row nowS dbS r else r) as Hrow.
  { intros r Hr Ei. apply (same_trigger t1); [by rewrite Hids|done| |].
    - rewrite E1. apply list_elem_of_fmap. exists r. split; [|done]. by rewrite Ei.
    - apply at_id_true in Ei. rewrite Hi, <-Ei. by destruct (is_null _). }
  destruct (pausedForOf (paused_for (pause x))) as [before broken] eqn:Eb.
  destruct (broken || _) eqn:Ec; unfold update_rows; cbn [fst]; rewrite E1, <-?list_fmap_compose; apply list_fmap_ext;
    intros k r Hk; apply list_elem_of_lookup_2 in Hk; unfold compose; (destruct (at_id i r) eqn:Ei; cbn [andb]; [|by rewrite ?Ei]);
    pose proof (Hrow r Hk Ei) as Er; unfold paused_row; rewrite <-Er, Eb, Ec; [|done].
  by rewrite (proj2 (at_id_true i x) Hi).
Qed.

Lemma pause_shaped t i entries nowS dbS : NoDup (ids t) -> shaped (OPause i entries nowS dbS) t (writePause t i entries nowS dbS).1.
Proof.
  intros Hnd. rewrite writePause_map by done. apply (shaped_at _ t i (paused_row entries nowS dbS)); [done|].
  intros r _ ?. by apply rs_pause.
Qed.

Lemma step_shaped t op : NoDup (ids t) -> shaped op t (step t op).
Proof.
  intros Hnd. destruct op; cbn [step].
  - apply shaped_upsert; [done| |constructor]. intros r _ E. by apply rs_upsert.
  - apply shaped_upsert; [done| |constructor]. intros r _ E. by apply rs_insert.
  - apply shaped_upsert; [done| |constructor]. intros r _ E. apply rs_arm; eauto.
  - destruct (insertWebhook _ _ _ _) eqn:E; [by apply webhook_shaped|by apply shaped_unchanged].
  - apply remove_shaped.
  - apply shaped_at; [done|]. intros. by apply rs_enable.
  - apply shaped_at; [done|]. intros. by apply rs_confirm.
  - apply shaped_at; [done|]. intros. by apply rs_mark.
  - unfold updateFields. destruct (sets_nothing p); [by apply shaped_unchanged|]. apply shaped_update_rows; [done|].
    intros r _ [E%at_id_true _]%andb_true_iff. by apply rs_update.
  - apply shaped_at; [done|]. intros. by apply rs_result.
  - apply shaped_at; [done|]. intros. by apply rs_watch.
  - apply shaped_update_rows; [done|]. intros r _ [E%at_id_true _]%andb_true_iff. by apply rs_escalate.
  - apply shaped_update_rows; [done|]. intros r _ [E%at_id_true _]%andb_true_iff. by apply rs_outcome.
  - apply shaped_update_rows; [done|]. intros r _ [[E%at_id_true Hn]%andb_true_iff Hu]%andb_true_iff. apply rs_remind; [done| |done].
    by destruct (consent_reminded_at _).
  - apply shaped_update_rows; [done|]. intros r _ [E%at_id_true Hw%bool_decide_eq_true]%andb_true_iff. by apply rs_end_wait.
  - unfold claimLease. destruct (find_row t i) as [x|] eqn:E.
    2: { apply shaped_unchanged. intros r Hr. cbn. destruct (at_id i r) eqn:Ei; [|done]. apply at_id_true in Ei. exfalso.
         apply find_trigger_None in E. apply E. subst i. by apply list_elem_of_fmap_2. }
    apply find_row_Some in E as [Hx Ex].
    assert (forall r, r ∈ t -> id r = i -> r = x) as Hr by (intros r Hr Hi; apply (same_trigger t); congruence).
    destruct (col_gt _ _) eqn:Eg; cbn [fst].
    + apply shaped_unchanged. intros r Hin. cbn. destruct (at_id i r) eqn:Ei; [|done]. apply at_id_true in Ei. by rewrite (Hr r), Eg by done.
    + apply shaped_at; [intros r Ei; cbn; by rewrite Ei|]. intros r Hin Hi. apply rs_claim; [done|]. by rewrite (Hr r).
  - apply shaped_update_rows; [done|]. intros r _ [E%at_id_true Hh%bool_decide_eq_true]%andb_true_iff. by apply rs_renew.
  - apply shaped_update_rows; [done|]. intros r _ [E%at_id_true Hh%bool_decide_eq_true]%andb_true_iff. by apply rs_release.
  - by apply pause_shaped.
  - apply shaped_update_rows; [done|]. intros r _ [E%at_id_true _]%andb_true_iff. by apply rs_notice.
  - apply takeover_shaped.
  - apply shaped_update_rows; [done|]. intros r _ E%bool_decide_eq_true. by apply rs_drop.
Qed.

(** ** Traces *)

(** What an update of fields leaves as it is. *)
Lemma given_keeps {A B} (f : Trigger -> B) (x : option A) g r : (forall a s, f (g a s) = f s) -> f (given x g r) = f r.
Proof. intros H. destruct x; [apply H|done]. Qed.

(** A part of the row an update of fields has no statement for. *)
Lemma set_fields_keeps {B} (f : Trigger -> B) p now r : (forall s x, f (s <| what := x |>) = f s) -> (forall s x, f (s <| sched := x |>) = f s) ->
  (forall s x, f (s <| waiting_until := x |>) = f s) -> (forall s x, f (s <| model_tier := x |>) = f s) ->
  (forall s x, f (s <| updated_at := x |>) = f s) -> (forall s x, f (s <| consent := x |>) = f s) -> f (set_fields p now r) = f r.
Proof.
  intros Hw Hs Hu Hm Ha Hc. unfold set_fields. cbv zeta. rewrite Ha. rewrite (given_keeps f (u_modelTier p)) by (intros; apply Hm).
  rewrite (given_keeps f (u_scheduleCron p)) by (intros; apply Hw). rewrite (given_keeps f (if clears_wait p then _ else _)) by (intros; apply Hu).
  rewrite (given_keeps f (u_nextRunAt p)) by (intros a s; etransitivity; [|apply (Hs s ((sched s) <| next_run_at := or_null a |>))]; by destruct s).
  rewrite (given_keeps f (u_status p)) by (intros a s; etransitivity; [|apply (Hs s ((sched s) <| status := a |>))]; by destruct s).
  unfold edit_unstamps. destruct (_ && _); rewrite ?Hc;
    (rewrite (given_keeps f (u_description p)) by (intros a s; etransitivity; [|apply (Hw s ((what s) <| description := a |>))]; by destruct s));
    apply (given_keeps f (u_title p)); intros a s; (etransitivity; [|apply (Hw s ((what s) <| title := a |>))]); by destruct s.
Qed.

Lemma set_fields_consent p now r : consent (set_fields p now r) = consent (edit_unstamps p r).
Proof.
  unfold set_fields. cbv zeta. etransitivity; [apply (given_keeps consent (u_modelTier p)); done|]. rewrite !(given_keeps consent) by done.
  unfold edit_unstamps. destruct (_ && _); [|cbn]; by rewrite !(given_keeps consent) by done.
Qed.

Lemma set_fields_what p now r : u_title p = None -> u_description p = None ->
  what (set_fields p now r) = what r \/ exists x, what (set_fields p now r) = (what r) <| condition := (condition (what r)) <| schedule_cron := x |> |>.
Proof.
  intros Ht Hd. unfold set_fields. cbv zeta. unfold edit_unstamps. rewrite Ht, Hd. cbn [given is_null andb].
  assert (forall s c, what s = what r -> what (given c (fun x r => r <| what := (what r) <| condition := (condition (what r)) <| schedule_cron := or_null x |> |> |>) s) = what r \/
    exists x, what (given c (fun x r => r <| what := (what r) <| condition := (condition (what r)) <| schedule_cron := or_null x |> |> |>) s)
      = (what r) <| condition := (condition (what r)) <| schedule_cron := x |> |>) as H.
  { intros s [c|] E; [right|by left]. exists (or_null c). cbn. by rewrite E. }
  destruct (u_modelTier p); (edestruct H as [E|[x E]]; [|left; exact E|right; exists x; exact E]); by rewrite !(given_keeps what) by done.
Qed.

Lemma trigger_step_id op r r' : row_step op r r' -> id r' = id r.
Proof.
  destruct 1; try done.
  - unfold mark_row. destruct editor, clear; done.
  - by apply (set_fields_keeps id).
  - unfold paused_row, pause_row. repeat case_match; done.
  - by destruct H.
Qed.

Lemma step_ids_NoDup t op : NoDup (ids t) -> NoDup (ids (step t op)).
Proof.
  intros Hnd. destruct (step_shaped t op Hnd) as (g & new & -> & Hg & Hn).
  assert (forall l, l ⊆ t -> forall i, i ∈ ids (omap g l) -> i ∈ ids l) as Hsub.
  { intros l Hl i (r' & -> & (r & Hr & E)%list_elem_of_omap)%list_elem_of_fmap.
    pose proof (Hg r (Hl r Hr)) as H. rewrite E in H. apply trigger_step_id in H. apply list_elem_of_fmap. eauto. }
  unfold ids. rewrite fmap_app. apply NoDup_app. split_and!.
  - assert (forall l, l ⊆ t -> NoDup (ids l) -> NoDup (ids (omap g l))) as Hl; [|by apply (Hl t)].
    intros l. induction l as [|r l IH]; intros Hlt; [done|]. intros [Hr Hl]%NoDup_cons. csimpl.
    destruct (g r) as [r'|] eqn:E; [|apply IH; [set_solver|done]]. cbn. apply NoDup_cons. split; [|apply IH; [set_solver|done]].
    pose proof (Hg r (Hlt r ltac:(by left))) as H. rewrite E in H. apply trigger_step_id in H. rewrite H.
    intros Hin. apply Hr. eapply (Hsub l); [set_solver|done].
  - intros i Hi. apply (Hsub t) in Hi; [|done]. destruct Hn as [->|(x & -> & _ & Hx)]; [by intros []%elem_of_nil|].
    intros [->|[]%elem_of_nil]%elem_of_cons. done.
  - destruct Hn as [->|(x & -> & _)]; [apply NoDup_nil_2|apply NoDup_singleton].
Qed.

Lemma run_NoDup t ops : NoDup (ids t) -> NoDup (ids (run t ops)).
Proof. revert t. induction ops as [|op ops IH]; intros t Hnd; [done|]. apply IH, step_ids_NoDup, Hnd. Qed.

(** A row of the table after an operation was there before or is new. *)
Lemma in_step t op r' : NoDup (ids t) -> r' ∈ step t op ->
  (exists r, r ∈ t /\ row_step op r r') \/ creates op r' /\ id r' ∉ ids t.
Proof.
  intros Hnd. destruct (step_shaped t op Hnd) as (g & new & -> & Hg & Hn). intros [(r & Hr & E)%list_elem_of_omap|Hx]%elem_of_app.
  - left. exists r. split; [done|]. specialize (Hg r Hr). by rewrite E in Hg.
  - right. destruct Hn as [->|(x & -> & Hc & Hi)]; [by apply elem_of_nil in Hx|]. apply list_elem_of_singleton in Hx as ->. done.
Qed.

(** A row that is not deleted takes its step. *)
Lemma find_step t op i r : NoDup (ids t) -> find_row t i = Some r -> op <> ORemove i ->
  exists r', find_row (step t op) i = Some r' /\ row_step op r r'.
Proof.
  intros Hnd Hf Hop. apply find_row_Some in Hf as [Hr <-]. pose proof (step_ids_NoDup t op Hnd) as Hnd'.
  destruct (step_shaped t op Hnd) as (g & new & E & Hg & Hn). specialize (Hg r Hr). destruct (g r) as [r'|] eqn:Er; [|done].
  exists r'. split; [|done]. apply trigger_step_id in Hg as <-. apply find_trigger_in; [done|]. rewrite E. apply elem_of_app. left.
  apply list_elem_of_omap. eauto.
Qed.

(** *** Leases *)

(** When the lease of [A] on [i] that runs until [u] ends after the operations: [A]'s own renewals move it, and [None] if
    [A] gives it up, the trigger is deleted, or a claim or a takeover comes when it has run out. *)
Definition touches_lease (i A u : string) (op : Op) : bool :=
  match op with
  | ORelease j h => bool_decide (j = i) && bool_decide (h = A)
  | ORemove j => bool_decide (j = i)
  | OClaim j _ _ now => bool_decide (j = i) && negb (text_lt now u)
  | OTakeOver _ _ _ clock _ _ _ _ => negb (text_lt (toISOString clock) u)
  | _ => false
  end.
Fixpoint lease_end (i A u : string) (ops : list Op) : option string :=
  match ops with
  | [] => Some u
  | op :: ops =>
      if touches_lease i A u op then None
      else lease_end i A (match op with ORenew j h u' => if bool_decide (j = i) && bool_decide (h = A) then u' else u | _ => u end) ops
  end.

Lemma lease_step op r r' A u : row_step op r r' -> lease_holder (lease r) = Some A -> lease_until (lease r) = Some u ->
  touches_lease (id r) A u op = false ->
  lease_holder (lease r') = Some A /\
  lease_until (lease r') = Some (match op with ORenew j h u' => if bool_decide (j = id r) && bool_decide (h = A) then u' else u | _ => u end).
Proof.
  intros Hs HA Hu. destruct Hs as [op r Ha| | | | | | | | | | | | | |i h u' now r Hi Hg|i h u' r Hi Hh|i h r Hi Hh|i es n s r Hi| |ws rd lv ck i ex au st r r' He|];
    cbn [touches_lease]; intros Ht; try done.
  - destruct op as [| | | | | | | | | | | | | | | |j h u'| | | | |]; try done. cbn in Ha. unfold held_by, at_id in Ha. rewrite HA in Ha.
    destruct (decide (j = id r)) as [->|Hj]; [|by rewrite bool_decide_eq_false_2].
    rewrite bool_decide_eq_true_2 in Ha by done. apply bool_decide_eq_false in Ha.
    rewrite (bool_decide_eq_false_2 (h = A)) by congruence. by rewrite andb_false_r.
  - unfold mark_row. destruct editor, clear; done.
  - by rewrite (set_fields_keeps lease).
  - rewrite bool_decide_eq_true_2 in Ht by done. rewrite Hu in Hg. cbn in Hg, Ht. by rewrite Hg in Ht.
  - subst i. rewrite bool_decide_eq_true_2 by done. assert (h = A) as -> by congruence. rewrite bool_decide_eq_true_2 by done. done.
  - subst i. assert (h = A) as -> by congruence. rewrite !bool_decide_eq_true_2 in Ht by done. done.
  - unfold paused_row, pause_row. repeat case_match; done.
  - destruct (te_lease _ _ _ _ _ He) as [->|[Hg _]]; [done|]. rewrite Hu in Hg. cbn in Hg. by rewrite Hg in Ht.
Qed.

Lemma lease_kept i A ops : forall t u e, NoDup (ids t) -> leaseOf t i = Some (Some A, Some u) -> lease_end i A u ops = Some e ->
  leaseOf (run t ops) i = Some (Some A, Some e).
Proof.
  induction ops as [|op ops IH]; intros t u e Hnd Hl He; [injection He as <-; exact Hl|]. cbn in He.
  destruct (touches_lease i A u op) eqn:Ht; [done|]. eapply IH; [by apply step_ids_NoDup| |exact He].
  unfold leaseOf in *. destruct (find_row t i) as [r|] eqn:Ef; [|done]. injection Hl as HA Hu. apply find_row_Some in Ef as Hr.
  destruct Hr as [_ <-]. destruct (find_step t op (id r) r Hnd Ef) as (r' & -> & Hs).
  { intros ->. cbn in Ht. by rewrite bool_decide_eq_true_2 in Ht. }
  cbn. destruct (lease_step _ _ _ _ _ Hs HA Hu Ht) as [-> ->]. done.
Qed.

Lemma claim_spec t i h u now : NoDup (ids t) -> (claimLease t i h u now).2 = Claimed \/ (claimLease t i h u now).2 = Interrupted ->
  leaseOf (claimLease t i h u now).1 i = Some (Some h, Some u).
Proof.
  intros Hnd Hc. unfold leaseOf. destruct (find_row t i) as [r|] eqn:E; unfold claimLease in *; rewrite E in *; cbn in Hc; [|naive_solver].
  destruct (col_gt _ _) eqn:Eg; cbn in Hc; [naive_solver|]. destruct (find_step t (OClaim i h u now) i r Hnd E) as (r' & Hf & Hs); [done|].
  cbn [step] in Hf. unfold claimLease in Hf. rewrite E, Eg in Hf. rewrite Hf. cbn. apply find_row_Some in E as [_ <-].
  inversion Hs; subst; [|done]. cbn in *. unfold at_id in *. rewrite bool_decide_eq_true_2, Eg in * by done. done.
Qed.

(** C15. A lease is exclusive across every engine process on the file: from a claim that succeeds on, whatever is called on the
    table meanwhile by anyone, for as long as the holder neither releases it nor the trigger is deleted and each claim or
    takeover comes before the end last written by the holder, the holder keeps the lease, with the end its own renewals gave
    it, and every further claim before that end is refused and changes nothing. *)
Theorem a_live_lease_is_exclusive t i A u now ops e :
  NoDup (ids t) -> (claimLease t i A u now).2 = Claimed \/ (claimLease t i A u now).2 = Interrupted ->
  lease_end i A u ops = Some e ->
  let t' := run (claimLease t i A u now).1 ops in
  leaseOf t' i = Some (Some A, Some e) /\
  forall B u' n, text_lt n e = true -> claimLease t' i B u' n = (t', Held).
Proof.
  intros Hnd Hc He t'. assert (leaseOf t' i = Some (Some A, Some e)) as Hl.
  { eapply lease_kept; [|by apply claim_spec|done]. change (claimLease t i A u now).1 with (step t (OClaim i A u now)).
    by apply step_ids_NoDup. }
  split; [done|]. intros B u' n Hn. unfold leaseOf in Hl. unfold claimLease. destruct (find_row t' i) as [r|]; [|done].
  injection Hl as _ Hu. rewrite Hu. cbn. by rewrite Hn.
Qed.
(** *** Stamps *)

(** What a run is told to do: everything the stamp covers. What a watch last saw is kept in its configuration, which its
    runs rewrite; a workflow that is deleted is dropped from the row. *)
Definition same_instruction (a b : Trigger) : Prop :=
  title (what a) = title (what b) /\ description (what a) = description (what b) /\ source (what a) = source (what b) /\
  effect (what a) = effect (what b) /\ params_json (what a) = params_json (what b) /\
  run_id (condition (what a)) = run_id (condition (what b)) /\ hook (condition (what a)) = hook (condition (what b)) /\
  (target_workflow_id (what b) = target_workflow_id (what a) \/ target_workflow_id (what b) = None).

Lemma same_instruction_refl a : same_instruction a a.
Proof. split_and!; auto. Qed.
Lemma same_instruction_trans a b c : same_instruction a b -> same_instruction b c -> same_instruction a c.
Proof.
  intros (A1 & A2 & A3 & A4 & A5 & A6 & A7 & A8) (B1 & B2 & B3 & B4 & B5 & B6 & B7 & B8). split_and!; try congruence.
  destruct A8 as [A8|A8], B8 as [B8|B8]; rewrite ?A8 in B8; auto.
Qed.
Lemma same_what a b : what b = what a -> same_instruction a b.
Proof. unfold same_instruction. intros ->. split_and!; auto. Qed.

(** The operations that set a trigger's stamp to [s]: a creation that carries one, the owner's confirmation, a takeover. *)
Definition stamps (i s : string) (op : Op) : Prop :=
  match op with
  | OUpsert _ row _ _ _ => row_id row = i /\ confirmedAt row = Some s
  | OInsert _ p _ => p_id p = i /\ p_confirmedAt p = Some s
  | OWebhook _ p _ => w_id p = i /\ w_confirmedAt p = Some s
  | OConfirm j at_ _ _ _ => j = i /\ at_ = Some s
  | OTakeOver _ _ _ clock j _ _ _ => j = i /\ s = toISOString clock
  | _ => False
  end.

Lemma row_step_stamp op r r' s : row_step op r r' -> confirmed_at (consent r') = Some s ->
  confirmed_at (consent r) = Some s /\ same_instruction r r' \/ stamps (id r) s op.
Proof.
  intros Hs Hc. destruct Hs; try (left; split; [done|by apply same_what]).
  - right. cbn in Hc. done.
  - right. done.
  - destruct H0 as (j & c & ->). done.
  - right. done.
  - left. revert Hc. unfold mark_row. destruct editor, clear; try done; intros Hc; split; try done; by apply same_what.
  - left. rewrite set_fields_consent in Hc. unfold edit_unstamps in Hc.
    destruct (u_title p) eqn:Et, (u_description p) eqn:Ed; cbn in Hc; try done. split; [done|].
    destruct (set_fields_what p now r Et Ed) as [E|[x E]]; [by apply same_what|]. unfold same_instruction. rewrite E. split_and!; auto.
  - left. split; [done|]. split_and!; auto.
  - left. unfold paused_row, pause_row in *. repeat case_match; split; try done; by apply same_what.
  - destruct (te_consent _ _ _ _ _ H) as [E|[<- E]].
    + left. rewrite E in Hc. split; [done|]. apply same_what. apply (te_what _ _ _ _ _ H).
    + right. rewrite E in Hc. cbn in Hc. split; congruence.
  - left. split; [done|]. split_and!; auto.
Qed.

Lemma creates_stamp op r s : creates op r -> confirmed_at (consent r) = Some s -> stamps (id r) s op.
Proof. destruct 1; subst; done. Qed.

(** The stamp a row carries was set by an operation of the trace, and the row's instruction is what it was right then. *)
Lemma stamp_history ops : forall r s, r ∈ run [] ops -> confirmed_at (consent r) = Some s ->
  exists ops1 op ops2 r0, ops = ops1 ++ op :: ops2 /\ stamps (id r) s op /\
    find_row (run [] (ops1 ++ [op])) (id r) = Some r0 /\ confirmed_at (consent r0) = Some s /\ same_instruction r0 r.
Proof.
  assert (forall ops, NoDup (ids (run [] ops))) as Hnd by (intros; apply run_NoDup, NoDup_nil_2).
  induction ops as [|op ops IH] using rev_ind; intros r' s Hr Hc; [by apply elem_of_nil in Hr|].
  assert (stamps (id r') s op -> exists ops1 op0 ops2 r0, ops ++ [op] = ops1 ++ op0 :: ops2 /\ stamps (id r') s op0 /\
    find_row (run [] (ops1 ++ [op0])) (id r') = Some r0 /\ confirmed_at (consent r0) = Some s /\ same_instruction r0 r') as Hnow.
  { intros Hst. exists ops, op, [], r'. split_and!; try done; [by apply find_trigger_in|apply same_instruction_refl]. }
  pose proof Hr as Hr'. unfold run in Hr'. rewrite foldl_app in Hr'. cbn [foldl] in Hr'. fold (run [] ops) in Hr'.
  destruct (in_step _ _ _ (Hnd ops) Hr') as [(r & Hin & Hs)|[Hcr _]]; [|by apply Hnow, creates_stamp].
  pose proof (trigger_step_id _ _ _ Hs) as Hi. destruct (row_step_stamp _ _ _ _ Hs Hc) as [[Hc0 Hsi]|Hst]; [|apply Hnow; by rewrite Hi].
  destruct (IH r s Hin Hc0) as (o1 & o & o2 & r0 & -> & Hst & Hf & Hc1 & Hsi0). exists o1, o, (o2 ++ [op]), r0. rewrite Hi.
  split_and!; try done; [by rewrite <-app_assoc|by eapply same_instruction_trans].
Qed.

(** Whom the gate of mandates reads: the last party that changed the trigger, else its creator. *)
Definition last_party (r : Trigger) : string := default ""%string (coalesce (edited_by (authors r)) (created_by (authors r))).

(** C14. Whatever was called on an empty table before, in any order and by anyone: a trigger the tick selects that runs the
    agent, or that a mandate set up or changed last, carries a stamp that an operation of the trace set (a creation with a
    stamp, the owner's confirmation or takeover), and its instruction (title, description, source, effect, parameters, bulk
    run, webhook spec, workflow) is the one it had when that stamp was set: no later edit is run on an earlier stamp. *)
Theorem what_runs_was_stamped planPauseOn ops now r :
  r ∈ getDue planPauseOn (run [] ops) now ->
  effect (what r) = run_agent \/ startsWith (toLowerCase (last_party r)) MANDATE_TAG_PREFIX = true ->
  exists s ops1 op ops2 r0, confirmed_at (consent r) = Some s /\ s <> ""%string /\ ops = ops1 ++ op :: ops2 /\
    stamps (id r) s op /\ find_row (run [] (ops1 ++ [op])) (id r) = Some r0 /\ same_instruction r0 r.
Proof.
  unfold getDue, order_by. rewrite (merge_sort_Permutation _ _). intros [Hd Hr]%list_elem_of_filter Hp. unfold is_due, armed, accepts in Hd.
  rewrite !andb_true_iff, !negb_true_iff in Hd. destruct Hd as [[[_ [[_ Ha] Hm]] _] _].
  assert (unstamped r = false) as Hu.
  { destruct Hp as [He|He]; apply not_true_iff_false; intros Hu; rewrite Hu in *.
    - by rewrite bool_decide_eq_true_2 in Ha.
    - apply not_true_iff_false in Hm. apply Hm. done. }
  unfold unstamped, falsy in Hu. destruct (confirmed_at (consent r)) as [s|] eqn:Es; [|done]. apply bool_decide_eq_false in Hu.
  destruct (stamp_history ops r s Hr Es) as (o1 & o & o2 & r0 & ? & ? & ? & ? & ?). exists s, o1, o, o2, r0. done.
Qed.
(** *** Pauses *)

Definition is_takeover (op : Op) : bool := match op with OTakeOver _ _ _ _ _ _ _ _ => true | _ => false end.
Definition entries_of (r : Trigger) : list PausedFor := (pausedForOf (paused_for (pause r))).1.

Lemma merge_prefix before entries : before `prefix_of` merge_entries before entries.
Proof.
  unfold merge_entries. revert before. induction entries as [|e es IH]; intros b; cbn; [done|]. etransitivity; [|apply IH].
  destruct (existsb _ _); [done|]. by apply prefix_app_r.
Qed.

(** A plan that stays paused as it was. *)
Definition pause_kept (r r' : Trigger) : Prop :=
  paused_at (pause r') = paused_at (pause r) /\ paused_due_at (pause r') = paused_due_at (pause r) /\
  entries_of r `prefix_of` entries_of r'.

Lemma pause_step op r r' : row_step op r r' -> is_takeover op = false -> is_Some (paused_at (pause r)) -> pause_kept r r'.
Proof.
  intros Hs Ht [s Hp]. unfold pause_kept, entries_of. destruct Hs; try (split_and!; [done..|]); try done.
  - unfold mark_row. destruct editor, clear; split_and!; done.
  - by rewrite (set_fields_keeps pause).
  - unfold paused_row. rewrite Hp. cbn [is_null]. destruct (pausedForOf _) as [before broken] eqn:Eb. rewrite ?Eb.
    destruct (broken || _) eqn:Ec; cbn; rewrite ?Eb; cbn; split_and!; try done. apply merge_prefix.
Qed.

Lemma paused_is_unheld r : is_Some (paused_at (pause r)) -> unheld true r = false.
Proof. intros [s Hs]. unfold unheld. rewrite Hs. cbn. by rewrite andb_false_r. Qed.

(** A plan paused because somebody's access ended waits for its owner. Whatever is called meanwhile (edits, a new
    confirmation, a new due time, a re-arming, another pause, results of runs), as long as no takeover comes and the plan is
    not deleted, it stays paused with the time, the due time and every entry it was paused with, and neither the tick, nor
    the receiver of webhooks, nor the reminder of missing consent selects it at any time. *)
Theorem a_paused_plan_waits_for_its_owner t i r ops :
  NoDup (ids t) -> find_row t i = Some r -> is_Some (paused_at (pause r)) ->
  forallb (fun op => negb (is_takeover op)) ops = true -> ORemove i ∉ ops ->
  exists r', find_row (run t ops) i = Some r' /\ pause_kept r r' /\
    findAcceptingWebhook true (run t ops) i = None /\
    forall now, i ∉ ids (getDue true (run t ops) now) /\ i ∉ ids (getAwaitingConsentUnreminded true (run t ops) now).
Proof.
  revert t r. induction ops as [|op ops IH]; intros t r Hnd Hf Hp Ht Hr.
  - exists r. cbn [run foldl]. apply find_row_Some in Hf as Hin. destruct Hin as [Hin <-].
    assert (forall x, x ∈ t -> id x = id r -> unheld true x = false) as Hx.
    { intros x Hx E. rewrite (same_trigger t x r) by done. by apply paused_is_unheld. }
    split_and!; [done|by split_and!|..].
    + unfold findAcceptingWebhook. destruct (list_find _ t) as [[k x]|] eqn:E; [|done]. exfalso.
      apply list_find_Some in E as (Hk & [Hi Ha]%andb_true_iff & _). apply at_id_true in Hi. unfold accepts_delivery, accepts in Ha.
      rewrite (Hx x) in Ha; [by rewrite andb_false_r in Ha|by eapply list_elem_of_lookup_2|done].
    + intros now. split; unfold ids, getDue, getAwaitingConsentUnreminded, order_by; rewrite (merge_sort_Permutation _ _);
        intros (x & E & [Hd Hin']%list_elem_of_filter)%list_elem_of_fmap; symmetry in E; pose proof (Hx x Hin' E) as Hu.
      * unfold is_due, armed, accepts in Hd. rewrite Hu in Hd. cbn in Hd. by rewrite andb_false_r in Hd.
      * unfold awaits_consent in Hd. rewrite Hu, andb_false_r in Hd. done.
  - cbn in Ht. apply andb_true_iff in Ht as [Ht0 Ht]. apply negb_true_iff in Ht0. apply not_elem_of_cons in Hr as [Hr0 Hr].
    destruct (find_step t op i r Hnd Hf) as (r1 & Hf1 & Hs); [congruence|]. pose proof (pause_step _ _ _ Hs Ht0 Hp) as (P1 & P2 & P3).
    destruct (IH (step t op) r1) as (r' & Hf' & (Q1 & Q2 & Q3) & Hrest); [by apply step_ids_NoDup|done|by rewrite P1|done|done|].
    exists r'. split; [exact Hf'|]. split; [|exact Hrest]. split_and!; [congruence..|by etransitivity].
Qed.

(** *** Reminders *)

Lemma iso_not_falsy clock : falsy (Some (toISOString clock)) = false.
Proof. apply bool_decide_eq_false, iso_not_empty. Qed.

Lemma marker_step op r r' m : row_step op r r' -> unstamped r = true -> unstamped r' = true ->
  consent_reminded_at (consent r) = Some m -> consent_reminded_at (consent r') = Some m.
Proof.
  assert (forall stamp, unstamped r = true -> falsy stamp = true -> consent_reminded_at (consent r) = Some m ->
    keep_marker stamp (consent r) = Some m) as Hk.
  { intros stamp Hu Hs Hm. unfold keep_marker. unfold unstamped in Hu. by rewrite Hs, Hu. }
  intros Hs Hu Hu' Hm. destruct Hs; try done; try (by apply Hk).
  - revert Hu'. unfold mark_row. destruct editor, clear; intros Hu'; try done; by apply Hk.
  - rewrite set_fields_consent. unfold unstamped in Hu'. rewrite set_fields_consent in Hu'. unfold edit_unstamps in *.
    destruct (_ && _); [done|by apply Hk].
  - congruence.
  - unfold paused_row, pause_row. repeat case_match; done.
  - destruct (te_consent _ _ _ _ _ H) as [E|[_ E]]; [by rewrite E|]. unfold unstamped in Hu'. rewrite E in Hu'. cbn [confirmed_at] in Hu'.
    by rewrite iso_not_falsy in Hu'.
Qed.

(** Of all the engine processes that ask to remind the owner of a trigger without a stamp, one is told to per stretch in
    which the trigger stays without: after one was, no call in any process succeeds again as long as every state in between
    finds the trigger unstamped (edits of it do not open a new stretch) and it is not deleted. *)
Theorem one_reminder_per_phase t i a b ops :
  NoDup (ids t) -> (markConsentReminded t i a).2 = true -> ORemove i ∉ ops ->
  let t1 := (markConsentReminded t i a).1 in
  (forall k r, find_row (run t1 (take k ops)) i = Some r -> unstamped r = true) ->
  (markConsentReminded (run t1 ops) i b).2 = false.
Proof.
  intros Hnd Hb Hr t1 Hu. assert (NoDup (ids t1)) as Hnd1 by exact (step_ids_NoDup t (ORemind i a) Hnd).
  assert (exists r m, find_row t1 i = Some r /\ consent_reminded_at (consent r) = Some m) as Hm.
  { cbn in Hb. apply existsb_exists in Hb as (x & Hx%list_elem_of_In & Hp). pose proof Hp as [[Hi _]%andb_true_iff _]%andb_true_iff.
    apply at_id_true in Hi. eexists _, a. split.
    - rewrite <-Hi. change (id x) with (id (x <| consent -> consent_reminded_at := Some a |>)). apply find_trigger_in; [done|].
      unfold t1. apply list_elem_of_fmap. exists x. by rewrite Hp.
    - done. }
  clearbody t1. clear Hb t Hnd. revert t1 Hnd1 Hu Hm. induction ops as [|op ops IH]; intros t Hnd Hu (r & m & Hf & Hm).
  - unfold markConsentReminded, update_rows. cbn [snd run foldl]. apply not_true_iff_false. intros (x & Hx%list_elem_of_In & Hp)%existsb_exists.
    apply andb_true_iff in Hp as [[Hi Hn]%andb_true_iff _]. apply at_id_true in Hi. apply find_row_Some in Hf as [Hin Hir].
    rewrite (same_trigger t x r) in Hn by congruence. by rewrite Hm in Hn.
  - apply not_elem_of_cons in Hr as [Hr0 Hr]. destruct (find_step t op i r Hnd Hf) as (r1 & Hf1 & Hs); [congruence|].
    apply (IH Hr (step t op)); [by apply step_ids_NoDup| |].
    + intros k x Hx. by apply (Hu (S k)).
    + exists r1, m. split; [done|]. eapply marker_step; [done|by apply (Hu 0%nat)| |done]. apply (Hu 1%nat). by destruct ops.
Qed.

(** *** Waits *)

Definition is_waiting (t : Table) (i : string) : bool :=
  match find_row t i with Some r => bool_decide (status (sched r) = waiting) | None => false end.

(** How often a wait of the trigger was ended by a call that said so, and how often one began. *)
Fixpoint waits_ended (i : string) (t : Table) (ops : list Op) : nat :=
  match ops with
  | [] => 0
  | op :: ops => (match op with OEndWait j to now => if bool_decide (j = i) then Nat.b2n (endWait t j to now).2 else 0 | _ => 0 end +
      waits_ended i (step t op) ops)%nat
  end.
Fixpoint waits_begun (i : string) (t : Table) (ops : list Op) : nat :=
  match ops with
  | [] => 0
  | op :: ops => (Nat.b2n (negb (is_waiting t i) && is_waiting (step t op) i) + waits_begun i (step t op) ops)%nat
  end.

Lemma endWait_true t i to now : NoDup (ids t) -> to <> waiting -> (endWait t i to now).2 = true ->
  is_waiting t i = true /\ is_waiting (step t (OEndWait i to now)) i = false.
Proof.
  intros Hnd Hto Hb. cbn in Hb. apply existsb_exists in Hb as (x & Hx%list_elem_of_In & [Hi Hw]%andb_true_iff).
  apply at_id_true in Hi. assert (find_row t i = Some x) as Hf by (rewrite <-Hi; by apply find_trigger_in).
  unfold is_waiting. rewrite Hf. split; [done|]. destruct (find_step t (OEndWait i to now) i x Hnd Hf) as (r' & -> & Hs); [done|].
  inversion Hs as [op r Ha| | | | | | | | | | | | |? ? ? r Hr Hwait| | | | | | |]; subst.
  - cbn in Ha. rewrite (proj2 (at_id_true _ _) eq_refl), Hw in Ha. done.
  - cbn. by apply bool_decide_eq_false.
Qed.

(** A wait is ended once, however many calls race to end it, in this process or another: over every trace, of the calls on
    a trigger that were told they had ended its wait there are at most as many as waits that began. *)
Theorem a_wait_ends_once t i ops : NoDup (ids t) ->
  (forall j to now, OEndWait j to now ∈ ops -> to <> waiting) ->
  (waits_ended i t ops <= waits_begun i t ops + Nat.b2n (is_waiting t i))%nat.
Proof.
  revert t. induction ops as [|op ops IH]; intros t Hnd Hto; cbn [waits_ended waits_begun]; [lia|].
  specialize (IH (step t op) (step_ids_NoDup t op Hnd) ltac:(intros; eapply Hto; by right)).
  destruct (match op with OEndWait j to now => if bool_decide (j = i) then Nat.b2n (endWait t j to now).2 else 0%nat | _ => 0%nat end) as [|n] eqn:E.
  - destruct (is_waiting t i), (is_waiting (step t op) i); cbn in *; lia.
  - destruct op; try done. destruct (bool_decide (i0 = i)) eqn:Ei; [|done]. apply bool_decide_eq_true in Ei as ->.
    destruct (endWait t i to now).2 eqn:Eb; [|done]. cbn in E. injection E as <-.
    destruct (endWait_true t i to now Hnd) as [H1 H2]; [by eapply Hto; left|done|]. rewrite H1, H2 in *. cbn in *. lia.
Qed.
End Laws.

(** ** The theorems at work *)

Section Sample.
Open Scope string_scope.
(** A plan a helper's mandate set up, and its grant. *)
Definition sample_plan (stamp : option string) : InsertParams :=
  {| p_id := "t1"; p_title := "Weekly report"; p_description := Some "Write the report"; p_status := None; p_scopeType := None;
     p_scopeId := None; p_scheduleCron := None; p_nextRunAt := Some "2026-01-05T09:00:00.000Z"; p_source := Some cron;
     p_effect := Some run_agent; p_watchConfig := None; p_maxRetries := None; p_notificationChannel := None; p_pipelineId := None;
     p_pipelineParams := None; p_confirmedAt := stamp; p_createdUntrusted := None; p_createdBy := Some "mandate:ann@example.com";
     p_createdMandateId := Some "g1"; p_confirmedBy := None |}.
Definition sample_entry : PausedFor :=
  {| mandateId := "g1"; email := "ann@example.com"; reason := expired; endsAt := 1767600000; roles := [r_created];
     closedPrompt := false; warned := false |}.

Definition sample_run : Table -> list Op -> Table :=
  run (fun _ => NaN) (fun _ => None) (fun _ => "") (fun _ => "stamp") (fun _ => "text") (fun _ => "expect").
Definition sample_table (stamp : option string) : Table := sample_run [] [OInsert [] (sample_plan stamp) "2026-01-01T00:00:00.000Z"].

Lemma a_live_lease_is_exclusive_witness :
  let t := sample_table None in
  let t1 := (claimLease t "t1" "A" "2026-01-05T09:02:00.000Z" "2026-01-05T09:00:01.000Z").1 in
  let t2 := sample_run t1 [OClaim "t1" "B" "2026-01-05T09:03:00.000Z" "2026-01-05T09:01:30.000Z";
    ORenew "t1" "A" "2026-01-05T09:05:00.000Z"; OEnable "t1" false "2026-01-05T09:02:00.000Z"] in
  leaseOf t2 "t1" = Some (Some "A", Some "2026-01-05T09:05:00.000Z") /\
  claimLease t2 "t1" "B" "2026-01-05T09:06:00.000Z" "2026-01-05T09:04:00.000Z" = (t2, Held).
Proof.
  intros t t1 t2. destruct (a_live_lease_is_exclusive (fun _ => NaN) (fun _ => None) (fun _ => "") (fun _ => "stamp") (fun _ => "text")
    (fun _ => "expect") t "t1" "A" "2026-01-05T09:02:00.000Z" "2026-01-05T09:00:01.000Z"
    [OClaim "t1" "B" "2026-01-05T09:03:00.000Z" "2026-01-05T09:01:30.000Z"; ORenew "t1" "A" "2026-01-05T09:05:00.000Z";
     OEnable "t1" false "2026-01-05T09:02:00.000Z"] "2026-01-05T09:05:00.000Z") as [H1 H2];
    [apply NoDup_singleton|left; vm_compute; reflexivity|vm_compute; reflexivity|].
  split; [exact H1|]. apply H2. vm_compute. reflexivity.
Defined.

Lemma what_runs_was_stamped_witness :
  exists r, r ∈ getDue true (sample_table (Some "2026-01-01T00:00:00.000Z")) "2026-01-05T09:00:01.000Z" /\
    exists s ops1 op ops2 r0, confirmed_at (consent r) = Some s /\ s <> "" /\
      [OInsert [] (sample_plan (Some "2026-01-01T00:00:00.000Z")) "2026-01-01T00:00:00.000Z"] = (ops1 ++ op :: ops2)%list /\
      stamps (id r) s op /\ find_row (sample_run [] (ops1 ++ [op])%list) (id r) = Some r0 /\ same_instruction r0 r.
Proof.
  eexists. assert (forall x : Trigger, x ∈ [x]) as Hin by (intros; apply list_elem_of_singleton; reflexivity).
  split; [vm_compute; apply Hin|].
  apply (what_runs_was_stamped (fun _ => NaN) (fun _ => None) (fun _ => "") (fun _ => "stamp") (fun _ => "text") (fun _ => "expect") true
    [OInsert [] (sample_plan (Some "2026-01-01T00:00:00.000Z")) "2026-01-01T00:00:00.000Z"] "2026-01-05T09:00:01.000Z");
    [vm_compute; apply Hin|left; reflexivity].
Defined.

Lemma a_paused_plan_waits_for_its_owner_witness :
  let t := sample_run (sample_table (Some "2026-01-01T00:00:00.000Z")) [OPause "t1" [sample_entry] 1767600000 1767600000] in
  let ops := [OConfirm "t1" (Some "2026-01-05T08:00:00.000Z") None None "2026-01-05T08:00:00.000Z";
    OUpdate "t1" (no_update <| u_status := Some open_ |>) [] "2026-01-05T08:30:00.000Z"] in
  exists r r', find_row t "t1" = Some r /\ find_row (sample_run t ops) "t1" = Some r' /\ pause_kept r r' /\
    findAcceptingWebhook true (sample_run t ops) "t1" = None /\
    forall now, "t1" ∉ ids (getDue true (sample_run t ops) now) /\ "t1" ∉ ids (getAwaitingConsentUnreminded true (sample_run t ops) now).
Proof.
  intros t ops. eexists.
  edestruct (a_paused_plan_waits_for_its_owner (fun _ => NaN) (fun _ => None) (fun _ => "") (fun _ => "stamp") (fun _ => "text")
    (fun _ => "expect") t "t1") with (ops := ops) as (r' & H);
    [apply NoDup_singleton|vm_compute; reflexivity|eexists; vm_compute; reflexivity|reflexivity|set_solver|].
  exists r'. split; [vm_compute; reflexivity|exact H].
Defined.

Lemma one_reminder_per_phase_witness :
  let t := sample_table None in
  let t1 := (markConsentReminded t "t1" "2026-01-05T09:00:01.000Z").1 in
  let ops := [OUpdate "t1" (no_update <| u_title := Some "Monthly report" |>) [] "2026-01-05T10:00:00.000Z"] in
  (markConsentReminded t "t1" "2026-01-05T09:00:01.000Z").2 = true /\
  (markConsentReminded (sample_run t1 ops) "t1" "2026-01-05T11:00:00.000Z").2 = false.
Proof.
  intros t t1 ops. split; [vm_compute; reflexivity|].
  apply (one_reminder_per_phase (fun _ => NaN) (fun _ => None) (fun _ => "") (fun _ => "stamp") (fun _ => "text") (fun _ => "expect")
    t "t1" "2026-01-05T09:00:01.000Z");
    [apply NoDup_singleton|vm_compute; reflexivity|set_solver|].
  intros [|k] r; [|destruct k]; vm_compute; intros [= <-]; reflexivity.
Defined.

Lemma a_wait_ends_once_witness :
  let t := sample_run (sample_table None) [OUpdate "t1" (no_update <| u_status := Some waiting |>) [] "2026-01-05T09:00:00.000Z"] in
  let ops := [OEndWait "t1" failed "2026-01-05T10:00:00.000Z"; OEndWait "t1" open_ "2026-01-05T10:00:01.000Z"] in
  waits_ended (fun _ => NaN) (fun _ => None) (fun _ => "") (fun _ => "stamp") (fun _ => "text") (fun _ => "expect") "t1" t ops = 1%nat /\
  (waits_ended (fun _ => NaN) (fun _ => None) (fun _ => "") (fun _ => "stamp") (fun _ => "text") (fun _ => "expect") "t1" t ops <=
   waits_begun (fun _ => NaN) (fun _ => None) (fun _ => "") (fun _ => "stamp") (fun _ => "text") (fun _ => "expect") "t1" t ops +
     Nat.b2n (is_waiting t "t1"))%nat.
Proof.
  intros t ops. split; [vm_compute; reflexivity|].
  apply (a_wait_ends_once (fun _ => NaN) (fun _ => None) (fun _ => "") (fun _ => "stamp") (fun _ => "text") (fun _ => "expect"));
    [apply NoDup_singleton|].
  intros j to now [[= _ -> _]|[[= _ -> _]|[]%elem_of_nil]%elem_of_cons]%elem_of_cons; discriminate.
Defined.
End Sample.
