(* ===== verification/PlanLaws.v ===== *)
(** What a takeover of a paused plan does and what the sweeps of [PlanPause] pause: the theorems about the definitions
    of [PlanTakeover] and [PlanPause], over the lemmas of [TriggerLaws]. *)
From coqutil Require Import Datatypes.RecordSetters.
From S2P Require Import Prelude Num JsString JsValue Cron Graph Principal IsoTime Triggers PlanPause PlanTakeover TriggerLaws.
Import TriangleBracketNotations.
Open Scope Z_scope.

(** ** The takeover *)

Section Takeover.
Variable Date_parse : string -> num.
Variable JSON_parse : string -> option jval.
Variable num_text : Q -> string.
Variable digest_stamp : StampSubject -> string.
Variable digest_text : string -> string.
Variable digest : Subject -> string.

Abbreviation planOf := (planOf Date_parse JSON_parse num_text digest_stamp digest_text).
Abbreviation takeover_tx := (takeover_tx Date_parse JSON_parse num_text digest_stamp digest_text digest).
Abbreviation takeOver := (takeOver true Date_parse JSON_parse num_text digest_stamp digest_text digest).
Abbreviation takeoverPreview := (takeoverPreview true Date_parse JSON_parse num_text digest_stamp digest_text digest).
Abbreviation release_all := (release_all Date_parse).
Abbreviation reschedule := (reschedule Date_parse).

(** *** Releases *)

Definition next_of (r : Trigger) (now : Z) : option (option string) := match reschedule r now with Ok n => n | Err _ => None end.
Definition freed (rs : list Trigger) (now : Z) (stamped : string) (x : Trigger) : Trigger :=
  match find_row rs (id x) with Some r => released_row r (next_of r now) (toISOString now) stamped x | None => x end.

Lemma released_row_id r next now stamped x : id (released_row r next now stamped x) = id x.
Proof. apply (released_row_effect r next now stamped x). Qed.

Lemma released_row_pause r next now stamped x : pause (released_row r next now stamped x) = unpaused (pause x).
Proof. unfold released_row. destruct next; repeat case_match; done. Qed.

Lemma released_row_authors r next now stamped x :
  authors (released_row r next now stamped x) = authors x /\ created_at (released_row r next now stamped x) = created_at x.
Proof. unfold released_row. destruct next; repeat case_match; done. Qed.

Lemma find_row_cons r rs i : find_row (r :: rs) i = if at_id i r then Some r else find_row rs i.
Proof.
  unfold find_row, at_id. cbn. destruct (decide (id r = i)) as [E|E]; [by rewrite bool_decide_eq_true_2|].
  rewrite bool_decide_eq_false_2 by done. by destruct (list_find _ rs) as [[k x]|].
Qed.

(** Releases of different plans are one pass over the table. *)
Lemma release_all_map rs now stamped t t' : NoDup (ids rs) -> release_all t rs now stamped = Ok t' -> t' = freed rs now stamped <$> t.
Proof.
  unfold PlanTakeover.release_all. revert t. induction rs as [|r rs IH]; intros t Hnd Hm; cbn [foldl] in Hm.
  - injection Hm as <-. unfold freed. cbn. symmetry. apply list_fmap_id.
  - apply NoDup_cons in Hnd as [Hr Hnd]. cbn in Hm. unfold release in Hm at 2. destruct (reschedule r now) as [next|e] eqn:En; cbn in Hm.
    + apply IH in Hm as ->; [|done]. unfold update_rows. cbn. rewrite <-list_fmap_compose. apply list_fmap_ext. intros k x _.
      unfold compose, freed. rewrite find_row_cons. destruct (at_id (id r) x) eqn:E.
      * apply at_id_true in E. rewrite released_row_id, E. rewrite (proj2 (at_id_true _ _)) by done.
        rewrite (proj2 (find_trigger_None rs (id r))) by done. unfold next_of. by rewrite En.
      * replace (at_id (id x) r) with false; [done|]. symmetry. apply not_true_iff_false. intros H%at_id_true.
        apply not_true_iff_false in E. apply E. by apply at_id_true.
    + exfalso. clear -Hm. induction rs as [|r' rs IH]; cbn in Hm; done.
Qed.

(** *** What a plan of a takeover is *)

Definition mark_of (wf : option WorkflowRow) : option PlanMandate := wf ≫= fun w => planMandate Date_parse (wf_authorship w).
(** The workflow a run of the row would read. *)
Definition workflow_in (ws : list WorkflowRow) (r : Trigger) : option WorkflowRow :=
  w ← named_workflow r; snd <$> list_find (fun x => wf_id x = w) ws.

Record plan_of (d : Reads) (i : string) (p : TakeoverPlan) : Prop := {
  po_in : tp_trigger p ∈ rd_triggers d;
  po_id : id (tp_trigger p) = i;
  po_paused : is_Some (paused_at (pause (tp_trigger p)));
  po_wf : tp_wf p = workflow_in (rd_workflows d) (tp_trigger p);
  po_covers : coverWorkflow p = match mark_of (tp_wf p) with
    | Some k => holds k (pausedForIds (tp_trigger p)) (paused_db_at (pause (tp_trigger p))) (rd_isLive d) | None => false end;
  po_runs : runsAs p = match mark_of (tp_wf p) with Some k => if coverWorkflow p then Owner else principal k | None => Owner end;
  po_released : released p = [] \/ coverWorkflow p = true /\ exists w cs, tp_wf p = Some w /\
    others_of Date_parse d (mark_of (tp_wf p)) (other_plans (rd_triggers d) (wf_id w) i) = Some (cs, released p) }.

Lemma getById_in t i r : getById t i [] = Some r -> r ∈ t.
Proof.
  unfold getById. case_bool_decide; [done|]. destruct (list_find _ t) as [[k x]|] eqn:E.
  - intros [= <-]. apply list_find_Some in E as (Hk & _). by eapply list_elem_of_lookup_2.
  - match goal with |- context [list_find ?P t] => destruct (list_find P t) as [[k x]|] eqn:E' end; cbn; [|done]. intros [= <-].
    apply list_find_Some in E' as (Hk & _). by eapply list_elem_of_lookup_2.
Qed.

Lemma getById_exact t i r x : NoDup (ids t) -> find_row t i = Some r -> getById t i [] = Some x -> x = r.
Proof.
  intros Hnd Hf. apply find_row_Some in Hf as [Hr Hi]. unfold getById. case_bool_decide; [done|].
  destruct (list_find _ t) as [[k y]|] eqn:E.
  - intros [= <-]. apply list_find_Some in E as (Hk & [Hy _]%andb_true_iff & _). apply at_id_true in Hy.
    apply (same_trigger t); [done|by eapply list_elem_of_lookup_2|done|congruence].
  - apply list_find_None in E. rewrite Forall_forall in E. exfalso. apply (E r Hr). rewrite (proj2 (at_id_true i r) Hi). done.
Qed.

Lemma planOf_spec d i p : planOf d i = Plan p -> plan_of d i p.
Proof.
  unfold PlanTakeover.planOf. destruct (getById (rd_triggers d) i []) as [r|] eqn:Eg; [|done]. apply getById_in in Eg.
  case_bool_decide as Ei; [|done]. cbn [negb]. destruct (match effect (what r) with bulk_apply => _ | _ => _ end); [done|].
  destruct (_ || _) eqn:Ep; [done|]. apply orb_false_iff in Ep as [Ep _].
  destruct (match named_workflow r with Some w => _ | None => _ end) as [wf|] eqn:Ew; [|done]. destruct (is_running d r); [done|].
  destruct (match wf with Some w => _ | None => _ end) as [[cs rel]|] eqn:Eo; [|done]. intros [= <-]. split; cbn; try done.
  - by destruct (paused_at (pause r)).
  - unfold workflow_in. destruct (named_workflow r) as [w|]; cbn; [|congruence]. unfold workflowRowOf in Ew.
    destruct (rd_readable d w); congruence.
  - destruct wf as [w|]; [|left; congruence]. unfold mark_of. cbn in *.
    destruct (match planMandate _ _ with Some k => _ | None => _ end) eqn:Ec; [|left; congruence]. right. split; [done|]. by exists w, cs.
Qed.

(** *** Who a plan depends on after it *)

(** Everyone a run of the plan depends on, as its gate counts them. *)
Definition dependents (ws : list WorkflowRow) (r : Trigger) : PlanMembership := membership_with Date_parse r (workflow_in ws r).
Definition runs_for (ws : list WorkflowRow) (r : Trigger) : RequestPrincipal :=
  default Owner (planMembers (planMandate Date_parse (authorship r)) (mark_of (workflow_in ws r))).1.

Lemma sameMark_self m : isMandateTag (m_tag m) && negb (sameMark m m) = false.
Proof. destruct m as [[t|] i a]; [|done]. unfold sameMark. cbn. rewrite !bool_decide_eq_true_2 by done. cbn. by rewrite andb_false_r. Qed.

Lemma covered_mandate a : covered_created a = created a -> covered_edited a = mandate_edited a -> planMandate Date_parse a = None.
Proof. intros Hc He. unfold planMandate, editorCovered, creatorCovered. by rewrite Hc, He, !sameMark_self. Qed.

Lemma not_held_live m ids_ s isLive : holds m ids_ s isLive = false -> principalHasEnded (principal m) isLive = false.
Proof. unfold holds. by destruct (principalHasEnded _ _). Qed.

Lemma dependents_live ws r isLive :
  (forall m, planMandate Date_parse (authorship r) = Some m -> principalHasEnded (principal m) isLive = false) ->
  (forall m, mark_of (workflow_in ws r) = Some m -> principalHasEnded (principal m) isLive = false) ->
  members_live isLive (members (dependents ws r)) = true.
Proof.
  intros Ht Hw. unfold dependents, membership_with, members_live, mark_of in *. cbn.
  destruct (planMandate Date_parse (authorship r)) as [a|], (workflow_in ws r ≫= _) as [b|]; cbn; rewrite ?Ht, ?Hw by done; done.
Qed.

(** The workflows after a takeover. *)
Definition covered_ws (d : Reads) (p : TakeoverPlan) : list WorkflowRow :=
  match tp_wf p with
  | Some w => if coverWorkflow p
      then (fun x => if decide (wf_id x = wf_id w) then cover_workflow (rd_now d / 1000) x else x) <$> rd_workflows d else rd_workflows d
  | None => rd_workflows d end.

Lemma list_find_map {A B} (P : B -> Prop) (Q : A -> Prop) `{!forall x, Decision (P x), !forall x, Decision (Q x)} (f : A -> B) l :
  (forall x, P (f x) <-> Q x) -> snd <$> list_find P (f <$> l) = f <$> (snd <$> list_find Q l).
Proof.
  intros HPQ. induction l as [|x l IH]; [done|]. cbn. destruct (decide (P (f x))), (decide (Q x)); [done|naive_solver..|].
  cbn in IH. destruct (list_find P _) as [[]|], (list_find Q _) as [[]|]; cbn in *; congruence.
Qed.

Lemma workflow_in_id ws r w : workflow_in ws r = Some w -> named_workflow r = Some (wf_id w).
Proof.
  unfold workflow_in. destruct (named_workflow r) as [x|]; [|done]. cbn. destruct (list_find _ ws) as [[k y]|] eqn:E; [|done].
  intros [= <-]. apply list_find_Some in E as (_ & -> & _). done.
Qed.

Lemma covered_workflow d p o w : coverWorkflow p = true -> tp_wf p = Some w -> named_workflow o = Some (wf_id w) ->
  mark_of (workflow_in (covered_ws d p) o) = None.
Proof.
  intros Hc Hw Hn. unfold workflow_in, covered_ws. rewrite Hw, Hc, Hn. cbn.
  rewrite (list_find_map (fun x => wf_id x = wf_id w) (fun x => wf_id x = wf_id w)) by (intros x; by destruct (decide _)).
  destruct (list_find _ (rd_workflows d)) as [[k y]|] eqn:E; [|done]. cbn. apply list_find_Some in E as (_ & Hy & _).
  rewrite decide_True by done. by apply covered_mandate.
Qed.

Lemma uncovered_workflow d p o : coverWorkflow p = false -> workflow_in (covered_ws d p) o = workflow_in (rd_workflows d) o.
Proof. intros Hc. unfold covered_ws. rewrite Hc. by destruct (tp_wf p). Qed.

(** *** The released plans *)

Lemma others_of_released d k l cs rs o : others_of Date_parse d k l = Some (cs, rs) -> o ∈ rs ->
  o ∈ l /\ released_too Date_parse d o = true.
Proof.
  revert cs rs. induction l as [|x l IH]; intros cs rs; cbn; [intros [= <- <-]; by intros []%elem_of_nil|].
  destruct (change_of _ _ x) as [c|].
  - destruct (released_too _ d x) eqn:Er; cbn.
    + destruct (is_running d x); [done|]. destruct (others_of _ d k l) as [[cs' rs']|]; [|done]. intros [= <- <-].
      intros [->|H]%elem_of_cons; [split; [by left|done]|]. edestruct IH; [done..|]. split; [by right|done].
    + destruct (others_of _ d k l) as [[cs' rs']|]; [|done]. intros [= <- <-] H. edestruct IH; [done..|]. split; [by right|done].
  - intros H Ho. edestruct IH; [done..|]. split; [by right|done].
Qed.

Lemma others_of_sub d k l cs rs : others_of Date_parse d k l = Some (cs, rs) -> rs `sublist_of` l.
Proof.
  revert cs rs. induction l as [|x l IH]; intros cs rs; cbn; [by intros [= <- <-]|]. destruct (change_of _ _ x) as [c|].
  - destruct (_ && _); [done|]. destruct (others_of _ d k l) as [[cs' rs']|]; [|done]. intros [= <- <-].
    destruct (released_too _ d x); [apply sublist_skip|apply sublist_cons]; eauto.
  - intros H. apply sublist_cons. eauto.
Qed.

Lemma other_plans_in t w i o : o ∈ other_plans t w i -> o ∈ t /\ id o <> i /\ target_workflow_id (what o) = Some w.
Proof.
  unfold other_plans, order_by. rewrite (merge_sort_Permutation _ _). intros [[[Hw Hi]%andb_true_iff _]%andb_true_iff Ho]%list_elem_of_filter.
  apply bool_decide_eq_true in Hw. apply negb_true_iff, not_true_iff_false in Hi. split_and!; try done. intros E. by apply Hi, at_id_true.
Qed.

Lemma ids_sublist rs l : rs `sublist_of` l -> NoDup (ids l) -> NoDup (ids rs).
Proof. intros Hs Hnd. apply (sublist_NoDup _ _ Hnd). clear Hnd. unfold ids. induction Hs; cbn; by constructor. Qed.

Lemma other_plans_NoDup t w i : NoDup (ids t) -> NoDup (ids (other_plans t w i)).
Proof.
  intros Hnd. unfold ids, other_plans, order_by. rewrite (merge_sort_Permutation _ _). eapply ids_sublist; [|done]. apply sublist_filter.
Qed.

(** *** The table after a takeover *)

(** The rows a takeover frees, the plan and the ones released with it, as it writes them. *)
Definition confirmed_row (i now stamped : string) (x : Trigger) : Trigger :=
  if at_id i x then x <| consent := {| confirmed_at := Some now; confirmed_by := Some OWNER_TAG;
      consent_reminded_at := keep_marker (Some now) (consent x); stamp_connections := None |} |>
    <| authors -> edited_by := Some OWNER_TAG |> <| updated_at := stamped |> else x.
Definition taken_row (d : Reads) (i stamped : string) (p : TakeoverPlan) (x : Trigger) : Trigger :=
  confirmed_row i (toISOString (rd_now d)) stamped (freed (tp_trigger p :: released p) (rd_now d) stamped
    (if at_id i x then cover_trigger (rd_now d / 1000) x else x)).

Lemma freed_id rs now stamped x : id (freed rs now stamped x) = id x.
Proof. unfold freed. destruct (find_row _ _); [apply released_row_id|done]. Qed.

Lemma taken_row_id d i stamped p x : id (taken_row d i stamped p x) = id x.
Proof.
  unfold taken_row. transitivity (id (freed (tp_trigger p :: released p) (rd_now d) stamped
    (if at_id i x then cover_trigger (rd_now d / 1000) x else x))); [unfold confirmed_row; by destruct (at_id i _)|].
  rewrite freed_id. by destruct (at_id i x).
Qed.

Lemma released_NoDup d i p : NoDup (ids (rd_triggers d)) -> plan_of d i p -> NoDup (ids (tp_trigger p :: released p)).
Proof.
  intros Hnd Hp. destruct (po_released _ _ _ Hp) as [->|(_ & w & cs & _ & Ho)]; [apply NoDup_singleton|]. apply NoDup_cons. split.
  - intros (o & E & Hin)%list_elem_of_fmap. destruct (others_of_released _ _ _ _ _ _ Ho Hin) as [[_ [Hi _]]%other_plans_in _].
    apply Hi. rewrite <-E. apply (po_id _ _ _ Hp).
  - eapply ids_sublist; [by eapply others_of_sub|]. by apply other_plans_NoDup.
Qed.

(** A transaction that takes over writes exactly this; every other leaves both tables as they are. *)
Lemma takeover_tx_spec d i expect audit stamped t' ws' res : NoDup (ids (rd_triggers d)) ->
  takeover_tx d i expect audit stamped = (t', ws', res) ->
  (exists p after, planOf d i = Plan p /\ digest (subject p) = expect /\ res = Ok (TakenOver after (principalTag (runsAs p))) /\
     t' = taken_row d i stamped p <$> rd_triggers d /\ ws' = covered_ws d p /\ find_row t' i = Some after) \/
  (forall after runs_as, res <> Ok (TakenOver after runs_as)) /\ t' = rd_triggers d /\ ws' = rd_workflows d.
Proof.
  intros Hnd. unfold PlanTakeover.takeover_tx. destruct (planOf d i) as [p| |] eqn:Ep; [|intros [= <- <- <-]; by right..].
  case_bool_decide as Ee; cbn [negb]; [|intros [= <- <- <-]; by right]. destruct (release_all _ _ _ _) as [t1|] eqn:E1; [|intros [= <- <- <-]; by right].
  apply planOf_spec in Ep as Hp.
  assert ((setConfirmedAt t1 i (Some (toISOString (rd_now d))) (Some (principalTag Owner)) None stamped).1
    = taken_row d i stamped p <$> rd_triggers d) as ->.
  { apply release_all_map in E1 as ->; [|by apply (released_NoDup d i)]. unfold setConfirmedAt, update_rows. cbn [fst].
    rewrite <-!list_fmap_compose. done. }
  destruct audit; cbn [negb]; [|intros [= <- <- <-]; by right]. destruct (getById _ i []) as [after|] eqn:Eg; [|intros [= <- <- <-]; by right].
  intros [= <- <- <-]. left. exists p, after. split_and!; try done.
  assert (ids (taken_row d i stamped p <$> rd_triggers d) = ids (rd_triggers d)) as Hids.
  { unfold ids. rewrite <-list_fmap_compose. apply list_fmap_ext. intros k x _. apply taken_row_id. }
  assert (find_row (taken_row d i stamped p <$> rd_triggers d) i = Some (taken_row d i stamped p (tp_trigger p))) as Hf.
  { pose proof (po_id _ _ _ Hp) as Hi. rewrite <-(taken_row_id d i stamped p) in Hi. rewrite <-Hi at 2. apply find_trigger_in; [by rewrite Hids|].
    apply list_elem_of_fmap_2, (po_in _ _ _ Hp). }
  f_equal. rewrite Hf. f_equal. symmetry. eapply getById_exact; [by rewrite Hids|exact Hf|exact Eg].
Qed.

Lemma released_row_same r next now stamped x : let y := released_row r next now stamped x in
  what y = what x /\ consent y = consent x /\ authorship y = authorship x.
Proof.
  intros y. destruct (released_row_effect r next now stamped x) as (_ & W & C & _). split_and!; [done..|].
  unfold authorship, y. by destruct (released_row_authors r next now stamped x) as [-> ->].
Qed.

(** The plan itself. *)
Lemma taken_own d i stamped p : plan_of d i p -> let y := taken_row d i stamped p (tp_trigger p) in
  what y = what (tp_trigger p) /\ paused_at (pause y) = None /\ confirmed_at (consent y) = Some (toISOString (rd_now d)) /\
  confirmed_by (consent y) = Some OWNER_TAG /\ planMandate Date_parse (authorship y) = None.
Proof.
  intros Hp y. pose proof (po_id _ _ _ Hp) as Hi. set (r := tp_trigger p) in *. set (c := cover_trigger (rd_now d / 1000) r).
  set (f := released_row r (next_of r (rd_now d)) (toISOString (rd_now d)) stamped c).
  assert (y = confirmed_row i (toISOString (rd_now d)) stamped f) as ->.
  { unfold y, taken_row, freed. rewrite (proj2 (at_id_true i r) Hi). fold c r. rewrite find_row_cons.
    replace (at_id (id c) r) with true; [done|]. symmetry. by apply at_id_true. }
  destruct (released_row_same r (next_of r (rd_now d)) (toISOString (rd_now d)) stamped c) as (Hw & Hc & Ha). fold f in Hw, Hc, Ha.
  unfold confirmed_row. assert (at_id i f = true) as -> by (apply at_id_true; unfold f; by rewrite released_row_id).
  assert (authorship (f <| consent := {| confirmed_at := Some (toISOString (rd_now d)); confirmed_by := Some OWNER_TAG;
      consent_reminded_at := keep_marker (Some (toISOString (rd_now d))) (consent f); stamp_connections := None |} |>
    <| authors -> edited_by := Some OWNER_TAG |> <| updated_at := stamped |>) = authorship f) as -> by done.
  rewrite Ha. split_and!; [exact Hw| |reflexivity..|by apply covered_mandate].
  transitivity (paused_at (pause f)); [reflexivity|]. unfold f. by rewrite released_row_pause.
Qed.

(** Another plan: its row stays, or it is one the takeover releases. *)
Lemma taken_other d i stamped p x : plan_of d i p -> NoDup (ids (rd_triggers d)) -> x ∈ rd_triggers d -> id x <> i ->
  let y := taken_row d i stamped p x in
  y = x \/ id x ∈ ids (released p) /\ coverWorkflow p = true /\ released_too Date_parse d x = true /\
    (exists w, tp_wf p = Some w /\ target_workflow_id (what x) = Some (wf_id w)) /\
    what y = what x /\ consent y = consent x /\ authorship y = authorship x /\ paused_at (pause y) = None.
Proof.
  intros Hp Hnd Hx Hi y. assert (forall z, id z = id x -> at_id i z = false) as Hat.
  { intros z Hz. apply not_true_iff_false. intros H%at_id_true. congruence. }
  assert (y = freed (released p) (rd_now d) stamped x) as ->.
  { unfold y, taken_row. rewrite (Hat x) by done. unfold confirmed_row. rewrite Hat by apply freed_id. unfold freed. rewrite find_row_cons.
    replace (at_id (id x) (tp_trigger p)) with false; [done|]. symmetry. apply not_true_iff_false. intros H%at_id_true.
    rewrite (po_id _ _ _ Hp) in H. congruence. }
  unfold freed. destruct (find_row (released p) (id x)) as [o|] eqn:Eo; [|by left]. right. apply find_row_Some in Eo as [Ho Eo].
  destruct (po_released _ _ _ Hp) as [E|(Hc & w & cs & Hw & Hot)]; [rewrite E in Ho; by apply elem_of_nil in Ho|].
  destruct (others_of_released _ _ _ _ _ _ Hot Ho) as [(Hin & _ & Ht)%other_plans_in Hr].
  assert (o = x) as -> by (apply (same_trigger (rd_triggers d)); congruence).
  pose proof (released_row_same x (next_of x (rd_now d)) (toISOString (rd_now d)) stamped x) as (? & ? & ?).
  split_and!; try done; [by apply list_elem_of_fmap_2|by exists w|by rewrite released_row_pause].
Qed.

Lemma named_same a b : what a = what b -> named_workflow a = named_workflow b.
Proof. unfold named_workflow. by intros ->. Qed.
Lemma workflow_in_same ws a b : what a = what b -> workflow_in ws a = workflow_in ws b.
Proof. unfold workflow_in. intros H. by rewrite (named_same a b). Qed.

(** C16. A takeover puts the plan back under its owner, whole or not at all. When it succeeds, the plan is not paused any more and
    carries the owner's stamp of that moment over the same instruction; everyone a run of it depends on from then on is live
    (its own marks and, where their author's access is gone, the workflow's are covered), and the party it then acts for is
    the one the answer names. Every other plan keeps its row, or was paused and is not any more, and everyone that one
    depends on is then live too. When it does not succeed, for whatever reason, neither table changes. *)
Theorem a_takeover_frees_whole_plans d i expect audit stamped t' ws' res : NoDup (ids (rd_triggers d)) ->
  takeover_tx d i expect audit stamped = (t', ws', res) ->
  (exists before after, res = Ok (TakenOver after (principalTag (runs_for ws' after))) /\
     find_row (rd_triggers d) i = Some before /\ find_row t' i = Some after /\
     is_Some (paused_at (pause before)) /\ paused_at (pause after) = None /\ what after = what before /\
     confirmed_at (consent after) = Some (toISOString (rd_now d)) /\ confirmed_by (consent after) = Some OWNER_TAG /\
     members_live (rd_isLive d) (members (dependents ws' after)) = true /\
     forall x, x ∈ rd_triggers d -> id x <> i -> exists x', find_row t' (id x) = Some x' /\
       (x' = x \/ is_Some (paused_at (pause x)) /\ paused_at (pause x') = None /\ what x' = what x /\ consent x' = consent x /\
          members_live (rd_isLive d) (members (dependents ws' x')) = true)) \/
  (forall after runs_as, res <> Ok (TakenOver after runs_as)) /\ t' = rd_triggers d /\ ws' = rd_workflows d.
Proof.
  intros Hnd Htx. destruct (takeover_tx_spec _ _ _ _ _ _ _ _ Hnd Htx) as [(p & after & Ep & _ & -> & -> & -> & Hf)|H]; [left|by right].
  apply planOf_spec in Ep as Hp. pose proof (po_in _ _ _ Hp) as Hin. pose proof (po_id _ _ _ Hp) as Hi.
  destruct (taken_own d i stamped p Hp) as (Tw & Tp & Tc & Tb & Tm). set (y := taken_row d i stamped p (tp_trigger p)) in *.
  assert (forall x, x ∈ rd_triggers d -> find_row (taken_row d i stamped p <$> rd_triggers d) (id x) = Some (taken_row d i stamped p x)) as Hfx.
  { intros x Hx. rewrite <-(taken_row_id d i stamped p x). apply find_trigger_in; [|by apply list_elem_of_fmap_2].
    unfold ids. rewrite <-list_fmap_compose. erewrite list_fmap_ext; [exact Hnd|]. intros k z _. apply taken_row_id. }
  assert (after = y) as -> by (specialize (Hfx _ Hin); rewrite Hi in Hfx; unfold y; congruence).
  pose proof (po_covers _ _ _ Hp) as Hc. pose proof (po_wf _ _ _ Hp) as Hwf. pose proof (po_runs _ _ _ Hp) as Hruns.
  assert (mark_of (workflow_in (covered_ws d p) y) = if coverWorkflow p then None else mark_of (tp_wf p)) as Hmark.
  { rewrite (workflow_in_same _ y (tp_trigger p) Tw). destruct (coverWorkflow p) eqn:Ec.
    - destruct (tp_wf p) as [w|] eqn:Ew; [|done]. eapply covered_workflow; [done..|]. eapply workflow_in_id. by symmetry.
    - by rewrite uncovered_workflow, Hwf. }
  assert (runsAs p = runs_for (covered_ws d p) y) as Hr.
  { unfold runs_for. rewrite Tm, Hmark, Hruns. destruct (mark_of (tp_wf p)) as [k|], (coverWorkflow p); done. }
  exists (tp_trigger p), y. rewrite Hr. split_and!; try done; [rewrite <-Hi; by apply find_trigger_in|apply (po_paused _ _ _ Hp)|..].
  - apply dependents_live; [by rewrite Tm|]. rewrite Hmark. destruct (coverWorkflow p); [done|]. intros m Hm. rewrite Hm in Hc.
    by eapply not_held_live.
  - intros x Hx Hxi. exists (taken_row d i stamped p x). split; [by apply Hfx|].
    destruct (taken_other d i stamped p x Hp Hnd Hx Hxi) as [->|(_ & Hcov & Hrel & (w & Hw & Ht) & E1 & E2 & E3 & E4)]; [by left|right].
    unfold released_too in Hrel. apply andb_true_iff in Hrel as [Hpa Hh]. split_and!; try done.
    + by destruct (paused_at (pause x)).
    + apply dependents_live.
      * rewrite E3. intros m Hm. rewrite Hm in Hh. apply negb_true_iff in Hh. by eapply not_held_live.
      * rewrite (workflow_in_same _ _ x E1). intros m Hm. exfalso. unfold workflow_in in Hm.
        destruct (named_workflow x) as [n|] eqn:En; [|done]. assert (n = wf_id w) as ->.
        { unfold named_workflow in En. rewrite Ht in En. case_bool_decide; [|done]. unfold or_null in En. destruct (falsy _); congruence. }
        pose proof (covered_workflow d p x w Hcov Hw En) as Hnone. unfold workflow_in in Hnone. rewrite En in Hnone. cbn in *. congruence.
Qed.

(** *** The preview *)

(** What [planOf] digests of its own answer. *)
Definition subject_of (d : Reads) (p : TakeoverPlan) : Subject :=
  let r := tp_trigger p in
  {| e_stamp := digest_stamp (stamp_subject JSON_parse num_text r (workflowConfirmedAt JSON_parse (tp_wf p)) (connections p));
     e_status := status (sched r); e_next := next_run_at (sched r); e_paused_at := paused_at (pause r);
     e_paused_for := paused_for (pause r); e_marks := marks_of (authorship r);
     e_workflow := (fun w => (wf_id w, wf_name w, digest_text (definition_json w), marks_of (wf_authorship w))) <$> tp_wf p;
     e_covers := coverWorkflow p; e_runsAs := principalTag (runsAs p); e_changes := memberChanges p;
     e_released := (fun o => (id o, title (what o), status (sched o), next_run_at (sched o), paused_for (pause o))) <$> released p;
     e_schedule := schedule p; e_dueAt := dueAt p |}.

Lemma planOf_subject d i p : planOf d i = Plan p -> subject p = subject_of d p.
Proof.
  unfold PlanTakeover.planOf. destruct (getById (rd_triggers d) i []) as [r|]; [|done]. case_bool_decide; [|done]. cbn [negb].
  destruct (match effect (what r) with bulk_apply => _ | _ => _ end); [done|]. destruct (_ || _); [done|].
  destruct (match named_workflow r with Some w => _ | None => _ end) as [wf|]; [|done]. destruct (is_running d r); [done|].
  destruct (match wf with Some w => _ | None => _ end) as [[cs rel]|]; [|done]. intros [= <-]. reflexivity.
Qed.

(** What the owner decides on: the instruction, who set it up and changed it, the pause, the workflow and its text, whether
    the workflow is taken over too, whom it then acts for, which other plans change or are freed, and when it runs. *)
Record same_offer (p q : TakeoverPlan) : Prop := {
  so_text : title (what (tp_trigger p)) = title (what (tp_trigger q)) /\
    description (what (tp_trigger p)) = description (what (tp_trigger q));
  so_effect : effect (what (tp_trigger p)) = effect (what (tp_trigger q)) /\
    target_workflow_id (what (tp_trigger p)) = target_workflow_id (what (tp_trigger q)) /\
    pipeline_params (tp_trigger p) = pipeline_params (tp_trigger q);
  so_when : schedule_cron (condition (what (tp_trigger p))) = schedule_cron (condition (what (tp_trigger q))) /\
    next_run_at (sched (tp_trigger p)) = next_run_at (sched (tp_trigger q)) /\ schedule p = schedule q /\ dueAt p = dueAt q;
  so_marks : marks_of (authorship (tp_trigger p)) = marks_of (authorship (tp_trigger q));
  so_pause : paused_at (pause (tp_trigger p)) = paused_at (pause (tp_trigger q)) /\
    paused_for (pause (tp_trigger p)) = paused_for (pause (tp_trigger q));
  so_workflow : (fun w => (wf_id w, wf_name w, definition_json w)) <$> tp_wf p = (fun w => (wf_id w, wf_name w, definition_json w)) <$> tp_wf q;
  so_covers : coverWorkflow p = coverWorkflow q /\ principalTag (runsAs p) = principalTag (runsAs q);
  so_others : memberChanges p = memberChanges q /\
    (fun o => (id o, title (what o))) <$> released p = (fun o => (id o, title (what o))) <$> released q;
  so_connections : connections p = connections q }.

Lemma fmap_through {A B C} (f : A -> B) (g : B -> C) l k : f <$> l = f <$> k -> (fun x => g (f x)) <$> l = (fun x => g (f x)) <$> k :> list C.
Proof. intros H. change (fun x => g (f x)) with (g ∘ f). rewrite !list_fmap_compose. by f_equal. Qed.

Lemma subject_same_offer d d' p q : Inj (=) (=) digest_stamp -> Inj (=) (=) digest_text -> subject_of d p = subject_of d' q -> same_offer p q.
Proof.
  intros Hs Ht [= E1 E2 E3 E4 E5 E6 E7 E8 E9 E10 E11 E12 E13 E14 E15 E16 E17 E18]. apply Hs in E1. unfold stamp_subject in E1.
  injection E1 as ? ? ? ? ? ? ? ? ? ? ? ? ?. split; try done.
  - unfold marks_of, authorship. cbn [created mandate_edited]. congruence.
  - clear -E12 Ht. destruct (tp_wf p), (tp_wf q); cbn in *; simplify_eq; congruence.
  - split; [done|]. by apply (fmap_through _ (fun x => (x.1.1.1.1, x.1.1.1.2))) in E16.
Qed.

(** C18. What the owner was shown is what is done. An owner who takes a plan over with the token of a preview, read from
    the tables at any earlier time, gets, if anything at all, a takeover of a plan that offers the same in every point
    shown: instruction, authors, pause, workflow and its text, whom it acts for, the other plans that change or are freed,
    and when it runs; the open questions closed are those of the plans shown, and no other plan's row and, unless the
    preview said the workflow is taken over, no workflow's row changes. *)
Theorem a_takeover_does_what_was_shown d0 d d' i expect p0 audit closes stamped t' ws' after runs_as closed :
  Inj (=) (=) digest -> Inj (=) (=) digest_stamp -> Inj (=) (=) digest_text -> NoDup (ids (rd_triggers d')) ->
  takeoverPreview d0 i = Preview expect p0 ->
  takeOver d d' i expect audit closes stamped = (t', ws', Ok (TakenOver after runs_as), closed) ->
  exists p, planOf d' i = Plan p /\ same_offer p p0 /\ runs_as = principalTag (runsAs p0) /\
    closed = ids (tp_trigger p0 :: released p0) /\
    (forall x, x ∈ rd_triggers d' -> find_row t' (id x) = Some x \/ id x ∈ ids (tp_trigger p0 :: released p0)) /\
    (coverWorkflow p0 = false -> ws' = rd_workflows d').
Proof.
  intros Hd Hs Ht Hnd Hp. unfold PlanTakeover.takeoverPreview in Hp. cbn [negb] in Hp. destruct (planOf d0 i) as [q0| |] eqn:E0; [|done..].
  injection Hp as <- <-. unfold PlanTakeover.takeOver. cbn [negb]. destruct (planOf d i) as [p1| |] eqn:E1; [|done..].
  case_bool_decide as Ee; cbn [negb]; [|done]. destruct audit as [au|]; [|done]. destruct closes as [cl|]; [|done].
  destruct (forallb _ _); [|done]. intros [= Htx <-].
  destruct (takeover_tx_spec _ _ _ _ _ _ _ _ Hnd Htx) as [(p & a & Ep & He & [= <- ->] & -> & -> & Hf)|[H _]]; [|by exfalso; eapply H].
  assert (forall d1 d2 i1 i2 a b, planOf d1 i1 = Plan a -> planOf d2 i2 = Plan b -> digest (subject a) = digest (subject b) -> same_offer a b) as Hsame.
  { intros d1 d2 i1 i2 a b H1 H2 H%Hd. rewrite (planOf_subject _ _ _ H1), (planOf_subject _ _ _ H2) in H. by eapply subject_same_offer. }
  pose proof (Hsame _ _ _ _ _ _ Ep E0 He) as Hso. pose proof (Hsame _ _ _ _ _ _ E1 E0 Ee) as Hso1.
  apply planOf_spec in Ep as Hpo. apply planOf_spec in E0 as Hpo0. apply planOf_spec in E1 as Hpo1.
  assert (forall a b, same_offer a b -> ids (released a) = ids (released b)) as Hids.
  { intros a b H. destruct (so_others _ _ H) as [_ H2]. by apply (fmap_through _ fst) in H2. }
  exists p. split_and!; try done.
  - apply (so_covers _ _ Hso).
  - cbn. rewrite (po_id _ _ _ Hpo0), (po_id _ _ _ Hpo1). f_equal. by apply Hids.
  - intros x Hx. cbn. rewrite (po_id _ _ _ Hpo0). destruct (decide (id x = i)) as [->|Hi]; [right; by left|].
    destruct (taken_other d' i stamped p x Hpo Hnd Hx Hi) as [Ex|[Hr _]].
    + left. rewrite <-Ex at 2. rewrite <-(taken_row_id d' i stamped p x). apply find_trigger_in; [|by apply list_elem_of_fmap_2].
      unfold ids. rewrite <-list_fmap_compose. erewrite list_fmap_ext; [exact Hnd|]. intros k z _. apply taken_row_id.
    + right. right. change (id x ∈ ids (released q0)). by rewrite <-(Hids _ _ Hso).
  - intros Hc. destruct (so_covers _ _ Hso) as [Hcc _]. rewrite Hc in Hcc. unfold covered_ws. rewrite Hcc. by destruct (tp_wf p).
Qed.
End Takeover.

(** ** The sweeps *)

Section Sweep.
Variable Date_parse : string -> num.
Variable d : SweepDeps.

Abbreviation pauseEndedPlans := (pauseEndedPlans true Date_parse).

Lemma merge_covers entries : forall before e, e ∈ entries -> mandateId e ∈ mandateId <$> merge_entries before entries.
Proof.
  induction entries as [|x es IH]; intros before e He; [by apply elem_of_nil in He|]. apply elem_of_cons in He as [->|He]; [|by apply IH].
  unfold merge_entries. cbn [foldl]. fold (merge_entries (if existsb (fun y => bool_decide (mandateId y = mandateId x)) before
    then before else before ++ [x]) es). pose proof (merge_prefix (if existsb (fun y => bool_decide (mandateId y = mandateId x)) before
    then before else before ++ [x]) es) as [l ->]. rewrite fmap_app. apply elem_of_app. left.
  destruct (existsb _ before) eqn:E.
  - apply existsb_exists in E as (y & Hy%list_elem_of_In & Hb%bool_decide_eq_true). rewrite <-Hb. by apply list_elem_of_fmap_2.
  - rewrite fmap_app. apply elem_of_app. right. by left.
Qed.

Lemma paused_row_spec entries nowS dbS r : let y := paused_row entries nowS dbS r in
  is_Some (paused_at (pause y)) /\ y = r <| pause := pause y |> /\ forall e, e ∈ entries -> mandateId e ∈ mandateId <$> entries_of y.
Proof.
  unfold paused_row. set (r1 := if is_null (paused_at (pause r)) then pause_row nowS dbS r else r).
  assert (is_Some (paused_at (pause r1)) /\ r1 = r <| pause := pause r1 |>) as [Hp Hr].
  { unfold r1. destruct (paused_at (pause r)) eqn:E; cbn [is_null]; [rewrite E|]; (split; [by eexists|by destruct r]). }
  destruct (pausedForOf (paused_for (pause r1))) as [before broken] eqn:Eb.
  destruct (broken || _) eqn:Ec.
  - split_and!; [done|rewrite Hr; by destruct r|]. intros e He. unfold entries_of. cbn. by apply merge_covers.
  - split_and!; [done|done|]. intros e He. unfold entries_of. rewrite Eb. cbn [fst]. apply orb_false_iff in Ec as [_ Ec].
    apply negb_false_iff, Nat.eqb_eq in Ec. pose proof (merge_covers entries before e He) as H.
    rewrite <-(prefix_length_eq _ _ (merge_prefix before entries)) in H; [done|lia].
Qed.

(** *** The ended members *)

Lemma ended_from_spec ms : forall out, (forall o, o ∈ out -> o ∈ ended_from out ms (endOf d) (sweep_nowS d)) /\
  (forall e g x, Mandate e (Some g) x ∈ ms -> is_Some (provenEnd (Mandate e (Some g) x) (endOf d) (sweep_nowS d)) ->
     exists o, o ∈ ended_from out ms (endOf d) (sweep_nowS d) /\ o.1.2 = g) /\
  (forall o, o ∈ ended_from out ms (endOf d) (sweep_nowS d) -> o ∈ out \/
     exists x, Mandate o.1.1 (Some o.1.2) x ∈ ms /\ provenEnd (Mandate o.1.1 (Some o.1.2) x) (endOf d) (sweep_nowS d) = Some o.2).
Proof.
  induction ms as [|p ms IH]; intros out; cbn [ended_from].
  { split_and!; [done|by intros ? ? ? []%elem_of_nil|by left]. }
  destruct (IH out) as (I1 & I2 & I3).
  destruct p as [|e [g|] x|]; try (split_and!; [done|intros e' g' x' [?|?]%elem_of_cons; [done|by eapply I2]|
    intros o [?|(x' & ? & ?)]%I3; [by left|right; exists x'; split; [by right|done]]]).
  destruct (provenEnd _ _ _) as [row|] eqn:Er.
  2: { split_and!; [done| |intros o [?|(x' & ? & ?)]%I3; [by left|right; exists x'; split; [by right|done]]].
       intros e' g' x' [[= -> -> ->]|?]%elem_of_cons; [intros []; congruence|by eapply I2]. }
  set (out' := if existsb _ out then out else out ++ [(e, g, row)]). destruct (IH out') as (J1 & J2 & J3).
  assert (forall o, o ∈ out -> o ∈ out') as Hsub by (intros o Ho; unfold out'; destruct (existsb _ _); set_solver).
  split_and!.
  - intros o Ho. by apply J1, Hsub.
  - intros e' g' x' [[= -> -> ->]|Hin]%elem_of_cons Hs; [|by eapply J2]. unfold out' in *. destruct (existsb _ out) eqn:Ex.
    + apply existsb_exists in Ex as (o & Ho%list_elem_of_In & Hb%bool_decide_eq_true). exists o. split; [by apply J1|done].
    + exists (e, g, row). split; [apply J1; set_solver|done].
  - intros o [Ho|(x' & Hx & Hp)]%J3; [|right; exists x'; split; [by right|done]].
    unfold out' in Ho. destruct (existsb _ out); [by left|]. apply elem_of_app in Ho as [Ho|Ho]; [by left|].
    apply list_elem_of_singleton in Ho as ->. right. exists x. split; [by left|done].
Qed.

(** *** The loop *)

(** What the sweep does with one candidate. *)
Inductive Verdict := VLeave | VSkip | VFail (e : string) | VPause (entries : list PausedFor).
Definition only_members (ms : list RequestPrincipal) : list RequestPrincipal :=
  match onlyMandate d with None => ms | Some only => filter (fun p => mandateIdOf p = Some only) ms end.
Definition verdict (r : Trigger) : Verdict :=
  if negb (consentLetsThrough r) then VLeave
  else match sweep_members Date_parse d r with
  | Err e => VFail e
  | Ok None => VSkip
  | Ok (Some m) =>
      match planEndedMembers (only_members (members m)) (endOf d) (sweep_nowS d) with
      | [] => VLeave
      | ended =>
          if unwritable d (id r) then match onlyMandate d with Some _ => VFail (id r) | None => VSkip end
          else VPause (pausedForEntries m ended (closedPromptOf d (id r)) (deliveredWarning (warnings d) (id r)))
      end
  end.

Definition judged (r : Trigger) : Trigger :=
  match verdict r with VPause entries => paused_row entries (sweep_nowS d) (sweep_dbS d) r | _ => r end.

Lemma judged_id r : id (judged r) = id r.
Proof.
  unfold judged. destruct (verdict r); try done. destruct (paused_row_spec entries (sweep_nowS d) (sweep_dbS d) r) as (_ & E & _).
  rewrite E. done.
Qed.

Lemma sweep_row_verdict s r : sweep_row Date_parse d s r =
  match verdict r with
  | VLeave => (s, Ok tt)
  | VSkip => (s <| swept_skipped := swept_skipped s ++ [id r] |>, Ok tt)
  | VFail e => (s, Err e)
  | VPause entries => (s <| swept_table := (writePause (swept_table s) (id r) entries (sweep_nowS d) (sweep_dbS d)).1 |>
                         <| swept_paused := swept_paused s ++ [id r] |>, Ok tt)
  end.
Proof.
  unfold sweep_row, verdict, only_members. destruct (negb _); [done|]. destruct (sweep_members _ d r) as [[m|]|e]; [|done..].
  destruct (planEndedMembers _ _ _); [done|]. destruct (unwritable d (id r)); [|done]. by destruct (onlyMandate d).
Qed.

(** The rows of [l] as the sweep leaves them in the table. *)
Definition sweep_map (l : list Trigger) (x : Trigger) : Trigger := match find_row l (id x) with Some _ => judged x | None => x end.

(** The rows a sweep is done with: the table with [l] judged, nothing failed, and the plans it skipped. *)
Definition swept_by (l : list Trigger) (s s' : Swept) : Prop :=
  swept_table s' = sweep_map l <$> swept_table s /\
  (forall r, r ∈ l -> match verdict r with VFail _ => False | VSkip => id r ∈ swept_skipped s' | _ => True end) /\
  (forall i, i ∈ swept_skipped s -> i ∈ swept_skipped s') /\
  (forall i, i ∈ swept_skipped s' -> i ∈ swept_skipped s \/ exists r, r ∈ l /\ id r = i /\ verdict r = VSkip).

Definition judge_one (r x : Trigger) : Trigger := if at_id (id r) x then judged r else x.
Lemma judge_one_id r x : id (judge_one r x) = id x.
Proof. unfold judge_one. destruct (at_id (id r) x) eqn:E; [|done]. apply at_id_true in E. by rewrite judged_id. Qed.

Lemma swept_cons r l s s1 s' : id r ∉ ids l -> r ∈ swept_table s -> NoDup (ids (swept_table s)) ->
  swept_table s1 = judge_one r <$> swept_table s -> swept_by l s1 s' ->
  verdict r <> VSkip \/ id r ∈ swept_skipped s1 -> (forall i, i ∈ swept_skipped s -> i ∈ swept_skipped s1) ->
  (forall i, i ∈ swept_skipped s1 -> i ∈ swept_skipped s \/ i = id r /\ verdict r = VSkip) -> (forall e, verdict r <> VFail e) ->
  swept_by (r :: l) s s'.
Proof.
  intros Hr Hin Ht Et (J1 & J2 & J3 & J4) Hv Hmono Hback Hf. split_and!.
  - rewrite J1, Et, <-list_fmap_compose. apply list_fmap_ext. intros k x Hk%list_elem_of_lookup_2. unfold compose, sweep_map.
    rewrite judge_one_id, find_row_cons. unfold judge_one. destruct (at_id (id r) x) eqn:E.
    + apply at_id_true in E. assert (x = r) as -> by (by apply (same_trigger (swept_table s))).
      rewrite (proj2 (at_id_true _ _)) by done. by rewrite (proj2 (find_trigger_None l (id r))).
    + replace (at_id (id x) r) with false; [done|]. symmetry. apply not_true_iff_false. intros H%at_id_true.
      apply not_true_iff_false in E. apply E. by apply at_id_true.
  - intros x [->|Hx]%elem_of_cons; [|by apply J2]. specialize (Hf : forall e, _). destruct (verdict r) eqn:Ev; try done.
    + apply J3. by destruct Hv.
    + by eapply Hf.
  - auto.
  - intros i [[H|[-> H]]%Hback|(x & Hx & ? & ?)]%J4; [by left|right; exists r; split; [by left|done]|right; exists x; split; [by right|done]].
Qed.

(** A sweep that does not fail judges each candidate by the row it read, and changes no other row. *)
Lemma sweep_rows_spec l : forall s s' u, NoDup (ids l) -> NoDup (ids (swept_table s)) -> l ⊆ swept_table s ->
  sweep_rows Date_parse d s l = (s', Ok u) -> swept_by l s s'.
Proof.
  induction l as [|r l IH]; intros s s' u Hl Ht Hsub; cbn [sweep_rows].
  - intros [= <- _]. split_and!; [symmetry; apply list_fmap_id|by intros r []%elem_of_nil|done|by left].
  - apply NoDup_cons in Hl as [Hr Hl]. rewrite sweep_row_verdict. pose proof (Hsub r ltac:(by left)) as Hin.
    assert (forall s1, swept_table s1 = judge_one r <$> swept_table s -> sweep_rows Date_parse d s1 l = (s', Ok u) -> swept_by l s1 s') as Hgo.
    { intros s1 Et Hs. apply (IH s1 s' u); [done| | |done]; rewrite Et.
      - unfold ids. rewrite <-list_fmap_compose. erewrite list_fmap_ext; [exact Ht|]. intros k x _. apply judge_one_id.
      - intros x Hx. apply list_elem_of_fmap. exists x. split; [|apply Hsub; by right]. unfold judge_one.
        destruct (at_id (id r) x) eqn:E; [|done]. apply at_id_true in E. exfalso. apply Hr. rewrite <-E. by apply list_elem_of_fmap_2. }
    assert (judged r = r -> swept_table s = judge_one r <$> swept_table s) as Hleave.
    { intros Hv. rewrite <-(list_fmap_id (swept_table s)) at 1. apply list_fmap_ext. intros k x Hk%list_elem_of_lookup_2. unfold judge_one.
      destruct (at_id (id r) x) eqn:E; [|done]. apply at_id_true in E. rewrite Hv. by apply (same_trigger (swept_table s)). }
    unfold judged in Hleave. destruct (verdict r) as [| |e|entries] eqn:Ev; intros Hs.
    + apply (swept_cons r l s s); rewrite ?Ev; auto.
    + match type of Hs with sweep_rows _ _ ?s1 _ = _ => apply (swept_cons r l s s1) end; rewrite ?Ev; auto; cbn; set_solver.
    + done.
    + assert ((writePause (swept_table s) (id r) entries (sweep_nowS d) (sweep_dbS d)).1 = judge_one r <$> swept_table s) as Ht1.
      { rewrite writePause_map by done. apply list_fmap_ext. intros k x Hk%list_elem_of_lookup_2. unfold judge_one, judged.
        destruct (at_id (id r) x) eqn:E; [|done]. apply at_id_true in E. rewrite Ev. by rewrite (same_trigger (swept_table s) x r). }
      match type of Hs with sweep_rows _ _ ?s1 _ = _ => apply (swept_cons r l s s1) end; rewrite ?Ev; auto.
Qed.

(** *** Whose end a plan is paused for *)

(** The end of the access [g] of one of the plan's members is proven. *)
Definition proven_for (r : Trigger) (g : string) : Prop :=
  exists m e x, rowPlanMembers Date_parse r (workflowOf d) = Ok m /\ Mandate e (Some g) x ∈ members m /\
    is_Some (provenEnd (Mandate e (Some g) x) (endOf d) (sweep_nowS d)).
(** A plan a sweep is to hold for [g]: not completed, and its consent lets it run. *)
Definition to_hold (r : Trigger) (g : string) : Prop :=
  status (sched r) <> completed /\ consentLetsThrough r = true /\ proven_for r g /\
  (onlyMandate d = None \/ onlyMandate d = Some g).

(** The query for the workflows a grant is recorded on finds them. *)
Definition finds_marked_workflows : Prop := forall w wf, workflowOf d w = Ok (Some wf) ->
  m_id (created (wf_authorship wf)) <> None \/ m_id (mandate_edited (wf_authorship wf)) <> None -> w ∈ workflows_named d.

Lemma member_mark a p e g x : planMandate Date_parse a = Some p -> principal p = Mandate e (Some g) x ->
  m_id (created a) <> None \/ m_id (mandate_edited a) <> None.
Proof.
  unfold planMandate, mandateOfTag. destruct (isMandateTag (m_tag (mandate_edited a)) && _); [|destruct (_ && _); [|done]]; intros [= <-];
    cbn [principal]; intros [= _ Hg _]; [right|left]; destruct (m_id _); done.
Qed.

Lemma named_target r w : named_workflow r = Some w -> target_workflow_id (what r) = Some w.
Proof. unfold named_workflow, or_null. case_bool_decide; [|done]. by destruct (falsy _). Qed.

Lemma planMembers_in a b p : p ∈ (planMembers a b).2 -> exists k, (a = Some k \/ b = Some k) /\ principal k = p.
Proof. destruct a as [a|], b as [b|]; cbn; set_solver. Qed.

Lemma proven_is_candidate r g : finds_marked_workflows -> status (sched r) <> completed -> proven_for r g -> is_candidate d r = true.
Proof.
  intros Hw Hs (m & e & x & Hm & Hin & _). unfold is_candidate. rewrite bool_decide_eq_false_2 by done. cbn [negb andb].
  assert (exists wf, (wf = None \/ exists w, named_workflow r = Some w /\ workflowOf d w = Ok wf) /\ m = membership_with Date_parse r wf) as (wf & Hwf & ->).
  { unfold rowPlanMembers in Hm. destruct (named_workflow r) as [w|]; [|injection Hm as <-; eexists; split; [by left|done]].
    apply bind_Ok in Hm as (wf & E & [= <-]). exists wf. split; [right; by exists w|done]. }
  cbn [members membership_with] in Hin. apply planMembers_in in Hin as (k & [Hk|Hk] & Hp).
  - destruct (member_mark _ _ _ _ _ Hk Hp) as [H|H]; cbn in H.
    + destruct (created_mandate_id (authors r)); [done|congruence].
    + destruct (mandate_editor_id (authors r)); [by rewrite orb_true_r|congruence].
  - destruct wf as [wf|]; [|done]. destruct Hwf as [|(w & Hn & Ho)]; [done|]. rewrite (named_target r w Hn).
    rewrite bool_decide_eq_true_2; [by rewrite orb_true_r|]. apply (Hw w wf Ho). by eapply member_mark.
Qed.

Lemma only_members_in ms e g x : onlyMandate d = None \/ onlyMandate d = Some g -> Mandate e (Some g) x ∈ ms ->
  Mandate e (Some g) x ∈ only_members ms.
Proof. unfold only_members. intros [->| ->] H; [done|]. by apply list_elem_of_filter. Qed.

Lemma verdict_complete r g : to_hold r g ->
  match verdict r with
  | VLeave => False | VSkip => onlyMandate d = None /\ unwritable d (id r) = true
  | VFail _ => onlyMandate d <> None | VPause entries => g ∈ mandateId <$> entries
  end.
Proof.
  intros (_ & Hl & (m & e & x & Hm & Hin & Hp) & Ho). unfold verdict, sweep_members. rewrite Hl, Hm. cbn [negb].
  destruct (proj1 (proj2 (ended_from_spec (only_members (members m)) [])) e g x) as (o & Hoin & <-); [by apply only_members_in|done|].
  unfold planEndedMembers. destruct (ended_from [] _ _ _) as [|o1 os] eqn:E; [by apply elem_of_nil in Hoin|].
  destruct (unwritable d (id r)); [by destruct (onlyMandate d)|]. rewrite <-E in *. unfold pausedForEntries. rewrite <-list_fmap_compose.
  apply list_elem_of_fmap. exists o. by destruct o as [[e' g'] row].
Qed.

(** A login that cannot read a plan's workflow holds the plan for the access it is about. *)
Definition unread_login (r : Trigger) (g : string) : Prop :=
  onlyMandate d = Some g /\ (exists e, rowPlanMembers Date_parse r (workflowOf d) = Err e) /\
  (exists e x, is_Some (provenEnd (Mandate e (Some g) x) (endOf d) (sweep_nowS d))).

Lemma verdict_sound r entries : verdict r = VPause entries ->
  consentLetsThrough r = true /\ forall e, e ∈ entries -> proven_for r (mandateId e) \/ unread_login r (mandateId e).
Proof.
  unfold verdict. destruct (consentLetsThrough r) eqn:Hl; [|done]. cbn [negb].
  destruct (sweep_members _ d r) as [[m|]|er] eqn:Em; [|done..].
  destruct (planEndedMembers _ _ _) as [|o1 os] eqn:E; [done|]. destruct (unwritable d (id r)); [by destruct (onlyMandate d)|].
  intros Hv. assert (entries = pausedForEntries m (o1 :: os) (closedPromptOf d (id r)) (deliveredWarning (warnings d) (id r))) as -> by congruence.
  split; [done|]. rewrite <-E. intros en ([[e g] row] & -> & Ho)%list_elem_of_fmap. cbn [mandateId].
  apply ended_from_spec in Ho as [Ho|(x & Hin & Hp)]; [by apply elem_of_nil in Ho|]. cbn in Hin, Hp.
  unfold sweep_members in Em. destruct (rowPlanMembers _ r _) as [m'|er] eqn:Er.
  - left. injection Em as ->. exists m, e, x. split_and!; [done| |by eexists]. unfold only_members in Hin.
    destruct (onlyMandate d); [by apply list_elem_of_filter in Hin as [_ ?]|done].
  - right. destruct (onlyMandate d) as [only|] eqn:Eo; [|done]. unfold only_members in Hin. rewrite Eo in Hin.
    apply list_elem_of_filter in Hin as [Hg _]. cbn in Hg. split_and!; [congruence|by eexists|]. exists e, x. by eexists.
Qed.

Lemma sweep_inv t t' res : NoDup (ids t) -> pauseEndedPlans t d = (t', Ok res) ->
  let '(paused, skipped, closed) := res in
  t' = (fun x => if is_candidate d x then judged x else x) <$> t /\
  (forall r, r ∈ t -> is_candidate d r = true -> match verdict r with VFail _ => False | VSkip => id r ∈ skipped | _ => True end) /\
  (forall i, i ∈ skipped -> exists r, r ∈ t /\ id r = i /\ verdict r = VSkip) /\
  closed = close_questions d t'.
Proof.
  intros Hnd. unfold PlanPause.pauseEndedPlans. cbn [negb]. set (l := filter _ t).
  destruct (sweep_rows _ d _ l) as [s [u|e]] eqn:E; [|done]. intros [= <- <-].
  apply sweep_rows_spec in E as (H1 & H2 & H3 & H4); cbn [swept_table] in *; [|eapply ids_sublist; [apply sublist_filter|done]|done|
    by intros x [_ Hx]%list_elem_of_filter]. split_and!; [| |intros i [Hi|(r & Hr & ? & ?)]%H4; [by apply elem_of_nil in Hi|]|done].
  - rewrite H1. apply list_fmap_ext. intros k x Hk%list_elem_of_lookup_2. unfold sweep_map. destruct (is_candidate d x) eqn:Ec.
    + rewrite (find_trigger_in l x); [done|eapply ids_sublist; [apply sublist_filter|done]|by apply list_elem_of_filter].
    + destruct (find_row l (id x)) as [y|] eqn:Ey; [|done]. apply find_row_Some in Ey as [[Hc Hy]%list_elem_of_filter Hi].
      assert (y = x) as -> by (by apply (same_trigger t)). congruence.
  - intros r Hr Hc. apply H2. by apply list_elem_of_filter.
  - exists r. apply list_elem_of_filter in Hr as [_ Hr]. done.
Qed.

Lemma swept_row t t' res r : NoDup (ids t) -> pauseEndedPlans t d = (t', Ok res) -> r ∈ t ->
  find_row t' (id r) = Some (if is_candidate d r then judged r else r) /\
  (if is_candidate d r then judged r else r) ∈ t'.
Proof.
  intros Hnd Hs Hr. pose proof (sweep_inv _ _ _ Hnd Hs) as Hi. destruct res as [[? ?] ?]. destruct Hi as (Ht & _).
  assert (forall x, id (if is_candidate d x then judged x else x) = id x) as Hid by (intros x; destruct (is_candidate d x); [apply judged_id|done]).
  assert ((if is_candidate d r then judged r else r) ∈ t') as Hin by (rewrite Ht; by apply (list_elem_of_fmap_2 (fun x => if is_candidate d x then judged x else x))).
  split; [|done]. rewrite <-Hid at 1. apply find_trigger_in; [|done]. rewrite Ht. unfold ids. rewrite <-list_fmap_compose.
  erewrite list_fmap_ext; [exact Hnd|]. intros k x _. apply Hid.
Qed.

Lemma elem_of_close_questions t :
  match closeQuestion d with
  | None => close_questions d t = []
  | Some close => forall i, i ∈ close_questions d t <-> close i = true /\ exists p, p ∈ t /\ id p = i /\ is_Some (paused_at (pause p))
  end.
Proof.
  unfold close_questions. destruct (closeQuestion d) as [close|]; [|done]. intros i. rewrite list_elem_of_filter.
  unfold ids. rewrite list_elem_of_fmap. setoid_rewrite list_elem_of_filter. assert (forall p : Trigger, negb (is_null (paused_at (pause p))) = true <-> is_Some (paused_at (pause p))) as Hn
    by (intros p; unfold is_null; destruct (paused_at (pause p)); split; try done; by intros [? [=]]).
  setoid_rewrite Hn.
  split; [intros (Hc & p & -> & Hp & Hin); split; [done|]; by exists p|intros (Hc & p & Hin & <- & Hp); split; [done|]; by exists p].
Qed.

(** C17. No plan of somebody whose access has ended escapes a sweep. After a sweep that returns, be it the one of every tick or the
    one of a login, each plan that is not completed, whose consent lets it run and one of whose members' end is proven (the
    trigger's mark or the mark of the workflow it runs) is paused, with that access among those it waits for, and is
    selected by no query for work; the sweep of a tick leaves it only where the database refused the write, and says so,
    and a login leaves none. A sweep that closes questions then closes the open one of exactly the plans that are paused,
    whichever sweep paused them, but for those where closing fails; one that is given no closing, as the login's,
    closes none. *)
Theorem no_ended_plan_escapes_a_sweep t t' paused skipped closed :
  NoDup (ids t) -> finds_marked_workflows -> pauseEndedPlans t d = (t', Ok (paused, skipped, closed)) ->
  (forall r g, r ∈ t -> to_hold r g ->
     onlyMandate d = None /\ unwritable d (id r) = true /\ id r ∈ skipped \/
     exists r', find_row t' (id r) = Some r' /\ is_Some (paused_at (pause r')) /\ g ∈ mandateId <$> entries_of r' /\
       unheld true r' = false) /\
  match closeQuestion d with
  | None => closed = []
  | Some close => forall i, i ∈ closed <-> close i = true /\ exists p, p ∈ t' /\ id p = i /\ is_Some (paused_at (pause p))
  end.
Proof.
  intros Hnd Hw Hs. split; [intros r g Hr Hh|destruct (sweep_inv _ _ _ Hnd Hs) as (_ & _ & _ & ->); apply elem_of_close_questions]. destruct (swept_row _ _ _ _ Hnd Hs Hr) as [Hf Hin]. destruct (sweep_inv _ _ _ Hnd Hs) as (_ & Hv & _ & _).
  pose proof Hh as (Hst & _ & Hp & _). pose proof (proven_is_candidate r g Hw Hst Hp) as Hcand. rewrite Hcand in *.
  specialize (Hv r Hr Hcand). pose proof (verdict_complete r g Hh) as Hvc. destruct (verdict r) as [| |e|entries] eqn:Ev; [done|left|done|right].
  - by destruct Hvc.
  - exists (judged r). assert (judged r = paused_row entries (sweep_nowS d) (sweep_dbS d) r) as Ej by (unfold judged; by rewrite Ev).
    destruct (paused_row_spec entries (sweep_nowS d) (sweep_dbS d) r) as (Hps & _ & Hent). rewrite <-Ej in Hps, Hent.
    apply list_elem_of_fmap in Hvc as (e & -> & He). split_and!; [done|done|by apply Hent|by apply paused_is_unheld].
Qed.

Lemma merge_sound entries : forall before x, x ∈ merge_entries before entries -> x ∈ before \/ x ∈ entries.
Proof.
  induction entries as [|e es IH]; intros before x Hx; [by left|]. unfold merge_entries in Hx. cbn [foldl] in Hx.
  apply (IH (if existsb _ before then before else before ++ [e])) in Hx. destruct (existsb _ before); set_solver.
Qed.

Lemma paused_row_only entries nowS dbS r : let y := paused_row entries nowS dbS r in
  (forall e, e ∈ entries_of y -> e ∈ entries_of r \/ e ∈ entries) /\
  (is_Some (paused_at (pause r)) -> paused_at (pause y) = paused_at (pause r) /\ paused_due_at (pause y) = paused_due_at (pause r)).
Proof.
  unfold paused_row. set (r1 := if is_null (paused_at (pause r)) then pause_row nowS dbS r else r).
  assert (paused_for (pause r1) = paused_for (pause r)) as E by (unfold r1; by destruct (is_null _)).
  assert (is_Some (paused_at (pause r)) -> r1 = r) as E1 by (unfold r1; by intros [s ->]).
  unfold entries_of at 2. rewrite <-E. destruct (pausedForOf (paused_for (pause r1))) as [before broken] eqn:Eb.
  destruct (broken || _); (split; [|intros H; rewrite (E1 H); done]); unfold entries_of; cbn; rewrite ?Eb; [apply merge_sound|by left].
Qed.

(** C19. A sweep pauses nothing else. A sweep of a tick always returns. Whatever a sweep that returns does to a row is in its
    pause: a row without a proven end among its members stays as it is, a plan that was paused keeps the time and the due
    time it was paused with, and each access it adds to those a plan waits for is a proven end of one of the plan's members,
    or, at a login whose plan's workflow cannot be read, the ended access the login is about. *)
Theorem a_sweep_pauses_only_for_proven_ends t : NoDup (ids t) ->
  (onlyMandate d = None -> exists t' res, pauseEndedPlans t d = (t', Ok res)) /\
  forall t' res r, pauseEndedPlans t d = (t', Ok res) -> r ∈ t -> exists r', find_row t' (id r) = Some r' /\
    r' = r <| pause := pause r' |> /\
    (r' = r \/ status (sched r) <> completed /\ consentLetsThrough r = true /\
       (is_Some (paused_at (pause r)) -> paused_at (pause r') = paused_at (pause r) /\ paused_due_at (pause r') = paused_due_at (pause r)) /\
       forall e, e ∈ entries_of r' -> e ∈ entries_of r \/ proven_for r (mandateId e) \/ unread_login r (mandateId e)).
Proof.
  intros Hnd. split.
  - intros Ho. unfold PlanPause.pauseEndedPlans. cbn [negb]. generalize {| swept_table := t; swept_paused := []; swept_skipped := [] |}.
    induction (filter _ t) as [|r l IH]; intros s; cbn [sweep_rows]; [by eexists _, _|]. rewrite sweep_row_verdict.
    destruct (verdict r) eqn:Ev; [apply IH..| |apply IH]. exfalso. revert Ev. unfold verdict, sweep_members. rewrite Ho.
    destruct (negb _); [done|]. destruct (rowPlanMembers _ r _); [|done]. destruct (planEndedMembers _ _ _); [done|]. by destruct (unwritable d _).
  - intros t' res r Hs Hr. destruct (swept_row _ _ _ _ Hnd Hs Hr) as [Hf _]. eexists. split; [exact Hf|].
    destruct (is_candidate d r) eqn:Hc; [|split; [by destruct r|by left]]. unfold judged.
    destruct (verdict r) as [| |e|entries] eqn:Ev; try (split; [by destruct r|by left]).
    destruct (paused_row_spec entries (sweep_nowS d) (sweep_dbS d) r) as (_ & E & _).
    destruct (paused_row_only entries (sweep_nowS d) (sweep_dbS d) r) as [H1 H2]. destruct (verdict_sound r entries Ev) as [Hl Hsd].
    split; [done|]. right. split_and!; [|done|done|intros e [?|?]%H1; auto].
    unfold is_candidate in Hc. destruct (decide (status (sched r) = completed)) as [Hd|]; [|done]. by rewrite bool_decide_eq_true_2 in Hc.
Qed.
End Sweep.

(** ** Warnings before an end *)

Section Warnings.
Variable Date_parse : string -> num.

Definition warning_key (w : Warning) : string * string * Z := (warns w, warns_of w, warned_end w).
Definition want_key (w : Wanted) : string * string * Z := (want_plan w, want_grant w, want_end w).
(** The plans and ends a message names. *)
Definition named_in (g : AdvanceWarning) : list (string * string * Z) := (fun p => (p, warn_grant g, warn_end g)) <$> keys g.

Lemma has_key_true i g e w : has_key i g e w = true <-> warning_key w = (i, g, e).
Proof. unfold has_key, warning_key. rewrite !andb_true_iff, !bool_decide_eq_true, Z.eqb_eq. split; [intros [[-> ->] ->]; done|by intros [= -> -> ->]]. Qed.

Lemma group_key_names w m gs : mjoin (named_in <$> group_key w m gs) ≡ₚ want_key w :: mjoin (named_in <$> gs).
Proof.
  induction gs as [|g gs IH]; [done|]. cbn [group_key]. destruct (_ && _) eqn:E; csimpl.
  - apply andb_true_iff in E as [E1%bool_decide_eq_true E2%Z.eqb_eq].
    match goal with |- named_in ?u ++ _ ≡ₚ _ => assert (named_in u = named_in g ++ [want_key w]) as -> end.
    { unfold named_in, want_key. rewrite <-E1, <-E2. destruct g as [a b c ks mo]. exact (fmap_app _ ks [want_plan w]). }
    rewrite <-(assoc (++)). symmetry. apply Permutation_middle.
  - rewrite IH. by rewrite <-Permutation_middle.
Qed.

(** The end is due within a day. *)
Definition due_soon (nowS e : Z) : Prop := nowS < e <= nowS + ADVANCE_WARNING_S.

(** A row a call may add: the plan is there, would still run at the end, and the end still stands. *)
Definition warrants (t : Table) (ends : list EndsRow) (w : Warning) : Prop :=
  exists r, find_row t (warns w) = Some r /\ wouldRunAt Date_parse r (warned_end w) = true /\
  exists e, e ∈ ends /\ of_grant e = warns_of w /\ revoked_at (end_row e) = None /\ ends_at (end_row e) = warned_end w.

Lemma claim_key_step t ends nowS ws gs w : let '(ws', gs') := claim_key Date_parse t ends nowS (ws, gs) w in
  (ws' = ws /\ gs' = gs) \/
  (exists x, ws' = ws ++ [x] /\ warning_key x = want_key w /\ (want_key w ∉ (warning_key <$> ws)) /\ claimed_at x = nowS /\
     delivered_at x = None /\ warrants t ends x /\ mjoin (named_in <$> gs') ≡ₚ want_key w :: mjoin (named_in <$> gs)).
Proof.
  unfold claim_key. destruct (find_row t (want_plan w)) as [plan|] eqn:Ep; [|by left].
  destruct (list_find _ ends) as [[k e]|] eqn:Ee; cbn; [|by left]. apply list_find_Some in Ee as (Hk & Hg & _).
  destruct (_ || _) eqn:E; [by left|]. rewrite !orb_false_iff, !negb_false_iff in E. destruct E as [[[Hr He] Hw] Hk'].
  right. eexists. split; [done|]. split_and!; try done; [|exists plan; split; [done|]; split; [done|exists e]|apply group_key_names].
  - intros (x & Hx & Hin)%list_elem_of_fmap. apply not_true_iff_false in Hk'. apply Hk', existsb_exists. exists x.
    split; [by apply list_elem_of_In|]. by apply has_key_true.
  - split_and!; [by eapply list_elem_of_lookup_2|done|by destruct (revoked_at _)|by apply Z.eqb_eq].
Qed.

Lemma claim_keys_spec t ends nowS wanted : forall ws gs, NoDup (warning_key <$> ws) ->
  exists new, let '(ws', gs') := foldl (claim_key Date_parse t ends nowS) (ws, gs) wanted in
    ws' = ws ++ new /\ NoDup (warning_key <$> ws') /\ mjoin (named_in <$> gs') ≡ₚ (warning_key <$> new) ++ mjoin (named_in <$> gs) /\
    forall x, x ∈ new -> warrants t ends x /\ claimed_at x = nowS /\ delivered_at x = None /\
      exists w, w ∈ wanted /\ want_key w = warning_key x.
Proof.
  induction wanted as [|w wanted IH]; intros ws gs Hnd; cbn [foldl].
  { exists []. rewrite app_nil_r. split_and!; try done. by intros x []%elem_of_nil. }
  pose proof (claim_key_step t ends nowS ws gs w) as H. destruct (claim_key _ t ends nowS (ws, gs) w) as [ws1 gs1].
  destruct H as [[-> ->]|(x & -> & Hx & Hnew & Hc & Hd & Hwar & Hgs)].
  - destruct (IH ws gs Hnd) as (new & H). exists new. destruct (foldl _ _ _) as [ws' gs']. destruct H as (? & ? & ? & H). split_and!; try done.
    intros y Hy. destruct (H y Hy) as (? & ? & ? & w' & ? & ?). split_and!; try done. exists w'. split; [by right|done].
  - destruct (IH (ws ++ [x]) gs1) as (new & H).
    { rewrite fmap_app. cbn. rewrite Hx. apply NoDup_app. split_and!; [done|intros k Hk ->%list_elem_of_singleton; done|apply NoDup_singleton]. }
    exists (x :: new). destruct (foldl _ _ _) as [ws' gs']. destruct H as (-> & Hn & Hg & H). split_and!; [by rewrite <-(assoc (++))|done| |].
    + rewrite Hg, Hgs. csimpl. rewrite Hx. symmetry. apply Permutation_middle.
    + intros y [->|Hy]%elem_of_cons; [split_and!; try done; exists w; split; [by left|done]|].
      destruct (H y Hy) as (? & ? & ? & w' & ? & ?). split_and!; try done. exists w'. split; [by right|done].
Qed.

Lemma wanted_soon d soon claimed rows : (forall e, e ∈ soon -> due_soon (sweep_nowS d) (ends_at (end_row e))) ->
  forall wanted, (forall w, w ∈ wanted -> due_soon (sweep_nowS d) (want_end w)) ->
  forall w, w ∈ foldl (want_row Date_parse d soon claimed) wanted rows -> due_soon (sweep_nowS d) (want_end w).
Proof.
  intros Hsoon. induction rows as [|r rows IH]; intros wanted Hw; cbn [foldl]; [done|]. apply IH. clear IH. unfold want_row.
  destruct (negb _); [done|]. destruct (rowPlanMembers _ r _) as [m|]; [|done]. revert wanted Hw.
  induction (members m) as [|p ms IH]; intros wanted Hw; cbn [foldl]; [done|]. apply IH. clear IH. unfold want_member.
  destruct p as [|addr [i|] x|]; try done. destruct (end_in soon i) as [e|] eqn:E; [|done]. destruct (_ || _); [done|].
  intros w [Hin| ->%list_elem_of_singleton]%elem_of_app; [by apply Hw|]. cbn [want_end]. unfold end_in in E.
  destruct (last _) as [er|] eqn:El; [|done]. injection E as <-. apply Hsoon.
  apply last_Some_elem_of in El. by apply list_elem_of_filter in El as [_ ?].
Qed.

(** Nobody is warned twice of one end of one plan. However often the engines claim the warnings that are due, from whatever
    they read before, each plan and end is recorded once, the messages of a call name exactly the plans and ends that call
    recorded, and each of those ends lies ahead by at most a day and, in the same transaction, still stands unrevoked and would
    still stop the plan. *)
Theorem no_end_is_warned_of_twice d t ends t' ends' ws : NoDup (warning_key <$> ws) ->
  let '(ws', messages) := claimAdvanceWarnings true Date_parse d t ends t' ends' ws in
  NoDup (warning_key <$> ws') /\ exists new, ws' = ws ++ new /\ mjoin (named_in <$> messages) ≡ₚ warning_key <$> new /\
    forall w, w ∈ new -> due_soon (sweep_nowS d) (warned_end w) /\ warrants t' ends' w.
Proof.
  intros Hnd. assert (NoDup (warning_key <$> ws) /\ exists new, ws = ws ++ new /\ mjoin (named_in <$> @nil AdvanceWarning) ≡ₚ warning_key <$> new /\
    forall w, w ∈ new -> due_soon (sweep_nowS d) (warned_end w) /\ warrants t' ends' w) as Hnone.
  { split; [done|]. exists []. rewrite app_nil_r. split_and!; try done. by intros w []%elem_of_nil. }
  unfold claimAdvanceWarnings. cbn [negb]. destruct (ending ends (sweep_nowS d)) as [|e0 es] eqn:Es; [exact Hnone|].
  set (wanted := foldl _ [] _). destruct (claim_keys_spec t' ends' (sweep_nowS d) wanted ws [] Hnd) as (new & H).
  destruct (foldl _ _ wanted) as [ws' gs']. destruct H as (-> & Hn & Hg & H). split; [done|]. exists new. csimpl. rewrite app_nil_r in Hg.
  split_and!; [done|done|]. intros w Hw. destruct (H w Hw) as (Hwar & _ & _ & x & Hx & Hk). split; [|done].
  apply (f_equal snd) in Hk. cbn in Hk. rewrite <-Hk. eapply wanted_soon; [|by intros ? []%elem_of_nil|exact Hx].
  rewrite <-Es. intros e [[[_ H1]%andb_true_iff H2]%andb_true_iff _]%list_elem_of_filter. unfold due_soon. lia.
Qed.
End Warnings.

(** ** The theorems at work *)

(** *** A digest without collisions *)

#[export] Instance EndReason_eq_dec : EqDecision EndReason. Proof. solve_decision. Defined.
#[export] Instance ModelTier_eq_dec : EqDecision ModelTier. Proof. solve_decision. Defined.
#[export] Instance PausedFor_eq_dec : EqDecision PausedFor. Proof. solve_decision. Defined.
#[export] Instance StampEntry_eq_dec : EqDecision StampEntry. Proof. solve_decision. Defined.
#[export] Instance TakeoverMemberChange_eq_dec : EqDecision TakeoverMemberChange. Proof. solve_decision. Defined.
#[export] Instance StampSubject_eq_dec : EqDecision StampSubject. Proof. solve_decision. Defined.
#[export] Instance Subject_eq_dec : EqDecision Subject. Proof. solve_decision. Defined.

(** An enumeration by the position of a value among all of them. *)
Definition position {A} `{EqDecision A} (all : list A) (x : A) : nat := default 0%nat (fst <$> list_find (fun y => y = x) all).
Lemma position_lookup {A} `{EqDecision A} (all : list A) : (forall x, x ∈ all) -> forall x, all !! position all x = Some x.
Proof.
  intros H x. unfold position. destruct (list_find _ all) as [[k y]|] eqn:E.
  - apply list_find_Some in E as (Hk & -> & _). done.
  - apply list_find_None in E. rewrite Forall_forall in E. by destruct (E x (H x)).
Qed.
Definition enum_countable {A} `{EqDecision A} (all : list A) (H : forall x, x ∈ all) : Countable A :=
  inj_countable (position all) (fun n => all !! n) (position_lookup all H).

#[export] Instance TriggerStatus_countable : Countable TriggerStatus.
Proof. refine (enum_countable [open_; in_progress; completed; failed; waiting; stopped] _). intros []; set_solver. Defined.
#[export] Instance TriggerEffect_countable : Countable TriggerEffect.
Proof.
  refine (enum_countable [run_workflow; run_agent; backup; notify; bulk_apply; bulk_undo; bulk_preview; bulk_judge] _). intros []; set_solver.
Defined.
#[export] Instance PauseRole_countable : Countable PauseRole.
Proof. refine (enum_countable [r_created; r_edited; r_workflow_created; r_workflow_edited] _). intros []; set_solver. Defined.
#[export] Instance EndReason_countable : Countable EndReason.
Proof. refine (enum_countable [expired; revoked] _). intros []; set_solver. Defined.
#[export] Instance ModelTier_countable : Countable ModelTier.
Proof. refine (enum_countable [fast; balanced; deep] _). intros []; set_solver. Defined.
#[export] Instance TakeoverSchedule_countable : Countable TakeoverSchedule.
Proof. refine (enum_countable [kept; next_cron; run_now_only_missed; run_now_only_partial] _). intros []; set_solver. Defined.

#[export] Instance mark_countable : Countable mark.
Proof.
  refine (inj_countable' (fun m => (m_tag m, m_id m, m_at m)) (fun '(a, b, c) => {| m_tag := a; m_id := b; m_at := c |}) _). by intros [].
Defined.
#[export] Instance PausedFor_countable : Countable PausedFor.
Proof.
  refine (inj_countable' (fun e => (mandateId e, email e, reason e, endsAt e, roles e, closedPrompt e, warned e))
    (fun '(a, b, c, e, f, g, h) => {| mandateId := a; email := b; reason := c; endsAt := e; roles := f; closedPrompt := g; warned := h |}) _).
  by intros [].
Defined.
#[export] Instance StampEntry_countable : Countable StampEntry.
Proof.
  refine (inj_countable' (fun e => (profile e, grant e, binding e)) (fun '(a, b, c) => {| profile := a; grant := b; binding := c |}) _).
  by intros [].
Defined.
#[export] Instance TakeoverMemberChange_countable : Countable TakeoverMemberChange.
Proof.
  refine (inj_countable' (fun e => (c_id e, c_title e, c_before e, c_after e, runsNoMore e))
    (fun '(a, b, c, e, f) => {| c_id := a; c_title := b; c_before := c; c_after := e; runsNoMore := f |}) _). by intros [].
Defined.
#[export] Instance StampSubject_countable : Countable StampSubject.
Proof.
  refine (inj_countable' (fun s => (s_id s, s_effect s, s_title s, s_description s, (s_cron s, s_watch s, s_pipeline s, s_params s, s_tier s),
      (s_created_mandate s, s_mandate_editor s, s_wf s, s_entries s)))
    (fun '(a, b, c, e, (f, g, h, i, j), (k, l, m, n)) => {| s_id := a; s_effect := b; s_title := c; s_description := e; s_cron := f;
       s_watch := g; s_pipeline := h; s_params := i; s_tier := j; s_created_mandate := k; s_mandate_editor := l; s_wf := m; s_entries := n |}) _).
  by intros [].
Defined.
#[export] Instance Subject_countable : Countable Subject.
Proof.
  refine (inj_countable' (fun s => (e_stamp s, e_status s, e_next s, e_paused_at s, (e_paused_for s, e_marks s, e_workflow s, e_covers s, e_runsAs s),
      (e_changes s, e_released s, e_schedule s, e_dueAt s)))
    (fun '(a, b, c, e, (f, g, h, i, j), (k, l, m, n)) => {| e_stamp := a; e_status := b; e_next := c; e_paused_at := e; e_paused_for := f;
       e_marks := g; e_workflow := h; e_covers := i; e_runsAs := j; e_changes := k; e_released := l; e_schedule := m; e_dueAt := n |}) _).
  by intros [].
Defined.

Fixpoint bits (p : positive) : string :=
  match p with xH => "" | xO p => String "0" (bits p) | xI p => String "1" (bits p) end.
#[export] Instance bits_inj : Inj (=) (=) bits.
Proof. intros p. induction p as [p IH|p IH|]; intros [q|q|]; cbn; intros E; try discriminate E; f_equal; apply IH; congruence. Qed.
(** The value written out. *)
Definition spell {A} `{Countable A} (x : A) : string := bits (encode x).
#[export] Instance spell_inj {A} `{Countable A} : Inj (=) (=) (spell (A := A)).
Proof. intros x y E%bits_inj. by apply (inj encode). Qed.

(** *** A plan paused for its author's end *)

Section Sample.
Open Scope string_scope.
Definition no_parse (s : string) : num := NaN.
Definition no_json (s : string) : option jval := None.
Definition no_text (q : Q) : string := "".
Definition paused_table : Table :=
  sample_run (sample_table (Some "2026-01-01T00:00:00.000Z")) [OPause "t1" [sample_entry] 1767600000 1767600000].
Definition sample_reads : Reads := reads paused_table [] (fun _ => true) (fun _ => false) 1767700000000.

Section Digests.
Variable (ds : StampSubject -> string) (dt : string -> string) (dg : Subject -> string).
Lemma sample_plan_of : exists p, planOf no_parse no_json no_text ds dt sample_reads "t1" = Plan p /\
  released p = [] /\ runsAs p = Owner /\ schedule p = run_now_only_missed.
Proof. eexists. vm_compute. repeat split. Qed.

Lemma sample_takeover_tx p : planOf no_parse no_json no_text ds dt sample_reads "t1" = Plan p ->
  exists t' after, takeover_tx no_parse no_json no_text ds dt dg sample_reads "t1" (dg (subject p)) true "2026-01-06T12:00:00.000Z"
    = (t', [], Ok (TakenOver after "owner")).
Proof.
  intros Hp. unfold PlanTakeover.takeover_tx. rewrite Hp, bool_decide_eq_true_2 by done. cbn [negb].
  vm_compute in Hp. injection Hp as <-. eexists _, _. vm_compute. reflexivity.
Qed.

Lemma sample_takeOver p : planOf no_parse no_json no_text ds dt sample_reads "t1" = Plan p ->
  exists t' after closed, takeOver true no_parse no_json no_text ds dt dg sample_reads sample_reads "t1" (dg (subject p)) (Some true)
    (Some (fun _ => true)) "2026-01-06T12:00:00.000Z" = (t', [], Ok (TakenOver after "owner"), closed).
Proof.
  intros Hp. unfold PlanTakeover.takeOver. rewrite Hp, bool_decide_eq_true_2 by done. cbn [negb].
  destruct (sample_takeover_tx p Hp) as (t' & after & ->). eexists t', after, _. destruct (forallb _ _) eqn:E; [reflexivity|].
  exfalso. apply not_true_iff_false in E. apply E, forallb_forall. done.
Qed.
End Digests.

Lemma paused_table_NoDup : NoDup (ids (rd_triggers sample_reads)).
Proof. vm_compute. apply NoDup_singleton. Qed.

Lemma a_takeover_frees_whole_plans_witness :
  exists t' before after, find_row paused_table "t1" = Some before /\ find_row t' "t1" = Some after /\
    is_Some (paused_at (pause before)) /\ paused_at (pause after) = None /\
    members_live (fun _ => false) (members (dependents no_parse [] after)) = true.
Proof.
  destruct (sample_plan_of spell spell) as (p & Hp & _). destruct (sample_takeover_tx spell spell spell p Hp) as (t' & a' & Ht).
  destruct (a_takeover_frees_whole_plans no_parse no_json no_text spell spell spell sample_reads "t1" (spell (subject p)) true
    "2026-01-06T12:00:00.000Z" t' [] (Ok (TakenOver a' "owner"))) as [(b & a & H1 & H2 & H3 & H4 & H5 & _ & _ & _ & H6 & _)|[H _]].
  - exact paused_table_NoDup.
  - exact Ht.
  - exists t', b, a. split_and!; assumption.
  - exfalso. by eapply H.
Defined.

Lemma a_takeover_does_what_was_shown_witness :
  exists p0 p t' after closed,
    takeoverPreview true no_parse no_json no_text spell spell spell sample_reads "t1" = Preview (spell (subject p0)) p0 /\
    takeOver true no_parse no_json no_text spell spell spell sample_reads sample_reads "t1" (spell (subject p0)) (Some true) (Some (fun _ => true))
      "2026-01-06T12:00:00.000Z" = (t', [], Ok (TakenOver after "owner"), closed) /\
    planOf no_parse no_json no_text spell spell sample_reads "t1" = Plan p /\ same_offer p p0 /\ closed = ids (tp_trigger p0 :: released p0).
Proof.
  destruct (sample_plan_of spell spell) as (p0 & Hp0 & _). destruct (sample_takeOver spell spell spell p0 Hp0) as (t' & after & closed & Ht).
  assert (takeoverPreview true no_parse no_json no_text spell spell spell sample_reads "t1" = Preview (spell (subject p0)) p0) as Hprev.
  { unfold PlanTakeover.takeoverPreview. rewrite Hp0. reflexivity. }
  destruct (a_takeover_does_what_was_shown no_parse no_json no_text spell spell spell sample_reads sample_reads sample_reads "t1"
    (spell (subject p0)) p0 (Some true) (Some (fun _ => true)) "2026-01-06T12:00:00.000Z" t' [] after "owner" closed)
    as (p & H1 & H2 & _ & H3 & _); [apply spell_inj..|exact paused_table_NoDup|exact Hprev|exact Ht|].
  exists p0, p, t', after, closed. split_and!; assumption.
Defined.

(** A sweep of a tick over a table whose author's access [g1] ended. *)
Definition sample_deps : SweepDeps :=
  {| endOf := fun g => if bool_decide (g = "g1") then Some {| ends_at := 1767600000; revoked_at := None |} else None;
     closedPromptOf := fun _ => false; sweep_nowS := 1767700000; sweep_dbS := 1767700000; onlyMandate := None; onlyMandateEmail := None;
     workflows_named := []; workflowOf := fun _ => Ok None; unwritable := fun _ => false; warnings := []; closeQuestion := Some (fun _ => true) |}.
Definition stamped_table : Table := sample_table (Some "2026-01-01T00:00:00.000Z").

Lemma sample_held r : r ∈ stamped_table -> to_hold no_parse sample_deps r "g1".
Proof.
  intros Hr. assert (r = default r (find_row stamped_table "t1")) as Er.
  { revert Hr. vm_compute. intros H. inversion H as [|? ? ? H']; [reflexivity|inversion H']. }
  rewrite Er. unfold to_hold, proven_for. split_and!; [vm_compute; discriminate|vm_compute; reflexivity| |left; reflexivity].
  eexists _, "ann@example.com", None. split_and!; [vm_compute; reflexivity|apply list_elem_of_here|vm_compute; eexists; reflexivity].
Qed.
Lemma stamped_table_NoDup : NoDup (ids stamped_table).
Proof. vm_compute. apply NoDup_singleton. Qed.

Lemma no_ended_plan_escapes_a_sweep_witness :
  exists r r' t' closed, r ∈ stamped_table /\ pauseEndedPlans true no_parse stamped_table sample_deps = (t', Ok (["t1"], [], closed)) /\
    find_row t' "t1" = Some r' /\ is_Some (paused_at (pause r')) /\ "t1" ∈ closed.
Proof.
  destruct (pauseEndedPlans true no_parse stamped_table sample_deps) as [t' [[[paused skipped] closed]|e]] eqn:Es.
  2: { exfalso. assert (match (pauseEndedPlans true no_parse stamped_table sample_deps).2 with Ok _ => True | _ => False end) as H by (vm_compute; exact I).
       rewrite Es in H. exact H. }
  assert ((pauseEndedPlans true no_parse stamped_table sample_deps).2 = Ok (["t1"], [], ["t1"])) as H by (vm_compute; reflexivity).
  rewrite Es in H. injection H as -> -> ->.
  destruct (find_row stamped_table "t1") as [r|] eqn:Er; [|revert Er; vm_compute; discriminate].
  apply find_row_Some in Er as [Hr Hi].
  destruct (no_ended_plan_escapes_a_sweep no_parse sample_deps stamped_table t' ["t1"] [] ["t1"]) as [H Hc].
  { exact stamped_table_NoDup. }
  { intros w wf Hn. discriminate Hn. }
  { exact Es. }
  destruct (H r "g1" Hr (sample_held r Hr)) as [(_ & Hn & _)|(r' & H1 & H2 & _ & _)]; [discriminate Hn|]. rewrite Hi in H1.
  destruct (find_row_Some _ _ _ H1) as [Hr' Hi'].
  exists r, r', t', ["t1"]. split_and!; try assumption; [reflexivity|]. apply Hc. split; [reflexivity|]. by exists r'.
Defined.

Lemma a_sweep_pauses_only_for_proven_ends_witness :
  exists t' res, pauseEndedPlans true no_parse stamped_table sample_deps = (t', Ok res).
Proof. apply (a_sweep_pauses_only_for_proven_ends no_parse sample_deps stamped_table stamped_table_NoDup). reflexivity. Defined.

(** The same end, still ahead. *)
Definition ending_soon : list EndsRow := [{| of_grant := "g1"; end_row := {| ends_at := 1767750000; revoked_at := None |} |}].

Example warned_once :
  (claimAdvanceWarnings true no_parse sample_deps stamped_table ending_soon stamped_table ending_soon []).2 <> [].
Proof. vm_compute. discriminate. Qed.

Lemma no_end_is_warned_of_twice_witness :
  NoDup (warning_key <$> (claimAdvanceWarnings true no_parse sample_deps stamped_table ending_soon stamped_table ending_soon
    (claimAdvanceWarnings true no_parse sample_deps stamped_table ending_soon stamped_table ending_soon []).1).1).
Proof.
  assert (NoDup (warning_key <$> (claimAdvanceWarnings true no_parse sample_deps stamped_table ending_soon stamped_table ending_soon []).1)) as Hnd
    by (vm_compute; apply NoDup_singleton).
  pose proof (no_end_is_warned_of_twice no_parse sample_deps stamped_table ending_soon stamped_table ending_soon _ Hnd) as H.
  destruct (claimAdvanceWarnings true no_parse sample_deps stamped_table ending_soon stamped_table ending_soon
    (claimAdvanceWarnings true no_parse sample_deps stamped_table ending_soon stamped_table ending_soon []).1). apply H.
Defined.
End Sample.
