(* ===== verification/OauthState.v ===== *)
(** The signed state of an OAuth round trip, [core/oauth-state-cookie.ts], and the part of the callback
    route of [server/http-api.ts] that accepts it.

    The keyed hash of the platform, its base64url and [JSON.parse] are arguments; a byte is an [ascii].
    Seconds are integers. *)
From S2P Require Import Prelude Num JsString JsValue Principal.
Open Scope Z_scope.

(** ** The fields *)

Definition is_lower_or_digit (c : ascii) : bool := is_lower c || is_digit c.
(** [[A-Za-z0-9_-]]. *)
Definition is_token (c : ascii) : bool := is_word c || bool_decide (c = "-"%char).
Definition sized (min max : nat) (l : list ascii) : bool := (min <=? length l)%nat && (length l <=? max)%nat.

(** @src src/src/core/oauth-state-cookie.ts 50-50 PROFILE_ID_PATTERN *)
Definition PROFILE_ID_PATTERN (s : string) : bool :=
  match chars s with
  | c :: l => is_lower_or_digit c && forallb (fun c => is_lower_or_digit c || bool_decide (c ∈ ["_"; "-"]%char)) l && sized 0 63 l
  | [] => false
  end.
(** @src src/src/core/oauth-state-cookie.ts 53-53 VERIFIER_PATTERN *)
Definition VERIFIER_PATTERN (s : string) : bool :=
  forallb (fun c => is_alpha c || is_digit c || bool_decide (c ∈ ["-"; "."; "_"; "~"]%char)) (chars s) && sized 43 128 (chars s).
(** @src src/src/core/oauth-state-cookie.ts 56-56 STATE_PATTERN *)
Definition STATE_PATTERN (s : string) : bool := forallb is_token (chars s) && sized 8 128 (chars s).
(** @src src/src/core/oauth-state-cookie.ts 58-58 PURPOSE *)
Definition PURPOSE : string := "lynox-profile-oauth-state".
(** @src src/src/core/oauth-state-cookie.ts 61-61 PRINCIPAL_FIELD *)
Definition PRINCIPAL_FIELD (s : string) : bool := forallb is_token (chars s) && sized 1 800 (chars s).
(** @src src/src/core/oauth-state-cookie.ts 64-64 PROFILE_OAUTH_STATE_TTL_SEC *)
Definition PROFILE_OAUTH_STATE_TTL_SEC : Z := 10 * 60.
(** @src src/src/contract/http.ts 447-447 LOGIN_PRINCIPAL_ID_MAX *)
Definition LOGIN_PRINCIPAL_ID_MAX : nat := 64.

(** @src src/src/core/oauth-state-cookie.ts 83-88 ConnectingPrincipal *)
Record ConnectingPrincipal := { tag : string; mandateId : option string }.
(** @src src/src/core/oauth-state-cookie.ts 67-80 ProfileOAuthState *)
Record ProfileOAuthState := { state : string; profileId : string; verifier : string; by_ : ConnectingPrincipal }.

(** [\p{Cc}], [\p{Cf}], [\p{Zl}] and [\p{Zp}] below 256. *)
Definition is_hidden (c : ascii) : bool :=
  let n := code c in (n <? 32) || (127 <=? n) && (n <=? 159) || (n =? 173).

(** @src src/src/core/oauth-state-cookie.ts 102-105 validMandateId *)
Definition validMandateId (i : string) : bool :=
  (0 <? length (chars i))%nat && (length (chars i) <=? LOGIN_PRINCIPAL_ID_MAX)%nat && bool_decide (trim i = i) &&
  negb (existsb is_hidden (chars i)).

(** @src src/src/core/oauth-state-cookie.ts 91-95 validPrincipal *)
Definition validPrincipal (p : ConnectingPrincipal) : bool :=
  if bool_decide (tag p = "owner"%string) then bool_decide (mandateId p = None)
  else startsWith (tag p) MANDATE_TAG_PREFIX && (length (chars MANDATE_TAG_PREFIX) <? length (chars (tag p)))%nat &&
       (length (chars (tag p)) <=? 320)%nat && match mandateId p with Some i => validMandateId i | None => false end.

(** ** Hexadecimal text *)

Definition hex_of (bytes : list ascii) : list ascii := mjoin ((fun b => [hex_digit (code b / 16); hex_digit (code b mod 16)]) <$> bytes).
Definition hex_val (c : ascii) : option Z :=
  let n := code c in
  if is_digit c then Some (n - 48) else if (97 <=? n) && (n <=? 102) then Some (n - 87)
  else if (65 <=? n) && (n <=? 70) then Some (n - 55) else None.
(** [Buffer.from(s, 'hex')]: it stops at the first pair that is none. *)
Fixpoint from_hex (l : list ascii) : list ascii :=
  match l with
  | a :: b :: l' => match hex_val a, hex_val b with Some x, Some y => chr (16 * x + y) :: from_hex l' | _, _ => [] end
  | _ => []
  end.

Lemma code_range c : 0 <= code c < 256.
Proof. unfold code. pose proof (N_ascii_bounded c). lia. Qed.
Lemma chr_code c : chr (code c) = c.
Proof. unfold chr, code. rewrite N2Z.id. apply ascii_N_embedding. Qed.
Lemma hex_digit_val n : 0 <= n < 16 -> hex_val (hex_digit n) = Some n.
Proof.
  intros Hn. assert (n ∈ seqZ 0 16) as H by (apply elem_of_seqZ; lia). clear Hn. revert n H. apply Forall_forall.
  apply (bool_decide_unpack _). vm_compute. exact I.
Qed.
Lemma from_hex_of bytes : from_hex (hex_of bytes) = bytes.
Proof.
  induction bytes as [|b l IH]; [done|]. unfold hex_of in *. cbn [fmap list_fmap mjoin list_join app]. cbn [from_hex].
  pose proof (code_range b). pose proof (Z.mod_pos_bound (code b) 16). pose proof (Z.div_mod (code b) 16).
  rewrite !hex_digit_val by lia. rewrite <-(chr_code b) at 3. f_equal; [|exact IH]. f_equal. lia.
Qed.

Section Cookie.
(** [createHmac('sha256', key).update(data).digest()], the two directions of base64url, [JSON.parse]. *)
Variable hmac : list ascii -> list ascii -> list ascii.
Variables to_base64url from_base64url : string -> string.
Variable JSON_parse : string -> option jval.

Definition principal_json (p : ConnectingPrincipal) : jval :=
  JObj (("tag"%string, JStr (tag p)) :: match mandateId p with Some i => [("mandate_id"%string, JStr i)] | None => [] end).
Definition principal_text (p : ConnectingPrincipal) : string :=
  default ""%string (stringify (fun _ => ""%string) (principal_json p)).

(** @src src/src/core/oauth-state-cookie.ts 107-109 encodePrincipal *)
Definition encodePrincipal (p : ConnectingPrincipal) : string := to_base64url (principal_text p).

(** @src src/src/core/oauth-state-cookie.ts 112-125 decodePrincipal *)
Definition decodePrincipal (field : string) : option ConnectingPrincipal :=
  if negb (PRINCIPAL_FIELD field) then None
  else match JSON_parse (from_base64url field) with
  | None => None
  | Some v =>
      if negb (is_object v) then None
      else match js_prop v "tag", js_prop v "mandate_id" with
      | JStr t, JUndef => let p := {| tag := t; mandateId := None |} in if validPrincipal p then Some p else None
      | JStr t, JStr i => let p := {| tag := t; mandateId := Some i |} in if validPrincipal p then Some p else None
      | _, _ => None
      end
  end.

(** @src src/src/core/oauth-state-cookie.ts 234-237 sign *)
Definition sign (payload secret : list ascii) : list ascii := hmac (hmac (chars PURPOSE) secret) payload.

Definition dot : list ascii := ["."%char].
Definition payload_of (st pid ver field ts : list ascii) : list ascii := st ++ dot ++ pid ++ dot ++ ver ++ dot ++ field ++ dot ++ ts.

(** @src src/src/core/oauth-state-cookie.ts 136-158 signProfileOAuthState *)
Definition signProfileOAuthState (v : ProfileOAuthState) (secret : string) (nowSec : Z) : option string :=
  if bool_decide (secret = ""%string) then None
  else if negb (STATE_PATTERN (state v)) then None
  else if negb (PROFILE_ID_PATTERN (profileId v)) then None
  else if negb (VERIFIER_PATTERN (verifier v)) then None
  else if negb (validPrincipal (by_ v)) then None
  else if negb (PRINCIPAL_FIELD (encodePrincipal (by_ v))) then None
  else if nowSec <? 0 then None
  else if bool_decide ("."%char ∈ chars (verifier v)) then None
  else
    let payload := payload_of (chars (state v)) (chars (profileId v)) (chars (verifier v))
                     (chars (encodePrincipal (by_ v))) (chars (int_text nowSec)) in
    Some (unchars (payload ++ dot ++ hex_of (sign payload (chars secret)))).

(** @src src/src/core/oauth-state-cookie.ts 172-213 verifyProfileOAuthState *)
Definition verifyProfileOAuthState (raw secret : string) (nowSec : Z) : option ProfileOAuthState :=
  if bool_decide (secret = ""%string) || bool_decide (raw = ""%string) then None
  else match split_chars "." (chars raw) with
  | [st; pid; ver; field; ts; sig] =>
      if existsb (fun p => bool_decide (p = [])) [st; pid; ver; field; ts; sig] then None
      else if negb (forallb is_digit ts && sized 1 15 ts) then None
      else if nowSec <? digits_val ts then None
      else if PROFILE_OAUTH_STATE_TTL_SEC <? nowSec - digits_val ts then None
      else
        let expected := hex_of (sign (payload_of st pid ver field ts) (chars secret)) in
        if negb (bool_decide (length (from_hex sig) = length (from_hex expected))) then None
        else if negb (bool_decide (from_hex sig = from_hex expected)) then None
        else if negb (STATE_PATTERN (unchars st)) then None
        else if negb (PROFILE_ID_PATTERN (unchars pid)) then None
        else if negb (VERIFIER_PATTERN (unchars ver)) then None
        else match decodePrincipal (unchars field) with
        | None => None
        | Some p => Some {| state := unchars st; profileId := unchars pid; verifier := unchars ver; by_ := p |}
        end
  | _ => None
  end.

(** ** The states a callback has used *)

(** [spentStates]: each state with the second after which its cookie is refused anyway. *)
Abbreviation Spent := (list (string * Z)).
(** @src src/src/core/oauth-state-cookie.ts 226-232 spendProfileOAuthState *)
Definition spendProfileOAuthState (spent : Spent) (st : string) (nowSec : Z) : Spent * bool :=
  let spent := filter (fun e => (e.2 <? nowSec) = false) spent in
  if jm_has spent st then (spent, false) else (jm_set spent st (nowSec + PROFILE_OAUTH_STATE_TTL_SEC), true).

(** A callback: the cookie, the query's state and whether it carries a code, and the two readings of the
    clock. [None] is the page that says the link is no longer valid. *)
(** @src src/src/server/http-api.ts 11812-11850 callback *)
Definition callback (spent : Spent) (secret : string) (raw queryState : option string) (code_given : bool) (now1 now2 : Z)
    : Spent * option ProfileOAuthState :=
  match raw ≫= fun r => verifyProfileOAuthState r secret now1 with
  | Some v =>
      if code_given && bool_decide (queryState = Some (state v)) then
        let '(spent, first) := spendProfileOAuthState spent (state v) now2 in (spent, if first then Some v else None)
      else (spent, None)
  | None => (spent, None)
  end.

(** ** Round trip and soundness *)

Lemma forallb_no_dot (f : ascii -> bool) l : f "."%char = false -> forallb f l = true -> "."%char ∉ l.
Proof. intros Hf Hl Hin. rewrite forallb_forall in Hl. apply list_elem_of_In in Hin. by rewrite (Hl _ Hin) in Hf. Qed.

Lemma state_no_dot s : STATE_PATTERN s = true -> "."%char ∉ chars s /\ chars s <> [].
Proof.
  intros [H Hl]%andb_true_iff. split; [by eapply forallb_no_dot; [|exact H]|]. by destruct (chars s).
Qed.
Lemma field_no_dot s : PRINCIPAL_FIELD s = true -> "."%char ∉ chars s /\ chars s <> [].
Proof.
  intros [H Hl]%andb_true_iff. split; [by eapply forallb_no_dot; [|exact H]|]. by destruct (chars s).
Qed.
Lemma profile_no_dot s : PROFILE_ID_PATTERN s = true -> "."%char ∉ chars s /\ chars s <> [].
Proof.
  unfold PROFILE_ID_PATTERN. destruct (chars s) as [|c l]; [done|]. intros [[Hc Hl]%andb_true_iff _]%andb_true_iff. split; [|done].
  apply not_elem_of_cons. split; [by intros <-|]. eapply forallb_no_dot; [|exact Hl]. done.
Qed.
Lemma verifier_ne s : VERIFIER_PATTERN s = true -> chars s <> [].
Proof. intros [_ Hl]%andb_true_iff. by destruct (chars s). Qed.
Lemma digits_no_dot l : forallb is_digit l = true -> "."%char ∉ l.
Proof. by apply forallb_no_dot. Qed.

Lemma hex_of_no_dot l : "."%char ∉ hex_of l.
Proof.
  unfold hex_of. intros (c & Hc & (b & -> & _)%list_elem_of_fmap)%list_elem_of_join.
  assert (forall n, 0 <= n < 16 -> hex_digit n <> "."%char) as Hd.
  { intros n Hn Heq. pose proof (hex_digit_val n Hn) as H. rewrite Heq in H. done. }
  pose proof (code_range b). pose proof (Z.mod_pos_bound (code b) 16). pose proof (Z.div_mod (code b) 16).
  apply elem_of_cons in Hc as [Hc|Hc%list_elem_of_singleton]; symmetry in Hc; revert Hc; apply Hd; lia.
Qed.

Lemma split_payload st pid ver field ts sig :
  "."%char ∉ st -> "."%char ∉ pid -> "."%char ∉ ver -> "."%char ∉ field -> "."%char ∉ ts -> "."%char ∉ sig ->
  split_chars "." (payload_of st pid ver field ts ++ "."%char :: sig) = [st; pid; ver; field; ts; sig].
Proof.
  intros H1 H2 H3 H4 H5 H6. unfold payload_of, dot. rewrite <-!app_assoc. cbn [app].
  rewrite !split_chars_field by done. by rewrite split_chars_none.
Qed.

Lemma split_chars_inv c l w ws : split_chars c l = w :: ws ->
  match ws with [] => l = w | _ => exists l', l = w ++ c :: l' /\ split_chars c l' = ws end.
Proof.
  revert w ws. induction l as [|x l IH]; intros w ws; cbn [split_chars]; [by intros [= <- <-]|].
  destruct (decide (x = c)) as [->|Hx].
  - intros [= <- Hws]. pose proof (split_chars_ne c l). destruct ws; [congruence|]. by exists l.
  - destruct (split_chars c l) as [|w' ws'] eqn:E; [by destruct (split_chars_ne c l)|]. intros [= <- <-].
    specialize (IH _ _ eq_refl). destruct ws'; [by subst|]. destruct IH as (l' & -> & H). by exists l'.
Qed.

Lemma split_six raw st pid ver field ts sig : split_chars "." raw = [st; pid; ver; field; ts; sig] ->
  raw = payload_of st pid ver field ts ++ dot ++ sig.
Proof.
  intros (l1 & -> & (l2 & -> & (l3 & -> & (l4 & -> & (l5 & -> & ->%split_chars_inv)%split_chars_inv)%split_chars_inv)%split_chars_inv)%split_chars_inv)%split_chars_inv.
  unfold payload_of, dot. by rewrite <-!app_assoc.
Qed.

Lemma validPrincipal_spelled p : validPrincipal p = true -> js_prop (principal_json p) "tag" = JStr (tag p) /\
  js_prop (principal_json p) "mandate_id" = match mandateId p with Some i => JStr i | None => JUndef end.
Proof. destruct p as [t [i|]]; done. Qed.

Lemma decode_encode p : PRINCIPAL_FIELD (encodePrincipal p) = true -> validPrincipal p = true ->
  from_base64url (encodePrincipal p) = principal_text p -> JSON_parse (principal_text p) = Some (principal_json p) ->
  decodePrincipal (encodePrincipal p) = Some p.
Proof.
  intros Hf Hv Hb Hj. unfold decodePrincipal. rewrite Hf, Hb, Hj. cbn [negb is_object principal_json].
  destruct (validPrincipal_spelled p Hv) as [Ht Hm]. unfold principal_json in *. rewrite Ht, Hm.
  destruct p as [t [i|]]; cbn [tag mandateId] in *; by rewrite Hv.
Qed.

Lemma decoded_valid field p : decodePrincipal field = Some p -> validPrincipal p = true.
Proof. unfold decodePrincipal. repeat case_match; try done; by intros [= <-]. Qed.

(** What the platform's functions promise: base64url and JSON give a principal's text and object back, a
    digest is never empty. *)
Definition platform_keeps (p : ConnectingPrincipal) : Prop :=
  from_base64url (encodePrincipal p) = principal_text p /\ JSON_parse (principal_text p) = Some (principal_json p) /\
  forall key data, hmac key data <> [].

(** What is signed comes back. Whatever state, profile, verifier and principal the signer accepts, the
    cookie it makes verifies under the same secret for ten minutes from its second on, and the callback
    reads exactly what the start wrote. *)
Theorem signed_state_comes_back v secret t t' raw :
  platform_keeps (by_ v) -> signProfileOAuthState v secret t = Some raw -> t < 10 ^ 15 ->
  t <= t' <= t + PROFILE_OAUTH_STATE_TTL_SEC -> verifyProfileOAuthState raw secret t' = Some v.
Proof.
  intros (Hb & Hj & Hmac). unfold signProfileOAuthState. case_bool_decide as Hsec; [done|].
  destruct (STATE_PATTERN (state v)) eqn:Es; [|done]. destruct (PROFILE_ID_PATTERN (profileId v)) eqn:Ep; [|done].
  destruct (VERIFIER_PATTERN (verifier v)) eqn:Ev; [|done]. destruct (validPrincipal (by_ v)) eqn:Eb; [|done].
  destruct (PRINCIPAL_FIELD (encodePrincipal (by_ v))) eqn:Ef; [|done]. cbn [negb].
  destruct (Z.ltb_spec t 0) as [|Ht0]; [done|]. case_bool_decide as Hvd; [done|]. intros [= <-] Htm Ht.
  destruct (state_no_dot _ Es) as [Ds Ns], (profile_no_dot _ Ep) as [Dp Np], (field_no_dot _ Ef) as [Df Nf].
  pose proof (verifier_ne _ Ev) as Nv.
  destruct (nat_text_spec t ltac:(lia)) as [Hdig Hval].
  assert (chars (int_text t) = nat_text t) as Hts.
  { unfold int_text. destruct (Z.ltb_spec t 0); [lia|]. apply chars_unchars. }
  unfold verifyProfileOAuthState. rewrite chars_unchars. rewrite (bool_decide_eq_false_2 (secret = ""%string)) by done.
  rewrite bool_decide_eq_false_2.
  2: { intros H%(f_equal chars). rewrite chars_unchars in H. unfold payload_of, dot in H. by destruct (chars (state v)). }
  cbn [orb]. rewrite Hts, split_payload; [|done..|by apply digits_no_dot|apply hex_of_no_dot].
  assert (1 <= length (nat_text t) <= 15)%nat as Hlen.
  { split; [pose proof (z_digits_ne 20 t []); unfold nat_text; destruct (z_digits 21 t []); [done|cbn; lia]|].
    pose proof (z_digits_length 21 t [] ltac:(lia) ltac:(lia) 15%nat ltac:(lia) ltac:(lia)). unfold nat_text. cbn [length] in *. lia. }
  assert (nat_text t <> []) as Nt by (intros E; rewrite E in Hlen; cbn in Hlen; lia).
  set (payload := payload_of _ _ _ _ _). assert (hex_of (sign payload (chars secret)) <> []) as Nh.
  { unfold sign. specialize (Hmac (hmac (chars PURPOSE) (chars secret)) payload). by destruct (hmac _ _). }
  match goal with |- context [existsb ?f ?l] => assert (existsb f l = false) as -> end.
  { cbn [existsb]. by rewrite !bool_decide_eq_false_2. }
  assert (sized 1 15 (nat_text t) = true) as -> by (unfold sized; rewrite andb_true_iff, !Nat.leb_le; lia).
  rewrite Hdig, Hval. cbn [andb negb]. destruct (Z.ltb_spec t' t); [lia|].
  destruct (Z.ltb_spec PROFILE_OAUTH_STATE_TTL_SEC (t' - t)); [lia|]. fold payload.
  rewrite !bool_decide_eq_true_2 by done. cbn [negb]. rewrite !unchars_chars, Es, Ep, Ev. cbn [negb].
  rewrite decode_encode by done. by destruct v.
Qed.

Lemma verify_fields raw secret now v : verifyProfileOAuthState raw secret now = Some v ->
  exists field ts sig,
    split_chars "." (chars raw) = [chars (state v); chars (profileId v); chars (verifier v); field; ts; sig] /\
    from_hex sig = sign (payload_of (chars (state v)) (chars (profileId v)) (chars (verifier v)) field ts) (chars secret) /\
    decodePrincipal (unchars field) = Some (by_ v) /\
    STATE_PATTERN (state v) = true /\ PROFILE_ID_PATTERN (profileId v) = true /\ VERIFIER_PATTERN (verifier v) = true /\
    digits_val ts <= now <= digits_val ts + PROFILE_OAUTH_STATE_TTL_SEC.
Proof.
  unfold verifyProfileOAuthState. destruct (_ || _); [done|].
  destruct (split_chars "." (chars raw)) as [|st [|pid [|ver [|field [|ts [|sig [|]]]]]]] eqn:E; try done.
  destruct (existsb _ _); [done|]. destruct (negb (_ && _)); [done|]. destruct (Z.ltb_spec now (digits_val ts)); [done|].
  destruct (Z.ltb_spec PROFILE_OAUTH_STATE_TTL_SEC (now - digits_val ts)); [done|].
  rewrite from_hex_of. case_bool_decide; [|done]. case_bool_decide as Hsig; [|done]. cbn [negb].
  destruct (STATE_PATTERN (unchars st)) eqn:Es; [|done]. destruct (PROFILE_ID_PATTERN (unchars pid)) eqn:Ep; [|done].
  destruct (VERIFIER_PATTERN (unchars ver)) eqn:Ev; [|done]. cbn [negb]. destruct (decodePrincipal _) as [p|] eqn:Ed; [|done].
  intros [= <-]. exists field, ts, sig. cbn [state profileId verifier by_]. rewrite !chars_unchars.
  split_and!; try done; lia.
Qed.

(** A cookie the callback accepts is one this engine signed, as it is. If a cookie verifies, it is six
    dot-separated fields whose last is the hash, under the purpose's key, of the first five; the state,
    profile and verifier the callback gets are those fields themselves, the principal is what the fourth
    encodes, every one fits its pattern, and the stamp is not in the future and at most ten minutes old. *)
Theorem accepted_cookie_was_signed raw secret now v :
  verifyProfileOAuthState raw secret now = Some v ->
  exists field ts sig,
    raw = unchars (payload_of (chars (state v)) (chars (profileId v)) (chars (verifier v)) field ts ++ dot ++ sig) /\
    from_hex sig = sign (payload_of (chars (state v)) (chars (profileId v)) (chars (verifier v)) field ts) (chars secret) /\
    decodePrincipal (unchars field) = Some (by_ v) /\ validPrincipal (by_ v) = true /\
    STATE_PATTERN (state v) = true /\ PROFILE_ID_PATTERN (profileId v) = true /\ VERIFIER_PATTERN (verifier v) = true /\
    digits_val ts <= now <= digits_val ts + PROFILE_OAUTH_STATE_TTL_SEC.
Proof.
  intros (field & ts & sig & E & Hsig & Hd & H)%verify_fields. exists field, ts, sig. split_and!; try tauto; [|by eapply decoded_valid].
  rewrite <-(unchars_chars raw). f_equal. by apply split_six.
Qed.

(** ** A cookie is accepted once *)

Lemma verify_once raw secret t1 t2 v1 v2 :
  verifyProfileOAuthState raw secret t1 = Some v1 -> verifyProfileOAuthState raw secret t2 = Some v2 -> v1 = v2.
Proof.
  intros (f1 & ts1 & g1 & E1 & _ & D1 & _)%verify_fields (f2 & ts2 & g2 & E2 & _ & D2 & _)%verify_fields.
  rewrite E1 in E2. injection E2 as Hs Hp Hv -> _ _. apply (f_equal unchars) in Hs, Hp, Hv. rewrite !unchars_chars in *.
  destruct v1, v2. cbn in *. congruence.
Qed.

Lemma jm_get_filter (spent : Spent) (P : string * Z -> Prop) `{!forall e, Decision (P e)} k u :
  jm_get spent k = Some u -> P (k, u) -> jm_get (filter P spent) k = Some u.
Proof.
  induction spent as [|[k' u'] l IH]; [done|]. cbn [jm_get]. rewrite filter_cons. destruct (decide (k' = k)) as [->|Hk].
  - intros [= ->] HP. rewrite decide_True by done. cbn [jm_get]. by rewrite decide_True.
  - intros Hg HP. case_decide; [cbn [jm_get]; rewrite decide_False by done|]; by apply IH.
Qed.

(** A used state stays while its cookie can verify. *)
Lemma spend_keeps spent st now k u : jm_get spent k = Some u -> now <= u -> jm_get (spendProfileOAuthState spent st now).1 k = Some u.
Proof.
  intros Hg Hn. unfold spendProfileOAuthState.
  assert (jm_get (filter (fun e => (e.2 <? now) = false) spent) k = Some u) as Hf by (apply jm_get_filter; [done|cbn; lia]).
  destruct (jm_has _ st) eqn:Eh; cbn [fst]; [done|]. rewrite jm_get_set. case_decide as Hk; [|done]. subst.
  unfold jm_has in Eh. apply bool_decide_eq_false in Eh. exfalso. apply Eh. apply jm_get_is_Some. eauto.
Qed.

Record Callback := { cookie : option string; query : option string; code_given : bool; at_ : Z }.

(** The callbacks of one process, in order, and what each accepted. *)
Fixpoint callbacks (secret : string) (spent : Spent) (l : list Callback) : list (Callback * ProfileOAuthState) :=
  match l with
  | [] => []
  | c :: l => let '(spent, r) := callback spent secret (cookie c) (query c) (code_given c) (at_ c) (at_ c) in
              match r with Some v => [(c, v)] | None => [] end ++ callbacks secret spent l
  end.

Lemma callback_keeps spent secret c k u : jm_get spent k = Some u -> at_ c <= u ->
  jm_get (callback spent secret (cookie c) (query c) (code_given c) (at_ c) (at_ c)).1 k = Some u /\
  forall v, (callback spent secret (cookie c) (query c) (code_given c) (at_ c) (at_ c)).2 = Some v -> state v <> k.
Proof.
  intros Hg Hc. unfold callback. destruct (_ ≫= _) as [v|]; [|done]. destruct (_ && _); [|done].
  pose proof (spend_keeps spent (state v) (at_ c) k u Hg Hc) as Hk.
  destruct (spendProfileOAuthState spent (state v) (at_ c)) as [spent' first] eqn:E. cbn [fst snd] in *. split; [done|].
  intros v' Hv <-. destruct first; [|done]. injection Hv as ->. unfold spendProfileOAuthState in E.
  assert (jm_has (filter (fun e => (e.2 <? at_ c) = false) spent) (state v') = true) as Eh.
  { apply bool_decide_eq_true, jm_get_is_Some. exists u. apply jm_get_filter; [done|cbn; lia]. }
  by rewrite Eh in E.
Qed.

(** Once a state is used, no later callback accepts a cookie stamped before. *)
Lemma used_state_refused secret spent l k u c v :
  StronglySorted Z.le (at_ <$> l) -> jm_get spent k = Some u -> (c, v) ∈ callbacks secret spent l -> at_ c <= u -> state v <> k.
Proof.
  revert spent. induction l as [|c' l IH]; intros spent Hs Hg Hin Hc; [by apply elem_of_nil in Hin|]. cbn [callbacks] in Hin.
  cbn [fmap list_fmap] in Hs. apply StronglySorted_inv in Hs as [Hs Hle]. rewrite Forall_forall in Hle.
  assert (at_ c' <= u) as Hc'.
  { destruct (callback _ _ _ _ _ _ _) as [spent' r]. apply elem_of_app in Hin as [Hin|Hin].
    - destruct r; [|by apply elem_of_nil in Hin]. apply list_elem_of_singleton in Hin. congruence.
    - assert (forall s, (c, v) ∈ callbacks secret s l -> c ∈ l) as Hl.
      { clear. induction l as [|x l IH]; intros s H; [by apply elem_of_nil in H|]. cbn [callbacks] in H.
        destruct (callback _ _ _ _ _ _ _) as [s' [v'|]]; [|right; by eapply IH].
        apply elem_of_cons in H as [[= -> ->]|H]; [left|right; by eapply IH]. }
      apply Hl in Hin. specialize (Hle (at_ c) (list_elem_of_fmap_2 _ _ _ Hin)). lia. }
  destruct (callback_keeps spent secret c' k u Hg Hc') as [Hk Hn].
  destruct (callback _ _ _ _ _ _ _) as [spent' r]. cbn [fst snd] in *. apply elem_of_app in Hin as [Hin|Hin]; [|by eapply IH].
  destruct r as [v'|]; [|by apply elem_of_nil in Hin]. apply list_elem_of_singleton in Hin. injection Hin as -> ->. by apply Hn.
Qed.

Lemma callback_accepts spent secret c v spent' :
  callback spent secret (cookie c) (query c) (code_given c) (at_ c) (at_ c) = (spent', Some v) ->
  exists raw, cookie c = Some raw /\ verifyProfileOAuthState raw secret (at_ c) = Some v /\
    jm_get spent' (state v) = Some (at_ c + PROFILE_OAUTH_STATE_TTL_SEC).
Proof.
  unfold callback. destruct (cookie c) as [raw|]; [|done]. cbn [mbind option_bind].
  destruct (verifyProfileOAuthState raw secret (at_ c)) as [v'|] eqn:E; [|done]. destruct (_ && _); [|done].
  unfold spendProfileOAuthState. destruct (jm_has _ _); [done|]. intros [= <- <-]. exists raw. split_and!; [done|done|].
  rewrite jm_get_set. by rewrite decide_True.
Qed.

Lemma callbacks_accept secret spent l c v : (c, v) ∈ callbacks secret spent l ->
  exists raw, cookie c = Some raw /\ verifyProfileOAuthState raw secret (at_ c) = Some v.
Proof.
  revert spent. induction l as [|x l IH]; intros spent H; [by apply elem_of_nil in H|]. cbn [callbacks] in H.
  destruct (callback _ _ _ _ _ _ _) as [s' r] eqn:E. apply elem_of_app in H as [H|H]; [|by eapply IH].
  destruct r as [v'|]; [|by apply elem_of_nil in H]. apply list_elem_of_singleton in H. injection H as -> ->.
  apply callback_accepts in E as (raw & ? & ? & _). eauto.
Qed.

(** C35. A cookie completes one connection. Over all callbacks of a process whose clock does not go back,
    each reading one second, no cookie is accepted twice, whoever kept its value and whatever else arrived
    in between: while it could still verify, its state stays among the used ones. *)
Theorem cookie_is_accepted_once secret l i j c1 c2 v1 v2 :
  StronglySorted Z.le (at_ <$> l) ->
  callbacks secret [] l !! i = Some (c1, v1) -> callbacks secret [] l !! j = Some (c2, v2) -> (i < j)%nat ->
  cookie c1 <> cookie c2.
Proof.
  generalize (@nil (string * Z)) as spent. intros spent Hs. revert spent i j Hs. induction l as [|x l IH]; intros spent i j Hs H1 H2 Hij Hsame; [done|].
  cbn [callbacks] in H1, H2. cbn [fmap list_fmap] in Hs. apply StronglySorted_inv in Hs as [Hs Hle].
  destruct (callback _ _ _ _ _ _ _) as [spent' [v|]] eqn:E; [|by eapply (IH spent' i j)].
  destruct i as [|i]; [|destruct j as [|j]; [lia|]; eapply (IH spent' i j); [done|exact H1|exact H2|lia|done]].
  injection H1 as -> ->. destruct j as [|j]; [lia|]. cbn in H2. apply list_elem_of_lookup_2 in H2.
  apply callback_accepts in E as (raw & Hraw & Hv1 & Hused). destruct (callbacks_accept _ _ _ _ _ H2) as (raw2 & Hraw2 & Hv2).
  assert (raw2 = raw) as -> by congruence. pose proof (verify_once _ _ _ _ _ _ Hv1 Hv2) as ->.
  apply (used_state_refused secret spent' l (state v2) (at_ c1 + PROFILE_OAUTH_STATE_TTL_SEC) c2 v2); try done.
  apply verify_fields in Hv1 as (f1 & ts1 & g1 & E1 & _ & _ & _ & _ & _ & B1). apply verify_fields in Hv2 as (f2 & ts2 & g2 & E2 & _ & _ & _ & _ & _ & B2).
  rewrite E1 in E2. injection E2 as _ -> _. lia.
Qed.
End Cookie.

(** ** A round trip on concrete values *)

Definition sample_hmac (key data : list ascii) : list ascii := "h"%char :: data.
Definition sample_to (s : string) : string := unchars (hex_of (chars s)).
Definition sample_from (s : string) : string := unchars (from_hex (chars s)).
Definition sample_state : ProfileOAuthState :=
  {| state := "3f2a-77b1-0042"; profileId := "shop_1"; verifier := "abcdefghijklmnopqrstuvwxyzABCDEFGHIJKLMNOPQ";
     by_ := {| tag := "mandate:ann@x.org"; mandateId := Some "m-1"%string |} |}.
Definition sample_parse (s : string) : option jval :=
  if decide (s = principal_text (by_ sample_state)) then Some (principal_json (by_ sample_state)) else None.

Lemma signed_state_comes_back_witness : exists raw,
  signProfileOAuthState sample_hmac sample_to sample_state "secret" 1000 = Some raw /\
  verifyProfileOAuthState sample_hmac sample_from sample_parse raw "secret" 1600 = Some sample_state.
Proof.
  eexists. assert (forall P Q : Prop, P -> (P -> Q) -> P /\ Q) as Hand by tauto. apply Hand; [vm_compute; reflexivity|].
  intros H. apply (signed_state_comes_back sample_hmac sample_to sample_from sample_parse sample_state "secret" 1000 1600); [|exact H|vm_compute; reflexivity|vm_compute; split; discriminate].
  split; [vm_compute; reflexivity|]. split; [vm_compute; reflexivity|]. intros key data. discriminate.
Defined.

Definition sample_cookie : string :=
  default ""%string (signProfileOAuthState sample_hmac sample_to sample_state "secret" 1000).

Lemma accepted_cookie_was_signed_witness : exists field ts sig,
  sample_cookie = unchars (payload_of (chars (state sample_state)) (chars (profileId sample_state)) (chars (verifier sample_state)) field ts ++ dot ++ sig) /\
  digits_val ts <= 1300 <= digits_val ts + PROFILE_OAUTH_STATE_TTL_SEC.
Proof.
  destruct (accepted_cookie_was_signed sample_hmac sample_to sample_from sample_parse sample_cookie "secret" 1300 sample_state ltac:(vm_compute; reflexivity))
    as (field & ts & sig & H1 & _ & _ & _ & _ & _ & _ & H2). exists field, ts, sig. split; [exact H1|exact H2].
Defined.

Definition sample_call (n : Z) : Callback :=
  {| cookie := Some sample_cookie; query := Some (state sample_state); code_given := true; at_ := n |}.
Definition other_cookie : string :=
  default ""%string (signProfileOAuthState sample_hmac sample_to
    {| state := "55555555-1"; profileId := "shop_1"; verifier := verifier sample_state; by_ := by_ sample_state |} "secret" 1100).

Lemma cookie_is_accepted_once_witness : exists c1 c2 v1 v2,
  callbacks sample_hmac sample_from sample_parse "secret" []
    [sample_call 1000; sample_call 1600; {| cookie := Some other_cookie; query := Some "55555555-1"%string; code_given := true; at_ := 1600 |}]
    = [(c1, v1); (c2, v2)] /\ cookie c1 <> cookie c2.
Proof.
  do 4 eexists. assert (forall P Q : Prop, P -> (P -> Q) -> P /\ Q) as Hand by tauto. apply Hand; [vm_compute; reflexivity|]. intros H.
  refine (cookie_is_accepted_once sample_hmac sample_from sample_parse "secret"
    [sample_call 1000; sample_call 1600; {| cookie := Some other_cookie; query := Some "55555555-1"%string; code_given := true; at_ := 1600 |}]
    0 1 _ _ _ _ _ _ _ _).
  - cbn. repeat constructor; vm_compute; discriminate.
  - rewrite H. reflexivity.
  - rewrite H. reflexivity.
  - lia.
Defined.

(** With a clock that turns to the next second between the two readings of one callback, a cookie used in
    the second it was stamped is accepted again at the end of its ten minutes. *)
Lemma second_tick_admits_a_replay :
  let first := callback sample_hmac sample_from sample_parse [] "secret" (Some sample_cookie) (Some (state sample_state)) true 1000 1000 in
  first.2 = Some sample_state /\
  (callback sample_hmac sample_from sample_parse first.1 "secret" (Some sample_cookie) (Some (state sample_state)) true 1600 1601).2 = Some sample_state.
Proof. split; vm_compute; reflexivity. Qed.
