(* ===== verification/MandateEnds.v ===== *)
(** When each mandate ends, [core/mandate-ends.ts]: the table of ends and revocations, the
    per-process cache in front of it and the listeners told of a change.

    The three SQL statements are translated by what they do to a table keyed by mandate id. Whether
    the listeners of an extension complete or throw is an argument. *)
From S2P Require Import Prelude JsString Principal.
Local Open Scope Z_scope.

(** @src src/src/core/mandate-ends.ts 140-142 row *)
Record EndRow := { ends_at : Z; issued_at : Z; revoked_at : option Z }.

(** @src src/src/core/mandate-ends.ts 30-38 MandateEnds *)
Record MandateEnds := { table : gmap string EndRow; recorded : gmap string (Z * Z) }.

(** What [extendListeners] and [revokeListeners] are told. *)
Inductive notice :=
| Extended (id : string) (before : EndRow) (nowS : Z) (email : string)
| Revoked (id : string).

(** The upsert's [WHERE]: not revoked, and a later login or the earlier end of the same second. *)
(** @src src/src/core/mandate-ends.ts 50-55 upsert *)
Definition upsert (t : gmap string EndRow) (id : string) (ends issued : Z) : gmap string EndRow * bool :=
  match t !! id with
  | None => (<[id := {| ends_at := ends; issued_at := issued; revoked_at := None |}]> t, true)
  | Some r =>
      if bool_decide (r.(revoked_at) = None) &&
         ((r.(issued_at) <? issued) || ((issued =? r.(issued_at)) && (ends <? r.(ends_at))))
      then (<[id := {| ends_at := ends; issued_at := issued; revoked_at := None |}]> t, true)
      else (t, false)
  end.

(** @src src/src/core/mandate-ends.ts 56-60 revokeStmt *)
Definition revokeStmt (t : gmap string EndRow) (id : string) (at' : Z) : gmap string EndRow * bool :=
  match t !! id with
  | None => (<[id := {| ends_at := at'; issued_at := 0; revoked_at := Some at' |}]> t, true)
  | Some r =>
      match r.(revoked_at) with
      | None => (<[id := {| ends_at := r.(ends_at); issued_at := r.(issued_at); revoked_at := Some at' |}]> t, true)
      | Some _ => (t, false)
      end
  end.

Section Recording.
(** Whether the extension listeners complete on this notice. *)
Variable listen : notice -> bool.

(** The transaction: [Err] when a listener threw, and then nothing is written. *)
(** @src src/src/core/mandate-ends.ts 62-72 recordTx *)
Definition recordTx (t : gmap string EndRow) (nowS : Z) (id : string) (ends issued : Z) (email : string)
    : result notice (gmap string EndRow) * list notice :=
  let before := t !! id in
  let '(t', changed) := upsert t id ends issued in
  match before with
  | Some b =>
      if negb changed || negb (bool_decide (b.(revoked_at) = None)) || (nowS <? b.(ends_at))
      then (Ok t', [])
      else let n := Extended id b nowS email in
           if listen n then (Ok t', [n]) else (Err n, [n])
  | None => (Ok t', [])
  end.

(** @src src/src/core/mandate-ends.ts 74-87 record *)
Definition record (m : MandateEnds) (p : RequestPrincipal) (issued nowS : Z)
    : result notice MandateEnds * list notice :=
  match p with
  | Mandate email (Some id) (Some exp) =>
      let skip := match m.(recorded) !! id with
        | Some (i, e) => (issued <? i) || ((issued =? i) && (e <=? exp))
        | None => false end in
      if skip then (Ok m, [])
      else match recordTx m.(table) nowS id exp issued email with
           | (Ok t', ns) => (Ok {| table := t'; recorded := <[id := (issued, exp)]> m.(recorded) |}, ns)
           | (Err n, ns) => (Err n, ns)
           end
  | _ => (Ok m, [])
  end.

(** @src src/src/core/mandate-ends.ts 89-106 revoke *)
Definition revoke (m : MandateEnds) (id : string) (at' : Z) : MandateEnds * bool * list notice :=
  let '(t', changed) := revokeStmt m.(table) id at' in
  if changed then ({| table := t'; recorded := m.(recorded) |}, true, [Revoked id])
  else (m, false, []).

(** @src src/src/core/mandate-ends.ts 129-132 endOf *)
Definition endOf (t : gmap string EndRow) (id : string) : option Z := ends_at <$> t !! id.

(** @src src/src/core/mandate-ends.ts 134-138 isLive *)
Definition isLive (t : gmap string EndRow) (id : string) (nowS : Z) : bool :=
  match t !! id with
  | Some r => bool_decide (r.(revoked_at) = None) && (nowS <? r.(ends_at))
  | None => false
  end.

(** ** Traces *)

Inductive event :=
| Login (p : RequestPrincipal) (issued nowS : Z)
| Revoke (id : string) (at' : Z).

(** One event with the cache; a login that throws leaves the state as it was. *)
Definition step (m : MandateEnds) (e : event) : MandateEnds * list notice :=
  match e with
  | Login p issued nowS =>
      match record m p issued nowS with (Ok m', ns) => (m', ns) | (Err _, ns) => (m, ns) end
  | Revoke id at' => let '(m', _, ns) := revoke m id at' in (m', ns)
  end.

(** The same event against the table alone: every request takes the write lock. *)
Definition step_uncached (t : gmap string EndRow) (e : event) : gmap string EndRow * list notice :=
  match e with
  | Login (Mandate email (Some id) (Some exp)) issued nowS =>
      match recordTx t nowS id exp issued email with (Ok t', ns) => (t', ns) | (Err _, ns) => (t, ns) end
  | Login _ _ _ => (t, [])
  | Revoke id at' =>
      let '(t', changed) := revokeStmt t id at' in if changed then (t', [Revoked id]) else (t, [])
  end.

Fixpoint run (m : MandateEnds) (es : list event) : MandateEnds * list notice :=
  match es with
  | [] => (m, [])
  | e :: es' => let '(m', ns) := step m e in let '(m'', ns') := run m' es' in (m'', ns ++ ns')
  end.
Fixpoint run_uncached (t : gmap string EndRow) (es : list event) : gmap string EndRow * list notice :=
  match es with
  | [] => (t, [])
  | e :: es' =>
      let '(t', ns) := step_uncached t e in let '(t'', ns') := run_uncached t' es' in (t'', ns ++ ns')
  end.

(** ** The cache changes nothing *)

(** The row has moved at least as far as login [(i, e)]. *)
Definition covers (r : EndRow) (i e : Z) : Prop :=
  revoked_at r <> None \/ i < issued_at r \/ (issued_at r = i /\ ends_at r <= e).

Definition cache_ok (m : MandateEnds) : Prop :=
  forall id i e, recorded m !! id = Some (i, e) -> exists r, table m !! id = Some r /\ covers r i e.

(** The upsert leaves a row that covers the login. *)
Lemma upsert_covers t id ends issued :
  exists r, (upsert t id ends issued).1 !! id = Some r /\ covers r issued ends.
Proof.
  unfold upsert, covers. destruct (t !! id) as [r|] eqn:E.
  - destruct (bool_decide_reflect (revoked_at r = None)) as [Hr|Hr]; simpl; [|eauto].
    destruct (Z.ltb_spec (issued_at r) issued); simpl;
      [eexists; rewrite lookup_insert_eq; split; [done|simpl; lia]|].
    destruct (Z.eqb_spec issued (issued_at r)); simpl; [|exists r; split; [done|lia]].
    destruct (Z.ltb_spec ends (ends_at r)); simpl;
      [eexists; rewrite lookup_insert_eq; split; [done|simpl; lia]|exists r; split; [done|lia]].
  - eexists. simpl. rewrite lookup_insert_eq. split; [done|simpl; lia].
Qed.

Lemma upsert_keeps_cover t id ends issued id' r i e :
  t !! id' = Some r -> covers r i e ->
  exists r', (upsert t id ends issued).1 !! id' = Some r' /\ covers r' i e.
Proof.
  intros Hr Hc. unfold upsert. destruct (decide (id = id')) as [->|Hne].
  - rewrite Hr. destruct (bool_decide_reflect (revoked_at r = None)) as [Hn|]; simpl; [|eauto].
    destruct (_ || _) eqn:E; simpl; [|eauto].
    eexists. rewrite lookup_insert_eq. split; [done|].
    apply orb_true_iff in E. rewrite andb_true_iff, !Z.ltb_lt, Z.eqb_eq in E.
    unfold covers in *. simpl. destruct Hc as [?|?]; [done|lia].
  - destruct (t !! id) as [r0|]; [destruct (_ && _)|]; simpl; rewrite ?lookup_insert_ne by done; eauto.
Qed.

(** A login the cache skips would not have changed the table. *)
Lemma covered_upsert t id ends issued r i e :
  t !! id = Some r -> covers r i e ->
  (issued <? i) || ((issued =? i) && (e <=? ends)) = true -> upsert t id ends issued = (t, false).
Proof.
  intros Hr Hc Hs. unfold upsert. rewrite Hr.
  destruct (bool_decide_reflect (revoked_at r = None)) as [Hn|]; [simpl|done].
  apply orb_true_iff in Hs. rewrite andb_true_iff, Z.ltb_lt, Z.eqb_eq, Z.leb_le in Hs.
  destruct (_ || _) eqn:E; [|done]. apply orb_true_iff in E.
  rewrite andb_true_iff, !Z.ltb_lt, Z.eqb_eq in E. destruct Hc as [?|?]; [done|lia].
Qed.

Lemma recordTx_Ok t nowS id ends issued email t' ns :
  recordTx t nowS id ends issued email = (Ok t', ns) -> t' = (upsert t id ends issued).1.
Proof.
  unfold recordTx. destruct (upsert _ _ _ _) as [t1 ch]. simpl.
  destruct (t !! id); [destruct (_ || _); [|destruct (listen _)]|]; intros; by simplify_eq.
Qed.

Lemma step_cache m e :
  cache_ok m ->
  cache_ok (step m e).1 /\ table (step m e).1 = (step_uncached (table m) e).1 /\
  (step m e).2 = (step_uncached (table m) e).2.
Proof.
  intros Hm. destruct e as [p issued nowS|id at']; simpl.
  - destruct p as [|email [id|] [exp|]|]; try done. simpl.
    destruct (match recorded m !! id with Some _ => _ | None => false end) eqn:Es; simpl.
    + destruct (recorded m !! id) as [[i e]|] eqn:Er; [|done].
      destruct (Hm _ _ _ Er) as (r & Hr & Hc).
      unfold recordTx. rewrite (covered_upsert _ _ _ _ _ _ _ Hr Hc Es), Hr. done.
    + destruct (recordTx (table m) nowS id exp issued email) as [[t'|n] ns] eqn:Et; simpl; [|done].
      apply recordTx_Ok in Et as ->. split; [|done]. intros id' i e. simpl.
      destruct (decide (id = id')) as [->|Hne].
      * rewrite lookup_insert_eq. intros [= <- <-]. apply upsert_covers.
      * rewrite lookup_insert_ne by done. intros Hr. destruct (Hm _ _ _ Hr) as (r & H1 & H2).
        by eapply upsert_keeps_cover.
  - unfold revoke, revokeStmt.
    destruct (table m !! id) as [r|] eqn:Er; [destruct (revoked_at r) eqn:Ev|]; simpl; try done;
      (split; [|done]); intros id' i e Hi; destruct (Hm _ _ _ Hi) as (r' & H1 & H2); simpl;
      (destruct (decide (id = id')) as [->|];
        [rewrite lookup_insert_eq; eexists; split; [done|by left]|rewrite lookup_insert_ne by done; eauto]).
Qed.

Lemma cache_transparent t es :
  let m := {| table := t; recorded := ∅ |} in
  table (run m es).1 = (run_uncached t es).1 /\ (run m es).2 = (run_uncached t es).2.
Proof.
  assert (forall m, cache_ok m -> table (run m es).1 = (run_uncached (table m) es).1 /\
    (run m es).2 = (run_uncached (table m) es).2) as H; [|by apply (H {| table := t; recorded := ∅ |})].
  induction es as [|e es IH]; intros m Hm; [done|]. cbn [run run_uncached].
  destruct (step_cache m e Hm) as (Hc & Ht & Hn).
  destruct (step m e) as [m' ns], (step_uncached (table m) e) as [t' ns'] eqn:E. simpl in *. subst.
  destruct (IH m' Hc) as [H1 H2]. destruct (run m' es), (run_uncached (table m') es). simpl in *.
  by subst.
Qed.

(** The per-process cache that spares a repeated login the write lock is invisible: over any
    sequence of logins and revocations, whichever listeners throw, the table and the notices sent
    are those of an engine that writes on every request. *)
Theorem login_cache_transparent t es :
  let m := {| table := t; recorded := ∅ |} in
  table (run m es).1 = (run_uncached t es).1 /\ (run m es).2 = (run_uncached t es).2.
Proof. apply cache_transparent. Qed.
End Recording.

(** ** Who is live *)

(** The logins of one mandate in a trace, as (login time, end), and whether it was revoked. *)
Definition logins (id : string) (es : list event) : list (Z * Z) :=
  omap (fun e => match e with
    | Login (Mandate _ (Some i) (Some exp)) issued _ => if decide (i = id) then Some (issued, exp) else None
    | _ => None end) es.
Definition revoked_in (id : string) (es : list event) : bool :=
  existsb (fun e => match e with Revoke i _ => bool_decide (i = id) | _ => false end) es.

(** The latest login; of two in the same second the one with the earlier end. *)
Definition latest (l : list (Z * Z)) (x : Z * Z) : Prop :=
  x ∈ l /\ forall y, y ∈ l -> y.1 < x.1 \/ (y.1 = x.1 /\ x.2 <= y.2).

Definition row_ok (t : gmap string EndRow) (es : list event) (id : string) : Prop :=
  match t !! id with
  | None => logins id es = [] /\ revoked_in id es = false
  | Some r => (revoked_at r = None <-> revoked_in id es = false) /\
              (revoked_at r = None -> latest (logins id es) (issued_at r, ends_at r))
  end.

Lemma logins_snoc id es e : logins id (es ++ [e]) = logins id es ++ logins id [e].
Proof. unfold logins. apply omap_app. Qed.
Lemma revoked_in_snoc id es e : revoked_in id (es ++ [e]) = revoked_in id es || revoked_in id [e].
Proof. unfold revoked_in. by rewrite existsb_app. Qed.

Lemma logins_login id' email id exp issued nowS :
  logins id' [Login (Mandate email (Some id) (Some exp)) issued nowS]
  = if decide (id = id') then [(issued, exp)] else [].
Proof. unfold logins. simpl. by case_decide. Qed.
Lemma revoked_in_one id' e :
  revoked_in id' [e] = match e with Revoke i _ => bool_decide (i = id') | _ => false end.
Proof. unfold revoked_in. simpl. by rewrite orb_false_r. Qed.

Lemma latest_snoc_new l x : (forall y, y ∈ l -> y.1 < x.1 \/ (y.1 = x.1 /\ x.2 <= y.2)) -> latest (l ++ [x]) x.
Proof.
  intros H. split; [apply elem_of_app; right; by left|].
  intros y [?|Hy]%elem_of_app; [auto|]. apply list_elem_of_singleton in Hy as ->. lia.
Qed.

Lemma latest_snoc_old l x y : latest l x -> y.1 < x.1 \/ (y.1 = x.1 /\ x.2 <= y.2) -> latest (l ++ [y]) x.
Proof.
  intros [Hx Hl] Hy. split; [apply elem_of_app; by left|].
  intros z [?|Hz]%elem_of_app; [auto|]. by apply list_elem_of_singleton in Hz as ->.
Qed.

Lemma upsert_row_ok t es email id exp issued nowS id' :
  row_ok t es id' ->
  row_ok (upsert t id exp issued).1 (es ++ [Login (Mandate email (Some id) (Some exp)) issued nowS]) id'.
Proof.
  unfold row_ok. rewrite logins_snoc, revoked_in_snoc, logins_login, revoked_in_one, orb_false_r.
  destruct (decide (id = id')) as [->|Hne].
  - unfold upsert. destruct (t !! id') as [r|] eqn:Er.
    + intros [H1 H2]. destruct (bool_decide_reflect (revoked_at r = None)) as [Hn|Hn]; simpl.
      * specialize (H2 Hn). destruct (_ || _) eqn:E; simpl; rewrite ?lookup_insert_eq, ?Er; simpl.
        -- split; [by rewrite <-H1|]. intros _. apply latest_snoc_new. intros y Hy.
           apply (proj2 H2) in Hy. simpl in *. apply orb_true_iff in E.
           rewrite andb_true_iff, !Z.ltb_lt, Z.eqb_eq in E. lia.
        -- split; [done|]. intros _. apply latest_snoc_old; [done|]. simpl.
           apply orb_false_iff in E as [E1 E2]. apply Z.ltb_ge in E1.
           apply andb_false_iff in E2. rewrite Z.eqb_neq, Z.ltb_ge in E2. lia.
      * rewrite Er. split; [done|]. by intros.
    + intros [H1 H2]. simpl. rewrite lookup_insert_eq. simpl. rewrite H1, H2. split; [done|].
      intros _. apply (latest_snoc_new [] (issued, exp)). intros y Hy. by apply elem_of_nil in Hy.
  - rewrite app_nil_r. unfold upsert.
    destruct (t !! id) as [r|]; [destruct (_ && _)|]; simpl; by rewrite ?lookup_insert_ne.
Qed.

Lemma revoke_row_ok t es id at' id' :
  row_ok t es id' -> row_ok (revokeStmt t id at').1 (es ++ [Revoke id at']) id'.
Proof.
  unfold row_ok. rewrite logins_snoc, revoked_in_snoc, revoked_in_one.
  change (logins id' [Revoke id at']) with (@nil (Z * Z)). rewrite app_nil_r. destruct (bool_decide_reflect (id = id')) as [->|Hne].
  - unfold revokeStmt. destruct (t !! id') as [r|] eqn:Er; [destruct (revoked_at r) eqn:Ev|];
      simpl; rewrite ?lookup_insert_eq, ?Er; simpl; rewrite ?Ev, orb_true_r; by split.
  - rewrite orb_false_r. unfold revokeStmt.
    destruct (t !! id) as [r|]; [destruct (revoked_at r)|]; simpl; by rewrite ?lookup_insert_ne.
Qed.

Lemma step_uncached_row_ok t es e id :
  row_ok t es id -> row_ok (step_uncached (fun _ => true) t e).1 (es ++ [e]) id.
Proof.
  intros H. destruct e as [p issued nowS|i at']; simpl.
  - destruct p as [|email [i|] [exp|]|]; simpl.
    2: { destruct (recordTx _ _ _ _ _ _ _) as [[t'|n] ns] eqn:E.
         - apply recordTx_Ok in E as ->. by apply upsert_row_ok.
         - unfold recordTx in E. destruct (upsert _ _ _ _), (t !! i); [|done]. by destruct (_ || _). }
    all: unfold row_ok in *; rewrite logins_snoc, revoked_in_snoc, revoked_in_one, orb_false_r;
      by rewrite app_nil_r.
  - pose proof (revoke_row_ok t es i at' id H) as Hr. unfold revokeStmt in *.
    destruct (t !! i) as [r|] eqn:E; [destruct (revoked_at r)|]; done.
Qed.

Lemma run_uncached_row_ok es' t es id :
  row_ok t es id -> row_ok (run_uncached (fun _ => true) t es').1 (es ++ es') id.
Proof.
  revert t es. induction es' as [|e es' IH]; intros t es H; [by rewrite app_nil_r|].
  cbn [run_uncached]. apply (step_uncached_row_ok t es e) in H.
  destruct (step_uncached _ t e) as [t' ns]. apply IH in H.
  rewrite <-app_assoc in H. cbn [fst] in H. destruct (run_uncached _ t' es'). exact H.
Qed.

(** After any sequence of logins and revocations on a new table, in any order, a mandate is live
    at [nowS] exactly when it was never revoked and its latest login (of two in the same second,
    the one with the earlier end) ends after [nowS]. A mandate no login was recorded for is not
    live, a request of an older session never moves the end back, and a revocation is final. *)
Theorem mandate_live_iff es id nowS :
  let m := (run (fun _ => true) {| table := ∅; recorded := ∅ |} es).1 in
  isLive (table m) id nowS = true <->
  revoked_in id es = false /\ exists x, latest (logins id es) x /\ nowS < x.2.
Proof.
  cbn zeta. destruct (cache_transparent (fun _ => true) ∅ es) as [-> _].
  pose proof (run_uncached_row_ok es ∅ [] id) as H. ospecialize (H _); [done|]. simpl in H.
  unfold row_ok, isLive in *. destruct (_ !! id) as [r|].
  - destruct H as [H1 H2]. rewrite andb_true_iff, bool_decide_eq_true, Z.ltb_lt, H1. split.
    + intros [Hr Hlt]. split; [done|]. exists (issued_at r, ends_at r). split; [apply H2; by rewrite H1|done].
    + intros [Hr ((i, e) & [Hin Hl] & Hlt)]. split; [done|].
      destruct (H2 (proj2 H1 Hr)) as [Hin' Hl']. specialize (Hl _ Hin'). specialize (Hl' _ Hin).
      simpl in *. lia.
  - destruct H as [H1 H2]. rewrite H1. split; [done|]. intros [_ (x & [Hx _] & _)].
    by apply elem_of_nil in Hx.
Qed.
