(* ===== verification/RunBuffer.v ===== *)
(** The live event buffer of a run, [core/run-buffer.ts]: a bounded ring of numbered events a
    reconnecting client replays from, the live subscribers, and the tails that are closed when the
    grant of their holder ends.

    A callback is known by a name, which stands for the identity of the JavaScript function; what a
    call does is the list of callbacks it ran, in order. A callback that throws is ignored by the
    code, so it does not appear in the model. Callbacks that call back into the buffer while it
    iterates are not modelled. *)
From S2P Require Import Prelude JsString Principal.

(** [Set.delete]. *)
Definition js_set_del (s : list string) (x : string) : list string := filter (fun y => y <> x) s.

Section RunBuffer.
Context {E : Type}.

(** @src src/src/core/run-buffer.ts 25-30 BufferedEvent *)
Definition BufferedEvent : Type := Z * E.

(** @src src/src/core/run-buffer.ts 35-41 TailHolder *)
Record TailHolder := { holder_principal : RequestPrincipal; close : string }.

(** @src src/src/core/run-buffer.ts 49-57 RunBuffer *)
Record RunBuffer := {
  seq_ : Z; ring : list BufferedEvent; cap : nat;
  eventSubs : list string; endSubs : list string;
  holders : list (string * (TailHolder * option string));
  ended : bool }.

(** @src src/src/core/run-buffer.ts 43-47 DEFAULT_RUN_BUFFER_CAP *)
Definition DEFAULT_RUN_BUFFER_CAP : Z := 1000.

(** @src src/src/core/run-buffer.ts 58-60 constructor *)
Definition newRunBuffer (c : option Z) : RunBuffer :=
  {| seq_ := 0; ring := []; cap := Z.to_nat (Z.max 1 (default DEFAULT_RUN_BUFFER_CAP c));
     eventSubs := []; endSubs := []; holders := []; ended := false |}.

(** The new state, the returned number and the deliveries. *)
(** @src src/src/core/run-buffer.ts 62-81 append *)
Definition append (b : RunBuffer) (event : E) : RunBuffer * Z * list (string * BufferedEvent) :=
  if b.(ended) then (b, b.(seq_), [])
  else
    let seq := (b.(seq_) + 1)%Z in
    let entry := (seq, event) in
    let ring := b.(ring) ++ [entry] in
    let ring := if bool_decide (b.(cap) < length ring)%nat then tail ring else ring in
    ({| seq_ := seq; ring := ring; cap := b.(cap); eventSubs := b.(eventSubs);
        endSubs := b.(endSubs); holders := b.(holders); ended := false |},
     seq, (fun sub => (sub, entry)) <$> b.(eventSubs)).

(** @src src/src/core/run-buffer.ts 83-88 currentSeq *)
Definition currentSeq (b : RunBuffer) : Z := b.(seq_).

(** @src src/src/core/run-buffer.ts 90-95 oldestSeq *)
Definition oldestSeq (b : RunBuffer) : Z :=
  match b.(ring) with [] => 0 | e :: _ => e.1 end.

(** @src src/src/core/run-buffer.ts 97-102 replaySince *)
Definition replaySince (b : RunBuffer) (since : Z) : list BufferedEvent :=
  if bool_decide (since <= 0)%Z then b.(ring) else filter (fun e => since < e.1)%Z b.(ring).

(** The state, and the callbacks queued for the next tick. *)
(** @src src/src/core/run-buffer.ts 104-116 subscribe *)
Definition subscribe (b : RunBuffer) (onEvent : string) (onEnd : option string)
    (holder : option TailHolder) : RunBuffer * list string :=
  if b.(ended) then (b, option_list onEnd)
  else
    ({| seq_ := b.(seq_); ring := b.(ring); cap := b.(cap);
        eventSubs := js_set_add b.(eventSubs) onEvent;
        endSubs := match onEnd with Some f => js_set_add b.(endSubs) f | None => b.(endSubs) end;
        holders := match holder with
          | Some h => jm_set b.(holders) onEvent (h, onEnd)
          | None => b.(holders) end;
        ended := false |}, []).

(** The function [subscribe] returns, also what [closeEndedTails] does to one tail. *)
(** @src src/src/core/run-buffer.ts 117-122 unsubscribe *)
Definition unsubscribe (b : RunBuffer) (onEvent : string) (onEnd : option string) : RunBuffer :=
  {| seq_ := b.(seq_); ring := b.(ring); cap := b.(cap);
     eventSubs := js_set_del b.(eventSubs) onEvent;
     endSubs := match onEnd with Some f => js_set_del b.(endSubs) f | None => b.(endSubs) end;
     holders := jm_del b.(holders) onEvent; ended := b.(ended) |}.

(** The loop over a copy of the holders; the closed responses in order. *)
(** @src src/src/core/run-buffer.ts 124-140 closeEndedTails *)
Definition closeEndedTails (b : RunBuffer) (isLive : string -> bool) : RunBuffer * list string :=
  let body acc (x : string * (TailHolder * option string)) :=
    let '(onEvent, (h, onEnd)) := x in
    if principalHasEnded h.(holder_principal) isLive
    then (unsubscribe acc.1 onEvent onEnd, acc.2 ++ [h.(close)]) else acc in
  foldl body (b, []) b.(holders).

(** The state and the end callbacks that ran. *)
(** @src src/src/core/run-buffer.ts 142-154 end *)
Definition end_ (b : RunBuffer) : RunBuffer * list string :=
  if b.(ended) then (b, [])
  else ({| seq_ := b.(seq_); ring := b.(ring); cap := b.(cap); eventSubs := []; endSubs := [];
           holders := []; ended := true |}, b.(endSubs)).

(** @src src/src/core/run-buffer.ts 160-162 subscriberCount *)
Definition subscriberCount (b : RunBuffer) : nat := length b.(eventSubs).

(** ** The registry of live runs *)

(** @src src/src/core/run-buffer.ts 171-178 RunBufferManager *)
Definition RunBufferManager : Type := list (string * RunBuffer).
Definition create (m : RunBufferManager) (runId : string) (c : option Z) : RunBufferManager :=
  jm_set m runId (newRunBuffer c).

(** @src src/src/core/run-buffer.ts 180-182 get *)
Definition get (m : RunBufferManager) (runId : string) : option RunBuffer := jm_get m runId.

(** @src src/src/core/run-buffer.ts 184-190 remove *)
Definition remove (m : RunBufferManager) (runId : string) : RunBufferManager * list string :=
  match jm_get m runId with
  | None => (m, [])
  | Some buf => (jm_del m runId, (end_ buf).2)
  end.

(** @src src/src/core/run-buffer.ts 196-201 closeEndedTails *)
Definition manager_closeEndedTails (m : RunBufferManager) (isLive : string -> bool)
    : RunBufferManager * nat :=
  (prod_map id (fun b => (closeEndedTails b isLive).1) <$> m,
   sum_list_with (fun e => length (closeEndedTails e.2 isLive).2) m).

(** ** What a client sees *)

(** What may happen to a buffer while the run is live. *)
Inductive op :=
| Append (e : E)
| Subscribe (onEvent : string) (onEnd : option string) (holder : option TailHolder)
| Unsubscribe (onEvent : string) (onEnd : option string)
| CloseEnded (isLive : string -> bool).

Definition op_step (b : RunBuffer) (o : op) : RunBuffer * list (string * BufferedEvent) :=
  match o with
  | Append e => let '(b', _, d) := append b e in (b', d)
  | Subscribe f g h => ((subscribe b f g h).1, [])
  | Unsubscribe f g => (unsubscribe b f g, [])
  | CloseEnded live => ((closeEndedTails b live).1, [])
  end.
Fixpoint run (b : RunBuffer) (ops : list op) : RunBuffer * list (string * BufferedEvent) :=
  match ops with
  | [] => (b, [])
  | o :: ops' => let '(b', d) := op_step b o in let '(b'', d') := run b' ops' in (b'', d ++ d')
  end.

Definition appended (ops : list op) : list E :=
  omap (fun o => match o with Append e => Some e | _ => None end) ops.
(** What one callback was called with. *)
Definition received (c : string) (d : list (string * BufferedEvent)) : list BufferedEvent :=
  omap (fun x => if decide (x.1 = c) then Some x.2 else None) d.

(** A history numbered from [k]. *)
Fixpoint number (k : Z) (h : list E) : list BufferedEvent :=
  match h with [] => [] | e :: h' => (k, e) :: number (k + 1) h' end.

Lemma number_app k h1 h2 : number k (h1 ++ h2) = number k h1 ++ number (k + Z.of_nat (length h1)) h2.
Proof.
  revert k. induction h1 as [|e h1 IH]; intros k; simpl; [by rewrite Z.add_0_r|].
  rewrite IH. do 3 f_equal. lia.
Qed.
Lemma number_length k h : length (number k h) = length h.
Proof. revert k. induction h; intros; simpl; auto. Qed.
Lemma number_ge k h x : x ∈ number k h -> (k <= x.1 < k + Z.of_nat (length h))%Z.
Proof.
  revert k. induction h as [|e h IH]; intros k; simpl; [by intros ?%elem_of_nil|].
  intros [->|Hx%IH]%elem_of_cons; simpl; lia.
Qed.

Lemma tail_drop_snoc {A} n (l : list A) x :
  (n < length l)%nat -> tail (drop n l ++ [x]) = drop (S n) (l ++ [x]).
Proof.
  revert n. induction l as [|y l IH]; intros [|n]; simpl; try lia; [done|].
  intros. apply IH. lia.
Qed.

(** The buffer holds the end of the history [h]: as much as fits. *)
Record holds (b : RunBuffer) (h : list E) : Prop := {
  h_live : b.(ended) = false;
  h_cap : (1 <= b.(cap))%nat;
  h_seq : b.(seq_) = Z.of_nat (length h);
  h_ring : b.(ring) = drop (length h - b.(cap)) (number 1 h);
  h_subs : NoDup b.(eventSubs) }.

Lemma new_holds c : holds (newRunBuffer c) [].
Proof. constructor; simpl; try done; [lia|constructor]. Qed.

Lemma append_holds b h e : holds b h -> holds (append b e).1.1 (h ++ [e]).
Proof.
  intros [Hl Hc Hs Hr Hn]. unfold append. rewrite Hl. constructor; simpl; try done.
  - rewrite Hs, length_app. simpl. lia.
  - rewrite Hr, Hs, number_app, !length_app, length_drop, number_length.
    replace (number (1 + Z.of_nat (length h)) [e]) with [((Z.of_nat (length h) + 1)%Z, e)]
      by (simpl; do 2 f_equal; lia). simpl length.
    destruct (decide (cap b <= length h)%nat).
    + rewrite bool_decide_eq_true_2 by lia.
      replace (length h + 1 - cap b)%nat with (S (length h - cap b)) by lia.
      apply tail_drop_snoc. rewrite number_length. lia.
    + rewrite bool_decide_eq_false_2 by lia.
      replace (length h + 1 - cap b)%nat with 0%nat by lia.
      by replace (length h - cap b)%nat with 0%nat by lia.
Qed.

(** What does not touch the ring. *)
Lemma other_holds b b' h :
  holds b h -> seq_ b' = seq_ b -> ring b' = ring b -> cap b' = cap b -> ended b' = ended b ->
  NoDup (eventSubs b') -> holds b' h.
Proof. intros [] Hs Hr Hc He Hn. constructor; try done; congruence. Qed.

Lemma unsubscribe_holds b h f g : holds b h -> holds (unsubscribe b f g) h.
Proof. intros H. eapply other_holds; [done..|]. simpl. apply NoDup_filter, H. Qed.

Lemma closeEnded_ind (P : RunBuffer -> Prop) b live :
  P b ->
  (forall b' f h g, P b' -> (f, (h, g)) ∈ holders b -> principalHasEnded (holder_principal h) live = true ->
    P (unsubscribe b' f g)) ->
  P (closeEndedTails b live).1.
Proof.
  intros H0 Hs. unfold closeEndedTails. set (body := fun acc x => _).
  assert (P (b, @nil string).1) as H1 by done. revert H1 Hs.
  generalize (b, @nil string) as acc. generalize (holders b) as hs.
  induction hs as [|[f [h g]] hs IH]; intros acc H1 Hs; [done|]. simpl. apply IH.
  - unfold body. destruct (principalHasEnded _ _) eqn:Ee; [|done].
    eapply Hs; [done|by left|done].
  - intros. eapply Hs; [done|by right|done].
Qed.

Lemma op_holds b h o : holds b h -> holds (op_step b o).1 (h ++ appended [o]).
Proof.
  intros H. destruct o as [e|f g hd|f g|live]; unfold appended; simpl; rewrite ?app_nil_r.
  - pose proof (append_holds b h e H) as Ha. by destruct (append b e) as [[??]?].
  - unfold subscribe. rewrite (h_live _ _ H). eapply other_holds; [done..|symmetry; apply H|].
    apply js_set_add_NoDup, H.
  - by apply unsubscribe_holds.
  - apply (closeEnded_ind (fun b => holds b h)); [done|]. intros. by apply unsubscribe_holds.
Qed.

Lemma appended_cons o ops : appended (o :: ops) = appended [o] ++ appended ops.
Proof. unfold appended. by destruct o. Qed.

Lemma run_holds ops b h : holds b h -> holds (run b ops).1 (h ++ appended ops).
Proof.
  revert b h. induction ops as [|o ops IH]; intros b h H; [by rewrite app_nil_r|].
  rewrite appended_cons, app_assoc. cbn [run]. apply (op_holds b h o) in H.
  destruct (op_step b o) as [b' d]. apply IH in H. cbn [fst] in H.
  destruct (run b' ops). exact H.
Qed.

(** An operation that leaves client [c], whose tail is held by [p], subscribed. *)
Definition keeps (c : string) (p : RequestPrincipal) (o : op) : Prop :=
  match o with
  | Append _ => True
  | Subscribe f _ _ | Unsubscribe f _ => f <> c
  | CloseEnded live => principalHasEnded p live = false
  end.

(** Client [c] is subscribed, and any tail registered under its name is held by [p]. *)
Definition tailing (c : string) (p : RequestPrincipal) (b : RunBuffer) : Prop :=
  c ∈ eventSubs b /\ forall h g, (c, (h, g)) ∈ holders b -> holder_principal h = p.

Lemma elem_of_jm_set {V} (m : list (string * V)) k v x :
  x ∈ jm_set m k v -> x = (k, v) \/ x ∈ m.
Proof.
  induction m as [|[k0 v0] m IH]; simpl; [set_solver|]. case_decide; set_solver.
Qed.
Lemma elem_of_jm_del {V} (m : list (string * V)) k x : x ∈ jm_del m k -> x ∈ m.
Proof. induction m as [|[k0 v0] m IH]; simpl; [done|]. case_decide; set_solver. Qed.

Lemma unsubscribe_tailing c p b f g : f <> c -> tailing c p b -> tailing c p (unsubscribe b f g).
Proof.
  intros Hf [H1 H2]. split; simpl.
  - unfold js_set_del. apply list_elem_of_filter. split; [done|done].
  - intros h g' Hin. eapply H2, elem_of_jm_del, Hin.
Qed.

Lemma op_tailing c p b o :
  b.(ended) = false -> keeps c p o -> tailing c p b -> tailing c p (op_step b o).1.
Proof.
  intros Hl Hk Ht. destruct o as [e|f g hd|f g|live]; simpl in *.
  - unfold append. by rewrite Hl.
  - unfold subscribe. rewrite Hl. destruct Ht as [H1 H2]. split; simpl.
    + apply elem_of_js_set_add. by left.
    + destruct hd as [hd|]; [|done]. intros h g' [?|?]%elem_of_jm_set; [naive_solver|eauto].
  - by apply unsubscribe_tailing.
  - apply (closeEnded_ind (fun b' => tailing c p b')); [done|].
    intros b' f h g Hb Hin He. apply unsubscribe_tailing; [|done]. intros ->.
    destruct Ht as [_ H2]. rewrite (H2 _ _ Hin) in He. congruence.
Qed.

Lemma received_all c s (x : BufferedEvent) :
  NoDup s -> received c ((fun sub => (sub, x)) <$> s) = if decide (c ∈ s) then [x] else [].
Proof.
  unfold received. induction s as [|a s IH]; intros Hn; [done|]. apply NoDup_cons in Hn as [Ha Hn].
  specialize (IH Hn). csimpl. destruct (decide (a = c)) as [->|Hac].
  - rewrite decide_False in IH by done. rewrite IH, decide_True by by left. done.
  - rewrite IH. repeat case_decide; set_solver.
Qed.

Lemma op_received c p b h o :
  holds b h -> tailing c p b ->
  received c (op_step b o).2 = number (1 + Z.of_nat (length h)) (appended [o]).
Proof.
  intros H [Hc _]. destruct o; try done. simpl. unfold append. rewrite (h_live _ _ H). simpl.
  rewrite received_all by apply H. rewrite decide_True by done. rewrite (h_seq _ _ H).
  unfold appended. simpl. do 2 f_equal. lia.
Qed.

Lemma received_app c d1 d2 : received c (d1 ++ d2) = received c d1 ++ received c d2.
Proof. apply omap_app. Qed.

(** A subscribed client is called with every later event, once, in order. *)
Lemma run_received ops c p b h :
  holds b h -> tailing c p b -> Forall (keeps c p) ops ->
  received c (run b ops).2 = number (1 + Z.of_nat (length h)) (appended ops).
Proof.
  revert b h. induction ops as [|o ops IH]; intros b h H Ht Hk; [done|].
  apply Forall_cons in Hk as [Ho Hk]. rewrite appended_cons, number_app.
  pose proof (op_received c p b h o H Ht) as Hr.
  pose proof (op_tailing c p b o (h_live _ _ H) Ho Ht) as Ht'. pose proof (op_holds b h o H) as H'.
  cbn [run]. destruct (op_step b o) as [b' d]. specialize (IH b' _ H' Ht' Hk).
  destruct (run b' ops) as [b'' d']. simpl in *. rewrite received_app, Hr, IH, length_app.
  do 2 f_equal. lia.
Qed.

Lemma number_drop n k h : drop n (number k h) = number (k + Z.of_nat n) (drop n h).
Proof.
  revert k h. induction n as [|n IH]; intros k h; [by rewrite !drop_0, Z.add_0_r|].
  destruct h as [|e h]; [done|]. simpl number. simpl drop. rewrite IH. f_equal. lia.
Qed.

(** [x < seq], the test of the replay. *)
Definition after (since : Z) (l : list BufferedEvent) : list BufferedEvent :=
  filter (fun x => since < x.1)%Z l.

Lemma after_app s l1 l2 : after s (l1 ++ l2) = after s l1 ++ after s l2.
Proof. apply filter_app. Qed.

Lemma after_number_all s k h : (s < k)%Z -> after s (number k h) = number k h.
Proof.
  unfold after. revert k. induction h as [|e h IH]; intros k Hk; [done|]. simpl.
  rewrite filter_cons, decide_True by done. rewrite IH by lia. done.
Qed.

Lemma after_number_none s k h : (k + Z.of_nat (length h) <= s + 1)%Z -> after s (number k h) = [].
Proof.
  unfold after. revert k. induction h as [|e h IH]; intros k Hk; [done|]. simpl in *.
  rewrite filter_cons, decide_False by (simpl; lia). apply IH. lia.
Qed.

Lemma after_number_ext s s' k h :
  (forall j, (k <= j)%Z -> (s < j)%Z <-> (s' < j)%Z) -> after s (number k h) = after s' (number k h).
Proof.
  unfold after. revert k. induction h as [|e h IH]; intros k Hk; [done|]. simpl.
  rewrite !filter_cons, IH by (intros; apply Hk; lia). simpl.
  specialize (Hk k ltac:(lia)). repeat case_decide; tauto.
Qed.

Lemma after_drop s n k h :
  after s (drop n (number k h)) = after (Z.max s (k + Z.of_nat n - 1)) (number k h).
Proof.
  rewrite <-(take_drop n h) at 2. rewrite number_app, after_app, number_drop.
  rewrite (after_number_none _ k) by (rewrite length_take; lia). simpl.
  destruct (decide (n <= length h)%nat).
  - rewrite length_take_le by done. apply after_number_ext. lia.
  - by rewrite drop_ge by lia.
Qed.

(** Replaying gives the history after the later of [since] and what fell off the ring. *)
Lemma replay_spec b h since :
  holds b h ->
  replaySince b since
  = after (Z.max since (Z.of_nat (length h) - Z.of_nat (cap b))) (number 1 h).
Proof.
  intros H. unfold replaySince. rewrite (h_ring _ _ H).
  assert (drop (length h - cap b) (number 1 h)
    = after (Z.min since 0) (drop (length h - cap b) (number 1 h))) as Hd.
  { by rewrite number_drop, after_number_all by lia. }
  destruct (bool_decide_reflect (since <= 0)%Z).
  - rewrite Hd, after_drop. apply after_number_ext. lia.
  - etransitivity; [apply (after_drop since)|]. apply after_number_ext. lia.
Qed.

(** C34. A client that replays after [since] and then subscribes, at any moment of a live run and
    whatever the other clients do, ends up with every event after [since] that is still in the
    ring, then every later event: in order, each exactly once, with nothing missing in between.
    Only what the ring had already dropped ([cap] events before the end) can be missing. *)
Theorem replay_then_tail_has_no_gap c since before after_ f g p hd :
  let b := (run (newRunBuffer c) before).1 in
  (since <= currentSeq b)%Z ->
  ~ f ∈ eventSubs b -> ~ f ∈ jm_keys (holders b) ->
  (forall h, hd = Some h -> holder_principal h = p) -> Forall (keeps f p) after_ ->
  let got := replaySince b since ++ received f (run (subscribe b f g hd).1 after_).2 in
  got = after (Z.max since (currentSeq b - Z.of_nat (cap b)))
          (number 1 (appended before ++ appended after_)).
Proof.
  cbn zeta. intros Hs Hf Hh Hp Hk.
  pose proof (run_holds before _ _ (new_holds c)) as H. simpl app in H.
  set (b := (run (newRunBuffer c) before).1) in *.
  assert (holds (subscribe b f g hd).1 (appended before)) as H'.
  { pose proof (op_holds b _ (Subscribe f g hd) H) as Ho. unfold appended at 2 in Ho.
    by rewrite app_nil_r in Ho. }
  assert (tailing f p (subscribe b f g hd).1) as Ht.
  { unfold subscribe. rewrite (h_live _ _ H). split; simpl.
    - apply elem_of_js_set_add. by right.
    - destruct hd as [h|]; intros h' g' Hin.
      + apply elem_of_jm_set in Hin as [?|Hin]; [simplify_eq; by apply Hp|].
        destruct Hh. apply list_elem_of_fmap. by exists (f, (h', g')).
      + destruct Hh. apply list_elem_of_fmap. by exists (f, (h', g')). }
  rewrite (run_received after_ f p _ _ H' Ht Hk), (replay_spec _ _ since H).
  unfold currentSeq in *. rewrite (h_seq _ _ H) in *. rewrite number_app, after_app. f_equal.
  symmetry. apply after_number_all. pose proof (h_cap _ _ H). lia.
Qed.

(** The ring never holds more than its capacity, keeps the newest events, and after the run
    ended an event is dropped: no number is given, nothing is delivered, nothing changes. *)
Theorem ring_is_bounded c ops e :
  let b := (run (newRunBuffer c) ops).1 in
  (length (ring b) <= cap b)%nat /\
  ring b = drop (length (appended ops) - cap b) (number 1 (appended ops)) /\
  append (end_ b).1 e = ((end_ b).1, currentSeq b, []).
Proof.
  cbn zeta. pose proof (run_holds ops _ _ (new_holds c)) as H. simpl app in H.
  split_and!; [|apply H|].
  - rewrite (h_ring _ _ H), length_drop, number_length. lia.
  - unfold end_. by rewrite (h_live _ _ H).
Qed.
End RunBuffer.

Definition sample_before : list (@op nat) :=
  [Append 10%nat; Append 11%nat; Subscribe "x" None None; Append 12%nat; Append 13%nat].

Lemma replay_then_tail_has_no_gap_witness :
  replaySince (run (newRunBuffer (Some 3%Z)) sample_before).1 1 ++
    received "c" (run (subscribe (run (newRunBuffer (Some 3%Z)) sample_before).1 "c" None None).1
      [Append 14%nat; Unsubscribe "x" None; CloseEnded (fun _ => false); Append 15%nat]).2
  = [(2, 11%nat); (3, 12%nat); (4, 13%nat); (5, 14%nat); (6, 15%nat)]%Z.
Proof.
  refine (replay_then_tail_has_no_gap (Some 3%Z) 1 sample_before
    [Append 14%nat; Unsubscribe "x" None; CloseEnded (fun _ => false); Append 15%nat]
    "c" None Owner None _ _ _ _ _); [simpl; lia|apply (bool_decide_unpack _); vm_compute; exact I..|done|].
  repeat constructor; discriminate.
Defined.
