(* ===== verification/ToolPairs.v ===== *)
(** The transcript sanitizer of [core/tool-pair-sanitizer.ts]: it drops tool calls without a result
    and results without a call, so that the provider accepts the history. *)
From S2P Require Import Prelude.

Inductive role := user | assistant.
#[global] Instance role_eq_dec : EqDecision role.
Proof. solve_decision. Defined.

Section ToolPairs.
(** What a block carries besides its kind and id, and what a message carries besides its role and
    content. *)
Context {P M : Type}.

(** @src src/src/core/tool-pair-sanitizer.ts 1-6 BetaContentBlockParam *)
Inductive block :=
| tool_use (id : string) (rest : P)
| tool_result (tool_use_id : string) (rest : P)
| other (rest : P).

(** The content of a message: plain text or blocks. *)
Inductive content := Text (s : string) | Blocks (bs : list block).
Record message := { m_role : role; m_content : content; m_rest : M }.

(** @src src/src/core/tool-pair-sanitizer.ts 24-26 isToolUse *)
Definition isToolUse (b : block) : option string :=
  match b with tool_use id _ => Some id | _ => None end.
(** @src src/src/core/tool-pair-sanitizer.ts 28-30 isToolResult *)
Definition isToolResult (b : block) : option string :=
  match b with tool_result id _ => Some id | _ => None end.

(** The ids in order; only membership and emptiness are used, as of the code's [Set]. *)
(** @src src/src/core/tool-pair-sanitizer.ts 32-39 collectToolUseIds *)
Definition collectToolUseIds (c : content) : list string :=
  match c with Text _ => [] | Blocks bs => omap isToolUse bs end.
(** @src src/src/core/tool-pair-sanitizer.ts 41-48 collectToolResultIds *)
Definition collectToolResultIds (c : content) : list string :=
  match c with Text _ => [] | Blocks bs => omap isToolResult bs end.

(** @src src/src/core/tool-pair-sanitizer.ts 50-56 filterContent *)
Definition filterContent (c : content) (keep : block -> bool) : content :=
  match c with Text s => Text s | Blocks bs => Blocks (filter (fun b => keep b = true) bs) end.

Definition is_empty (c : content) : bool := match c with Blocks [] => true | _ => false end.
Definition with_content (m : message) (c : content) : message :=
  {| m_role := m.(m_role); m_content := c; m_rest := m.(m_rest) |}.

(** The two predicates the filters are called with. *)
Definition keep_uses (ids : list string) (b : block) : bool :=
  match isToolUse b with Some id => bool_decide (id ∈ ids) | None => true end.
Definition keep_results (ids : list string) (b : block) : bool :=
  match isToolResult b with Some id => bool_decide (id ∈ ids) | None => true end.

(** [if (Array.isArray(c) && c.length === 0) nothing else out.push]. *)
Definition push_nonempty (out : list message) (m : message) (c : content) : list message :=
  if is_empty c then out else out ++ [with_content m c].

(** The loop, with the messages already written. *)
(** @src src/src/core/tool-pair-sanitizer.ts 58-126 sanitizeToolPairs *)
Fixpoint sanitize_from (out ms : list message) {struct ms} : list message :=
  match ms with
  | [] => out
  | current :: rest =>
      match m_role current, m_content current with
      | assistant, Blocks _ =>
          let useIds := collectToolUseIds (m_content current) in
          match useIds with
          | [] => sanitize_from (out ++ [current]) rest
          | _ =>
              let nextResultIds := match rest with
                | next :: _ => match m_role next with
                    | user => collectToolResultIds (m_content next) | assistant => [] end
                | [] => [] end in
              let matchedIds := filter (fun id => id ∈ nextResultIds) useIds in
              let out := push_nonempty out current
                (filterContent (m_content current) (keep_uses matchedIds)) in
              match rest, nextResultIds with
              | next :: rest', _ :: _ =>
                  sanitize_from (push_nonempty out next
                    (filterContent (m_content next) (keep_results matchedIds))) rest'
              | _, _ => sanitize_from out rest
              end
          end
      | user, Blocks _ =>
          match collectToolResultIds (m_content current) with
          | [] => sanitize_from (out ++ [current]) rest
          | _ =>
              let prevUseIds := match last out with
                | Some prev => match m_role prev with
                    | assistant => collectToolUseIds (m_content prev) | user => [] end
                | None => [] end in
              sanitize_from (push_nonempty out current
                (filterContent (m_content current) (keep_results prevUseIds))) rest
          end
      | _, _ => sanitize_from (out ++ [current]) rest
      end
  end.
Definition sanitizeToolPairs (ms : list message) : list message := sanitize_from [] ms.

(** ** What the provider demands *)

Definition uses (m : message) : list string :=
  match m_role m with assistant => collectToolUseIds (m_content m) | user => [] end.
Definition results (m : message) : list string :=
  match m_role m with user => collectToolResultIds (m_content m) | assistant => [] end.

(** Every message's results answer exactly the calls of the message before it, and the last message
    leaves no call unanswered. *)
Fixpoint paired (open : list string) (ms : list message) : Prop :=
  match ms with
  | [] => open = []
  | m :: ms' => (forall id, id ∈ results m <-> id ∈ open) /\ paired (uses m) ms'
  end.

(** The blocks and texts that are not part of the tool protocol, in order: a call counts as one in
    an assistant message, a result in a user message. *)
Definition plain (m : message) : list (role * (string + block)) :=
  match m_content m with
  | Text s => [(m_role m, inl s)]
  | Blocks bs => (fun b => (m_role m, inr b)) <$>
      filter (fun b => match m_role m with
        | assistant => isToolUse b | user => isToolResult b end = None) bs
  end.

Lemma filterContent_nil bs ids :
  filterContent (Blocks bs) ids = Blocks (filter (fun b => ids b = true) bs).
Proof. done. Qed.

Lemma plain_push out m c :
  (out ++ [with_content m c]) ≫= plain = (out ≫= plain) ++ plain (with_content m c).
Proof. by rewrite bind_app, bind_singleton. Qed.

Lemma plain_push_nonempty out m c :
  push_nonempty out m c ≫= plain = (out ≫= plain) ++ plain (with_content m c).
Proof.
  unfold push_nonempty. destruct (is_empty c) eqn:E; [|apply plain_push].
  destruct c as [|[]]; try done. unfold plain. simpl. by rewrite app_nil_r.
Qed.

Lemma plain_keep m (keep : block -> bool) :
  (forall b, (match m_role m with assistant => isToolUse b | user => isToolResult b end) = None ->
    keep b = true) ->
  plain (with_content m (filterContent (m_content m) keep)) = plain m.
Proof.
  intros Hk. unfold plain. simpl. destruct (m_content m) as [s|bs]; [done|]. simpl. f_equal.
  rewrite list_filter_filter. apply list_filter_iff. intros b. split; [by intros []|].
  intros H. split; [done|auto].
Qed.

Lemma uses_filter m ids :
  m_role m = assistant -> forall id,
  id ∈ uses (with_content m (filterContent (m_content m) (keep_uses ids))) <-> id ∈ uses m /\ id ∈ ids.
Proof.
  intros Hr id. unfold uses. simpl. rewrite Hr. destruct (m_content m) as [s|bs]; simpl; [set_solver|].
  rewrite !list_elem_of_omap. setoid_rewrite list_elem_of_filter. split.
  - intros (b & (Hk & Hb) & Hi). unfold keep_uses in Hk. rewrite Hi in Hk.
    apply bool_decide_eq_true in Hk. eauto.
  - intros ((b & Hb & Hi) & Hid). exists b. split_and!; [|done..].
    unfold keep_uses. rewrite Hi. by apply bool_decide_eq_true.
Qed.

Lemma results_filter m ids :
  m_role m = user -> forall id,
  id ∈ results (with_content m (filterContent (m_content m) (keep_results ids)))
  <-> id ∈ results m /\ id ∈ ids.
Proof.
  intros Hr id. unfold results. simpl. rewrite Hr. destruct (m_content m) as [s|bs]; simpl; [set_solver|].
  rewrite !list_elem_of_omap. setoid_rewrite list_elem_of_filter. split.
  - intros (b & (Hk & Hb) & Hi). unfold keep_results in Hk. rewrite Hi in Hk.
    apply bool_decide_eq_true in Hk. eauto.
  - intros ((b & Hb & Hi) & Hid). exists b. split_and!; [|done..].
    unfold keep_results. rewrite Hi. by apply bool_decide_eq_true.
Qed.

(** A filter that keeps everything is the identity. *)
Lemma filter_all (bs : list block) (keep : block -> bool) :
  (forall b, b ∈ bs -> keep b = true) -> filter (fun b => keep b = true) bs = bs.
Proof.
  induction bs as [|b bs IH]; intros H; [done|]. rewrite filter_cons, decide_True by (apply H; by left).
  f_equal. apply IH. intros. apply H. by right.
Qed.

Lemma keep_all_uses m ids :
  m_role m = assistant -> (forall id, id ∈ uses m -> id ∈ ids) ->
  with_content m (filterContent (m_content m) (keep_uses ids)) = m.
Proof.
  intros Hr H. destruct m as [r [s|bs] x]; [done|]. unfold with_content. simpl in *. do 2 f_equal.
  apply filter_all. intros b Hb. unfold keep_uses. destruct (isToolUse b) eqn:E; [|done].
  apply bool_decide_eq_true, H. unfold uses. simpl. rewrite Hr. apply list_elem_of_omap. eauto.
Qed.

Lemma keep_all_results m ids :
  m_role m = user -> (forall id, id ∈ results m -> id ∈ ids) ->
  with_content m (filterContent (m_content m) (keep_results ids)) = m.
Proof.
  intros Hr H. destruct m as [r [s|bs] x]; [done|]. unfold with_content. simpl in *. do 2 f_equal.
  apply filter_all. intros b Hb. unfold keep_results. destruct (isToolResult b) eqn:E; [|done].
  apply bool_decide_eq_true, H. unfold results. simpl. rewrite Hr. apply list_elem_of_omap. eauto.
Qed.

Lemma paired_equiv a b ms : (forall id, id ∈ a <-> id ∈ b) -> paired a ms -> paired b ms.
Proof.
  intros Hab. destruct ms as [|m ms]; simpl.
  - intros ->. destruct b as [|x b]; [done|]. exfalso. apply (not_elem_of_nil x), Hab. by left.
  - intros [H1 H2]. split; [|done]. intros id. by rewrite H1.
Qed.

(** ** The loop *)

(** What is written for the rest of the messages: well-paired, with the plain content of the input,
    and the input itself when that was well-paired. *)
Record good (ms r : list message) : Prop := {
  g_paired : paired [] r;
  g_plain : r ≫= plain = ms ≫= plain;
  g_same : paired [] ms -> r = ms }.

Definition closed (out : list message) : Prop :=
  match last out with Some m => uses m = [] | None => True end.

Lemma closed_snoc out m : closed (out ++ [m]) <-> uses m = [].
Proof. unfold closed. by rewrite last_snoc. Qed.

Lemma good_keep m ms r :
  uses m = [] -> results m = [] -> good ms r -> good (m :: ms) (m :: r).
Proof.
  intros Hu Hr [H1 H2 H3]. constructor; simpl.
  - rewrite Hu, Hr. done.
  - change ((m :: r) ≫= plain = (m :: ms) ≫= plain). by rewrite !bind_cons, H2.
  - rewrite Hu. intros [_ H]. by rewrite H3.
Qed.
Definition opt (m : message) (c : content) : list message :=
  if is_empty c then [] else [with_content m c].

Lemma push_opt out m c : push_nonempty out m c = out ++ opt m c.
Proof. unfold push_nonempty, opt. destruct (is_empty c); by rewrite ?app_nil_r. Qed.

Lemma plain_opt m c r : (opt m c ++ r) ≫= plain = plain (with_content m c) ++ (r ≫= plain).
Proof.
  rewrite bind_app. f_equal. pose proof (plain_push_nonempty [] m c) as H.
  rewrite push_opt in H. exact H.
Qed.

Lemma uses_empty m c : is_empty c = true -> uses (with_content m c) = [].
Proof. destruct c as [|[]]; try done. unfold uses. simpl. by destruct (m_role m). Qed.
Lemma results_empty m c : is_empty c = true -> results (with_content m c) = [].
Proof. destruct c as [|[]]; try done. unfold results. simpl. by destruct (m_role m). Qed.

(** A message that answers [a], written only when something of it is left. *)
Lemma paired_opt a m c r :
  (forall id, id ∈ results (with_content m c) <-> id ∈ a) -> paired (uses (with_content m c)) r ->
  paired a (opt m c ++ r).
Proof.
  intros Ha Hr. unfold opt. destruct (is_empty c) eqn:E; [|done]. simpl.
  rewrite (uses_empty m c E) in Hr. rewrite (results_empty m c E) in Ha. by eapply paired_equiv.
Qed.

Lemma closed_push out m c :
  closed out -> (forall id, ~ id ∈ uses (with_content m c)) -> closed (push_nonempty out m c).
Proof.
  intros H Hu. rewrite push_opt. unfold opt. destruct (is_empty c); [by rewrite app_nil_r|].
  apply closed_snoc. destruct (uses _) as [|x l]; [done|]. destruct (Hu x). by left.
Qed.

Lemma nil_of_none (l : list string) : (forall id, ~ id ∈ l) -> l = [].
Proof. destruct l as [|x l]; [done|]. intros H. destruct (H x). by left. Qed.

(** A message whose results or calls all lack their partner. *)
Lemma good_orphan_results m rest r :
  m_role m = user -> results m <> [] -> good rest r ->
  good (m :: rest) (opt m (filterContent (m_content m) (keep_results [])) ++ r).
Proof.
  intros Hr Hne [H1 H2 H3]. constructor.
  - apply paired_opt.
    + intros id. rewrite (results_filter m [] Hr). set_solver.
    + assert (uses (with_content m (filterContent (m_content m) (keep_results []))) = []) as ->; [|done].
      unfold uses. simpl. by rewrite Hr.
  - rewrite plain_opt, H2, bind_cons. f_equal. apply plain_keep. rewrite Hr.
    intros b Hb. unfold keep_results. by rewrite Hb.
  - intros [Hp _]. destruct Hne. apply nil_of_none. intros id. rewrite Hp. apply not_elem_of_nil.
Qed.

Lemma good_orphan_uses m rest r :
  m_role m = assistant -> uses m <> [] ->
  (forall next rest', rest = next :: rest' -> results next = []) -> good rest r ->
  good (m :: rest) (opt m (filterContent (m_content m) (keep_uses [])) ++ r).
Proof.
  intros Hr Hne Hnext [H1 H2 H3]. constructor.
  - apply paired_opt; [intros id; unfold results; simpl; by rewrite Hr|].
    eapply paired_equiv; [|exact H1]. intros id. rewrite (uses_filter m [] Hr). set_solver.
  - rewrite plain_opt, H2, bind_cons. f_equal. apply plain_keep. rewrite Hr.
    intros b Hb. unfold keep_uses. by rewrite Hb.
  - intros [_ Hp]. destruct Hne. destruct rest as [|next rest']; [done|].
    destruct Hp as [Hp _]. rewrite (Hnext _ _ eq_refl) in Hp. apply nil_of_none. intros id.
    rewrite <-Hp. apply not_elem_of_nil.
Qed.

Lemma opt_same m c :
  with_content m c = m -> uses m <> [] \/ results m <> [] -> opt m c = [m].
Proof.
  intros Hm Hne. unfold opt. destruct (is_empty c) eqn:E; [|by rewrite Hm].
  rewrite <-Hm, (uses_empty m c E), (results_empty m c E) in Hne. by destruct Hne.
Qed.

(** A call message and the result message after it, both cut down to the pairs. *)
Lemma good_pair m n rest r :
  m_role m = assistant -> m_role n = user -> uses m <> [] -> results n <> [] -> good rest r ->
  let ids := filter (fun id => id ∈ results n) (uses m) in
  good (m :: n :: rest)
    (opt m (filterContent (m_content m) (keep_uses ids)) ++
     opt n (filterContent (m_content n) (keep_results ids)) ++ r).
Proof.
  intros Hm Hn Hum Hrn [H1 H2 H3] ids.
  assert (forall id, id ∈ ids <-> id ∈ results n /\ id ∈ uses m) as Hids.
  { intros id. unfold ids. by rewrite list_elem_of_filter. }
  constructor.
  - apply paired_opt; [intros id; unfold results; simpl; by rewrite Hm|].
    apply paired_opt.
    + intros id. rewrite (results_filter n ids Hn), (uses_filter m ids Hm), Hids. tauto.
    + assert (uses (with_content n (filterContent (m_content n) (keep_results ids))) = []) as ->; [|done].
      unfold uses. simpl. by rewrite Hn.
  - rewrite !plain_opt, H2, !bind_cons. f_equal; [|f_equal]; apply plain_keep.
    + rewrite Hm. intros b Hb. unfold keep_uses. by rewrite Hb.
    + rewrite Hn. intros b Hb. unfold keep_results. by rewrite Hb.
  - intros (_ & Hp & Hrest). assert (uses n = []) as Hun by (unfold uses; by rewrite Hn).
    rewrite Hun in Hrest. rewrite H3 by done.
    rewrite !opt_same; try done; try (by left); try (by right).
    + apply keep_all_results; [done|]. intros id ?. apply Hids. by rewrite <-Hp.
    + apply keep_all_uses; [done|]. intros id ?. apply Hids. by rewrite Hp.
Qed.

Lemma closed_filtered_uses out m :
  m_role m = assistant -> closed out ->
  closed (push_nonempty out m (filterContent (m_content m) (keep_uses []))).
Proof.
  intros Hr H. apply closed_push; [done|]. intros id. rewrite (uses_filter m [] Hr). set_solver.
Qed.

Lemma closed_pair out m n ids :
  m_role m = assistant -> m_role n = user -> closed out ->
  (forall id, id ∈ ids -> id ∈ results n) ->
  closed (push_nonempty (push_nonempty out m (filterContent (m_content m) (keep_uses ids))) n
    (filterContent (m_content n) (keep_results ids))).
Proof.
  intros Hm Hn H Hids. rewrite (push_opt _ n). unfold opt. destruct (is_empty _) eqn:E.
  - rewrite app_nil_r. apply closed_push; [done|]. intros id. rewrite (uses_filter m ids Hm).
    intros [_ Hid]. apply (results_empty n) in E. pose proof (results_filter n ids Hn id) as Hr.
    rewrite E in Hr. apply (not_elem_of_nil id), Hr. auto.
  - apply closed_snoc. unfold uses. simpl. by rewrite Hn.
Qed.

Lemma filter_none (l : list string) :
  filter (fun id => id ∈ @nil string) l = [].
Proof. induction l as [|x l IH]; [done|]. rewrite filter_cons, decide_False by apply not_elem_of_nil. done. Qed.

(** One assistant turn with calls, given that the loop is right on the shorter rests. *)
Lemma sanitize_calls n m rest out :
  (forall ms out, (length ms <= n)%nat -> closed out ->
    exists r, sanitize_from out ms = out ++ r /\ good ms r) ->
  (length rest <= n)%nat -> closed out -> m_role m = assistant -> uses m <> [] ->
  exists r, sanitize_from out (m :: rest) = out ++ r /\ good (m :: rest) r.
Proof.
  intros IH Hn Ho Hr Hne.
  assert (exists bs, m_content m = Blocks bs) as [bs Hc].
  { destruct (m_content m) eqn:E; [|eauto]. destruct Hne. unfold uses. by rewrite Hr, E. }
  assert (uses m = collectToolUseIds (m_content m)) as Hu by (unfold uses; by rewrite Hr).
  cbn [sanitize_from]. rewrite Hr, Hc, <-Hc, <-Hu. destruct (uses m) as [|u us] eqn:Eu; [done|].
  rewrite <-Eu in *.
  set (nr := match rest with next :: _ => results next | [] => [] end).
  change (match rest with next :: _ => match m_role next with
    | user => collectToolResultIds (m_content next) | assistant => [] end | [] => [] end) with nr.
  destruct rest as [|nx rest'].
  { destruct (IH [] (push_nonempty out m (filterContent (m_content m) (keep_uses [])))) as (r & Hs & Hg);
      [simpl; lia|by apply closed_filtered_uses|].
    exists (opt m (filterContent (m_content m) (keep_uses [])) ++ r).
    unfold nr. rewrite (filter_none (uses m)).
    rewrite Hs, push_opt, app_assoc. split; [done|]. by apply good_orphan_uses. }
  destruct nr as [|x nr'] eqn:Enr.
  - destruct (IH (nx :: rest') (push_nonempty out m (filterContent (m_content m) (keep_uses []))))
      as (r & Hs & Hg); [done|by apply closed_filtered_uses|].
    exists (opt m (filterContent (m_content m) (keep_uses [])) ++ r).
    rewrite (filter_none (uses m)).
    rewrite Hs, push_opt, app_assoc. split; [done|]. apply good_orphan_uses; try done.
    intros ? ? [= <- <-]. exact Enr.
  - rewrite <-Enr. fold nr in Enr. assert (m_role nx = user) as Hnx.
    { unfold nr, results in Enr. by destruct (m_role nx). }
    edestruct (IH rest') as (r & Hs & Hg); [simpl in Hn; lia|..].
    2: { eexists. rewrite Hs, !push_opt, <-!app_assoc. split; [done|].
         apply good_pair; try done. unfold nr in Enr. by rewrite Enr. }
    apply closed_pair; try done. intros id. rewrite list_elem_of_filter. by intros [].
Qed.

(** The loop writes a good rendering of the remaining messages, after whatever it wrote before. *)
Lemma sanitize_from_good n ms out :
  (length ms <= n)%nat -> closed out ->
  exists r, sanitize_from out ms = out ++ r /\ good ms r.
Proof.
  revert ms out. induction n as [|n IH]; intros [|m rest] out Hn Ho; simpl in Hn; try lia.
  1,2: exists []; rewrite app_nil_r; by split; [|constructor].
  assert (Hkeep : uses m = [] -> results m = [] ->
    exists r, sanitize_from (out ++ [m]) rest = out ++ r /\ good (m :: rest) r).
  { intros Hu Hr. destruct (IH rest (out ++ [m])) as (r & -> & Hg); [lia|by apply closed_snoc|].
    exists (m :: r). rewrite <-app_assoc. split; [done|by apply good_keep]. }
  cbn [sanitize_from].
  destruct (m_role m) eqn:Hr; destruct (m_content m) as [s|bs] eqn:Hc; rewrite <-?Hc in *.
  - apply Hkeep; unfold uses, results; by rewrite Hr, ?Hc.
  - destruct (collectToolResultIds (m_content m)) as [|x l] eqn:Ei.
    + apply Hkeep; unfold uses, results; by rewrite Hr, ?Ei.
    + assert (match last out with Some prev => match m_role prev with
        | assistant => collectToolUseIds (m_content prev) | user => [] end | None => [] end = [])
        as ->; [unfold closed, uses in Ho; destruct (last out) as [p|]; [|done]; by destruct (m_role p)|].
      destruct (IH rest (push_nonempty out m (filterContent (m_content m) (keep_results []))))
        as (r & -> & Hg); [lia|apply closed_push; [done|]; intros id; unfold uses; simpl; rewrite Hr;
          apply not_elem_of_nil|].
      rewrite push_opt, <-app_assoc. eexists. split; [done|]. apply good_orphan_results; try done.
      unfold results. by rewrite Hr, Ei.
  - apply Hkeep; unfold uses, results; by rewrite Hr, ?Hc.
  - destruct (decide (uses m = [])) as [Hu|Hu]; [|].
    + assert (collectToolUseIds (m_content m) = []) as ->.
      { unfold uses in Hu. by rewrite Hr in Hu. }
      apply Hkeep; [done|]. unfold results. by rewrite Hr.
    + destruct (sanitize_calls n m rest out IH ltac:(lia) Ho Hr Hu) as (r & Hs & Hg).
      exists r. split; [|done]. rewrite <-Hs. cbn [sanitize_from]. by rewrite Hr, Hc.
Qed.

Lemma sanitizeToolPairs_pairs ms :
  paired [] (sanitizeToolPairs ms) /\ sanitizeToolPairs ms ≫= plain = ms ≫= plain.
Proof.
  destruct (sanitize_from_good (length ms) ms [] ltac:(lia) I) as (r & H & Hg).
  unfold sanitizeToolPairs. rewrite H. split; apply Hg.
Qed.

(** C33. Whatever history goes in (partial, rolled back, out of order), what goes out is well-paired:
    every tool result answers a call of the message directly before it, and every call is answered
    by the message directly after it. Text and every other block survive, in order, with their
    role. *)
Theorem sanitizeToolPairs_sound ms :
  paired [] (sanitizeToolPairs ms) /\ sanitizeToolPairs ms ≫= plain = ms ≫= plain.
Proof. apply sanitizeToolPairs_pairs. Qed.

(** A history that is already well-paired is sent as it is; so sanitizing twice is sanitizing
    once. *)
Theorem sanitizeToolPairs_identity ms :
  (paired [] ms -> sanitizeToolPairs ms = ms) /\
  sanitizeToolPairs (sanitizeToolPairs ms) = sanitizeToolPairs ms.
Proof.
  assert (forall ms, paired [] ms -> sanitizeToolPairs ms = ms) as Hid.
  { intros ms' Hp. destruct (sanitize_from_good (length ms') ms' [] ltac:(lia) I) as (r & H & Hg).
    unfold sanitizeToolPairs. rewrite H. by apply Hg. }
  split; [apply Hid|]. apply Hid, sanitizeToolPairs_pairs.
Qed.
End ToolPairs.

Definition sample_history : list (message (P := nat) (M := unit)) :=
  [{| m_role := user; m_content := Text "hi"; m_rest := tt |};
   {| m_role := assistant; m_content := Blocks [other 1; tool_use "a" 2; tool_use "b" 3]%nat; m_rest := tt |};
   {| m_role := user; m_content := Blocks [tool_result "a" 4; tool_result "z" 5]%nat; m_rest := tt |};
   {| m_role := assistant; m_content := Blocks [tool_use "c" 6]%nat; m_rest := tt |};
   {| m_role := user; m_content := Blocks [other 7]%nat; m_rest := tt |}].

Example sample_sanitized :
  sanitizeToolPairs sample_history =
  [{| m_role := user; m_content := Text "hi"; m_rest := tt |};
   {| m_role := assistant; m_content := Blocks [other 1; tool_use "a" 2]%nat; m_rest := tt |};
   {| m_role := user; m_content := Blocks [tool_result "a" 4]%nat; m_rest := tt |};
   {| m_role := user; m_content := Blocks [other 7]%nat; m_rest := tt |}].
Proof. vm_compute. reflexivity. Qed.

Lemma sanitizeToolPairs_identity_witness :
  sanitizeToolPairs (sanitizeToolPairs sample_history) = sanitizeToolPairs sample_history.
Proof. exact (proj1 (sanitizeToolPairs_identity _) (proj1 (sanitizeToolPairs_pairs sample_history))). Defined.
