(* ===== verification/IpAddr.v ===== *)
(** Private address detection, the pure half of [core/network-guard.ts]: reading a textual IPv4 or
    IPv6 address into bytes and deciding whether it points at a private or reserved range.
    Addresses are lists of characters here; [isPrivateIP] takes the string. *)
From S2P Require Import Prelude Num JsString.
Local Open Scope Z_scope.

Definition colon : ascii := ":"%char.
Definition dot : ascii := "."%char.
Definition percent : ascii := "%"%char.

Definition has (c : ascii) (l : list ascii) : bool := bool_decide (c ∈ l).
(** [s.slice(s.lastIndexOf(c) + 1)] and [s.slice(0, s.lastIndexOf(c) + 1)]. *)
Definition after_last (c : ascii) (l : list ascii) : list ascii :=
  reverse (take_while (fun x => negb (bool_decide (x = c))) (reverse l)).
Definition upto_last (c : ascii) (l : list ascii) : list ascii :=
  reverse (drop_while (fun x => negb (bool_decide (x = c))) (reverse l)).

(** [s.split('::')]. *)
Fixpoint split_dcolon (l : list ascii) : list (list ascii) :=
  match l with
  | [] => [[]]
  | a :: l1 =>
      let step := match split_dcolon l1 with [] => [[a]] | w :: ws => (a :: w) :: ws end in
      match l1 with
      | b :: l2 => if decide (a = colon /\ b = colon) then [] :: split_dcolon l2 else step
      | [] => step
      end
  end.

(** [/^\d{1,3}$/] and [Number]. *)
Definition octet (p : list ascii) : option Z :=
  if bool_decide (1 <= length p <= 3)%nat && forallb is_digit p then Some (digits_val p) else None.

(** @src src/src/core/network-guard.ts 62-68 v4Octets *)
Definition v4Octets (text : list ascii) : option (list Z) :=
  let parts := split_chars dot text in
  if bool_decide (length parts = 4%nat) then
    match mapM octet parts with
    | Some nums => if existsb (fun n => 255 <? n) nums then None else Some nums
    | None => None
    end
  else None.

Definition is_hex (c : ascii) : bool := is_digit c || ((97 <=? code c) && (code c <=? 102)).
Definition hex_digit (c : ascii) : Z := if is_digit c then code c - 48 else code c - 87.
Definition hex_val (l : list ascii) : Z := foldl (fun n c => 16 * n + hex_digit c) 0 l.
(** [/^[0-9a-f]{1,4}$/] and [parseInt(g, 16)]. *)
Definition hexgroup (g : list ascii) : option Z :=
  if bool_decide (1 <= length g <= 4)%nat && forallb is_hex g then Some (hex_val g) else None.

Definition hex_char (n : Z) : ascii := if n <? 10 then chr (48 + n) else chr (87 + n).
(** [n.toString(16)] of a 16-bit value. *)
Definition to_hex (n : Z) : list ascii :=
  let ds := [n / 4096; n / 256 mod 16; n / 16 mod 16; n mod 16] in
  match drop_while (fun d => d =? 0) ds with [] => ["0"%char] | ds' => hex_char <$> ds' end.

(** The inner [parseGroups]. *)
Definition parseGroups (part : list ascii) : option (list Z) :=
  match part with
  | [] => Some []
  | _ =>
      ns ← mapM hexgroup (split_chars colon part);
      Some (ns ≫= fun n => [Z.land (Z.shiftr n 8) 255; Z.land n 255])
  end.

(** The dotted tail rewritten to two groups. *)
Definition undot (s : list ascii) : option (list ascii) :=
  let quad := after_last colon s in
  if has dot quad then
    match v4Octets quad with
    | Some [a; b; c; d] =>
        Some (upto_last colon s ++ to_hex (Z.lor (Z.shiftl a 8) b) ++ [colon]
              ++ to_hex (Z.lor (Z.shiftl c 8) d))
    | _ => None
    end
  else Some s.

(** The halves around a [::], expanded to sixteen bytes. *)
Definition expandHalves (s : list ascii) : option (list Z) :=
  match split_dcolon s with
  | [h] => head ← parseGroups h; if bool_decide (length head = 16%nat) then Some head else None
  | [h; t] =>
      head ← parseGroups h; tail ← parseGroups t;
      if bool_decide (length head + length tail <= 16)%nat
      then Some (head ++ replicate (16 - length head - length tail) 0 ++ tail) else None
  | _ => None
  end.

(** @src src/src/core/network-guard.ts 21-60 ipv6ToBytes *)
Definition ipv6ToBytes (addr : list ascii) : option (list Z) :=
  let s := take_while (fun c => negb (bool_decide (c = percent))) addr in
  if negb (has colon s) then None
  else
    s ← undot s; expandHalves s.

Definition nth0 (l : list Z) (i : nat) : Z := default 0 (l !! i).

(** @src src/src/core/network-guard.ts 70-83 isPrivateV4 *)
Definition isPrivateV4 (octets : list Z) : bool :=
  let a := nth0 octets 0 in let b := nth0 octets 1 in let c := nth0 octets 2 in
  (a =? 127) || (a =? 10) || ((a =? 172) && (16 <=? b) && (b <=? 31)) ||
  ((a =? 192) && (b =? 168)) || ((a =? 169) && (b =? 254)) ||
  ((a =? 100) && (64 <=? b) && (b <=? 127)) || ((a =? 198) && ((b =? 18) || (b =? 19))) ||
  ((a =? 192) && (b =? 0) && (c =? 0)) || (a =? 0) || (224 <=? a).

(** [bytes.slice(from, to)]. *)
Definition slice (l : list Z) (from to : nat) : list Z := take (to - from) (drop from l).

(** @src src/src/core/network-guard.ts 85-99 embeddedV4 *)
Definition embeddedV4 (bytes : list Z) : option (list Z) :=
  let zero from to := forallb (fun b => b =? 0) (slice bytes from to) in
  let at' := nth0 bytes in
  if zero 0%nat 12%nat then Some (slice bytes 12 16)
  else if zero 0%nat 10%nat && (at' 10%nat =? 255) && (at' 11%nat =? 255) then Some (slice bytes 12 16)
  else if zero 0%nat 8%nat && (at' 8%nat =? 255) && (at' 9%nat =? 255) && zero 10%nat 12%nat
  then Some (slice bytes 12 16)
  else if (at' 1%nat =? 100) && (at' 2%nat =? 255) && (at' 3%nat =? 155) && zero 0%nat 1%nat && zero 4%nat 12%nat
  then Some (slice bytes 12 16)
  else if (at' 0%nat =? 32) && (at' 1%nat =? 2) then Some (slice bytes 2 6)
  else None.

(** The byte-form checks. *)
Definition isPrivateBytes (bytes : list Z) : bool :=
  let b0 := nth0 bytes 0 in let b1 := nth0 bytes 1 in let b15 := nth0 bytes 15 in
  forallb (fun b => b =? 0) bytes ||
  (forallb (fun b => b =? 0) (slice bytes 0 15) && (b15 =? 1)) ||
  ((b0 =? 254) && (Z.land b1 192 =? 128)) ||
  (Z.land b0 254 =? 252) || (b0 =? 255) ||
  ((b0 =? 0) && (b1 =? 100) && (nth0 bytes 2 =? 255) && (nth0 bytes 3 =? 155) && (nth0 bytes 4 =? 0)
   && (nth0 bytes 5 =? 1)) ||
  match embeddedV4 bytes with Some v4 => isPrivateV4 v4 | None => false end.

(** The string checks on a malformed address: a prefix of classes. *)
Fixpoint starts (sh : list (ascii -> bool)) (l : list ascii) : bool :=
  match sh, l with
  | [], _ => true
  | f :: sh', c :: l' => f c && starts sh' l'
  | _ :: _, [] => false
  end.
Definition lit (c : ascii) (x : ascii) : bool := bool_decide (x = c).
Definition malformedPrivate (l : list ascii) : bool :=
  bool_decide (l = [colon; colon; "1"%char]) || bool_decide (l = [colon; colon]) ||
  starts [lit "f"; lit "e"; (fun c => (lit "8" c || lit "9" c || lit "a" c || lit "b" c)%bool); is_hex; lit colon]%char l ||
  starts [lit "f"; (fun c => (lit "c" c || lit "d" c)%bool); is_hex; is_hex; lit colon]%char l ||
  starts [lit "f"; lit "f"; is_hex; is_hex; lit colon]%char l.

Definition isPrivateChars (normalized : list ascii) : bool :=
  if negb (has colon normalized) then
    match v4Octets normalized with Some octets => isPrivateV4 octets | None => false end
  else match ipv6ToBytes normalized with
       | Some bytes => isPrivateBytes bytes
       | None => malformedPrivate normalized
       end.

(** @src src/src/core/network-guard.ts 101-132 isPrivateIP *)
Definition isPrivateIP (ip : string) : bool := isPrivateChars (lower_char <$> chars ip).

Example private_1 : isPrivateIP "127.0.0.1" = true. Proof. reflexivity. Qed.
Example private_2 : isPrivateIP "0::1%eth0" = true. Proof. reflexivity. Qed.
Example private_3 : isPrivateIP "::FFFF:10.0.0.1" = true. Proof. reflexivity. Qed.
Example private_4 : isPrivateIP "2606:4700::1111" = false. Proof. reflexivity. Qed.
Example private_5 : isPrivateIP "64:ff9b::8.8.8.8" = false. Proof. reflexivity. Qed.
Example private_6 : isPrivateIP "fe80:::1" = true. Proof. reflexivity. Qed.

(** ** IPv4: the listed ranges *)

(** A range as its first address and prefix length; membership compares the leading bits. *)
Definition ipv4 (a b c d : Z) : Z := a * 2 ^ 24 + b * 2 ^ 16 + c * 2 ^ 8 + d.
Definition in_cidr (addr : Z) (range : Z * Z) : bool :=
  Z.shiftr addr (32 - range.2) =? Z.shiftr range.1 (32 - range.2).
Definition private_ranges : list (Z * Z) :=
  [(ipv4 127 0 0 0, 8); (ipv4 10 0 0 0, 8); (ipv4 172 16 0 0, 12); (ipv4 192 168 0 0, 16);
   (ipv4 169 254 0 0, 16); (ipv4 100 64 0 0, 10); (ipv4 198 18 0 0, 15); (ipv4 192 0 0 0, 24);
   (ipv4 0 0 0 0, 8); (ipv4 224 0 0 0, 3)].

Definition byte (b : Z) : Prop := 0 <= b < 256.
Definition byteb (b : Z) : bool := (0 <=? b) && (b <? 256).

Lemma in_cidr_iff addr r p :
  0 <= p <= 32 -> in_cidr addr (r, p) = true <-> addr / 2 ^ (32 - p) = r / 2 ^ (32 - p).
Proof. intros. unfold in_cidr. cbn [fst snd]. by rewrite Z.eqb_eq, !Z.shiftr_div_pow2 by lia. Qed.

Section Octets.
Variables a b c d : Z.
Hypotheses (Ha : byte a) (Hb : byte b) (Hc : byte c) (Hd : byte d).

(** One range at a time: the leading bits of the address are arithmetic on the octets. *)
Local Ltac octets :=
  apply eq_true_iff_eq; rewrite in_cidr_iff by lia; unfold byte, ipv4 in *;
  rewrite ?andb_true_iff, ?orb_true_iff, ?Z.eqb_eq, ?Z.leb_le;
  repeat match goal with |- context [2 ^ ?e] =>
    let v := eval vm_compute in (2 ^ e) in change (2 ^ e) with v end;
  Z.to_euclidean_division_equations; lia.

Lemma range_127 : in_cidr (ipv4 a b c d) (ipv4 127 0 0 0, 8) = (a =? 127).
Proof. octets. Qed.
Lemma range_10 : in_cidr (ipv4 a b c d) (ipv4 10 0 0 0, 8) = (a =? 10).
Proof. octets. Qed.
Lemma range_172 : in_cidr (ipv4 a b c d) (ipv4 172 16 0 0, 12) = ((a =? 172) && (16 <=? b) && (b <=? 31)).
Proof. octets. Qed.
Lemma range_192_168 : in_cidr (ipv4 a b c d) (ipv4 192 168 0 0, 16) = ((a =? 192) && (b =? 168)).
Proof. octets. Qed.
Lemma range_169 : in_cidr (ipv4 a b c d) (ipv4 169 254 0 0, 16) = ((a =? 169) && (b =? 254)).
Proof. octets. Qed.
Lemma range_100 : in_cidr (ipv4 a b c d) (ipv4 100 64 0 0, 10) = ((a =? 100) && (64 <=? b) && (b <=? 127)).
Proof. octets. Qed.
Lemma range_198 : in_cidr (ipv4 a b c d) (ipv4 198 18 0 0, 15) = ((a =? 198) && ((b =? 18) || (b =? 19))).
Proof. octets. Qed.
Lemma range_192_0_0 : in_cidr (ipv4 a b c d) (ipv4 192 0 0 0, 24) = ((a =? 192) && (b =? 0) && (c =? 0)).
Proof. octets. Qed.
Lemma range_0 : in_cidr (ipv4 a b c d) (ipv4 0 0 0 0, 8) = (a =? 0).
Proof. octets. Qed.
Lemma range_224 : in_cidr (ipv4 a b c d) (ipv4 224 0 0 0, 3) = (224 <=? a).
Proof. octets. Qed.
End Octets.

(** On every IPv4 address the octet comparisons of the code are exactly membership in loopback
    127/8, RFC 1918 (10/8, 172.16/12, 192.168/16), link-local 169.254/16, CGNAT 100.64/10,
    benchmarking 198.18/15, protocol assignments 192.0.0/24, this-network 0/8 and everything from
    224.0.0.0 up. *)
Theorem isPrivateV4_is_range_membership a b c d :
  byte a -> byte b -> byte c -> byte d ->
  isPrivateV4 [a; b; c; d] = existsb (in_cidr (ipv4 a b c d)) private_ranges.
Proof.
  intros. unfold isPrivateV4, private_ranges.
  cbn [existsb nth0 lookup list_lookup default from_option id].
  rewrite range_127, range_10, range_172, range_192_168, range_169, range_100, range_198,
    range_192_0_0, range_0, range_224 by done.
  by rewrite !orb_assoc, orb_false_r.
Qed.

Lemma isPrivateV4_is_range_membership_witness :
  isPrivateV4 [172; 31; 255; 255] = existsb (in_cidr (ipv4 172 31 255 255)) private_ranges.
Proof. apply isPrivateV4_is_range_membership; unfold byte; lia. Defined.

(** ** IPv6: every spelling of an address reads as the same bytes *)

(** The two bytes of a group's value. *)
Definition group_bytes (n : Z) : list Z := [Z.land (Z.shiftr n 8) 255; Z.land n 255].
Definition bytes_of (ns : list Z) : list Z := ns ≫= group_bytes.

(** Groups joined with colons. *)
Fixpoint join (gs : list (list ascii)) : list ascii :=
  match gs with [] => [] | [g] => g | g :: gs' => g ++ [colon] ++ join gs' end.

(** The texts that spell the groups with the values [ns]: [hexgroup g = Some n] leaves the number of
    leading zeros free. *)
Definition spells (gs : list (list ascii)) (ns : list Z) : Prop :=
  Forall2 (fun g n => hexgroup g = Some n) gs ns.

(** All eight groups, or a [::] for a run of zero groups anywhere. *)
Inductive plain : list Z -> list ascii -> Prop :=
| plain_full gs ns : spells gs ns -> length ns = 8%nat -> plain (bytes_of ns) (join gs)
| plain_short hs ts ms ns :
    spells hs ms -> spells ts ns -> (length ms + length ns <= 8)%nat ->
    plain (bytes_of ms ++ replicate (16 - 2 * length ms - 2 * length ns) 0 ++ bytes_of ns)
          (join hs ++ [colon; colon] ++ join ts).

(** The same with the last two groups in dotted form, and with a zone id. *)
Inductive spelling : list Z -> list ascii -> Prop :=
| sp_plain bs l : plain bs l -> spelling bs l
| sp_dotted bs p q a b c d :
    v4Octets q = Some [a; b; c; d] ->
    plain bs (p ++ [colon] ++ to_hex (Z.lor (Z.shiftl a 8) b) ++ [colon]
              ++ to_hex (Z.lor (Z.shiftl c 8) d)) ->
    spelling bs (p ++ [colon] ++ q)
| sp_zone bs l z : spelling bs l -> ~ percent ∈ l -> spelling bs (l ++ [percent] ++ z).

Lemma hexgroup_hex g n : hexgroup g = Some n -> g <> [] /\ forallb is_hex g = true.
Proof.
  unfold hexgroup. destruct (bool_decide_reflect (1 <= length g <= 4)%nat) as [Hl|]; [|done].
  simpl. destruct (forallb is_hex g) eqn:E; [|done]. intros _. split; [|done].
  destruct g; simpl in *; [lia|done].
Qed.

Lemma forallb_not_in (f : ascii -> bool) l c : forallb f l = true -> f c = false -> c ∉ l.
Proof. intros H Hc Hin. rewrite forallb_forall in H. apply list_elem_of_In, H in Hin. congruence. Qed.

Lemma hexgroup_no_colon g n : hexgroup g = Some n -> colon ∉ g.
Proof. intros [_ H]%hexgroup_hex. by eapply forallb_not_in. Qed.

Lemma spells_no_colon gs ns g : spells gs ns -> g ∈ gs -> g <> [] /\ colon ∉ g.
Proof.
  intros H Hg. apply list_elem_of_lookup in Hg as [i Hi].
  destruct (Forall2_lookup_l _ _ _ _ _ H Hi) as (n & _ & Hn).
  split; [by apply hexgroup_hex in Hn as []|by eapply hexgroup_no_colon].
Qed.

Lemma split_chars_join gs :
  gs <> [] -> (forall g, g ∈ gs -> colon ∉ g) -> split_chars colon (join gs) = gs.
Proof.
  induction gs as [|g gs IH]; intros Hne Hg; [done|]. destruct gs as [|g' gs].
  - simpl. rewrite <-(app_nil_r g) at 1. rewrite split_chars_prepend by (apply Hg; by left).
    simpl. by rewrite app_nil_r.
  - change (join (g :: g' :: gs)) with (g ++ [colon] ++ join (g' :: gs)).
    rewrite split_chars_prepend by (apply Hg; by left). cbn [app].
    rewrite split_chars_sep, IH; [|done|intros; apply Hg; by right].
    simpl. by rewrite app_nil_r.
Qed.

Lemma parseGroups_join gs ns : spells gs ns -> parseGroups (join gs) = Some (bytes_of ns).
Proof.
  intros H. destruct gs as [|g gs]; [inversion H; by subst|].
  assert (join (g :: gs) <> []) as Hne.
  { destruct (spells_no_colon _ _ g H) as [Hg _]; [by left|]. destruct g; [done|]. by destruct gs. }
  unfold parseGroups. destruct (join (g :: gs)) as [|x l] eqn:E; [done|]. rewrite <-E.
  rewrite split_chars_join; [|done|intros; by eapply spells_no_colon].
  assert (mapM hexgroup (g :: gs) = Some ns) as ->; [|done].
  apply mapM_Some. done.
Qed.

Lemma bytes_of_length ns : length (bytes_of ns) = (2 * length ns)%nat.
Proof. unfold bytes_of. induction ns as [|n ns IH]; [done|]. cbn [mbind list_bind]. simpl in *. lia. Qed.

Lemma split_dcolon_ne l : split_dcolon l <> [].
Proof.
  destruct l as [|a [|b l]]; simpl; [done..|].
  destruct (decide _); [done|]. by destruct l as [|c l]; [|repeat case_decide; destruct (split_dcolon _)].
Qed.

Lemma prepend_app p q ws : prepend p (prepend q ws) = prepend (p ++ q) ws.
Proof. destruct ws; simpl; by rewrite ?app_assoc. Qed.
Lemma prepend_nil ws : ws <> [] -> prepend [] ws = ws.
Proof. by destruct ws. Qed.

Lemma split_dcolon_step a l :
  ~ (a = colon /\ head l = Some colon) -> split_dcolon (a :: l) = prepend [a] (split_dcolon l).
Proof.
  intros H. destruct l as [|b l]; [done|].
  change (split_dcolon (a :: b :: l)) with
    (if decide (a = colon /\ b = colon) then [] :: split_dcolon l
     else match split_dcolon (b :: l) with [] => [[a]] | w :: ws => (a :: w) :: ws end).
  rewrite decide_False; [by destruct (split_dcolon (b :: l))|].
  intros [-> ->]. by apply H.
Qed.

Lemma split_dcolon_two l : split_dcolon (colon :: colon :: l) = [] :: split_dcolon l.
Proof. reflexivity. Qed.

Lemma split_dcolon_prefix g r : colon ∉ g -> split_dcolon (g ++ r) = prepend g (split_dcolon r).
Proof.
  induction g as [|x g IH]; intros Hg; [by rewrite prepend_nil by apply split_dcolon_ne|].
  apply not_elem_of_cons in Hg as [Hx Hg]. cbn [app]. rewrite split_dcolon_step by naive_solver.
  by rewrite IH, prepend_app.
Qed.

(** Groups that are neither empty nor hold a colon. *)
Definition solid (gs : list (list ascii)) : Prop := forall g, g ∈ gs -> g <> [] /\ colon ∉ g.

Lemma solid_tl g gs : solid (g :: gs) -> solid gs.
Proof. intros H x Hx. apply H. by right. Qed.

Lemma join_head gs : solid gs -> head (join gs) <> Some colon.
Proof.
  intros H. destruct gs as [|g gs]; [done|]. destruct (H g ltac:(by left)) as [Hg Hc].
  destruct g as [|x g]; [done|]. apply not_elem_of_cons in Hc as [Hx _].
  destruct gs; simpl; naive_solver.
Qed.

Lemma split_dcolon_join gs r :
  solid gs -> split_dcolon (join gs ++ r) = prepend (join gs) (split_dcolon r).
Proof.
  induction gs as [|g gs IH]; intros H; [by rewrite prepend_nil by apply split_dcolon_ne|].
  destruct (H g ltac:(by left)) as [_ Hc]. destruct gs as [|g' gs]; [by apply split_dcolon_prefix|].
  change (join (g :: g' :: gs)) with (g ++ [colon] ++ join (g' :: gs)).
  rewrite <-!app_assoc, split_dcolon_prefix by done. cbn [app]. apply solid_tl in H.
  rewrite split_dcolon_step; [rewrite IH by done; by rewrite !prepend_app, <-?app_assoc|].
  intros [_ Hh]. destruct (H g' ltac:(by left)) as [Hne Hg']. destruct g' as [|x g']; [done|].
  apply (join_head ((x :: g') :: gs) H). destruct gs; exact Hh.
Qed.

Lemma spells_solid gs ns : spells gs ns -> solid gs.
Proof. intros H g. by apply spells_no_colon with ns. Qed.

(** The expansion of a text without dots and zone. *)
Lemma plain_expand bs l : plain bs l -> expandHalves l = Some bs.
Proof.
  intros [gs ns Hg Hl|hs ts ms ns Hh Ht Hl]; unfold expandHalves.
  - rewrite <-(app_nil_r (join gs)), split_dcolon_join by by eapply spells_solid. simpl.
    rewrite app_nil_r, (parseGroups_join _ _ Hg). simpl.
    by rewrite bool_decide_eq_true_2 by (rewrite bytes_of_length; lia).
  - rewrite split_dcolon_join by by eapply spells_solid. cbn [app].
    rewrite split_dcolon_two, <-(app_nil_r (join ts)), split_dcolon_join by by eapply spells_solid.
    simpl. rewrite !app_nil_r, (parseGroups_join _ _ Hh), (parseGroups_join _ _ Ht). simpl.
    rewrite !bytes_of_length, bool_decide_eq_true_2 by lia. done.
Qed.

Definition hex_or_colon (c : ascii) : bool := is_hex c || bool_decide (c = colon).

Lemma join_chars gs ns : spells gs ns -> forallb hex_or_colon (join gs) = true.
Proof.
  unfold spells. induction 1 as [|g n gs ns Hg Hgs IH]; [done|].
  assert (forallb hex_or_colon g = true) as Hg'.
  { apply hexgroup_hex in Hg as [_ Hg]. rewrite forallb_forall in *. intros c Hc.
    unfold hex_or_colon. by rewrite Hg. }
  destruct gs as [|g' gs]; [done|].
  change (join (g :: g' :: gs)) with (g ++ [colon] ++ join (g' :: gs)).
  by rewrite forallb_app, Hg', forallb_app, IH.
Qed.

Lemma plain_chars bs l : plain bs l -> forallb hex_or_colon l = true /\ colon ∈ l.
Proof.
  intros [gs ns Hg Hl|hs ts ms ns Hh Ht Hl].
  - split; [by eapply join_chars|]. apply Forall2_length in Hg.
    destruct gs as [|g [|g' gs]]; simpl in *; [lia..|]. set_solver.
  - rewrite !forallb_app, (join_chars _ _ Hh), (join_chars _ _ Ht). split; [done|set_solver].
Qed.
Lemma take_while_id {A} (f : A -> bool) l : forallb f l = true -> take_while f l = l.
Proof. induction l as [|x l IH]; simpl; [done|]. rewrite andb_true_iff. intros [-> ?]. by rewrite IH. Qed.

Lemma not_eqb_stop (c : ascii) : negb (bool_decide (c = c)) = false.
Proof. by rewrite bool_decide_eq_true_2. Qed.

Lemma forallb_ne (c : ascii) l : c ∉ l -> forallb (fun x => negb (bool_decide (x = c))) l = true.
Proof.
  intros H. apply forallb_forall. intros x Hx%list_elem_of_In.
  destruct (bool_decide_reflect (x = c)); [by subst|done].
Qed.

Lemma forallb_reverse {A} (f : A -> bool) l : forallb f (reverse l) = forallb f l.
Proof.
  apply eq_true_iff_eq. rewrite !forallb_forall. setoid_rewrite <-list_elem_of_In.
  by setoid_rewrite elem_of_reverse.
Qed.

Lemma last_piece c p q :
  c ∉ q -> after_last c (p ++ c :: q) = q /\ upto_last c (p ++ c :: q) = p ++ [c].
Proof.
  intros Hq. unfold after_last, upto_last. rewrite reverse_app, reverse_cons, <-!app_assoc. simpl.
  rewrite take_while_stop, drop_while_stop;
    try (rewrite forallb_reverse; by apply forallb_ne); try apply not_eqb_stop.
  by rewrite reverse_involutive, reverse_cons, reverse_involutive.
Qed.

Lemma forallb_weaken {A} (f g : A -> bool) l :
  (forall x, f x = true -> g x = true) -> forallb f l = true -> forallb g l = true.
Proof. rewrite !forallb_forall. auto. Qed.

Lemma hex_or_colon_not c l : forallb hex_or_colon l = true -> hex_or_colon c = false -> c ∉ l.
Proof. intros H Hc Hin. rewrite forallb_forall in H. apply list_elem_of_In, H in Hin. congruence. Qed.

Lemma has_true c l : c ∈ l -> has c l = true.
Proof. intros. by apply bool_decide_eq_true_2. Qed.
Lemma has_false c l : c ∉ l -> has c l = false.
Proof. intros. by apply bool_decide_eq_false_2. Qed.

Lemma after_last_sub c l x : x ∈ after_last c l -> x ∈ l.
Proof.
  unfold after_last. rewrite elem_of_reverse. intros H. rewrite <-(reverse_involutive l).
  apply elem_of_reverse. revert H. generalize (reverse l). intros k. induction k as [|y k IH]; simpl; [done|].
  destruct (negb _); [|by intros ?%elem_of_nil].
  intros [->|?]%elem_of_cons; [by left|right; auto].
Qed.

Lemma zoneless l : percent ∉ l ->
  take_while (fun c => negb (bool_decide (c = percent))) l = l.
Proof. intros H. by apply take_while_id, forallb_ne. Qed.

Lemma plain_bytes bs l : plain bs l -> ipv6ToBytes l = Some bs.
Proof.
  intros H. destruct (plain_chars _ _ H) as [Hl Hc]. unfold ipv6ToBytes.
  rewrite zoneless by (by eapply hex_or_colon_not). rewrite (has_true _ _ Hc). simpl.
  unfold undot. rewrite has_false; [by apply plain_expand|].
  intros Hin%after_last_sub. by apply (hex_or_colon_not dot l).
Qed.

(** The characters of a dotted quad. *)
Lemma split_chars_in c l x : x ∈ l -> x <> c -> exists w, w ∈ split_chars c l /\ x ∈ w.
Proof.
  induction l as [|y l IH]; [by intros ?%elem_of_nil|]. intros Hx Hxc. simpl.
  pose proof (split_chars_ne c l) as Hne. case_decide as Hy.
  - apply elem_of_cons in Hx as [->|Hx]; [done|]. destruct (IH Hx Hxc) as (w & ? & ?).
    exists w. split; [by right|done].
  - destruct (split_chars c l) as [|w ws]; [done|]. apply elem_of_cons in Hx as [->|Hx].
    + exists (y :: w). split; left.
    + destruct (IH Hx Hxc) as (v & [->|Hv]%elem_of_cons & ?).
      * exists (y :: w). split; [left|by right].
      * exists v. split; [by right|done].
Qed.

Lemma octet_digits p n : octet p = Some n -> forallb is_digit p = true.
Proof. unfold octet. destruct (bool_decide _); [|done]. by destruct (forallb is_digit p). Qed.

Lemma quad_chars q ns : v4Octets q = Some ns -> dot ∈ q /\ colon ∉ q /\ percent ∉ q.
Proof.
  unfold v4Octets. destruct (bool_decide_reflect (length (split_chars dot q) = 4%nat)) as [Hl|]; [|done].
  destruct (mapM octet (split_chars dot q)) as [nums|] eqn:E; [|done]. intros _.
  assert (forall x, x ∈ q -> x <> dot -> is_digit x = true) as Hd.
  { intros x Hx Hne. destruct (split_chars_in dot q x Hx Hne) as (w & Hw & Hxw).
    apply mapM_Some in E. apply list_elem_of_lookup in Hw as [i Hi].
    destruct (Forall2_lookup_l _ _ _ _ _ E Hi) as (n & _ & Hn). apply octet_digits in Hn.
    rewrite forallb_forall in Hn. by apply Hn, list_elem_of_In. }
  split_and!.
  - destruct (decide (dot ∈ q)) as [|Hn]; [done|]. rewrite split_chars_none in Hl by done. done.
  - intros Hx. by apply Hd in Hx.
  - intros Hx. by apply Hd in Hx.
Qed.

Lemma spelling_bytes bs l : spelling bs l -> ipv6ToBytes l = Some bs /\ colon ∈ l.
Proof.
  induction 1 as [bs l H|bs p q a b c d Hq H|bs l z H [IH Hc] Hz].
  - split; [by apply plain_bytes|by eapply plain_chars].
  - split; [|set_solver]. destruct (quad_chars _ _ Hq) as (Hdot & Hcol & Hper).
    destruct (plain_chars _ _ H) as [Hl _]. rewrite forallb_app in Hl. apply andb_true_iff in Hl as [Hp _].
    assert (percent ∉ p ++ [colon] ++ q) as Hz.
    { rewrite !elem_of_app, list_elem_of_singleton. intros [?|[?|?]]; [|done..].
      by apply (hex_or_colon_not percent p). }
    unfold ipv6ToBytes. rewrite zoneless by done. rewrite has_true by set_solver. simpl negb.
    cbn [negb]. unfold undot. destruct (last_piece colon p q Hcol) as [Ha Hu].
    change (p ++ [colon] ++ q) with (p ++ colon :: q). rewrite Ha, Hu, (has_true _ _ Hdot), Hq.
    rewrite <-app_assoc. cbn [mbind option_bind]. by apply plain_expand.
  - split; [|set_solver]. rewrite <-IH. unfold ipv6ToBytes. cbn [app].
    rewrite take_while_stop; [by rewrite zoneless|by apply forallb_ne|apply not_eqb_stop].
Qed.

(** Every spelling of one IPv6 address gets the same verdict, the one of its sixteen bytes:
    leading zeros, where the [::] stands (or none), a dotted IPv4 tail, a zone id and upper case
    make no difference, so a loopback or private address cannot be respelled past the check. *)
Theorem every_spelling_is_judged_alike bs ip :
  spelling bs (lower_char <$> chars ip) -> isPrivateIP ip = isPrivateBytes bs.
Proof.
  intros H. destruct (spelling_bytes _ _ H) as [Hb Hc].
  unfold isPrivateIP, isPrivateChars. by rewrite has_true, Hb.
Qed.

(** Loopback spelled with a dotted tail, a zone and capitals. *)
Lemma every_spelling_is_judged_alike_witness :
  isPrivateIP "::FFFF:127.0.0.1%Lo0" = isPrivateBytes (replicate 10 0 ++ [255; 255; 127; 0; 0; 1]).
Proof.
  apply every_spelling_is_judged_alike.
  apply (sp_zone _ (chars "::ffff:127.0.0.1") (chars "lo0"));
    [|apply (bool_decide_unpack _); vm_compute; exact I].
  apply (sp_dotted _ (chars "::ffff") (chars "127.0.0.1") 127 0 0 1); [reflexivity|].
  apply (plain_short [] [chars "ffff"; chars "7f00"; chars "1"] [] [65535; 32512; 1]);
    [constructor|repeat constructor|simpl; lia].
Defined.
