(* ===== verification/Egress.v ===== *)
(** Outbound requests, [core/network-guard.ts] with [core/llm/endpoint-allowlist.ts] and
    [core/shopify-host.ts]: the configured network policy, resolving and pinning an address, and
    following redirects hop by hop.

    The platform's [URL] parser, the DNS resolver and the transport are parameters; the transport is
    told what was sent before, so it may answer differently each time. A failed or timed-out lookup
    answers no record, as the code's [catch] makes it. Requests that carry a store pass are not
    modelled. *)
From S2P Require Import Prelude Num JsString IpAddr.
Local Open Scope Z_scope.

(** A parsed URL; [u_port] is [None] when the port is the protocol's own. *)
Record Url := {
  u_href : string; u_protocol : string; u_hostname : string; u_host : string; u_port : option Z;
  u_origin : string }.

(** @src src/src/contract/vocab.ts 118-120 NetworkPolicy *)
Inductive NetworkPolicy := allow_all | deny_all | allow_list | guarded | other_policy (p : string).

(** @src src/src/core/network-guard.ts 188-191 EgressCall *)
Inductive EgressCall :=
| discovery
| full_control (ackHosts : option (list string))
| connector (hosts : list string).

(** @src src/src/core/network-guard.ts 196-206 HostPolicyContext *)
Record HostPolicyContext := {
  networkPolicy : option NetworkPolicy; allowedHosts : option (list string);
  allowedWildcards : list string; enforceHttps : bool }.

(** Why a request was refused. *)
Inductive Blocked :=
| InvalidUrl
| UnsupportedProtocol (p : string)
| HttpNotAllowed
| DenyAll
| NotInAllowList (h : string)
| NotGuarded (h : string)
| UnrecognisedPolicy
| PrivateAddress (h : string)
| ResolvesToPrivate (h ip : string)
| DidNotResolve (h : string)
| RecordWithoutAddress (h : string)
| ShopifyUnavailable
| RedirectWithoutLocation (status : Z)
| TooManyRedirects (max : nat)
| TransportFailed (e : string).

(** [hostname.replace(/^\[|\]$/g, '')]. *)
Definition strip_brackets (h : string) : string :=
  let l := chars h in
  let l := match l with c :: l' => if bool_decide (c = "["%char) then l' else l | [] => [] end in
  let r := reverse l in
  let r := match r with c :: r' => if bool_decide (c = "]"%char) then r' else r | [] => [] end in
  unchars (reverse r).

Definition is_http (protocol : string) : bool :=
  bool_decide (protocol = "http:"%string) || bool_decide (protocol = "https:"%string).

(** @src src/src/core/llm/endpoint-allowlist.ts 29-46 ALLOWLISTED_HOSTS *)
Definition ALLOWLISTED_HOSTS : list string :=
  ["api.eu.mistral.ai"; "api.mistral.ai"; "api.anthropic.com"; "api.openai.com"; "api.groq.com";
   "api.together.xyz"; "api.fireworks.ai"; "aiplatform.googleapis.com"; "localhost"; "127.0.0.1";
   "0.0.0.0"]%string.

(** @src src/src/core/network-guard.ts 208-215 hostInFloor *)
Definition hostInFloor (hostname : string) (ctx : HostPolicyContext) : bool :=
  bool_decide (hostname ∈ default [] ctx.(allowedHosts)) ||
  existsb (fun domain => bool_decide (hostname = domain) || endsWith hostname ("." ++ domain)%string)
    ctx.(allowedWildcards).

(** @src src/src/core/shopify-host.ts 17-22 normalizeHostForMatch *)
Definition normalizeHostForMatch (h : string) : string :=
  unchars (reverse (drop_while (fun c => bool_decide (c = ".")) (reverse (lower_char <$> chars h))))%char.
(** @src src/src/core/shopify-host.ts 24-28 isShopifyAdminHost *)
Definition isShopifyAdminHost (hostname : string) : bool :=
  let h := normalizeHostForMatch hostname in
  bool_decide (h = "myshopify.com"%string) || endsWith h ".myshopify.com".

Definition Headers : Type := list (string * string).
(** @src src/src/core/network-guard.ts 494-504 CROSS_ORIGIN_DROP_HEADERS *)
Definition CROSS_ORIGIN_DROP_HEADERS : list string :=
  ["authorization"; "cookie"; "proxy-authorization"; "x-api-key"; "x-auth-token"; "x-csrf-token"]%string.

(** What the transport is asked to send. *)
(** @src src/src/core/network-guard.ts 595-616 PinnedTransportInput *)
Record PinnedTransportInput := {
  i_url : string; i_hostname : string; i_pinnedIp : string; i_family : Z; i_port : Z;
  i_method : string; i_headers : Headers; i_body : option string; i_protocol : string }.

(** The parts of a response the redirect loop reads. *)
Record Response := { status : Z; location : option string }.

(** [toUpperCase] on ASCII. *)
Definition toUpperCase (s : string) : string :=
  unchars ((fun c => if is_lower c then chr (code c - 32) else c) <$> chars s).

Section Egress.
(** [new URL(s, base)], [None] when it throws. *)
Variable newURL : string -> option string -> option Url.
(** [dns.lookup(host, { all: true })] with the timeout and the [catch]: address and family. *)
Variable lookup : string -> list (string * Z).
(** The transport, told what it already sent. *)
Variable transport : list PinnedTransportInput -> PinnedTransportInput -> result string Response.

(** @src src/src/core/llm/endpoint-allowlist.ts 248-256 isGuardedBaselineHost *)
Definition isGuardedBaselineHost (url : string) : bool :=
  match newURL url None with
  | Some u => is_http u.(u_protocol) && bool_decide (u.(u_hostname) ∈ ALLOWLISTED_HOSTS)
  | None => false
  end.

(** The [switch] over the policy. *)
Definition policyVerdict (rawUrl hostname : string) (call : EgressCall) (ctx : option HostPolicyContext)
    : result Blocked unit :=
  let inFloor := match ctx with Some c => hostInFloor hostname c | None => false end in
  match ctx ≫= networkPolicy with
  | None | Some allow_all => Ok tt
  | Some deny_all => Err DenyAll
  | Some allow_list => throw_if (negb inFloor) (NotInAllowList hostname)
  | Some guarded =>
      match call with
      | discovery => Ok tt
      | full_control ackHosts =>
          throw_if (negb (isGuardedBaselineHost rawUrl || inFloor ||
                          bool_decide (hostname ∈ default [] ackHosts))) (NotGuarded hostname)
      | connector hosts =>
          throw_if (negb (bool_decide (hostname ∈ hosts) || inFloor)) (NotGuarded hostname)
      end
  | Some (other_policy _) => Err UnrecognisedPolicy
  end.

(** @src src/src/core/network-guard.ts 217-350 assertHostPolicy *)
Definition assertHostPolicy (rawUrl : string) (call : EgressCall) (ctx : option HostPolicyContext)
    : result Blocked unit :=
  match newURL rawUrl None with
  | None => Err InvalidUrl
  | Some parsed =>
      if negb (is_http parsed.(u_protocol)) then Err (UnsupportedProtocol parsed.(u_protocol))
      else
        let hostname := strip_brackets parsed.(u_hostname) in
        let local := bool_decide (hostname ∈ ["localhost"; "127.0.0.1"; "::1"]%string) in
        if match ctx with Some c => c.(enforceHttps) | None => false end &&
           bool_decide (parsed.(u_protocol) = "http:"%string) && negb local
        then Err HttpNotAllowed
        else
          match policyVerdict rawUrl hostname call ctx with
          | Err e => Err e
          | Ok _ => throw_if (isPrivateIP hostname) (PrivateAddress hostname)
          end
  end.

(** The first record that points inward. *)
Definition private_record (records : list (string * Z)) : option string :=
  fst <$> head (filter (fun r => isPrivateIP r.1 = true) records).

(** @src src/src/core/network-guard.ts 352-368 assertPublicHost *)
Definition assertPublicHost (hostname : string) : result Blocked unit :=
  let cleaned := strip_brackets hostname in
  if isPrivateIP cleaned then Err (PrivateAddress cleaned)
  else match private_record (lookup cleaned) with
       | Some ip => Err (ResolvesToPrivate cleaned ip)
       | None => Ok tt
       end.

(** @src src/src/core/network-guard.ts 370-381 assertPublicUrl *)
Definition assertPublicUrl (rawUrl : string) : result Blocked unit :=
  match newURL rawUrl None with
  | None => Err InvalidUrl
  | Some parsed =>
      if negb (is_http parsed.(u_protocol)) then Err (UnsupportedProtocol parsed.(u_protocol))
      else assertPublicHost parsed.(u_hostname)
  end.

(** [/^\d+\.\d+\.\d+\.\d+$/]. *)
Definition looks_ipv4 (l : list ascii) : bool :=
  let ps := split_chars dot l in
  bool_decide (List.length ps = 4%nat) &&
  forallb (fun p => negb (bool_decide (p = [])) && forallb is_digit p) ps.

(** @src src/src/core/network-guard.ts 386-441 resolveAndValidate *)
Definition resolveAndValidate (hostname : string) : result Blocked (string * Z) :=
  let cleaned := strip_brackets hostname in
  let v6 := has colon (chars cleaned) in
  if v6 || looks_ipv4 (chars cleaned) then
    if isPrivateIP cleaned then Err (PrivateAddress cleaned)
    else Ok (cleaned, if v6 then 6 else 4)
  else
    let resolved := lookup cleaned in
    match resolved with
    | [] => Err (DidNotResolve cleaned)
    | first :: _ =>
        match private_record resolved with
        | Some ip => Err (ResolvesToPrivate cleaned ip)
        | None =>
            if bool_decide (first.1 = ""%string) then Err (RecordWithoutAddress cleaned)
            else Ok (first.1, if first.2 =? 6 then 6 else 4)
        end
    end.

Definition origin (url : string) : option string := u_origin <$> newURL url None.

(** @src src/src/core/network-guard.ts 546-561 isCrossOriginHop *)
Definition isCrossOriginHop (fromUrl toUrl : string) : bool :=
  match origin fromUrl, origin toUrl with
  | Some a, Some b => negb (bool_decide (a = b))
  | _, _ => true
  end.

Definition is_credential (extra : option string) (name : string) : bool :=
  let lower := toLowerCase name in
  bool_decide (lower ∈ CROSS_ORIGIN_DROP_HEADERS) || bool_decide (Some lower = (toLowerCase <$> extra)).

(** @src src/src/core/network-guard.ts 506-544 redirectHopHeaders *)
Definition redirectHopHeaders (headers : Headers) (fromUrl toUrl : string) (extra : option string) : Headers :=
  if negb (isCrossOriginHop fromUrl toUrl) then headers
  else filter (fun h => is_credential extra h.1 = false) headers.

(** A Host header value split on the characters no host holds; [piece.replace(/:[^:\]]*$/, '')]. *)
Definition is_sep (c : ascii) : bool := is_space c || bool_decide (c = ",")%char ||
  bool_decide (c = "/")%char || bool_decide (c = "@")%char.
Fixpoint split_where (f : ascii -> bool) (l : list ascii) : list (list ascii) :=
  match l with
  | [] => [[]]
  | c :: l' =>
      if f c then [] :: split_where f l'
      else match split_where f l' with [] => [[c]] | w :: ws => (c :: w) :: ws end
  end.
Definition cut_port (piece : list ascii) : list ascii :=
  if has colon piece && negb (has "]"%char (after_last colon piece))
  then take (List.length piece - S (List.length (after_last colon piece))) piece else piece.
Definition namesStore (v : string) : bool :=
  existsb (fun piece => isShopifyAdminHost (unchars piece) || isShopifyAdminHost (unchars (cut_port piece)))
    (split_where is_sep (chars v)).

Definition is_host_header (h : string * string) : bool := bool_decide (toLowerCase h.1 = "host"%string).

(** [fetchPinned] without a store pass: what it hands the transport, or why it refuses. *)
(** @src src/src/core/network-guard.ts 745-826 fetchPinned *)
Definition pinnedInput (url method : string) (headers : Headers) (body : option string)
    : result Blocked PinnedTransportInput :=
  match newURL url None with
  | None => Err InvalidUrl
  | Some parsed =>
      if negb (is_http parsed.(u_protocol)) then Err (UnsupportedProtocol parsed.(u_protocol))
      else
        let hostHeaders := snd <$> filter (fun h => is_host_header h = true) headers in
        if isShopifyAdminHost parsed.(u_hostname) || existsb namesStore hostHeaders
        then Err ShopifyUnavailable
        else
          let hostname := strip_brackets parsed.(u_hostname) in
          match resolveAndValidate hostname with
          | Err e => Err e
          | Ok (pinnedIp, family) =>
              let headers := if existsb is_host_header headers then headers
                else headers ++ [("host"%string, parsed.(u_host))] in
              Ok {| i_url := url; i_hostname := hostname; i_pinnedIp := pinnedIp; i_family := family;
                    i_port := match parsed.(u_port) with Some p => p
                      | None => if bool_decide (parsed.(u_protocol) = "https:"%string) then 443 else 80 end;
                    i_method := toUpperCase method; i_headers := headers; i_body := body;
                    i_protocol := parsed.(u_protocol) |}
          end
  end.

(** @src src/src/core/network-guard.ts 383-384 REDIRECT_STATUSES *)
Definition REDIRECT_STATUSES : list Z := [301; 302; 303; 307; 308].

Definition is_get_or_head (m : string) : bool :=
  bool_decide (m = "GET"%string) || bool_decide (m = "HEAD"%string).

(** The method and body of the next hop. *)
Definition next_request (st : Z) (method : string) (body : option string) (from to : string)
    : string * option string :=
  let '(method, body) :=
    if bool_decide (st ∈ [303; 301; 302]) && negb (is_get_or_head method) then ("GET"%string, None)
    else (method, body) in
  match body with
  | Some _ => if isCrossOriginHop from to then ("GET"%string, None) else (method, body)
  | None => (method, body)
  end.

(** The hops from [i] on; [left] is [max - i], so the recursion is structural. Answers everything
    that was sent, in order, with the final response or the refusal. *)
(** @src src/src/core/network-guard.ts 840-916 fetchWithPublicRedirects *)
Fixpoint redirect_loop (max left : nat) (sent : list PinnedTransportInput) (url method : string)
    (headers : Headers) (body : option string) : list PinnedTransportInput * result Blocked Response :=
  match pinnedInput url method headers body with
  | Err e => ([], Err e)
  | Ok input =>
      match transport sent input with
      | Err e => ([input], Err (TransportFailed e))
      | Ok response =>
          if negb (bool_decide (response.(status) ∈ REDIRECT_STATUSES)) then ([input], Ok response)
          else
            match response.(location) with
            | None => ([input], Err (RedirectWithoutLocation response.(status)))
            | Some loc =>
                if bool_decide (loc = ""%string)
                then ([input], Err (RedirectWithoutLocation response.(status)))
                else
                  match left with
                  | O => ([input], Err (TooManyRedirects max))
                  | S left' =>
                      match newURL loc (Some url) with
                      | None => ([input], Err InvalidUrl)
                      | Some next =>
                          let nextUrl := next.(u_href) in
                          let '(method', body') := next_request response.(status) method body url nextUrl in
                          let '(rest, res) := redirect_loop max left' (sent ++ [input]) nextUrl method'
                            (redirectHopHeaders headers url nextUrl None) body' in
                          (input :: rest, res)
                      end
                  end
            end
      end
  end.

Definition fetchWithPublicRedirects (url method : string) (headers : Headers) (body : option string)
    (maxRedirects : option nat) : list PinnedTransportInput * result Blocked Response :=
  let max := default 5%nat maxRedirects in
  redirect_loop max max [] url (toUpperCase method) headers body.

(** ** The policy *)

(** What each policy admits, surface by surface. *)
Definition admitted (rawUrl hostname : string) (call : EgressCall) (ctx : option HostPolicyContext) : Prop :=
  let floor := exists c, ctx = Some c /\ hostInFloor hostname c = true in
  match ctx ≫= networkPolicy with
  | None | Some allow_all => True
  | Some deny_all | Some (other_policy _) => False
  | Some allow_list => floor
  | Some guarded =>
      match call with
      | discovery => True
      | full_control acks => floor \/ isGuardedBaselineHost rawUrl = true \/ exists l, acks = Some l /\ hostname ∈ l
      | connector hosts => floor \/ hostname ∈ hosts
      end
  end.

Lemma policyVerdict_iff rawUrl hostname call ctx :
  policyVerdict rawUrl hostname call ctx = Ok tt <-> admitted rawUrl hostname call ctx.
Proof.
  assert ((match ctx with Some c => hostInFloor hostname c | None => false end) = true <->
    exists c, ctx = Some c /\ hostInFloor hostname c = true) as Hf.
  { destruct ctx; naive_solver. }
  unfold policyVerdict, admitted. revert Hf.
  generalize (match ctx with Some c => hostInFloor hostname c | None => false end) as fl. intros fl Hf.
  assert (forall b (e : Blocked), throw_if (negb b) e = Ok tt <-> b = true) as Ht.
  { unfold throw_if. intros [] e; simpl; naive_solver. }
  destruct (ctx ≫= networkPolicy) as [[]|]; try (split; done); [by rewrite Ht, Hf|].
  destruct call as [|acks|hosts]; [done|..]; rewrite Ht, <-Hf, !orb_true_iff, bool_decide_eq_true.
  - destruct acks as [l|]; simpl; [naive_solver|]. split; [|naive_solver].
    intros [?|?%elem_of_nil]; [tauto|done].
  - tauto.
Qed.

(** A request passes exactly when its URL is http or https, it is not plain http to a remote host
    under [enforce_https], the policy admits its host for its surface, and the host is not a private
    address: under [guarded] a connector is never admitted by the provider baseline or by somebody's
    acknowledgement, and an agent-steered request never by a connector's own hosts; [deny-all] and an
    unknown policy admit nothing; a private address is refused under every policy. *)
Theorem host_policy_iff rawUrl call ctx :
  assertHostPolicy rawUrl call ctx = Ok tt <->
  exists u, newURL rawUrl None = Some u /\ is_http (u_protocol u) = true /\
    ((exists c, ctx = Some c /\ enforceHttps c = true) -> u_protocol u = "http:"%string ->
       strip_brackets (u_hostname u) ∈ ["localhost"; "127.0.0.1"; "::1"]%string) /\
    admitted rawUrl (strip_brackets (u_hostname u)) call ctx /\
    isPrivateIP (strip_brackets (u_hostname u)) = false.
Proof.
  unfold assertHostPolicy. destruct (newURL rawUrl None) as [u|]; [|split; [done|by intros (? & ? & _)]].
  destruct (is_http (u_protocol u)) eqn:Eh; simpl;
    [|split; [done|intros (u' & [= <-] & ? & _); congruence]].
  set (h := strip_brackets (u_hostname u)).
  assert (match ctx with Some c => enforceHttps c | None => false end = true <->
    exists c, ctx = Some c /\ enforceHttps c = true) as He by (destruct ctx; naive_solver).
  destruct (_ && _ && _) eqn:Eg.
  - rewrite !andb_true_iff, negb_true_iff, bool_decide_eq_true, bool_decide_eq_false, He in Eg.
    destruct Eg as [[Hc Hp] Hn]. split; [done|]. intros (u' & [= <-] & _ & Hl & _).
    by destruct (Hn (Hl Hc Hp)).
  - assert ((exists c, ctx = Some c /\ enforceHttps c = true) -> u_protocol u = "http:"%string ->
      h ∈ ["localhost"; "127.0.0.1"; "::1"]%string) as Hl.
    { intros Hc Hp. apply He in Hc. apply dec_stable. intros Hn.
      rewrite Hc, Hp, (bool_decide_eq_false_2 (h ∈ _)) in Eg by done. done. }
    pose proof (policyVerdict_iff rawUrl h call ctx) as Hv.
    destruct (policyVerdict rawUrl h call ctx) as [[]|e].
    + unfold throw_if. destruct (isPrivateIP h) eqn:Ep;
        [split; [done|intros (u' & [= <-] & _ & _ & _ & Hq); change (isPrivateIP h = false) in Hq; congruence]|].
      split; [|done]. intros _. exists u. split_and!; try done. by apply Hv.
    + split; [done|]. intros (u' & [= <-] & _ & _ & Ha & _). by apply Hv in Ha.
Qed.

(** ** What a redirect chain sends *)

(** A header of one of the names the loop takes for a credential, [CROSS_ORIGIN_DROP_HEADERS]: what it holds, or
    what a header of another name holds, is not looked at. *)
Definition credential (hs : Headers) : Prop := exists h, h ∈ hs /\ is_credential None h.1 = true.

(** The hops [0..k] are all at one origin. *)
Definition one_origin (trace : list PinnedTransportInput) (k : nat) : Prop :=
  forall j a b, (j < k)%nat -> trace !! j = Some a -> trace !! S j = Some b ->
    isCrossOriginHop (i_url a) (i_url b) = false.

Lemma pinnedInput_sent url method headers body input :
  pinnedInput url method headers body = Ok input ->
  i_url input = url /\ i_body input = body /\ is_http (i_protocol input) = true /\
  isPrivateIP (i_pinnedIp input) = false /\ (credential (i_headers input) <-> credential headers) /\ headers ⊆ i_headers input.
Proof.
  unfold pinnedInput. destruct (newURL url None) as [u|]; [|done].
  destruct (is_http (u_protocol u)) eqn:Eh; [|done]. simpl negb. cbn iota.
  destruct (_ || existsb namesStore _); [done|].
  destruct (resolveAndValidate _) as [[ip fam]|e] eqn:Er; [|done]. intros [= <-]. simpl.
  split_and!; try done.
  - unfold resolveAndValidate in Er. destruct (_ || _).
    + destruct (isPrivateIP (strip_brackets _)) eqn:Ep; [done|]. by simplify_eq.
    + destruct (lookup _) as [|first rs] eqn:El; [done|].
      destruct (private_record (first :: rs)) eqn:Ep; [done|]. destruct (bool_decide _); [done|].
      simplify_eq. unfold private_record in Ep. rewrite filter_cons in Ep.
      case_decide; [done|]. by apply not_true_is_false.
  - destruct (existsb is_host_header headers); [done|]. split; intros (h & Hin & Hc).
    + apply elem_of_app in Hin as [?|Hin]; [by exists h|].
      apply list_elem_of_singleton in Hin as ->. by vm_compute in Hc.
    + exists h. split; [|done]. apply elem_of_app. by left.
  - destruct (existsb is_host_header headers); [done|]. intros h Hh. apply elem_of_app. by left.
Qed.

Lemma redirect_headers hs from to :
  credential (redirectHopHeaders hs from to None) -> isCrossOriginHop from to = false /\ credential hs.
Proof.
  unfold redirectHopHeaders. destruct (isCrossOriginHop from to); [|done]. simpl.
  intros (h & [Hk _]%list_elem_of_filter & Hc). congruence.
Qed.

Lemma redirect_others hs from to h : h ∈ hs -> is_credential None h.1 = false -> h ∈ redirectHopHeaders hs from to None.
Proof. intros Hin Hc. unfold redirectHopHeaders. destruct (negb _); [done|]. by apply list_elem_of_filter. Qed.

Lemma next_body st m body from to m' b :
  next_request st m body from to = (m', Some b) -> isCrossOriginHop from to = false /\ body = Some b.
Proof.
  unfold next_request. destruct (_ && _); [done|]. destruct body; [|done].
  destruct (isCrossOriginHop from to); intros; by simplify_eq.
Qed.

Lemma redirect_loop_head max left sent url method headers body t res :
  redirect_loop max left sent url method headers body = (t, res) ->
  t = [] \/ exists input rest, t = input :: rest /\ pinnedInput url method headers body = Ok input.
Proof.
  destruct left as [|left]; simpl; (destruct (pinnedInput url method headers body) as [input|e]; [|by left; simplify_eq]);
    (destruct (transport sent input) as [r|e]; [|intros; simplify_eq; right; eauto]);
    repeat (case_match; simplify_eq; try (intros; simplify_eq; right; by eauto)).
Qed.

(** What is promised of the hops [t] of a chain that started with these headers and this body. *)
Definition chain_ok (headers : Headers) (body : option string) (t : list PinnedTransportInput) : Prop :=
  forall k input, t !! k = Some input ->
    is_http (i_protocol input) = true /\ isPrivateIP (i_pinnedIp input) = false /\
    (credential (i_headers input) -> one_origin t k /\ credential headers) /\
    (forall b, i_body input = Some b -> one_origin t k /\ body = Some b) /\
    (forall h, h ∈ headers -> is_credential None h.1 = false -> h ∈ i_headers input).

Lemma one_origin_0 t : one_origin t 0.
Proof. intros j a b ?. lia. Qed.

Lemma chain_head url method headers body input :
  pinnedInput url method headers body = Ok input -> chain_ok headers body [input].
Proof.
  intros Ei. destruct (pinnedInput_sent _ _ _ _ _ Ei) as (Hu & Hb & Hp & Hip & Hc & Hs).
  intros k inp Hk. apply list_lookup_singleton_Some in Hk as [-> <-].
  split_and!; [done|done|intros ?; split; [apply one_origin_0|by apply Hc]| |intros h Hh _; by apply Hs].
  intros b ?. split; [apply one_origin_0|congruence].
Qed.

Lemma one_origin_cons input inp rest k :
  isCrossOriginHop (i_url input) (i_url inp) = false ->
  one_origin (inp :: rest) k -> one_origin (input :: inp :: rest) (S k).
Proof.
  intros Hx Ho j a b Hj. destruct j as [|j]; simpl; [by intros [= <-] [= <-]|].
  intros Ha Hb. apply (Ho j); [lia|done|done].
Qed.

Lemma chain_cons url method headers body input next st m' body' t :
  pinnedInput url method headers body = Ok input ->
  next_request st method body url next = (m', body') ->
  (t = [] \/ exists inp rest m h b, t = inp :: rest /\ pinnedInput next m h b = Ok inp) ->
  chain_ok (redirectHopHeaders headers url next None) body' t -> chain_ok headers body (input :: t).
Proof.
  intros Ei En Ht Hc k inp Hk. destruct (pinnedInput_sent _ _ _ _ _ Ei) as (Hu & _).
  destruct k as [|k].
  { simpl in Hk. injection Hk as <-. pose proof (chain_head _ _ _ _ _ Ei 0%nat input eq_refl).
    naive_solver (apply one_origin_0). }
  destruct Ht as [->|(i1 & rest & m & h & b & -> & E1)]; [done|].
  destruct (pinnedInput_sent _ _ _ _ _ E1) as (Hu1 & _).
  destruct (Hc k inp Hk) as (Hp & Hip & Hcr & Hbd & Hoth). split_and!; [done|done|..|intros h' Hh Hn; apply Hoth; [by apply redirect_others|done]].
  - intros Hh. destruct (Hcr Hh) as [Ho Hr]. apply redirect_headers in Hr as [Hx Hr].
    split; [|done]. apply one_origin_cons; [by rewrite Hu, Hu1|done].
  - intros bb Hb. destruct (Hbd bb Hb) as [Ho ->]. apply next_body in En as [Hx ->].
    split; [|done]. apply one_origin_cons; [by rewrite Hu, Hu1|done].
Qed.

Lemma redirect_loop_chain left max sent url method headers body :
  let t := (redirect_loop max left sent url method headers body).1 in
  (length t <= S left)%nat /\ chain_ok headers body t /\
  (t = [] \/ exists inp rest, t = inp :: rest /\ pinnedInput url method headers body = Ok inp).
Proof.
  revert sent url method headers body.
  induction left as [|left IH]; intros sent url method headers body; cbn zeta; cbn [redirect_loop];
    destruct (pinnedInput url method headers body) as [input|e] eqn:Ei;
    try (split_and!; [simpl; lia|by intros ? ? ?|by left]);
    pose proof (chain_head _ _ _ _ _ Ei) as H1;
    (destruct (transport sent input) as [r|e];
      [|cbn [fst]; split_and!; [simpl; lia|exact H1|right; by exists input, []]]);
    (destruct (negb _); [cbn [fst]; split_and!; [simpl; lia|exact H1|right; by exists input, []]|]);
    (destruct (location r) as [loc|];
      [|cbn [fst]; split_and!; [simpl; lia|exact H1|right; by exists input, []]]);
    (destruct (bool_decide _); [cbn [fst]; split_and!; [simpl; lia|exact H1|right; by exists input, []]|]);
    try (cbn [fst]; split_and!; [simpl; lia|exact H1|right; by exists input, []]).
  destruct (newURL loc (Some url)) as [next|];
    [|cbn [fst]; split_and!; [simpl; lia|exact H1|right; by exists input, []]].
  destruct (next_request _ _ _ _ _) as [m' body'] eqn:En.
  specialize (IH (sent ++ [input]) (u_href next) m' (redirectHopHeaders headers url (u_href next) None) body').
  destruct (redirect_loop _ _ _ _ _ _ _) as [rest res]. cbn [fst] in *.
  destruct IH as (Hl & Hc & Hh). split_and!; [simpl; lia| |right; by exists input, rest].
  eapply chain_cons; [done..| |done]. destruct Hh as [?|(i1 & r1 & ? & ?)]; [by left|right].
  by exists i1, r1, m', (redirectHopHeaders headers url (u_href next) None), body'.
Qed.

(** C38. Whatever the servers answer, a fetch that follows redirects sends at most [maxRedirects + 1]
    requests (6 by default), each over http or https and pinned to an address that is not private, with
    no exception a setting could make. The request body, and a header of one of the six names the loop
    lists as credentials, is sent at a hop only if the caller gave it and every hop so far stayed at one
    origin, so neither is ever replayed to an origin a redirect chose. Every other header of the caller
    goes along to every hop, so a key under another name is replayed. *)
Theorem redirects_leak_nothing url method headers body maxRedirects :
  let t := (fetchWithPublicRedirects url method headers body maxRedirects).1 in
  (length t <= S (default 5 maxRedirects))%nat /\
  forall k input, t !! k = Some input ->
    is_http (i_protocol input) = true /\ isPrivateIP (i_pinnedIp input) = false /\
    (credential (i_headers input) -> one_origin t k /\ credential headers) /\
    (forall b, i_body input = Some b -> one_origin t k /\ body = Some b) /\
    (forall h, h ∈ headers -> is_credential None h.1 = false -> h ∈ i_headers input).
Proof.
  destruct (redirect_loop_chain (default 5%nat maxRedirects) (default 5%nat maxRedirects) [] url
    (toUpperCase method) headers body) as (Hl & Hc & _). by split.
Qed.
End Egress.

(** A resolver, a parser and a transport to run the loop on. *)
Definition sample_newURL (s : string) (base : option string) : option Url :=
  let host := unchars (take_while (fun c => negb (bool_decide (c = "/"%char))) (drop 8 (chars s))) in
  if startsWith s "https://"
  then Some {| u_href := s; u_protocol := "https:"; u_hostname := host; u_host := host; u_port := None;
               u_origin := ("https://" ++ host)%string |}
  else None.
Definition sample_lookup (h : string) : list (string * Z) :=
  if bool_decide (h = "evil.example"%string) then [("10.0.0.7"%string, 4)] else [("93.184.216.34"%string, 4)].
Definition sample_transport (sent : list PinnedTransportInput) (i : PinnedTransportInput) : result string Response :=
  match List.length sent with
  | O => Ok {| status := 307; location := Some "https://other.example/x"%string |}
  | S O => Ok {| status := 307; location := Some "https://evil.example/"%string |}
  | _ => Ok {| status := 200; location := None |}
  end.
Definition sample_chain :=
  fetchWithPublicRedirects sample_newURL sample_lookup sample_transport "https://api.example/a" "post"
    [("Authorization"%string, "Bearer k"%string)] (Some "secret"%string) None.

Example sample_chain_runs :
  (fun i => (i_url i, i_method i, List.length (i_headers i), i_body i)) <$> sample_chain.1
  = [("https://api.example/a", "POST", 2%nat, Some "secret"); ("https://other.example/x", "GET", 1%nat, None)]%string
  /\ sample_chain.2 = Err (ResolvesToPrivate "evil.example" "10.0.0.7").
Proof. vm_compute. done. Qed.

(** A key in a header of its own name reaches the origin the redirect chose. *)
Example a_key_under_another_name_is_replayed :
  (fun i => (i_hostname i, i_headers i)) <$> (fetchWithPublicRedirects sample_newURL sample_lookup sample_transport "https://api.example/a" "get"
    [("Private-Token"%string, "k"%string); ("X-Api-Key"%string, "k"%string)] None None).1 =
  [("api.example", [("Private-Token", "k"); ("X-Api-Key", "k"); ("host", "api.example")]);
   ("other.example", [("Private-Token", "k"); ("host", "other.example")])]%string.
Proof. vm_compute. done. Qed.

Lemma redirects_leak_nothing_witness : (length sample_chain.1 <= 6)%nat.
Proof.
  exact (proj1 (redirects_leak_nothing sample_newURL sample_lookup sample_transport
    "https://api.example/a" "post" [("Authorization"%string, "Bearer k"%string)] (Some "secret"%string) None)).
Defined.
