(* ===== verification/EgressRegistry.v ===== *)
(** The credentials of the egress proxy, [egress-proxy/registry.ts]: which hosts a shell run may
    reach and for how long, the tunnels open under a credential and the denials recorded for it.

    The clock is an argument of every call. Closing a tunnel is an output: each operation answers
    the tunnels it closed. A tunnel is known by a number, the identity of its handle object. *)
From S2P Require Import Prelude Num JsString.
Local Open Scope Z_scope.

(** @src src/src/egress-proxy/registry.ts 16-24 MAX_TTL_S *)
Definition MAX_TTL_S : Z := 15 * 60 + 5.
Definition DENIAL_RETENTION_MS : Z := 60000.
Definition MAX_DENIALS_PER_CRED : nat := 256.
Definition MAX_CREDS : nat := 1024.

(** [None] is the set ['*']. *)
(** @src src/src/egress-proxy/registry.ts 26-26 HostSet *)
Definition HostSet : Type := option (list string).

(** @src src/src/egress-proxy/registry.ts 28-35 DenialReason *)
Inductive DenialReason :=
| not_in_set | plain_http | bad_port | bad_target | ssrf | sni_mismatch | no_sni | bad_hello | hello_timeout.

(** @src src/src/egress-proxy/registry.ts 37-51 Denial *)
Record Denial := { d_host : list ascii; d_port : Z; d_at : Z; d_reason : DenialReason }.
Definition MAX_DENIED_HOST_CHARS : nat := 255.

(** @src src/src/egress-proxy/registry.ts 53-58 Registration *)
Record Registration := { set_ : HostSet; ttlS : Z; reg_run : string; reg_session : string }.

(** @src src/src/egress-proxy/registry.ts 60-64 TunnelHandle *)
Record TunnelHandle := { t_id : nat; t_host : string }.
#[global] Instance TunnelHandle_eq_dec : EqDecision TunnelHandle.
Proof. solve_decision. Defined.

(** @src src/src/egress-proxy/registry.ts 66-73 Entry *)
Record Entry := {
  e_set : HostSet; expiresAt : Z; e_run : string; e_session : string;
  e_denials : list Denial; tunnels : list TunnelHandle }.

(** @src src/src/egress-proxy/registry.ts 75-78 Retired *)
Record Retired := { r_denials : list Denial; until : Z }.

(** @src src/src/egress-proxy/registry.ts 80-82 hostInSet *)
Definition hostInSet (s : HostSet) (host : string) : bool :=
  match s with None => true | Some l => bool_decide (host ∈ l) end.

(** @src src/src/egress-proxy/registry.ts 84-88 CredentialRegistry *)
Record CredentialRegistry := { live : gmap string Entry; retired : gmap string Retired }.

(** @src src/src/egress-proxy/registry.ts 173-178 retire *)
Definition retire (r : CredentialRegistry) (cred : string) (entry : Entry) (endedAt : Z)
    : CredentialRegistry * list TunnelHandle :=
  ({| live := delete cred r.(live);
      retired := <[cred := {| r_denials := entry.(e_denials); until := endedAt + DENIAL_RETENTION_MS |}]>
        r.(retired) |}, entry.(tunnels)).

(** @src src/src/egress-proxy/registry.ts 166-171 liveEntry *)
Definition liveEntry (r : CredentialRegistry) (cred : string) (now : Z)
    : CredentialRegistry * list TunnelHandle * option Entry :=
  match r.(live) !! cred with
  | None => (r, [], None)
  | Some entry =>
      if entry.(expiresAt) <=? now then (retire r cred entry entry.(expiresAt), None)
      else (r, [], Some entry)
  end.

(** The two loops of the sweep. *)
(** @src src/src/egress-proxy/registry.ts 155-164 sweep *)
Definition sweep (r : CredentialRegistry) (now : Z) : CredentialRegistry * list TunnelHandle :=
  let expire acc (x : string * Entry) :=
    if x.2.(expiresAt) <=? now
    then let '(r', closed) := retire acc.1 x.1 x.2 x.2.(expiresAt) in (r', acc.2 ++ closed) else acc in
  let '(r', closed) := foldl expire (r, []) (map_to_list r.(live)) in
  ({| live := r'.(live); retired := filter (fun x => now < x.2.(until)) r'.(retired) |}, closed).

(** [Ok false] of the code is [None]: the registry is full. *)
(** @src src/src/egress-proxy/registry.ts 90-107 put *)
Definition put (r : CredentialRegistry) (cred : string) (reg : Registration) (now : Z)
    : CredentialRegistry * list TunnelHandle * bool :=
  let '(r, closed) := sweep r now in
  let prev := r.(live) !! cred in
  if bool_decide (prev = None) && bool_decide (MAX_CREDS <= size r.(live))%nat then (r, closed, false)
  else
    let denials := match prev with
      | Some p => p.(e_denials)
      | None => default [] (r_denials <$> r.(retired) !! cred) end in
    let tuns := default [] (tunnels <$> prev) in
    let keep t := hostInSet reg.(set_) t.(t_host) in
    ({| live := <[cred := {| e_set := reg.(set_); expiresAt := now + reg.(ttlS) * 1000;
                             e_run := reg.(reg_run); e_session := reg.(reg_session);
                             e_denials := denials;
                             tunnels := filter (fun t => keep t = true) tuns |}]> r.(live);
        retired := delete cred r.(retired) |},
     closed ++ filter (fun t => keep t = false) tuns, true).

(** @src src/src/egress-proxy/registry.ts 109-114 delete *)
Definition delete_ (r : CredentialRegistry) (cred : string) (now : Z) : CredentialRegistry * list TunnelHandle :=
  match r.(live) !! cred with
  | None => (r, [])
  | Some entry => retire r cred entry now
  end.

(** @src src/src/egress-proxy/registry.ts 116-120 lookup *)
Definition lookup_ (r : CredentialRegistry) (cred : string) (now : Z)
    : CredentialRegistry * list TunnelHandle * option (HostSet * string * string) :=
  let '(r', closed, entry) := liveEntry r cred now in
  (r', closed, (fun e => (e.(e_set), e.(e_run), e.(e_session))) <$> entry).

(** @src src/src/egress-proxy/registry.ts 122-130 denials *)
Definition denials (r : CredentialRegistry) (cred : string) (now : Z)
    : CredentialRegistry * list TunnelHandle * option (list Denial) :=
  let '(r', closed, entry) := liveEntry r cred now in
  match entry with
  | Some e => (r', closed, Some e.(e_denials))
  | None =>
      match r'.(retired) !! cred with
      | None => (r', closed, None)
      | Some x =>
          if x.(until) <=? now
          then ({| live := r'.(live); retired := delete cred r'.(retired) |}, closed, None)
          else (r', closed, Some x.(r_denials))
      end
  end.

Definition printable (c : ascii) : bool := (33 <=? code c) && (code c <=? 126).
Definition shown (host : list ascii) : list ascii :=
  (fun c => if printable c then c else "?"%char) <$> take MAX_DENIED_HOST_CHARS host.

(** An entry written back. *)
Definition set_entry (r : CredentialRegistry) (cred : string) (ds : list Denial) (ts : list TunnelHandle)
    (e : Entry) : CredentialRegistry :=
  {| live := <[cred := {| e_set := e.(e_set); expiresAt := e.(expiresAt); e_run := e.(e_run);
       e_session := e.(e_session); e_denials := ds; tunnels := ts |}]> r.(live);
     retired := r.(retired) |}.

(** @src src/src/egress-proxy/registry.ts 132-137 recordDenial *)
Definition recordDenial (r : CredentialRegistry) (cred : string) (host : list ascii) (port : Z)
    (reason : DenialReason) (now : Z) : CredentialRegistry * list TunnelHandle :=
  let '(r', closed, entry) := liveEntry r cred now in
  match entry with
  | None => (r', closed)
  | Some e =>
      if bool_decide (MAX_DENIALS_PER_CRED <= length e.(e_denials))%nat then (r', closed)
      else (set_entry r' cred
              (e.(e_denials) ++ [{| d_host := shown host; d_port := port; d_at := now; d_reason := reason |}])
              e.(tunnels) e, closed)
  end.

(** @src src/src/egress-proxy/registry.ts 139-145 attach *)
Definition attach (r : CredentialRegistry) (cred : string) (t : TunnelHandle) (now : Z)
    : CredentialRegistry * list TunnelHandle * bool :=
  let '(r', closed, entry) := liveEntry r cred now in
  match entry with
  | None => (r', closed, false)
  | Some e => (set_entry r' cred e.(e_denials)
                 (if bool_decide (t ∈ e.(tunnels)) then e.(tunnels) else e.(tunnels) ++ [t]) e, closed, true)
  end.

(** @src src/src/egress-proxy/registry.ts 147-149 detach *)
Definition detach (r : CredentialRegistry) (cred : string) (t : TunnelHandle) : CredentialRegistry :=
  match r.(live) !! cred with
  | None => r
  | Some e => set_entry r cred e.(e_denials) (filter (fun x => x <> t) e.(tunnels)) e
  end.

(** @src src/src/egress-proxy/registry.ts 151-153 tunnelCount *)
Definition tunnelCount (r : CredentialRegistry) (cred : string) : nat :=
  default 0%nat ((fun e => length e.(tunnels)) <$> r.(live) !! cred).

(** ** Runs *)

Inductive call :=
| Put (cred : string) (reg : Registration)
| Delete (cred : string)
| Lookup (cred : string)
| Denials (cred : string)
| RecordDenial (cred : string) (host : list ascii) (port : Z) (reason : DenialReason)
| Attach (cred : string) (t : TunnelHandle)
| Detach (cred : string) (t : TunnelHandle)
| Sweep.

Definition step (r : CredentialRegistry) (c : call) (now : Z) : CredentialRegistry * list TunnelHandle :=
  match c with
  | Put cred reg => (put r cred reg now).1
  | Delete cred => delete_ r cred now
  | Lookup cred => (lookup_ r cred now).1
  | Denials cred => (denials r cred now).1
  | RecordDenial cred h p w => recordDenial r cred h p w now
  | Attach cred t => (attach r cred t now).1
  | Detach cred t => (detach r cred t, [])
  | Sweep => sweep r now
  end.

Definition empty_registry : CredentialRegistry := {| live := ∅; retired := ∅ |}.

(** Tunnel [t] is open under some credential. *)
Definition attached (r : CredentialRegistry) (t : TunnelHandle) : Prop :=
  exists cred e, live r !! cred = Some e /\ t ∈ tunnels e.

(** ** What the sweep does *)

Definition sweep_body (now : Z) (acc : CredentialRegistry * list TunnelHandle) (x : string * Entry) :=
  if x.2.(expiresAt) <=? now
  then let '(r', closed) := retire acc.1 x.1 x.2 x.2.(expiresAt) in (r', acc.2 ++ closed) else acc.

Lemma sweep_fold now l r0 c0 :
  NoDup l.*1 -> (forall k e, (k, e) ∈ l -> live r0 !! k = Some e) ->
  let res := foldl (sweep_body now) (r0, c0) l in
  (forall k, live res.1 !! k =
     match live r0 !! k with
     | Some e => if decide (k ∈ l.*1 /\ expiresAt e <= now) then None else Some e
     | None => None end) /\
  (forall t, t ∈ res.2 <-> t ∈ c0 \/ exists k e, (k, e) ∈ l /\ expiresAt e <= now /\ t ∈ tunnels e).
Proof.
  revert r0 c0. induction l as [|[k0 e0] l IH]; intros r0 c0 Hnd Hl; cbn zeta.
  { cbn [foldl fst snd]. split; [|set_solver]. intros k. destruct (live r0 !! k); [|done].
    rewrite decide_False; [done|]. csimpl. set_solver. }
  csimpl in Hnd. apply NoDup_cons in Hnd as [Hk0 Hnd]. cbn [foldl].
  pose proof (Hl k0 e0 ltac:(by left)) as H0. unfold sweep_body at 2 4. cbn [fst snd].
  destruct (Z.leb_spec (expiresAt e0) now) as [Hle|Hgt]; cbn [retire].
  - destruct (IH {| live := delete k0 (live r0); retired := <[k0 := {| r_denials := e_denials e0;
        until := expiresAt e0 + DENIAL_RETENTION_MS |}]> (retired r0) |} (c0 ++ tunnels e0) Hnd) as [I1 I2].
    { intros k e Hin. simpl. rewrite lookup_delete_ne; [apply Hl; by right|]. intros ->.
      apply Hk0, list_elem_of_fmap. by exists (k, e). }
    split.
    + intros k. rewrite I1. simpl. destruct (decide (k = k0)) as [->|Hne].
      * rewrite lookup_delete_eq, H0, decide_True; [done|]. split; [by left|done].
      * rewrite lookup_delete_ne by done. destruct (live r0 !! k); [|done].
        apply decide_ext. csimpl. set_solver.
    + intros t. rewrite I2, elem_of_app. csimpl. set_solver.
  - destruct (IH r0 c0 Hnd) as [I1 I2]; [intros; apply Hl; by right|]. split.
    + intros k. rewrite I1. destruct (live r0 !! k) as [e|] eqn:Ek; [|done].
      apply decide_ext. csimpl. rewrite elem_of_cons. split; [tauto|].
      intros [[->|?] ?]; [|done]. simplify_eq. lia.
    + intros t. rewrite I2. split; [naive_solver (by right)|].
      intros [?|(k & e & [?|?]%elem_of_cons & ? & ?)]; simplify_eq; [by left|lia|right; eauto].
Qed.

Lemma sweep_live r now k :
  live (sweep r now).1 !! k =
  match live r !! k with Some e => if decide (expiresAt e <= now) then None else Some e | None => None end.
Proof.
  destruct (sweep_fold now (map_to_list (live r)) r [] (NoDup_fst_map_to_list _)) as [H1 _].
  { intros k' e. apply elem_of_map_to_list. }
  unfold sweep. fold (sweep_body now). cbv zeta in H1.
  destruct (foldl _ _ _) as [r' c] eqn:E. cbn [fst live] in *. rewrite H1.
  destruct (live r !! k) as [e|] eqn:Ek; [|done]. apply decide_ext. split; [tauto|]. split; [|done].
  apply list_elem_of_fmap. exists (k, e). split; [done|by apply elem_of_map_to_list].
Qed.

Lemma sweep_closed r now t :
  t ∈ (sweep r now).2 <-> exists k e, live r !! k = Some e /\ expiresAt e <= now /\ t ∈ tunnels e.
Proof.
  destruct (sweep_fold now (map_to_list (live r)) r [] (NoDup_fst_map_to_list _)) as [_ H2].
  { intros k' e. apply elem_of_map_to_list. }
  unfold sweep. fold (sweep_body now). cbv zeta in H2.
  destruct (foldl _ _ _) as [r' c] eqn:E. cbn [snd] in *. rewrite H2.
  setoid_rewrite elem_of_map_to_list. set_solver.
Qed.

(** ** Tunnels *)

(** A change of the live entries that loses no tunnel but the ones in [closed]. *)
Definition keeps_tunnels (r r' : CredentialRegistry) (closed : list TunnelHandle) : Prop :=
  forall t, attached r t -> attached r' t \/ t ∈ closed.

Lemma keeps_refl r cl : keeps_tunnels r r cl.
Proof. intros t. by left. Qed.

Lemma retire_keeps r cred e now :
  live r !! cred = Some e -> keeps_tunnels r (retire r cred e now).1 (retire r cred e now).2.
Proof.
  intros He t (k & e' & Hk & Ht). simpl. destruct (decide (k = cred)) as [->|Hne]; [right; naive_solver|].
  left. exists k, e'. split; [|done]. simpl. by rewrite lookup_delete_ne.
Qed.

Lemma liveEntry_keeps r cred now : keeps_tunnels r (liveEntry r cred now).1.1 (liveEntry r cred now).1.2.
Proof.
  unfold liveEntry. destruct (live r !! cred) as [e|] eqn:E; [|apply keeps_refl].
  destruct (_ <=? _); [by apply retire_keeps|apply keeps_refl].
Qed.

Lemma liveEntry_Some r cred now r' cl e :
  liveEntry r cred now = (r', cl, Some e) -> r' = r /\ cl = [] /\ live r !! cred = Some e /\ now < expiresAt e.
Proof.
  unfold liveEntry. destruct (live r !! cred) as [e'|] eqn:E; [|done].
  destruct (Z.leb_spec (expiresAt e') now); intros; simplify_eq; done.
Qed.

(** Writing an entry back with at least its tunnels. *)
Lemma set_entry_keeps r cred ds ts e :
  live r !! cred = Some e -> (forall t, t ∈ tunnels e -> t ∈ ts) ->
  keeps_tunnels r (set_entry r cred ds ts e) [].
Proof.
  intros He Hts t (k & e' & Hk & Ht). left. destruct (decide (k = cred)) as [->|Hne].
  - eexists cred, _. simpl. rewrite lookup_insert_eq. split; [done|]. simpl. naive_solver.
  - exists k, e'. simpl. by rewrite lookup_insert_ne.
Qed.

Lemma sweep_keeps r now : keeps_tunnels r (sweep r now).1 (sweep r now).2.
Proof.
  intros t (k & e & Hk & Ht). destruct (decide (expiresAt e <= now)).
  - right. apply sweep_closed. eauto.
  - left. exists k, e. rewrite sweep_live, Hk, decide_False by done. done.
Qed.

Lemma put_keeps r cred reg now : keeps_tunnels r (put r cred reg now).1.1 (put r cred reg now).1.2.
Proof.
  unfold put. pose proof (sweep_keeps r now) as Hs. destruct (sweep r now) as [r1 cl]. cbn [fst snd] in Hs.
  destruct (_ && _); [done|]. intros t Ht. cbn [fst snd].
  destruct (Hs t Ht) as [(k & e & Hk & Hin)|?]; [|right; apply elem_of_app; by left].
  destruct (decide (k = cred)) as [->|Hne].
  - rewrite Hk. simpl. destruct (hostInSet (set_ reg) (t_host t)) eqn:Ek.
    + left. eexists cred, _. simpl. rewrite lookup_insert_eq. split; [done|]. simpl.
      by apply list_elem_of_filter.
    + right. apply elem_of_app. right. by apply list_elem_of_filter.
  - left. exists k, e. simpl. by rewrite lookup_insert_ne.
Qed.

Definition detaches (c : call) (t : TunnelHandle) : Prop := exists cred, c = Detach cred t.

Lemma step_keeps r c now t :
  attached r t -> attached (step r c now).1 t \/ t ∈ (step r c now).2 \/ detaches c t.
Proof.
  intros Ht. destruct c as [cred reg|cred|cred|cred|cred h p w|cred x|cred x|]; simpl.
  - destruct (put_keeps r cred reg now t Ht); auto.
  - unfold delete_. destruct (live r !! cred) eqn:E; [|by left].
    destruct (retire_keeps r cred e now E t Ht); auto.
  - unfold lookup_. pose proof (liveEntry_keeps r cred now t Ht) as H.
    destruct (liveEntry r cred now) as [[r' cl] e]. simpl in *. tauto.
  - unfold denials. pose proof (liveEntry_keeps r cred now t Ht) as H.
    destruct (liveEntry r cred now) as [[r' cl] [e|]]; simpl in *; [tauto|].
    destruct (retired r' !! cred); [|simpl; tauto]. destruct (_ <=? _); simpl; tauto.
  - unfold recordDenial. pose proof (liveEntry_keeps r cred now t Ht) as H.
    destruct (liveEntry r cred now) as [[r' cl] [e|]] eqn:El; simpl in *; [|tauto].
    destruct (bool_decide _); simpl; [tauto|]. apply liveEntry_Some in El as (-> & -> & He & _).
    destruct (set_entry_keeps r cred (e_denials e ++ [{| d_host := shown h; d_port := p; d_at := now;
      d_reason := w |}]) (tunnels e) e He ltac:(done) t Ht); auto.
  - unfold attach. pose proof (liveEntry_keeps r cred now t Ht) as H.
    destruct (liveEntry r cred now) as [[r' cl] [e|]] eqn:El; simpl in *; [|tauto].
    apply liveEntry_Some in El as (-> & -> & He & _).
    destruct (set_entry_keeps r cred (e_denials e)
      (if bool_decide (x ∈ tunnels e) then tunnels e else tunnels e ++ [x]) e He) with t as [|]; auto.
    intros y Hy. destruct (bool_decide _); set_solver.
  - unfold detach. destruct (live r !! cred) as [e|] eqn:E; [|by left].
    destruct (decide (t = x)) as [->|Hne]; [right; right; by exists cred|]. left.
    destruct Ht as (k & e' & Hk & Hin). destruct (decide (k = cred)) as [->|Hk'].
    + eexists cred, _. simpl. rewrite lookup_insert_eq. split; [done|]. simpl.
      apply list_elem_of_filter. naive_solver.
    + exists k, e'. simpl. by rewrite lookup_insert_ne.
  - destruct (sweep_keeps r now t Ht); auto.
Qed.

(** No tunnel is lost: whatever is called on the registry and whenever, a tunnel that was open
    under some credential is afterwards still open under one, or was closed by that very call, or
    was detached by its own side; and right after a registration is accepted every tunnel under the
    credential is to a host the new set allows. *)
Theorem tunnels_accounted_for r c now t :
  (attached r t -> attached (step r c now).1 t \/ t ∈ (step r c now).2 \/ detaches c t) /\
  (forall cred reg e, (put r cred reg now).2 = true -> live (put r cred reg now).1.1 !! cred = Some e ->
     t ∈ tunnels e -> hostInSet (set_ reg) (t_host t) = true).
Proof.
  split; [apply step_keeps|]. intros cred reg e. unfold put. destruct (sweep r now) as [r1 cl].
  destruct (_ && _); [done|]. simpl. intros _. rewrite lookup_insert_eq. intros [= <-]. simpl.
  by intros [? _]%list_elem_of_filter.
Qed.

(** ** Who is live *)

(** What the callers were promised: per credential the set and the expiry of its last accepted
    registration, unless it was deleted since. *)
Definition promise (p : gmap string (HostSet * Z)) (r : CredentialRegistry) (c : call) (now : Z)
    : gmap string (HostSet * Z) :=
  match c with
  | Put cred reg => if (put r cred reg now).2 then <[cred := (set_ reg, now + ttlS reg * 1000)]> p else p
  | Delete cred => delete cred p
  | _ => p
  end.

(** The part of an entry the promise is about, while it lasts. *)
Definition lasting (now : Z) (x : HostSet * Z) : bool := now <? x.2.
Definition view (e : Entry) : HostSet * Z := (e_set e, expiresAt e).
Definition current {A} (f : A -> HostSet * Z) (now : Z) (o : option A) : option (HostSet * Z) :=
  match o with Some a => if lasting now (f a) then Some (f a) else None | None => None end.

Definition agrees (now : Z) (r : CredentialRegistry) (p : gmap string (HostSet * Z)) : Prop :=
  forall cred, current view now (live r !! cred) = current id now (p !! cred).

Lemma current_later {A B} (f : A -> HostSet * Z) (g : B -> HostSet * Z) now now' o o' :
  now <= now' -> current f now o = current g now o' -> current f now' o = current g now' o'.
Proof.
  intros Hle. unfold current, lasting. destruct o as [a|], o' as [b|]; try done.
  - destruct (Z.ltb_spec now (f a).2), (Z.ltb_spec now (g b).2); intros Heq; try done.
    + injection Heq as ->. done.
    + by destruct (Z.ltb_spec now' (f a).2), (Z.ltb_spec now' (g b).2); try lia.
  - destruct (Z.ltb_spec now (f a).2); [done|]. by destruct (Z.ltb_spec now' (f a).2); [lia|].
  - destruct (Z.ltb_spec now (g b).2); [done|]. by destruct (Z.ltb_spec now' (g b).2); [lia|].
Qed.

Lemma retire_current r cred e now cred' :
  live r !! cred = Some e -> expiresAt e <= now ->
  current view now (live (retire r cred e (expiresAt e)).1 !! cred') = current view now (live r !! cred').
Proof.
  intros He Hle. simpl. destruct (decide (cred' = cred)) as [->|]; [|by rewrite lookup_delete_ne].
  rewrite lookup_delete_eq, He. unfold current, lasting, view. simpl.
  by destruct (Z.ltb_spec now (expiresAt e)); [lia|].
Qed.

Lemma liveEntry_current r cred now cred' :
  current view now (live (liveEntry r cred now).1.1 !! cred') = current view now (live r !! cred').
Proof.
  unfold liveEntry. destruct (live r !! cred) as [e|] eqn:E; [|done].
  destruct (Z.leb_spec (expiresAt e) now); [|done]. by apply retire_current.
Qed.

Lemma set_entry_current r cred ds ts e now cred' :
  live r !! cred = Some e ->
  current view now (live (set_entry r cred ds ts e) !! cred') = current view now (live r !! cred').
Proof.
  intros He. simpl. destruct (decide (cred' = cred)) as [->|]; [|by rewrite lookup_insert_ne].
  by rewrite lookup_insert_eq, He.
Qed.

Lemma sweep_current r now cred :
  current view now (live (sweep r now).1 !! cred) = current view now (live r !! cred).
Proof.
  rewrite sweep_live. destruct (live r !! cred) as [e|]; [|done].
  case_decide; [|done]. unfold current, lasting, view. simpl.
  by destruct (Z.ltb_spec now (expiresAt e)); [lia|].
Qed.

Lemma step_agrees r c now p : agrees now r p -> agrees now (step r c now).1 (promise p r c now).
Proof.
  intros H cred'. specialize (H cred').
  destruct c as [cred reg|cred|cred|cred|cred h q w|cred x|cred x|]; simpl; rewrite <-?H.
  - unfold put. pose proof (sweep_current r now cred') as Hs.
    destruct (sweep r now) as [r1 cl]. simpl in Hs. destruct (_ && _); simpl; [by rewrite Hs|].
    destruct (decide (cred' = cred)) as [->|]; [by rewrite !lookup_insert_eq|].
    by rewrite !lookup_insert_ne, Hs.
  - unfold delete_. destruct (decide (cred' = cred)) as [->|Hne].
    + rewrite lookup_delete_eq. destruct (live r !! cred) eqn:E; [simpl; by rewrite lookup_delete_eq|simpl; by rewrite E].
    + rewrite lookup_delete_ne by done. rewrite <-H.
      destruct (live r !! cred); [simpl; by rewrite lookup_delete_ne|done].
  - unfold lookup_. rewrite <-(liveEntry_current r cred now). by destruct (liveEntry r cred now) as [[??]?].
  - unfold denials. rewrite <-(liveEntry_current r cred now).
    destruct (liveEntry r cred now) as [[r' cl] [e|]]; simpl; [done|].
    destruct (retired r' !! cred); [|done]. by destruct (_ <=? _).
  - unfold recordDenial. rewrite <-(liveEntry_current r cred now).
    destruct (liveEntry r cred now) as [[r' cl] [e|]] eqn:El; simpl; [|done].
    destruct (bool_decide _); [done|]. apply liveEntry_Some in El as (-> & _ & He & _).
    exact (set_entry_current r cred _ _ e now cred' He).
  - unfold attach. rewrite <-(liveEntry_current r cred now).
    destruct (liveEntry r cred now) as [[r' cl] [e|]] eqn:El; simpl; [|done].
    apply liveEntry_Some in El as (-> & _ & He & _).
    exact (set_entry_current r cred _ _ e now cred' He).
  - unfold detach. destruct (live r !! cred) as [e|] eqn:E; [|done].
    exact (set_entry_current r cred _ _ e now cred' E).
  - apply sweep_current.
Qed.

(** A run of timed calls on a clock that does not go back. *)
Fixpoint run (r : CredentialRegistry) (p : gmap string (HostSet * Z)) (now : Z) (cs : list (Z * call)) :=
  match cs with
  | [] => (r, p, now)
  | (t, c) :: cs' => run (step r c t).1 (promise p r c t) t cs'
  end.
Fixpoint monotone (now : Z) (cs : list (Z * call)) : Prop :=
  match cs with [] => True | (t, _) :: cs' => now <= t /\ monotone t cs' end.

Lemma run_agrees cs now r p :
  monotone now cs -> agrees now r p ->
  let '(r', p', now') := run r p now cs in agrees now' r' p' /\ now <= now'.
Proof.
  revert now r p. induction cs as [|[t c] cs IH]; intros now r p Hm H; [simpl; split; [done|lia]|].
  destruct Hm as [Ht Hm]. cbn [run].
  assert (agrees t r p) as Ht' by (intros k; by eapply current_later; [|apply H]).
  specialize (IH t _ _ Hm (step_agrees r c t p Ht')).
  destruct (run _ _ t cs) as [[r' p'] now']. split; [apply IH|destruct IH; lia].
Qed.

Definition final {A B C} (x : A * B * C) : A := x.1.1.
Definition promised {A B C} (x : A * B * C) : B := x.1.2.
Definition last_time {A B C} (x : A * B * C) : C := x.2.

(** On a clock that does not go back, after any calls (lazy expiry, sweeps, replacements and
    deletions in any order) a credential is accepted at a later moment exactly while its last
    accepted registration lasts, with exactly that registration's hosts: it is refused from the
    millisecond its lifetime ends, after a deletion, and when it was never registered. *)
Theorem lookup_honours_last_registration cs cred now :
  let x := run empty_registry ∅ 0 cs in
  monotone 0 cs -> last_time x <= now ->
  (fun e => e.1.1) <$> (lookup_ (final x) cred now).2
  = match promised x !! cred with
    | Some (set, expires) => if now <? expires then Some set else None
    | None => None
    end.
Proof.
  cbn zeta. intros Hm Hle. pose proof (run_agrees cs 0 empty_registry ∅ Hm) as H.
  ospecialize (H _); [by intros k; rewrite !lookup_empty|].
  unfold final, promised, last_time in *.
  destruct (run empty_registry ∅ 0 cs) as [[r p] t]. cbn [fst snd] in *. destruct H as [Ha _].
  pose proof (current_later view id t now _ _ Hle (Ha cred)) as Hc.
  unfold lookup_, liveEntry, current, lasting, view in *.
  destruct (live r !! cred) as [e|]; cbn [fst snd] in Hc.
  - destruct (Z.leb_spec (expiresAt e) now) as [Hx|Hx]; simpl.
    + rewrite (proj2 (Z.ltb_ge now (expiresAt e))) in Hc by lia.
      destruct (p !! cred) as [[s x]|]; [|done]. simpl in Hc. by destruct (now <? x).
    + rewrite (proj2 (Z.ltb_lt now (expiresAt e))) in Hc by lia.
      destruct (p !! cred) as [[s x]|]; [|done]. simpl in Hc. destruct (now <? x); naive_solver.
  - simpl. destruct (p !! cred) as [[s x]|]; [|done]. simpl in Hc. by destruct (now <? x).
Qed.

Definition sample_reg : Registration :=
  {| set_ := Some ["a.example"%string]; ttlS := 10; reg_run := "r"; reg_session := "s" |}.

Lemma lookup_honours_last_registration_witness :
  (fun e => e.1.1) <$> (lookup_ (final (run empty_registry ∅ 0 [(5, Put "k" sample_reg); (7, Sweep)]))
     "k" 10004).2 = Some (Some ["a.example"%string]).
Proof.
  refine (lookup_honours_last_registration [(5, Put "k" sample_reg); (7, Sweep)] "k" 10004 _ _);
    vm_compute; intuition discriminate.
Defined.

(** A credential replaced while a name is still resolving: the server checks the name against the
    old set, resolves, and attaches after the replacement, which closed only the tunnels attached by
    then. The attach succeeds, so a tunnel to a host the current set refuses stays open, although a
    replacement is to close the tunnels its set does not allow. *)
Theorem replace_during_resolution_leaves_tunnel r cred old new host id now :
  (lookup_ r cred now).2 = Some (old, reg_run new, reg_session new) ->
  hostInSet old host = true -> hostInSet (set_ new) host = false -> 0 < ttlS new ->
  (put r cred new now).2 = true ->
  let r1 := (put r cred new now).1.1 in
  let t := {| t_id := id; t_host := host |} in
  (attach r1 cred t now).2 = true /\
  exists e, live (attach r1 cred t now).1.1 !! cred = Some e /\ t ∈ tunnels e /\
    hostInSet (e_set e) (t_host t) = false.
Proof.
  intros _ _ Hnew Httl. unfold put. destruct (sweep r now) as [rs cl]. destruct (_ && _); [done|].
  intros _. cbn zeta. cbn [fst snd]. set (e0 := {| e_set := set_ new |}) in *.
  unfold attach, liveEntry. cbn [live]. rewrite lookup_insert_eq. cbn [expiresAt e0].
  destruct (Z.leb_spec (now + ttlS new * 1000) now); [lia|]. cbn [fst snd]. split; [done|].
  eexists. cbn [set_entry live]. rewrite lookup_insert_eq. split; [done|]. cbn [tunnels e_set]. split; [|done].
  destruct (bool_decide_reflect ({| t_id := id; t_host := host |} ∈ tunnels e0)); [done|].
  apply elem_of_app. right. by left.
Qed.

Definition narrow_reg : Registration :=
  {| set_ := Some ["b.example"%string]; ttlS := 10; reg_run := "r"; reg_session := "s" |}.

Lemma replace_during_resolution_leaves_tunnel_witness :
  exists e, live (attach (put (put empty_registry "k" sample_reg 5).1.1 "k" narrow_reg 6).1.1 "k"
      {| t_id := 0; t_host := "a.example" |} 6).1.1 !! "k"%string = Some e /\
    {| t_id := 0; t_host := "a.example" |} ∈ tunnels e /\ hostInSet (e_set e) "a.example" = false.
Proof.
  refine (proj2 (replace_during_resolution_leaves_tunnel (put empty_registry "k" sample_reg 5).1.1 "k"
    (Some ["a.example"%string]) narrow_reg "a.example" 0 6 _ _ _ _ _)); vm_compute; reflexivity.
Defined.
