(* ===== verification/EgressPolicy.v ===== *)
(** What the egress proxy lets through, [egress-proxy/policy.ts]: host names, the CONNECT target, the
    registration body, the address to connect to, and the TLS hellos it reads. Buffers are lists of
    bytes. Reading the [Proxy-Authorization] header is not modelled (base64). *)
From S2P Require Import Prelude Num JsString JsValue IpAddr EgressRegistry.
Local Open Scope Z_scope.

(** ** Names and targets *)

(** The LABEL pattern: 1 to 63 of a-z, 0-9 and the dash, no dash at either end. *)
Definition is_alnum (c : ascii) : bool := is_lower c || is_digit c.
Definition is_label (l : list ascii) : bool :=
  bool_decide (1 <= length l <= 63)%nat && forallb (fun c => is_alnum c || bool_decide (c = "-"%char)) l &&
  match head l with Some c => is_alnum c | None => false end &&
  match last l with Some c => is_alnum c | None => false end.

(** Digits only, or 0x and hex digits. *)
Definition is_numeric_label (l : list ascii) : bool :=
  (negb (bool_decide (l = [])) && forallb is_digit l) ||
  match l with
  | a :: b :: l' => bool_decide (a = "0"%char) && bool_decide (b = "x"%char) && forallb is_hex l'
  | _ => false
  end.

Definition hostname_re (l : list ascii) : bool :=
  bool_decide (1 <= length l <= 253)%nat && forallb is_label (split_chars dot l).

(** @src src/src/egress-proxy/policy.ts 41-55 isExactHostname *)
Definition isExactHostname (l : list ascii) : bool :=
  hostname_re l && negb (is_numeric_label (after_last dot l)).

(** @src src/src/egress-proxy/policy.ts 57-59 isCredential *)
Definition isCredential (cred : list ascii) : bool :=
  bool_decide (length cred = 43%nat) && forallb (fun c => is_word c || bool_decide (c = "-"%char)) cred.

(** [isIPv4] of [node:net]: four decimal numbers to 255 without leading zeros. *)
Definition ipv4_part (p : list ascii) : option Z :=
  match p with
  | [] => None
  | c :: rest =>
      if bool_decide (c = "0"%char) && negb (bool_decide (rest = [])) then None
      else match octet p with Some n => if n <=? 255 then Some n else None | None => None end
  end.
Definition isIPv4 (l : list ascii) : bool :=
  let ps := split_chars dot l in
  bool_decide (length ps = 4%nat) && forallb (fun p => bool_decide (is_Some (ipv4_part p))) ps.

(** @src src/src/egress-proxy/policy.ts 93-96 Target *)
Record Target := { host : list ascii; port : Z }.

Inductive target_error := missing_port | bad_port_text | bad_host.

(** @src src/src/egress-proxy/policy.ts 98-112 parseAuthority *)
Definition parseAuthority (authority : list ascii) : result target_error Target :=
  if negb (has colon authority) then Err missing_port
  else
    let p := after_last colon authority in
    if negb (bool_decide (1 <= length p <= 5)%nat && forallb is_digit p) then Err bad_port_text
    else
      let h := lower_char <$> take (length authority - S (length p)) authority in
      if negb (isIPv4 h) && negb (isExactHostname h) then Err bad_host
      else Ok {| host := h; port := digits_val p |}.

(** ** The registration body *)

Definition MAX_SET_SIZE : nat := 256.
Definition MAX_LABEL_BYTES : nat := 128.

(** [Buffer.byteLength] in UTF-8. *)
Definition byteLength (s : string) : nat :=
  sum_list_with (fun c => if (code c <? 128)%Z then 1%nat else 2%nat) (chars s).

Definition obj_get (o : list (string * jval)) (k : string) : jval := default JUndef (jm_get o k).

(** @src src/src/egress-proxy/policy.ts 61-63 isLabel *)
Definition isLabel (v : jval) : option string :=
  match v with
  | JStr s => if bool_decide (s <> ""%string) && bool_decide (byteLength s <= MAX_LABEL_BYTES)%nat
              then Some s else None
  | _ => None
  end.

Inductive registration_error :=
| not_an_object | unknown_field (k : string) | set_too_large | set_not_hosts | set_not_array | bad_ttl
| bad_labels.

Definition exact_host (v : jval) : option string :=
  match v with JStr s => if isExactHostname (chars s) then Some s else None | _ => None end.

(** [Number.isInteger(ttl)] with [0 < ttl <= MAX_TTL_S]. *)
Definition ttl_of (v : jval) : option Z :=
  match v with
  | JNum (Fin q) =>
      let n := Qfloor q in
      if Qeq_bool (inject_Z n) q && (0 <? n) && (n <=? MAX_TTL_S) then Some n else None
  | _ => None
  end.

(** @src src/src/egress-proxy/policy.ts 65-91 parseRegistration *)
Definition parseRegistration (body : jval) : result registration_error Registration :=
  match body with
  | JObj b =>
      match head (filter (fun k => ~ k ∈ ["set"; "ttl_s"; "run"; "session"]%string) (jm_keys b)) with
      | Some key => Err (unknown_field key)
      | None =>
          let set := match obj_get b "set" with
            | JStr s => if bool_decide (s = "*"%string) then Ok None else Err set_not_array
            | JArr hosts =>
                if bool_decide (MAX_SET_SIZE < length hosts)%nat then Err set_too_large
                else match mapM exact_host hosts with
                     | Some hs => Ok (Some (js_set_of hs))
                     | None => Err set_not_hosts
                     end
            | _ => Err set_not_array
            end in
          match set with
          | Err e => Err e
          | Ok s =>
              match ttl_of (obj_get b "ttl_s") with
              | None => Err bad_ttl
              | Some ttl =>
                  match isLabel (obj_get b "run"), isLabel (obj_get b "session") with
                  | Some r, Some ss => Ok {| set_ := s; ttlS := ttl; reg_run := r; reg_session := ss |}
                  | _, _ => Err bad_labels
                  end
              end
          end
      end
  | _ => Err not_an_object
  end.

(** ** Addresses *)

(** @src src/src/egress-proxy/policy.ts 125-140 parseDenyIps *)
Inductive deny_error := not_ipv4 (s : list ascii) | nothing_denied.
Fixpoint deny_parts (parts : list (list ascii)) (out : list (list ascii)) : result deny_error (list (list ascii)) :=
  match parts with
  | [] => Ok out
  | p :: rest =>
      let ip := trim_chars p in
      if bool_decide (ip = []) then deny_parts rest out
      else if negb (isIPv4 ip) then Err (not_ipv4 ip)
      else deny_parts rest (if bool_decide (ip ∈ out) then out else out ++ [ip])
  end.
Definition parseDenyIps (raw : option (list ascii)) : result deny_error (list (list ascii)) :=
  match deny_parts (split_chars "," (default [] raw)) [] with
  | Err e => Err e
  | Ok [] => Err nothing_denied
  | Ok out => Ok out
  end.

(** @src src/src/egress-proxy/policy.ts 142-147 isReservedV4 *)
Definition isReservedV4 (ip : list ascii) : bool :=
  let ns := digits_val <$> split_chars dot ip in
  let a := nth0 ns 0 in let b := nth0 ns 1 in let c := nth0 ns 2 in
  ((a =? 192) && (b =? 0) && (c =? 2)) || ((a =? 198) && (b =? 51) && (c =? 100)) ||
  ((a =? 203) && (b =? 0) && (c =? 113)) || ((a =? 192) && (b =? 88) && (c =? 99)).

Inductive address_error := no_address | not_ipv4_address | private_address | denied_address.

(** @src src/src/egress-proxy/policy.ts 149-161 pickAddress *)
Definition pickAddress (addresses deny : list (list ascii)) : result address_error (list ascii) :=
  let check ip :=
    if negb (isIPv4 ip) then Err not_ipv4_address
    else if isPrivateChars (lower_char <$> ip) || isReservedV4 ip then Err private_address
    else if bool_decide (ip ∈ deny) then Err denied_address
    else Ok tt in
  match addresses with
  | [] => Err no_address
  | first :: _ => match for_each check addresses with Err e => Err e | Ok _ => Ok first end
  end.

(** ** TLS hellos *)

Definition MAX_HELLO_BYTES : Z := 64 * 1024.

Definition zlen {A} (l : list A) : Z := Z.of_nat (length l).
(** [readUInt8], [readUInt16BE] and [readUIntBE(p, 3)]: [None] past the end, where they throw. *)
Definition at_ (b : list Z) (i : Z) : option Z := if i <? 0 then None else b !! Z.to_nat i.
Definition u8 (b : list Z) (p : Z) : option Z := at_ b p.
Definition u16 (b : list Z) (p : Z) : option Z := x ← at_ b p; y ← at_ b (p + 1); Some (x * 256 + y).
Definition u24 (b : list Z) (p : Z) : option Z :=
  x ← at_ b p; y ← at_ b (p + 1); z ← at_ b (p + 2); Some ((x * 256 + y) * 256 + z).
(** [b.subarray(from, to)]. *)
Definition sub (b : list Z) (from to : Z) : list Z := take (Z.to_nat (to - from)) (drop (Z.to_nat from) b).

Inductive hello_error :=
| bad_record_length | hello_too_large | bad_change_cipher_spec | not_a_handshake | not_a_client_hello
| more_than_one_message | truncated_hello | truncated_extensions | truncated_extension
| encrypted_client_hello | bad_server_name_list | bad_server_name_entry | two_host_names.

(** @src src/src/egress-proxy/policy.ts 163-173 HelloResult *)
Inductive HelloResult :=
| more
| hello (sni : option (list Z)) (bytes : Z)
| bad (e : hello_error).

Definition ENCRYPTED_HELLO_EXTENSIONS : list Z := [65037; 65486].

(** [toLowerCase] of the latin1 text: its letters are A-Z and the accented capitals. *)
Definition lower_byte (b : Z) : Z :=
  if ((65 <=? b) && (b <=? 90)) || ((192 <=? b) && (b <=? 222) && negb (b =? 215)) then b + 32 else b.

(** The result of a scan over the extensions: [None] when a read ran past the end (the [catch]). *)
Definition scan : Type := option (result hello_error (option (list Z))).

(** The names of one server_name extension. *)
Fixpoint server_names (fuel : nat) (h : list Z) (q listEnd : Z) (sni : option (list Z)) : scan :=
  if q <? listEnd then
    match fuel with
    | O => None
    | S fuel =>
        nameType ← u8 h q; nameLen ← u16 h (q + 1);
        if listEnd <? q + 3 + nameLen then Some (Err bad_server_name_entry)
        else
          let next := q + 3 + nameLen in
          if nameType =? 0 then
            match sni with
            | Some _ => Some (Err two_host_names)
            | None => server_names fuel h next listEnd (Some (lower_byte <$> sub h (q + 3) (q + 3 + nameLen)))
            end
          else server_names fuel h next listEnd sni
    end
  else Some (Ok sni).

(** The extensions from [p] to [extEnd]. *)
Fixpoint extensions (fuel : nat) (h : list Z) (p extEnd : Z) (sni : option (list Z)) : scan :=
  if p <? extEnd then
    match fuel with
    | O => None
    | S fuel =>
        type ← u16 h p; len ← u16 h (p + 2);
        let end' := p + 4 + len in
        if extEnd <? end' then Some (Err truncated_extension)
        else if bool_decide (type ∈ ENCRYPTED_HELLO_EXTENSIONS) then Some (Err encrypted_client_hello)
        else if type =? 0 then
          n ← u16 h (p + 4);
          let q := p + 4 + 2 in let listEnd := q + n in
          if end' <? listEnd then Some (Err bad_server_name_list)
          else
            r ← server_names (length h) h q listEnd sni;
            match r with
            | Err e => Some (Err e)
            | Ok sni' => extensions fuel h end' extEnd sni'
            end
        else extensions fuel h end' extEnd sni
    end
  else Some (Ok sni).

(** The message body after the reassembly: the [try] block. *)
Definition helloBody (h : list Z) : result hello_error (option (list Z)) :=
  default (Err truncated_hello) (
    let p := 2 + 32 in
    a ← u8 h p; let p := p + 1 + a in
    b ← u16 h p; let p := p + 2 + b in
    c ← u8 h p; let p := p + 1 + c in
    if zlen h <? p then Some (Err truncated_hello)
    else if p =? zlen h then Some (Ok None)
    else
      n ← u16 h p;
      let extEnd := p + 2 + n in
      if zlen h <? extEnd then Some (Err truncated_extensions)
      else extensions (length h) h (p + 2) extEnd None).

(** The records a client may send between its two hellos: one change_cipher_spec and early data.
    [inl] is where the second hello starts. *)
Fixpoint skip_early (fuel : nat) (buf : list Z) (off ccs : Z) : Z + HelloResult :=
  match at_ buf off with
  | Some t =>
      if (t =? 20) || (t =? 23) then
        match fuel with
        | O => inr more
        | S fuel =>
            if zlen buf <? off + 5 then inr more
            else match u16 buf (off + 3) with
            | None => inr more
            | Some len =>
                if (len =? 0) || (16384 + 256 <? len) then inr (bad bad_record_length)
                else if MAX_HELLO_BYTES <? off + 5 + len then inr (bad hello_too_large)
                else if zlen buf <? off + 5 + len then inr more
                else
                  let ccs' := if (t =? 20) && (len =? 1) && bool_decide (at_ buf (off + 5) = Some 1)
                    then ccs + 1 else ccs in
                  if (t =? 20) && (negb ((len =? 1) && bool_decide (at_ buf (off + 5) = Some 1)) || (1 <? ccs'))
                  then inr (bad bad_change_cipher_spec)
                  else skip_early fuel buf (off + 5 + len) ccs'
            end
        end
      else inl off
  | None => inl off
  end.

(** The loop that puts the handshake message together; [hs] are the bytes collected, [need] what the
    message takes once its head is known. *)
Fixpoint collect (fuel : nat) (buf : list Z) (off : Z) (hs : list Z) (need : option Z) : HelloResult :=
  if match need with None => true | Some n => zlen hs <? n end then
    match fuel with
    | O => more
    | S fuel =>
        if zlen buf <? off + 5 then
          if MAX_HELLO_BYTES <=? zlen buf then bad hello_too_large else more
        else if negb (bool_decide (at_ buf off = Some 22)) then bad not_a_handshake
        else match u16 buf (off + 3) with
        | None => more
        | Some len =>
            if (len =? 0) || (16384 + 2048 <? len) then bad bad_record_length
            else if zlen buf <? off + 5 + len then
              if MAX_HELLO_BYTES <? off + 5 + len then bad hello_too_large else more
            else
              let hs' := hs ++ sub buf (off + 5) (off + 5 + len) in
              let off' := off + 5 + len in
              match need with
              | Some n => collect fuel buf off' hs' (Some n)
              | None =>
                  if 4 <=? zlen hs' then
                    if negb (bool_decide (at_ hs' 0 = Some 1)) then bad not_a_client_hello
                    else match u24 hs' 1 with
                    | None => more
                    | Some n =>
                        if MAX_HELLO_BYTES <? 4 + n then bad hello_too_large
                        else collect fuel buf off' hs' (Some (4 + n))
                    end
                  else collect fuel buf off' hs' None
              end
        end
    end
  else
    match need with
    | None => more
    | Some n =>
        if n <? zlen hs then bad more_than_one_message
        else match helloBody (sub hs 4 n) with
             | Err e => bad e
             | Ok sni => hello sni off
             end
    end.

(** Every record takes at least six bytes, so the buffer's length is enough fuel. *)
(** @src src/src/egress-proxy/policy.ts 175-262 parseClientHello *)
Definition parseClientHello (buf : list Z) (afterRetry : bool) : HelloResult :=
  match (if afterRetry then skip_early (length buf) buf 0 0 else inl 0) with
  | inr r => r
  | inl off => collect (S (length buf)) buf off [] None
  end.

(** @src src/src/egress-proxy/policy.ts 264-265 HELLO_RETRY_RANDOM *)
Definition HELLO_RETRY_RANDOM : list Z :=
  [207; 33; 173; 116; 229; 154; 97; 17; 190; 29; 140; 2; 30; 101; 184; 145;
   194; 162; 17; 22; 122; 187; 140; 94; 7; 158; 9; 226; 200; 168; 51; 156].

Inductive answer := yes | no | wait_more.

Fixpoint retry_collect (fuel : nat) (buf : list Z) (off : Z) (hs : list Z) : answer :=
  if zlen hs <? 38 then
    match fuel with
    | O => wait_more
    | S fuel =>
        if zlen buf <? off + 5 then wait_more
        else if negb (bool_decide (at_ buf off = Some 22)) then no
        else match u16 buf (off + 3) with
        | None => wait_more
        | Some len =>
            if len =? 0 then no
            else if zlen buf <? off + 5 + len then wait_more
            else retry_collect fuel buf (off + 5 + len) (hs ++ sub buf (off + 5) (off + 5 + len))
        end
    end
  else if negb (bool_decide (at_ hs 0 = Some 2)) then no
  else if bool_decide (sub hs 6 38 = HELLO_RETRY_RANDOM) then yes else no.

(** @src src/src/egress-proxy/policy.ts 267-292 isHelloRetryRequest *)
Definition isHelloRetryRequest (buf : list Z) : answer := retry_collect (S (length buf)) buf 0 [].

(** ** Addresses: what may be connected to *)

Definition may_connect (deny : list (list ascii)) (ip : list ascii) : Prop :=
  isIPv4 ip = true /\ isPrivateChars (lower_char <$> ip) = false /\ isReservedV4 ip = false /\ ip ∉ deny.

(** The proxy connects to the first resolved address, and only when every resolved address is an
    IPv4 address that is public, in no documentation or relay range, and not on the deny list: one
    inward address among many refuses the name as a whole. *)
Theorem pickAddress_iff addresses deny ip :
  pickAddress addresses deny = Ok ip <-> head addresses = Some ip /\ Forall (may_connect deny) addresses.
Proof.
  unfold pickAddress. set (check := fun ip : list ascii => _).
  assert (forall a, check a = Ok tt <-> may_connect deny a) as Hc.
  { intros a. unfold check, may_connect. destruct (isIPv4 a); simpl; [|naive_solver].
    destruct (isPrivateChars _), (isReservedV4 a); simpl; try naive_solver.
    destruct (bool_decide_reflect (a ∈ deny)); naive_solver. }
  destruct addresses as [|a l]; [naive_solver|]. rewrite Forall_forall. setoid_rewrite <-Hc.
  rewrite <-for_each_Ok. destruct (for_each check (a :: l)) as [[]|e]; simpl; naive_solver.
Qed.

Lemma pickAddress_iff_witness :
  pickAddress [chars "93.184.216.34"; chars "1.1.1.1"] [chars "9.9.9.9"] = Ok (chars "93.184.216.34").
Proof.
  apply pickAddress_iff. split; [reflexivity|].
  repeat constructor; try reflexivity; apply (bool_decide_unpack _); vm_compute; exact I.
Defined.

(** ** Names are not addresses *)

Lemma take_while_incl {A} (f : A -> bool) l x : x ∈ take_while f l -> x ∈ l.
Proof.
  induction l as [|y l IH]; simpl; [done|]. destruct (f y); [|by intros ?%elem_of_nil].
  intros [->|?]%elem_of_cons; [by left|right; auto].
Qed.

Lemma after_last_split c l : last (split_chars c l) = Some (after_last c l).
Proof.
  destruct (decide (c ∈ l)) as [Hin|Hn].
  - assert (exists p q, l = p ++ c :: q /\ c ∉ q) as (p & q & -> & Hq).
    { clear -Hin. induction l as [|x l IH]; [by apply elem_of_nil in Hin|].
      destruct (decide (c ∈ l)) as [Hl|Hl].
      - destruct (IH Hl) as (p & q & -> & Hq). by exists (x :: p), q.
      - apply elem_of_cons in Hin as [<-|?]; [|done]. by exists [], l. }
    rewrite (proj1 (last_piece c p q Hq)).
    assert (forall p, last (split_chars c (p ++ c :: q)) = Some q) as H; [|apply H].
    intros p'. induction p' as [|x p' IH]; cbn [app].
    + rewrite split_chars_sep, split_chars_none by done. done.
    + simpl. pose proof (split_chars_ne c (p' ++ c :: q)) as Hne.
      destruct (decide (x = c)); destruct (split_chars c (p' ++ c :: q)) as [|w [|w' ws]] eqn:E; try done.
      exfalso. clear -E Hq. assert (1 < length (split_chars c (p' ++ c :: q)))%nat as Hl; [|rewrite E in Hl; simpl in Hl; lia].
      clear E. induction p' as [|y p' IH]; cbn [app].
      * rewrite split_chars_sep, split_chars_none by done. simpl. lia.
      * simpl. destruct (decide (y = c)); [simpl; lia|]. destruct (split_chars c (p' ++ c :: q)); simpl in *; lia.
  - rewrite split_chars_none by done. unfold after_last.
    rewrite take_while_id, reverse_involutive; [done|]. rewrite forallb_reverse. by apply forallb_ne.
Qed.

Lemma octet_numeric p n : octet p = Some n -> is_numeric_label p = true.
Proof.
  unfold octet, is_numeric_label. destruct (bool_decide_reflect (1 <= length p <= 3)%nat) as [Hl|]; [|done].
  simpl. destruct (forallb is_digit p); [|done]. intros _.
  rewrite bool_decide_eq_false_2; [done|]. intros ->. simpl in Hl. lia.
Qed.

Lemma last_of_Forall {A} (P : A -> Prop) l x : Forall P l -> last l = Some x -> P x.
Proof. intros H Hx. rewrite Forall_forall in H. apply H. by apply last_Some_elem_of. Qed.

Lemma v4_last_numeric l ns : v4Octets l = Some ns -> is_numeric_label (after_last dot l) = true.
Proof.
  unfold v4Octets. destruct (bool_decide _); [|done].
  destruct (mapM octet (split_chars dot l)) as [nums|] eqn:E; [|done]. intros _.
  apply mapM_Some in E. pose proof (after_last_split dot l) as Hl.
  apply last_Some_elem_of, list_elem_of_lookup in Hl as [i Hi].
  destruct (Forall2_lookup_l _ _ _ _ _ E Hi) as (n & _ & Hn). by eapply octet_numeric.
Qed.

Lemma ipv4_last_numeric l : isIPv4 l = true -> is_numeric_label (after_last dot l) = true.
Proof.
  unfold isIPv4. rewrite andb_true_iff, forallb_forall. intros [_ H].
  pose proof (after_last_split dot l) as Hl. apply last_Some_elem_of, list_elem_of_In, H in Hl.
  apply bool_decide_eq_true in Hl as [n Hn]. unfold ipv4_part in Hn.
  destruct (after_last dot l) as [|c rest]; [done|]. destruct (_ && _); [done|].
  destruct (octet (c :: rest)) eqn:E; [|done]. by eapply octet_numeric.
Qed.

Lemma label_char_lower c :
  is_alnum c || bool_decide (c = "-"%char) = true \/ c = dot -> lower_char c = c /\ is_upper c = false.
Proof.
  unfold lower_char. destruct (is_upper c) eqn:E; [|done]. intros H. exfalso.
  unfold is_alnum, is_lower, is_digit, is_upper in *. destruct H as [H| ->]; [|done].
  apply orb_true_iff in H as [H|H%bool_decide_eq_true]; [|by subst].
  rewrite !orb_true_iff, !andb_true_iff, !Z.leb_le in *. lia.
Qed.

Lemma hostname_lower l : hostname_re l = true -> lower_char <$> l = l.
Proof.
  unfold hostname_re. rewrite andb_true_iff, forallb_forall. intros [_ H].
  assert (forall c, c ∈ l -> lower_char c = c) as Hc.
  { intros c Hin. apply label_char_lower. destruct (decide (c = dot)) as [|Hne]; [by right|left].
    destruct (split_chars_in dot l c Hin Hne) as (w & Hw & Hcw). apply list_elem_of_In, H in Hw.
    unfold is_label in Hw. rewrite !andb_true_iff, forallb_forall in Hw.
    apply Hw. by apply list_elem_of_In. }
  clear H. induction l as [|c l IH]; [done|]. csimpl. rewrite Hc by by left.
  f_equal. apply IH. intros. apply Hc. by right.
Qed.

Lemma hostname_no_colon l : hostname_re l = true -> colon ∉ l.
Proof.
  unfold hostname_re. rewrite andb_true_iff, forallb_forall. intros [_ H] Hin.
  destruct (split_chars_in dot l colon Hin) as (w & Hw & Hcw); [done|]. apply list_elem_of_In, H in Hw.
  unfold is_label in Hw. rewrite !andb_true_iff, forallb_forall in Hw. destruct Hw as [[[_ Hw] _] _].
  apply list_elem_of_In, Hw in Hcw. done.
Qed.

(** A host name the proxy accepts is never something a resolver would read as an IPv4 address, in
    dotted form with or without leading zeros; and a CONNECT line with an accepted name and a port
    of one to five digits reads back as that name and that port, whatever case it was sent in. *)
Theorem names_are_not_addresses h p raw :
  isExactHostname h = true ->
  v4Octets h = None /\ isIPv4 h = false /\
  ((1 <= length p <= 5)%nat -> forallb is_digit p = true -> lower_char <$> raw = h -> colon ∉ raw ->
     parseAuthority (raw ++ [colon] ++ p) = Ok {| host := h; port := digits_val p |}).
Proof.
  intros H. pose proof H as Hx. unfold isExactHostname in H. apply andb_true_iff in H as [Hre Hnum].
  apply negb_true_iff in Hnum. split_and!.
  - destruct (v4Octets h) eqn:E; [|done]. apply v4_last_numeric in E. congruence.
  - apply not_true_is_false. intros E%ipv4_last_numeric. congruence.
  - intros Hl Hd Hraw Hc. unfold parseAuthority. cbn [app].
    assert (colon ∉ p) as Hp by (by eapply forallb_not_in).
    rewrite has_true by set_solver. rewrite (proj1 (last_piece colon raw p Hp)). simpl negb.
    rewrite bool_decide_eq_true_2, Hd by done. simpl negb. cbn iota.
    rewrite length_app. simpl length.
    replace (length raw + S (length p) - S (length p))%nat with (length raw) by lia.
    rewrite take_app_length, Hraw, Hx, andb_false_r. done.
Qed.

Lemma names_are_not_addresses_witness :
  parseAuthority (chars "Example.COM:443") = Ok {| host := chars "example.com"; port := 443 |}.
Proof.
  refine (proj2 (proj2 (names_are_not_addresses (chars "example.com") (chars "443") (chars "Example.COM") _)) _ _ _ _);
    [reflexivity|simpl; lia|reflexivity|reflexivity|apply (bool_decide_unpack _); vm_compute; exact I].
Defined.

(** ** TLS hellos: decided once, whatever follows and however it is split *)

Lemma zlen_app {A} (a b : list A) : zlen (a ++ b) = zlen a + zlen b.
Proof. unfold zlen. rewrite length_app. lia. Qed.
Lemma zlen_nonneg {A} (a : list A) : 0 <= zlen a.
Proof. unfold zlen. lia. Qed.

Lemma at_app_l b m i : i < zlen b -> at_ (b ++ m) i = at_ b i.
Proof.
  unfold at_, zlen. intros. destruct (Z.ltb_spec i 0); [done|]. by rewrite lookup_app_l by lia.
Qed.
Lemma at_app_r a b i : 0 <= i -> at_ (a ++ b) (zlen a + i) = at_ b i.
Proof.
  unfold at_, zlen. intros. rewrite (proj2 (Z.ltb_ge _ 0)), (proj2 (Z.ltb_ge _ 0)) by lia.
  rewrite lookup_app_r by lia. f_equal. lia.
Qed.
Lemma u16_app_l b m p : p + 1 < zlen b -> u16 (b ++ m) p = u16 b p.
Proof. intros. unfold u16. by rewrite !at_app_l by lia. Qed.
Lemma u16_app_r a b p : 0 <= p -> u16 (a ++ b) (zlen a + p) = u16 b p.
Proof.
  intros. unfold u16. rewrite at_app_r by done. rewrite <-Z.add_assoc, at_app_r by lia. done.
Qed.
Lemma sub_app_l b m i j : 0 <= i -> j <= zlen b -> sub (b ++ m) i j = sub b i j.
Proof.
  unfold sub, zlen. intros. destruct (decide (i <= j)).
  - rewrite drop_app_le by lia. rewrite take_app_le; [done|]. rewrite length_drop. lia.
  - replace (Z.to_nat (j - i)) with 0%nat by lia. by rewrite !take_0.
Qed.

(** A buffer holds bytes. *)
Definition bytes (b : list Z) : Prop := Forall byte b.

Lemma at_byte b i x : bytes b -> at_ b i = Some x -> byte x.
Proof. unfold at_. destruct (_ <? _); [done|]. intros. by eapply Forall_lookup_1. Qed.
Lemma u16_nonneg b p n : bytes b -> u16 b p = Some n -> 0 <= n.
Proof.
  intros Hb. unfold u16. destruct (at_ b p) as [x|] eqn:Ex; [|done].
  destruct (at_ b (p + 1)) as [y|] eqn:Ey; [|done]. simpl. intros [= <-].
  apply at_byte in Ex, Ey; [|done..]. unfold byte in *. lia.
Qed.
Lemma fits {A} (b m : list A) x : x <= zlen b -> (zlen (b ++ m) <? x) = false.
Proof. intros. apply Z.ltb_ge. rewrite zlen_app. pose proof (zlen_nonneg m). lia. Qed.

(** The loop's end does not depend on the fuel or the buffer. *)
Lemma collect_done fuel fuel' buf buf' off hs need :
  match need with None => true | Some k => zlen hs <? k end = false ->
  collect fuel buf off hs need = collect fuel' buf' off hs need.
Proof. intros H. destruct fuel, fuel'; cbn [collect]; by rewrite H. Qed.

Lemma collect_done_hello fuel buf off hs need sni n :
  match need with None => true | Some k => zlen hs <? k end = false ->
  collect fuel buf off hs need = hello sni n -> n = off.
Proof.
  intros H. destruct fuel; cbn [collect]; rewrite H; cbn iota; destruct need; try done;
    destruct (_ <? zlen hs); try done; destruct (helloBody _); intros; by simplify_eq.
Qed.

(** A hello once read stays the same hello when more bytes arrive and with more fuel. *)
Lemma collect_stable fuel fuel' buf m off hs need sni n :
  bytes buf -> 0 <= off -> (fuel <= fuel')%nat ->
  collect fuel buf off hs need = hello sni n ->
  collect fuel' (buf ++ m) off hs need = hello sni n /\ n <= Z.max off (zlen buf).
Proof.
  intros Hb. revert fuel' off hs need. induction fuel as [|fuel IH]; intros fuel' off hs need Hoff Hf H;
    (destruct (match need with None => true | Some k => zlen hs <? k end) eqn:Ec;
      [|split; [by erewrite (collect_done _ _ _ buf) by done|
        apply collect_done_hello in H; [lia|done]]]);
    [cbn [collect] in H; by rewrite Ec in H|].
  destruct fuel' as [|fuel']; [lia|]. cbn [collect] in H |- *. rewrite Ec in *.
  destruct (Z.ltb_spec (zlen buf) (off + 5)); [by destruct (_ <=? _)|].
  rewrite fits by lia. rewrite at_app_l by lia. destruct (negb _); [done|].
  rewrite u16_app_l by lia. destruct (u16 buf (off + 3)) as [len|] eqn:Eu; [|done].
  apply u16_nonneg in Eu; [|done]. destruct (_ || _); [done|].
  destruct (Z.ltb_spec (zlen buf) (off + 5 + len)); [by destruct (_ <? _)|].
  rewrite fits by lia. rewrite sub_app_l by lia.
  assert (forall hs' need', collect fuel buf (off + 5 + len) hs' need' = hello sni n ->
    collect fuel' (buf ++ m) (off + 5 + len) hs' need' = hello sni n /\ n <= Z.max off (zlen buf)) as Hrec.
  { intros hs' need' Hx. destruct (IH fuel' (off + 5 + len) hs' need' ltac:(lia) ltac:(lia) Hx). split; [done|lia]. }
  destruct need; [by apply Hrec|]. destruct (_ <=? _); [|by apply Hrec].
  destruct (negb _); [done|]. destruct (u24 _ 1); [|done]. destruct (_ <? _); [done|by apply Hrec].
Qed.

Lemma skip_early_stable fuel fuel' buf m off ccs off' :
  bytes buf -> 0 <= off -> (fuel <= fuel')%nat ->
  skip_early fuel buf off ccs = inl off' -> off' < zlen buf ->
  skip_early fuel' (buf ++ m) off ccs = inl off' /\ 0 <= off'.
Proof.
  intros Hb. revert fuel' off ccs. induction fuel as [|fuel IH]; intros fuel' off ccs Hoff Hf H Hlt.
  - assert (at_ (buf ++ m) off = at_ buf off /\ off' = off) as [Ha ->].
    { cbn [skip_early] in H. destruct (at_ buf off) as [t|] eqn:Et.
      - destruct ((t =? 20) || (t =? 23)); [done|]. simplify_eq. by rewrite at_app_l, Et.
      - simplify_eq. by rewrite at_app_l, Et. }
    split; [|done]. destruct fuel'; cbn [skip_early] in *; rewrite Ha;
      (destruct (at_ buf off) as [t|]; [destruct ((t =? 20) || (t =? 23)); done|done]).
  - destruct fuel' as [|fuel']; [lia|]. cbn [skip_early] in *.
    destruct (at_ buf off) as [t|] eqn:Et.
    2: { simplify_eq. by rewrite at_app_l, Et. }
    assert (off < zlen buf) as Hoff'.
    { unfold at_, zlen in *. destruct (Z.ltb_spec off 0); [done|]. apply lookup_lt_Some in Et. lia. }
    rewrite at_app_l, Et by done. destruct ((t =? 20) || (t =? 23)); [|by simplify_eq].
    destruct (Z.ltb_spec (zlen buf) (off + 5)); [done|]. rewrite fits by lia.
    rewrite u16_app_l by lia. destruct (u16 buf (off + 3)) as [len|] eqn:Eu; [|done].
    apply u16_nonneg in Eu; [|done].
    destruct (_ || (16384 + 256 <? len)) eqn:El; [done|]. apply orb_false_iff in El as [El _].
    apply Z.eqb_neq in El.
    destruct (MAX_HELLO_BYTES <? _); [done|].
    destruct (Z.ltb_spec (zlen buf) (off + 5 + len)); [done|]. rewrite fits by lia.
    rewrite at_app_l by lia. destruct (_ && (_ || _)); [done|].
    apply IH; [lia|lia|done|done].
Qed.

(** Once the proxy has read a hello, the verdict is final: with any further bytes behind it the
    same bytes give the same server name and the same end, which lies within what was read; a
    client cannot change what was checked by what it sends next. *)
Theorem hello_verdict_is_final buf m retry sni n :
  bytes buf -> parseClientHello buf retry = hello sni n ->
  parseClientHello (buf ++ m) retry = hello sni n /\ n <= zlen buf.
Proof.
  intros Hb. unfold parseClientHello.
  assert (forall off, 0 <= off -> collect (S (length buf)) buf off [] None = hello sni n -> off < zlen buf /\
    collect (S (length (buf ++ m))) (buf ++ m) off [] None = hello sni n /\ n <= zlen buf) as Hc.
  { intros off Hoff H. assert (off < zlen buf) as Hlt.
    { cbn [collect] in H. destruct (Z.ltb_spec (zlen buf) (off + 5)); [by destruct (_ <=? _)|lia]. }
    split; [done|]. destruct (collect_stable (S (length buf)) (S (length (buf ++ m))) buf m off [] None sni n Hb Hoff
      ltac:(rewrite length_app; lia) H). split; [done|lia]. }
  destruct retry; [|intros H; apply (Hc 0); [lia|done]].
  destruct (skip_early (length buf) buf 0 0) as [off|r] eqn:Es.
  - intros H. assert (0 <= off) as Hoff.
    { clear -Es Hb. revert Es. generalize (length buf) as f. intros f.
      assert (forall f o c, 0 <= o -> skip_early f buf o c = inl off -> 0 <= off) as G.
      { clear f. induction f as [|f IH]; intros o c Ho; cbn [skip_early];
          (destruct (at_ buf o) as [t|]; [|by intros; simplify_eq]);
          (destruct (_ || _); [|by intros; simplify_eq]); [done|].
        destruct (_ <? _); [done|]. destruct (u16 buf (o + 3)) as [len|] eqn:Eu; [|done].
        apply u16_nonneg in Eu; [|done]. destruct (_ || _); [done|]. destruct (_ <? _); [done|].
        destruct (_ <? _); [done|]. destruct (_ && _); [done|]. apply IH. lia. }
      by apply G. }
    destruct (Hc off Hoff H) as (Hlt & Hres).
    destruct (skip_early_stable (length buf) (length (buf ++ m)) buf m 0 0 off Hb ltac:(lia)
      ltac:(rewrite length_app; lia) Es Hlt) as [-> _]. done.
  - intros ->. exfalso. revert Es.
    assert (forall f o c, skip_early f buf o c <> inr (hello sni n)) as G; [|apply G].
    induction f as [|f IH]; intros o c; cbn [skip_early];
      (destruct (at_ buf o) as [t|]; [|done]); (destruct (_ || _); [|done]); [done|].
    repeat (case_match; try done).
Qed.

(** A handshake message cut into records, each with any version bytes. *)
Definition record (x : Z * Z * list Z) : list Z :=
  let '(v1, v2, c) := x in [22; v1; v2; zlen c / 256; zlen c mod 256] ++ c.
Definition records (cs : list (Z * Z * list Z)) : list Z := cs ≫= record.
Definition payload (cs : list (Z * Z * list Z)) : list Z := cs ≫= snd.

Lemma record_length v1 v2 c : zlen (record (v1, v2, c)) = 5 + zlen c.
Proof. unfold record. rewrite zlen_app. unfold zlen at 1. simpl. lia. Qed.

(** Reading one record at its place. *)
Lemma record_reads pre v1 v2 c rest :
  let buf := pre ++ record (v1, v2, c) ++ rest in
  at_ buf (zlen pre) = Some 22 /\ u16 buf (zlen pre + 3) = Some (zlen c) /\
  sub buf (zlen pre + 5) (zlen pre + 5 + zlen c) = c /\ zlen pre + 5 + zlen c <= zlen buf.
Proof.
  cbn zeta. split_and!.
  - replace (zlen pre) with (zlen pre + 0) by lia. by rewrite at_app_r by lia.
  - rewrite u16_app_r by lia. unfold u16, record. simpl.
    pose proof (Z.div_mod (zlen c) 256 ltac:(lia)). f_equal. lia.
  - unfold sub, record. pose proof (zlen_nonneg pre). pose proof (zlen_nonneg c).
    replace (Z.to_nat (zlen pre + 5)) with (length pre + 5)%nat by (unfold zlen; lia).
    rewrite <-drop_drop, drop_app_length. cbn [app drop].
    replace (Z.to_nat (zlen pre + 5 + zlen c - (zlen pre + 5))) with (length c) by (unfold zlen; lia).
    by rewrite drop_0, take_app_length.
  - rewrite !zlen_app, record_length. pose proof (zlen_nonneg rest). lia.
Qed.

Lemma u24_app_l b m p : p + 2 < zlen b -> u24 (b ++ m) p = u24 b p.
Proof. intros. unfold u24. by rewrite !at_app_l by lia. Qed.

Definition message_ok (total : list Z) (n : Z) : Prop :=
  at_ total 0 = Some 1 /\ u24 total 1 = Some n /\ zlen total = 4 + n /\ 4 + n <= MAX_HELLO_BYTES /\ 0 <= n.

Definition verdict (total : list Z) (n off : Z) : HelloResult :=
  match helloBody (sub total 4 (4 + n)) with Err e => bad e | Ok sni => hello sni off end.

Lemma collect_records cs pre rest hs0 n fuel :
  Forall (fun x => 1 <= zlen x.2 <= 16384 + 2048) cs -> (length cs < fuel)%nat ->
  message_ok (hs0 ++ payload cs) n ->
  collect fuel (pre ++ records cs ++ rest) (zlen pre) hs0 (if 4 <=? zlen hs0 then Some (4 + n) else None)
  = verdict (hs0 ++ payload cs) n (zlen pre + zlen (records cs)).
Proof.
  revert pre hs0 fuel. induction cs as [|[[v1 v2] c] cs IH]; intros pre hs0 fuel Hall Hf Hm.
  { unfold payload, records in *. cbn [mbind list_bind] in *. rewrite app_nil_r in *.
    destruct Hm as (_ & _ & Hl & _ & Hn). rewrite (proj2 (Z.leb_le 4 _)) by lia.
    replace (zlen pre + zlen []) with (zlen pre) by (unfold zlen; simpl; lia).
    unfold verdict. destruct fuel; cbn [collect]; rewrite Hl, Z.ltb_irrefl; done. }
  apply Forall_cons in Hall as [Hc Hall]. cbn [snd] in Hc. destruct fuel as [|fuel]; [simpl in Hf; lia|].
  change (records ((v1, v2, c) :: cs)) with (record (v1, v2, c) ++ records cs).
  change (payload ((v1, v2, c) :: cs)) with (c ++ payload cs) in *.
  destruct (record_reads pre v1 v2 c (records cs ++ rest)) as (R1 & R2 & R3 & R4).
  rewrite <-app_assoc. cbn [collect].
  assert (zlen hs0 < 4 + n) as Hlt.
  { destruct Hm as (_ & _ & Hl & _). rewrite !zlen_app in Hl. pose proof (zlen_nonneg (payload cs)). lia. }
  assert (match (if 4 <=? zlen hs0 then Some (4 + n) else None) with
    | None => true | Some k => zlen hs0 <? k end = true) as ->.
  { destruct (4 <=? zlen hs0); [by apply Z.ltb_lt|done]. }
  rewrite (proj2 (Z.ltb_ge _ (zlen pre + 5))) by lia. rewrite R1, R2. cbn [negb].
  rewrite bool_decide_eq_true_2 by done. cbn [negb].
  rewrite (proj2 (Z.eqb_neq (zlen c) 0)) by lia. rewrite (proj2 (Z.ltb_ge _ (zlen c))) by lia.
  cbn [orb]. rewrite (proj2 (Z.ltb_ge _ (zlen pre + 5 + zlen c))) by lia. rewrite R3.
  specialize (IH (pre ++ record (v1, v2, c)) (hs0 ++ c) fuel Hall ltac:(simpl in Hf; lia)).
  rewrite <-!app_assoc in IH. specialize (IH Hm).
  rewrite (zlen_app pre), record_length, !Z.add_assoc in IH.
  rewrite (zlen_app (record _)), record_length, !Z.add_assoc.
  assert (4 <= zlen (hs0 ++ c) -> at_ (hs0 ++ c) 0 = Some 1 /\ u24 (hs0 ++ c) 1 = Some n) as Hh.
  { intros H4. destruct Hm as (H0 & H1 & _). rewrite app_assoc in H0, H1.
    rewrite at_app_l in H0 by lia. rewrite u24_app_l in H1 by lia. done. }
  destruct (Z.leb_spec 4 (zlen hs0)) as [H4|H4].
  - rewrite (proj2 (Z.leb_le 4 _)) in IH by (rewrite zlen_app; lia). exact IH.
  - destruct (Z.leb_spec 4 (zlen (hs0 ++ c))) as [H4'|H4']; [|exact IH].
    destruct (Hh H4') as [-> ->]. rewrite bool_decide_eq_true_2 by done. cbn [negb].
    destruct Hm as (_ & _ & _ & Hmax & _). rewrite (proj2 (Z.ltb_ge _ (4 + n))) by lia. exact IH.
Qed.

(** C39. However a client cuts its hello into handshake records (any sizes the code admits, any record
    version, anything behind it), the proxy judges the same message: a complete client hello is
    always decided, never waited for, with the verdict of its reassembled body and the end of its
    last record. A server name cannot be hidden by splitting it. *)
Theorem fragmentation_does_not_matter cs n rest :
  Forall (fun x => 1 <= zlen x.2 <= 16384 + 2048) cs -> message_ok (payload cs) n ->
  parseClientHello (records cs ++ rest) false = verdict (payload cs) n (zlen (records cs)).
Proof.
  intros Hall Hm. unfold parseClientHello.
  assert (length cs < S (length (records cs ++ rest)))%nat as Hf.
  { rewrite length_app. clear Hm. induction Hall as [|[[v1 v2] c] cs Hc Hall IH]; [simpl; lia|].
    change (records ((v1, v2, c) :: cs)) with (record (v1, v2, c) ++ records cs).
    rewrite length_app. unfold record. simpl in *. lia. }
  exact (collect_records cs [] rest [] n _ Hall Hf Hm).
Qed.

(** ** What an accepted hello holds *)

(** The extensions between [p] and [extEnd] as (type, start of data, end of data). *)
Inductive tlv (h : list Z) (extEnd : Z) : Z -> list (Z * Z * Z) -> Prop :=
| tlv_nil p : extEnd <= p -> tlv h extEnd p []
| tlv_cons p type len l :
    p < extEnd -> u16 h p = Some type -> u16 h (p + 2) = Some len -> p + 4 + len <= extEnd ->
    tlv h extEnd (p + 4 + len) l -> tlv h extEnd p ((type, p + 4, p + 4 + len) :: l).

(** The entries of a server_name list as (name type, name). *)
Inductive entries (h : list Z) (listEnd : Z) : Z -> list (Z * list Z) -> Prop :=
| entries_nil q : listEnd <= q -> entries h listEnd q []
| entries_cons q ty len l :
    q < listEnd -> u8 h q = Some ty -> u16 h (q + 1) = Some len -> q + 3 + len <= listEnd ->
    entries h listEnd (q + 3 + len) l ->
    entries h listEnd q ((ty, sub h (q + 3) (q + 3 + len)) :: l).

Definition host_names (es : list (Z * list Z)) : list (list Z) :=
  omap (fun e => if e.1 =? 0 then Some e.2 else None) es.

Definition lower_name (n : list Z) : list Z := lower_byte <$> n.

(** The host names all the extensions of type 0 carry. *)
Inductive names_of (h : list Z) : list (Z * Z * Z) -> list (list Z) -> Prop :=
| names_nil : names_of h [] []
| names_other ty a b l ns : ty <> 0 -> names_of h l ns -> names_of h ((ty, a, b) :: l) ns
| names_sni a b n es l ns :
    u16 h a = Some n -> a + 2 + n <= b -> entries h (a + 2 + n) (a + 2) es -> names_of h l ns ->
    names_of h ((0, a, b) :: l) (host_names es ++ ns).

Lemma server_names_sound fuel h q e sni sni' :
  server_names fuel h q e sni = Some (Ok sni') ->
  exists es, entries h e q es /\ option_list sni' = option_list sni ++ (lower_name <$> host_names es).
Proof.
  revert q sni. induction fuel as [|fuel IH]; intros q sni; cbn [server_names];
    (destruct (Z.ltb_spec q e); [|intros [= ->]; exists []; split; [by constructor|by rewrite app_nil_r]]);
    [done|].
  destruct (u8 h q) as [ty|] eqn:E1; [|done]. simpl. destruct (u16 h (q + 1)) as [len|] eqn:E2; [|done]. simpl.
  destruct (Z.ltb_spec e (q + 3 + len)); [done|]. destruct (Z.eqb_spec ty 0) as [->|Hty].
  - destruct sni; [done|]. intros (es & He & Ho)%IH.
    exists ((0, sub h (q + 3) (q + 3 + len)) :: es). split; [by econstructor|]. rewrite Ho. done.
  - intros (es & He & Ho)%IH. exists ((ty, sub h (q + 3) (q + 3 + len)) :: es).
    split; [by econstructor|]. rewrite Ho. unfold host_names. simpl.
    by rewrite (proj2 (Z.eqb_neq ty 0)).
Qed.

Lemma extensions_sound fuel h p e sni sni' :
  extensions fuel h p e sni = Some (Ok sni') ->
  exists l ns, tlv h e p l /\ Forall (fun x => x.1.1 ∉ ENCRYPTED_HELLO_EXTENSIONS) l /\ names_of h l ns /\
    option_list sni' = option_list sni ++ (lower_name <$> ns).
Proof.
  revert p sni. induction fuel as [|fuel IH]; intros p sni; cbn [extensions];
    (destruct (Z.ltb_spec p e); [|intros [= ->]; exists [], []; split_and!;
      [by constructor|constructor|constructor|by rewrite app_nil_r]]); [done|].
  destruct (u16 h p) as [ty|] eqn:E1; [|done]. simpl.
  destruct (u16 h (p + 2)) as [len|] eqn:E2; [|done]. simpl.
  destruct (Z.ltb_spec e (p + 4 + len)); [done|].
  destruct (bool_decide_reflect (ty ∈ ENCRYPTED_HELLO_EXTENSIONS)) as [|Hech]; [done|].
  destruct (Z.eqb_spec ty 0) as [->|Hty].
  - destruct (u16 h (p + 4)) as [n|] eqn:E3; [|done]. simpl.
    destruct (Z.ltb_spec (p + 4 + len) (p + 4 + 2 + n)); [done|].
    destruct (server_names _ _ _ _ _) as [[s'|]|] eqn:En; simpl; [|done..].
    apply server_names_sound in En as (es & He & Ho). intros (l & ns & Ht & Hf & Hn & Hs)%IH.
    exists ((0, p + 4, p + 4 + len) :: l), (host_names es ++ ns). split_and!.
    + by econstructor.
    + by constructor.
    + by econstructor.
    + by rewrite Hs, Ho, fmap_app, app_assoc.
  - intros (l & ns & Ht & Hf & Hn & Hs)%IH. exists ((ty, p + 4, p + 4 + len) :: l), ns. split_and!.
    + by econstructor.
    + by constructor.
    + by constructor.
    + done.
Qed.

(** A hello whose body the proxy accepts with extensions parses as a list of extensions, none of
    which carries an encrypted inner hello, and all its server_name extensions together name exactly
    the one host reported, or none when no server name is reported: the name checked against the
    credential's set is the only one the message holds. *)
Theorem accepted_hello_names_one_host h sni :
  helloBody h = Ok sni ->
  exists p, (p = zlen h /\ sni = None) \/
    exists n l ns, u16 h p = Some n /\ p + 2 + n <= zlen h /\ tlv h (p + 2 + n) (p + 2) l /\
      Forall (fun x => x.1.1 ∉ ENCRYPTED_HELLO_EXTENSIONS) l /\ names_of h l ns /\
      (lower_name <$> ns) = option_list sni.
Proof.
  unfold helloBody. set (o := a ← _; _). destruct o as [[s|]|] eqn:Eo; [|done..]. intros [= ->].
  subst o. revert Eo. destruct (u8 h (2 + 32)) as [a|]; [|done]. cbn [mbind option_bind].
  destruct (u16 h _) as [b|]; [|done]. cbn [mbind option_bind].
  match goal with |- context [u8 h ?x] => destruct (u8 h x) as [c|] end; [|done].
  cbn [mbind option_bind]. match goal with |- context [zlen h <? ?x] => set (p := x) end.
  destruct (Z.ltb_spec (zlen h) p); [done|].
  destruct (Z.eqb_spec p (zlen h)) as [Hp|Hp]; [intros [= <-]; exists p; by left|].
  destruct (u16 h p) as [n|] eqn:En; [|done]. cbn [mbind option_bind]. destruct (Z.ltb_spec (zlen h) (p + 2 + n)); [done|].
  intros (l & ns & H1 & H2 & H3 & H4)%extensions_sound. exists p. right. exists n, l, ns.
  split_and!; [done|lia|done|done|done|]. rewrite H4. done.
Qed.

(** A hello for [a.bc], cut into two records. *)
Definition sample_body : list Z :=
  [3; 3] ++ replicate 32 0 ++ [0] ++ [0; 2; 19; 1] ++ [1; 0] ++ [0; 13] ++
  [0; 0; 0; 9; 0; 7; 0; 0; 4; 65; 46; 98; 99].
Definition sample_message : list Z := [1; 0; 0; 56] ++ sample_body.
Definition sample_records : list (Z * Z * list Z) :=
  [(3, 1, take 10 sample_message); (3, 3, drop 10 sample_message)].

Lemma fragmentation_does_not_matter_witness :
  parseClientHello (records sample_records ++ [23; 1]) false = hello (Some [97; 46; 98; 99]) 70.
Proof.
  refine (fragmentation_does_not_matter sample_records 56 [23; 1] _ _).
  - repeat constructor; vm_compute; discriminate.
  - split_and!; vm_compute; try reflexivity; discriminate.
Defined.

Lemma hello_verdict_is_final_witness :
  parseClientHello (records sample_records ++ [1; 2; 3]) true = hello (Some [97; 46; 98; 99]) 70.
Proof.
  refine (proj1 (hello_verdict_is_final (records sample_records) [1; 2; 3] true _ 70 _ _));
    [|vm_compute; reflexivity].
  repeat constructor; vm_compute; discriminate.
Defined.

Lemma accepted_hello_names_one_host_witness :
  exists p, (p = zlen sample_body /\ Some [97; 46; 98; 99] = None) \/
    exists n l ns, u16 sample_body p = Some n /\ p + 2 + n <= zlen sample_body /\
      tlv sample_body (p + 2 + n) (p + 2) l /\
      Forall (fun x => x.1.1 ∉ ENCRYPTED_HELLO_EXTENSIONS) l /\ names_of sample_body l ns /\
      (lower_name <$> ns) = option_list (Some [97; 46; 98; 99]).
Proof. apply accepted_hello_names_one_host. vm_compute. reflexivity. Defined.

Example retry_recognised :
  isHelloRetryRequest ([22; 3; 3; 0; 38; 2; 0; 0; 34; 3; 3] ++ HELLO_RETRY_RANDOM) = yes.
Proof. reflexivity. Qed.
