(* ===== verification/ClientIp.v ===== *)
(** The client address of a request behind proxies, [server/client-ip.ts]. *)
From S2P Require Import Prelude Num JsString IpAddr.

Definition mapped_prefix : list ascii := chars "::ffff:".
(** [s.replace(/^::ffff:/, '')]. *)
Definition strip_mapped (l : list ascii) : list ascii :=
  if is_prefix mapped_prefix l then drop (length mapped_prefix) l else l.

(** [LYNOX_TRUSTED_PROXY_HOPS], [None] when unset. *)
(** @src src/src/server/client-ip.ts 12-22 trustedHops *)
Definition trustedHops (raw : option string) : num :=
  match raw with
  | None => num_of_Z 1
  | Some s =>
      if bool_decide (s = ""%string) then num_of_Z 1
      else let n := parseInt s in
           if isFinite n && (n >=? num_of_Z 1)%num then n else num_of_Z 1
  end.

Definition rbracket : ascii := "]"%char.
Definition newline_free (l : list ascii) : bool :=
  forallb (fun c => negb (code c =? 10)%Z && negb (code c =? 13)%Z) l.

(** [/^\[(.+)\](?::\d+)?$/]: the text between the brackets. What follows the closing bracket holds no
    bracket, so that bracket is the last one. *)
Definition bracketed (l : list ascii) : option (list ascii) :=
  match l with
  | c :: rest =>
      if bool_decide (c = "["%char) && has rbracket rest then
        let after := after_last rbracket rest in
        let inner := take (length rest - S (length after)) rest in
        let port_ok := match after with
          | [] => true
          | d :: ds => bool_decide (d = colon) && negb (bool_decide (ds = [])) && forallb is_digit ds end in
        if port_ok && negb (bool_decide (inner = [])) && newline_free inner then Some inner else None
      else None
  | [] => None
  end.

Definition before_colon (l : list ascii) : list ascii :=
  take_while (fun c => negb (bool_decide (c = colon))) l.

(** @src src/src/server/client-ip.ts 24-43 normalizeIp *)
Definition normalizeIp (addr : list ascii) : list ascii :=
  let host := strip_mapped addr in
  match bracketed host with
  | Some inner => strip_mapped inner
  | None =>
      if bool_decide (length (filter (fun c => c = colon) host) = 1%nat) then
        let h := before_colon host in if bool_decide (h = []) then host else h
      else host
  end.

(** [req.headers['x-forwarded-for']]: absent, one line or several. *)
Inductive forwarded_header := Absent | Line (s : list ascii) | Lines (ss : list (list ascii)).

Fixpoint join_comma (ss : list (list ascii)) : list ascii :=
  match ss with [] => [] | [s] => s | s :: ss' => s ++ ","%char :: join_comma ss' end.

(** [parts[idx]] for a number index: an entry only at a whole number in range. *)
Definition entry_at (parts : list (list ascii)) (hops : num) : option (list ascii) :=
  match hops with
  | Fin q =>
      let n := Qfloor q in
      if Qeq_bool (inject_Z n) q && (0 <=? Z.of_nat (length parts) - n)%Z
      then parts !! Z.to_nat (Z.of_nat (length parts) - n) else None
  | _ => None
  end.

Definition forwarded_parts (chain : list ascii) : list (list ascii) :=
  filter (fun s => s <> []) (trim_chars <$> split_chars "," chain).

(** @src src/src/server/client-ip.ts 45-78 resolveClientIp *)
Definition resolveClientIp (remoteAddress : option (list ascii)) (forwarded : forwarded_header)
    (hopsEnv : option string) (trustProxy : bool) : list ascii :=
  let socketIp := default (chars "unknown") remoteAddress in
  if negb trustProxy then normalizeIp socketIp
  else
    let chain := match forwarded with
      | Absent => None | Line s => Some s | Lines ss => Some (join_comma ss) end in
    match chain ≫= fun c => entry_at (forwarded_parts c) (trustedHops hopsEnv) with
    | Some entry => normalizeIp entry
    | None => normalizeIp socketIp
    end.

Example resolve_1 : resolveClientIp (Some (chars "10.0.0.2")) (Line (chars "1.2.3.4, ::ffff:9.8.7.6:443")) None true
  = chars "9.8.7.6". Proof. reflexivity. Qed.
Example resolve_2 : resolveClientIp (Some (chars "::ffff:10.0.0.2")) (Line (chars "1.2.3.4"))
  (Some "2"%string) true = chars "10.0.0.2". Proof. reflexivity. Qed.

(** ** Spoofing *)

(** What a trusted proxy appends: an address without commas that is not blank. *)
Definition hop (s : list ascii) : Prop := ","%char ∉ s /\ trim_chars s <> [].

Lemma split_join_comma hs : hs <> [] -> Forall hop hs -> split_chars "," (join_comma hs) = hs.
Proof.
  intros Hne H. induction H as [|h hs [Hc _] H IH]; [done|]. destruct hs as [|h' hs].
  - by apply split_chars_none.
  - change (join_comma (h :: h' :: hs)) with (h ++ ","%char :: join_comma (h' :: hs)).
    by rewrite split_chars_app_sep, IH, split_chars_none.
Qed.

Lemma filter_hops hs : Forall hop hs -> filter (fun s : list ascii => s <> []) (trim_chars <$> hs) = trim_chars <$> hs.
Proof.
  induction 1 as [|h hs [_ Hh] H IH]; [done|]. csimpl. by rewrite filter_cons, decide_True, IH by done.
Qed.

(** Behind [hops] trusted proxies the resolved address is the one the outermost trusted proxy
    observed, whatever the client put into [X-Forwarded-For] before it (empty, commas, forged
    addresses), in one header line or several; and without a trusted proxy the header is ignored. *)
Theorem client_cannot_spoof_its_address remote spoofed real others hopsEnv header :
  Forall hop (real :: others) ->
  trustedHops hopsEnv = num_of_Z (Z.of_nat (S (length others))) ->
  header = Line (spoofed ++ ","%char :: join_comma (real :: others)) \/
    header = Lines [spoofed; join_comma (real :: others)] ->
  resolveClientIp remote header hopsEnv true = normalizeIp (trim_chars real) /\
  resolveClientIp remote header hopsEnv false = normalizeIp (default (chars "unknown") remote).
Proof.
  intros Hh Hn Hhd. split; [|by destruct Hhd as [-> | ->]].
  assert (match header with Absent => None | Line s => Some s | Lines ss => Some (join_comma ss) end
    = Some (spoofed ++ ","%char :: join_comma (real :: others))) as Hc by (by destruct Hhd as [-> | ->]).
  unfold resolveClientIp. cbn [negb]. rewrite Hc. cbn [mbind option_bind].
  assert (exists pre, forwarded_parts (spoofed ++ ","%char :: join_comma (real :: others))
    = pre ++ (trim_chars <$> (real :: others))) as [pre ->].
  { unfold forwarded_parts. rewrite split_chars_app_sep, split_join_comma by done.
    rewrite fmap_app, filter_app, (filter_hops (real :: others)) by done. eauto. }
  rewrite Hn. unfold entry_at. rewrite Qfloor_Z.
  rewrite (proj2 (Qeq_bool_iff _ _)) by reflexivity. rewrite length_app, length_fmap. simpl length.
  rewrite (proj2 (Z.leb_le 0 _)) by lia. simpl andb. cbn iota.
  replace (Z.to_nat _) with (length pre) by lia. by rewrite lookup_app_r, Nat.sub_diag.
Qed.

Lemma client_cannot_spoof_its_address_witness :
  resolveClientIp None (Lines [chars "6.6.6.6, 7.7.7.7,"; chars " 203.0.113.9:1234, 10.0.0.1"])
    (Some "2"%string) true = normalizeIp (chars "203.0.113.9:1234").
Proof.
  refine (proj1 (client_cannot_spoof_its_address None (chars "6.6.6.6, 7.7.7.7,") (chars " 203.0.113.9:1234")
    [chars " 10.0.0.1"] (Some "2"%string) _ _ _ (or_intror eq_refl))); [|reflexivity].
  repeat constructor; try discriminate; apply (bool_decide_unpack _); vm_compute; exact I.
Defined.
