(* ===== verification/RunSource.v ===== *)
(** Where a run's manifest comes from and whose access it depends on, [orchestrator/run-source.ts]:
    whether a run may start, whom it is for, and the check read again before each step. A read of
    the store of mandate ends may throw, so the checks return a [result]. *)
From S2P Require Import Prelude Num JsString Principal MandateEnds.

(** @src src/src/core/workflow-store.ts 63-81 WorkflowAuthorship *)
Record WorkflowAuthorship := {
  createdBy : option string; createdMandateId : option string;
  mandateEditor : option string; mandateEditorId : option string; mandateEditedAt : option string;
  createdAt : option string;
  coveredCreatedBy : option string; coveredCreatedId : option string; coveredCreatedAt : option string;
  coveredEditedBy : option string; coveredEditedId : option string; coveredEditedAt : option string }.

(** @src src/src/core/request-principal.ts 182-195 planAuthorshipOfWorkflow *)
Definition planAuthorshipOfWorkflow (a : WorkflowAuthorship) : PlanAuthorship :=
  {| created := {| m_tag := createdBy a; m_id := createdMandateId a; m_at := createdAt a |};
     mandate_edited := {| m_tag := mandateEditor a; m_id := mandateEditorId a; m_at := mandateEditedAt a |};
     covered_created := {| m_tag := coveredCreatedBy a; m_id := coveredCreatedId a; m_at := coveredCreatedAt a |};
     covered_edited := {| m_tag := coveredEditedBy a; m_id := coveredEditedId a; m_at := coveredEditedAt a |} |}.

(** The store of ends as a run sees it: [isLive], which may throw. *)
Abbreviation Ends := (string -> result string bool).

(** [authors] is [None] when the authorship could not be read, [ends] is [None] without a store. *)
(** @src src/src/orchestrator/run-source.ts 14-23 SavedRunSource *)
Record SavedRunSource := { workflowId : string; authors : option (list RequestPrincipal); ends : option Ends }.

(** @src src/src/orchestrator/run-source.ts 25-35 RunSource *)
Inductive RunSource :=
| Saved (s : SavedRunSource)
| Adhoc
| Nested (within : option SavedRunSource).

(** @src src/src/orchestrator/run-source.ts 37-43 heldSource *)
Definition heldSource (source : option RunSource) : option SavedRunSource :=
  match source with
  | None => None
  | Some (Saved s) => Some s
  | Some (Nested within) => within
  | Some Adhoc => None
  end.

(** @src src/src/orchestrator/run-source.ts 45-68 texts *)
Definition WORKFLOW_ENDED_REFUSAL : string := "This workflow was set up or changed by someone whose access has ended, so it does not run.".
Definition ENDED_MID_RUN_CAUSE : string := "The access of someone who set up or changed this workflow ended while it ran, so it stopped before its next step.".
Definition WORKFLOW_ENDED_MID_RUN_ERROR : string :=
  (ENDED_MID_RUN_CAUSE ++ " Starting it again will not work. To finish the remaining steps, ask lynox in a chat to do them or to write a new workflow for them.")%string.
Definition END_CHECK_FAILED_CAUSE : string :=
  "Could not check whether the access of everyone who set up or changed this workflow is still active, so it stopped before its next step. No one's access is known to have ended.".
Definition WORKFLOW_END_CHECK_FAILED_ERROR : string :=
  (END_CHECK_FAILED_CAUSE ++ " You can start it again, but the steps that already ran will run again, so first check that this does no harm.")%string.

(** @src src/src/orchestrator/run-source.ts 82-85 isAuthorStop *)
Definition isAuthorStop (error : option string) : bool :=
  bool_decide (error = Some WORKFLOW_ENDED_MID_RUN_ERROR) || bool_decide (error = Some WORKFLOW_END_CHECK_FAILED_ERROR).

(** @src src/src/orchestrator/run-source.ts 87-88 WORKFLOW_UNREADABLE_REFUSAL *)
Definition WORKFLOW_UNREADABLE_REFUSAL : string := "Could not read who set up this workflow, so it did not run.".
Definition NESTED_AT_TOP_REFUSAL : string := "A nested run was started on its own, outside the run it belongs to, so it did not run.".

(** [principalHasEnded] with a store that may throw. *)
Definition hasEnded (p : RequestPrincipal) (isLive : Ends) : result string bool :=
  match p with
  | Mandate _ (Some i) _ => (fun b => principalHasEnded p (fun _ => b)) <$> isLive i
  | _ => Ok (principalHasEnded p (fun _ => false))
  end.

(** [authors.some(...)]: the first member that has ended ends the search. *)
Fixpoint some_ended (ps : list RequestPrincipal) (isLive : Ends) : result string bool :=
  match ps with
  | [] => Ok false
  | p :: ps' => hasEnded p isLive ≫= fun b => if (b : bool) then Ok true else some_ended ps' isLive
  end.

(** Why a run must not start: [Ok None] lets it, [Err] is a check that threw. *)
(** @src src/src/orchestrator/run-source.ts 195-211 sourceRefusal *)
Definition sourceRefusal (source : RunSource) (depth : nat) : result string (option string) :=
  match source with
  | Adhoc => Ok None
  | Nested _ => Ok (if decide (0 < depth)%nat then None else Some NESTED_AT_TOP_REFUSAL)
  | Saved s =>
      match authors s with
      | None => Ok (Some WORKFLOW_UNREADABLE_REFUSAL)
      | Some ps =>
          (fun b : bool => if b then Some WORKFLOW_ENDED_REFUSAL else None)
            <$> some_ended ps (default (fun _ => Ok false) (ends s))
      end
  end.

Section Readers.
(** [Date.parse]. *)
Variable Date_parse : string -> num.

(** [read] is [None] without a reader; a reader answers [Err] when it throws. *)
Abbreviation Reader := (string -> result string (option WorkflowAuthorship)).

(** What [try { a = read(id) } catch { a = undefined }] leaves. *)
Definition read_or_undefined (r : result string (option WorkflowAuthorship)) : option WorkflowAuthorship :=
  match r with Ok a => a | Err _ => None end.

(** The mark a workflow still carries. *)
Definition workflow_mark (a : WorkflowAuthorship) : option PlanMandate :=
  planMandate Date_parse (planAuthorshipOfWorkflow a).

(** @src src/src/orchestrator/run-source.ts 90-110 savedWorkflowSource *)
Definition savedWorkflowSource (id : string) (read : option Reader) (e : option Ends) : RunSource :=
  match (read ≫= fun f => read_or_undefined (f id)) with
  | None => Saved {| workflowId := id; authors := None; ends := e |}
  | Some a => Saved {| workflowId := id; authors := Some (planMembers None (workflow_mark a)).2; ends := e |}
  end.

(** @src src/src/orchestrator/run-source.ts 112-124 workflowRunsAs *)
Definition workflowRunsAs (a : option WorkflowAuthorship) : RequestPrincipal :=
  match a with
  | None => Owner
  | Some a => default Owner (planMembers None (workflow_mark a)).1
  end.

(** @src src/src/orchestrator/run-source.ts 126-139 CallerWorkflowRun *)
Inductive CallerWorkflowRun :=
| RunsAs (p : RequestPrincipal) (asPlan : bool)
| RefusedOther
| RefusedUnreadable.

(** @src src/src/orchestrator/run-source.ts 141-168 callerWorkflowRunAs *)
Definition callerWorkflowRunAs (caller : RequestPrincipal)
    (read : result string (option WorkflowAuthorship)) : CallerWorkflowRun :=
  let a := read_or_undefined read in
  if isOwnerPrincipal caller then
    let runAs := workflowRunsAs a in RunsAs runAs (negb (isOwnerPrincipal runAs))
  else match a with
  | None => RefusedUnreadable
  | Some a =>
      match workflow_mark a with
      | None => RunsAs caller false
      | Some m =>
          if bool_decide (principalTag (principal m) = principalTag caller) then RunsAs caller false
          else RefusedOther
      end
  end.

(** @src src/src/orchestrator/run-source.ts 170-171 LIBRARY_RUN_UNCONFIRMED *)
Inductive library_refusal := LIBRARY_RUN_UNCONFIRMED | LIBRARY_RUN_AUTHOR_CHANGED.

(** The library's check on the workflow as the runner read it. *)
(** @src src/src/orchestrator/run-source.ts 173-193 libraryRunCheck *)
Definition libraryRunCheck (runAs : RequestPrincipal) (read : Reader) (id : string)
    (confirmedAt : option string) : option library_refusal :=
  if falsy confirmedAt then Some LIBRARY_RUN_UNCONFIRMED
  else
    let now := workflowRunsAs (read_or_undefined (read id)) in
    if bool_decide (principalTag now = principalTag runAs) && bool_decide (mandateIdOf now = mandateIdOf runAs)
    then None else Some LIBRARY_RUN_AUTHOR_CHANGED.

(** ** Whose access a run needs *)

(** The store of ends at a time, as the run's check reads it. *)
Definition store_ends (t : gmap string EndRow) (nowS : Z) : Ends := fun id => Ok (isLive t id nowS).

Lemma some_ended_pure ps t nowS :
  some_ended ps (store_ends t nowS) = Ok (existsb (fun p => principalHasEnded p (fun id => isLive t id nowS)) ps).
Proof. induction ps as [|[|e [i|] x|] ps IH]; simpl; [done..| | |]; rewrite ?IH; try done. by destruct (isLive t i nowS). Qed.

(** A workflow's mark is always a mandate. *)
Lemma workflow_mark_mandate a m :
  workflow_mark a = Some m -> exists email i, principal m = Mandate email i None.
Proof.
  unfold workflow_mark, planMandate. repeat destruct (_ && _); intros; simplify_eq; unfold mandateOfTag; simpl; eauto.
Qed.

(** A saved workflow may start exactly when its authorship can be read and either no mandate's mark
    is left on it (the owner's, or taken over by the owner) or the mandate that made or last changed
    it has a grant that is live in the store at that moment; without a store no mandate is live. *)
Theorem saved_run_may_start_iff wid read t nowS depth :
  sourceRefusal (savedWorkflowSource wid (Some read) (Some (store_ends t nowS))) depth = Ok None <->
  exists a, read wid = Ok (Some a) /\
    forall m, workflow_mark a = Some m -> exists email g,
      principal m = Mandate email (Some g) None /\ isLive t g nowS = true.
Proof.
  unfold savedWorkflowSource. cbn [mbind option_bind].
  destruct (read wid) as [[a|]|e]; cbn [read_or_undefined sourceRefusal authors];
    [|split; [done|by intros (? & ? & _)]..].
  cbn [ends default from_option]. unfold planMembers. cbn [omap list_omap id].
  destruct (workflow_mark a) as [m|] eqn:Em; cbn [fst snd];
    [|split; [intros _; exists a; split; [done|by intros ? ?; simplify_eq]|done]].
  destruct (workflow_mark_mandate a m Em) as (email & [g|] & Hp); cbn [fmap result_fmap];
    rewrite some_ended_pure; csimpl; rewrite Hp; cbn [principalHasEnded].
  - destruct (isLive t g nowS) eqn:El; cbn; split; try done.
    + intros _. exists a. split; [done|]. intros m' Hm. assert (m' = m) as -> by congruence. eauto.
    + intros (a' & [= <-] & H). destruct (H m Em) as (? & ? & H1 & H2). rewrite Hp in H1. simplify_eq. congruence.
  - split; [done|]. intros (a' & [= <-] & H). destruct (H m Em) as (? & ? & H1 & _). congruence.
Qed.

(** Whom a conversation's run of a saved workflow is for: the owner never runs a mandate's workflow
    as the owner, a mandate runs only as itself and never a workflow another mandate made or last
    changed, nor one whose authorship cannot be read; the control plane only what no mandate marks. *)
Theorem caller_run_is_narrow caller read p asPlan :
  callerWorkflowRunAs caller read = RunsAs p asPlan ->
  (p = caller /\ asPlan = false /\
     (caller = Owner \/ exists a, read = Ok (Some a)) /\
     (forall a m, read = Ok (Some a) -> workflow_mark a = Some m ->
        principalTag (principal m) = principalTag caller /\ caller <> Owner)) \/
  (caller = Owner /\ asPlan = true /\ exists a m, read = Ok (Some a) /\ workflow_mark a = Some m /\ p = principal m).
Proof.
  unfold callerWorkflowRunAs. destruct caller as [|e i x|]; cbn [isOwnerPrincipal].
  - destruct read as [[a|]|e]; cbn [read_or_undefined workflowRunsAs].
    + unfold planMembers. cbn [omap list_omap id]. destruct (workflow_mark a) as [m|] eqn:Em; cbn [fst default from_option foldl].
      * destruct (workflow_mark_mandate a m Em) as (email & g & Hp). rewrite Hp. cbn. intros [= <- <-].
        right. split_and!; [done..|]. exists a, m. by rewrite Hp.
      * cbn. intros [= <- <-]. left. split_and!; try done; [by left|]. intros a' m [= <-] ?. congruence.
    + intros [= <- <-]. left. split_and!; try done; by left.
    + intros [= <- <-]. left. split_and!; try done; by left.
  - destruct read as [[a|]|?]; cbn [read_or_undefined]; [|done..].
    destruct (workflow_mark a) as [m|] eqn:Em; [case_bool_decide as H; [|done]|];
      intros [= <- <-]; left; split_and!; try done; try (right; by eauto); intros a' m' [= <-] ?; by simplify_eq.
  - destruct read as [[a|]|?]; cbn [read_or_undefined]; [|done..].
    destruct (workflow_mark a) as [m|] eqn:Em; [case_bool_decide as H; [|done]|];
      intros [= <- <-]; left; split_and!; try done; try (right; by eauto); intros a' m' [= <-] ?; by simplify_eq.
Qed.
End Readers.

(** A workflow a mandate made. *)
Definition sample_authorship (by_ g : option string) : WorkflowAuthorship :=
  {| createdBy := by_; createdMandateId := g; mandateEditor := None; mandateEditorId := None;
     mandateEditedAt := None; createdAt := Some "2026-01-01 00:00:00"%string;
     coveredCreatedBy := None; coveredCreatedId := None; coveredCreatedAt := None;
     coveredEditedBy := None; coveredEditedId := None; coveredEditedAt := None |}.

Lemma caller_run_is_narrow_witness :
  callerWorkflowRunAs (fun _ => num_of_Z 0) (Mandate "a@b" (Some "g2"%string) None)
    (Ok (Some (sample_authorship (Some "mandate:a@b"%string) (Some "g1"%string))))
  = RunsAs (Mandate "a@b" (Some "g2"%string) None) false /\ "mandate:a@b"%string = principalTag (Mandate "a@b" (Some "g2"%string) None).
Proof.
  split; [reflexivity|].
  destruct (caller_run_is_narrow (fun _ => num_of_Z 0) (Mandate "a@b" (Some "g2"%string) None)
    (Ok (Some (sample_authorship (Some "mandate:a@b"%string) (Some "g1"%string)))) _ _ eq_refl) as [H|[H _]].
  - exact (proj1 (proj2 (proj2 (proj2 H)) _ _ eq_refl eq_refl)).
  - discriminate H.
Defined.
