(* ===== verification/StepContext.v ===== *)
(** What a workflow step sees: conditions ([orchestrator/conditions.ts]), the context built from
    earlier outputs and the placeholders in its task and captured call
    ([orchestrator/context.ts]).

    A context is the object's own properties. A property named [__proto__], an own property named
    [toString] or [valueOf], and an object shared by reference between a condition and the context
    are not modelled. *)
From S2P Require Import Prelude Num JsString JsValue Manifest.

Abbreviation context := (list (string * jval)).

(** ** Conditions *)

(** @src src/src/orchestrator/conditions.ts 3-17 getByPath *)
Definition getByPath (obj : context) (path : string) : jval :=
  foldl (fun current segment => if is_object current then js_prop current segment else JUndef)
    (JObj obj) (split "." path).

(** [a === b] on values of which at most one is the condition's own JSON. *)
Definition strict_eq (a b : jval) : bool :=
  match a, b with
  | JUndef, JUndef | JNull, JNull => true
  | JBool x, JBool y => bool_decide (x = y)
  | JNum x, JNum y => num_eqb x y
  | JStr x, JStr y => bool_decide (x = y)
  | _, _ => false
  end.

Definition is_nullish (v : jval) : bool := match v with JUndef | JNull => true | _ => false end.
Definition is_nan (n : num) : bool := match n with NaN => true | _ => false end.

Section Conditions.
Variable num_text : Q -> string.

Definition numeric (cmp : num -> num -> bool) (actual value : jval) : bool :=
  let n := js_number num_text actual in
  let v := js_number num_text value in
  negb (is_nan n) && negb (is_nan v) && cmp n v.

(** @src src/src/orchestrator/conditions.ts 19-57 evaluateCondition *)
Definition evaluateCondition (ctx : context) (cond : ManifestCondition) : bool :=
  let actual := getByPath ctx (cond_path cond) in
  let value := cond_value cond in
  match cond_operator cond with
  | op_exists => negb (is_undef actual)
  | op_not_exists => is_undef actual
  | op_eq => strict_eq actual value
  | op_neq => negb (strict_eq actual value)
  | op_contains => negb (is_nullish actual) && includes (js_string num_text actual) (js_string num_text value)
  | op_lt => numeric num_ltb actual value
  | op_gt => numeric (fun n v => num_ltb v n) actual value
  | op_gte => numeric (fun n v => num_leb v n) actual value
  | op_lte => numeric num_leb actual value
  end.

(** @src src/src/orchestrator/conditions.ts 59-66 shouldRunStep *)
Definition shouldRunStep (ctx : context) (conditions : option (list ManifestCondition)) : bool :=
  match conditions with
  | None => true
  | Some cs => forallb (evaluateCondition ctx) cs
  end.
End Conditions.

Definition text_or_undef (s : option string) : jval := match s with Some t => JStr t | None => JUndef end.

(** @src src/src/orchestrator/conditions.ts 68-83 buildConditionContext *)
Definition buildConditionContext (globalContext : context) (outputs : list (string * AgentOutput)) : context :=
  foldl (fun ctx kv =>
    if o_skipped kv.2 then ctx
    else jm_set ctx kv.1 (JObj [("result", JStr (o_result kv.2)); ("costUsd", JNum (o_costUsd kv.2));
                                ("error", text_or_undef (o_error kv.2))]%string))
    globalContext outputs.

(** ** The context of a step *)

Definition DEFAULT_CONTEXT_LIMIT : num := num_of_Z 16000.

(** [s.slice(0, n)]. *)
Definition slice_to (n : num) (l : list ascii) : list ascii :=
  match n with
  | NaN | NInf => []
  | PInf => l
  | Fin q => let k := Qtrunc q in
             if (0 <=? k)%Z then take (Z.to_nat k) l else take (Z.to_nat (Z.of_nat (length l) + k)) l
  end.

Section Building.
Variable num_text : Q -> string.

(** The note behind a cut result; the dash is its UTF-8 bytes. *)
Definition truncation_note (fromId : string) (len : nat) (limit : num) : string :=
  (unchars [chr 10] ++ "...[truncated — step " ++ unchars [chr 34] ++ fromId ++ unchars [chr 34] ++ " produced "
   ++ int_text (Z.of_nat len) ++ " chars, showing first " ++ num_string num_text limit ++ ". Set "
   ++ unchars [chr 34] ++ "pipeline_context_limit" ++ unchars [chr 34] ++ " in config to increase.]")%string.

Definition limited (fromId : string) (limit : num) (result : string) : string :=
  let l := chars result in
  if (num_of_Z (Z.of_nat (length l)) >? limit)%num
  then (unchars (slice_to limit l) ++ truncation_note fromId (length l) limit)%string else result.

Inductive context_error := NotRunYet (step from : string).

Fixpoint add_inputs (stepId : string) (outputs : list (string * AgentOutput)) (limit : num)
    (froms : list string) (ctx : context) : result context_error context :=
  match froms with
  | [] => Ok ctx
  | f :: froms' =>
      match jm_get outputs f with
      | None => Err (NotRunYet stepId f)
      | Some out =>
          add_inputs stepId outputs limit froms'
            (if o_skipped out then ctx
             else jm_set ctx f (JObj [("result", JStr (limited f limit (o_result out)));
                                      ("costUsd", JNum (o_costUsd out))]%string))
      end
  end.

(** @src src/src/orchestrator/context.ts 8-40 buildStepContext *)
Definition buildStepContext (globalContext : context) (step : ManifestStep)
    (outputs : list (string * AgentOutput)) (contextLimit : option num) : result context_error context :=
  add_inputs (step_id step) outputs (default DEFAULT_CONTEXT_LIMIT contextLimit) (input_from step) globalContext.
End Building.

(** ** Placeholders *)

Definition open_brace : ascii := "{"%char.
Definition close_brace : ascii := "}"%char.

(** [\{\{([^}]+)\}\}] at the start of the text: the raw path and what follows. *)
Definition hole_at (l : list ascii) : option (list ascii * list ascii) :=
  match l with
  | a :: b :: r =>
      if bool_decide (a = open_brace) && bool_decide (b = open_brace) then
        let raw := take_while (fun c => negb (bool_decide (c = close_brace))) r in
        match drop_while (fun c => negb (bool_decide (c = close_brace))) r with
        | c :: d :: rest =>
            if bool_decide (d = close_brace) && negb (bool_decide (raw = [])) then Some (raw, rest) else None
        | _ => None
        end
      else None
  | _ => None
  end.

Inductive piece := Lit (c : ascii) | Hole (raw : list ascii).

(** The matches of the global regular expression and the characters between them. *)
Fixpoint scan (fuel : nat) (l : list ascii) : list piece :=
  match fuel with
  | O => []
  | S fuel' =>
      match hole_at l, l with
      | Some (raw, rest), _ => Hole raw :: scan fuel' rest
      | None, c :: l' => Lit c :: scan fuel' l'
      | None, [] => []
      end
  end.
Definition pieces (s : string) : list piece := scan (S (length (chars s))) (chars s).

Definition path_of (raw : list ascii) : string := unchars (trim_chars raw).
(** A placeholder left in the text. *)
Definition placeholder (path : string) : string := ("{{" ++ path ++ "}}")%string.

(** [s.replace(regex, f)]. *)
Definition replace_holes (f : string -> string) (s : string) : string :=
  unchars (mjoin ((fun p => match p with Lit c => [c] | Hole raw => chars (f (path_of raw)) end) <$> pieces s)).

Definition is_params_path (path : string) : bool :=
  bool_decide (path = "params"%string) || startsWith path "params.".

(** [value === undefined || typeof value === 'function']. *)
Definition no_value (v : jval) : bool := match v with JUndef | JFun _ => true | _ => false end.

Section Templates.
Variable num_text : Q -> string.
(** [wrapUntrustedData(text, source)] and [detectInjectionAttempt(text).detected] of
    [core/data-boundary.ts]. *)
Variable wrapUntrustedData : string -> string -> string.
Variable detected : string -> bool.

Definition value_text (v : jval) : string :=
  match v with JStr s => s | _ => default "undefined"%string (stringify num_text v) end.

(** What one placeholder of a task becomes. *)
Definition task_hole (context_ : context) (isAccepted : option (string -> jval -> bool)) (fenceStepOutputs : bool)
    (path : string) : string :=
  let value := getByPath context_ path in
  if no_value value then placeholder path
  else
    let str := value_text value in
    if is_params_path path then
      if match isAccepted with Some f => f path value | None => false end then str
      else wrapUntrustedData str ("workflow_param:" ++ path)
    else if fenceStepOutputs || detected str then wrapUntrustedData str ("pipeline_step:" ++ path) else str.

(** @src src/src/orchestrator/context.ts 42-78 resolveTaskTemplate *)
Definition resolveTaskTemplate (task : string) (context_ : context)
    (isAccepted : option (string -> jval -> bool)) (fenceStepOutputs : bool) : string :=
  replace_holes (task_hole context_ isAccepted fenceStepOutputs) task.

(** [SOLE_PLACEHOLDER.exec(s)]: the whole text is one placeholder. *)
(** @src src/src/orchestrator/context.ts 80-80 SOLE_PLACEHOLDER *)
Definition sole_placeholder (s : string) : option string :=
  match hole_at (chars s) with Some (raw, []) => Some (path_of raw) | _ => None end.

(** @src src/src/orchestrator/context.ts 122-134 substituteString *)
Definition substituteString (s : string) (context_ : context) : jval :=
  match sole_placeholder s with
  | Some path => let resolved := getByPath context_ path in if is_undef resolved then JStr s else resolved
  | None =>
      JStr (replace_holes (fun path =>
        let resolved := getByPath context_ path in
        if is_undef resolved then placeholder path else value_text resolved) s)
  end.

(** @src src/src/orchestrator/context.ts 109-120 walk *)
Fixpoint walk (value : jval) (context_ : context) : jval :=
  match value with
  | JStr s => substituteString s context_
  | JArr l => JArr ((fun v => walk v context_) <$> l)
  | JObj fs => JObj ((fun kv => (kv.1, walk kv.2 context_)) <$> fs)
  | JProto true => JArr []
  | JProto false => JObj []
  | v => v
  end.

(** @src src/src/orchestrator/context.ts 82-107 resolveInputTemplate *)
Definition resolveInputTemplate (template : context) (context_ : context) : jval := walk (JObj template) context_.

(** The fence around one earlier output, when it is an object with a text [result]. *)
Definition fence_output (rest : context) (fromId : string) : context :=
  match js_prop (JObj rest) fromId with
  | JObj out =>
      match jm_get out "result" with
      | Some (JStr r) =>
          jm_set rest fromId (JObj (jm_set out "result" (JStr (wrapUntrustedData r ("pipeline_step:" ++ fromId)))))
      | _ => rest
      end
  | _ => rest
  end.

(** @src src/src/orchestrator/context.ts 136-151 contextForEventRun *)
Definition contextForEventRun (context_ : context) (step : ManifestStep) : context :=
  foldl fence_output (jm_del context_ "params") (input_from step).
End Templates.

(** ** Placeholders: lemmas *)

Lemma replace_holes_ext f g s : (forall p, f p = g p) -> replace_holes f s = replace_holes g s.
Proof.
  intros H. unfold replace_holes. do 2 f_equal. apply list_fmap_ext. intros _ [c|raw] _; [done|]. by rewrite H.
Qed.

(** A path that can stand in a placeholder: not empty, without a closing brace and blanks around it. *)
Definition good_path (path : string) : Prop :=
  path <> ""%string /\ close_brace ∉ chars path /\ trim_chars (chars path) = chars path.

Lemma hole_at_placeholder path rest :
  good_path path -> hole_at (chars (placeholder path) ++ rest) = Some (chars path, rest).
Proof.
  intros (Hne & Hin & _). unfold placeholder. rewrite !chars_app, <-!app_assoc.
  change (chars "{{") with [open_brace; open_brace]. change (chars "}}") with [close_brace; close_brace].
  cbn [app hole_at].
  rewrite !bool_decide_eq_true_2 by done. cbn [andb].
  set (f := fun c => negb (bool_decide (c = close_brace))).
  assert (forallb f (chars path) = true) as Hf.
  { apply forallb_forall. intros c Hc. apply negb_true_iff, bool_decide_eq_false_2. intros ->. apply Hin. by apply list_elem_of_In. }
  assert (f close_brace = false) as Hc by (unfold f; by rewrite bool_decide_eq_true_2).
  cbn [app]. rewrite take_while_stop, drop_while_stop by done. rewrite bool_decide_eq_true_2 by done. rewrite bool_decide_eq_false_2; [done|].
  intros E. apply Hne. rewrite <-(unchars_chars path). by rewrite E.
Qed.

Lemma sole_placeholder_spec path : good_path path -> sole_placeholder (placeholder path) = Some path.
Proof.
  intros H. unfold sole_placeholder. pose proof (hole_at_placeholder path [] H) as E. rewrite app_nil_r in E.
  rewrite E. unfold path_of. destruct H as (_ & _ & ->). by rewrite unchars_chars.
Qed.

Lemma scan_lits pre l fuel :
  open_brace ∉ pre -> scan (length pre + fuel) (pre ++ l) = (Lit <$> pre) ++ scan fuel l.
Proof.
  induction pre as [|c pre IH]; intros H; [done|]. apply not_elem_of_cons in H as [Hc H].
  cbn [length app plus scan]. assert (hole_at (c :: pre ++ l) = None) as ->.
  { cbn [hole_at]. destruct (pre ++ l); [done|]. by rewrite bool_decide_eq_false_2 by congruence. }
  csimpl. by rewrite IH.
Qed.

Lemma mjoin_lits f (pre : list ascii) :
  mjoin ((fun p => match p with Lit c => [c] | Hole raw => f raw end) <$> (Lit <$> pre)) = pre.
Proof. induction pre as [|c pre IH]; [done|]. csimpl. by rewrite IH. Qed.

(** A literal text followed by one placeholder. *)
Lemma replace_holes_one f pre path :
  good_path path -> open_brace ∉ chars pre -> replace_holes f (pre ++ placeholder path) = (pre ++ f path)%string.
Proof.
  intros Hg Hp. unfold replace_holes, pieces. rewrite chars_app, length_app, plus_n_Sm, scan_lits by done.
  cbn [scan]. pose proof (hole_at_placeholder path [] Hg) as E. rewrite app_nil_r in E. rewrite E.
  assert (forall n, scan n [] = []) as -> by (by intros []).
  rewrite fmap_app, join_app, (mjoin_lits (fun raw => chars (f (path_of raw)))). cbn [fmap list_fmap mjoin list_join].
  unfold path_of. destruct Hg as (_ & _ & ->). rewrite unchars_chars, app_nil_r, <-chars_app. apply unchars_chars.
Qed.

(** ** Foreign text stays behind its fence *)

(** Contexts that agree on every path, except that paths in [hidden] may have different values. *)
Definition agree_outside (hidden : string -> bool) (ctx1 ctx2 : context) : Prop :=
  forall path, if hidden path then no_value (getByPath ctx1 path) = no_value (getByPath ctx2 path)
               else getByPath ctx1 path = getByPath ctx2 path.

(** What a task's text says outside the fences does not depend on foreign values: with the fences
    blanked out, a run without an accepted grant yields the same text for any two sets of workflow
    parameters, and a run started by a third party's event for any two contexts at all, so neither a
    parameter nor (there) an earlier step's output ever enters a task unfenced. *)
Theorem task_text_hides_foreign_values num_text fence detected task ctx1 ctx2 :
  let resolve := resolveTaskTemplate num_text (fun _ source => fence source) detected task in
  (agree_outside is_params_path ctx1 ctx2 ->
     forall fenceStepOutputs, resolve ctx1 None fenceStepOutputs = resolve ctx2 None fenceStepOutputs) /\
  (agree_outside (fun _ => true) ctx1 ctx2 -> resolve ctx1 None true = resolve ctx2 None true).
Proof.
  cbn zeta. unfold resolveTaskTemplate. split; intros H; [intros fs|]; apply replace_holes_ext; intros p;
    unfold task_hole; specialize (H p); cbn in H.
  - destruct (is_params_path p); [by rewrite H|]. by rewrite H.
  - rewrite H. by destruct (no_value _), (is_params_path p).
Qed.

Lemma task_text_hides_foreign_values_witness :
  resolveTaskTemplate (fun _ => ""%string) (fun _ s => s) (fun _ => false) "to {{params.to}}"
    [("params", JObj [("to", JStr "a@b")])]%string None false
  = resolveTaskTemplate (fun _ => ""%string) (fun _ s => s) (fun _ => false) "to {{params.to}}"
    [("params", JObj [("to", JStr "a@b")])]%string None false.
Proof.
  apply (proj1 (task_text_hides_foreign_values (fun _ => ""%string) (fun s => s) (fun _ => false)
    "to {{params.to}}"%string _ _)).
  intros path. by destruct (is_params_path path).
Defined.

(** ** The captured call *)

(** A captured call is replayed with the run's own values: a text that is one placeholder becomes the
    value itself with its type, or stays as it is when the path has no value, inside objects and
    lists alike; values that are not text are untouched. *)
Theorem sole_placeholder_keeps_type num_text path ctx k n :
  good_path path ->
  resolveInputTemplate num_text [(k, JArr [JStr (placeholder path); JNum n])] ctx
  = JObj [(k, JArr [if is_undef (getByPath ctx path) then JStr (placeholder path) else getByPath ctx path; JNum n])].
Proof.
  intros H. unfold resolveInputTemplate. cbn. unfold substituteString. rewrite sole_placeholder_spec by done. done.
Qed.

Lemma params_lookup ctx ps name :
  jm_get ctx "params" = Some (JObj ps) -> "."%char ∉ chars name ->
  getByPath ctx ("params." ++ name) = js_prop (JObj ps) name.
Proof.
  intros Hp Hn. unfold getByPath, split. rewrite chars_app.
  change (chars "params.") with (["p";"a";"r";"a";"m";"s";"."]%char). cbn [app split_chars].
  repeat (rewrite decide_False by done). rewrite decide_True by done.
  assert (split_chars "." (chars name) = [chars name]) as ->.
  { clear Hp. induction (chars name) as [|c l IH]; [done|]. apply not_elem_of_cons in Hn as [? Hn].
    cbn [split_chars]. rewrite decide_False by congruence. by rewrite IH. }
  cbn [fmap list_fmap foldl is_object]. rewrite unchars_chars. change (unchars ["p";"a";"r";"a";"m";"s"]%char) with "params"%string.
  cbn [js_prop]. rewrite Hp. done.
Qed.

(** A captured call that names a parameter like a member every object inherits (such as [toString])
    does not stay unresolved as the code's comment says and as a task's placeholder does: alone it
    becomes the library function itself, and within a text it becomes the word [undefined]. *)
Theorem inherited_member_reaches_call num_text wrap detected ctx ps name :
  name ∈ object_members -> jm_get ctx "params" = Some (JObj ps) -> jm_get ps name = None ->
  let path := ("params." ++ name)%string in
  substituteString num_text (placeholder path) ctx = JFun name /\
  substituteString num_text ("call " ++ placeholder path) ctx = JStr "call undefined" /\
  resolveTaskTemplate num_text wrap detected (placeholder path) ctx None false = placeholder path.
Proof.
  intros Hn Hp Hps. cbn zeta. set (path := ("params." ++ name)%string).
  assert ("."%char ∉ chars name /\ good_path path /\ name <> proto_key) as (Hdot & Hgood & Hproto).
  { unfold path, good_path, object_members in *.
    repeat (apply elem_of_cons in Hn as [-> | Hn]; [split_and!; try done; try reflexivity; apply (bool_decide_unpack _); vm_compute; exact I|]).
    by apply elem_of_nil in Hn. }
  assert (getByPath ctx path = JFun name) as Hv.
  { unfold path. rewrite (params_lookup ctx ps) by done. cbn [js_prop]. rewrite Hps. unfold object_inherited.
    by rewrite decide_False, decide_True by done. }
  pose proof (fun f pre => replace_holes_one f pre path Hgood) as Hone.
  split_and!.
  - unfold substituteString. rewrite sole_placeholder_spec by done. by rewrite Hv.
  - unfold substituteString. destruct (sole_placeholder _) eqn:Es; [by vm_compute in Es|].
    rewrite (Hone _ "call "%string) by (apply (bool_decide_unpack _); vm_compute; exact I). by rewrite Hv.
  - unfold resolveTaskTemplate. rewrite (Hone _ ""%string) by (by apply not_elem_of_nil). unfold task_hole. by rewrite Hv.
Qed.

Lemma inherited_member_reaches_call_witness :
  substituteString (fun _ => ""%string) "{{params.constructor}}" [("params", JObj [])]%string = JFun "constructor".
Proof.
  refine (proj1 (inherited_member_reaches_call (fun _ => ""%string) (fun s _ => s) (fun _ => false)
    [("params", JObj [])]%string [] "constructor" _ eq_refl eq_refl)).
  apply (bool_decide_unpack _). vm_compute. exact I.
Defined.

(** ** What a step and its conditions see *)

Section Views.
Variable num_text : Q -> string.

(** What the context holds of one output. *)
Definition step_view (limit : num) (f : string) (out : AgentOutput) : jval :=
  JObj [("result", JStr (limited num_text f limit (o_result out))); ("costUsd", JNum (o_costUsd out))]%string.
Definition condition_view (out : AgentOutput) : jval :=
  JObj [("result", JStr (o_result out)); ("costUsd", JNum (o_costUsd out)); ("error", text_or_undef (o_error out))]%string.

(** The output of [k], when it ran. *)
Definition ran (outputs : list (string * AgentOutput)) (k : string) : option AgentOutput :=
  match jm_get outputs k with Some o => if o_skipped o then None else Some o | None => None end.

Lemma add_inputs_ok sid outputs limit froms ctx :
  (exists ctx', add_inputs num_text sid outputs limit froms ctx = Ok ctx') <-> Forall (fun f => f ∈ jm_keys outputs) froms.
Proof.
  revert ctx. induction froms as [|f froms IH]; intros ctx; cbn [add_inputs]; [split; eauto|].
  rewrite Forall_cons, <-jm_get_is_Some. destruct (jm_get outputs f) as [o|] eqn:E.
  - rewrite IH. split; [eauto|tauto].
  - split; [by intros [? ?]|by intros [[? ?] _]].
Qed.

Lemma add_inputs_get sid outputs limit froms ctx ctx' k :
  add_inputs num_text sid outputs limit froms ctx = Ok ctx' ->
  jm_get ctx' k = match (if decide (k ∈ froms) then ran outputs k else None) with
                  | Some o => Some (step_view limit k o) | None => jm_get ctx k end.
Proof.
  revert ctx. induction froms as [|f froms IH]; intros ctx; cbn [add_inputs].
  - intros [= ->]. rewrite decide_False; [done|apply not_elem_of_nil].
  - destruct (jm_get outputs f) as [o|] eqn:E; [|done]. intros H. rewrite (IH _ H). clear H IH.
    destruct (decide (k ∈ froms)) as [Hk|Hk].
    + rewrite (decide_True (P := k ∈ f :: froms)) by (by right). destruct (ran outputs k) eqn:Er; [done|].
      destruct (o_skipped o) eqn:Es; [done|]. rewrite jm_get_set. case_decide; [|done]. subst.
      unfold ran in Er. by rewrite E, Es in Er.
    + destruct (decide (k = f)) as [->|Hkf].
      * rewrite decide_True by by left. unfold ran. rewrite E. destruct (o_skipped o); [done|].
        rewrite jm_get_set. by rewrite decide_True.
      * rewrite (decide_False (P := k ∈ f :: froms)) by (by intros [?|?]%elem_of_cons).
        destruct (o_skipped o); [done|]. rewrite jm_get_set. by rewrite decide_False.
Qed.

Lemma conditionContext_get g outputs k :
  NoDup (jm_keys outputs) ->
  jm_get (buildConditionContext g outputs) k = match ran outputs k with Some o => Some (condition_view o) | None => jm_get g k end.
Proof.
  unfold buildConditionContext. revert g. induction outputs as [|[i o] outputs IH]; intros g; [done|].
  cbn [jm_keys fmap list_fmap]. intros [Hi Hnd]%NoDup_cons. cbn [foldl fst snd]. rewrite IH by done.
  unfold ran. cbn [jm_get]. destruct (decide (i = k)) as [->|].
  - assert (jm_get outputs k = None) as -> by (by apply jm_get_None).
    destruct (o_skipped o); [done|]. rewrite jm_get_set. by rewrite decide_True.
  - destruct (jm_get outputs k) as [o'|]; [destruct (o_skipped o'); [|done]|];
      (destruct (o_skipped o); [done|]; rewrite jm_get_set; by rewrite decide_False).
Qed.

(** A step's context is the run's context with the results of exactly the steps it names in
    [input_from] that ran (a skipped one leaves the key as the run's context has it), each cut to the
    limit, and building it fails exactly when a named step has no output yet; its conditions see
    every output of the run, uncut and with its error, named or not. *)
Theorem step_sees_named_outputs g step outputs limit :
  ((exists ctx, buildStepContext num_text g step outputs limit = Ok ctx) <->
     Forall (fun f => f ∈ jm_keys outputs) (input_from step)) /\
  (forall ctx k, buildStepContext num_text g step outputs limit = Ok ctx ->
     jm_get ctx k = match (if decide (k ∈ input_from step) then ran outputs k else None) with
                    | Some o => Some (step_view (default DEFAULT_CONTEXT_LIMIT limit) k o)
                    | None => jm_get g k end) /\
  (NoDup (jm_keys outputs) -> forall k,
     jm_get (buildConditionContext g outputs) k
     = match ran outputs k with Some o => Some (condition_view o) | None => jm_get g k end) /\
  (forall f n r, (n <= length (chars r))%nat ->
     let l := num_of_Z (Z.of_nat n) in
     limited num_text f l r = if decide (length (chars r) = n) then r
       else (unchars (take n (chars r)) ++ truncation_note num_text f (length (chars r)) l)%string).
Proof.
  split_and!; [apply add_inputs_ok|intros ctx k; apply add_inputs_get|intros ? k; by apply conditionContext_get|].
  intros f n r Hn. cbn zeta. unfold limited. cbn -[chars].
  destruct (Qltb _ _) eqn:E.
  - apply Qltb_lt in E. rewrite <-Zlt_Qlt in E. rewrite decide_False by lia.
    do 2 f_equal. unfold slice_to, Qtrunc. rewrite Qfloor_Z.
    rewrite (proj2 (Qle_bool_iff _ _)) by (rewrite <-(Zle_Qle 0); lia).
    rewrite (proj2 (Z.leb_le _ _)) by lia. by rewrite Nat2Z.id.
  - apply not_true_iff_false in E. rewrite Qltb_lt, <-Zlt_Qlt in E. by rewrite decide_True by lia.
Qed.
End Views.

Lemma step_sees_named_outputs_witness :
  jm_get (buildConditionContext [] [("a"%string, mkOutput "a" "hi" zero_num zero_num zero_num zero_num false None None)]) "a"
  = Some (condition_view (mkOutput "a" "hi" zero_num zero_num zero_num zero_num false None None)).
Proof.
  apply (proj1 (proj2 (proj2 (step_sees_named_outputs (fun _ => ""%string) [] (bare_step "b" ["a"%string])
    [("a"%string, mkOutput "a" "hi" zero_num zero_num zero_num zero_num false None None)] None)))).
  apply NoDup_singleton.
Defined.
