(* ===== verification/WorkflowParams.v ===== *)
(** Binding the parameters of a saved workflow, [orchestrator/workflow-params.ts]: which supplied
    values reach the run's [params], with which type and under which constraint. *)
From S2P Require Import Prelude Num JsString JsValue StepContext.

Inductive param_type : Set := p_string | p_number | p_date.

(** @src src/src/types/pipeline.ts 206-212 ProcessParameter *)
Record ProcessParameter := mkParam { p_name : string; p_type : param_type; p_defaultValue : jval }.

(** [JStr] and [JNum] values in [c_enum]. *)
(** @src src/src/types/capability-contract.ts 18-29 ParamConstraint *)
Record ParamConstraint := {
  c_enum : option (list jval); c_regex : option string; c_min : option num; c_max : option num }.

Inductive bind_reason := Missing | NotNumber | NotFinite | NotDate | NotInEnum | BadPattern | TooLong
  | NoMatch | NotNumeric | BelowMin | AboveMax.
(** The parameter an error names, and why. *)
Abbreviation bind_error := (string * bind_reason)%type.

Section Params.
Variable num_text : Q -> string.
(** [new RegExp(source)] and its [test]; [None] is an invalid pattern. *)
Variable RegExp : string -> option (string -> bool).
Variable Date_parse : string -> num.

Definition anchored (source : string) : string := ("^(?:" ++ source ++ ")$")%string.

Definition check_enum (value : jval) (c : ParamConstraint) (name : string) : result bind_error unit :=
  match c_enum c with
  | Some es => throw_if (negb (existsb (fun e => strict_eq e value) es)) (name, NotInEnum)
  | None => Ok tt
  end.

Definition check_regex (value : jval) (c : ParamConstraint) (name : string) : result bind_error unit :=
  match c_regex c with
  | Some source =>
      match RegExp (anchored source) with
      | None => Err (name, BadPattern)
      | Some re =>
          let s := js_string num_text value in
          if (8192 <? Z.of_nat (length (chars s)))%Z then Err (name, TooLong)
          else throw_if (negb (re s)) (name, NoMatch)
      end
  | None => Ok tt
  end.

Definition check_bounds (value : jval) (c : ParamConstraint) (name : string) : result bind_error unit :=
  match c_min c, c_max c with
  | None, None => Ok tt
  | lo, hi =>
      match value with
      | JNum (Fin q) =>
          if match lo with Some m => (Fin q <? m)%num | None => false end then Err (name, BelowMin)
          else throw_if match hi with Some m => (Fin q >? m)%num | None => false end (name, AboveMax)
      | _ => Err (name, NotNumeric)
      end
  end.

(** @src src/src/orchestrator/workflow-params.ts 69-122 applyConstraint *)
Definition applyConstraint (value : jval) (c : ParamConstraint) (name : string) : result bind_error unit :=
  check_enum value c name ≫= fun _ => check_regex value c name ≫= fun _ => check_bounds value c name.

(** [typeof raw === 'string' ? raw.trim() : '']. *)
Definition trimmed (raw : jval) : string := match raw with JStr s => trim s | _ => ""%string end.

(** The date pattern: four, two and two digits between dashes, then nothing, or [T] or a blank and no
    further blank. *)
Definition iso_shape (s : string) : bool :=
  match chars s with
  | y1 :: y2 :: y3 :: y4 :: a :: m1 :: m2 :: b :: d1 :: d2 :: rest =>
      forallb is_digit [y1; y2; y3; y4; m1; m2; d1; d2] && (code a =? 45)%Z && (code b =? 45)%Z &&
      match rest with
      | [] => true
      | t :: time => ((code t =? 84)%Z || (code t =? 32)%Z) && forallb (fun c => negb (is_space c)) time
      end
  | _ => false
  end.

(** The strict decimal pattern is the one [read_decimal] reads. *)
(** @src src/src/orchestrator/workflow-params.ts 124-161 coerceParam *)
Definition coerceParam (raw : jval) (param : ProcessParameter) : result bind_error jval :=
  match p_type param with
  | p_number =>
      match raw with
      | JNum n => if isFinite n then Ok raw else Err (p_name param, NotNumber)
      | _ =>
          let s := trimmed raw in
          match read_decimal (chars s) with
          | None => Err (p_name param, NotNumber)
          | Some _ => let n := string_number s in
                      if isFinite n then Ok (JNum n) else Err (p_name param, NotFinite)
          end
      end
  | p_date =>
      let s := trimmed raw in
      if negb (iso_shape s) || is_nan (Date_parse s) then Err (p_name param, NotDate) else Ok (JStr s)
  | p_string => Ok (match raw with JStr _ => raw | _ => JStr (js_string num_text raw) end)
  end.

(** The constraint of a name, when there is one. *)
Definition constrained (constraints : list (string * ParamConstraint)) (value : jval) (name : string)
    : result bind_error unit :=
  match jm_get constraints name with Some c => applyConstraint value c name | None => Ok tt end.

(** One pass of the loop: what is bound, if anything. *)
Definition bind_one (given : context) (requireAll : bool) (constraints : list (string * ParamConstraint))
    (param : ProcessParameter) : result bind_error (option jval) :=
  let raw := default JUndef (jm_get given (p_name param)) in
  if is_nullish raw then
    if is_nullish (p_defaultValue param) then
      if requireAll then Err (p_name param, Missing) else Ok None
    else constrained constraints (p_defaultValue param) (p_name param) ≫= fun _ => Ok (Some (p_defaultValue param))
  else
    coerceParam raw param ≫= fun v => constrained constraints v (p_name param) ≫= fun _ => Ok (Some v).

Fixpoint bind_all (given : context) (requireAll : bool) (constraints : list (string * ParamConstraint))
    (schema : list ProcessParameter) (out : context) : result bind_error context :=
  match schema with
  | [] => Ok out
  | param :: schema' =>
      bind_one given requireAll constraints param ≫= fun v =>
      bind_all given requireAll constraints schema' (match v with Some v => jm_set out (p_name param) v | None => out end)
  end.

(** @src src/src/orchestrator/workflow-params.ts 8-67 bindWorkflowParameters *)
Definition bindWorkflowParameters (schema : list ProcessParameter) (supplied : option context)
    (requireAll : option bool) (constraints : list (string * ParamConstraint)) : result bind_error context :=
  bind_all (default [] supplied) (default true requireAll) constraints schema [].

(** ** What a bound value satisfies *)

Record satisfies (c : ParamConstraint) (v : jval) : Prop := {
  sat_enum : forall es, c_enum c = Some es -> exists e, e ∈ es /\ strict_eq e v = true;
  sat_regex : forall source, c_regex c = Some source -> exists re,
    RegExp (anchored source) = Some re /\ re (js_string num_text v) = true /\
    (Z.of_nat (length (chars (js_string num_text v))) <= 8192)%Z;
  sat_min : forall m, c_min c = Some m -> exists q, v = JNum (Fin q) /\ (Fin q <? m)%num = false;
  sat_max : forall m, c_max c = Some m -> exists q, v = JNum (Fin q) /\ (m <? Fin q)%num = false }.

Lemma applyConstraint_iff v c name : applyConstraint v c name = Ok tt <-> satisfies c v.
Proof.
  unfold applyConstraint. rewrite bind_Ok. split.
  - intros ([] & He & H). apply bind_Ok in H as ([] & Hr & Hb). split.
    + intros es E. unfold check_enum in He. rewrite E in He. destruct (existsb _ es) eqn:Ex; [|done].
      apply existsb_exists in Ex as (e & ? & ?). exists e. by rewrite list_elem_of_In.
    + intros src E. unfold check_regex in Hr. rewrite E in Hr. destruct (RegExp _) as [re|] eqn:Ere; [|done].
      destruct (Z.ltb_spec 8192 (Z.of_nat (length (chars (js_string num_text v))))); [done|]. destruct (re _) eqn:Em; [|done]. eauto.
    + intros m E. unfold check_bounds in Hb. rewrite E in Hb. destruct v as [| | |[| | |q]| | | | |]; try done.
      destruct (Fin q <? m)%num eqn:?; [done|]. eauto.
    + intros m E. unfold check_bounds in Hb. rewrite E in Hb.
      destruct v as [| | |[| | |q]| | | | |]; try (by destruct (c_min c)).
      destruct (c_min c) as [lo|]; [destruct (Fin q <? lo)%num; [done|]|]; destruct (m <? Fin q)%num eqn:?; eauto; done.
  - intros [He Hr Hlo Hhi]. exists tt. split.
    { unfold check_enum. destruct (c_enum c) as [es|]; [|done]. destruct (He es eq_refl) as (e & ? & ?).
      assert (existsb (fun e => strict_eq e v) es = true) as ->; [|done].
      apply existsb_exists. exists e. by rewrite <-list_elem_of_In. }
    apply bind_Ok. exists tt. split.
    { unfold check_regex. destruct (c_regex c) as [src|]; [|done]. destruct (Hr src eq_refl) as (re & -> & Hm & Hl).
      destruct (Z.ltb_spec 8192 (Z.of_nat (length (chars (js_string num_text v))))); [lia|]. by rewrite Hm. }
    unfold check_bounds. destruct (c_min c) as [lo|], (c_max c) as [hi|]; try done;
      try (destruct (Hlo lo eq_refl) as (q & -> & ->)); try (destruct (Hhi hi eq_refl) as (q' & Eq & Hq));
      simplify_eq; rewrite ?Hq; done.
Qed.

Lemma constrained_iff cs v name :
  constrained cs v name = Ok tt <-> forall c, jm_get cs name = Some c -> satisfies c v.
Proof.
  unfold constrained. destruct (jm_get cs name) as [c|]; [rewrite applyConstraint_iff|]; naive_solver.
Qed.

(** The declared type, for a value a caller supplied. *)
Definition has_type (p : ProcessParameter) (v : jval) : Prop :=
  match p_type p with
  | p_number => exists q, v = JNum (Fin q)
  | p_date => exists s, v = JStr s /\ iso_shape s = true /\ Date_parse s <> NaN
  | p_string => exists s, v = JStr s
  end.

Lemma coerceParam_type raw p v : coerceParam raw p = Ok v -> has_type p v.
Proof.
  unfold coerceParam, has_type. destruct (p_type p).
  - destruct raw; intros; simplify_eq; eauto.
  - assert (forall n name v, (if isFinite n then Ok (JNum n) else Err (name, NotFinite)) = @Ok bind_error _ v ->
      exists q, v = JNum (Fin q)) as Hn by (intros [] ? ?; cbn; intros; simplify_eq; eauto).
    destruct raw as [| | |n| | | | |]; cbn zeta; try (destruct (read_decimal _); [apply Hn|done]).
    destruct n; cbn; intros; simplify_eq; eauto.
  - destruct (iso_shape _) eqn:E; cbn; [|done]. destruct (Date_parse _) eqn:Ed; cbn; intros; simplify_eq;
      eexists; (split_and!; [done..|congruence]).
Qed.

(** What one parameter's bound value came from. *)
Definition governed (given : context) (cs : list (string * ParamConstraint)) (p : ProcessParameter) (v : jval) : Prop :=
  (forall c, jm_get cs (p_name p) = Some c -> satisfies c v) /\
  ((exists raw, jm_get given (p_name p) = Some raw /\ coerceParam raw p = Ok v /\ has_type p v) \/
   (is_nullish (default JUndef (jm_get given (p_name p))) = true /\ v = p_defaultValue p)).

Lemma bind_one_governed given ra cs p v : bind_one given ra cs p = Ok (Some v) -> governed given cs p v.
Proof.
  unfold bind_one, governed. destruct (is_nullish (default JUndef _)) eqn:En.
  - destruct (is_nullish (p_defaultValue p)); [by destruct ra|].
    intros ([] & Hc & [= <-])%bind_Ok. rewrite constrained_iff in Hc. eauto.
  - intros (w & Hw & H)%bind_Ok. apply bind_Ok in H as ([] & Hc & [= <-]). rewrite constrained_iff in Hc.
    split; [done|]. left. destruct (jm_get given (p_name p)) as [raw|]; [|done]. eauto using coerceParam_type.
Qed.

Lemma bind_all_governed given ra cs schema out out' k v :
  bind_all given ra cs schema out = Ok out' -> jm_get out' k = Some v ->
  jm_get out k = Some v \/ exists p, p ∈ schema /\ p_name p = k /\ governed given cs p v.
Proof.
  revert out. induction schema as [|p schema IH]; intros out; cbn [bind_all]; [intros [= ->]; auto|].
  intros (w & Hw & H)%bind_Ok Hk. destruct (IH _ H Hk) as [Ho|(p' & ? & ? & ?)].
  - destruct w as [w|]; [|auto]. rewrite jm_get_set in Ho. case_decide; [|auto]. simplify_eq.
    right. exists p. split_and!; [by left|done|by eapply bind_one_governed].
  - right. exists p'. split_and!; [by right|done..].
Qed.

Lemma bind_all_keys given cs schema out out' :
  bind_all given true cs schema out = Ok out' ->
  (forall k, k ∈ jm_keys out -> k ∈ jm_keys out') /\ (forall p, p ∈ schema -> p_name p ∈ jm_keys out').
Proof.
  revert out. induction schema as [|p schema IH]; intros out; cbn [bind_all]; [intros [= ->]; set_solver|].
  intros (w & Hw & H)%bind_Ok. destruct (IH _ H) as [H1 H2].
  assert (exists v, w = Some v) as [v ->].
  { unfold bind_one in Hw. destruct (is_nullish _); [destruct (is_nullish _); [done|]|];
      repeat (apply bind_Ok in Hw as (? & _ & Hw)); simplify_eq; eauto. }
  assert (forall k, k ∈ jm_keys out \/ k = p_name p -> k ∈ jm_keys out') as H3.
  { intros k Hk. apply H1. rewrite jm_keys_set. case_decide; set_solver. }
  split; [auto|]. intros p' [->|?]%elem_of_cons; auto.
Qed.

(** C40. Binding governs everything that reaches a run's parameters: each bound name is declared by the
    workflow, its value satisfies the contract's constraint for that name (exact membership, a full
    match of at most 8192 characters, a finite number within the bounds), also when it is the stored
    default, and a supplied value has the declared type; with all parameters required, a successful
    binding binds every one. *)
Theorem bound_params_are_governed schema supplied requireAll constraints out :
  bindWorkflowParameters schema supplied requireAll constraints = Ok out ->
  (forall k v, jm_get out k = Some v ->
     exists p, p ∈ schema /\ p_name p = k /\ governed (default [] supplied) constraints p v) /\
  (default true requireAll = true -> forall p, p ∈ schema -> is_Some (jm_get out (p_name p))).
Proof.
  unfold bindWorkflowParameters. intros H. split.
  - intros k v Hk. by destruct (bind_all_governed _ _ _ _ _ _ _ _ H Hk) as [?|?].
  - intros Hr p Hp. rewrite Hr in H. apply jm_get_is_Some. by apply (bind_all_keys _ _ _ _ _ H).
Qed.
End Params.

Definition month : ProcessParameter := mkParam "month" p_number JNull.

Lemma bound_params_are_governed_witness :
  bindWorkflowParameters (fun _ => ""%string) (fun _ => None) (fun _ => NaN) [month]
    (Some [("month", JStr " 7 "); ("evil", JStr "x")])%string None
    [("month"%string, {| c_enum := None; c_regex := None; c_min := Some (num_of_Z 1); c_max := Some (num_of_Z 12) |})]
  = Ok [("month"%string, JNum (num_of_Z 7))] /\
  exists p, p ∈ [month] /\ p_name p = "month"%string.
Proof.
  split; [reflexivity|].
  destruct (proj1 (bound_params_are_governed (fun _ => ""%string) (fun _ => None) (fun _ => NaN) [month]
    (Some [("month", JStr " 7 "); ("evil", JStr "x")])%string None
    [("month"%string, {| c_enum := None; c_regex := None; c_min := Some (num_of_Z 1); c_max := Some (num_of_Z 12) |})]
    [("month"%string, JNum (num_of_Z 7))] eq_refl) "month"%string (JNum (num_of_Z 7)) eq_refl) as (p & H1 & H2 & _).
  exact (ex_intro _ p (conj H1 H2)).
Defined.
