(* ===== verification/ApprovalStore.v ===== *)
(** The approval queue's store, [core/approval-store.ts]: a mail that a run nobody watches wanted to
    send is filed, decided by its owner, claimed once by the executor and finished, or it expires.

    The table is the list of its rows in the order they were inserted; each method is one transaction, so a
    trace of operations is a list. A stored time is a number of milliseconds, [None] when the column is null
    or holds no time (only the store writes purge and tombstone times, so there [None] is null); the ISO
    texts the code compares sort like the times they stand for. A payload is its text when it decrypts, a
    result its JSON value when it decrypts and parses. Random ids, the hash under the instance's key,
    [JSON.parse] and the body's digest are arguments; the listener told of a filing is left out. *)
From S2P Require Import Prelude Num JsString JsValue Graph.
Open Scope Z_scope.

(** @src src/src/core/approval-store.ts 46-48 ApprovalKind *)
Inductive ApprovalKind : Set := mail_reply | mail_send.
(** @src src/src/core/approval-store.ts 50-51 ApprovalStatus *)
Inductive ApprovalStatus : Set :=
  pending | approved | executing | done_ | failed | unknown | rejected | expired.
#[export] Instance ApprovalKind_eq_dec : EqDecision ApprovalKind.
Proof. solve_decision. Defined.
#[export] Instance ApprovalStatus_eq_dec : EqDecision ApprovalStatus.
Proof. solve_decision. Defined.

(** @src src/src/core/approval-store.ts 58-68 ApprovalOrigin *)
Record ApprovalOrigin := { o_source : string; triggerId : string; runId : string; rootRunId : string;
  eventId : option string; origin_text : string }.

(** The fields of a payload that filing reads, and its JSON text. *)
(** @src src/src/core/approval-store.ts 75-112 MailReplyPayload *)
Record Payload := { accountId : string; to_ : list string; cc_ : list string; bcc_ : list string; subject : string;
  bodyText : string; originalMessageId : option string; originalFolderUid : string; payload_text : string }.
(** @src src/src/core/approval-store.ts 121-123 ApprovalFiling *)
Record ApprovalFiling := { f_kind : ApprovalKind; f_payload : Payload }.

(** What is written once, at filing. *)
Record Filed := { id : string; kind : ApprovalKind; origin_json : string; dedup_key : string;
  family_key : option string; checksum : string; keyed : bool; created_by : option string;
  mandate_id : option string; created_at : Z; expires_at : option Z }.
(** What the decision, the executor and the sweep write. *)
Record Life := { status : ApprovalStatus; held_reason : option string; held_at : option Z;
  decided_at : option Z; decided_by : option string; decided_reason : option string;
  claimed_at : option Z; executed_at : option Z; attempts : Z; result_json : option (option jval);
  purge_after : option Z; tombstoned_at : option Z }.
(** @src src/src/core/approval-store.ts 248-271 ApprovalDbRow *)
Record Row := { filed : Filed; payload_json : option string; life : Life }.

(** @src src/src/core/approval-store.ts 190-190 APPROVAL_TTL_MS *)
Definition APPROVAL_TTL_MS : Z := 72 * 60 * 60000.
(** @src src/src/core/approval-store.ts 191-192 APPROVAL_CLAIM_WINDOW_MS *)
Definition APPROVAL_CLAIM_WINDOW_MS : Z := 60 * 60000.
(** @src src/src/core/approval-store.ts 193-194 APPROVAL_CLAIM_STALE_MS *)
Definition APPROVAL_CLAIM_STALE_MS : Z := 15 * 60000.
(** @src src/src/core/approval-store.ts 195-195 APPROVAL_PURGE_AFTER_MS *)
Definition APPROVAL_PURGE_AFTER_MS : Z := 30 * 24 * 60 * 60000.
(** @src src/src/core/approval-store.ts 196-197 APPROVAL_MAX_ATTEMPTS *)
Definition APPROVAL_MAX_ATTEMPTS : Z := 3.
(** @src src/src/core/approval-store.ts 234-238 APPROVAL_DEDUP_WINDOW_MS *)
Definition APPROVAL_DEDUP_WINDOW_MS (k : ApprovalKind) : Z :=
  match k with mail_reply => 14 * 24 * 60 * 60000 | mail_send => 24 * 60 * 60000 end.
(** @src src/src/core/approval-store.ts 226-227 APPROVAL_MAX_BODY_BYTES *)
Definition APPROVAL_MAX_BODY_BYTES : Z := 64 * 1024.
(** @src src/src/core/approval-store.ts 228-230 APPROVAL_MAX_PAYLOAD_BYTES *)
Definition APPROVAL_MAX_PAYLOAD_BYTES : Z := 96 * 1024.
(** @src src/src/core/approval-store.ts 231-233 APPROVAL_RETRY_DELAY_MS *)
Definition APPROVAL_RETRY_DELAY_MS : Z := 60000.

(** [Buffer.byteLength(s, 'utf8')]. *)
Definition utf8_length (s : string) : Z :=
  foldl (fun n c => n + (if code c <? 128 then 1 else 2)) 0 (chars s).

(** @src src/src/core/approval-store.ts 240-240 ACTIVE_STATUSES *)
Definition active (s : ApprovalStatus) : bool :=
  match s with pending | approved | executing | unknown => true | _ => false end.

(** [!(Date.parse(stored ?? '') > now)]. *)
(** @src src/src/core/approval-store.ts 275-277 reached *)
Definition reached (stored : option Z) (now : Z) : bool :=
  negb match stored with Some t => now <? t | None => false end.

(** [a > ?] in SQL: false on null. *)
Definition later (stored : option Z) (than : Z) : bool :=
  match stored with Some t => than <? t | None => false end.

(** ** The keys of a filing *)

Definition json_strings (l : list jval) : string :=
  default ""%string (stringify (fun _ => ""%string) (JArr l)).

(** @src src/src/core/approval-store.ts 279-283 recipientList *)
Definition recipientList (lists : list (list string)) : list string :=
  js_sort (js_set_of ((fun a => trim (toLowerCase a)) <$> mjoin lists)).

(** @src src/src/core/approval-store.ts 285-286 comparableSubject *)
Definition comparableSubject (s : string) : string := toLowerCase (trim s).

Section Store.
(** The hash under the instance's key, whether there is one, the digest of a body, [JSON.parse]. *)
Variable keyedHash : list string -> string.
Variable hashIsKeyed : bool.
Variable sha256 : string -> string.
Variable JSON_parse : string -> option jval.

(** @src src/src/core/approval-store.ts 288-309 approvalKeys *)
Definition approvalKeys (filing : ApprovalFiling) (origin : ApprovalOrigin) : string * option string :=
  let p := f_payload filing in
  match f_kind filing with
  | mail_reply =>
      let message := match originalMessageId p with
        | Some m => if bool_decide (m = ""%string) then originalFolderUid p else m
        | None => originalFolderUid p end in
      (json_strings [JStr "mail_reply"; JStr (accountId p); JStr message], None)
  | mail_send =>
      let recipients := JArr (JStr <$> recipientList [to_ p; cc_ p; bcc_ p]) in
      let subj := JStr (comparableSubject (subject p)) in
      let event := default (runId origin) (eventId origin) in
      (json_strings [JStr "mail_send"; JStr event; recipients; subj; JStr (sha256 (bodyText p))],
       Some (json_strings [JStr "mail_send"; JStr (accountId p); recipients; subj]))
  end.

(** ** What is stored, read back *)

(** @src src/src/core/approval-store.ts 311-311 isString *)
Definition is_string (v : jval) : bool := match v with JStr _ => true | _ => false end.
(** @src src/src/core/approval-store.ts 312-312 isOptionalString *)
Definition is_optional_string (v : jval) : bool := match v with JUndef | JStr _ => true | _ => false end.
(** @src src/src/core/approval-store.ts 313-313 isStringList *)
Definition is_string_list (v : jval) : bool := match v with JArr l => forallb is_string l | _ => false end.

(** @src src/src/core/approval-store.ts 315-321 isAddressList *)
Definition isAddressList (v : jval) : bool :=
  match v with
  | JArr l => forallb (fun a => is_object a && is_string (js_prop a "address") && is_optional_string (js_prop a "name")) l
  | _ => false
  end.

(** @src src/src/core/approval-store.ts 53-56 KNOWN_SOURCES *)
Definition known_source (s : string) : bool := bool_decide (s ∈ ["workflow"; "task"; "webhook"]%string).

(** @src src/src/core/approval-store.ts 323-328 originIsComplete *)
Definition originIsComplete (source trigger run root : string) (event : option string) : bool :=
  known_source source && negb (bool_decide (trigger = ""%string)) && negb (bool_decide (run = ""%string)) &&
  negb (bool_decide (root = ""%string)) && negb (bool_decide (event = Some ""%string)).

(** The trigger of a stored origin this engine knows. *)
(** @src src/src/core/approval-store.ts 330-341 readOrigin *)
Definition readOrigin (json : string) : option jval :=
  match JSON_parse json with
  | Some o =>
      if negb (is_object o) then None
      else match js_prop o "source", js_prop o "triggerId", js_prop o "runId", js_prop o "rootRunId" with
      | JStr s, JStr t, JStr r, JStr rr =>
          if negb (is_optional_string (js_prop o "eventId")) || negb (is_optional_string (js_prop o "threadId")) then None
          else if match js_prop o "afterUntrusted" with JUndef | JBool _ => false | _ => true end then None
          else if originIsComplete s t r rr (match js_prop o "eventId" with JStr e => Some e | _ => None end)
               then Some o else None
      | _, _, _, _ => None
      end
  | None => None
  end.

(** @src src/src/core/approval-store.ts 343-343 FOLLOWUP_TYPES *)
Definition is_followup_type (v : jval) : bool :=
  match v with JStr s => bool_decide (s ∈ ["awaiting_reply"; "user_deliverable"; "custom"]%string) | _ => false end.

(** @src src/src/core/approval-store.ts 345-352 isFollowup *)
Definition isFollowup (v : jval) : bool :=
  match v with
  | JNull => true
  | _ => is_object v && match js_prop v "reminder_in_days" with JNum _ => true | _ => false end &&
         is_string (js_prop v "reason") &&
         (is_undef (js_prop v "type") || is_followup_type (js_prop v "type"))
  end.

(** The follow-up a filing stores for what the model wrote. *)
(** @src src/src/core/approval-store.ts 354-369 approvalFollowup *)
Definition approvalFollowup (v : jval) : jval :=
  if negb (is_object v) then JNull
  else match js_prop v "reminder_in_days", js_prop v "reason" with
  | JNum days, JStr reason =>
      JObj ([("reminder_in_days", JNum days); ("reason", JStr reason)]%string ++
            (if is_followup_type (js_prop v "type") then [("type"%string, js_prop v "type")] else []))
  | _, _ => JNull
  end.

(** Whether a stored payload parses and fits its kind. *)
(** @src src/src/core/approval-store.ts 371-396 readFiling *)
Definition readFiling (k : ApprovalKind) (json : option string) : bool :=
  match json ≫= JSON_parse with
  | None => false
  | Some p =>
      is_object p && is_string (js_prop p "accountId") && is_string (js_prop p "fromAddress") &&
      isAddressList (js_prop p "to") && isAddressList (js_prop p "cc") &&
      is_string (js_prop p "subject") && is_string (js_prop p "bodyText") &&
      match k with
      | mail_reply =>
          is_string (js_prop p "originalThreadKey") && is_string (js_prop p "originalFolderUid") &&
          forallb (fun f => is_optional_string (js_prop p f))
            ["inReplyTo"; "references"; "originalMessageId"; "persona"; "readAccountId"]%string &&
          (let r := js_prop p "original" in
           is_object r && is_string (js_prop r "from") && is_string_list (js_prop r "to") &&
           is_string_list (js_prop r "cc") && is_string (js_prop r "subject") && is_string (js_prop r "date") &&
           (is_undef (js_prop r "replyTo") || is_string_list (js_prop r "replyTo")))
      | mail_send => isAddressList (js_prop p "bcc") && isFollowup (js_prop p "trackFollowup")
      end
  end.

(** [toEntry(r).executable]. *)
(** @src src/src/core/approval-store.ts 605-636 toEntry *)
Definition is_executable (r : Row) : bool :=
  readFiling (kind (filed r)) (payload_json r) && bool_decide (is_Some (readOrigin (origin_json (filed r)))).

Definition kind_text (k : ApprovalKind) : string :=
  match k with mail_reply => "mail_reply" | mail_send => "mail_send" end.

(** @src src/src/core/approval-store.ts 506-508 checksumOf *)
Definition checksumOf (k : ApprovalKind) (payloadJson originJson : string) : string :=
  keyedHash ["approval-entry-v1"; kind_text k; payloadJson; originJson]%string.
(** @src src/src/core/approval-store.ts 510-512 storedKey *)
Definition storedKey (plain : string) : string := keyedHash ["approval-dedup-v1"; plain]%string.

(** ** The table *)

Abbreviation Table := (list Row).
Definition row_id (r : Row) : string := id (filed r).
Definition row_status (r : Row) : ApprovalStatus := status (life r).
Definition find_row (t : Table) (i : string) : option Row := snd <$> list_find (fun r => row_id r = i) t.

(** [UPDATE ... WHERE id = ? AND status = ?]: the table and whether a row changed. *)
Definition update_where (i : string) (s : ApprovalStatus) (f : Row -> Row) (t : Table) : Table * bool :=
  ((fun r => if decide (row_id r = i /\ row_status r = s) then f r else r) <$> t,
   existsb (fun r => bool_decide (row_id r = i /\ row_status r = s)) t).
(** [DELETE ... WHERE]. *)
Definition delete_where (p : Row -> bool) (t : Table) : Table := filter (fun r => p r = false) t.

(** ** Filing *)

(** @src src/src/core/approval-store.ts 136-153 FileResult *)
Inductive FileResult :=
| FiledAs (i : string)
| Duplicate_waiting (existing : string) | Duplicate_unknown (existing : string) | Duplicate_sent (existing : string)
| Duplicate_discarded (existing : string) | Duplicate_family_open (existing : string)
| InvalidOrigin | Flood (n : Z) | TooLarge.

(** The newest of the rows (the first inserted of equally new ones). *)
Fixpoint newest (l : list Row) : option Row :=
  match l with
  | [] => None
  | r :: l' => match newest l' with
               | Some r' => if created_at (filed r) <? created_at (filed r') then Some r' else Some r
               | None => Some r
               end
  end.

(** [ORDER BY status = 'unknown' DESC, created_at DESC LIMIT 1]. *)
(** @src src/src/core/approval-store.ts 557-562 fileEntry *)
Definition family_first (l : list Row) : option Row :=
  match newest (filter (fun r => row_status r = unknown) l) with
  | Some r => Some r
  | None => newest l
  end.

(** @src src/src/core/approval-store.ts 551-574 fileEntry *)
Definition duplicate (t : Table) (k : ApprovalKind) (dedupKey : string) (familyKey : option string) (now : Z)
    : option FileResult :=
  let windowStart := now - APPROVAL_DEDUP_WINDOW_MS k in
  match list_find (fun r => dedup_key (filed r) = dedupKey /\ active (row_status r) = true) t with
  | Some (_, r) => Some (if decide (row_status r = unknown) then Duplicate_unknown (row_id r) else Duplicate_waiting (row_id r))
  | None =>
      match (familyKey ≫= fun f => family_first (filter (fun r => family_key (filed r) = Some f /\ active (row_status r) = true) t)) with
      | Some r => Some (if decide (row_status r = unknown) then Duplicate_unknown (row_id r) else Duplicate_family_open (row_id r))
      | None =>
          let same r := match familyKey with
            | Some f => bool_decide (family_key (filed r) = Some f)
            | None => bool_decide (dedup_key (filed r) = dedupKey) end in
          match newest (filter (fun r => same r = true /\
            (row_status r = done_ /\ later (executed_at (life r)) windowStart = true \/
             row_status r = rejected /\ later (decided_at (life r)) windowStart = true /\
               decided_reason (life r) <> Some "cleared_unknown"%string)) t) with
          | Some r => Some (if decide (row_status r = done_) then Duplicate_sent (row_id r) else Duplicate_discarded (row_id r))
          | None => None
          end
      end
  end.

(** [json_extract(origin_json, '$.triggerId')]. *)
(** @src src/src/core/approval-store.ts 581-584 fileEntry *)
Definition stored_trigger (r : Row) : jval :=
  match JSON_parse (origin_json (filed r)) with Some o => js_prop o "triggerId" | None => JUndef end.

(** @src src/src/core/approval-store.ts 125-134 FileApprovalInput *)
Record FileApprovalInput := { filing : ApprovalFiling; origin : ApprovalOrigin; createdBy : option string;
  mandateId : option string; maxPendingPerTrigger : option Z }.

Definition fresh_life : Life :=
  {| status := pending; held_reason := None; held_at := None; decided_at := None; decided_by := None;
     decided_reason := None; claimed_at := None; executed_at := None; attempts := 0; result_json := None;
     purge_after := None; tombstoned_at := None |}.

(** @src src/src/core/approval-store.ts 590-601 fileEntry *)
Definition new_row (i : string) (inp : FileApprovalInput) (now : Z) : Row :=
  let f := filing inp in
  let keys := approvalKeys f (origin inp) in
  {| filed := {| id := i; kind := f_kind f; origin_json := origin_text (origin inp); dedup_key := storedKey keys.1;
       family_key := storedKey <$> keys.2;
       checksum := checksumOf (f_kind f) (payload_text (f_payload f)) (origin_text (origin inp));
       keyed := hashIsKeyed; created_by := createdBy inp; mandate_id := mandateId inp;
       created_at := now; expires_at := Some (now + APPROVAL_TTL_MS) |};
     payload_json := Some (payload_text (f_payload f)); life := fresh_life |}.

(** [i] is the random id. *)
(** @src src/src/core/approval-store.ts 538-603 fileEntry *)
Definition file (t : Table) (i : string) (inp : FileApprovalInput) (now : Z) : Table * FileResult :=
  let f := filing inp in
  let o := origin inp in
  if negb (originIsComplete (o_source o) (triggerId o) (runId o) (rootRunId o) (eventId o)) then (t, InvalidOrigin)
  else if APPROVAL_MAX_BODY_BYTES <? utf8_length (bodyText (f_payload f)) then (t, TooLarge)
  else if APPROVAL_MAX_PAYLOAD_BYTES <? utf8_length (payload_text (f_payload f)) then (t, TooLarge)
  else
    let r := new_row i inp now in
    match duplicate t (f_kind f) (dedup_key (filed r)) (family_key (filed r)) now with
    | Some refused => (t, refused)
    | None =>
        let n := Z.of_nat (length (filter (fun r => row_status r = pending /\
          match stored_trigger r with JStr s => bool_decide (s = triggerId o) | _ => false end = true) t)) in
        if match maxPendingPerTrigger inp with Some m => m <=? n | None => false end then (t, Flood n)
        else (t ++ [r], FiledAs i)
    end.

(** ** Reading *)

(** @src src/src/core/approval-store.ts 689-700 checksumMatches *)
Definition checksumMatches (t : Table) (i : string) : bool :=
  match find_row t i with
  | Some r => match payload_json r with
              | Some p => bool_decide (checksumOf (kind (filed r)) p (origin_json (filed r)) = checksum (filed r))
              | None => false
              end
  | None => false
  end.

(** @src src/src/core/approval-store.ts 446-456 ApprovalListScope *)
Inductive ApprovalListScope := AllEntries | OfGrant (grant : string) | OwnerOnly.

(** [Err] is the throw for an empty grant id. *)
(** @src src/src/core/approval-store.ts 465-477 pushScopeFilter *)
Definition in_scope (scope : ApprovalListScope) : result string (Row -> bool) :=
  match scope with
  | AllEntries => Ok (fun _ => true)
  | OwnerOnly => Ok (fun r => bool_decide (mandate_id (filed r) = None))
  | OfGrant g => if bool_decide (g = ""%string) then Err "approval list: a grant scope needs a grant id"%string
                 else Ok (fun r => bool_decide (mandate_id (filed r) = Some g))
  end.

(** [ORDER BY created_at DESC, id ASC]. *)
Definition listed_before (a b : Row) : Prop :=
  created_at (filed b) < created_at (filed a) \/
  created_at (filed a) = created_at (filed b) /\ str_le (row_id a) (row_id b).
#[export] Instance listed_before_dec : RelDecision listed_before.
Proof. intros a b. unfold listed_before. apply _. Defined.

(** @src src/src/core/approval-store.ts 643-649 listByDedupKey *)
Definition listByDedupKey (t : Table) (plain : string) : list Row :=
  merge_sort listed_before (filter (fun r => dedup_key (filed r) = storedKey plain) t).

(** @src src/src/core/approval-store.ts 443-444 APPROVAL_LIST_LIMIT *)
Definition APPROVAL_LIST_LIMIT : Z := 200.

(** @src src/src/core/approval-store.ts 651-668 list *)
Definition list_entries (t : Table) (open_only : bool) (scope : ApprovalListScope) (limit : option num)
    : result string (list Row) :=
  sc ← in_scope scope;
  let asked := match limit with
    | Some (Fin q) => Qtrunc q
    | _ => APPROVAL_LIST_LIMIT end in
  let n := Z.min (Z.max asked 1) APPROVAL_LIST_LIMIT in
  Ok (take (Z.to_nat n) (merge_sort listed_before
        (filter (fun r => (if open_only then active (row_status r) else true) && sc r = true) t))).

(** @src src/src/core/approval-store.ts 680-687 countPending *)
Definition countPending (t : Table) (scope : ApprovalListScope) : result string nat :=
  sc ← in_scope scope; Ok (length (filter (fun r => row_status r = pending /\ sc r = true) t)).

(** ** Deciding *)

Definition with_life (r : Row) (l : Life) : Row := {| filed := filed r; payload_json := payload_json r; life := l |}.

(** The columns a decision writes. *)
(** @src src/src/core/approval-store.ts 719-740 decide *)
Definition decided (s : ApprovalStatus) (now : Z) (by_ : string) (reason : option string) (purge : option Z) (r : Row) : Row :=
  let l := life r in
  with_life r {| status := s; held_reason := held_reason l; held_at := held_at l; decided_at := Some now;
    decided_by := Some by_; decided_reason := reason; claimed_at := claimed_at l; executed_at := executed_at l;
    attempts := attempts l; result_json := result_json l; purge_after := purge; tombstoned_at := tombstoned_at l |}.

(** @src src/src/core/approval-store.ts 398-403 DecideAction *)
Inductive DecideAction :=
| Approve (shown : string)
| Reject (reason : string)
| ClearUnknown.

(** @src src/src/core/approval-store.ts 405-407 DecideResult *)
Inductive DecideResult := DecideOk | NotFound | NotPending | NotUnknown | Expired | Checksum | NotExecutable.

(** @src src/src/core/approval-store.ts 702-742 decide *)
Definition decide_entry (t : Table) (i : string) (decision : DecideAction) (by_ : string) (now : Z) : Table * DecideResult :=
  match find_row t i with
  | None => (t, NotFound)
  | Some r =>
      match decision with
      | ClearUnknown =>
          if bool_decide (is_Some (tombstoned_at (life r))) then
            let gone r := bool_decide (row_id r = i /\ row_status r = unknown) in
            if existsb gone t then (delete_where gone t, DecideOk) else (t, NotUnknown)
          else
            let '(t', changed) := update_where i unknown
              (decided rejected now by_ (Some "cleared_unknown"%string) (Some (now + APPROVAL_PURGE_AFTER_MS))) t in
            (t', if changed then DecideOk else NotUnknown)
      | Reject reason =>
          if negb (bool_decide (row_status r = pending)) then (t, NotPending)
          else
            let '(t', changed) := update_where i pending
              (decided rejected now by_ (Some reason) (Some (now + APPROVAL_PURGE_AFTER_MS))) t in
            (t', if changed then DecideOk else NotPending)
      | Approve shown =>
          if negb (bool_decide (row_status r = pending)) then (t, NotPending)
          else if reached (expires_at (filed r)) now then (t, Expired)
          else if negb (is_executable r) then (t, NotExecutable)
          else if negb (bool_decide (shown = checksum (filed r))) || negb (checksumMatches t i) then (t, Checksum)
          else
            let '(t', changed) := update_where i pending
              (fun r => decided approved now by_ None (purge_after (life r)) r) t in
            (t', if changed then DecideOk else NotPending)
      end
  end.

(** ** Holding, claiming, finishing *)

(** @src src/src/core/approval-store.ts 747-749 hold *)
Definition held (reason : string) (now : Z) (r : Row) : Row :=
  let l := life r in
  with_life r {| status := status l; held_reason := Some reason; held_at := Some now; decided_at := decided_at l;
    decided_by := decided_by l; decided_reason := decided_reason l; claimed_at := claimed_at l;
    executed_at := executed_at l; attempts := attempts l; result_json := result_json l;
    purge_after := purge_after l; tombstoned_at := tombstoned_at l |}.

(** @src src/src/core/approval-store.ts 744-750 hold *)
Definition hold (t : Table) (i reason : string) (now : Z) : Table * bool := update_where i approved (held reason now) t.

(** @src src/src/core/approval-store.ts 772-784 holdKind *)
Definition holdKind (t : Table) (k : ApprovalKind) (now : Z) : Table * nat :=
  let open_ := filter (fun r => row_status r = approved /\ kind (filed r) = k /\ held_reason (life r) = None) t in
  foldl (fun acc r =>
    if reached (expires_at (filed r)) now then acc
    else let '(t', changed) := hold acc.1 (row_id r) "send_limit" now in (t', if changed then S acc.2 else acc.2))
    (t, 0%nat) open_.

(** [ORDER BY decided_at ASC, id ASC]; null sorts first. *)
Definition approved_before (a b : Row) : Prop :=
  match decided_at (life a), decided_at (life b) with
  | None, None => str_le (row_id a) (row_id b)
  | None, Some _ => True
  | Some _, None => False
  | Some x, Some y => x < y \/ x = y /\ str_le (row_id a) (row_id b)
  end.
#[export] Instance approved_before_dec : RelDecision approved_before.
Proof. intros a b. unfold approved_before. destruct (decided_at (life a)), (decided_at (life b)); apply _. Defined.

(** @src src/src/core/approval-store.ts 764-769 executable *)
Definition may_try (retryBefore : Z) (r : Row) : bool :=
  match held_reason (life r) with
  | None => true
  | Some h => bool_decide (h = "send_limit"%string) ||
              bool_decide (h = "retry"%string) && match held_at (life r) with Some a => a <=? retryBefore | None => false end
  end.

(** @src src/src/core/approval-store.ts 752-770 executable *)
Definition executable (t : Table) (now : Z) (limit : nat) (retryDelayMs : Z) (skip : list ApprovalKind) : list (string * ApprovalKind) :=
  take limit ((fun r => (row_id r, kind (filed r))) <$> merge_sort approved_before
    (filter (fun r => row_status r = approved /\ kind (filed r) ∉ skip /\ may_try (now - retryDelayMs) r = true) t)).

(** @src src/src/core/approval-store.ts 409-413 ClaimResult *)
Inductive ClaimResult := Claimed (r : Row) | NotClaimable | ClaimExpired | ClaimNotExecutable | ClaimHeld.

(** @src src/src/core/approval-store.ts 805-808 claim *)
Definition claimed (now : Z) (r : Row) : Row :=
  let l := life r in
  with_life r {| status := executing; held_reason := None; held_at := None; decided_at := decided_at l;
    decided_by := decided_by l; decided_reason := decided_reason l; claimed_at := Some now;
    executed_at := executed_at l; attempts := attempts l + 1; result_json := result_json l;
    purge_after := purge_after l; tombstoned_at := tombstoned_at l |}.

(** The entries of a kind claimed after a time, in [executing], [done] or [unknown]. *)
Definition counts_as_sent (s : ApprovalStatus) : bool :=
  match s with executing | done_ | unknown => true | _ => false end.
(** @src src/src/core/approval-store.ts 795-798 claim *)
Definition claimed_since (t : Table) (k : ApprovalKind) (from : Z) : nat :=
  length (filter (fun r => kind (filed r) = k /\ counts_as_sent (row_status r) = true /\ later (claimed_at (life r)) from = true) t).

Definition HOUR : Z := 60 * 60000.
Definition DAY : Z := 24 * 60 * 60000.

(** [cap] is [admits] on the hour's and the day's count. *)
(** @src src/src/core/approval-store.ts 786-813 claim *)
Definition claim (t : Table) (i : string) (now : Z) (cap : option (nat -> nat -> bool)) : Table * ClaimResult :=
  match find_row t i with
  | None => (t, NotClaimable)
  | Some r =>
      if negb (bool_decide (row_status r = approved)) then (t, NotClaimable)
      else if reached (expires_at (filed r)) now then (t, ClaimExpired)
      else if negb (is_executable r) then (t, ClaimNotExecutable)
      else if match cap with
              | Some admits => negb (admits (claimed_since t (kind (filed r)) (now - HOUR))
                                            (claimed_since t (kind (filed r)) (now - DAY)))
              | None => false end
      then ((update_where i approved (held "send_limit" now) t).1, ClaimHeld)
      else
        let '(t', changed) := update_where i approved (claimed now) t in
        if negb changed then (t', NotClaimable)
        else (t', match find_row t' i with Some r' => Claimed r' | None => NotClaimable end)
  end.

(** @src src/src/core/approval-store.ts 424-426 FinishOutcome *)
Inductive FinishOutcome := f_done | f_failed | f_unknown | f_retry.

(** @src src/src/core/approval-store.ts 199-208 approvalResultSawDedup *)
Definition approvalResultSawDedup (plain : option jval) : bool :=
  match plain with
  | Some v => is_object v && (match js_prop v "reason" with JStr s => bool_decide (s = "dedup_window"%string) | _ => false end
                              || match js_prop v "dedupSeen" with JBool true => true | _ => false end)
  | None => false
  end.

(** @src src/src/core/approval-store.ts 210-219 resultReadable *)
Definition resultReadable (plain : option jval) : bool := match plain with Some v => is_object v | None => false end.

(** [{ ...v }] of a parsed value. *)
Definition spread (v : jval) : list (string * jval) :=
  match v with
  | JObj fs => fs
  | JArr l => imap (fun i x => (int_text (Z.of_nat i), x)) l
  | _ => []
  end.

(** The result an attempt stores beside the one before. *)
(** @src src/src/core/approval-store.ts 221-225 dedupSeen *)
Definition stored_result (previous : option (option jval)) (result : jval) : jval :=
  let sawDedup := match previous with Some p => negb (resultReadable p) | None => false end
    || approvalResultSawDedup (mjoin previous) || approvalResultSawDedup (Some result) in
  if sawDedup then JObj (jm_set (spread result) "dedupSeen" (JBool true))
  else if is_undef result then JNull else result.

(** @src src/src/core/approval-store.ts 833-844 finish *)
Definition finished (s : ApprovalStatus) (retry : bool) (now : Z) (result : jval) (r : Row) : Row :=
  let l := life r in
  with_life r {| status := s; held_reason := if retry then Some "retry"%string else held_reason l;
    held_at := if retry then Some now else held_at l; decided_at := decided_at l; decided_by := decided_by l;
    decided_reason := decided_reason l; claimed_at := if retry then None else claimed_at l;
    executed_at := if retry then executed_at l else Some now; attempts := attempts l;
    result_json := Some (Some result);
    purge_after := if retry then purge_after l else Some (now + APPROVAL_PURGE_AFTER_MS);
    tombstoned_at := tombstoned_at l |}.

(** [None] is [null]: the entry was not executing. *)
(** @src src/src/core/approval-store.ts 815-846 finish *)
Definition finish (t : Table) (i : string) (outcome : FinishOutcome) (result : jval) (now : Z) : Table * option ApprovalStatus :=
  match find_row t i with
  | None => (t, None)
  | Some r =>
      if negb (bool_decide (row_status r = executing)) then (t, None)
      else
        let res := stored_result (result_json (life r)) result in
        match outcome with
        | f_retry =>
            if attempts (life r) <? APPROVAL_MAX_ATTEMPTS
            then ((update_where i executing (finished approved true now res) t).1, Some approved)
            else ((update_where i executing (finished failed false now res) t).1, Some failed)
        | f_done => ((update_where i executing (finished done_ false now res) t).1, Some done_)
        | f_failed => ((update_where i executing (finished failed false now res) t).1, Some failed)
        | f_unknown => ((update_where i executing (finished unknown false now res) t).1, Some unknown)
        end
  end.

(** ** The sweep *)

(** @src src/src/core/approval-store.ts 428-434 SweepInput *)
Record SweepInput := { engineStartedAt : Z; flagOn : bool }.

(** @src src/src/core/approval-store.ts 861-865 sweep *)
Definition swept (s : ApprovalStatus) (reason : string) (now : Z) (r : Row) : Row :=
  let l := life r in
  with_life r {| status := s; held_reason := held_reason l; held_at := held_at l; decided_at := decided_at l;
    decided_by := decided_by l; decided_reason := decided_reason l; claimed_at := claimed_at l;
    executed_at := executed_at l; attempts := attempts l;
    result_json := Some (Some (JObj [("reason"%string, JStr reason)]));
    purge_after := Some (now + APPROVAL_PURGE_AFTER_MS); tombstoned_at := tombstoned_at l |}.

(** @src src/src/core/approval-store.ts 906-910 sweep *)
Definition tombstone (now : Z) (r : Row) : Row :=
  let l := life r in
  {| filed := filed r; payload_json := Some ""%string;
     life := {| status := status l; held_reason := held_reason l; held_at := held_at l; decided_at := decided_at l;
       decided_by := decided_by l; decided_reason := decided_reason l; claimed_at := claimed_at l;
       executed_at := executed_at l; attempts := attempts l; result_json := None; purge_after := None;
       tombstoned_at := Some now |} |}.

(** What the first three loops do to one row: each row is met by the loop of its status, and a row
    they move is met by no later one. *)
(** @src src/src/core/approval-store.ts 848-898 sweep *)
Definition sweep_row (inp : SweepInput) (now : Z) (r : Row) : Row :=
  let over := reached (expires_at (filed r)) now in
  match row_status r with
  | pending => if over then swept expired "ttl" now r else r
  | approved =>
      match held_reason (life r), flagOn inp with
      | Some h, true => if over then swept expired h now r else r
      | _, on =>
          let window_open := match decided_at (life r) with
            | Some d => now <? Z.max d (engineStartedAt inp) + APPROVAL_CLAIM_WINDOW_MS
            | None => false end in
          if negb window_open || over then swept expired (if on then "claim_window" else "flag_off") now r else r
      end
  | executing =>
      if match claimed_at (life r) with Some c => now <? c + APPROVAL_CLAIM_STALE_MS | None => false end then r
      else swept unknown "stale_claim" now r
  | _ => r
  end.

(** The last loop: [None] is a deleted row. *)
(** @src src/src/core/approval-store.ts 899-914 sweep *)
Definition purge_row (now : Z) (r : Row) : option Row :=
  match purge_after (life r), tombstoned_at (life r) with
  | Some p, None =>
      if reached (Some p) now then
        if bool_decide (row_status r = unknown) && keyed (filed r) then Some (tombstone now r) else None
      else Some r
  | _, _ => Some r
  end.

(** @src src/src/core/approval-store.ts 859-917 sweep *)
Definition sweep (t : Table) (inp : SweepInput) (now : Z) : Table := omap (purge_row now) (sweep_row inp now <$> t).

(** ** Traces *)

Inductive Op :=
| OFile (i : string) (inp : FileApprovalInput) (now : Z)
| ODecide (i : string) (decision : DecideAction) (by_ : string) (now : Z)
| OHold (i reason : string) (now : Z)
| OHoldKind (k : ApprovalKind) (now : Z)
| OClaim (i : string) (now : Z) (cap : option (nat -> nat -> bool))
| OFinish (i : string) (outcome : FinishOutcome) (result : jval) (now : Z)
| OSweep (inp : SweepInput) (now : Z).

Definition step (t : Table) (op : Op) : Table :=
  match op with
  | OFile i inp now => (file t i inp now).1
  | ODecide i d by_ now => (decide_entry t i d by_ now).1
  | OHold i reason now => (hold t i reason now).1
  | OHoldKind k now => (holdKind t k now).1
  | OClaim i now cap => (claim t i now cap).1
  | OFinish i outcome result now => (finish t i outcome result now).1
  | OSweep inp now => sweep t inp now
  end.
Definition run (ops : list Op) : Table := foldl step [] ops.

(** The random ids of a trace are distinct. *)
Definition filed_ids (ops : list Op) : list string :=
  omap (fun op => match op with OFile i _ _ => Some i | _ => None end) ops.

Definition ids (t : Table) : list string := row_id <$> t.

(** Where an outcome leads an entry that was claimed [n] times, and whether it goes back. *)
Definition outcome_ends (outcome : FinishOutcome) (n : Z) (s : ApprovalStatus) (retry : bool) : Prop :=
  match outcome with
  | f_done => s = done_ /\ retry = false | f_failed => s = failed /\ retry = false
  | f_unknown => s = unknown /\ retry = false
  | f_retry => s = approved /\ retry = true /\ n < APPROVAL_MAX_ATTEMPTS \/ s = failed /\ retry = false /\ APPROVAL_MAX_ATTEMPTS <= n
  end.

(** What one operation may do to one row. *)
Inductive row_step : Op -> Row -> option Row -> Prop :=
| rs_same op r : row_step op r (Some r)
| rs_approve shown by_ now r p :
    row_status r = pending -> reached (expires_at (filed r)) now = false -> is_executable r = true ->
    shown = checksum (filed r) -> payload_json r = Some p ->
    checksumOf (kind (filed r)) p (origin_json (filed r)) = checksum (filed r) ->
    row_step (ODecide (row_id r) (Approve shown) by_ now) r (Some (decided approved now by_ None (purge_after (life r)) r))
| rs_reject reason by_ now purge r :
    row_status r = pending ->
    row_step (ODecide (row_id r) (Reject reason) by_ now) r (Some (decided rejected now by_ (Some reason) purge r))
| rs_clear by_ now purge r :
    row_status r = unknown ->
    row_step (ODecide (row_id r) ClearUnknown by_ now) r (Some (decided rejected now by_ (Some "cleared_unknown"%string) purge r))
| rs_clear_tombstone by_ now r :
    row_status r = unknown -> is_Some (tombstoned_at (life r)) -> row_step (ODecide (row_id r) ClearUnknown by_ now) r None
| rs_hold op reason now r :
    match op with OHold _ _ _ | OHoldKind _ _ | OClaim _ _ _ => True | _ => False end ->
    row_status r = approved -> row_step op r (Some (held reason now r))
| rs_claim now cap r :
    row_status r = approved -> reached (expires_at (filed r)) now = false -> is_executable r = true ->
    row_step (OClaim (row_id r) now cap) r (Some (claimed now r))
| rs_finish outcome result res now r s (retry : bool) :
    row_status r = executing -> outcome_ends outcome (attempts (life r)) s retry ->
    row_step (OFinish (row_id r) outcome result now) r (Some (finished s retry now res r))
| rs_expire inp now reason r r' :
    row_status r = pending \/ row_status r = approved -> r' = swept expired reason now r -> row_step (OSweep inp now) r (Some r')
| rs_stale inp now reason r r' :
    row_status r = executing -> r' = swept unknown reason now r -> row_step (OSweep inp now) r (Some r')
| rs_tombstone inp now r :
    row_status r = unknown -> keyed (filed r) = true -> row_step (OSweep inp now) r (Some (tombstone now r))
| rs_purge inp now r :
    is_Some (purge_after (life r)) -> reached (purge_after (life r)) now = true ->
    ~ (row_status r = unknown /\ keyed (filed r) = true) -> row_step (OSweep inp now) r None.

Lemma omap_Some_map (h : Row -> Row) (t : Table) : omap (fun r => Some (h r)) t = h <$> t.
Proof. induction t as [|r t IH]; [done|]. csimpl. by rewrite IH. Qed.

Lemma find_row_spec t i r : find_row t i = Some r -> r ∈ t /\ row_id r = i.
Proof.
  unfold find_row. destruct (list_find _ t) as [[k x]|] eqn:E; [|done]. intros [= <-].
  apply list_find_Some in E as (H & Hi & _). split; [by eapply list_elem_of_lookup_2|done].
Qed.

Lemma find_row_None t i : find_row t i = None -> i ∉ ids t.
Proof.
  unfold find_row. destruct (list_find _ t) as [[k x]|] eqn:E; [done|]. intros _ (r & -> & Hr)%list_elem_of_fmap.
  apply list_find_None in E. rewrite Forall_forall in E. by apply (E r).
Qed.

Lemma same_row t r1 r2 : NoDup (ids t) -> r1 ∈ t -> r2 ∈ t -> row_id r1 = row_id r2 -> r1 = r2.
Proof.
  intros Hnd H1 H2 He. apply list_elem_of_lookup in H1 as [i Hi]. apply list_elem_of_lookup in H2 as [j Hj].
  assert (i = j) as ->; [|congruence]. apply (NoDup_lookup (ids t) i j (row_id r1)); [done| |];
    unfold ids; rewrite list_lookup_fmap, ?Hi, ?Hj; cbn; congruence.
Qed.

Lemma find_row_in t r : NoDup (ids t) -> r ∈ t -> find_row t (row_id r) = Some r.
Proof.
  intros Hnd Hr. destruct (find_row t (row_id r)) as [r'|] eqn:E.
  - apply find_row_spec in E as [? ?]. f_equal. by eapply same_row.
  - apply find_row_None in E. exfalso. apply E, list_elem_of_fmap. eauto.
Qed.

Lemma update_where_hit t i s r f : r ∈ t -> row_id r = i -> row_status r = s -> (update_where i s f t).2 = true.
Proof. intros Hr Hi Hs. apply existsb_exists. exists r. split; [by apply list_elem_of_In|]. by apply bool_decide_eq_true. Qed.

Lemma update_where_find t i s f r : NoDup (ids t) -> r ∈ t -> row_id r = i -> row_status r = s ->
  (forall x, filed (f x) = filed x) -> find_row (update_where i s f t).1 i = Some (f r).
Proof.
  intros Hnd Hr Hi Hs Hf. assert (row_id (f r) = i) as Hfi by (unfold row_id; by rewrite Hf). rewrite <-Hfi at 2.
  apply find_row_in.
  - unfold ids, update_where. cbn [fst]. rewrite <-list_fmap_compose. erewrite list_fmap_ext; [exact Hnd|].
    intros _ x _. unfold compose. case_decide; [unfold row_id; by rewrite Hf|done].
  - apply list_elem_of_fmap. exists r. by rewrite decide_True.
Qed.

Definition not_duplicate (t : Table) (i : string) (inp : FileApprovalInput) (now : Z) : Prop :=
  duplicate t (f_kind (filing inp)) (dedup_key (filed (new_row i inp now))) (family_key (filed (new_row i inp now))) now = None.

(** The shape of an operation: every row takes its step, at most one row is added. *)
Definition shaped (op : Op) (t : Table) (t' : Table) : Prop :=
  exists g new, t' = omap g t ++ new /\ (forall r, r ∈ t -> row_step op r (g r)) /\
    match op with
    | OFile i inp now => new = [] \/ (new = [new_row i inp now] /\ not_duplicate t i inp now)
    | _ => new = [] end.

Lemma shaped_same op t : shaped op t t.
Proof.
  exists Some, []. split_and!; [|intros; constructor|destruct op; auto].
  rewrite app_nil_r. induction t as [|r t IH]; [done|]. csimpl. by rewrite <-IH.
Qed.

Lemma shaped_update op t i s f :
  match op with OFile _ _ _ => False | _ => True end ->
  (forall r, r ∈ t -> row_id r = i -> row_status r = s -> row_step op r (Some (f r))) ->
  shaped op t (update_where i s f t).1.
Proof.
  intros Hop H. exists (fun r => Some (if decide (row_id r = i /\ row_status r = s) then f r else r)), [].
  split_and!; [by rewrite app_nil_r, omap_Some_map| |by destruct op].
  intros r Hr. case_decide as Hd; [apply H; tauto|constructor].
Qed.

Lemma delete_where_omap (P : Row -> Prop) `{!forall r, Decision (P r)} (t : Table) :
  delete_where (fun r => bool_decide (P r)) t = omap (fun r => if decide (P r) then None else Some r) t.
Proof.
  unfold delete_where. induction t as [|r t IH]; [done|]. rewrite filter_cons. csimpl.
  destruct (decide (P r)); case_decide as Hb; rewrite ?bool_decide_eq_false in Hb; try tauto; by rewrite IH.
Qed.

Lemma decide_shaped t i d by_ now : NoDup (ids t) -> shaped (ODecide i d by_ now) t (decide_entry t i d by_ now).1.
Proof.
  intros Hnd. unfold decide_entry. destruct (find_row t i) as [r0|] eqn:Ef; [|apply shaped_same].
  apply find_row_spec in Ef as [Hr0 Hi]. subst i.
  assert (forall r, r ∈ t -> row_id r = row_id r0 -> r = r0) as Hsame by (intros; by eapply same_row).
  destruct d as [shown|reason|].
  - destruct (bool_decide (row_status r0 = pending)) eqn:Es; [|apply shaped_same]. apply bool_decide_eq_true in Es.
    destruct (reached _ _) eqn:Er; [apply shaped_same|]. destruct (is_executable r0) eqn:Ex; [|apply shaped_same].
    destruct (bool_decide (shown = _)) eqn:Ec; [|apply shaped_same]. apply bool_decide_eq_true in Ec.
    destruct (checksumMatches t (row_id r0)) eqn:Em; [|apply shaped_same]. cbn [negb orb].
    unfold checksumMatches in Em. rewrite find_row_in in Em by done.
    destruct (payload_json r0) as [p|] eqn:Ep; [|done]. apply bool_decide_eq_true in Em.
    apply shaped_update; [done|]. intros r Hr Hid _. rewrite (Hsame r) by done. by eapply rs_approve.
  - destruct (bool_decide (row_status r0 = pending)) eqn:Es; [|apply shaped_same]. cbn [negb].
    apply shaped_update; [done|]. intros r Hr Hid Hs. rewrite <-Hid. by apply rs_reject.
  - destruct (bool_decide (is_Some (tombstoned_at (life r0)))) eqn:Et.
    + apply bool_decide_eq_true in Et. destruct (existsb _ t); [|apply shaped_same]. cbn [fst].
      exists (fun r => if decide (row_id r = row_id r0 /\ row_status r = unknown) then None else Some r), [].
      split_and!; [|intros r Hr|done].
      * by rewrite app_nil_r, delete_where_omap.
      * case_decide as Hd; [|constructor]. destruct Hd as [Hid Hs]. rewrite <-Hid. rewrite <-(Hsame r) in Et by done.
        by apply rs_clear_tombstone.
    + apply shaped_update; [done|]. intros r Hr Hid Hs. rewrite <-Hid. by apply rs_clear.
Qed.

(** The rows a hold on a kind stamps, by their ids. *)
Definition stamped (S : list string) (now : Z) (t : Table) : Table :=
  (fun r => if decide (row_id r ∈ S /\ row_status r = approved) then held "send_limit" now r else r) <$> t.

Lemma hold_stamped S now t i : (hold (stamped S now t) i "send_limit" now).1 = stamped (i :: S) now t.
Proof.
  unfold hold, update_where, stamped. cbn [fst]. rewrite <-list_fmap_compose. apply list_fmap_ext. intros _ r _. unfold compose.
  destruct (decide (row_id r ∈ S /\ row_status r = approved)) as [H|H]; case_decide as H1; case_decide as H2; try done;
    unfold row_id, row_status, held in *; cbn [filed life with_life status] in *; rewrite elem_of_cons in *; tauto.
Qed.

Lemma holdKind_stamped t k now : exists S, (holdKind t k now).1 = stamped S now t.
Proof.
  unfold holdKind. generalize (filter (fun r => row_status r = approved /\ kind (filed r) = k /\ held_reason (life r) = None) t) as l.
  intros l.
  assert (t = stamped [] now t) as Ht.
  { transitivity (Datatypes.id <$> t); [by rewrite list_fmap_id|]. apply list_fmap_ext. intros _ r _.
    rewrite decide_False; [done|]. by intros [[]%elem_of_nil _]. }
  cut (forall S n,
    exists S', (foldl (fun acc r => if reached (expires_at (filed r)) now then acc
      else let '(t', changed) := hold acc.1 (row_id r) "send_limit" now in (t', if changed then (Datatypes.S acc.2) else acc.2))
      (stamped S now t, n) l).1 = stamped S' now t).
  { intros H. destruct (H [] 0%nat) as [S HS]. rewrite <-Ht in HS. by exists S. }
  clear Ht. induction l as [|r l IH]; intros S n; cbn [foldl]; [by exists S|].
  destruct (reached _ now); [apply IH|].
  pose proof (hold_stamped S now t (row_id r)) as Hh. destruct (hold _ _ _ _) as [t' changed]. cbn [fst] in *. subst t'.
  apply IH.
Qed.

Lemma claim_cases t i now cap : NoDup (ids t) ->
  ((claim t i now cap).1 = t \/ (claim t i now cap).1 = (update_where i approved (held "send_limit" now) t).1) /\
    (forall r, (claim t i now cap).2 <> Claimed r) \/
  exists r, r ∈ t /\ row_id r = i /\ row_status r = approved /\ reached (expires_at (filed r)) now = false /\
    is_executable r = true /\
    match cap with Some admits => admits (claimed_since t (kind (filed r)) (now - HOUR)) (claimed_since t (kind (filed r)) (now - DAY)) = true
                 | None => True end /\
    claim t i now cap = ((update_where i approved (claimed now) t).1, Claimed (claimed now r)).
Proof.
  intros Hnd. unfold claim. destruct (find_row t i) as [r|] eqn:Ef; [|by auto].
  apply find_row_spec in Ef as [Hr Hi]. destruct (bool_decide (row_status r = approved)) eqn:Es; [|by auto].
  apply bool_decide_eq_true in Es. cbn [negb]. destruct (reached _ _) eqn:Er; [by auto|].
  destruct (is_executable r) eqn:Ex; [|by auto]. cbn [negb].
  destruct (match cap with Some _ => _ | None => false end) eqn:Ec; [by auto|]. right. exists r. split_and!; try done.
  { destruct cap; [|done]. by apply negb_false_iff. }
  rewrite (surjective_pairing (update_where i approved (claimed now) t)), (update_where_hit t i approved r) by done. cbn [negb fst].
  rewrite (update_where_find t i approved _ r) by done. done.
Qed.

Lemma claim_shaped t i now cap : NoDup (ids t) -> shaped (OClaim i now cap) t (claim t i now cap).1.
Proof.
  intros Hnd. destruct (claim_cases t i now cap Hnd) as [[[->| ->] _]|(r0 & Hr0 & <- & Hs & He & Hx & _ & ->)]; [apply shaped_same|..].
  - apply shaped_update; [done|]. intros. by constructor.
  - apply shaped_update; [done|]. intros r Hr Hid _. rewrite <-Hid. assert (r = r0) as -> by by eapply same_row. by apply rs_claim.
Qed.

Lemma finish_cases t i outcome result now : 
  finish t i outcome result now = (t, None) \/
  exists r s retry res, r ∈ t /\ row_id r = i /\ row_status r = executing /\ outcome_ends outcome (attempts (life r)) s retry /\
    finish t i outcome result now = ((update_where i executing (finished s retry now res) t).1, Some s).
Proof.
  unfold finish. destruct (find_row t i) as [r|] eqn:Ef; [|by left]. apply find_row_spec in Ef as [Hr Hi].
  destruct (bool_decide (row_status r = executing)) eqn:Es; [|by left]. apply bool_decide_eq_true in Es. right. cbn [negb].
  destruct outcome; [..|destruct (Z.ltb_spec (attempts (life r)) APPROVAL_MAX_ATTEMPTS)];
    do 4 eexists; (split_and!; [exact Hr|exact Hi|exact Es| |reflexivity]); cbn; tauto.
Qed.

Lemma finish_shaped t i outcome result now :
  NoDup (ids t) -> shaped (OFinish i outcome result now) t (finish t i outcome result now).1.
Proof.
  intros Hnd. destruct (finish_cases t i outcome result now) as [->|(r0 & s & retry & res & Hr0 & <- & He & Hs & ->)]; [apply shaped_same|].
  apply shaped_update; [done|]. intros r Hr Hid _. rewrite <-Hid. assert (r = r0) as -> by by eapply same_row. by apply rs_finish.
Qed.

Lemma purge_swept s reason now r : purge_row now (swept s reason now r) = Some (swept s reason now r).
Proof.
  unfold purge_row, swept. cbn [life with_life purge_after tombstoned_at]. destruct (tombstoned_at _); [done|].
  unfold reached, APPROVAL_PURGE_AFTER_MS. destruct (Z.ltb_spec now (now + 30 * 24 * 60 * 60000)); [done|lia].
Qed.

Lemma sweep_row_cases inp now r :
  sweep_row inp now r = r \/
  (exists reason, sweep_row inp now r = swept expired reason now r /\ (row_status r = pending \/ row_status r = approved)) \/
  sweep_row inp now r = swept unknown "stale_claim" now r /\ row_status r = executing.
Proof.
  unfold sweep_row. destruct (row_status r) eqn:Es; try by left.
  - destruct (reached _ _); [right; left|by left]. eauto.
  - destruct (held_reason _) as [h|], (flagOn inp); repeat case_match; eauto 6.
  - repeat case_match; eauto.
Qed.

Lemma purge_row_cases now r :
  purge_row now r = Some r \/
  purge_row now r = Some (tombstone now r) /\ row_status r = unknown /\ keyed (filed r) = true \/
  purge_row now r = None /\ is_Some (purge_after (life r)) /\ reached (purge_after (life r)) now = true /\
    ~ (row_status r = unknown /\ keyed (filed r) = true).
Proof.
  unfold purge_row. destruct (purge_after _) as [p|] eqn:Ep, (tombstoned_at (life r)); try by left.
  destruct (reached _ now) eqn:Er; [|by left]. right. case_bool_decide as Hu; destruct (keyed (filed r)); cbn [andb];
    [left; auto|right..]; split_and!; eauto; intros [? ?]; congruence.
Qed.

Lemma sweep_shaped t inp now : shaped (OSweep inp now) t (sweep t inp now).
Proof.
  exists (fun r => purge_row now (sweep_row inp now r)), []. split_and!; [|intros r _|done].
  - rewrite app_nil_r. unfold sweep. induction t as [|r t IH]; [done|]. csimpl. by rewrite IH.
  - destruct (sweep_row_cases inp now r) as [->|[(reason & -> & H)|[-> H]]]; rewrite ?purge_swept.
    + destruct (purge_row_cases now r) as [->|[(-> & ? & ?)|(-> & ? & ? & ?)]]; by constructor.
    + by eapply rs_expire.
    + by eapply rs_stale.
Qed.

Lemma file_cases t i inp now :
  (file t i inp now).1 = t \/
  file t i inp now = (t ++ [new_row i inp now], FiledAs i) /\ not_duplicate t i inp now.
Proof.
  unfold file. do 3 (case_match; [by left|]). destruct (duplicate _ _ _ _ _) eqn:E; [by left|].
  case_match; [by left|by right].
Qed.

Lemma file_shaped t i inp now : shaped (OFile i inp now) t (file t i inp now).1.
Proof.
  destruct (file_cases t i inp now) as [->|[E Hd]]; [apply shaped_same|].
  exists Some, [new_row i inp now]. rewrite E. split_and!; [|intros; constructor|by right].
  cbn [fst]. f_equal. rewrite (omap_Some_map Datatypes.id). by rewrite list_fmap_id.
Qed.

Lemma step_shape t op : NoDup (ids t) -> shaped op t (step t op).
Proof.
  intros Hnd. destruct op; cbn [step].
  - by apply file_shaped.
  - by apply decide_shaped.
  - apply shaped_update; [done|]. intros. by constructor.
  - destruct (holdKind_stamped t k now) as [S ->]. exists (fun r => Some (if decide (row_id r ∈ S /\ row_status r = approved) then held "send_limit" now r else r)), [].
    split_and!; [by rewrite app_nil_r, omap_Some_map| |done]. intros r Hr. case_decide as Hd; [|constructor].
    apply rs_hold; [done|tauto].
  - by apply claim_shaped.
  - by apply finish_shaped.
  - apply sweep_shaped.
Qed.

(** ** What a trace keeps *)

Lemma row_step_filed op r r' : row_step op r (Some r') -> filed r' = filed r.
Proof. by inversion 1; subst. Qed.

Lemma row_step_id op r r' : row_step op r (Some r') -> row_id r' = row_id r.
Proof. intros H. unfold row_id. by rewrite (row_step_filed op r r'). Qed.

Lemma step_row t op r' : NoDup (ids t) -> r' ∈ step t op ->
  (exists r, r ∈ t /\ row_step op r (Some r')) \/
  (exists i inp now, op = OFile i inp now /\ r' = new_row i inp now /\ not_duplicate t i inp now).
Proof.
  intros Hnd Hr. destruct (step_shape t op Hnd) as (g & new & E & Hg & Hnew). rewrite E in Hr.
  apply elem_of_app in Hr as [(r & Hr & Hgr)%list_elem_of_omap|Hr].
  - left. exists r. split; [done|]. rewrite <-Hgr. by apply Hg.
  - right. destruct op; try (subst new; by apply elem_of_nil in Hr).
    destruct Hnew as [->|[-> Hf]]; [by apply elem_of_nil in Hr|]. apply list_elem_of_singleton in Hr as ->. eauto 6.
Qed.

Lemma omap_ids t g : NoDup (ids t) -> (forall r r', r ∈ t -> g r = Some r' -> filed r' = filed r) -> NoDup (ids (omap g t)).
Proof.
  induction t as [|r t IH]; intros Hnd Hg; [constructor|]. csimpl. apply NoDup_cons in Hnd as [Hr Hnd].
  assert (NoDup (ids (omap g t))) as Ht by (apply IH; [done|set_solver]).
  destruct (g r) as [r'|] eqn:E; [|done]. apply NoDup_cons. split; [|done].
  unfold row_id. rewrite (Hg r r'); [|set_solver|done]. intros (x & Hx & (y & Hy & Hgy)%list_elem_of_omap)%list_elem_of_fmap.
  apply Hr, list_elem_of_fmap. exists y. split; [|done]. unfold row_id in *. rewrite Hx. f_equal. apply (Hg y); [set_solver|done].
Qed.

Lemma run_snoc ops op : run (ops ++ [op]) = step (run ops) op.
Proof. unfold run. by rewrite foldl_app. Qed.

Lemma filed_ids_snoc ops op :
  filed_ids (ops ++ [op]) = filed_ids ops ++ match op with OFile i _ _ => [i] | _ => [] end.
Proof. unfold filed_ids. rewrite omap_app. by destruct op. Qed.

Lemma NoDup_snoc ops op : NoDup (filed_ids (ops ++ [op])) -> NoDup (filed_ids ops).
Proof. rewrite filed_ids_snoc. by intros [? _]%NoDup_app. Qed.

Lemma run_ids ops : NoDup (filed_ids ops) -> NoDup (ids (run ops)) /\ forall i, i ∈ ids (run ops) -> i ∈ filed_ids ops.
Proof.
  induction ops as [|op ops IH] using rev_ind; intros Hnd; [split; [constructor|set_solver]|].
  pose proof (NoDup_snoc ops op Hnd) as Hnd'. destruct (IH Hnd') as [IHn IHs]. rewrite run_snoc, filed_ids_snoc in *.
  split.
  - destruct (step_shape (run ops) op IHn) as (g & new & E & Hg & Hnew). rewrite E. unfold ids. rewrite fmap_app. apply NoDup_app.
    assert (forall r r', r ∈ run ops -> g r = Some r' -> filed r' = filed r) as Hf.
    { intros r r' Hr Hgr. specialize (Hg r Hr). rewrite Hgr in Hg. by eapply row_step_filed. }
    split_and!; [by apply omap_ids| |].
    + intros j (r' & -> & (r & Hr & Hgr)%list_elem_of_omap)%list_elem_of_fmap Hj.
      destruct op; try (subst new; by apply elem_of_nil in Hj).
      destruct Hnew as [->|[-> _]]; [by apply elem_of_nil in Hj|]. apply list_elem_of_singleton in Hj.
      apply NoDup_app in Hnd as (_ & Hnd & _). apply (Hnd (row_id r')); [|rewrite Hj; set_solver].
      apply IHs, list_elem_of_fmap. exists r. split; [|done]. unfold row_id. f_equal. by apply Hf.
    + destruct op; try (subst new; constructor). destruct Hnew as [->|[-> _]]; [constructor|apply NoDup_singleton].
  - intros j (r' & -> & Hr)%list_elem_of_fmap. apply elem_of_app. apply step_row in Hr as [(r & Hr & Hs)|(i & inp & now & -> & -> & _)]; [| |done].
    + left. apply IHs, list_elem_of_fmap. exists r. split; [|done]. unfold row_id. f_equal. by eapply row_step_filed.
    + right. by apply list_elem_of_singleton.
Qed.

(** A property each operation keeps holds at the end of every trace of distinct ids. *)
Lemma run_invariant (P : list Op -> Table -> Prop) :
  P [] [] ->
  (forall ops op, NoDup (filed_ids (ops ++ [op])) -> NoDup (ids (run ops)) ->
     (forall i, i ∈ ids (run ops) -> i ∈ filed_ids ops) -> P ops (run ops) -> P (ops ++ [op]) (step (run ops) op)) ->
  forall ops, NoDup (filed_ids ops) -> P ops (run ops).
Proof.
  intros H0 Hs ops. induction ops as [|op ops IH] using rev_ind; intros Hnd; [done|].
  pose proof (NoDup_snoc ops op Hnd) as Hnd'. destruct (run_ids ops Hnd'). rewrite run_snoc. auto.
Qed.

(** ** One writer for each status *)

(** The moves of the file's contract: who writes which status, from which. *)
Definition may_become (op : Op) (s s' : ApprovalStatus) : bool :=
  match op, s, s' with
  | ODecide _ (Approve _) _ _, pending, approved | ODecide _ (Reject _) _ _, pending, rejected
  | ODecide _ ClearUnknown _ _, unknown, rejected
  | OClaim _ _ _, approved, executing
  | OFinish _ f_done _ _, executing, done_ | OFinish _ f_failed _ _, executing, failed
  | OFinish _ f_unknown _ _, executing, unknown
  | OFinish _ f_retry _ _, executing, approved | OFinish _ f_retry _ _, executing, failed
  | OSweep _ _, pending, expired | OSweep _ _, approved, expired | OSweep _ _, executing, unknown => true
  | _, _, _ => false
  end.

(** An operation's effect on an entry: it keeps what was filed, its status moves as the contract says,
    its payload goes only with a tombstone, and it is deleted only at its purge time or as a cleared
    tombstone. *)
Definition lawful_step (op : Op) (r : Row) (after : option Row) : Prop :=
  match after with
  | Some r' =>
      filed r' = filed r /\ (row_status r' = row_status r \/ may_become op (row_status r) (row_status r') = true) /\
      (payload_json r' = payload_json r \/
       payload_json r' = Some ""%string /\ row_status r = unknown /\ keyed (filed r) = true /\ exists inp now, op = OSweep inp now)
  | None =>
      match op with
      | OSweep _ now => is_Some (purge_after (life r)) /\ reached (purge_after (life r)) now = true /\
                        ~ (row_status r = unknown /\ keyed (filed r) = true)
      | ODecide i ClearUnknown _ _ => i = row_id r /\ row_status r = unknown /\ is_Some (tombstoned_at (life r))
      | _ => False
      end
  end.

Lemma row_step_lawful op r after : row_step op r after -> lawful_step op r after.
Proof.
  destruct 1 as [op r|shown by_ now r p Hs|reason by_ now purge r Hs|by_ now purge r Hs|by_ now r Hs Ht|op reason now r _ Hs
    |now cap r Hs|outcome result res now r s retry Hs Ho|inp now reason r r' Hs ->|inp now reason r r' Hs ->|inp now r Hs Hk
    |inp now r Hp Hd Hk]; cbn [lawful_step]; try done;
    (split; [done|]; split; [unfold row_status in *|]);
    cbn [payload_json decided held claimed finished swept tombstone with_life life status]; auto.
  - right. by rewrite Hs.
  - right. by rewrite Hs.
  - right. by rewrite Hs.
  - right. by rewrite Hs.
  - right. rewrite Hs. destruct outcome; cbn in Ho; naive_solver.
  - right. by destruct Hs as [-> | ->].
  - right. by rewrite Hs.
  - right. split_and!; [done..|by exists inp, now].
Qed.

(** Each status has one writer. Whatever the operations so far, an operation leaves an entry's filed
    columns as they are (kind, origin, keys, checksum, times); moves its status only as that operation may
    (the decision pending to approved or rejected and unknown to rejected, the claim approved to executing,
    the outcome executing to done, failed, unknown or back to approved, the sweep to expired or unknown);
    empties its payload only when the sweep makes a keyed unknown entry a tombstone; and deletes it only in
    a sweep at its purge time, or when its owner clears a tombstone. *)
Theorem each_status_has_one_writer ops op r :
  NoDup (filed_ids (ops ++ [op])) -> r ∈ run ops ->
  lawful_step op r (find_row (run (ops ++ [op])) (row_id r)).
Proof.
  intros Hnd Hr. destruct (run_ids _ Hnd) as [Hn _]. destruct (run_ids ops (NoDup_snoc _ _ Hnd)) as [Hn0 Hs0].
  rewrite run_snoc in *. destruct (step_shape (run ops) op Hn0) as (g & new & E & Hg & Hnew).
  pose proof (Hg r Hr) as Hst. destruct (g r) as [r'|] eqn:Egr.
  - rewrite <-(row_step_id _ _ _ Hst), find_row_in; [by apply row_step_lawful|done|]. rewrite E. apply elem_of_app. left. apply list_elem_of_omap. eauto.
  - destruct (find_row (step (run ops) op) (row_id r)) as [r'|] eqn:Ef; [|by apply row_step_lawful].
    exfalso. apply find_row_spec in Ef as [Hr' Hid]. rewrite E in Hr'. apply elem_of_app in Hr' as [(x & Hx & Hgx)%list_elem_of_omap|Hr'].
    + assert (x = r) as ->; [|congruence]. apply (same_row (run ops)); [done..|]. rewrite <-Hid. unfold row_id.
      rewrite (row_step_filed op x r'); [done|]. rewrite <-Hgx. by apply Hg.
    + destruct op; try (subst new; by apply elem_of_nil in Hr'). by apply row_step_lawful in Hst.
Qed.

(** ** At most once, and three attempts in all *)

(** The operations of a trace at which [f] holds, each in the table it met. *)
Definition tally (f : Table -> Op -> bool) (ops : list Op) : Z :=
  (foldl (fun '(t, n) op => (step t op, if f t op then n + 1 else n)) ([], 0) ops).2.

Lemma tally_snoc f ops op : tally f (ops ++ [op]) = tally f ops + (if f (run ops) op then 1 else 0).
Proof.
  unfold tally. rewrite foldl_app. set (a := foldl _ _ ops). assert (a.1 = run ops) as Ha.
  { unfold a, run. generalize (@nil Row), 0. induction ops as [|o ops IH]; intros t n; [done|]. cbn [foldl]. apply IH. }
  destruct a as [t n]. cbn in *. subst t. destruct (f _ _); cbn; lia.
Qed.

(** A claim of the entry [i] that is won, an attempt of it that goes back for another. *)
Definition wins (i : string) (t : Table) (op : Op) : bool :=
  match op with
  | OClaim j now cap => bool_decide (j = i) && match (claim t j now cap).2 with Claimed _ => true | _ => false end
  | _ => false
  end.
Definition sent_back (i : string) (t : Table) (op : Op) : bool :=
  match op with
  | OFinish j outcome result now => bool_decide (j = i) && bool_decide ((finish t j outcome result now).2 = Some approved)
  | _ => false
  end.

Definition is_claimed (r : Row) : Z := match claimed_at (life r) with Some _ => 1 | None => 0 end.

(** What an entry's columns say of its claims [w] and of those that went back [b]. *)
Definition counted (w b : Z) (r : Row) : Prop :=
  attempts (life r) = w /\ w = b + is_claimed r /\
  match row_status r with
  | pending => w = 0 /\ is_claimed r = 0
  | approved => is_claimed r = 0 /\ w < APPROVAL_MAX_ATTEMPTS
  | executing => is_claimed r = 1
  | _ => True
  end.

Lemma row_step_counted op r r' w b :
  match op with OClaim _ _ _ | OFinish _ _ _ _ => False | _ => True end ->
  row_step op r (Some r') -> counted w b r -> counted w b r'.
Proof.
  intros Hop. inversion 1; subst; try done; unfold counted, is_claimed, row_status in *;
    cbn [decided held swept tombstone with_life life status claimed_at attempts]; try done.
  all: repeat match goal with E : status _ = _ |- _ => rewrite E | E : _ \/ _ |- _ => destruct E end.
  all: unfold APPROVAL_MAX_ATTEMPTS; destruct (claimed_at _); try lia; intros (? & ? & ?); split_and!; lia.
Qed.

Definition tallied (i : string) (ops : list Op) (t : Table) : Prop :=
  let w := tally (wins i) ops in let b := tally (sent_back i) ops in
  (forall r, r ∈ t -> row_id r = i -> counted w b r) /\ 0 <= b <= w /\ w <= b + 1 /\ w <= APPROVAL_MAX_ATTEMPTS /\
  (i ∉ filed_ids ops -> w = 0 /\ b = 0).

Lemma in_update_where t i s f r' : r' ∈ (update_where i s f t).1 ->
  exists r, r ∈ t /\ (row_id r = i /\ row_status r = s /\ r' = f r \/ r' = r /\ ~ (row_id r = i /\ row_status r = s)).
Proof.
  intros (r & -> & Hr)%list_elem_of_fmap. exists r. split; [done|]. case_decide; tauto.
Qed.

Lemma tallied_claim i ops j now cap : NoDup (ids (run ops)) -> (forall k, k ∈ ids (run ops) -> k ∈ filed_ids ops) ->
  tallied i ops (run ops) -> tallied i (ops ++ [OClaim j now cap]) (claim (run ops) j now cap).1.
Proof.
  intros Hnd Hids (Hrow & Hb & Hw & Hm & Hfresh). unfold tallied. rewrite !tally_snoc, filed_ids_snoc, app_nil_r.
  cbn [wins sent_back]. rewrite Z.add_0_r. destruct (claim_cases (run ops) j now cap Hnd) as [[Ht Hno]|(r0 & Hr0 & Hj & Hs & _ & _ & _ & E)].
  - assert ((bool_decide (j = i) && match (claim (run ops) j now cap).2 with Claimed _ => true | _ => false end) = false) as ->.
    { destruct (claim _ _ _ _).2 as [r| | | |]; [by destruct (Hno r)|by rewrite andb_false_r..]. }
    rewrite Z.add_0_r. split_and!; try done; [|lia..]. intros r' Hr' Hi. destruct Ht as [Ht|Ht]; rewrite Ht in Hr'; [by apply Hrow|].
    apply in_update_where in Hr' as (r & Hr & [(Hri & Hrs & ->)|[-> _]]); [|by apply Hrow].
    apply (row_step_counted (OHold j "send_limit" now) r); [done|by constructor|]. by apply Hrow.
  - rewrite E. cbn [fst snd]. destruct (bool_decide (j = i)) eqn:Ej; cbn [andb].
    + apply bool_decide_eq_true in Ej. subst j. destruct (Hrow r0 Hr0 Ej) as (Ha & Hc & Hst). rewrite Hs in Hst.
      split_and!; try lia.
      * intros r' (r & Hr & [(Hri & Hrs & ->)|[-> Hneg]])%in_update_where Hi.
        -- assert (r = r0) as -> by (apply (same_row (run ops)); congruence).
           unfold counted, is_claimed, row_status. cbn [claimed with_life life status claimed_at attempts]. lia.
        -- exfalso. apply Hneg. assert (r = r0) as -> by (apply (same_row (run ops)); congruence). done.
      * intros []. rewrite <-Ej. apply Hids, list_elem_of_fmap. eauto.
    + apply bool_decide_eq_false in Ej. rewrite Z.add_0_r. split_and!; try done; try lia.
      intros r' (r & Hr & [(Hri & Hrs & ->)|[-> _]])%in_update_where Hi; [|by apply Hrow].
      exfalso. apply Ej. by rewrite <-Hri.
Qed.

Lemma tallied_finish i ops j outcome result now : NoDup (ids (run ops)) -> (forall k, k ∈ ids (run ops) -> k ∈ filed_ids ops) ->
  tallied i ops (run ops) -> tallied i (ops ++ [OFinish j outcome result now]) (finish (run ops) j outcome result now).1.
Proof.
  intros Hnd Hids (Hrow & Hb & Hw & Hm & Hfresh). unfold tallied. rewrite !tally_snoc, filed_ids_snoc, app_nil_r.
  cbn [wins sent_back]. rewrite Z.add_0_r.
  destruct (finish_cases (run ops) j outcome result now) as [->|(r0 & s & retry & res & Hr0 & Hj & Hs & Ho & ->)]; cbn [fst snd].
  - rewrite (bool_decide_eq_false_2 (None = _)), andb_false_r, Z.add_0_r by done. done.
  - destruct (bool_decide (j = i)) eqn:Ej; cbn [andb].
    + apply bool_decide_eq_true in Ej. subst j. destruct (Hrow r0 Hr0 Ej) as (Ha & Hc & Hst). rewrite Hs in Hst.
      assert (bool_decide (Some s = Some approved) = retry /\ (s = approved -> attempts (life r0) < APPROVAL_MAX_ATTEMPTS)
        /\ s <> pending /\ s <> executing) as (-> & Hmax & Hnp & Hne) by (destruct outcome; cbn in Ho; naive_solver).
      split_and!; try (destruct retry; lia).
      * intros r' (r & Hr & [(Hri & Hrs & ->)|[-> Hneg]])%in_update_where Hi.
        -- assert (r = r0) as -> by (apply (same_row (run ops)); congruence).
           unfold counted, is_claimed, row_status in *. cbn [finished with_life life status claimed_at attempts].
           destruct retry; [|destruct s, outcome; cbn in Ho; naive_solver lia].
           split_and!; [lia..|]. destruct s; try done. split; [done|]. specialize (Hmax eq_refl). lia.
        -- exfalso. apply Hneg. assert (r = r0) as -> by (apply (same_row (run ops)); congruence). done.
      * intros []. rewrite <-Ej. apply Hids, list_elem_of_fmap. eauto.
    + apply bool_decide_eq_false in Ej. rewrite Z.add_0_r. split_and!; try done; try lia.
      intros r' (r & Hr & [(Hri & Hrs & ->)|[-> _]])%in_update_where Hi; [|by apply Hrow].
      exfalso. apply Ej. by rewrite <-Hri.
Qed.

Lemma run_tallied i ops : NoDup (filed_ids ops) -> tallied i ops (run ops).
Proof.
  revert ops. apply run_invariant.
  { split_and!; cbn; try done. intros r []%elem_of_nil. }
  intros ops op Hfresh Hnd Hids IH. destruct op; try (by apply tallied_claim || by apply tallied_finish).
  all: destruct IH as (Hrow & Hb & Hw & Hm & Hnew); unfold tallied; rewrite !tally_snoc, !filed_ids_snoc in *; cbn [wins sent_back] in *;
    rewrite !Z.add_0_r; (split_and!; [|lia..|set_solver]).
  all: intros r' [(r & Hr & Hst)|(? & ? & ? & [= -> -> ->] & -> & _)]%step_row Hi; try done.
  all: try (eapply row_step_counted; [|exact Hst|apply Hrow; [done|by rewrite <-Hi, (row_step_id _ _ _ Hst)]]; done).
  cbn in Hi. subst. destruct Hnew as [-> ->]; [apply NoDup_app in Hfresh; set_solver|]. done.
Qed.

(** An approved mail is attempted at most once for each return, and at most three times. However
    filings, decisions, holds, claims, outcomes and sweeps are interleaved, the claims of one entry that are
    won exceed the attempts that went back for a retry by at most one (so between two claims of the same
    entry one attempt was reported as provably not sent), and they are never more than three. *)
Theorem claimed_once_per_retry i ops :
  NoDup (filed_ids ops) ->
  tally (sent_back i) ops <= tally (wins i) ops <= tally (sent_back i) ops + 1 /\ tally (wins i) ops <= APPROVAL_MAX_ATTEMPTS.
Proof. intros Hnd. destruct (run_tallied i ops Hnd) as (_ & ? & ? & ? & _). lia. Qed.

(** ** Absence is never yes *)

(** The owner approved this entry: a decision earlier in the trace took it, was shown the checksum of
    exactly the kind, payload and origin it holds, and met it before its expiry. *)
Definition owner_approved (ops : list Op) (r : Row) : Prop :=
  exists pre shown by_ now post p, ops = pre ++ ODecide (row_id r) (Approve shown) by_ now :: post /\
    (decide_entry (run pre) (row_id r) (Approve shown) by_ now).2 = DecideOk /\
    payload_json r = Some p /\ shown = checksumOf (kind (filed r)) p (origin_json (filed r)) /\
    reached (expires_at (filed r)) now = false.

Lemma owner_approved_later ops op r r' :
  filed r' = filed r -> payload_json r' = payload_json r -> owner_approved ops r -> owner_approved (ops ++ [op]) r'.
Proof.
  intros Hf Hp (pre & shown & by_ & now & post & p & -> & H). exists pre, shown, by_, now, (post ++ [op]), p.
  unfold row_id in *. rewrite Hf, Hp, <-app_assoc. done.
Qed.

Lemma approve_ok t r shown by_ now p : NoDup (ids t) -> r ∈ t -> row_status r = pending ->
  reached (expires_at (filed r)) now = false -> is_executable r = true -> shown = checksum (filed r) ->
  payload_json r = Some p -> checksumOf (kind (filed r)) p (origin_json (filed r)) = checksum (filed r) ->
  (decide_entry t (row_id r) (Approve shown) by_ now).2 = DecideOk.
Proof.
  intros Hnd Hr Hs He Hx Hc Hp Hm. unfold decide_entry, checksumMatches. rewrite find_row_in by done.
  rewrite bool_decide_eq_true_2 by done. rewrite He, Hx, Hp, !bool_decide_eq_true_2 by done. cbn [negb orb].
  rewrite (surjective_pairing (update_where _ _ _ _)), (update_where_hit t _ _ r) by done. done.
Qed.

Lemma run_approved ops : NoDup (filed_ids ops) ->
  forall r, r ∈ run ops -> row_status r = approved \/ row_status r = executing -> owner_approved ops r.
Proof.
  revert ops. apply (run_invariant (fun ops t => forall r, r ∈ t -> row_status r = approved \/ row_status r = executing -> owner_approved ops r));
    [by intros r []%elem_of_nil|]. intros ops op _ Hnd _ IH r' Hr' Hs'.
  apply step_row in Hr' as [(r & Hr & Hst)|(i & inp & now & -> & -> & _)]; [|by destruct Hs'|done].
  pose proof (row_step_filed _ _ _ Hst) as Hf. specialize (IH r Hr). unfold row_status in *.
  remember (Some r') as after eqn:Ea. destruct Hst; try discriminate; injection Ea as <-;
    try (apply (owner_approved_later ops _ r); [done|done|apply IH; tauto]).
  - exists ops, shown, by_, now, [], p. split_and!; [done| |done|congruence|done]. apply (approve_ok _ r _ _ _ p); done.
  - by destruct Hs'.
  - by destruct Hs'.
  - subst. by destruct Hs'.
  - subst. by destruct Hs'.
  - unfold row_status in *. cbn in Hs'. destruct Hs'; congruence.
Qed.

(** C6. Nothing is sent that its owner did not approve as it is. An entry the executor wins was approved
    earlier in the trace, by a decision that carried the hash of exactly the kind, payload and origin the
    claimed entry holds; neither that decision nor the claim came at or after the entry's expiry, and the
    entry handed over is in [executing]. *)
Theorem claims_what_was_approved ops i now cap r :
  NoDup (filed_ids ops) -> (claim (run ops) i now cap).2 = Claimed r ->
  row_id r = i /\ row_status r = executing /\ owner_approved ops r /\ reached (expires_at (filed r)) now = false.
Proof.
  intros Hnd Hc. destruct (run_ids ops Hnd) as [Hn _].
  destruct (claim_cases (run ops) i now cap Hn) as [[_ Hno]|(r0 & Hr0 & Hi & Hs & He & _ & _ & E)]; [by destruct (Hno r)|].
  rewrite E in Hc. injection Hc as <-. split_and!; [done|done| |done].
  destruct (run_approved ops Hnd r0 Hr0 (or_introl Hs)) as (pre & shown & by_ & n & post & p & H).
  by exists pre, shown, by_, n, post, p.
Qed.

(** ** The same mail *)

(** The key a filing of the second entry is compared by: the family of a sent mail, the original of a reply. *)
Definition same_mail (r1 r2 : Row) : Prop :=
  match family_key (filed r2) with
  | Some f => family_key (filed r1) = Some f
  | None => dedup_key (filed r1) = dedup_key (filed r2)
  end.

(** The first entry was over when the second was filed: closed for good, and sent or discarded before the
    second's window. *)
Definition spaced (r1 r2 : Row) : Prop :=
  (dedup_key (filed r1) = dedup_key (filed r2) \/ same_mail r1 r2 -> active (row_status r1) = false) /\
  (same_mail r1 r2 -> let w := APPROVAL_DEDUP_WINDOW_MS (kind (filed r2)) in
    match row_status r1 with
    | done_ => later (executed_at (life r1)) (created_at (filed r2) - w) = false
    | rejected => decided_reason (life r1) = Some "cleared_unknown"%string \/
                  later (decided_at (life r1)) (created_at (filed r2) - w) = false
    | _ => True
    end).

Lemma newest_None l : newest l = None -> l = [].
Proof. destruct l as [|r l]; [done|]. cbn. destruct (newest l) as [x|]; [|done]. by destruct (_ <? _). Qed.

Lemma family_first_None l : family_first l = None -> l = [].
Proof. unfold family_first. case_match; [done|]. apply newest_None. Qed.

Definition ended_since (from : Z) (r : Row) : Prop :=
  row_status r = done_ /\ later (executed_at (life r)) from = true \/
  row_status r = rejected /\ later (decided_at (life r)) from = true /\ decided_reason (life r) <> Some "cleared_unknown"%string.

Lemma duplicate_None t k d fk now r : duplicate t k d fk now = None -> r ∈ t ->
  (dedup_key (filed r) = d -> active (row_status r) = false) /\
  (forall f, fk = Some f -> family_key (filed r) = Some f -> active (row_status r) = false) /\
  (match fk with Some f => family_key (filed r) = Some f | None => dedup_key (filed r) = d end ->
   ~ ended_since (now - APPROVAL_DEDUP_WINDOW_MS k) r).
Proof.
  unfold duplicate. intros H Hr. destruct (list_find _ t) as [[j x]|] eqn:El in H; [done|].
  apply list_find_None in El. rewrite Forall_forall in El. specialize (El r Hr). cbn beta in El.
  destruct (fk ≫= _) eqn:Ef in H; [done|]. destruct (newest _) eqn:En in H; [done|]. apply newest_None in En.
  split_and!.
  - intros Hd. destruct (active _); [|done]. by destruct El.
  - intros f -> Hf. cbn in Ef. apply family_first_None in Ef. destruct (active _) eqn:Ea; [|done]. exfalso.
    assert (r ∈ @nil Row) as []%elem_of_nil. rewrite <-Ef. by apply list_elem_of_filter.
  - intros Hsame He. assert (r ∈ @nil Row) as []%elem_of_nil. rewrite <-En. apply list_elem_of_filter. split; [|done].
    split; [|exact He]. destruct fk; by apply bool_decide_eq_true.
Qed.

Lemma file_spaced t i inp now r : not_duplicate t i inp now -> r ∈ t -> spaced r (new_row i inp now).
Proof.
  intros H Hr. destruct (duplicate_None _ _ _ _ _ r H Hr) as (Hd & Hf & He). unfold spaced, same_mail, ended_since in *.
  change (kind (filed (new_row i inp now))) with (f_kind (filing inp)). change (created_at (filed (new_row i inp now))) with now.
  set (fk := family_key (filed (new_row i inp now))) in *. split.
  - intros [Hk|Hk]; [by apply Hd|]. destruct fk as [f|]; [by apply (Hf f)|by apply Hd].
  - intros Hk. specialize (He Hk). cbv zeta. destruct (row_status r); try done.
    + destruct (later _ _); [|done]. exfalso. apply He. by left.
    + destruct (later (decided_at (life r)) _); [|by right]. left. destruct (decide (decided_reason (life r) = Some "cleared_unknown"%string)); [done|].
      exfalso. apply He. by right.
Qed.

Lemma row_step_inactive op r r' : active (row_status r) = false -> row_step op r (Some r') -> r' = r.
Proof.
  intros Ha Hst. remember (Some r') as after eqn:Ea. destruct Hst; try discriminate; injection Ea as <-; try done.
  all: exfalso; repeat match goal with E : row_status _ = _ |- _ => rewrite E in Ha | E : _ \/ _ |- _ => destruct E end; done.
Qed.

Lemma spaced_step op r1 r2 r1' r2' :
  spaced r1 r2 -> row_step op r1 (Some r1') -> row_step op r2 (Some r2') -> spaced r1' r2'.
Proof.
  intros [Ha Hw] H1 H2. pose proof (row_step_filed _ _ _ H1) as F1. pose proof (row_step_filed _ _ _ H2) as F2.
  unfold spaced, same_mail in *. rewrite F1, F2 in *. split.
  - intros Hk. specialize (Ha Hk). by rewrite (row_step_inactive _ _ _ Ha H1).
  - intros Hk. specialize (Ha (or_intror Hk)). rewrite (row_step_inactive _ _ _ Ha H1). by apply Hw.
Qed.

Lemma omap_sorted (R : relation Row) (g : Row -> option Row) t : StronglySorted R t ->
  (forall r1 r2 r1' r2', r1 ∈ t -> r2 ∈ t -> R r1 r2 -> g r1 = Some r1' -> g r2 = Some r2' -> R r1' r2') ->
  StronglySorted R (omap g t).
Proof.
  induction 1 as [|r t Ht IH Hr]; intros Hg; [constructor|]. csimpl.
  assert (StronglySorted R (omap g t)) as Ht' by (apply IH; intros; eapply Hg; [..|done|done|done]; set_solver).
  destruct (g r) as [r'|] eqn:E; [|done]. constructor; [done|]. apply Forall_forall. intros x (y & Hy & Hgy)%list_elem_of_omap.
  rewrite Forall_forall in Hr. apply (Hg r y); [set_solver..|by apply Hr|done|done].
Qed.

Lemma run_spaced ops : NoDup (filed_ids ops) -> StronglySorted spaced (run ops).
Proof.
  revert ops. apply (run_invariant (fun _ t => StronglySorted spaced t)); [constructor|]. intros ops op _ Hnd _ IH.
  destruct (step_shape (run ops) op Hnd) as (g & new & E & Hg & Hnew). rewrite E.
  assert (StronglySorted spaced (omap g (run ops))) as Ho.
  { apply omap_sorted; [done|]. intros r1 r2 r1' r2' H1 H2 Hs G1 G2.
    apply (spaced_step op r1 r2); [done|rewrite <-G1|rewrite <-G2]; by apply Hg. }
  destruct op; try (by subst new; rewrite app_nil_r). destruct Hnew as [->|[-> Hf]]; [by rewrite app_nil_r|].
  apply StronglySorted_app_2; [|done|repeat constructor]. intros r' x (r & Hr & Hgr)%list_elem_of_omap ->%list_elem_of_singleton.
  specialize (Hg r Hr). rewrite Hgr in Hg. assert (r' = r) as -> by by inversion Hg.
  by apply (file_spaced (run ops)).
Qed.

Definition dated (r : Row) : Prop :=
  match row_status r with
  | done_ => is_Some (executed_at (life r))
  | rejected => is_Some (decided_at (life r))
  | executing => is_Some (claimed_at (life r))
  | _ => True
  end.

Lemma row_step_dated op r r' : row_step op r (Some r') -> dated r -> dated r'.
Proof.
  intros Hst. remember (Some r') as after eqn:Ea. destruct Hst; try discriminate; injection Ea as <-; try done;
    unfold dated, row_status in *; cbn; subst; try done;
    try (by match goal with E : status _ = _ |- _ => rewrite E end); try (by destruct (status (life r))).
  destruct outcome; cbn in H0; destruct s, retry; naive_solver.
Qed.

Lemma run_dated ops : NoDup (filed_ids ops) -> forall r, r ∈ run ops -> dated r.
Proof.
  revert ops. apply (run_invariant (fun _ t => forall r, r ∈ t -> dated r)); [by intros r []%elem_of_nil|].
  intros ops op _ Hnd _ IH r' [(r & Hr & Hst)|(i & inp & now & -> & -> & _)]%step_row; [|done..].
  eapply row_step_dated; eauto.
Qed.

(** The same mail is not open twice and not sent again within its window. Of two entries of one table
    with the same dedup key or the same mail family (account, recipients, subject), the one filed first is
    no longer pending, approved, executing or unknown; and where the second is compared with it (a reply by
    the mail it answers, a sent mail by its family), the first, if it went out, went out at least the kind's
    window (14 days for a reply, one day for a new mail) before the second was filed, and if it was
    discarded, likewise, unless its owner cleared it as unknown. *)
Theorem same_mail_is_spaced ops j k r1 r2 :
  NoDup (filed_ids ops) -> run ops !! j = Some r1 -> run ops !! k = Some r2 -> (j < k)%nat ->
  let w := APPROVAL_DEDUP_WINDOW_MS (kind (filed r2)) in
  (dedup_key (filed r1) = dedup_key (filed r2) -> active (row_status r1) = false) /\
  (forall f, family_key (filed r1) = Some f -> family_key (filed r2) = Some f -> active (row_status r1) = false) /\
  (same_mail r1 r2 ->
   (row_status r1 = done_ -> exists e, executed_at (life r1) = Some e /\ e + w <= created_at (filed r2)) /\
   (row_status r1 = rejected -> decided_reason (life r1) <> Some "cleared_unknown"%string ->
    exists d, decided_at (life r1) = Some d /\ d + w <= created_at (filed r2))).
Proof.
  intros Hnd Hj Hk Hlt w. assert (spaced r1 r2) as [Ha Hw].
  { pose proof (run_spaced ops Hnd) as Hs. rewrite <-(take_drop k (run ops)) in Hs. eapply StronglySorted_app_1_elem_of; [exact Hs|..].
    - apply list_elem_of_lookup. exists j. by rewrite lookup_take_lt.
    - apply list_elem_of_lookup. exists 0%nat. by rewrite lookup_drop, Nat.add_0_r. }
  pose proof (run_dated ops Hnd r1 (list_elem_of_lookup_2 _ _ _ Hj)) as Hd. unfold dated in Hd. split_and!.
  - intros. apply Ha. by left.
  - intros f H1 H2. apply Ha. right. unfold same_mail. by rewrite H2.
  - intros Hsame. specialize (Hw Hsame). cbv zeta in Hw. fold w in Hw. split; intros Hs; rewrite Hs in *.
    + destruct Hd as [e He]. exists e. rewrite He in *. cbn in Hw. split; [done|lia].
    + intros Hc. destruct Hd as [d He]. exists d. rewrite He in *. destruct Hw as [Hw|Hw]; [done|]. cbn in Hw. split; [done|lia].
Qed.

(** ** The sweep *)

(** What the sweep leaves of an entry: nothing it would move, empty or delete at that time. *)
Definition live (inp : SweepInput) (now : Z) (r : Row) : Prop :=
  match row_status r with
  | pending => reached (expires_at (filed r)) now = false
  | approved => reached (expires_at (filed r)) now = false /\
      (is_Some (held_reason (life r)) /\ flagOn inp = true \/
       exists d, decided_at (life r) = Some d /\ now < Z.max d (engineStartedAt inp) + APPROVAL_CLAIM_WINDOW_MS)
  | executing => exists c, claimed_at (life r) = Some c /\ now < c + APPROVAL_CLAIM_STALE_MS
  | _ => True
  end.
Definition settled (inp : SweepInput) (now : Z) (r : Row) : Prop :=
  live inp now r /\ match purge_after (life r), tombstoned_at (life r) with Some p, None => now < p | _, _ => True end.

Lemma settled_fixed inp now r : settled inp now r -> purge_row now (sweep_row inp now r) = Some r.
Proof.
  intros [Hs Hp]. assert (sweep_row inp now r = r) as ->.
  { unfold sweep_row, live in *. destruct (row_status r); try done.
    - by rewrite Hs.
    - destruct Hs as [-> [[[h ->] ->]|(d & -> & Hd)]]; [done|]. rewrite (proj2 (Z.ltb_lt _ _) Hd). cbn. by repeat case_match.
    - destruct Hs as (c & -> & Hc). by rewrite (proj2 (Z.ltb_lt _ _) Hc). }
  unfold purge_row. destruct (purge_after _) as [p|], (tombstoned_at (life r)); try done.
  unfold reached. by rewrite (proj2 (Z.ltb_lt _ _) Hp).
Qed.

Lemma sweep_row_live inp now r : live inp now (sweep_row inp now r).
Proof.
  assert (forall s reason, active s = false \/ s = unknown -> live inp now (swept s reason now r)) as Hsw.
  { intros s reason Hs. unfold live, row_status. cbn. destruct s; try done; by destruct Hs. }
  unfold sweep_row. destruct (row_status r) eqn:Es; try (unfold live; by rewrite Es).
  - destruct (reached _ _) eqn:Er; [apply Hsw; by left|]. unfold live. by rewrite Es.
  - assert (forall b, b = true -> (let window_open := match decided_at (life r) with
      | Some d => now <? Z.max d (engineStartedAt inp) + APPROVAL_CLAIM_WINDOW_MS | None => false end in
      negb window_open || reached (expires_at (filed r)) now) = negb b -> live inp now r) as Hopen.
    { intros b -> H. unfold live. rewrite Es. apply orb_false_iff in H as [Hw ->]. split; [done|right].
      destruct (decided_at _) as [d|]; [|done]. exists d. split; [done|]. apply negb_false_iff in Hw. lia. }
    destruct (held_reason _) as [h|] eqn:Eh, (flagOn inp) eqn:Ef; cbv zeta in *.
    1: { destruct (reached _ _) eqn:Er; [apply Hsw; by left|]. unfold live. rewrite Es, Ef, Eh. split; [done|left]. eauto. }
    all: destruct (negb _ || _); [apply Hsw; by left|by apply (Hopen true)].
  - destruct (claimed_at _) as [c|] eqn:Ec; [|apply Hsw; by right].
    destruct (Z.ltb_spec now (c + APPROVAL_CLAIM_STALE_MS)); [|apply Hsw; by right]. unfold live. rewrite Es. eauto.
Qed.

Lemma purge_row_settles inp now r r' : live inp now r -> purge_row now r = Some r' -> settled inp now r'.
Proof.
  intros Hl. unfold purge_row, settled. destruct (purge_after _) as [p|] eqn:Ep, (tombstoned_at (life r)) as [x|] eqn:Et;
    try (intros [= <-]; by rewrite Ep, ?Et).
  destruct (reached _ now) eqn:Er.
  - case_bool_decide as Hu; [|done]. destruct (keyed _); [|done]. intros [= <-]. split; [|done].
    unfold live, row_status in *. cbn. by rewrite Hu.
  - intros [= <-]. rewrite Ep, Et. split; [done|]. unfold reached in Er. apply negb_false_iff in Er. lia.
Qed.

(** One sweep settles the queue. After it no pending entry has reached its expiry, an approved one is
    unexpired and held (with the queue on) or within its claim window, a claim is younger than the stale
    limit, and what has reached its purge time is gone or a tombstone; and a second sweep at the same time
    changes nothing. *)
Theorem sweep_settles t inp now :
  (forall r, r ∈ sweep t inp now -> settled inp now r) /\ sweep (sweep t inp now) inp now = sweep t inp now.
Proof.
  assert (forall t, sweep t inp now = omap (fun r => purge_row now (sweep_row inp now r)) t) as Hsw.
  { clear t. intros t. unfold sweep. induction t as [|r t IH]; [done|]. csimpl. by rewrite IH. }
  assert (forall r, r ∈ sweep t inp now -> settled inp now r) as Hall.
  { intros r'. rewrite Hsw. intros (r & _ & Hr)%list_elem_of_omap. eapply purge_row_settles; [apply sweep_row_live|done]. }
  split; [done|]. rewrite (Hsw (sweep t inp now)). revert Hall. generalize (sweep t inp now) as l.
  induction l as [|r l IH]; intros Hl; [done|]. csimpl. rewrite settled_fixed by (apply Hl; set_solver).
  f_equal. apply IH. set_solver.
Qed.

(** ** The send limit *)

(** A limit on the sends of an hour and of a day. *)
Definition limit (h d : nat) (hour day : nat) : bool := (hour <? h)%nat && (day <? d)%nat.

Definition op_time (op : Op) : Z :=
  match op with
  | OFile _ _ n | ODecide _ _ _ n | OHold _ _ n | OHoldKind _ n | OClaim _ n _ | OFinish _ _ _ n | OSweep _ n => n
  end.
(** The clock of a trace does not go back. *)
Definition in_order (ops : list Op) : Prop := StronglySorted Z.le (op_time <$> ops).
(** Every claim is under the limit. *)
Definition limited (h d : nat) (op : Op) : Prop :=
  match op with OClaim _ _ cap => cap = Some (limit h d) | _ => True end.

Definition sent (k : ApprovalKind) (from : Z) (r : Row) : Prop :=
  kind (filed r) = k /\ counts_as_sent (row_status r) = true /\ later (claimed_at (life r)) from = true.

Lemma claimed_since_alt t k from : claimed_since t k from = length (filter (sent k from) t).
Proof. done. Qed.

Lemma claimed_since_le t k f1 f2 : f1 <= f2 -> (claimed_since t k f2 <= claimed_since t k f1)%nat.
Proof.
  intros Hf. unfold claimed_since. induction t as [|r t IH]; [done|]. rewrite !filter_cons.
  assert (later (claimed_at (life r)) f2 = true -> later (claimed_at (life r)) f1 = true) by (unfold later; case_match; [lia|done]).
  case_decide as H2; case_decide as H1; cbn [length]; try lia. tauto.
Qed.

Lemma sent_omap t g k from :
  (forall r r', r ∈ t -> g r = Some r' -> sent k from r' -> sent k from r) ->
  (length (filter (sent k from) (omap g t)) <= length (filter (sent k from) t))%nat.
Proof.
  induction t as [|r t IH]; intros Hg; [done|]. csimpl.
  assert (length (filter (sent k from) (omap g t)) <= length (filter (sent k from) t))%nat as Ht by (apply IH; set_solver).
  rewrite (filter_cons _ r t). destruct (g r) as [r'|] eqn:E; [|case_decide; cbn; lia].
  rewrite filter_cons. case_decide as H'; case_decide as H; cbn [length]; try lia.
  exfalso. apply H, (Hg r r'); set_solver.
Qed.

Lemma row_step_sent op r r' k from : match op with OClaim _ _ _ => False | _ => True end ->
  row_step op r (Some r') -> sent k from r' -> sent k from r.
Proof.
  intros Hop Hst. remember (Some r') as after eqn:Ea. destruct Hst as [| | | | | | |outcome result res now r s retry Hex Ho|
    inp now reason r x Hs ->|inp now reason r x Hex ->| |]; try discriminate; injection Ea as <-; try done;
    unfold sent, row_status in *; cbn; try (by intros (_ & [=] & _)); try done.
  - destruct outcome; cbn in Ho; rewrite Hex; destruct s, retry; naive_solver.
  - by rewrite Hex.
Qed.

Lemma claimed_since_step t op k from : NoDup (ids t) -> match op with OClaim _ _ _ => False | _ => True end ->
  (claimed_since (step t op) k from <= claimed_since t k from)%nat.
Proof.
  intros Hnd Hop. destruct (step_shape t op Hnd) as (g & new & E & Hg & Hnew). rewrite E, !claimed_since_alt, filter_app, length_app.
  assert (filter (sent k from) new = []) as ->.
  { destruct op; try (by subst new). destruct Hnew as [->|[-> _]]; [done|]. rewrite filter_cons.
    rewrite decide_False; [done|]. by intros (_ & [=] & _). }
  rewrite Nat.add_0_r. apply sent_omap. intros r r' Hr Hgr. apply (row_step_sent op); [done|]. rewrite <-Hgr. by apply Hg.
Qed.

(** A claim adds at most the entry it claims. *)
Lemma claimed_since_claim t i now k from : NoDup (ids t) ->
  (claimed_since (update_where i approved (claimed now) t).1 k from <= S (claimed_since t k from))%nat.
Proof.
  intros Hnd. unfold update_where. cbn [fst]. rewrite !claimed_since_alt.
  set (h r := if decide _ then claimed now r else r).
  assert (forall l : Table, (forall r, r ∈ l -> row_id r <> i) -> h <$> l = l) as Hid.
  { intros l Hl. induction l as [|r l IH]; [done|]. csimpl. rewrite IH by set_solver. unfold h.
    rewrite decide_False; [done|]. intros [? _]. apply (Hl r); set_solver. }
  induction t as [|r t IH]; [cbn; lia|]. apply NoDup_cons in Hnd as [Hr Hnd]. rewrite fmap_cons, !filter_cons.
  destruct (decide (row_id r = i)) as [Hri|Hri].
  - rewrite (Hid t). { repeat case_decide; cbn [length]; lia. }
    intros x Hx Hxi. apply Hr, list_elem_of_fmap. exists x. split; [congruence|done].
  - assert (h r = r) as -> by (unfold h; rewrite decide_False; [done|tauto]). specialize (IH Hnd).
    case_decide; cbn [length]; lia.
Qed.

Lemma claimed_since_other t i now k from : (forall r, r ∈ t -> row_id r = i -> kind (filed r) <> k) ->
  (claimed_since (update_where i approved (claimed now) t).1 k from <= claimed_since t k from)%nat.
Proof.
  intros Hk. unfold update_where. cbn [fst]. rewrite !claimed_since_alt, <-omap_Some_map. apply sent_omap.
  intros r r' Hr [= <-] Hs. case_decide as Hd; [|done]. destruct Hs as [Hkr _], Hd as [Hi _]. by destruct (Hk r Hr Hi).
Qed.

Definition under_limit (h d : nat) (ops : list Op) (t : Table) : Prop :=
  forall k T, (forall op, op ∈ ops -> op_time op <= T) ->
    (claimed_since t k (T - HOUR) <= h /\ claimed_since t k (T - DAY) <= d)%nat.

Lemma under_limit_step h d ops op : NoDup (ids (run ops)) -> limited h d op ->
  (forall o, o ∈ ops -> op_time o <= op_time op) ->
  under_limit h d ops (run ops) -> under_limit h d (ops ++ [op]) (step (run ops) op).
Proof.
  intros Hnd Hlim Htime IH k T HT. assert (forall o, o ∈ ops -> op_time o <= T) as HT' by (intros; apply HT; set_solver).
  assert (op_time op <= T) as Hop by (apply HT; set_solver). destruct (IH k T HT') as [IHh IHd].
  assert (match op with OClaim _ _ _ => False | _ => True end \/ exists i now, op = OClaim i now (Some (limit h d))) as [Hc|(i & now & ->)].
  { destruct op; auto. cbn in Hlim. subst. eauto. }
  { pose proof (claimed_since_step (run ops) op k (T - HOUR) Hnd Hc). pose proof (claimed_since_step (run ops) op k (T - DAY) Hnd Hc). lia. }
  cbn [step op_time] in *. destruct (claim_cases (run ops) i now (Some (limit h d)) Hnd) as [[[->| ->] _]|(r & Hr & Hi & Hs & _ & _ & Hcap & E)].
  - done.
  - change (update_where i approved (held "send_limit" now) (run ops)).1 with (step (run ops) (OHold i "send_limit" now)).
    pose proof (claimed_since_step (run ops) (OHold i "send_limit" now) k (T - HOUR) Hnd I).
    pose proof (claimed_since_step (run ops) (OHold i "send_limit" now) k (T - DAY) Hnd I). lia.
  - rewrite E. cbn [fst]. destruct (decide (kind (filed r) = k)) as [<-|Hk].
    + pose proof (claimed_since_claim (run ops) i now (kind (filed r)) (T - HOUR) Hnd).
      pose proof (claimed_since_claim (run ops) i now (kind (filed r)) (T - DAY) Hnd).
      pose proof (claimed_since_le (run ops) (kind (filed r)) (now - HOUR) (T - HOUR) ltac:(lia)).
      pose proof (claimed_since_le (run ops) (kind (filed r)) (now - DAY) (T - DAY) ltac:(lia)).
      unfold limit in Hcap. apply andb_true_iff in Hcap as [Hch%Nat.ltb_lt Hcd%Nat.ltb_lt]. lia.
    + assert (forall x, x ∈ run ops -> row_id x = i -> kind (filed x) <> k) as Ho.
      { intros x Hx Hxi. assert (x = r) as -> by (apply (same_row (run ops)); congruence). done. }
      pose proof (claimed_since_other (run ops) i now k (T - HOUR) Ho). pose proof (claimed_since_other (run ops) i now k (T - DAY) Ho). lia.
Qed.

(** The send limit holds. When the clock does not go back and every claim is made under a limit of
    [h] entries an hour and [d] a day, then at every later time at most [h] entries of a kind that are being
    sent, were sent or may have been sent were claimed within the hour before it, and at most [d] within
    the day, whatever failed, was retried, was cleared or was purged in between. *)
Theorem send_limit_holds h d ops k T :
  NoDup (filed_ids ops) -> in_order ops -> Forall (limited h d) ops -> Forall (fun op => op_time op <= T) ops ->
  (claimed_since (run ops) k (T - HOUR) <= h)%nat /\ (claimed_since (run ops) k (T - DAY) <= d)%nat.
Proof.
  intros Hnd Hord Hlim HT. rewrite Forall_forall in HT. cut (under_limit h d ops (run ops)); [intros H; by apply H|]. clear HT k T.
  induction ops as [|op ops IH] using rev_ind; [intros k T _; cbn; lia|].
  rewrite run_snoc. apply Forall_app in Hlim as [Hl1 Hl2]. rewrite Forall_singleton in Hl2. unfold in_order in *.
  rewrite fmap_app in Hord. pose proof (NoDup_snoc _ _ Hnd) as Hnd'. destruct (run_ids ops Hnd') as [Hn _].
  apply under_limit_step; [done|done| |by apply IH; [| eapply StronglySorted_app_1_l|]].
  intros o Ho. apply (StronglySorted_app_1_elem_of _ _ _ _ _ Hord); [by apply list_elem_of_fmap_2|]. by apply list_elem_of_singleton.
Qed.
End Store.

(** ** Concrete runs *)

Definition sample_hash (l : list string) : string := String.concat "|" l.
Definition sample_sha (s : string) : string := s.
Definition sample_parse (s : string) : option jval :=
  if decide (s = "P"%string) then
    Some (JObj [("accountId", JStr "acc"); ("fromAddress", JStr "me@x"); ("to", JArr [JObj [("address", JStr "a@b")]]);
      ("cc", JArr []); ("bcc", JArr []); ("subject", JStr "Hi"); ("bodyText", JStr "text"); ("trackFollowup", JNull)])%string
  else if decide (s = "O"%string) then
    Some (JObj [("source", JStr "task"); ("triggerId", JStr "t1"); ("runId", JStr "r1"); ("rootRunId", JStr "r1")])%string
  else None.

Definition sample_input : FileApprovalInput :=
  {| filing := {| f_kind := mail_send; f_payload := {| accountId := "acc"; to_ := ["A@b "]; cc_ := []; bcc_ := []; subject := " Hi";
       bodyText := "text"; originalMessageId := None; originalFolderUid := ""; payload_text := "P" |} |};
     origin := {| o_source := "task"; triggerId := "t1"; runId := "r1"; rootRunId := "r1"; eventId := None; origin_text := "O" |};
     createdBy := None; mandateId := None; maxPendingPerTrigger := Some 3 |}.

Definition sample_shown : string := "approval-entry-v1|mail_send|P|O".

(** Filed, approved, tried twice, sent; the same mail filed again within the day and after it. *)
Definition sample_ops : list Op :=
  [OFile "e1" sample_input 0; OFile "e2" sample_input 5; ODecide "e1" (Approve sample_shown) "owner" 10;
   OClaim "e1" 20 (Some (limit 2 5)); OFinish "e1" f_retry JNull 30;
   OClaim "e1" 100000 (Some (limit 2 5)); OFinish "e1" f_done JNull 100010;
   OFile "e3" sample_input 200000; OFile "e4" sample_input 86500010].

Lemma sample_fresh : NoDup (filed_ids sample_ops).
Proof. apply (bool_decide_unpack _). vm_compute. exact I. Defined.

Lemma each_status_has_one_writer_witness : exists r,
  r ∈ run sample_hash true sample_sha sample_parse (take 3 sample_ops) /\
  lawful_step (OClaim "e1" 20 (Some (limit 2 5))) r
    (find_row (run sample_hash true sample_sha sample_parse (take 3 sample_ops ++ [OClaim "e1" 20 (Some (limit 2 5))])) (row_id r)).
Proof.
  eexists. assert (forall P Q : Prop, P -> (P -> Q) -> P /\ Q) as Hand by tauto. apply Hand; [vm_compute; left|].
  intros Hr. apply (each_status_has_one_writer sample_hash true sample_sha sample_parse (take 3 sample_ops)); [|exact Hr].
  apply (bool_decide_unpack _). vm_compute. exact I.
Defined.

Lemma claimed_once_per_retry_witness :
  tally sample_hash true sample_sha sample_parse (sent_back "e1") sample_ops = 1 /\
  tally sample_hash true sample_sha sample_parse (wins sample_parse "e1") sample_ops = 2 /\
  tally sample_hash true sample_sha sample_parse (wins sample_parse "e1") sample_ops <= APPROVAL_MAX_ATTEMPTS.
Proof.
  split; [vm_compute; reflexivity|split; [vm_compute; reflexivity|]].
  exact (proj2 (claimed_once_per_retry sample_hash true sample_sha sample_parse "e1" sample_ops sample_fresh)).
Defined.

Definition sample_run (n : nat) : list Row := run sample_hash true sample_sha sample_parse (take n sample_ops).

Lemma claims_what_was_approved_witness : exists r,
  (claim sample_parse (sample_run 5) "e1" 100000 None).2 = Claimed r /\
  owner_approved sample_hash true sample_sha sample_parse (take 5 sample_ops) r.
Proof.
  eexists. assert (forall P Q : Prop, P -> (P -> Q) -> P /\ Q) as Hand by tauto. apply Hand; [vm_compute; reflexivity|].
  intros Hc. apply (claims_what_was_approved sample_hash true sample_sha sample_parse (take 5 sample_ops) "e1" 100000 None); [|exact Hc].
  apply (bool_decide_unpack _). vm_compute. exact I.
Defined.

(** The second filing within the day is refused, one after it is taken: the first was over by then. *)
Lemma same_mail_is_spaced_witness : exists r1 r2,
  sample_run 9 !! 0%nat = Some r1 /\ sample_run 9 !! 1%nat = Some r2 /\ row_id r1 = "e1"%string /\ row_id r2 = "e4"%string /\
  same_mail r1 r2 /\ row_status r1 = done_ /\
  exists e, executed_at (life r1) = Some e /\ e + APPROVAL_DEDUP_WINDOW_MS (kind (filed r2)) <= created_at (filed r2).
Proof.
  do 2 eexists. assert (forall P Q : Prop, P -> (P -> Q) -> P /\ Q) as Hand by tauto.
  apply Hand; [vm_compute; reflexivity|]. intros H1. apply Hand; [vm_compute; reflexivity|]. intros H2.
  split; [reflexivity|]. split; [reflexivity|]. apply Hand; [reflexivity|]. intros Hs. apply Hand; [reflexivity|]. intros Hd.
  destruct (same_mail_is_spaced sample_hash true sample_sha sample_parse sample_ops 0 1 _ _ sample_fresh H1 H2) as (_ & _ & H); [lia|].
  exact (proj1 (H Hs) Hd).
Defined.

Lemma send_limit_holds_witness :
  claimed_since (sample_run 8) mail_send (200000 - DAY) = 1%nat /\ (claimed_since (sample_run 8) mail_send (200000 - DAY) <= 5)%nat.
Proof.
  split; [vm_compute; reflexivity|].
  apply (send_limit_holds sample_hash true sample_sha sample_parse 2 5 (take 8 sample_ops) mail_send 200000).
  - apply (bool_decide_unpack _). vm_compute. exact I.
  - unfold in_order. cbn. repeat constructor; vm_compute; discriminate.
  - repeat constructor.
  - repeat constructor; vm_compute; discriminate.
Defined.
