(* ===== verification/Runner.v ===== *)
(** The workflow runner, [orchestrator/runner.ts]: the refusals before a run, the execution of one
    step from the checks before it to the record after it, and the phases of a run with their bound
    on parallel steps.

    A step is an asynchronous function that shares the run's state with its siblings, so it is
    modelled as the stretches between its awaits: [begin_step] up to the first one, [react] from an
    answer to the next. A run takes a list of actions, in any order the code's awaits allow: start the
    next phase, start the next step of the phase, resume a step with the answer it waits for. The workers of
    a bounded phase are part of the state: each takes a step at the head of its loop and awaits it. What an
    agent answers, the owner's stop, the question channel and the store of ends are read from the
    action. Left out: the timestamps, the observability rows of the history, hooks that throw, and
    what is handed to an agent besides its context. *)
From S2P Require Import Prelude Num JsString JsValue Manifest Graph CostGuard SessionBudget Principal RunSource StepContext.

(** ** State *)

Inductive Status : Set := Running | Completed | Failed | Rejected.
#[export] Instance Status_eq_dec : EqDecision Status.
Proof. solve_decision. Defined.

(** The figures of an exceeded bound stand for its message. *)
Inductive RunError := Message (s : string) | StepLimit (n : num) | WallClockLimit (ms : num) | SpendLimit (usd : num).

(** What a step throws. *)
(** @src src/src/types/orchestration.ts 125-137 GateRejectedError *)
Inductive StepError :=
| Plain (message : string)
| NestedRunEnded (runError message : string)
| GateRejected (stepId : string) (reason : option string)
| GateExpired (stepId : string).

Definition quoted (s : string) : string := (unchars [chr 34] ++ s ++ unchars [chr 34])%string.
Definition error_message (e : StepError) : string :=
  match e with
  | Plain m | NestedRunEnded _ m => m
  | GateRejected id reason =>
      "Gate rejected step " ++ quoted id ++ (if falsy reason then "" else ": " ++ default "" reason)
  | GateExpired id => "Gate timed out for step " ++ quoted id
  end%string.

Inductive RowStatus : Set := row_skipped | row_failed | row_completed.
#[export] Instance RowStatus_eq_dec : EqDecision RowStatus.
Proof. solve_decision. Defined.

(** @src src/src/orchestrator/runner.ts 1014-1025 StepRowAccumulator *)
Record StepRow := { row_step : string; row_status : RowStatus; row_result : string; row_costUsd : num;
  row_tokensIn : num; row_tokensOut : num; row_durationMs : num }.

(** @src src/src/types/orchestration.ts 120-123 GateDecision *)
Inductive GateDecision := Approved | GRejected (reason : option string) | GTimeout.

(** The hooks a run calls, in order. *)
(** @src src/src/types/orchestration.ts 92-105 RunHooks *)
Inductive Hook :=
| onStepStart (id : string) | onStepComplete (o : AgentOutput) | onStepSkipped (id : string)
| onStepRetrySkipped (id : string) | onGateSubmit (id : string) | onGateDecision (id : string) (d : GateDecision)
| onStepNotify (id : string) (e : StepError) | onError (id : string) (e : StepError)
| onPhaseStart (ids : list string) | onPhaseComplete.

(** The run's state, the session counter its steps charge, the recorded rows and the hooks called. *)
(** @src src/src/types/orchestration.ts 79-90 RunState *)
Record RunState := { status : Status; error : option RunError; globalContext : context;
  outputs : list (string * AgentOutput); costUSD : num; stepRows : list StepRow; log : list Hook }.

Definition set_end (st : RunState) (s : Status) (e : RunError) : RunState :=
  {| status := s; error := Some e; globalContext := globalContext st; outputs := outputs st;
     costUSD := costUSD st; stepRows := stepRows st; log := log st |}.
Definition put_output (st : RunState) (id : string) (o : AgentOutput) : RunState :=
  {| status := status st; error := error st; globalContext := globalContext st;
     outputs := jm_set (outputs st) id o; costUSD := costUSD st; stepRows := stepRows st; log := log st |}.
Definition set_cost (st : RunState) (c : num) : RunState :=
  {| status := status st; error := error st; globalContext := globalContext st; outputs := outputs st;
     costUSD := c; stepRows := stepRows st; log := log st |}.
Definition add_row (st : RunState) (rows : list StepRow) : RunState :=
  {| status := status st; error := error st; globalContext := globalContext st; outputs := outputs st;
     costUSD := costUSD st; stepRows := stepRows st ++ rows; log := log st |}.
Definition hook (st : RunState) (h : Hook) : RunState :=
  {| status := status st; error := error st; globalContext := globalContext st; outputs := outputs st;
     costUSD := costUSD st; stepRows := stepRows st; log := log st ++ [h] |}.

(** @src src/src/types/pipeline.ts 16-40 WorkflowLimits *)
Record WorkflowLimits := { maxWallClockMs : option num; maxIterations : option num;
  maxSpendUsd : option num; maxParallelSteps : option num }.

(** What a run is given, and what stays the same throughout it. *)
(** @src src/src/orchestrator/runner.ts 33-46 RunManifestOptions *)
Record Options := { manifest : Manifest; source : option RunSource; depth : nat;
  cachedOutputs : option (list (string * AgentOutput)); mockResponses : bool; parentTools : bool;
  gateAdapter : bool; runHistory : bool; contextLimit : option num; limits : option WorkflowLimits;
  maxSessionCost : num }.

(** @src src/src/core/workflow-questions.ts 13-14 UnansweredBecause *)
Inductive UnansweredBecause := expired | not_asked | thread_deleted.

(** What the checks around a step read at that moment: the owner's stop, the question channel and the
    store of mandate ends. *)
Record Checks := { stopped : bool; unanswered : option UnansweredBecause; c_ends : Ends }.

(** ** Bounds and checks *)

(** @src src/src/orchestrator/workflow-stop.ts 1-28 texts *)
Definition WORKFLOW_STOPPED_ERROR : string := "Workflow stopped by its owner.".
Definition WORKFLOW_QUESTION_UNANSWERED_ERROR : string := "Question not answered: the workflow waited for an answer until the question expired.".
Definition WORKFLOW_QUESTION_NOT_ASKED_ERROR : string := "Question not asked: the workflow could not put its question to its owner, so it stopped before acting without an answer.".
Definition WORKFLOW_QUESTION_THREAD_DELETED_ERROR : string := "Question withdrawn: the conversation it was asked in was deleted, so the workflow stopped before acting without an answer.".

Definition is_running (st : RunState) : bool := bool_decide (status st = Running).

(** A cause the run ends with, unless it already ended on one of its own. *)
Definition end_unless_ended (st : RunState) (cause : string) : RunState :=
  if is_running st then set_end st Failed (Message cause) else st.

(** @src src/src/orchestrator/runner.ts 357-368 stoppedByOwner *)
Definition stoppedByOwner (c : Checks) (st : RunState) : option RunState :=
  if negb (stopped c) then None else Some (end_unless_ended st WORKFLOW_STOPPED_ERROR).

(** @src src/src/orchestrator/runner.ts 370-386 questionUnanswered *)
Definition questionUnanswered (c : Checks) (st : RunState) : option RunState :=
  match unanswered c with
  | None => None
  | Some because =>
      Some (end_unless_ended st match because with
        | not_asked => WORKFLOW_QUESTION_NOT_ASKED_ERROR
        | thread_deleted => WORKFLOW_QUESTION_THREAD_DELETED_ERROR
        | expired => WORKFLOW_QUESTION_UNANSWERED_ERROR end)
  end.

(** The source with the store as it answers now. *)
Definition saved_now (s : SavedRunSource) (c : Checks) : RunSource :=
  Saved {| workflowId := workflowId s; authors := authors s; ends := (fun _ => c_ends c) <$> ends s |}.

(** @src src/src/orchestrator/runner.ts 842-867 stopForEndedAuthor *)
Definition stopForEndedAuthor (o : Options) (c : Checks) (st : RunState) : option RunState :=
  match heldSource (source o) with
  | None => None
  | Some saved =>
      match sourceRefusal (saved_now saved c) (depth o) with
      | Ok None => None
      | Ok (Some _) => Some (end_unless_ended st WORKFLOW_ENDED_MID_RUN_ERROR)
      | Err _ => Some (end_unless_ended st WORKFLOW_END_CHECK_FAILED_ERROR)
      end
  end.

(** The three checks before a step. *)
Definition halted (o : Options) (c : Checks) (st : RunState) : option RunState :=
  match stoppedByOwner c st with
  | Some st' => Some st'
  | None => match questionUnanswered c st with
            | Some st' => Some st'
            | None => stopForEndedAuthor o c st
            end
  end.

(** [now - startMs] with the paused time taken out is [elapsedMs]. *)
(** @src src/src/orchestrator/runner.ts 388-422 workflowBoundExceeded *)
Definition workflowBoundExceeded (limits : option WorkflowLimits) (elapsedMs : num) (iterations : Z) (spent : num)
    : option RunError :=
  match limits with
  | None => None
  | Some l =>
      match maxIterations l with
      | Some n => if (num_of_Z iterations >=? n)%num then Some (StepLimit n) else None
      | None => None
      end ∪
      match maxWallClockMs l with
      | Some ms => if (elapsedMs >? ms)%num then Some (WallClockLimit ms) else None
      | None => None
      end ∪
      match maxSpendUsd l with
      | Some usd => if (spent >? usd)%num then Some (SpendLimit usd) else None
      | None => None
      end
  end.

Definition MAX_PIPELINE_DEPTH : nat := 3.

(** @src src/src/orchestrator/runner.ts 424-429 getExecutionMode *)
Definition getExecutionMode (m : Manifest) : Execution :=
  match manifest_version m with v1_0 => sequential | v1_1 => default parallel (manifest_execution m) end.

(** @src src/src/orchestrator/validate.ts 69-77 parallelStepCapFor *)
Definition parallelStepCapFor (requested : option num) (fallback : num) : option num :=
  match requested with
  | None => None
  | Some n => if num_eqb n PInf then None
              else if negb (isFinite n) || (n <? num_of_Z 1)%num then Some fallback else Some (num_trunc n)
  end.

(** ** One step *)

(** What a finished agent brings, with its cost. *)
Record StepRun := { r_result : string; r_tokensIn : num; r_tokensOut : num; r_durationMs : num; r_costUsd : num }.
Definition no_spend : StepRun :=
  {| r_result := ""; r_tokensIn := zero; r_tokensOut := zero; r_durationMs := zero; r_costUsd := zero |}.

(** Where a step waits: for its agent definition, for its agent (with the estimate it reserved and the
    prices it is charged at, [None] for a mock or a sub-run), for the gate to take its submission, for
    the decision. *)
Inductive Progress :=
| Loading
| Spawning (charge : option (num * ModelPricing))
| Submitting (r : StepRun)
| Deciding (r : StepRun).

(** What it is resumed with: the prices of the model the definition resolves to, the agent's result
    (its cost still to be computed), the gate's answers, or an error. *)
Inductive Event :=
| Loaded (p : ModelPricing)
| Returned (r : StepRun)
| Submitted
| Decided (d : GateDecision)
| Throws (e : StepError).

Inductive StepResult : Set := ok | halt.
#[export] Instance StepResult_eq_dec : EqDecision StepResult.
Proof. solve_decision. Defined.
Inductive Outcome := Waits (p : Progress) | Settles (r : StepResult).

Section Steps.
Variable num_text : Q -> string.
(** The text of a refused budget check. *)
Variable budget_text : SessionBudgetError -> string.
(** The prices of the model an inline step resolves to. *)
Variable inlinePricing : ManifestStep -> ModelPricing.
(** Whether the history took a step's row. *)
Variable rowInserted : string -> bool.
Variable o : Options.

(** @src src/src/orchestrator/runner.ts 1027-1080 recordStepRow *)
Definition recordStepRow (step : ManifestStep) (out : AgentOutput) (st : RunState) : RunState :=
  if negb (runHistory o && rowInserted (step_id step)) then st
  else add_row st [{| row_step := step_id step;
    row_status := if o_skipped out then row_skipped else if falsy (o_error out) then row_completed else row_failed;
    row_result := o_result out; row_costUsd := o_costUsd out; row_tokensIn := o_tokensIn out;
    row_tokensOut := o_tokensOut out; row_durationMs := o_durationMs out |}].

(** @src src/src/orchestrator/runner.ts 1400-1407 makeSkipped *)
Definition makeSkipped (stepId reason : string) : AgentOutput :=
  mkOutput stepId "" zero zero zero zero true (Some reason) None.

Definition failed_output (stepId : string) (r : StepRun) (message : string) : AgentOutput :=
  mkOutput stepId "" (r_durationMs r) (r_tokensIn r) (r_tokensOut r) (r_costUsd r) false None (Some message).

Definition is_gate_error (e : StepError) : bool :=
  match e with GateRejected _ _ | GateExpired _ => true | _ => false end.
Definition run_error_text (st : RunState) : option string :=
  match error st with Some (Message m) => Some m | _ => None end.

(** The [catch]: [spent] is what the step had spent when it threw. *)
(** @src src/src/orchestrator/runner.ts 1309-1398 executeStep *)
Definition fail_step (c : Checks) (step : ManifestStep) (spent : StepRun) (e : StepError) (st : RunState)
    : Outcome * RunState :=
  let id := step_id step in
  let msg := error_message e in
  let st := hook st (onError id e) in
  let st := recordStepRow step (failed_output id spent msg) st in
  match stoppedByOwner c st with Some st => (Settles halt, st) | None =>
  match questionUnanswered c st with Some st => (Settles halt, st) | None =>
  match e with
  | NestedRunEnded cause _ => (Settles halt, end_unless_ended st cause)
  | _ =>
      let on_failure := manifest_on_failure (manifest o) in
      if (is_gate_error e || bool_decide (on_failure = on_stop)) && negb (is_running st) &&
         isAuthorStop (run_error_text st)
      then (Settles halt, st)
      else if is_gate_error e then (Settles halt, set_end st Rejected (Message msg))
      else if bool_decide (on_failure = on_stop) then (Settles halt, set_end st Failed (Message msg))
      else
        let st := put_output st id (failed_output id no_spend msg) in
        (Settles ok, if bool_decide (on_failure = on_notify) then hook st (onStepNotify id e) else st)
  end end end.

(** @src src/src/orchestrator/runner.ts 1275-1307 executeStep *)
Definition complete_step (step : ManifestStep) (r : StepRun) (st : RunState) : Outcome * RunState :=
  let out := mkOutput (step_id step) (r_result r) (r_durationMs r) (r_tokensIn r) (r_tokensOut r) (r_costUsd r)
    false None None in
  (Settles ok, recordStepRow step out (hook (put_output st (step_id step) out) (onStepComplete out))).

Definition step_estimate (p : ModelPricing) : num :=
  calculateCost p {| input_tokens := num_of_Z 40000; output_tokens := num_of_Z 16000;
                     cache_creation_input_tokens := None; cache_read_input_tokens := None |}.
Definition step_cost (p : ModelPricing) (r : StepRun) : num :=
  calculateCost p {| input_tokens := r_tokensIn r; output_tokens := r_tokensOut r;
                     cache_creation_input_tokens := None; cache_read_input_tokens := None |}.

(** The budget check before an agent is spawned. *)
Definition reserve (c : Checks) (step : ManifestStep) (p : ModelPricing) (st : RunState) : Outcome * RunState :=
  match checkSessionBudget (maxSessionCost o) (costUSD st) (step_estimate p) with
  | Err e => fail_step c step no_spend (Plain (budget_text e)) st
  | Ok cost => (Waits (Spawning (Some (step_estimate p, p))), set_cost st cost)
  end.

Definition not_run_text (e : context_error) : string :=
  match e with NotRunYet s f => "Step " ++ quoted s ++ " input_from " ++ quoted f ++ " has not run yet" end%string.

Definition step_context (step : ManifestStep) (st : RunState) : result context_error context :=
  buildStepContext num_text (globalContext st) step (outputs st) (contextLimit o).

(** @src src/src/orchestrator/runner.ts 1082-1230 executeStep *)
Definition begin_step (c : Checks) (step : ManifestStep) (st : RunState) : Outcome * RunState :=
  let id := step_id step in
  match cachedOutputs o ≫= fun m => jm_get m id with
  | Some cached => (Settles ok, hook (recordStepRow step cached (put_output st id cached)) (onStepRetrySkipped id))
  | None =>
  match halted o c st with
  | Some st => (Settles halt, st)
  | None =>
  match step_context step st with
  | Err e => fail_step c step no_spend (Plain (not_run_text e)) st
  | Ok _ =>
    if negb (shouldRunStep num_text (buildConditionContext (globalContext st) (outputs st)) (step_conditions step)) then
      let skipped := makeSkipped id "conditions not met" in
      (Settles ok, hook (recordStepRow step skipped (put_output st id skipped)) (onStepSkipped id))
    else
      let st := hook st (onStepStart id) in
      if mockResponses o then (Waits (Spawning None), st)
      else match step_runtime step with
      | rt_mock | rt_pipeline => (Waits (Spawning None), st)
      | rt_inline =>
          if parentTools o then reserve c step (inlinePricing step) st
          else fail_step c step no_spend
                 (Plain ("Step " ++ quoted id ++ " uses inline runtime but no parentTools provided")) st
      | rt_agent => (Waits Loading, st)
      end
  end end end.

Definition with_cost (r : StepRun) (cost : num) : StepRun :=
  {| r_result := r_result r; r_tokensIn := r_tokensIn r; r_tokensOut := r_tokensOut r;
     r_durationMs := r_durationMs r; r_costUsd := cost |}.

Definition gated (step : ManifestStep) : bool :=
  bool_decide (step_id step ∈ manifest_gate_points (manifest o)) && gateAdapter o.

(** From an answer to the next await; [None] is an answer the step does not wait for. *)
(** @src src/src/orchestrator/runner.ts 1230-1275 executeStep *)
Definition react (c : Checks) (step : ManifestStep) (p : Progress) (ev : Event) (st : RunState)
    : option (Outcome * RunState) :=
  match p, ev with
  | Loading, Loaded prices => Some (reserve c step prices st)
  | Loading, Throws e | Spawning _, Throws e => Some (fail_step c step no_spend e st)
  | Spawning charge, Returned r =>
      let cost := match charge with Some (_, prices) => step_cost prices r | None => zero end in
      let st := match charge with
        | Some (estimate, _) => set_cost st (adjustSessionCost (costUSD st) (cost - estimate)%num)
        | None => st end in
      let r := with_cost r cost in
      Some (if gated step then
              match step_context step st with
              | Err e => fail_step c step r (Plain (not_run_text e)) st
              | Ok _ => (Waits (Submitting r), st)
              end
            else complete_step step r st)
  | Submitting r, Submitted => Some (Waits (Deciding r), hook st (onGateSubmit (step_id step)))
  | Submitting r, Throws e | Deciding r, Throws e => Some (fail_step c step r e st)
  | Deciding r, Decided d =>
      let st := hook st (onGateDecision (step_id step) d) in
      Some match d with
      | GRejected reason => fail_step c step r (GateRejected (step_id step) reason) st
      | GTimeout => fail_step c step r (GateExpired (step_id step)) st
      | Approved => complete_step step r st
      end
  | _, _ => None
  end.
End Steps.

(** ** A run *)

(** A worker of a bounded phase: before its first item, or awaiting the step it took last. *)
(** @src src/src/orchestrator/runner.ts 920-927 mapAllSettledWithConcurrency *)
Inductive Worker := Fresh | Awaits (stepId : string).

(** The phases left, the steps of the current phase not started yet (those from the pool's cursor on),
    those in flight, the results of those that settled, the workers of a bounded phase, and whether the
    run's loop has returned. *)
Record Run := { state : RunState; todo : list (list ManifestStep); queue : list ManifestStep;
  inflight : list (ManifestStep * Progress); results : list StepResult; workers : option (list Worker);
  iterations : Z; finished : bool }.

(** [elapsedMs] is the wall clock without the time spent waiting for answers, [w] the worker that takes
    the next step where the phase has workers. *)
Inductive Action :=
| NextPhase (elapsedMs : num)
| StartNext (w : nat) (c : Checks)
| Resume (i : nat) (c : Checks) (ev : Event).

Section Running.
Variable num_text : Q -> string.
Variable budget_text : SessionBudgetError -> string.
Variable inlinePricing : ManifestStep -> ModelPricing.
Variable rowInserted : string -> bool.
Variable o : Options.

Abbreviation begin' := (begin_step num_text budget_text inlinePricing rowInserted o).
Abbreviation react' := (react num_text budget_text rowInserted o).

Definition is_parallel : bool := bool_decide (getExecutionMode (manifest o) = parallel).

(** How many workers a bounded phase starts: [Math.max(1, Math.min(concurrency, items.length))], as the
    length of an array. *)
(** @src src/src/orchestrator/runner.ts 933-934 mapAllSettledWithConcurrency *)
Definition pool_size (concurrency : num) (items : nat) : nat :=
  match concurrency with
  | NaN => 0
  | NInf => 1
  | PInf => Nat.max 1 items
  | Fin q => Z.to_nat (Z.max 1 (Z.min (Qfloor q) (Z.of_nat items)))
  end.

(** The workers of a phase; [None] where its steps are started without a pool. *)
(** @src src/src/orchestrator/runner.ts 980-982 runParallel *)
Definition phase_workers (items : nat) : option (list Worker) :=
  if is_parallel then
    (fun cap => replicate (pool_size cap items) Fresh) <$> parallelStepCapFor (limits o ≫= maxParallelSteps) (num_of_Z 1)
  else None.

(** A worker is at the head of its loop before its first item and when the item it awaits has settled. *)
(** @src src/src/orchestrator/runner.ts 921-931 mapAllSettledWithConcurrency *)
Definition at_head (r : Run) (w : Worker) : bool :=
  match w with Fresh => true | Awaits id => bool_decide (id ∉ step_ids (inflight r).*1) end.

(** The hand-out of the step at the cursor: only a worker at the head of its loop takes it, and then awaits
    it. Without a pool every step is started. [None] is a worker that cannot take it. *)
(** @src src/src/orchestrator/runner.ts 918-932 mapAllSettledWithConcurrency *)
Definition hand_out (r : Run) (w : nat) (step : ManifestStep) : option (option (list Worker)) :=
  match workers r with
  | None => Some None
  | Some ws =>
      match ws !! w with
      | Some worker => if at_head r worker then Some (Some (<[w := Awaits (step_id step)]> ws)) else None
      | None => None
      end
  end.

Definition with_state (r : Run) (st : RunState) : Run :=
  {| state := st; todo := todo r; queue := queue r; inflight := inflight r; results := results r; workers := workers r;
     iterations := iterations r; finished := finished r |}.
Definition finish (r : Run) : Run :=
  {| state := state r; todo := todo r; queue := queue r; inflight := inflight r; results := results r; workers := workers r;
     iterations := iterations r; finished := true |}.

(** The head of a phase: the loop ends on a halt of the phase before, when no phase is left and on an
    exceeded bound. *)
(** @src src/src/orchestrator/runner.ts 938-999 runParallel *)
Definition next_phase (elapsedMs : num) (r : Run) : Run :=
  if bool_decide (halt ∈ results r) then finish r
  else match todo r with
  | [] => finish r
  | phase :: rest =>
      match workflowBoundExceeded (limits o) elapsedMs (iterations r) (costUSD (state r)) with
      | Some e => finish (with_state r (set_end (state r) Failed e))
      | None =>
          {| state := if is_parallel then hook (state r) (onPhaseStart (step_ids phase)) else state r;
             todo := rest; queue := phase; inflight := []; results := []; workers := phase_workers (length phase);
             iterations := (iterations r + Z.of_nat (length phase))%Z; finished := false |}
      end
  end.

(** A step's outcome: it waits on, or its result joins the phase's. *)
Definition settle (r : Run) (ws : option (list Worker)) (before after : list (ManifestStep * Progress)) (rest : list ManifestStep)
    (step : ManifestStep) (x : Outcome * RunState) : Run :=
  {| state := x.2; todo := todo r; queue := rest;
     inflight := match x.1 with Waits p => before ++ (step, p) :: after | Settles _ => before ++ after end;
     results := match x.1 with Waits _ => results r | Settles s => results r ++ [s] end;
     workers := ws; iterations := iterations r; finished := finished r |}.

(** @src src/src/orchestrator/runner.ts 869-896 runSequential *)
Definition act (r : Run) (a : Action) : option Run :=
  if finished r then None
  else match a with
  | NextPhase elapsedMs =>
      match queue r, inflight r with
      | [], [] =>
          Some (next_phase elapsedMs
            (if is_parallel && negb (bool_decide (results r = [])) then with_state r (hook (state r) onPhaseComplete) else r))
      | _, _ => None
      end
  | StartNext w c =>
      match queue r with
      | step :: rest =>
          (fun ws => settle r ws (inflight r) [] rest step (begin' c step (state r))) <$> hand_out r w step
      | [] => None
      end
  | Resume i c ev =>
      match inflight r !! i with
      | Some (step, p) =>
          (fun x => settle r (workers r) (take i (inflight r)) (drop (S i) (inflight r)) (queue r) step x)
            <$> react' c step p ev (state r)
      | None => None
      end
  end.

Fixpoint acts (r : Run) (l : list Action) : option Run :=
  match l with
  | [] => Some r
  | a :: l' => act r a ≫= fun r' => acts r' l'
  end.

(** ** Before the first step *)

Inductive refusal :=
| NoSource | SourceRefused (why : string) | CheckThrew (why : string) | TooDeep | NoAgents
| UnknownGatePoints (ids : list string) | GatePointsWithoutAdapter
| GatesOnRuntime (stepId : string) | GatesWithoutAdapter (stepId : string)
| DefinitionThrew (stepId : string) | UngatableTools (stepId : string) (names : list string)
| PhasesThrew (e : graph_error).

Definition check_tool_gates (hasGateAdapter : bool) (step : ManifestStep) : result refusal unit :=
  if bool_decide (tool_gates step = []) then Ok tt
  else if negb (bool_decide (step_runtime step = rt_agent)) then Err (GatesOnRuntime (step_id step))
  else throw_if (negb hasGateAdapter) (GatesWithoutAdapter (step_id step)).

(** @src src/src/orchestrator/runner.ts 431-490 assertGatesEnforceable *)
Definition assertGatesEnforceable (m : Manifest) (hasGateAdapter : bool) : result refusal unit :=
  let unknown := filter (fun id => id ∉ js_set_of (step_ids (manifest_agents m))) (manifest_gate_points m) in
  if negb (bool_decide (unknown = [])) then Err (UnknownGatePoints unknown)
  else if negb hasGateAdapter && negb (bool_decide (manifest_gate_points m = [])) then Err GatePointsWithoutAdapter
  else for_each (check_tool_gates hasGateAdapter) (manifest_agents m).

(** The tool names an agent definition lists; [None] when loading it throws. *)
Variable agentTools : string -> option (list string).

(** @src src/src/orchestrator/runner.ts 492-519 assertToolGatesWrappable *)
Definition assertToolGatesWrappable (m : Manifest) : result refusal unit :=
  for_each (fun step =>
    if negb (bool_decide (step_runtime step = rt_agent)) || bool_decide (tool_gates step = []) then Ok tt
    else match agentTools (step_agent step) with
    | None => Err (DefinitionThrew (step_id step))
    | Some defined =>
        let ungatable := filter (fun name => name ∉ defined) (tool_gates step) in
        throw_if (negb (bool_decide (ungatable = []))) (UngatableTools (step_id step) ungatable)
    end) (manifest_agents m).

(** The step a phase names: the last one with the id. *)
Definition step_by_id (m : Manifest) (id : string) : option ManifestStep :=
  jm_get (jm_fill step_id (fun s => s) [] (manifest_agents m)) id.

Definition phases_of (m : Manifest) : result refusal (list (list ManifestStep)) :=
  match getExecutionMode m with
  | sequential => Ok ((fun s => [s]) <$> manifest_agents m)
  | parallel =>
      match computePhases (manifest_agents m) with
      | Ok a => Ok ((fun p => omap (step_by_id m) (phase_stepIds p)) <$> phases a)
      | Err e => Err (PhasesThrew e)
      end
  end.

(** @src src/src/orchestrator/runner.ts 521-551 runManifest *)
Definition source_check : result refusal unit :=
  match source o with
  | None => Err NoSource
  | Some s => match sourceRefusal s (depth o) with
              | Ok None => Ok tt
              | Ok (Some why) => Err (SourceRefused why)
              | Err why => Err (CheckThrew why)
              end
  end.

(** [cost] is the session counter the run charges. *)
(** @src src/src/orchestrator/runner.ts 653-667 runManifestInGroup *)
Definition initial_state (cost : num) : RunState :=
  {| status := Running; error := None;
     globalContext := jm_set (manifest_context (manifest o)) "_manifestName" (JStr (manifest_name (manifest o)));
     outputs := foldl (fun m kv => jm_set m kv.1 kv.2) [] (default [] (cachedOutputs o));
     costUSD := cost; stepRows := []; log := [] |}.

(** Every refusal of a run, in order, and the run about to start. *)
(** @src src/src/orchestrator/runner.ts 553-580 runManifestInGroup *)
Definition start_run (cost : num) : result refusal Run :=
  let m := manifest o in
  _ ← source_check;
  _ ← throw_if (MAX_PIPELINE_DEPTH <? depth o)%nat TooDeep;
  _ ← throw_if (bool_decide (manifest_agents m = [])) NoAgents;
  _ ← assertGatesEnforceable m (gateAdapter o);
  _ ← (if mockResponses o then Ok tt else assertToolGatesWrappable m);
  ps ← phases_of m;
  Ok {| state := initial_state cost; todo := ps; queue := []; inflight := []; results := []; workers := None; iterations := 0;
        finished := false |}.

(** A run whose loop returned while nothing ended it is complete. *)
(** @src src/src/orchestrator/runner.ts 758-782 runManifestInGroup *)
Definition final_status (r : Run) : Status :=
  if is_running (state r) then Completed else status (state r).

(** The total the history's row of the run gets. *)
(** @src src/src/orchestrator/runner.ts 782-817 runManifestInGroup *)
Definition totalCostUsd (r : Run) : num := foldl (fun s w => (s + row_costUsd w)%num) zero (stepRows (state r)).

(** What a retry keeps of a previous run. *)
(** @src src/src/orchestrator/runner.ts 819-840 retryManifest *)
Definition retry_cache (previous : list (string * AgentOutput)) : list (string * AgentOutput) :=
  foldl (fun m kv => if negb (o_skipped kv.2) && falsy (o_error kv.2) then jm_set m kv.1 kv.2 else m) [] previous.
End Running.

(** ** How a step changes the state *)

(** Nothing is taken back: outputs and hooks are only added, a run that ended does not run again, and
    the makers' cause is final. *)
Record evolves (st st' : RunState) : Prop := {
  ev_log : exists h, log st' = log st ++ h;
  ev_outputs : forall id, id ∈ jm_keys (outputs st) -> id ∈ jm_keys (outputs st');
  ev_global : globalContext st' = globalContext st;
  ev_ended : is_running st = false -> is_running st' = false;
  ev_status : status st <> Completed -> status st' <> Completed;
  ev_author : is_running st = false -> isAuthorStop (run_error_text st) = true ->
    status st' = status st /\ error st' = error st }.

#[local] Hint Constructors evolves : lynox.

Lemma evolves_refl st : evolves st st.
Proof. split; auto. exists []. by rewrite app_nil_r. Qed.

Lemma evolves_trans a b c : evolves a b -> evolves b c -> evolves a c.
Proof.
  intros [(h1 & E1) O1 G1 R1 S1 A1] [(h2 & E2) O2 G2 R2 S2 A2]. split; auto.
  - exists (h1 ++ h2). by rewrite E2, E1, app_assoc.
  - congruence.
  - intros Hr Ha. destruct (A1 Hr Ha) as [? He]. destruct (A2 (R1 Hr)) as [? ?].
    + unfold run_error_text in *. by rewrite He.
    + split; congruence.
Qed.

Lemma evolves_hook st h : evolves st (hook st h).
Proof. split; auto. by exists [h]. Qed.

Lemma evolves_output st id out : evolves st (put_output st id out).
Proof.
  split; auto; [exists []; by rewrite app_nil_r|]. intros k Hk. cbn [outputs put_output].
  rewrite jm_keys_set. case_decide; [done|]. apply elem_of_app. by left.
Qed.

Lemma evolves_cost st c : evolves st (set_cost st c).
Proof. split; auto. exists []. by rewrite app_nil_r. Qed.

Lemma evolves_row ins o step out st : evolves st (recordStepRow ins o step out st).
Proof. unfold recordStepRow. destruct (negb _); [apply evolves_refl|]. split; auto. exists []. by rewrite app_nil_r. Qed.

Lemma evolves_end st s e :
  s = Failed \/ s = Rejected -> (is_running st = false -> isAuthorStop (run_error_text st) = false) ->
  evolves st (set_end st s e).
Proof.
  intros Hs Ha. split; auto; [exists []; by rewrite app_nil_r| | |].
  - intros _. unfold is_running. apply bool_decide_eq_false_2. by destruct Hs as [-> | ->].
  - intros _. by destruct Hs as [-> | ->].
  - intros Hr H. rewrite Ha in H; done.
Qed.

Lemma evolves_unless st cause : evolves st (end_unless_ended st cause).
Proof.
  unfold end_unless_ended. destruct (is_running st) eqn:E; [|apply evolves_refl].
  apply evolves_end; [by left|]. intros H. congruence.
Qed.

#[local] Hint Resolve evolves_refl evolves_hook evolves_output evolves_cost evolves_row evolves_unless : lynox.

Lemma end_unless_ended_ended st cause : is_running (end_unless_ended st cause) = false.
Proof. unfold end_unless_ended. destruct (is_running st) eqn:E; [|done]. unfold is_running. by apply bool_decide_eq_false_2. Qed.

Lemma stopped_evolves c st st' : stoppedByOwner c st = Some st' -> evolves st st' /\ is_running st' = false.
Proof. unfold stoppedByOwner. destruct (negb _); intros; simplify_eq. split; [apply evolves_unless|apply end_unless_ended_ended]. Qed.

Lemma question_evolves c st st' : questionUnanswered c st = Some st' -> evolves st st' /\ is_running st' = false.
Proof. unfold questionUnanswered. destruct (unanswered c); intros; simplify_eq. split; [apply evolves_unless|apply end_unless_ended_ended]. Qed.

Lemma halted_evolves o c st st' : halted o c st = Some st' -> evolves st st' /\ is_running st' = false.
Proof.
  unfold halted. destruct (stoppedByOwner c st) eqn:Es; [intros [= <-]; by apply stopped_evolves in Es|].
  destruct (questionUnanswered c st) eqn:Eq; [intros [= <-]; by apply question_evolves in Eq|].
  unfold stopForEndedAuthor. destruct (heldSource _); [|done].
  destruct (sourceRefusal _ _) as [[?|]|?]; intros; simplify_eq; (split; [apply evolves_unless|apply end_unless_ended_ended]).
Qed.

(** Whether the checks [c] halt a step that is about to start. *)
Definition must_halt (o : Options) (c : Checks) : bool :=
  stopped c || bool_decide (is_Some (unanswered c)) ||
  match heldSource (source o) with
  | None => false
  | Some saved => match sourceRefusal (saved_now saved c) (depth o) with Ok None => false | _ => true end
  end.

Lemma must_halt_spec o c st : must_halt o c = true <-> is_Some (halted o c st).
Proof.
  unfold must_halt, halted, stoppedByOwner, questionUnanswered, stopForEndedAuthor.
  destruct (stopped c); [by split; eauto|]. cbn [negb orb].
  destruct (unanswered c); [rewrite bool_decide_eq_true_2 by eauto; by split; eauto|].
  rewrite bool_decide_eq_false_2 by (by intros [? ?]). cbn [orb].
  destruct (heldSource _); [|split; [done|by intros [? ?]]].
  destruct (sourceRefusal _ _) as [[?|]|?]; split; eauto; done || by intros [? ?].
Qed.

(** What a stretch of a step leaves: an ended run for a halt, an output for a step that goes on, and
    [onStepComplete] for a gated step only right behind its approval. *)
Section Stretches.
Variable num_text : Q -> string.
Variable budget_text : SessionBudgetError -> string.
Variable inlinePricing : ManifestStep -> ModelPricing.
Variable rowInserted : string -> bool.
Variable o : Options.

(** Every completion of a gated step in a log stands right behind its approval. *)
Definition approved_log (l : list Hook) : Prop :=
  forall pre out post, l = pre ++ onStepComplete out :: post ->
    o_stepId out ∈ manifest_gate_points (manifest o) ->
    exists pre', pre = pre' ++ [onGateDecision (o_stepId out) Approved].

(** An output that stands for finished work. *)
Definition finished_work (out : AgentOutput) : Prop := o_skipped out = false /\ o_error out = None.
Definition from_cache (id : string) : bool := bool_decide (is_Some (cachedOutputs o ≫= fun m => jm_get m id)).

Record gates_hold (st : RunState) : Prop := {
  gh_log : approved_log (log st);
  gh_outputs : forall id out, jm_get (outputs st) id = Some out -> from_cache id = false -> finished_work out ->
    id ∈ manifest_gate_points (manifest o) -> onGateDecision id Approved ∈ log st }.

(** What holds of a stretch from [st] to [x]. *)
Record stretch (step : ManifestStep) (st : RunState) (x : Outcome * RunState) : Prop := {
  sr_evolves : evolves st x.2;
  sr_halt : x.1 = Settles halt -> is_running x.2 = false;
  sr_ok : x.1 = Settles ok -> step_id step ∈ jm_keys (outputs x.2) /\ is_running x.2 = is_running st;
  sr_waits : forall p, x.1 = Waits p -> is_running x.2 = is_running st;
  sr_gates : gateAdapter o = true -> gates_hold st -> gates_hold x.2 }.

Lemma gates_hook st h :
  gates_hold st -> (forall out, h <> onStepComplete out) -> gates_hold (hook st h).
Proof.
  intros [Hl Ho] Hh. split.
  - intros pre out post E Hg. cbn [log hook] in E.
    destruct post as [|p post] using rev_ind.
    + apply app_inj_tail in E as [_ E]. by destruct (Hh out).
    + rewrite app_comm_cons, app_assoc in E. apply app_inj_tail in E as [E _]. by eapply Hl.
  - intros id out H1 H2 H3 H4. cbn [log hook]. apply elem_of_app. left. by eapply Ho.
Qed.

Lemma gates_output st id out :
  gates_hold st -> (from_cache id = true \/ ~ finished_work out \/ id ∉ manifest_gate_points (manifest o)
    \/ onGateDecision id Approved ∈ log st) -> gates_hold (put_output st id out).
Proof.
  intros [Hl Ho] H. split; [done|]. intros k out' Hk Hc Hf Hg. cbn [outputs put_output log] in *.
  rewrite jm_get_set in Hk. case_decide; [simplify_eq|by eapply Ho].
  destruct H as [?|[?|[?|?]]]; [congruence|done|done|done].
Qed.

Lemma gates_same st st' : gates_hold st -> log st' = log st -> outputs st' = outputs st -> gates_hold st'.
Proof. intros [Hl Ho] El Eo. split; [by rewrite El|]. by rewrite El, Eo. Qed.

Lemma gates_row step out st : gates_hold st -> gates_hold (recordStepRow rowInserted o step out st).
Proof. intros H. eapply gates_same; [done|..]; unfold recordStepRow; by destruct (negb _). Qed.

Lemma gates_unless st cause : gates_hold st -> gates_hold (end_unless_ended st cause).
Proof. intros H. eapply gates_same; [done|..]; unfold end_unless_ended; by destruct (is_running st). Qed.

Lemma gates_halted c st st' : gates_hold st -> halted o c st = Some st' -> gates_hold st'.
Proof.
  unfold halted, stoppedByOwner, questionUnanswered, stopForEndedAuthor. intros H.
  destruct (stopped c); cbn [negb]; [intros [= <-]; by apply gates_unless|].
  destruct (unanswered c); [intros [= <-]; by apply gates_unless|].
  destruct (heldSource _); [|done]. destruct (sourceRefusal _ _) as [[?|]|?]; intros; simplify_eq; by apply gates_unless.
Qed.

Abbreviation fail' := (fail_step rowInserted o).

Lemma key_put st id out : id ∈ jm_keys (outputs (put_output st id out)).
Proof. cbn [outputs put_output]. rewrite jm_keys_set. case_decide; [done|]. apply elem_of_app. right. by left. Qed.

Lemma row_same step out st :
  let st' := recordStepRow rowInserted o step out st in
  is_running st' = is_running st /\ outputs st' = outputs st /\ run_error_text st' = run_error_text st.
Proof. unfold recordStepRow. by destruct (negb _). Qed.

Lemma halting step st st1 st2 :
  evolves st st1 -> evolves st1 st2 -> is_running st2 = false ->
  (gates_hold st -> gates_hold st2) -> stretch step st (Settles halt, st2).
Proof. intros H1 H2 R G. split; cbn [fst snd]; [by eapply evolves_trans|done|done|done|auto]. Qed.

(** The branches that write the run's own cause. *)
Lemma ends_run step st st1 s m :
  evolves st st1 -> (gates_hold st -> gates_hold st1) -> s = Failed \/ s = Rejected ->
  negb (is_running st1) && isAuthorStop (run_error_text st1) = false ->
  stretch step st (Settles halt, set_end st1 s m).
Proof.
  intros E G Hs Ha. apply (halting step st st1); [done| | |intros ?; by apply (gates_same st1); [apply G|..]].
  - apply evolves_end; [done|]. intros Hr. by rewrite Hr in Ha.
  - unfold is_running. apply bool_decide_eq_false_2. by destruct Hs as [-> | ->].
Qed.

(** [continue] and [notify]: the failure is recorded as the step's output. *)
Lemma goes_on step st st1 spent msg notify e :
  evolves st st1 -> is_running st1 = is_running st -> (gates_hold st -> gates_hold st1) ->
  let st2 := put_output st1 (step_id step) (failed_output (step_id step) spent msg) in
  stretch step st (Settles ok, if (notify : bool) then hook st2 (onStepNotify (step_id step) e) else st2).
Proof.
  intros E R G st2. assert (evolves st st2) as E2 by (eapply evolves_trans; [done|apply evolves_output]).
  assert (gates_hold st -> gates_hold st2) as G2.
  { intros ?. apply gates_output; [auto|]. right. left. by intros [_ ?]. }
  split; cbn [fst snd].
  - destruct notify; [|done]. eapply evolves_trans; [done|apply evolves_hook].
  - done.
  - intros _. destruct notify; (split; [apply key_put|done]).
  - done.
  - intros _ ?. destruct notify; [apply gates_hook; [by apply G2|done]|by apply G2].
Qed.

Lemma fail_stretch c step spent e st : stretch step st (fail' c step spent e st).
Proof.
  unfold fail_step. set (st1 := recordStepRow _ _ _ _ (hook st _)).
  assert (evolves st st1) as H1 by (eapply evolves_trans; [apply evolves_hook|apply evolves_row]).
  assert (is_running st1 = is_running st) as R1 by (unfold st1; by rewrite (proj1 (row_same _ _ _))).
  assert (gates_hold st -> gates_hold st1) as G1 by (intros ?; by apply gates_row, gates_hook).
  clearbody st1.
  destruct (stoppedByOwner c st1) as [st2|] eqn:Es.
  { destruct (stopped_evolves _ _ _ Es) as [E2 R2]. eapply halting; [done..|].
    intros G. unfold stoppedByOwner in Es. destruct (negb _); simplify_eq. by apply gates_unless, G1. }
  destruct (questionUnanswered c st1) as [st2|] eqn:Eq.
  { destruct (question_evolves _ _ _ Eq) as [E2 R2]. eapply halting; [done..|].
    intros G. unfold questionUnanswered in Eq. destruct (unanswered c); simplify_eq. by apply gates_unless, G1. }
  clear Es Eq.
  assert (forall s m, s = Failed \/ s = Rejected ->
    negb (is_running st1) && isAuthorStop (run_error_text st1) = false ->
    stretch step st (Settles halt, set_end st1 s m)) as He by (intros; by apply ends_run).
  assert (negb (is_running st1) && isAuthorStop (run_error_text st1) = true -> stretch step st (Settles halt, st1)) as Hk.
  { intros [Hr _]%andb_true_iff. apply negb_true_iff in Hr. eapply halting; [done|apply evolves_refl|done..]. }
  destruct e as [m|cause m|i r|i]; cbn [is_gate_error orb].
  - destruct (bool_decide (manifest_on_failure (manifest o) = on_stop)) eqn:Eo; cbn [andb].
    + rewrite ?andb_assoc. destruct (negb _ && _) eqn:Ea; [by apply Hk|apply He; auto].
    + by apply goes_on.
  - eapply halting; [done|apply evolves_unless|apply end_unless_ended_ended|]. intros ?. by apply gates_unless, G1.
  - destruct (negb _ && _) eqn:Ea; cbn [andb]; rewrite Ea; [by apply Hk|apply He; auto].
  - destruct (negb _ && _) eqn:Ea; cbn [andb]; rewrite Ea; [by apply Hk|apply He; auto].
Qed.

Lemma complete_stretch step r st :
  (gateAdapter o = true -> step_id step ∈ manifest_gate_points (manifest o) ->
     exists l, log st = l ++ [onGateDecision (step_id step) Approved]) ->
  stretch step st (complete_step rowInserted o step r st).
Proof.
  intros Hg. unfold complete_step. set (out := mkOutput _ _ _ _ _ _ _ _ _).
  assert (o_stepId out = step_id step) as Hid by done. clearbody out.
  split; cbn [fst snd]; try done.
  - eapply evolves_trans; [apply evolves_output|]. eapply evolves_trans; [apply evolves_hook|apply evolves_row].
  - intros _. destruct (row_same step out (hook (put_output st (step_id step) out) (onStepComplete out))) as (R & O & _).
    rewrite O, R. split; [apply key_put|done].
  - intros Ha [Hl Ho]. apply gates_row.
    assert (step_id step ∈ manifest_gate_points (manifest o) -> onGateDecision (step_id step) Approved ∈ log st) as Hin.
    { intros Hs. destruct (Hg Ha Hs) as [l ->]. apply elem_of_app. right. by left. }
    destruct (gates_output st (step_id step) out) as [Hl' Ho']; [done| |].
    { destruct (decide (step_id step ∈ manifest_gate_points (manifest o))); tauto. }
    split.
    + intros pre out' post E Hs. cbn [log hook put_output] in E.
      destruct post as [|p post _] using rev_ind.
      * apply app_inj_tail in E as [<- [= <-]]. rewrite Hid in *. by apply Hg.
      * rewrite app_comm_cons, app_assoc in E. apply app_inj_tail in E as [E _]. by eapply Hl.
    + intros k out' Hk Hc Hf Hp. cbn [log hook]. apply elem_of_app. left. by eapply Ho'.
Qed.

(** A change of state that no check or gate depends on. *)
Definition quiet (st st1 : RunState) : Prop :=
  evolves st st1 /\ is_running st1 = is_running st /\ (gates_hold st -> gates_hold st1).

Lemma stretch_after step st st1 x : quiet st st1 -> stretch step st1 x -> stretch step st x.
Proof.
  intros (E & R & G) [Ev Hh Ho Hw Hg]. split; auto; [by eapply evolves_trans| |].
  - intros H. rewrite <-R. auto.
  - intros p H. rewrite <-R. eauto.
Qed.

Lemma stretch_waits step st st1 p : quiet st st1 -> stretch step st (Waits p, st1).
Proof. intros (E & R & G). split; cbn [fst snd]; auto; done. Qed.

Lemma quiet_refl st : quiet st st.
Proof. split_and!; auto. apply evolves_refl. Qed.
Lemma quiet_hook st h : (forall out, h <> onStepComplete out) -> quiet st (hook st h).
Proof. intros. split_and!; [apply evolves_hook|done|]. intros. by apply gates_hook. Qed.
Lemma quiet_cost st c : quiet st (set_cost st c).
Proof. split_and!; [apply evolves_cost|done|]. intros. by eapply gates_same. Qed.

Lemma reserve_stretch c step p st : stretch step st (reserve budget_text rowInserted o c step p st).
Proof.
  unfold reserve. destruct (checkSessionBudget _ _ _); [|apply fail_stretch].
  apply stretch_waits, quiet_cost.
Qed.

(** An output put without an agent: a cached or a skipped step. *)
Lemma put_stretch step out h st :
  from_cache (step_id step) = true \/ o_skipped out = true -> (forall x, h <> onStepComplete x) ->
  stretch step st (Settles ok, hook (recordStepRow rowInserted o step out (put_output st (step_id step) out)) h).
Proof.
  intros Hc Hh. set (st1 := put_output st (step_id step) out).
  destruct (row_same step out st1) as (R & O & _). split; cbn [fst snd]; try done.
  - eapply evolves_trans; [apply evolves_output|]. eapply evolves_trans; [apply evolves_row|apply evolves_hook].
  - intros _. split; [cbn [outputs hook]; rewrite O; apply key_put|]. unfold is_running in *. cbn [hook status]. by rewrite R.
  - intros _ G. apply gates_hook; [|done]. apply gates_row, gates_output; [done|].
    destruct Hc as [?|Hs]; [by left|]. right. left. intros [? _]. congruence.
Qed.

Lemma begin_stretch c step st :
  stretch step st (begin_step num_text budget_text inlinePricing rowInserted o c step st).
Proof.
  unfold begin_step. destruct (cachedOutputs o ≫= _) as [cached|] eqn:Ec.
  { apply put_stretch; [|done]. left. unfold from_cache. rewrite Ec. by apply bool_decide_eq_true_2. }
  destruct (halted o c st) as [st'|] eqn:Eh.
  { destruct (halted_evolves _ _ _ _ Eh). eapply halting; [apply evolves_refl|done|done|].
    intros G. by eapply gates_halted. }
  destruct (step_context num_text o step st); [|apply fail_stretch].
  destruct (negb _); [apply put_stretch; [by right|done]|].
  apply (stretch_after step st (hook st (onStepStart (step_id step)))); [by apply quiet_hook|].
  destruct (mockResponses o); [apply stretch_waits, quiet_refl|].
  destruct (step_runtime step); try (apply stretch_waits, quiet_refl).
  destruct (parentTools o); [apply reserve_stretch|apply fail_stretch].
Qed.

Lemma react_stretch c step p ev st x :
  react num_text budget_text rowInserted o c step p ev st = Some x -> stretch step st x.
Proof.
  destruct p as [|charge|r|r], ev as [prices|r'| |d|e]; cbn [react]; intros; simplify_eq;
    try apply fail_stretch; try apply reserve_stretch.
  - set (cost := match charge with Some (_, prices) => step_cost prices r' | None => zero end).
    set (r1 := with_cost r' cost).
    apply (stretch_after step st (match charge with
      | Some (est, _) => set_cost st (adjustSessionCost (costUSD st) (cost - est)%num) | None => st end)).
    { destruct charge as [[est pr]|]; [apply quiet_cost|apply quiet_refl]. }
    destruct (gated o step) eqn:Eg.
    + destruct (step_context _ _ _ _); [apply stretch_waits, quiet_refl|apply fail_stretch].
    + apply complete_stretch. intros Ha Hs. unfold gated in Eg. rewrite Ha, bool_decide_eq_true_2 in Eg by done. done.
  - apply stretch_waits. by apply quiet_hook.
  - apply (stretch_after step st (hook st (onGateDecision (step_id step) d))); [by apply quiet_hook|].
    destruct d; [apply complete_stretch|apply fail_stretch..]. intros _ _. by eexists.
Qed.
End Stretches.

(** ** The phases of a well-formed workflow *)

Section Phases.
Variable m : Manifest.
Hypothesis Hwf : well_formed_steps (manifest_agents m).

Lemma step_by_id_spec s id : s ∈ manifest_agents m -> step_id s = id -> step_by_id m id = Some s.
Proof.
  intros Hs <-. unfold step_by_id. destruct Hwf as [Hnd _].
  by rewrite (jm_fill_get step_id (fun s => s)).
Qed.

Lemma phase_steps (ids : list string) s :
  (forall id, id ∈ ids -> id ∈ step_ids (manifest_agents m)) ->
  s ∈ omap (step_by_id m) ids <-> s ∈ manifest_agents m /\ step_id s ∈ ids.
Proof.
  intros Hids. rewrite list_elem_of_omap. split.
  - intros (id & Hid & E). specialize (Hids id Hid). apply list_elem_of_fmap in Hids as (s' & -> & Hs').
    rewrite (step_by_id_spec s') in E by done. by simplify_eq.
  - intros [Hs Hid]. exists (step_id s). split; [done|]. by apply step_by_id_spec.
Qed.

Lemma parallel_phases ps :
  getExecutionMode m = parallel -> phases_of m = Ok ps ->
  exists a, ps = (fun p => omap (step_by_id m) (phase_stepIds p)) <$> phases a /\
    phases_ok (buildDependencyGraph (manifest_agents m)) (phases a) /\
    (forall id, id ∈ step_ids (manifest_agents m) <-> exists p, p ∈ phases a /\ id ∈ phase_stepIds p).
Proof.
  intros Hm. unfold phases_of. rewrite Hm. unfold computePhases.
  pose proof (computePhases_run_spec _ Hwf) as H. destruct (computePhases_run _) as [[a|e]|]; [|done..].
  destruct H as (Hok & Hp & Ho). intros [= <-]. exists a. split_and!; [done..|]. intros id.
  rewrite <-Hp, Ho. rewrite list_elem_of_In, in_concat. setoid_rewrite <-list_elem_of_In.
  split.
  - intros (ids & (p & -> & Hp')%list_elem_of_fmap & Hid). eauto.
  - intros (p & Hp' & Hid). exists (phase_stepIds p). split; [|done]. apply list_elem_of_fmap. eauto.
Qed.

(** Every step is in some phase. *)
Lemma phases_cover ps s : phases_of m = Ok ps -> s ∈ manifest_agents m -> s ∈ List.concat ps.
Proof.
  intros Hps Hs. rewrite list_elem_of_In, in_concat. setoid_rewrite <-list_elem_of_In.
  destruct (getExecutionMode m) eqn:Em.
  - unfold phases_of in Hps. rewrite Em in Hps. injection Hps as <-. exists [s]. split; [|by left].
    apply list_elem_of_fmap. eauto.
  - destruct (parallel_phases ps Em Hps) as (a & -> & _ & Hcov).
    assert (step_id s ∈ step_ids (manifest_agents m)) as Hid by (apply list_elem_of_fmap; eauto).
    destruct (proj1 (Hcov _) Hid) as (p & Hp & Hin). exists (omap (step_by_id m) (phase_stepIds p)). split.
    + apply list_elem_of_fmap. eauto.
    + apply phase_steps; [|done]. intros id ?. apply Hcov. eauto.
Qed.

(** What a step names in [input_from] is in an earlier phase. *)
Lemma phases_before ps before cur after s d :
  getExecutionMode m = parallel -> phases_of m = Ok ps ->
  (forall s d, s ∈ manifest_agents m -> d ∈ input_from s -> d ∈ step_ids (manifest_agents m)) ->
  ps = before ++ cur :: after -> s ∈ cur -> d ∈ input_from s ->
  exists s', s' ∈ List.concat before /\ step_id s' = d.
Proof.
  intros Em Hps Hdeps E Hs Hd. destruct (parallel_phases ps Em Hps) as (a & Ea & Hok & Hcov).
  assert (forall p id, p ∈ phases a -> id ∈ phase_stepIds p -> id ∈ step_ids (manifest_agents m)) as Hids
    by (intros p id ? ?; apply Hcov; eauto).
  assert (ps !! length before = Some cur) as Hcur by (by rewrite E, list_lookup_middle).
  rewrite Ea, list_lookup_fmap in Hcur. destruct (phases a !! length before) as [p|] eqn:Ep; [|done].
  injection Hcur as <-. pose proof (list_elem_of_lookup_2 _ _ _ Ep) as Hpin.
  apply phase_steps in Hs as [Hs Hid]; [|eauto].
  destruct (Hok _ _ Ep) as (_ & _ & _ & Hph). destruct (Hph _ Hid) as [Hdep _].
  destruct (Hdep d) as (j & q & Hj & Hq & Hdq).
  { destruct Hwf as [Hnd _]. unfold depends. rewrite buildDependencyGraph_keys by done.
    rewrite buildDependencyGraph_deps, elem_of_js_set_of by done. split_and!; [by eapply Hids|by eapply Hdeps|done]. }
  specialize (Hdeps s d Hs Hd). apply list_elem_of_fmap in Hdeps as (s' & -> & Hs').
  exists s'. split; [|done]. rewrite list_elem_of_In, in_concat. setoid_rewrite <-list_elem_of_In.
  exists (omap (step_by_id m) (phase_stepIds q)). split.
  - apply (list_elem_of_lookup_2 _ j). assert (ps !! j = Some (omap (step_by_id m) (phase_stepIds q))) as Hl
      by (by rewrite Ea, list_lookup_fmap, Hq).
    rewrite E, lookup_app_l in Hl by done. done.
  - apply phase_steps; [|done]. intros id ?. eapply Hids; [|done]. by eapply list_elem_of_lookup_2.
Qed.
End Phases.

(** ** The invariant of a run *)

Section Runs.
Variable num_text : Q -> string.
Variable budget_text : SessionBudgetError -> string.
Variable inlinePricing : ManifestStep -> ModelPricing.
Variable rowInserted : string -> bool.
Variable o : Options.

Abbreviation act' := (act num_text budget_text inlinePricing rowInserted o).
Abbreviation acts' := (acts num_text budget_text inlinePricing rowInserted o).

(** The steps of the current phase that have not settled. *)
Definition open_steps (r : Run) : list ManifestStep := queue r ++ (inflight r).*1.
Definition has_output (r : Run) (s : ManifestStep) : Prop := step_id s ∈ jm_keys (outputs (state r)).

Record run_inv (ps : list (list ManifestStep)) (r : Run) : Prop := {
  ri_gates : gateAdapter o = true -> gates_hold o (state r);
  ri_phases : exists started, ps = started ++ todo r /\
    (forall s, s ∈ List.concat started -> s ∈ open_steps r \/ has_output r s \/ halt ∈ results r) /\
    (forall s, s ∈ open_steps r -> exists before cur, started = before ++ [cur] /\ s ∈ cur /\
       forall s', s' ∈ List.concat before -> has_output r s');
  ri_status : status (state r) <> Completed;
  ri_halt : halt ∈ results r -> is_running (state r) = false;
  ri_ended : is_running (state r) = false -> halt ∈ results r \/ finished r = true;
  ri_finished : finished r = true -> open_steps r = [] /\
    (is_running (state r) = true -> todo r = [] /\ halt ∉ results r) }.

Lemma settle_inv ps r ws before after rest step x :
  run_inv ps r -> finished r = false -> stretch o step (state r) x ->
  (forall s, s ∈ open_steps r <-> s = step \/ s ∈ rest ++ (before ++ after).*1) ->
  run_inv ps (settle r ws before after rest step x).
Proof.
  intros [G (started & Hps & Hc & Hcur) Hst Hh He Hf] Hnf [Ev Sh So Sw Sg] Hopen.
  set (r' := settle r ws before after rest step x).
  assert (forall s, s ∈ open_steps r' <->
    (s = step /\ (exists p, x.1 = Waits p)) \/ s ∈ rest ++ (before ++ after).*1) as Hopen'.
  { intros s. unfold r', settle, open_steps. cbn [queue inflight].
    destruct (x.1) as [p|res]; [|split; [auto|by intros [[_ [? ?]]|?]]].
    rewrite !fmap_app, fmap_cons, !elem_of_app, elem_of_cons. cbn [fst]. split; [naive_solver|].
    intros [[-> _]|?]; [auto|tauto]. }
  assert (forall s, has_output r s -> has_output r' s) as Hout by (intros s; apply (ev_outputs _ _ Ev)).
  assert (halt ∈ results r -> halt ∈ results r') as Hres.
  { unfold r', settle. cbn [results]. destruct (x.1); [done|]. rewrite elem_of_app. auto. }
  split.
  - intros Hg. apply Sg; auto.
  - exists started. split_and!; [done| |].
    + intros s Hs. destruct (Hc s Hs) as [H|[H|H]]; [|auto..].
      apply Hopen in H as [->|H]; [|left; apply Hopen'; auto].
      unfold r', settle, open_steps in *. cbn [queue inflight results] in *. unfold has_output. cbn [state].
      destruct (x.1) as [p|[]] eqn:Ex.
      * left. rewrite fmap_app, fmap_cons, !elem_of_app, elem_of_cons. auto.
      * right. left. by apply So.
      * right. right. rewrite elem_of_app. right. by left.
    + intros s Hs. assert (s ∈ open_steps r) as Hs'.
      { apply Hopen. apply Hopen' in Hs as [[-> _]|?]; auto. }
      destruct (Hcur s Hs') as (b & cur & -> & Hin & Hb). exists b, cur. split_and!; auto.
  - by apply (ev_status _ _ Ev).
  - intros H. unfold r', settle in H |- *. cbn [results state] in *. destruct (x.1) as [p|res] eqn:Ex.
    + by apply (ev_ended _ _ Ev), Hh.
    + apply elem_of_app in H as [H|H]; [by apply (ev_ended _ _ Ev), Hh|].
      apply list_elem_of_singleton in H. subst res. by apply Sh.
  - intros H. unfold r', settle in H |- *. cbn [results state finished] in *. left. destruct (x.1) as [p|[]] eqn:Ex.
    + rewrite (Sw p) in H by done. by destruct (He H); [|congruence].
    + destruct So as [_ Hr]; [done|]. rewrite Hr in H. apply elem_of_app. left. by destruct (He H); [|congruence].
    + apply elem_of_app. right. by left.
  - unfold r', settle. cbn [finished]. congruence.
Qed.

Lemma hook_inv ps r h :
  (forall out, h <> onStepComplete out) -> run_inv ps r -> run_inv ps (with_state r (hook (state r) h)).
Proof.
  intros Hh [G P H0 H1 H2 H3]. split; try done. intros ?. apply gates_hook; auto.
Qed.

Lemma next_phase_inv ps r ms :
  run_inv ps r -> queue r = [] -> inflight r = [] -> finished r = false -> run_inv ps (next_phase o ms r).
Proof.
  intros [G (started & Hps & Hc & Hcur) Hst Hh He Hf] Hq Hi Hnf.
  assert (open_steps r = []) as Ho by (unfold open_steps; by rewrite Hq, Hi).
  unfold next_phase. destruct (bool_decide (halt ∈ results r)) eqn:Eh.
  { apply bool_decide_eq_true in Eh. split; [done| |done|done|by right|].
    - by exists started.
    - intros _. split; [done|]. cbn [state finish]. rewrite Hh; done. }
  apply bool_decide_eq_false in Eh.
  assert (forall s, s ∈ List.concat started -> has_output r s) as Hall.
  { intros s Hs. destruct (Hc s Hs) as [H|[H|H]]; [|done|done]. rewrite Ho in H. by apply elem_of_nil in H. }
  destruct (todo r) as [|phase rest] eqn:Et.
  { split; try done; [|by right]. exists started. by rewrite <-Et in Hps. }
  destruct (workflowBoundExceeded _ _ _ _) as [e|].
  { split; cbn [state finish with_state results finished todo]; [|exists started; by rewrite Et|done|done|by right|done].
    intros ?. eapply gates_same; [by apply G|done..]. }
  split; cbn [state results finished todo]; [|exists (started ++ [phase]); split_and!|by destruct (is_parallel o)|by intros ?%elem_of_nil| |done].
  - intros ?. destruct (is_parallel o); [apply gates_hook; [auto|done]|auto].
  - by rewrite <-app_assoc.
  - intros s. rewrite List.concat_app. cbn [List.concat]. rewrite app_nil_r. intros [Hs|Hs]%elem_of_app.
    + right. left. unfold has_output. cbn [state]. destruct (is_parallel o); by apply Hall.
    + left. unfold open_steps. cbn [queue inflight]. rewrite app_nil_r. done.
  - intros s. unfold open_steps. cbn [queue inflight fmap list_fmap]. rewrite app_nil_r. intros Hs.
    exists started, phase. split_and!; [done|done|]. intros s' Hs'. unfold has_output. cbn [state].
    destruct (is_parallel o); by apply Hall.
  - intros H. exfalso. assert (is_running (state r) = false) as Hr by (by destruct (is_parallel o)).
    destruct (He Hr); congruence.
Qed.

Lemma act_inv ps r a r' : run_inv ps r -> act' r a = Some r' -> run_inv ps r'.
Proof.
  intros H. unfold act. destruct (finished r) eqn:Ef; [done|]. destruct a as [ms|w c|i c ev].
  - destruct (queue r) as [|] eqn:Eq; [|done]. destruct (inflight r) eqn:Ei; [|done]. intros [= <-].
    apply next_phase_inv; [|by destruct (_ && _)..]. destruct (_ && _); [by apply hook_inv|done].
  - destruct (queue r) as [|step rest] eqn:Eq; [done|]. destruct (hand_out _ _ _) as [ws|]; [|done]. intros [= <-].
    apply settle_inv; [done|done|apply begin_stretch|]. intros s. unfold open_steps. rewrite Eq, app_nil_r.
    cbn [app]. by rewrite elem_of_cons.
  - destruct (inflight r !! i) as [[step p]|] eqn:Ei; [|done].
    destruct (react _ _ _ _ _ _ _ _ _) as [x|] eqn:Ex; [|done]. intros [= <-].
    apply settle_inv; [done|done|by eapply react_stretch|]. intros s. unfold open_steps.
    rewrite <-(take_drop_middle _ _ _ Ei) at 1. rewrite !fmap_app, fmap_cons, !elem_of_app, elem_of_cons. cbn [fst]. tauto.
Qed.

Lemma acts_inv ps l r r' : run_inv ps r -> acts' r l = Some r' -> run_inv ps r'.
Proof.
  revert r. induction l as [|a l IH]; intros r H; [by intros [= <-]|]. cbn [acts].
  destruct (act' r a) as [r1|] eqn:E; [|done]. intros Hl. eapply IH; [|done]. by eapply act_inv.
Qed.

Variable agentTools : string -> option (list string).
Abbreviation start' := (start_run o agentTools).

Lemma start_Ok cost r0 :
  start' cost = Ok r0 ->
  exists ps, phases_of (manifest o) = Ok ps /\
    r0 = {| state := initial_state o cost; todo := ps; queue := []; inflight := []; results := []; workers := None; iterations := 0;
            finished := false |} /\
    assertGatesEnforceable (manifest o) (gateAdapter o) = Ok tt /\
    (mockResponses o = false -> assertToolGatesWrappable agentTools (manifest o) = Ok tt).
Proof.
  unfold start_run. intros ([] & _ & H)%bind_Ok. apply bind_Ok in H as ([] & _ & H). apply bind_Ok in H as ([] & _ & H).
  apply bind_Ok in H as ([] & Hg & H). apply bind_Ok in H as ([] & Hw & H). apply bind_Ok in H as (ps & Hp & [= <-]).
  exists ps. split_and!; try done. intros Hm. by rewrite Hm in Hw.
Qed.

Lemma start_inv cost r0 ps :
  start' cost = Ok r0 -> phases_of (manifest o) = Ok ps -> run_inv ps r0.
Proof.
  intros H Hps. destruct (start_Ok _ _ H) as (ps' & Hps' & -> & _). rewrite Hps in Hps'. injection Hps' as <-.
  split; cbn [state results finished todo]; [|exists []; split_and!|done|by intros ?%elem_of_nil|done|done]; try done.
  - intros _. split; [intros [] ? ? E; done|]. intros id out Hk Hc. exfalso.
    unfold from_cache in Hc. apply bool_decide_eq_false in Hc. apply Hc. cbn [initial_state outputs] in Hk.
    assert (id ∈ jm_keys (default [] (cachedOutputs o))) as Hin.
    { assert (is_Some (jm_get (jm_fill fst snd [] (default [] (cachedOutputs o))) id)) as Hs by (by exists out).
      apply jm_get_is_Some in Hs. rewrite jm_fill_keys in Hs. apply elem_of_foldl_js_set_add in Hs as [Hs|Hs]; [|done].
      by apply elem_of_nil in Hs. }
    destruct (cachedOutputs o); [by apply jm_get_is_Some in Hin|by apply elem_of_nil in Hin].
  - by intros s ?%elem_of_nil.
  - by intros s ?%elem_of_nil.
Qed.

Lemma reachable_inv cost r0 l r :
  start' cost = Ok r0 -> acts' r0 l = Some r -> exists ps, phases_of (manifest o) = Ok ps /\ run_inv ps r.
Proof.
  intros H Hl. destruct (start_Ok _ _ H) as (ps & Hps & _). exists ps. split; [done|].
  eapply acts_inv; [|done]. by apply (start_inv cost).
Qed.

Lemma gates_enforceable :
  assertGatesEnforceable (manifest o) (gateAdapter o) = Ok tt ->
  (forall id, id ∈ manifest_gate_points (manifest o) -> gateAdapter o = true /\ id ∈ step_ids (manifest_agents (manifest o))) /\
  (forall step, step ∈ manifest_agents (manifest o) -> tool_gates step <> [] ->
     step_runtime step = rt_agent /\ gateAdapter o = true).
Proof.
  unfold assertGatesEnforceable. destruct (bool_decide (filter _ _ = [])) eqn:Eu; [|done]. cbn [negb].
  apply bool_decide_eq_true in Eu. destruct (_ && _) eqn:Ea; [done|]. intros Ht. rewrite for_each_Ok in Ht. split.
  - intros id Hid. split.
    + destruct (gateAdapter o); [done|]. cbn [negb andb] in Ea.
      destruct (bool_decide (manifest_gate_points (manifest o) = [])) eqn:E0; [|done].
      apply bool_decide_eq_true in E0. rewrite E0 in Hid. by apply elem_of_nil in Hid.
    + destruct (decide (id ∈ step_ids (manifest_agents (manifest o)))) as [|Hn]; [done|].
      assert (id ∈ filter (fun id => id ∉ js_set_of (step_ids (manifest_agents (manifest o)))) (manifest_gate_points (manifest o))) as Hf.
      { apply list_elem_of_filter. split; [|done]. by rewrite elem_of_js_set_of. }
      rewrite Eu in Hf. by apply elem_of_nil in Hf.
  - intros step Hs Hg. specialize (Ht step Hs). unfold check_tool_gates in Ht.
    rewrite bool_decide_eq_false_2 in Ht by done. destruct (bool_decide (step_runtime step = rt_agent)) eqn:Er; [|done].
    apply bool_decide_eq_true in Er. by destruct (gateAdapter o).
Qed.

Lemma tool_gates_wrappable :
  assertToolGatesWrappable agentTools (manifest o) = Ok tt ->
  forall step, step ∈ manifest_agents (manifest o) -> step_runtime step = rt_agent -> tool_gates step <> [] ->
  exists defined, agentTools (step_agent step) = Some defined /\ forall name, name ∈ tool_gates step -> name ∈ defined.
Proof.
  unfold assertToolGatesWrappable. rewrite for_each_Ok. intros H step Hs Hr Hg. specialize (H step Hs). cbn beta in H.
  rewrite bool_decide_eq_true_2, (bool_decide_eq_false_2 (tool_gates step = [])) in H by done. cbn [negb orb] in H.
  destruct (agentTools _) as [defined|]; [|done]. exists defined. split; [done|]. intros name Hn.
  destruct (bool_decide (filter _ _ = [])) eqn:Eu; [|done]. apply bool_decide_eq_true in Eu.
  destruct (decide (name ∈ defined)) as [|Hd]; [done|].
  assert (name ∈ filter (fun name => name ∉ defined) (tool_gates step)) as Hf by (by apply list_elem_of_filter).
  rewrite Eu in Hf. by apply elem_of_nil in Hf.
Qed.

(** C1. A declared approval is never skipped: once a run starts, in every order its steps can be
    scheduled in, the output of a gated step that was not taken over from a retry, skipped or failed
    stands in the run only after an approval of that step, the step's completion right behind it; and
    a run starts only when every gated tool belongs to a step on the runtime that gates tools, with
    somebody to ask, and (unless the agents are mocked) is a tool of that step's agent. *)
Theorem gates_are_never_skipped cost r0 l r :
  start' cost = Ok r0 -> acts' r0 l = Some r ->
  approved_log o (log (state r)) /\
  (forall id out, id ∈ manifest_gate_points (manifest o) -> jm_get (outputs (state r)) id = Some out ->
     from_cache o id = false -> finished_work out -> onGateDecision id Approved ∈ log (state r)) /\
  (forall step, step ∈ manifest_agents (manifest o) -> tool_gates step <> [] ->
     step_runtime step = rt_agent /\ gateAdapter o = true /\
     (mockResponses o = false -> exists defined, agentTools (step_agent step) = Some defined /\
        forall name, name ∈ tool_gates step -> name ∈ defined)).
Proof.
  intros Hs Hl. destruct (start_Ok _ _ Hs) as (ps & _ & _ & Hg & Hw). destruct (gates_enforceable Hg) as [Hp Ht].
  destruct (reachable_inv _ _ _ _ Hs Hl) as (ps' & _ & Hinv). split_and!.
  - intros pre out post E Hid. destruct (Hp _ Hid) as [Ha _]. by eapply (ri_gates _ _ Hinv Ha).
  - intros id out Hid Ho Hc Hf. destruct (Hp _ Hid) as [Ha _]. by eapply (ri_gates _ _ Hinv Ha).
  - intros step Hin Hne. destruct (Ht step Hin Hne) as [Hr Ha]. split_and!; [done..|]. intros Hm.
    by apply (tool_gates_wrappable (Hw Hm)).
Qed.

(** C2. In a workflow that passed the graph's validation and repeats no dependency, run in phases, a
    step that is queued or in flight always has what it reads: building its context succeeds in every
    reachable state. And whatever the mode, a run that ends as completed has an output for every step. *)
Theorem steps_find_their_inputs cost r0 l r :
  well_formed_steps (manifest_agents (manifest o)) -> validateGraph (manifest_agents (manifest o)) = Ok tt ->
  start' cost = Ok r0 -> acts' r0 l = Some r ->
  (getExecutionMode (manifest o) = parallel -> forall step, step ∈ open_steps r ->
     exists ctx, step_context num_text o step (state r) = Ok ctx) /\
  (finished r = true -> final_status r = Completed ->
     forall step, step ∈ manifest_agents (manifest o) -> has_output r step).
Proof.
  intros Hwf Hv Hs Hl. destruct (reachable_inv _ _ _ _ Hs Hl) as (ps & Hps & Hinv).
  destruct (ri_phases _ _ Hinv) as (started & E & Hc & Hcur). split.
  - intros Hm step Ho. destruct (Hcur step Ho) as (before & cur & -> & Hin & Hb).
    unfold step_context, buildStepContext. apply add_inputs_ok, Forall_forall. intros d Hd.
    rewrite <-app_assoc in E. destruct (phases_before _ Hwf ps before cur (todo r) step d) as (s' & Hs' & <-); try done.
    + intros s d' Hs' Hd'. by eapply (validateGraph_deps _ Hv).
    + by apply Hb.
  - intros Hf Hst step Hstep. assert (is_running (state r) = true) as Hr.
    { unfold final_status in Hst. destruct (is_running (state r)) eqn:Er; [done|].
      by apply (ri_status _ _ Hinv) in Hst. }
    destruct (ri_finished _ _ Hinv Hf) as [Hopen Hdone]. destruct (Hdone Hr) as [Htodo Hnh].
    rewrite Htodo, app_nil_r in E. subst started.
    destruct (Hc step) as [H|[H|H]]; [by apply (phases_cover _ Hwf ps)| |done|done].
    rewrite Hopen in H. by apply elem_of_nil in H.
Qed.

(** ** After the end *)

Lemma act_evolves ps r a r' : run_inv ps r -> act' r a = Some r' -> evolves (state r) (state r').
Proof.
  intros Hinv. unfold act. destruct (finished r) eqn:Ef; [done|]. destruct a as [ms|w c|i c ev].
  - destruct (queue r) eqn:Eq; [|done]. destruct (inflight r) eqn:Ei; [|done]. intros [= <-].
    set (r1 := if _ && _ then _ else r).
    assert (evolves (state r) (state r1) /\ is_running (state r1) = is_running (state r) /\ results r1 = results r) as (E1 & R1 & S1).
    { unfold r1. destruct (_ && _); split_and!; try done; [apply evolves_hook|apply evolves_refl]. }
    clearbody r1. unfold next_phase. destruct (bool_decide (halt ∈ results r1)) eqn:Eh; [done|].
    destruct (todo r1); [done|]. destruct (workflowBoundExceeded _ _ _ _).
    + eapply evolves_trans; [done|]. cbn [state finish with_state]. apply evolves_end; [by left|].
      rewrite R1. intros Hr. destruct (ri_ended _ _ Hinv Hr) as [H|?]; [|congruence].
      apply bool_decide_eq_false in Eh. by rewrite S1 in Eh.
    + cbn [state]. destruct (is_parallel o); [|done]. eapply evolves_trans; [done|apply evolves_hook].
  - destruct (queue r); [done|]. destruct (hand_out _ _ _) as [ws|]; [|done]. intros [= <-]. exact (sr_evolves _ _ _ _ (begin_stretch num_text budget_text inlinePricing rowInserted o c _ _)).
  - destruct (inflight r !! i) as [[step p]|]; [|done].
    destruct (react _ _ _ _ _ _ _ _ _) as [x|] eqn:Ex; [|done]. intros [= <-]. exact (sr_evolves _ _ _ _ (react_stretch num_text budget_text inlinePricing rowInserted o c step p ev _ _ Ex)).
Qed.

Lemma act_todo ps r a r' :
  run_inv ps r -> is_running (state r) = false -> act' r a = Some r' -> todo r' = todo r.
Proof.
  intros Hinv Hr. unfold act. destruct (finished r) eqn:Ef; [done|].
  destruct (ri_ended _ _ Hinv Hr) as [Hh|?]; [|congruence]. destruct a as [ms|w c|i c ev].
  - destruct (queue r); [|done]. destruct (inflight r); [|done]. intros [= <-]. unfold next_phase.
    destruct (_ && _); cbn [results with_state]; by rewrite bool_decide_eq_true_2 by done.
  - destruct (queue r); [done|]. destruct (hand_out _ _ _) as [ws|]; [|done]. by intros [= <-].
  - destruct (inflight r !! i) as [[step p]|]; [|done]. destruct (react _ _ _ _ _ _ _ _ _); [|done]. by intros [= <-].
Qed.

Lemma acts_ended ps r l r' :
  run_inv ps r -> is_running (state r) = false -> acts' r l = Some r' ->
  evolves (state r) (state r') /\ todo r' = todo r.
Proof.
  revert r. induction l as [|a l IH]; intros r Hinv Hr; [intros [= <-]; split; [apply evolves_refl|done]|].
  cbn [acts]. destruct (act' r a) as [r1|] eqn:E; [|done]. intros Hl.
  pose proof (act_evolves _ _ _ _ Hinv E) as Ev. destruct (IH r1) as [E2 T2]; [by eapply act_inv|by apply (ev_ended _ _ Ev)|done|].
  split; [by eapply evolves_trans|]. rewrite T2. by eapply act_todo.
Qed.

(** A run that ended stays ended: once a step's failure, a rejected gate, the owner's stop, an
    unanswered question or an ended maker has ended it, no later phase begins, whatever its siblings
    in flight still do, it is never recorded as completed, and when the cause is the access of one of
    the workflow's makers, no sibling's failure or rejection overwrites it. *)
Theorem ended_run_stays_ended cost r0 l r l' r' :
  start' cost = Ok r0 -> acts' r0 l = Some r -> is_running (state r) = false -> acts' r l' = Some r' ->
  is_running (state r') = false /\ todo r' = todo r /\ final_status r' <> Completed /\
  (isAuthorStop (run_error_text (state r)) = true -> status (state r') = status (state r) /\ error (state r') = error (state r)).
Proof.
  intros Hs Hl Hr Hl'. destruct (reachable_inv _ _ _ _ Hs Hl) as (ps & _ & Hinv).
  destruct (acts_ended _ _ _ _ Hinv Hr Hl') as [Ev Ht]. pose proof (ev_ended _ _ Ev Hr) as Hr'. split_and!; try done.
  - unfold final_status. rewrite Hr'. apply (ev_status _ _ Ev), (ri_status _ _ Hinv).
  - by apply (ev_author _ _ Ev).
Qed.

(** ** Every run ends *)

Definition weight (p : Progress) : nat :=
  match p with Loading => 4 | Spawning _ => 3 | Submitting _ => 2 | Deciding _ => 1 end.
Definition load (l : list (ManifestStep * Progress)) : nat := sum_list_with (fun sp => weight sp.2) l.
Definition phases_load (ps : list (list ManifestStep)) : nat := sum_list_with (fun p => S (5 * length p)) ps.
(** More than the actions a run can still take. *)
Definition remaining (r : Run) : nat :=
  if finished r then 0 else S (phases_load (todo r) + 5 * length (queue r) + load (inflight r)).

Definition outcome_load (x : Outcome) : nat := match x with Waits p => weight p | Settles _ => 0 end.

Lemma fail_settles c step spent e st : exists res, (fail_step rowInserted o c step spent e st).1 = Settles res.
Proof. unfold fail_step. repeat case_match; cbn; eauto. Qed.

Lemma reserve_load c step p st : (outcome_load (reserve budget_text rowInserted o c step p st).1 <= 3)%nat.
Proof.
  unfold reserve. destruct (checkSessionBudget _ _ _); [done|]. 
  match goal with |- context [fail_step ?ri ?o ?c ?s ?n ?e ?st] => destruct (fail_settles c s n e st) as [? ->] end. cbn. lia.
Qed.

Lemma begin_load c step st : (outcome_load (begin_step num_text budget_text inlinePricing rowInserted o c step st).1 <= 4)%nat.
Proof. destruct (begin_step _ _ _ _ _ _ _ _).1 as [[]|]; cbn; lia. Qed.

Lemma react_load c step p ev st x :
  react num_text budget_text rowInserted o c step p ev st = Some x -> (outcome_load x.1 < weight p)%nat.
Proof.
  assert (forall sp e st', outcome_load (fail_step rowInserted o c step sp e st').1 = 0%nat) as Hf
    by (intros sp e st'; by destruct (fail_settles c step sp e st') as [? ->]).
  destruct p as [|charge|r|r], ev as [prices|r'| |d|e]; cbn [react weight]; intros; simplify_eq;
    rewrite ?Hf; try lia.
  - pose proof (reserve_load c step prices st). lia.
  - destruct (gated o step); [|cbn; lia]. destruct (step_context _ _ _ _); [cbn; lia|]. rewrite Hf. lia.
  - cbn. lia.
  - destruct d; [cbn|rewrite Hf..]; lia.
Qed.

Lemma load_app l k : load (l ++ k) = (load l + load k)%nat.
Proof. unfold load. induction l as [|x l IH]; [done|]. cbn. rewrite IH. lia. Qed.

Lemma load_cons step p l : load ((step, p) :: l) = (weight p + load l)%nat.
Proof. done. Qed.

Lemma act_decreases r a r' : act' r a = Some r' -> (remaining r' < remaining r)%nat.
Proof.
  unfold act. destruct (finished r) eqn:Ef; [done|]. unfold remaining at 2. rewrite Ef. destruct a as [ms|w c|i c ev].
  - destruct (queue r) eqn:Eq; [|done]. destruct (inflight r) eqn:Ei; [|done]. intros [= <-].
    set (r1 := if _ && _ then _ else r). assert (todo r1 = todo r) as T by (unfold r1; by destruct (_ && _)).
    clearbody r1. unfold next_phase. destruct (bool_decide _); [cbn; lia|]. rewrite T.
    destruct (todo r) as [|ph rest]; [cbn; lia|]. destruct (workflowBoundExceeded _ _ _ _); [cbn; lia|].
    unfold remaining. cbn -[Nat.mul]. lia.
  - destruct (queue r) as [|step rest]; [done|]. destruct (hand_out _ _ _) as [ws|]; [|done]. intros [= <-].
    pose proof (begin_load c step (state r)) as H. unfold remaining, settle. cbn [finished todo queue inflight]. rewrite Ef.
    destruct (begin_step _ _ _ _ _ _ _ _).1; cbn [outcome_load] in H; rewrite load_app; cbn -[Nat.mul]; lia.
  - destruct (inflight r !! i) as [[step p]|] eqn:Ei; [|done].
    destruct (react _ _ _ _ _ _ _ _ _) as [x|] eqn:Ex; [|done]. intros [= <-].
    pose proof (react_load _ _ _ _ _ _ Ex) as H. unfold remaining, settle. cbn [finished todo queue inflight]. rewrite Ef.
    assert (load (inflight r) = load (take i (inflight r)) + (weight p + load (drop (S i) (inflight r))))%nat as Hload.
    { rewrite <-(take_drop_middle _ _ _ Ei) at 1. by rewrite load_app. }
    destruct (x.1); cbn [outcome_load] in H; rewrite load_app, ?load_cons; lia.
Qed.

Lemma acts_length r l r' : acts' r l = Some r' -> (length l + remaining r' <= remaining r)%nat.
Proof.
  revert r. induction l as [|a l IH]; intros r; [intros [= <-]; done|]. cbn [acts length].
  destruct (act' r a) as [r1|] eqn:E; [|done]. intros H. apply IH in H. apply act_decreases in E. lia.
Qed.

Lemma cap_positive requested n : parallelStepCapFor requested (num_of_Z 1) = Some n -> exists q, n = Fin q /\ (1 <= Qfloor q)%Z.
Proof.
  unfold parallelStepCapFor. destruct requested as [m|]; [|done]. destruct (num_eqb m PInf); [done|].
  destruct (negb (isFinite m) || (m <? num_of_Z 1)%num) eqn:E; intros [= <-]; [by exists (inject_Z 1)|].
  apply orb_false_iff in E as [Ef El]. destruct m as [| | |q]; try done. apply num_ltb_Fin_false in El.
  exists (inject_Z (Qtrunc q)). split; [done|]. rewrite Qfloor_Z. unfold Qtrunc.
  rewrite (proj2 (Qle_bool_iff _ _)) by (change (inject_Z 1) with 1%Q in El; lra).
  change 1%Z with (Qfloor (inject_Z 1)). by apply Qfloor_resp_le.
Qed.

(** ** The workers of a bounded phase *)

Definition awaited (ws : list Worker) : list string :=
  omap (fun w => match w with Fresh => None | Awaits id => Some id end) ws.

Lemma awaited_app a b : awaited (a ++ b) = awaited a ++ awaited b.
Proof. apply omap_app. Qed.
Lemma awaited_length ws : (length (awaited ws) <= length ws)%nat.
Proof. induction ws as [|[|id] ws IH]; cbn; unfold awaited in *; lia. Qed.

Lemma take_mine x (l a b : list string) : x ∉ l -> l ⊆+ a ++ x :: b -> l ⊆+ a ++ b.
Proof.
  intros Hx. rewrite <-Permutation_middle, submseteq_cons_r. intros [?|(k & Hk & _)]; [done|].
  destruct Hx. rewrite Hk. by left.
Qed.

Lemma distinct_part (l k : list string) : NoDup k -> l ⊆+ k -> NoDup l.
Proof. intros Hk (k' & E)%submseteq_Permutation. rewrite E in Hk. by apply NoDup_app in Hk as [? _]. Qed.

(** The ids of what is in flight. *)
Abbreviation flying r := (step_ids (inflight r).*1).

Lemma flying_after r ws before after rest step x :
  flying (settle r ws before after rest step x) ⊆+ step_id step :: step_ids (before ++ after).*1.
Proof.
  unfold settle, step_ids. cbn [inflight]. destruct (x.1) as [p|res].
  - rewrite !fmap_app, !fmap_cons. cbn [fst]. by rewrite <-Permutation_middle.
  - by apply submseteq_cons.
Qed.

(** Every step in flight is awaited by a worker of its own; a worker awaits no step that waits to be
    started, and the workers are those of a phase that has room for all they took. *)
Record staffed (size : nat) (cap : num) (q : list ManifestStep) (fl : list (ManifestStep * Progress)) (ws : list Worker) : Prop := {
  st_size : length ws = pool_size cap size;
  st_taken : (length (awaited ws) + length q <= size)%nat;
  st_awaited : step_ids fl.*1 ⊆+ awaited ws }.

Lemma hand_out_awaited ws w wk id : ws !! w = Some wk ->
  match wk with
  | Fresh => awaited (<[w := Awaits id]> ws) ≡ₚ id :: awaited ws
  | Awaits old => exists a b, awaited ws = a ++ old :: b /\ awaited (<[w := Awaits id]> ws) ≡ₚ id :: a ++ b
  end.
Proof.
  intros Hw. rewrite insert_take_drop by (by eapply lookup_lt_Some). pose proof (take_drop_middle _ _ _ Hw) as E.
  rewrite awaited_app. change (awaited (Awaits id :: ?l)) with (id :: awaited l).
  destruct wk as [|old].
  - rewrite <-E at 3. rewrite awaited_app. change (awaited (Fresh :: ?l)) with (awaited l). by rewrite <-Permutation_middle.
  - exists (awaited (take w ws)), (awaited (drop (S w) ws)). split; [by rewrite <-E at 1; rewrite awaited_app|].
    by rewrite <-Permutation_middle.
Qed.

Lemma staffed_hand_out size cap r ws w step rest ws' x :
  staffed size cap (queue r) (inflight r) ws -> workers r = Some ws -> queue r = step :: rest -> hand_out r w step = Some ws' ->
  exists ws1, ws' = Some ws1 /\ staffed size cap rest (inflight (settle r ws' (inflight r) [] rest step x)) ws1 /\
    (NoDup (step_ids (queue r) ++ awaited ws) -> NoDup (step_ids rest ++ awaited ws1)).
Proof.
  intros [Hs Ht Ha] Ews Eq. unfold hand_out. rewrite Ews. destruct (ws !! w) as [wk|] eqn:Ew; [|done].
  destruct (at_head r wk) eqn:Eh; [|done]. intros [= <-]. eexists. split; [done|].
  assert (exists k, awaited (<[w := Awaits (step_id step)]> ws) ≡ₚ step_id step :: k /\ flying r ⊆+ k /\ k ⊆+ awaited ws) as (k & Ek & Hk & Hsub).
  { pose proof (hand_out_awaited ws w wk (step_id step) Ew) as H. destruct wk as [|old]; [by exists (awaited ws)|].
    destruct H as (a & b & Eab & H). exists (a ++ b). split; [done|]. cbn in Eh. apply bool_decide_eq_true in Eh.
    rewrite Eab in Ha |- *. split; [by eapply take_mine|]. apply submseteq_app; [done|]. by apply submseteq_cons. }
  rewrite Eq in Ht |- *. split.
  - split; [by rewrite length_insert| |].
    + rewrite Ek. apply submseteq_length in Hsub. cbn in *. lia.
    + rewrite Ek. etrans; [apply flying_after|]. rewrite app_nil_r. by apply submseteq_skip.
  - intros Hnd. rewrite Ek. rewrite <-Permutation_middle. cbn in Hnd. apply NoDup_cons in Hnd as [Hn Hnd].
    apply NoDup_cons. assert (step_ids rest ++ k ⊆+ step_ids rest ++ awaited ws) as H by (by apply submseteq_skips_l).
    split; [intros Hi; destruct Hn; by eapply elem_of_submseteq|by eapply distinct_part].
Qed.

Definition cap_now : option num := parallelStepCapFor (limits o ≫= maxParallelSteps) (num_of_Z 1).
Lemma phase_workers_cap n : is_parallel o = true -> phase_workers o n = (fun cap => replicate (pool_size cap n) Fresh) <$> cap_now.
Proof. intros H. unfold phase_workers. by rewrite H. Qed.

(** Who starts the steps: in the sequential mode one step is open at a time; in the parallel mode a bounded
    phase has its workers and an unbounded one none. *)
Definition pooled (r : Run) : Prop :=
  match is_parallel o, cap_now with
  | false, _ => workers r = None /\ Forall (fun p => length p = 1)%nat (todo r) /\ (length (queue r) + length (inflight r) <= 1)%nat
  | true, None => workers r = None
  | true, Some cap => queue r = [] /\ inflight r = [] \/ exists size ws, workers r = Some ws /\ staffed size cap (queue r) (inflight r) ws
  end.

Lemma cap_now_positive cap : cap_now = Some cap -> exists q, cap = Fin q /\ (1 <= Qfloor q)%Z.
Proof. apply cap_positive. Qed.

(** Nobody is in flight: the first worker, if there are workers, is at the head of its loop. *)
Definition hired (r : Run) : Prop := queue r <> [] -> match workers r with Some ws => ws <> [] | None => True end.
Lemma pooled_hired r : pooled r -> hired r.
Proof.
  unfold pooled, hired. destruct (is_parallel o); [|by intros (-> & _)]. destruct cap_now as [cap|] eqn:Ec; [|by intros ->].
  intros [[-> _]|(size & ws & -> & [Hs _ _])]; [done|]. intros _ ->. apply cap_now_positive in Ec as (q & -> & Hq).
  cbn in Hs. lia.
Qed.
Lemma idle_hands_out r step : hired r -> queue r <> [] -> inflight r = [] -> is_Some (hand_out r 0 step).
Proof.
  intros Hh Hq Hi. unfold hand_out. specialize (Hh Hq). destruct (workers r) as [[|wk ws]|]; [done| |done]. cbn.
  assert (at_head r wk = true) as ->; [|done]. destruct wk; [done|]. cbn. rewrite Hi. by apply bool_decide_eq_true, not_elem_of_nil.
Qed.

Lemma next_phase_pooled ms r : pooled r -> queue r = [] -> inflight r = [] -> pooled (next_phase o ms r).
Proof.
  intros H Hq Hi. unfold next_phase.
  assert (forall st, pooled (finish (with_state r st))) as Hfin by (intros st; exact H).
  destruct (bool_decide _); [exact H|]. destruct (todo r) as [|ph rest] eqn:Et; [exact H|].
  destruct (workflowBoundExceeded _ _ _ _); [apply Hfin|]. clear Hfin. unfold pooled in *. cbn [workers todo queue inflight].
  destruct (is_parallel o) eqn:Ep.
  - rewrite phase_workers_cap by done. destruct cap_now as [cap|]; [|done]. right. eexists (length ph), _. split; [done|].
    split; [apply length_replicate|cbn [queue]|apply submseteq_nil_l].
    assert (forall n, awaited (replicate n Fresh) = []) as -> by (intros n; by induction n). done.
  - destruct H as (_ & Ht & _). unfold phase_workers. rewrite Ep, Et in *. apply Forall_cons in Ht as [H1 Ht].
    split_and!; [done..|]. cbn. lia.
Qed.

Lemma act_pooled r a r' : pooled r -> act' r a = Some r' -> pooled r'.
Proof.
  intros H. unfold act. destruct (finished r); [done|]. destruct a as [ms|w c|i c ev].
  - destruct (queue r) eqn:Eq; [|done]. destruct (inflight r) eqn:Ei; [|done]. intros [= <-].
    destruct (_ && _); apply next_phase_pooled; done.
  - destruct (queue r) as [|step rest] eqn:Eq; [done|]. destruct (hand_out r w step) as [ws|] eqn:Eh; [|done]. intros [= <-].
    unfold pooled in *. destruct (is_parallel o); [destruct cap_now as [cap|]|].
    + right. destruct H as [[H _]|(size & ws0 & Ew & Hst)]; [congruence|].
      destruct (staffed_hand_out _ _ _ _ _ _ _ _ (begin_step num_text budget_text inlinePricing rowInserted o c step (state r)) Hst Ew Eq Eh)
        as (ws1 & -> & Hst' & _). by exists size, ws1.
    + unfold hand_out in Eh. rewrite H in Eh. by injection Eh as <-.
    + destruct H as (Hw & Ht & Hl). unfold hand_out in Eh. rewrite Hw in Eh. injection Eh as <-. rewrite Eq in Hl. cbn in Hl.
      split_and!; [done..|]. cbn [settle queue inflight]. destruct (begin_step _ _ _ _ _ _ _ _).1; rewrite ?length_app; cbn; rewrite ?length_app; cbn; lia.
  - destruct (inflight r !! i) as [[step p]|] eqn:Ei; [|done]. destruct (react _ _ _ _ _ _ _ _ _) as [x|]; [|done].
    intros [= <-]. pose proof (take_drop_middle _ _ _ Ei) as Hm. unfold pooled in *.
    destruct (is_parallel o); [destruct cap_now as [cap|]|]; cbn [settle workers todo queue inflight].
    + right. destruct H as [[_ H]|(size & ws & Ew & [Hs Ht Ha])]; [by rewrite H in Ei|]. exists size, ws. split; [done|].
      split; [done..|]. etrans; [apply (flying_after r (workers r) _ _ (queue r))|]. rewrite <-Ha. unfold step_ids. rewrite <-Hm at 3.
      rewrite !fmap_app, !fmap_cons. by rewrite <-Permutation_middle.
    + done.
    + destruct H as (Hw & Ht & Hl). split_and!; [done..|]. rewrite <-Hm in Hl. rewrite length_app in Hl. cbn in Hl.
      destruct (x.1); rewrite length_app; cbn; lia.
Qed.

Lemma acts_pooled r l r' : pooled r -> acts' r l = Some r' -> pooled r'.
Proof.
  revert r. induction l as [|a l IH]; intros r H; [by intros [= <-]|]. cbn [acts].
  destruct (act' r a) as [r1|] eqn:E; [|done]. apply IH. by eapply act_pooled.
Qed.

Lemma start_pooled cost r0 : start' cost = Ok r0 -> pooled r0.
Proof.
  intros Hs. destruct (start_Ok _ _ Hs) as (ps & Hps & -> & _). unfold pooled, phases_of, is_parallel in *. cbn [queue inflight workers todo].
  destruct (getExecutionMode (manifest o)); cbn [bool_decide].
  - split_and!; [done| |cbn; lia]. injection Hps as <-. apply Forall_fmap, Forall_forall. done.
  - destruct cap_now; [by left|done].
Qed.

(** C4. Every run ends: under every schedule its actions are at most one per phase, five per step and
    one more, and until its loop returns some action is always possible, whatever the agents, the
    gate and the checks answer. *)
Theorem runs_terminate cost r0 l r :
  start' cost = Ok r0 -> acts' r0 l = Some r ->
  (length l <= S (phases_load (todo r0)))%nat /\
  (finished r = false -> forall c e, exists r',
     act' r (NextPhase zero) = Some r' \/ act' r (StartNext 0 c) = Some r' \/ act' r (Resume 0 c (Throws e)) = Some r').
Proof.
  intros Hs Hl. split.
  - apply acts_length in Hl. destruct (start_Ok _ _ Hs) as (ps & _ & -> & _). unfold remaining at 2 in Hl.
    cbn -[Nat.mul] in *. lia.
  - intros Hf c e. unfold act. rewrite Hf. destruct (inflight r) as [|[step p] rest] eqn:Ei.
    + destruct (queue r) as [|step q] eqn:Eq; [eexists; by left|].
      assert (is_Some (hand_out r 0 step)) as [ws Hws]
        by (apply idle_hands_out; [exact (pooled_hired _ (acts_pooled _ _ _ (start_pooled _ _ Hs) Hl))|by rewrite Eq|done]).
      eexists. right. left. by rewrite Hws.
    + assert (is_Some (react num_text budget_text rowInserted o c step p (Throws e) (state r))) as [x Hx] by (destruct p; cbn; eauto).
      eexists. right. right. cbn [lookup list_lookup]. by rewrite Hx.
Qed.

(** ** How many at once *)

(** The bound a setting asks for. *)
Definition bound_of (requested : option num) : option Z :=
  match requested with
  | None | Some PInf => None
  | Some (Fin q) => Some (Z.max 1 (Qfloor q))
  | Some _ => Some 1%Z
  end.

Lemma cap_bound requested cap : parallelStepCapFor requested (num_of_Z 1) = Some cap ->
  exists q, cap = Fin q /\ bound_of requested = Some (Qfloor q) /\ (1 <= Qfloor q)%Z.
Proof.
  intros H. destruct (cap_positive _ _ H) as (q & -> & Hq). exists q. split_and!; [done| |done]. revert H.
  unfold parallelStepCapFor. destruct requested as [[| | |p]|]; cbn [num_eqb isFinite negb orb bound_of]; try done; try by intros [= <-].
  destruct (_ <? _)%num eqn:El; intros [= <-].
  - apply num_ltb_Fin in El. change (inject_Z 1) with 1%Q in *.
    assert (Qfloor p < 1)%Z as Hp by (rewrite Zlt_Qlt; change (inject_Z 1) with 1%Q; eapply Qle_lt_trans; [apply Qfloor_le|done]).
    change (Qfloor 1) with 1%Z. f_equal. lia.
  - apply num_ltb_Fin_false in El. change (inject_Z 1) with 1%Q in El. cbn [num_trunc]. rewrite Qfloor_Z in *.
    unfold Qtrunc in *. rewrite (proj2 (Qle_bool_iff _ _)) in * by lra. f_equal. lia.
Qed.
Lemma cap_none requested : parallelStepCapFor requested (num_of_Z 1) = None -> bound_of requested = None.
Proof. unfold parallelStepCapFor. destruct requested as [[| | |q]|]; cbn [num_eqb isFinite negb orb]; try done. by case_match. Qed.

(** The ids a bounded phase has not settled are distinct where the workflow's are. *)
Definition distinct (r : Run) : Prop :=
  Forall (fun p => NoDup (step_ids p)) (todo r) /\
  match workers r with Some ws => NoDup (step_ids (queue r) ++ awaited ws) | None => True end.

Lemma phases_distinct ps : well_formed_steps (manifest_agents (manifest o)) -> phases_of (manifest o) = Ok ps ->
  Forall (fun p => NoDup (step_ids p)) ps.
Proof.
  intros Hwf Hps. destruct (getExecutionMode (manifest o)) eqn:Em.
  - unfold phases_of in Hps. rewrite Em in Hps. injection Hps as <-. apply Forall_fmap, Forall_forall. intros s _. apply NoDup_singleton.
  - revert Hps. unfold phases_of. rewrite Em. unfold computePhases.
    pose proof (computePhases_run_spec _ Hwf) as H. destruct (computePhases_run _) as [[a|e]|]; [|done..].
    destruct H as (_ & Hp & Ho). intros [= <-]. apply Forall_fmap, Forall_forall. intros p Hin. cbn.
    assert (NoDup (phase_stepIds p)) as Hnd.
    { apply list_elem_of_split in Hin as (a1 & a2 & Ea). destruct Hwf as [Hnd _]. rewrite <-Hp, Ho, Ea in Hnd.
      rewrite fmap_app, fmap_cons in Hnd. rewrite List.concat_app in Hnd. cbn in Hnd.
      apply NoDup_app in Hnd as (_ & _ & Hnd). by apply NoDup_app in Hnd as (Hnd & _). }
    assert (forall ids : list string, NoDup ids -> NoDup (step_ids (omap (step_by_id (manifest o)) ids)) /\
      forall id, id ∈ step_ids (omap (step_by_id (manifest o)) ids) -> id ∈ ids) as Hids.
    { clear -Hwf. induction ids as [|id ids IH]; intros Hnd; [by split; [constructor|]|]. apply NoDup_cons in Hnd as [Hid Hnd].
      destruct (IH Hnd) as [H1 H2]. cbn. destruct (step_by_id (manifest o) id) as [s|] eqn:Es.
      - assert (step_id s = id) as E.
        { unfold step_by_id in Es. assert (forall l m, (forall k v, jm_get m k = Some v -> step_id v = k) ->
            forall k v, jm_get (jm_fill step_id (fun s => s) m l) k = Some v -> step_id v = k) as Hfill.
          { induction l as [|x l IHl]; intros m Hm; [done|]. cbn. apply IHl. intros k v. rewrite jm_get_set. case_decide; [congruence|apply Hm]. }
          eapply Hfill; [|exact Es]. done. }
        rewrite fmap_cons, E. split; [apply NoDup_cons; split; [|done]; intros Hin; by apply Hid, H2|].
        intros i. rewrite !elem_of_cons. naive_solver.
      - split; [done|]. intros i Hi. right. auto. }
    by apply Hids.
Qed.

Lemma act_distinct r a r' : pooled r -> distinct r -> act' r a = Some r' -> distinct r'.
Proof.
  intros Hp [Ht Hw]. unfold act. destruct (finished r); [done|]. destruct a as [ms|w c|i c ev].
  - destruct (queue r) eqn:Eq; [|done]. destruct (inflight r) eqn:Ei; [|done]. intros [= <-].
    set (r1 := if _ && _ then _ else r). assert (todo r1 = todo r /\ workers r1 = workers r /\ queue r1 = queue r) as (T & W & Q)
      by (unfold r1; by destruct (_ && _)).
    assert (distinct r1) as H1 by (unfold distinct; by rewrite T, W, Q, Eq). clearbody r1. unfold next_phase.
    destruct (bool_decide _); [exact H1|]. destruct (todo r1) as [|ph rest] eqn:Et; [exact H1|].
    destruct (workflowBoundExceeded _ _ _ _); [exact H1|]. destruct H1 as [H1 _]. rewrite Et in H1.
    apply Forall_cons in H1 as [H1 H2]. split; [done|]. cbn [workers queue]. unfold phase_workers.
    destruct (is_parallel o); [|done]. destruct (parallelStepCapFor _ _) as [cap|]; [|done]. cbn.
    assert (forall n, awaited (replicate n Fresh) = []) as -> by (intros n; by induction n). by rewrite app_nil_r.
  - destruct (queue r) as [|step rest] eqn:Eq; [done|]. destruct (hand_out r w step) as [ws|] eqn:Eh; [|done]. intros [= <-].
    split; [done|]. cbn [settle workers queue]. destruct (workers r) as [ws0|] eqn:Ew.
    + unfold pooled in Hp. destruct (is_parallel o); [destruct cap_now as [cap|]|]; [|congruence|destruct Hp; congruence].
      destruct Hp as [[? _]|(size & ws' & Ew' & Hst)]; [congruence|]. assert (ws' = ws0) as -> by congruence.
      destruct (staffed_hand_out _ _ _ _ _ _ _ _ (begin_step num_text budget_text inlinePricing rowInserted o c step (state r)) Hst Ew Eq Eh)
        as (ws1 & -> & _ & Hnd). apply Hnd. by rewrite Eq.
    + unfold hand_out in Eh. rewrite Ew in Eh. by injection Eh as <-.
  - destruct (inflight r !! i) as [[step p]|]; [|done]. destruct (react _ _ _ _ _ _ _ _ _) as [x|]; [|done]. by intros [= <-].
Qed.

Lemma acts_distinct r l r' : pooled r -> distinct r -> acts' r l = Some r' -> distinct r'.
Proof.
  revert r. induction l as [|a l IH]; intros r Hp Hd; [by intros [= <-]|]. cbn [acts].
  destruct (act' r a) as [r1|] eqn:E; [|done]. apply IH; [by eapply act_pooled|by eapply act_distinct].
Qed.

(** Where no worker is at the head of its loop, each awaits a step in flight, and no two the same. *)
Lemma all_busy r ws : (forall w wk, ws !! w = Some wk -> at_head r wk = false) -> NoDup (awaited ws) ->
  length (awaited ws) = length ws /\ (length ws <= length (inflight r))%nat.
Proof.
  intros Hb Hnd. assert (length (awaited ws) = length ws /\ forall id, id ∈ awaited ws -> id ∈ flying r) as [Hl Hin].
  { clear Hnd. induction ws as [|wk ws IH]; [by split; [|intros id ?%elem_of_nil]|].
    destruct IH as [IH1 IH2]; [intros w wk'; exact (Hb (S w) wk')|]. pose proof (Hb 0%nat wk eq_refl) as H0.
    destruct wk as [|id]; [done|]. cbn in H0. apply bool_decide_eq_false, dec_stable in H0. cbn. unfold awaited in *. split; [lia|].
    intros i [->|Hi]%elem_of_cons; [done|auto]. }
  split; [done|]. rewrite <-Hl. apply (NoDup_submseteq _ (flying r)) in Hnd; [|done]. apply submseteq_length in Hnd.
  unfold step_ids in Hnd. by rewrite !length_fmap in Hnd.
Qed.

(** C5. The bound on parallel steps holds in every reachable state, and no worker idles. In the sequential mode
    one step is open at a time. In phases never more steps are in flight than the setting asks for, where a
    malformed one (NaN, zero, negative, a fraction below one, minus infinity) asks for one and never for no
    bound; and as long as fewer are in flight and a step of the phase waits, some worker takes it. Only a
    missing setting or Infinity leaves a phase unbounded, and then every waiting step can be started. *)
Theorem parallel_steps_are_bounded cost r0 l r :
  start' cost = Ok r0 -> acts' r0 l = Some r ->
  (getExecutionMode (manifest o) = sequential -> (length (queue r) + length (inflight r) <= 1)%nat) /\
  (getExecutionMode (manifest o) = parallel ->
     match bound_of (limits o ≫= maxParallelSteps) with
     | Some k => (Z.of_nat (length (inflight r)) <= k)%Z /\
         (well_formed_steps (manifest_agents (manifest o)) -> finished r = false -> queue r <> [] ->
          (Z.of_nat (length (inflight r)) < k)%Z -> forall c, exists w, is_Some (act' r (StartNext w c)))
     | None => finished r = false -> queue r <> [] -> forall w c, is_Some (act' r (StartNext w c))
     end).
Proof.
  intros Hs Hl. pose proof (start_pooled _ _ Hs) as H0. pose proof (acts_pooled _ _ _ H0 Hl) as Hp.
  assert (forall w c, finished r = false -> queue r <> [] -> (forall s, is_Some (hand_out r w s)) -> is_Some (act' r (StartNext w c))) as Hact.
  { intros w c Hf Hq Hh. unfold act. rewrite Hf. destruct (queue r) as [|s q]; [done|]. destruct (Hh s) as [ws ->]. by eexists. }
  unfold pooled in Hp. split; intros Hm.
  { unfold is_parallel in Hp. rewrite Hm in Hp. by destruct Hp as (_ & _ & ?). }
  assert (is_parallel o = true) as Epar by (unfold is_parallel; by rewrite Hm). rewrite Epar in Hp. destruct cap_now as [cap|] eqn:Ec.
  - destruct (cap_bound _ _ Ec) as (q & -> & -> & Hq). destruct Hp as [[Eq Ei]|(size & ws & Ew & [Hsz Ht Ha])].
    { rewrite Eq, Ei. split; [cbn; lia|done]. }
    split.
    + apply submseteq_length in Ha. pose proof (awaited_length ws). unfold step_ids in Ha. rewrite !length_fmap in Ha. cbn in Hsz. lia.
    + intros Hwf Hf Hqu Hlt c.
      assert (distinct r) as [_ Hd].
      { eapply acts_distinct; [exact H0| |exact Hl]. destruct (start_Ok _ _ Hs) as (ps & Hps & -> & _). split; [|done]. by eapply phases_distinct. }
      rewrite Ew in Hd. apply NoDup_app in Hd as (_ & _ & Hd).
      destruct (existsb (at_head r) ws) eqn:Ex.
      * apply existsb_exists in Ex as (wk & Hin%list_elem_of_In & Hh). apply list_elem_of_lookup in Hin as [w Hw]. exists w.
        apply Hact; [done..|]. intros s. unfold hand_out. by rewrite Ew, Hw, Hh.
      * exfalso. destruct (all_busy r ws) as [Hb1 Hb2]; [|done|].
        { intros w wk Hw. destruct (at_head r wk) eqn:E; [|done]. assert (existsb (at_head r) ws = true); [|congruence].
          apply existsb_exists. exists wk. split; [apply list_elem_of_In; by eapply list_elem_of_lookup_2|done]. }
        destruct (queue r); [done|]. cbn in Hsz, Ht. lia.
  - rewrite (cap_none _ Ec). intros Hf Hqu w c. apply Hact; [done..|]. intros s. unfold hand_out. by rewrite Hp.
Qed.

End Runs.

(** ** After a stop *)

Section Stops.
Variable num_text : Q -> string.
Variable budget_text : SessionBudgetError -> string.
Variable inlinePricing : ManifestStep -> ModelPricing.
Variable rowInserted : string -> bool.
Variable o : Options.

Abbreviation act' := (act num_text budget_text inlinePricing rowInserted o).
Abbreviation acts' := (acts num_text budget_text inlinePricing rowInserted o).

Definition starts (l : list Hook) : list string :=
  omap (fun h => match h with onStepStart id => Some id | _ => None end) l.

(** A stretch that starts no agent and gives at most the step itself an output. *)
Definition modest (id : string) (st st' : RunState) : Prop :=
  starts (log st') = starts (log st) /\
  (forall k, k ∈ jm_keys (outputs st') -> k ∈ jm_keys (outputs st) \/ k = id).

Lemma modest_refl id st : modest id st st.
Proof. split; auto. Qed.
Lemma modest_trans id a b c : modest id a b -> modest id b c -> modest id a c.
Proof. intros [A1 A2] [B1 B2]. split; [congruence|]. intros k Hk. destruct (B2 k Hk); auto. Qed.
Lemma modest_same id st st' : log st' = log st -> outputs st' = outputs st -> modest id st st'.
Proof. intros H1 H2. split; [by rewrite H1|]. rewrite H2. auto. Qed.
Lemma modest_hook id st h : starts [h] = [] -> modest id st (hook st h).
Proof. intros H. split; [|auto]. unfold starts in *. cbn [log hook]. by rewrite omap_app, H, app_nil_r. Qed.
Lemma modest_put id st out : modest id st (put_output st id out).
Proof.
  split; [done|]. intros k. cbn [outputs put_output]. rewrite jm_keys_set. case_decide; [auto|].
  rewrite elem_of_app, list_elem_of_singleton. tauto.
Qed.
Lemma modest_row id step out st : modest id st (recordStepRow rowInserted o step out st).
Proof. apply modest_same; unfold recordStepRow; by destruct (negb _). Qed.
Lemma modest_unless id st cause : modest id st (end_unless_ended st cause).
Proof. apply modest_same; unfold end_unless_ended; by destruct (is_running st). Qed.

Lemma fail_modest c step spent e st :
  modest (step_id step) st (fail_step rowInserted o c step spent e st).2.
Proof.
  unfold fail_step. set (st1 := recordStepRow _ _ _ _ _).
  assert (modest (step_id step) st st1) as H1
    by (apply (modest_trans _ _ (hook st (onError (step_id step) e))); [by apply modest_hook|apply modest_row]).
  clearbody st1. eapply modest_trans; [exact H1|].
  unfold stoppedByOwner, questionUnanswered.
  repeat case_match; simplify_eq; cbn [snd];
    match goal with
    | |- modest _ ?a ?a => apply modest_refl
    | |- modest _ _ (end_unless_ended _ _) => apply modest_unless
    | |- modest _ _ (set_end _ _ _) => by apply modest_same
    | |- modest _ _ (put_output _ _ _) => apply modest_put
    | |- modest _ _ (hook _ _) => eapply modest_trans; [apply modest_put|by apply modest_hook]
    end.
Qed.

Lemma react_modest c step p ev st x :
  react num_text budget_text rowInserted o c step p ev st = Some x -> modest (step_id step) st x.2.
Proof.
  assert (forall r st, modest (step_id step) st (complete_step rowInserted o step r st).2) as Hc.
  { intros r st'. unfold complete_step. cbn [snd]. set (out := mkOutput _ _ _ _ _ _ _ _ _).
    apply (modest_trans _ _ (put_output st' (step_id step) out)); [apply modest_put|].
    apply (modest_trans _ _ (hook (put_output st' (step_id step) out) (onStepComplete out))); [by apply modest_hook|apply modest_row]. }
  assert (forall pr st, modest (step_id step) st (reserve budget_text rowInserted o c step pr st).2) as Hr.
  { intros pr st'. unfold reserve. destruct (checkSessionBudget _ _ _); [|apply fail_modest]. by apply modest_same. }
  destruct p as [|charge|r|r], ev as [prices|r'| |d|e]; cbn [react]; intros; simplify_eq; auto using fail_modest.
  - match goal with |- context [if gated o step then _ else complete_step _ _ _ _ ?st1] =>
      apply (modest_trans _ _ st1); [by destruct charge as [[]|]; apply modest_same|] end.
    destruct (gated o step); [|auto]. destruct (step_context _ _ _ _); [apply modest_refl|apply fail_modest].
  - by apply modest_hook.
  - eapply modest_trans; [by apply (modest_hook _ _ (onGateDecision (step_id step) d))|]. destruct d; auto using fail_modest.
Qed.

(** The checks of every step still to be started halt it. *)
Definition stop_is_out (a : Action) : Prop :=
  match a with StartNext _ c => must_halt o c = true | _ => True end.

Lemma act_stopped r a r' :
  stop_is_out a -> act' r a = Some r' ->
  starts (log (state r')) = starts (log (state r)) /\
  (forall s, s ∈ (inflight r').*1 -> s ∈ (inflight r).*1) /\
  (forall k, k ∈ jm_keys (outputs (state r')) ->
     k ∈ jm_keys (outputs (state r)) \/ from_cache o k = true \/ k ∈ step_ids (inflight r).*1).
Proof.
  intros Hstop. unfold act. destruct (finished r); [done|]. destruct a as [ms|w c|i c ev].
  - destruct (queue r); [|done]. destruct (inflight r) eqn:Ei; [|done]. intros [= <-].
    assert (forall r1, inflight r1 = [] -> modest "" (state r1) (state (next_phase o ms r1)) /\
      outputs (state (next_phase o ms r1)) = outputs (state r1) /\ inflight (next_phase o ms r1) = []) as Hn.
    { intros r1 H1. unfold next_phase. repeat case_match; cbn [state finish with_state inflight];
        split_and!; try done; try apply modest_refl; first [by apply modest_hook|by apply modest_same]. }
    destruct (_ && _).
    + destruct (Hn (with_state r (hook (state r) onPhaseComplete))) as ([-> _] & -> & ->); [done|].
      destruct (modest_hook "" (state r) onPhaseComplete eq_refl) as [H _]. split_and!; auto.
    + destruct (Hn r) as ([-> _] & -> & ->); [done|]. split_and!; auto.
  - destruct (queue r) as [|step rest]; [done|]. destruct (hand_out _ _ _) as [ws|]; [|done]. intros [= <-]. cbn [stop_is_out] in Hstop.
    unfold settle. cbn [state inflight]. unfold begin_step.
    destruct (cachedOutputs o ≫= _) as [cached|] eqn:Ec.
    + cbn [fst snd]. rewrite app_nil_r. destruct (row_same rowInserted o step cached (put_output (state r) (step_id step) cached)) as (_ & O & _).
      split_and!; [|auto|].
      * unfold starts. cbn [log hook]. rewrite omap_app, app_nil_r. unfold recordStepRow. by destruct (negb _).
      * intros k. cbn [outputs hook]. rewrite O. intros [H| ->]%(proj2 (modest_put _ _ _)); [by left|].
        right. left. unfold from_cache. rewrite Ec. by apply bool_decide_eq_true_2.
    + apply (must_halt_spec o c (state r)) in Hstop as [st' Hst']. rewrite Hst'. cbn [fst snd]. rewrite app_nil_r.
      unfold halted, stoppedByOwner, questionUnanswered, stopForEndedAuthor in Hst'.
      assert (exists cause, st' = end_unless_ended (state r) cause) as [cause ->] by (repeat case_match; simplify_eq; eauto).
      destruct (modest_unless "" (state r) cause) as [H _]. split_and!; [done|auto|].
      unfold end_unless_ended. destruct (is_running _); auto.
  - destruct (inflight r !! i) as [[step p]|] eqn:Ei; [|done].
    destruct (react _ _ _ _ _ _ _ _ _) as [x|] eqn:Ex; [|done]. intros [= <-].
    destruct (react_modest _ _ _ _ _ _ Ex) as [Hlog Hout]. unfold settle. cbn [state inflight].
    assert (step ∈ (inflight r).*1) as Hin.
    { apply list_elem_of_fmap. exists (step, p). split; [done|]. by eapply list_elem_of_lookup_2. }
    split_and!; [done| |].
    + intros s Hs. rewrite <-(take_drop_middle _ _ _ Ei). rewrite fmap_app, fmap_cons, elem_of_app, elem_of_cons. cbn [fst].
      destruct (x.1); rewrite fmap_app, elem_of_app in Hs; [rewrite fmap_cons, elem_of_cons in Hs|]; cbn [fst] in Hs; tauto.
    + intros k Hk. destruct (Hout k Hk) as [?| ->]; [by left|]. right. right. apply list_elem_of_fmap. eauto.
Qed.

(** C3. Once the owner's stop, an unanswered question or an ended maker is out and stays out, no step is
    started any more under any schedule, only the steps already in flight resume, and no step but
    those and the ones a retry took over gets an output; the first other step that is reached ends the
    run. *)
Theorem nothing_starts_after_a_stop r l r' :
  Forall stop_is_out l -> acts' r l = Some r' ->
  starts (log (state r')) = starts (log (state r)) /\
  (forall s, s ∈ (inflight r').*1 -> s ∈ (inflight r).*1) /\
  (forall k, k ∈ jm_keys (outputs (state r')) ->
     k ∈ jm_keys (outputs (state r)) \/ from_cache o k = true \/ k ∈ step_ids (inflight r).*1) /\
  (forall w c step rest r1, act' r' (StartNext w c) = Some r1 -> must_halt o c = true -> queue r' = step :: rest ->
     from_cache o (step_id step) = false -> is_running (state r1) = false).
Proof.
  intros Hl Ha. assert (forall s s' : list (ManifestStep * Progress), (forall x, x ∈ s'.*1 -> x ∈ s.*1) ->
    forall k, k ∈ step_ids s'.*1 -> k ∈ step_ids s.*1) as Hsub.
  { intros s s' H k (x & -> & Hx)%list_elem_of_fmap. apply list_elem_of_fmap. eauto. }
  assert (starts (log (state r')) = starts (log (state r)) /\
    (forall s, s ∈ (inflight r').*1 -> s ∈ (inflight r).*1) /\
    (forall k, k ∈ jm_keys (outputs (state r')) ->
       k ∈ jm_keys (outputs (state r)) \/ from_cache o k = true \/ k ∈ step_ids (inflight r).*1)) as H.
  { revert r Ha. induction Hl as [|a l Hstop Hl IH]; intros r; [intros [= <-]; auto|]. cbn [acts].
    destruct (act' r a) as [r1|] eqn:E; [|done]. intros Ha.
    destruct (act_stopped _ _ _ Hstop E) as (L1 & I1 & O1). destruct (IH _ Ha) as (L2 & I2 & O2).
    split_and!; [congruence|auto|]. intros k Hk. destruct (O2 k Hk) as [?|[?|?]]; [auto|auto|].
    right. right. by eapply Hsub. }
  destruct H as (? & ? & ?). split_and!; try done.
  intros w c step rest r1 Hact Hm Hq Hc. unfold act in Hact. destruct (finished r'); [done|]. rewrite Hq in Hact.
  destruct (hand_out _ _ _) as [ws|]; [|done]. injection Hact as <-. unfold settle. cbn [state]. unfold begin_step.
  unfold from_cache in Hc. apply bool_decide_eq_false in Hc.
  destruct (cachedOutputs o ≫= _) eqn:Ec; [exfalso; eauto|].
  apply (must_halt_spec o c (state r')) in Hm as [st' Hst']. rewrite Hst'. by apply halted_evolves in Hst' as [_ ?].
Qed.
End Stops.

(** ** A run to evaluate *)

Definition sample_manifest : Manifest :=
  mkManifest v1_1 "sample" [] [bare_step "a" []; bare_step "b" ["a"%string]] ["a"%string] on_continue None.
Definition sample_options : Options :=
  {| manifest := sample_manifest; source := Some Adhoc; depth := 0; cachedOutputs := None; mockResponses := true;
     parentTools := false; gateAdapter := true; runHistory := true; contextLimit := None; limits := None;
     maxSessionCost := num_of_Z 50 |}.
Definition quiet_checks : Checks := {| stopped := false; unanswered := None; c_ends := fun _ => Ok true |}.
Definition owner_stop : Checks := {| stopped := true; unanswered := None; c_ends := fun _ => Ok true |}.
Definition sample_reply : StepRun :=
  {| r_result := "done"; r_tokensIn := zero; r_tokensOut := zero; r_durationMs := zero; r_costUsd := zero |}.

Definition sample_start : result refusal Run := start_run sample_options (fun _ => None) zero.
Definition sample_acts (l : list Action) : option Run :=
  match sample_start with
  | Ok r => acts (fun _ => ""%string) (fun _ => ""%string)
      (fun _ => {| p_input := zero; p_output := zero; p_cacheWrite := zero; p_cacheRead := zero |}) (fun _ => true)
      sample_options r l
  | Err _ => None
  end.

(** The gated first step is approved. *)
Definition gate_passed : list Action :=
  [NextPhase zero; StartNext 0 quiet_checks; Resume 0 quiet_checks (Returned sample_reply);
   Resume 0 quiet_checks Submitted; Resume 0 quiet_checks (Decided Approved)].
(** ... and the owner stops the run before the second. *)
Definition then_stopped : list Action := gate_passed ++ [NextPhase zero; StartNext 0 owner_stop].
Definition completed : list Action :=
  gate_passed ++ [NextPhase zero; StartNext 0 quiet_checks; Resume 0 quiet_checks (Returned sample_reply); NextPhase zero].

Definition run_of (x : option Run) : Run :=
  default {| state := initial_state sample_options zero; todo := []; queue := []; inflight := []; results := [];
             workers := None; iterations := 0; finished := true |} x.
Definition run0 : Run := run_of (match sample_start with Ok r => Some r | Err _ => None end).

Example sample_completed : final_status (run_of (sample_acts completed)) = Completed /\
  jm_keys (outputs (state (run_of (sample_acts completed)))) = ["a"; "b"]%string.
Proof. vm_compute. done. Qed.

Lemma gates_are_never_skipped_witness :
  onGateDecision "a" Approved ∈ log (state (run_of (sample_acts completed))).
Proof.
  refine (proj1 (proj2 (gates_are_never_skipped (fun _ => ""%string) (fun _ => ""%string)
    (fun _ => {| p_input := zero; p_output := zero; p_cacheWrite := zero; p_cacheRead := zero |}) (fun _ => true)
    sample_options (fun _ => None) zero run0 completed (run_of (sample_acts completed)) _ _)) "a"%string
    (mkOutput "a" "done" zero zero zero zero false None None) _ _ _ (conj eq_refl eq_refl));
    try (vm_compute; reflexivity). apply (bool_decide_unpack _). vm_compute. exact I.
Defined.

Lemma steps_find_their_inputs_witness : has_output (run_of (sample_acts completed)) (bare_step "b" ["a"%string]).
Proof.
  refine (proj2 (steps_find_their_inputs (fun _ => ""%string) (fun _ => ""%string)
    (fun _ => {| p_input := zero; p_output := zero; p_cacheWrite := zero; p_cacheRead := zero |}) (fun _ => true)
    sample_options (fun _ => None) zero run0 completed (run_of (sample_acts completed)) _ _ _ _) _ _ _ _);
    try (vm_compute; reflexivity); [apply (bool_decide_unpack _); vm_compute; exact I|right; left].
Defined.

Lemma ended_run_stays_ended_witness :
  final_status (run_of (sample_acts (then_stopped ++ [NextPhase zero]))) <> Completed.
Proof.
  refine (proj1 (proj2 (proj2 (ended_run_stays_ended (fun _ => ""%string) (fun _ => ""%string)
    (fun _ => {| p_input := zero; p_output := zero; p_cacheWrite := zero; p_cacheRead := zero |}) (fun _ => true)
    sample_options (fun _ => None) zero run0 then_stopped (run_of (sample_acts then_stopped)) [NextPhase zero]
    (run_of (sample_acts (then_stopped ++ [NextPhase zero]))) _ _ _ _)))); vm_compute; reflexivity.
Defined.

Lemma runs_terminate_witness : (length completed <= S (phases_load (todo run0)))%nat.
Proof.
  refine (proj1 (runs_terminate (fun _ => ""%string) (fun _ => ""%string)
    (fun _ => {| p_input := zero; p_output := zero; p_cacheWrite := zero; p_cacheRead := zero |}) (fun _ => true)
    sample_options (fun _ => None) zero run0 completed (run_of (sample_acts completed)) _ _)); vm_compute; reflexivity.
Defined.

(** Three steps of one phase, at most two at once. *)
Definition wide_options : Options :=
  {| manifest := mkManifest v1_1 "wide" [] [bare_step "a" []; bare_step "b" []; bare_step "c" []] [] on_continue None; source := Some Adhoc;
     depth := 0; cachedOutputs := None; mockResponses := true; parentTools := false; gateAdapter := true; runHistory := true;
     contextLimit := None; limits := Some {| maxWallClockMs := None; maxIterations := None; maxSpendUsd := None; maxParallelSteps := Some (num_of_Z 2) |};
     maxSessionCost := num_of_Z 50 |}.
Definition wide_acts (l : list Action) : option Run :=
  match start_run wide_options (fun _ => None) zero with
  | Ok r => acts (fun _ => ""%string) (fun _ => ""%string)
      (fun _ => {| p_input := zero; p_output := zero; p_cacheWrite := zero; p_cacheRead := zero |}) (fun _ => true) wide_options r l
  | Err _ => None
  end.
Definition two_started : list Action := [NextPhase zero; StartNext 0 quiet_checks; StartNext 1 quiet_checks].

(** With two in flight no worker takes the third; when the first has settled, its worker does. *)
Example the_third_step_waits :
  (exists r, wide_acts two_started = Some r /\ length (inflight r) = 2%nat) /\
  (forall w, wide_acts (two_started ++ [StartNext w quiet_checks]) = None) /\
  is_Some (wide_acts (two_started ++ [Resume 0 quiet_checks (Returned sample_reply); StartNext 0 quiet_checks])) /\
  wide_acts (two_started ++ [Resume 0 quiet_checks (Returned sample_reply); StartNext 1 quiet_checks]) = None.
Proof.
  split_and!; [eexists; split; vm_compute; reflexivity| |vm_compute; by eexists|vm_compute; reflexivity].
  intros [|[|w]]; vm_compute; reflexivity.
Qed.

Definition wide_run (l : list Action) : Run := run_of (wide_acts l).

Lemma parallel_steps_are_bounded_witness : let r := wide_run [NextPhase zero; StartNext 1 quiet_checks] in
  (Z.of_nat (length (inflight r)) <= 2)%Z /\ exists w, is_Some (act (fun _ => ""%string) (fun _ => ""%string)
    (fun _ => {| p_input := zero; p_output := zero; p_cacheWrite := zero; p_cacheRead := zero |}) (fun _ => true) wide_options r (StartNext w quiet_checks)).
Proof.
  destruct (proj2 (parallel_steps_are_bounded (fun _ => ""%string) (fun _ => ""%string)
    (fun _ => {| p_input := zero; p_output := zero; p_cacheWrite := zero; p_cacheRead := zero |}) (fun _ => true)
    wide_options (fun _ => None) zero (wide_run []) [NextPhase zero; StartNext 1 quiet_checks]
    (wide_run [NextPhase zero; StartNext 1 quiet_checks]) ltac:(vm_compute; reflexivity) ltac:(vm_compute; reflexivity)) eq_refl) as [Hb Hw].
  split; [exact Hb|]. apply Hw; [apply (bool_decide_unpack _); vm_compute; exact I|vm_compute; reflexivity|vm_compute; discriminate|vm_compute; reflexivity].
Defined.

Lemma nothing_starts_after_a_stop_witness :
  starts (log (state (run_of (sample_acts then_stopped)))) = starts (log (state (run_of (sample_acts gate_passed)))).
Proof.
  refine (proj1 (nothing_starts_after_a_stop (fun _ => ""%string) (fun _ => ""%string)
    (fun _ => {| p_input := zero; p_output := zero; p_cacheWrite := zero; p_cacheRead := zero |}) (fun _ => true)
    sample_options (run_of (sample_acts gate_passed)) [NextPhase zero; StartNext 0 owner_stop]
    (run_of (sample_acts then_stopped)) _ _)); [|vm_compute; reflexivity].
  repeat constructor.
Defined.
