(* ===== verification/BashLex.v ===== *)
(** The grammar of a provably harmless bash command, first half of [tools/bash-allowlist.ts]: the lexer that splits a
    command line into commands of words, and the grammar it accepts, stated on its own.

    A text is its list of code units. [lex] is the code's one pass with its jumps; [cmdline] says by rules, without a
    state, which texts are command lines and what they mean. *)
From coqutil Require Import Datatypes.RecordSetters.
From S2P Require Import Prelude Num JsString.
Import TriangleBracketNotations.
Open Scope Z_scope.

(** @src src/src/tools/bash-allowlist.ts 42-63 ProofReason *)
Inductive ProofReason := r_ok | r_length | r_byte | r_char | r_quote | r_tilde | r_separator | r_redirect | r_program | r_option |
  r_value | r_operand | r_no_home | r_root | r_path_outside | r_path_sensitive | r_path_hidden | r_path_special |
  r_path_unresolvable | r_sidecar.

(** @src src/src/tools/bash-allowlist.ts 173-179 Word *)
Record Word := { text : list ascii; quoted : bool; tilde : bool }.
#[export] Instance Word_eq_dec : EqDecision Word.
Proof. solve_decision. Defined.

(** A command is its words. *)
(** @src src/src/tools/bash-allowlist.ts 181-181 Segment *)
Definition Segment : Type := list Word.

(** [/[A-Za-z0-9\-_./=,:@%+]/]. *)
(** @src src/src/tools/bash-allowlist.ts 187-187 WORD_CHAR *)
Definition WORD_CHAR (c : ascii) : bool :=
  is_alpha c || is_digit c || bool_decide (c ∈ chars "-_./=,:@%+").
(** @src src/src/tools/bash-allowlist.ts 189-189 REDIRECT *)
Definition REDIRECT : list ascii := chars "2>/dev/null".

Definition QUOTE : ascii := "'"%char.
Definition TILDE : ascii := "~"%char.
Definition is_blank (c : ascii) : bool := bool_decide (c = " "%char) || (code c =? 9).
(** A code unit single quotes may hold. *)
Definition quotable (c : ascii) : bool := negb ((code c <? 32) || (code c =? 127)).
Definition empty_word : Word := {| text := []; quoted := false; tilde := false |}.

(** ** The lexer *)

(** The variables of the pass. *)
(** @src src/src/tools/bash-allowlist.ts 193-196 lex *)
Record Lexing := { segments : list Segment; words : list Word; word : option Word; redirected : bool }.

(** @src src/src/tools/bash-allowlist.ts 198-204 lex *)
Definition endWord (s : Lexing) : result ProofReason Lexing :=
  match word s with
  | None => Ok s
  | Some w => if redirected s then Err r_redirect
              else Ok (s <| words := words s ++ [w] |> <| word := None |>)
  end.
(** @src src/src/tools/bash-allowlist.ts 205-211 lex *)
Definition endSegment (s : Lexing) : result ProofReason Lexing :=
  s ← endWord s;
  match words s with
  | [] => Err r_separator
  | ws => Ok {| segments := segments s ++ [ws]; words := []; word := None; redirected := false |}
  end.

(** [word ??= { text: '', .. }; word.text += body]. *)
Definition add_text (body : list ascii) (w : Word) : Word := w <| text := text w ++ body |>.
Definition current (s : Lexing) : Word := default empty_word (word s).

(** What may follow an unquoted [~]: the end, a blank, a slash or a separator. *)
(** @src src/src/tools/bash-allowlist.ts 263-264 lex *)
Definition ends_tilde (rest : list ascii) : bool :=
  match rest with
  | [] => true
  | c :: _ => is_blank c || bool_decide (c ∈ chars "/|&;")
  end.

(** One code unit [c], with [rest] behind it: the new state and how many further ones the pass jumps over. *)
(** @src src/src/tools/bash-allowlist.ts 214-271 lex *)
Definition lex_char (s : Lexing) (c : ascii) (rest : list ascii) : result ProofReason (nat * Lexing) :=
  if is_blank c then s ← endWord s; Ok (0%nat, s)
  else if bool_decide (c = QUOTE) then
    let body := take_while (fun x => negb (bool_decide (x = QUOTE))) rest in
    if Nat.eqb (length body) (length rest) then Err r_quote
    else if negb (forallb quotable body) then Err r_byte
    else Ok (S (length body), s <| word := Some (add_text body (current s) <| quoted := true |>) |>)
  else if (code c <? 32) || (126 <? code c) then Err r_byte
  else if bool_decide (c = "|"%char) then s ← endSegment s; Ok (0%nat, s)
  else if bool_decide (c = "&"%char) then
    match rest with
    | x :: _ => if bool_decide (x = "&"%char) then s ← endSegment s; Ok (1%nat, s) else Err r_separator
    | [] => Err r_separator
    end
  else if bool_decide (c = ";"%char) then s ← endSegment s; Ok (0%nat, s)
  else if bool_decide (c = ">"%char) then
    match word s with
    | Some w =>
        if bool_decide (text w = chars "2") && negb (quoted w) && negb (tilde w) &&
           bool_decide (take 9 rest = chars "/dev/null") && negb (redirected s)
        then Ok (9%nat, s <| word := None |> <| redirected := true |>)
        else Err r_redirect
    | None => Err r_redirect
    end
  else if bool_decide (c = TILDE) then
    match word s with
    | None => if ends_tilde rest then Ok (0%nat, s <| word := Some {| text := [TILDE]; quoted := false; tilde := true |} |>)
              else Err r_tilde
    | Some _ => Err r_tilde
    end
  else if negb (WORD_CHAR c) then Err r_char
  else Ok (0%nat, s <| word := Some (add_text [c] (current s)) |>).

(** @src src/src/tools/bash-allowlist.ts 213-274 lex *)
Fixpoint lex_from (skip : nat) (s : Lexing) (l : list ascii) : result ProofReason (list Segment) :=
  match l with
  | [] => s ← endSegment s; Ok (segments s)
  | c :: l =>
      match skip with
      | S skip => lex_from skip s l
      | O => '(skip, s) ← lex_char s c l; lex_from skip s l
      end
  end.
Definition lex_start : Lexing := {| segments := []; words := []; word := None; redirected := false |}.
(** @src src/src/tools/bash-allowlist.ts 191-275 lex *)
Definition lex (cmd : list ascii) : result ProofReason (list Segment) := lex_from 0 lex_start cmd.

Definition plain (t : string) : Word := {| text := chars t; quoted := false; tilde := false |}.
Example lex_1 : lex (chars "cat ~/a 'b c'd | wc -l 2>/dev/null ; ls&&pwd") =
  Ok [[plain "cat"; {| text := chars "~/a"; quoted := false; tilde := true |}; {| text := chars "b cd"; quoted := true; tilde := false |}];
      [plain "wc"; plain "-l"]; [plain "ls"]; [plain "pwd"]].
Proof. vm_compute. reflexivity. Qed.
Example lex_2 : lex (chars "ls || pwd") = Err r_separator. Proof. vm_compute. reflexivity. Qed.
Example lex_3 : lex (chars "ls 2>/dev/null x") = Err r_redirect. Proof. vm_compute. reflexivity. Qed.
Example lex_4 : lex (chars "echo $HOME") = Err r_char. Proof. vm_compute. reflexivity. Qed.
Example lex_5 : lex (chars "ls ~root") = Err r_tilde. Proof. vm_compute. reflexivity. Qed.
Example lex_6 : lex (chars "ls 2>/dev/nullx") = Err r_redirect. Proof. vm_compute. reflexivity. Qed.

(** ** The grammar *)

Definition blanks (l : list ascii) : Prop := forallb is_blank l = true.
Definition separator (l : list ascii) : Prop := l = chars "|" \/ l = chars "&&" \/ l = chars ";".
(** Nothing, or something a blank parts from what is before it. *)
Definition parted (l : list ascii) : Prop := match l with [] => True | c :: _ => is_blank c = true end.

(** A word is made of plain characters and quoted texts. *)
Inductive Piece := Char (c : ascii) | Quoted (body : list ascii).
Definition piece_ok (p : Piece) : bool :=
  match p with
  | Char c => WORD_CHAR c
  | Quoted body => forallb quotable body && negb (bool_decide (QUOTE ∈ body))
  end.
Definition written (ps : list Piece) : list ascii :=
  mjoin ((fun p => match p with Char c => [c] | Quoted body => QUOTE :: body ++ [QUOTE] end) <$> ps).
Definition meant (ps : list Piece) : list ascii := mjoin ((fun p => match p with Char c => [c] | Quoted body => body end) <$> ps).
Definition any_quoted (ps : list Piece) : bool := existsb (fun p => match p with Quoted _ => true | _ => false end) ps.

(** How a word is written, and what it is to the shell: a leading unquoted [~] stands alone or before a slash. *)
Inductive word_text : list ascii -> Word -> Prop :=
| wt_pieces ps : ps <> [] -> forallb piece_ok ps = true ->
    word_text (written ps) {| text := meant ps; quoted := any_quoted ps; tilde := false |}
| wt_tilde ps : ps = [] \/ (exists qs, ps = Char "/"%char :: qs) -> forallb piece_ok ps = true ->
    word_text (TILDE :: written ps) {| text := TILDE :: meant ps; quoted := any_quoted ps; tilde := true |}.

(** A command: words parted by blanks, errors thrown away at its end or not. *)
Inductive command_text : list ascii -> list Word -> Prop :=
| ct_end bl : blanks bl -> command_text bl []
| ct_redirect bl bl' : blanks bl -> blanks bl' -> command_text (bl ++ REDIRECT ++ bl') []
| ct_word bl lw w rest ws : blanks bl -> word_text lw w -> parted rest -> command_text rest ws ->
    command_text (bl ++ lw ++ rest) (w :: ws).

(** A command line: commands with words, a separator between each two. *)
Inductive cmdline : list ascii -> list Segment -> Prop :=
| cl_one l ws : command_text l ws -> ws <> [] -> cmdline l [ws]
| cl_more l ws sep l' segs : command_text l ws -> ws <> [] -> separator sep -> cmdline l' segs ->
    cmdline (l ++ sep ++ l') (ws :: segs).

(** *** What the grammar generates is accepted *)

Lemma lex_skip k s l : lex_from k s l = lex_from 0 s (drop k l).
Proof. revert k. induction l as [|c l IH]; intros [|k]; try done. apply IH. Qed.

Lemma lex_cons s c l : lex_from 0 s (c :: l) = '(k, s') ← lex_char s c l; lex_from 0 s' (drop k l).
Proof. cbn [lex_from]. destruct (lex_char s c l) as [[k s']|e]; [|done]. cbn. apply lex_skip. Qed.

Lemma lex_blanks s bl l : blanks bl -> word s = None -> lex_from 0 s (bl ++ l) = lex_from 0 s l.
Proof.
  unfold blanks. induction bl as [|c bl IH]; [done|]. cbn [forallb app]. intros [Hc Hb]%andb_true_iff Hw.
  rewrite lex_cons. unfold lex_char. rewrite Hc. unfold endWord. rewrite Hw. cbn. rewrite drop_0. by apply IH.
Qed.

Lemma word_char_plain c : WORD_CHAR c = true ->
  is_blank c = false /\ c <> QUOTE /\ c <> "|"%char /\ c <> "&"%char /\ c <> ";"%char /\ c <> ">"%char /\ c <> TILDE /\
  (code c <? 32) || (126 <? code c) = false.
Proof. destruct c as [[] [] [] [] [] [] [] []]; vm_compute; intros H; try discriminate H; split_and!; done. Qed.

Lemma lex_char_plain s c rest : WORD_CHAR c = true -> lex_char s c rest = Ok (0%nat, s <| word := Some (add_text [c] (current s)) |>).
Proof.
  intros Hc. destruct (word_char_plain c Hc) as (H1 & H2 & H3 & H4 & H5 & H6 & H7 & H8).
  unfold lex_char. rewrite H1, H8, Hc. by rewrite !bool_decide_eq_false_2 by done.
Qed.

Lemma not_quote_all body : QUOTE ∉ body -> forallb (fun x => negb (bool_decide (x = QUOTE))) body = true.
Proof. intros Hn. apply forallb_forall. intros x Hx%list_elem_of_In. apply negb_true_iff, bool_decide_eq_false. set_solver. Qed.

Lemma lex_char_quoted s body l : QUOTE ∉ body -> forallb quotable body = true ->
  lex_char s QUOTE (body ++ QUOTE :: l) = Ok (S (length body), s <| word := Some (add_text body (current s) <| quoted := true |>) |>).
Proof.
  intros Hn Hb. unfold lex_char. rewrite (bool_decide_eq_true_2 (QUOTE = QUOTE)) by done. rewrite take_while_stop by (try apply not_quote_all; done). rewrite length_app.
  cbn [is_blank QUOTE]. rewrite Hb. replace (Nat.eqb _ _) with false; [done|]. symmetry. apply Nat.eqb_neq. cbn. lia.
Qed.

Definition with_pieces (ps : list Piece) (w : Word) : Word :=
  {| text := text w ++ meant ps; quoted := quoted w || any_quoted ps; tilde := tilde w |}.

Lemma with_pieces_cons p ps w : with_pieces (p :: ps) w = with_pieces ps (with_pieces [p] w).
Proof.
  unfold with_pieces. f_equal; [|cbn; by rewrite orb_false_r, orb_assoc].
  change (p :: ps) with ([p] ++ ps). unfold meant. rewrite !fmap_app, !join_app. cbn. by rewrite app_nil_r, (assoc (++)).
Qed.

Lemma lex_piece s p l : piece_ok p = true -> lex_from 0 s (written [p] ++ l) = lex_from 0 (s <| word := Some (with_pieces [p] (current s)) |>) l.
Proof.
  destruct p as [c|body]; cbn [piece_ok].
  - change (written [Char c] ++ l) with (c :: l). intros Hc. rewrite lex_cons, lex_char_plain by done. cbn. rewrite drop_0. do 3 f_equal. unfold with_pieces, add_text. destruct (current s). cbn. by rewrite orb_false_r.
  - rewrite andb_true_iff, negb_true_iff, bool_decide_eq_false. intros [Hb Hn].
    replace (written [Quoted body] ++ l) with (QUOTE :: body ++ QUOTE :: l)
      by (unfold written; cbn; by rewrite app_nil_r, <-(assoc (++))).
    rewrite lex_cons, lex_char_quoted by done. cbn. rewrite drop_app_ge by lia. replace (S (length body) - length body)%nat with 1%nat by lia.
    cbn. rewrite drop_0. unfold with_pieces, add_text. cbn. rewrite app_nil_r. by rewrite orb_true_r.
Qed.

Lemma lex_pieces ps : forall s l, ps <> [] -> forallb piece_ok ps = true ->
  lex_from 0 s (written ps ++ l) = lex_from 0 (s <| word := Some (with_pieces ps (current s)) |>) l.
Proof.
  induction ps as [|p ps IH]; intros s l Hne; [done|]. cbn [forallb]. intros [Hp Hps]%andb_true_iff.
  assert (written (p :: ps) = written [p] ++ written ps) as -> by (unfold written; cbn; by rewrite app_nil_r).
  rewrite <-(assoc (++)), lex_piece by done. destruct ps as [|q ps]; [done|]. rewrite IH by done.
  f_equal. rewrite (with_pieces_cons p (q :: ps)). done.
Qed.

Lemma lex_word s lw w l : word_text lw w -> word s = None -> parted l \/ (exists sep l', separator sep /\ l = sep ++ l') ->
  lex_from 0 s (lw ++ l) = lex_from 0 (s <| word := Some w |>) l.
Proof.
  intros Hw Hs Hl. destruct Hw as [ps Hne Hps|ps Hslash Hps].
  - rewrite lex_pieces by done. unfold current. rewrite Hs. done.
  - cbn [app]. rewrite lex_cons. assert (ends_tilde (written ps ++ l) = true) as He.
    { destruct Hslash as [->|[qs ->]]; [|done]. cbn. destruct Hl as [Hl|(sep & l' & Hsep & ->)].
      - destruct l as [|c l]; [done|]. cbn in *. by rewrite Hl.
      - by destruct Hsep as [->|[->| ->]]. }
    assert (lex_char s TILDE (written ps ++ l) = Ok (0%nat, s <| word := Some {| text := [TILDE]; quoted := false; tilde := true |} |>)) as ->.
    { unfold lex_char. change (is_blank TILDE) with false. cbn [bool_decide]. rewrite He, Hs. done. }
    cbn. rewrite drop_0. destruct ps as [|p ps]; [done|]. rewrite lex_pieces by done. done.
Qed.

Lemma lex_blank s c l : is_blank c = true -> lex_from 0 s (c :: l) = s ← endWord s; lex_from 0 s l.
Proof. intros Hc. rewrite lex_cons. unfold lex_char. rewrite Hc. destruct (endWord s); [|done]. cbn. by rewrite drop_0. Qed.

Lemma lex_separator s sep l : separator sep -> lex_from 0 s (sep ++ l) = s ← endSegment s; lex_from 0 s l.
Proof.
  intros [->|[->| ->]];
    [change (chars "|" ++ l) with ("|"%char :: l)|change (chars "&&" ++ l) with ("&"%char :: "&"%char :: l)|
     change (chars ";" ++ l) with (";"%char :: l)]; rewrite lex_cons; unfold lex_char; cbn -[endSegment lex_from];
    (destruct (endSegment s); [|done]); cbn; by rewrite ?drop_0.
Qed.

Lemma lex_redirect s l : word s = None -> redirected s = false ->
  lex_from 0 s (REDIRECT ++ l) = lex_from 0 (s <| redirected := true |>) l.
Proof.
  destruct s as [sg ws w r]. cbn [word redirected]. intros -> ->. change (REDIRECT ++ l) with ("2"%char :: ">"%char :: chars "/dev/null" ++ l).
  rewrite lex_cons, lex_char_plain by done. cbn [mbind result_bind]. rewrite drop_0, lex_cons. unfold lex_char. cbn. by rewrite ?drop_0.
Qed.

(** The state in which a command of the words [ws] is complete. *)
Definition at_end (s : Lexing) (segs : list Segment) (ws : list Word) : Prop :=
  exists r, endWord s = Ok {| segments := segs; words := ws; word := None; redirected := r |}.

Lemma endSegment_at_end s segs ws : at_end s segs ws -> ws <> [] ->
  endSegment s = Ok {| segments := segs ++ [ws]; words := []; word := None; redirected := false |}.
Proof. intros [r Hr] Hws. unfold endSegment. rewrite Hr. cbn. by destruct ws. Qed.

Lemma command_text_nil ws : command_text [] ws -> ws = [].
Proof.
  remember [] as l eqn:Heq. destruct 1 as [|bl|bl lw w rest ws Hbl Hw]; [done|by destruct bl|].
  apply app_eq_nil in Heq as [_ [Heq _]%app_eq_nil]. destruct Hw as [[|[c|b] ps]|]; done.
Qed.

(** What may stand behind a command. *)
Definition behind (l : list ascii) : Prop := l = [] \/ exists sep l', separator sep /\ l = sep ++ l'.

Lemma parted_behind l tail : parted l -> behind tail -> parted (l ++ tail) \/ (exists sep l', separator sep /\ l ++ tail = sep ++ l').
Proof.
  destruct l as [|c l]; [|by left]. intros _ [->|H]; [by left|by right].
Qed.

Lemma lex_command l ws : command_text l ws -> forall s tail, behind tail -> word s = None -> redirected s = false ->
  exists s', lex_from 0 s (l ++ tail) = lex_from 0 s' tail /\ at_end s' (segments s) (words s ++ ws).
Proof.
  induction 1 as [bl Hbl|bl bl' Hbl Hbl'|bl lw w rest ws Hbl Hw Hp Hc IH]; intros s tail Ht Hs Hr.
  - exists s. rewrite lex_blanks by done. split; [done|]. exists false. unfold endWord. rewrite Hs, app_nil_r. destruct s. cbn in *. by subst.
  - exists (s <| redirected := true |>). rewrite <-!app_assoc. rewrite lex_blanks by done. rewrite lex_redirect by done. rewrite lex_blanks by done. split; [done|].
    exists true. rewrite app_nil_r. destruct s. cbn in *. by subst.
  - rewrite <-!app_assoc, lex_blanks by done. rewrite (lex_word _ _ w) by (try done; by apply parted_behind).
    destruct rest as [|c rest].
    + apply command_text_nil in Hc as ->. eexists; split; [done|]. exists false. destruct s. cbn in *. by subst.
    + cbn in Hp. destruct s as [sg wds wd r]. cbn [word redirected] in Hs, Hr. subst. destruct (IH {| segments := sg; words := wds ++ [w]; word := None; redirected := false |} tail Ht eq_refl eq_refl) as (s' & Hl & He).
      exists s'. rewrite <-Hl. split; [|change (w :: ws) with ([w] ++ ws); rewrite app_assoc; exact He].
      cbn [app]. by rewrite !lex_blank by done.
Qed.

Lemma lex_cmdline cmd segs : cmdline cmd segs -> forall sg,
  lex_from 0 {| segments := sg; words := []; word := None; redirected := false |} cmd = Ok (sg ++ segs).
Proof.
  induction 1 as [l ws Hc Hne|l ws sep l' segs Hc Hne Hsep Hl IH]; intros sg.
  - edestruct (lex_command l ws Hc {| segments := sg; words := []; word := None; redirected := false |} []) as (s' & Hl & He); [by left|done|done|]. rewrite app_nil_r in Hl. rewrite Hl.
    cbn [lex_from]. by rewrite (endSegment_at_end _ _ _ He Hne).
  - edestruct (lex_command l ws Hc {| segments := sg; words := []; word := None; redirected := false |} (sep ++ l')) as (s' & Hl' & He); [by right; eauto|done|done|]. rewrite Hl', lex_separator by done.
    rewrite (endSegment_at_end _ _ _ He Hne). cbn [mbind result_bind]. cbn. rewrite IH. by rewrite <-app_assoc.
Qed.

(** *** What is accepted the grammar generates *)

Definition open_word (s : Lexing) (w : Word) : Lexing :=
  {| segments := segments s; words := words s; word := Some w; redirected := redirected s |}.

(** One turn of the pass, from a state and a text to the next. *)
Inductive stepped (s : Lexing) : list ascii -> Lexing -> list ascii -> Prop :=
| st_blank c l s' : is_blank c = true -> endWord s = Ok s' -> stepped s (c :: l) s' l
| st_piece p l : piece_ok p = true -> stepped s (written [p] ++ l) (open_word s (with_pieces [p] (current s))) l
| st_separator sep l s' : separator sep -> endSegment s = Ok s' -> stepped s (sep ++ l) s' l
| st_redirect l : word s = Some (plain "2") -> redirected s = false ->
    stepped s (chars ">/dev/null" ++ l)
      {| segments := segments s; words := words s; word := None; redirected := true |} l
| st_tilde l : word s = None -> ends_tilde l = true ->
    stepped s (TILDE :: l) (open_word s {| text := [TILDE]; quoted := false; tilde := true |}) l.

Lemma quote_split rest (body := take_while (fun x => negb (bool_decide (x = QUOTE))) rest) :
  length body <> length rest -> QUOTE ∉ body /\ exists l, rest = body ++ QUOTE :: l.
Proof.
  subst body. induction rest as [|c rest IH]; cbn; [done|]. destruct (bool_decide_reflect (c = QUOTE)) as [->|Hc]; cbn.
  - intros _. split; [set_solver|]. by exists rest.
  - intros Hl. destruct IH as (Hn & l & Hr); [lia|]. split; [set_solver|]. exists l. by f_equal.
Qed.

Lemma quote_stepped s c rest k s' : c = QUOTE -> lex_char s c rest = Ok (k, s') -> stepped s (c :: rest) s' (drop k rest).
Proof.
  intros ->. unfold lex_char. change (is_blank QUOTE) with false. rewrite (bool_decide_eq_true_2 (QUOTE = QUOTE)) by done.
  destruct (Nat.eqb_spec (length (take_while (fun x => negb (bool_decide (x = QUOTE))) rest)) (length rest)) as [|Hl]; [done|].
  destruct (quote_split rest Hl) as (Hn & l & Hr). cbv zeta. set (body := take_while _ rest) in *. clearbody body.
  destruct (forallb quotable body) eqn:Hb; [|done]. intros [= <- <-]. subst rest.
  replace (drop (S (length body)) (body ++ QUOTE :: l)) with l
    by (rewrite drop_app_ge by lia; by replace (S (length body) - length body)%nat with 1%nat by lia).
  replace (QUOTE :: body ++ QUOTE :: l) with (written [Quoted body] ++ l)
    by (unfold written; cbn; by rewrite app_nil_r, <-app_assoc).
  match goal with |- stepped _ _ ?x _ => assert (x = open_word s (with_pieces [Quoted body] (current s))) as -> end.
  { destruct s as [sg ws [w|] r]; unfold open_word, with_pieces; cbn; rewrite ?app_nil_r, ?orb_true_r; [by destruct w|done]. }
  constructor. cbn. by rewrite Hb, bool_decide_eq_false_2.
Qed.

Lemma redirect_stepped s rest k s' : lex_char s ">"%char rest = Ok (k, s') -> stepped s (">"%char :: rest) s' (drop k rest).
Proof.
  unfold lex_char. cbn -[take drop chars]. destruct s as [sg ws [w|] r]; [|done]. cbn -[take drop chars].
  destruct (_ && _ && _ && _ && _) eqn:Hb; [|done]. intros [= <- <-].
  rewrite !andb_true_iff, !negb_true_iff, !bool_decide_eq_true in Hb. destruct Hb as ((((Ht & Hq) & Hti) & Hr) & Hd).
  destruct w as [t q ti]. cbn in Ht, Hq, Hti, Hd. subst.
  assert (rest = chars "/dev/null" ++ drop 9 rest) as Hrest by (rewrite <-Hr; by rewrite take_drop).
  rewrite Hrest at 1. change (stepped {| segments := sg; words := ws; word := Some (plain "2"); redirected := false |}
    (chars ">/dev/null" ++ drop 9 rest) {| segments := sg; words := ws; word := None; redirected := true |} (drop 9 rest)).
  by constructor.
Qed.

Lemma lex_char_stepped s c rest k s' : lex_char s c rest = Ok (k, s') -> stepped s (c :: rest) s' (drop k rest).
Proof.
  destruct (decide (c = QUOTE)) as [Hc|Hc]; [by apply quote_stepped|].
  destruct (decide (c = ">"%char)) as [->|Hg]; [apply redirect_stepped|].
  unfold lex_char. destruct (is_blank c) eqn:Hb.
  { destruct (endWord s) as [s1|] eqn:He; [|done]. intros [= <- <-]. by constructor. }
  rewrite (bool_decide_eq_false_2 (c = QUOTE)) by done. destruct ((code c <? 32) || (126 <? code c)); [done|].
  destruct (bool_decide_reflect (c = "|"%char)) as [->|_].
  { destruct (endSegment s) eqn:He; [|done]. intros [= <- <-]. apply (st_separator s (chars "|")); [by left|done]. }
  destruct (bool_decide_reflect (c = "&"%char)) as [->|_].
  { destruct rest as [|x rest]; [done|]. destruct (bool_decide_reflect (x = "&"%char)) as [->|_]; [|done].
    destruct (endSegment s) eqn:He; [|done]. intros [= <- <-]. apply (st_separator s (chars "&&")); [by right; left|done]. }
  destruct (bool_decide_reflect (c = ";"%char)) as [->|_].
  { destruct (endSegment s) eqn:He; [|done]. intros [= <- <-]. apply (st_separator s (chars ";")); [by right; right|done]. }
  rewrite (bool_decide_eq_false_2 (c = ">"%char)) by done.
  destruct s as [sg ws w r]. cbn [word].
  destruct (bool_decide_reflect (c = TILDE)) as [->|_].
  { destruct w; [done|]. destruct (ends_tilde rest) eqn:He; [|done]. intros [= <- <-]. by constructor. }
  destruct (WORD_CHAR c) eqn:Hw; [|done]. intros [= <- <-].
  replace (Some (add_text [c] _)) with (Some (with_pieces [Char c] (current {| segments := sg; words := ws; word := w; redirected := r |}))).
  { rewrite drop_0. by apply (st_piece {| segments := sg; words := ws; word := w; redirected := r |} (Char c) rest). }
  unfold with_pieces, add_text, current. cbn. destruct w as [[]|]; cbn; by rewrite ?orb_false_r.
Qed.

Lemma lex_ind (P : Lexing -> list ascii -> list Segment -> Prop) :
  (forall s s', endSegment s = Ok s' -> P s [] (segments s')) ->
  (forall s l s' l' out, stepped s l s' l' -> P s' l' out -> P s l out) ->
  forall l s out, lex_from 0 s l = Ok out -> P s l out.
Proof.
  intros Hnil Hstep l. induction l as [l IH] using (induction_ltof1 _ length). unfold ltof in IH. intros s out.
  destruct l as [|c l].
  - cbn. destruct (endSegment s) as [s'|] eqn:He; [|done]. intros [= <-]. by apply Hnil.
  - rewrite lex_cons. destruct (lex_char s c l) as [[k s']|] eqn:Hc; [|done]. intros Hl. cbn in Hl.
    eapply Hstep; [by apply lex_char_stepped|]. apply IH; [|done]. rewrite length_drop. cbn. lia.
Qed.

(** The command so far, [ws], ends here; what stands behind it reads as the rest of [segs]. *)
Definition continues (tail : list ascii) (ws : list Word) (segs : list Segment) : Prop :=
  ws <> [] /\ exists segs', segs = ws :: segs' /\
    ((tail = [] /\ segs' = []) \/ (exists sep l, separator sep /\ tail = sep ++ l /\ cmdline l segs')).

(** What a text accepted in the middle of a command says, by what the pass holds at that point. *)
Definition reads (ws : list Word) (wd : option Word) (r : bool) (l : list ascii) (segs : list Segment) : Prop :=
  match wd, r with
  | Some _, true => False
  | Some w, false => exists tail,
      (exists ps c ws', l = written ps ++ c ++ tail /\ forallb piece_ok ps = true /\ parted c /\ command_text c ws' /\
        continues tail (ws ++ with_pieces ps w :: ws') segs) \/
      (w = plain "2" /\ exists bl, l = chars ">/dev/null" ++ bl ++ tail /\ blanks bl /\ continues tail ws segs)
  | None, true => exists bl tail, l = bl ++ tail /\ blanks bl /\ continues tail ws segs
  | None, false => exists c ws' tail, l = c ++ tail /\ command_text c ws' /\ continues tail (ws ++ ws') segs
  end.
(** A started word has text or quotes. *)
Definition started (wd : option Word) : Prop := forall w, wd = Some w -> text w <> [] \/ quoted w = true.
Definition accepted (s : Lexing) (l : list ascii) (out : list Segment) : Prop :=
  started (word s) -> exists segs, out = segments s ++ segs /\ reads (words s) (word s) (redirected s) l segs.

Lemma with_pieces_nil w : with_pieces [] w = w.
Proof. destruct w. unfold with_pieces. cbn. by rewrite app_nil_r, orb_false_r. Qed.

Lemma command_text_blank b c ws : is_blank b = true -> command_text c ws -> command_text (b :: c) ws.
Proof.
  intros Hb. destruct 1 as [bl Hbl|bl bl' Hbl Hbl'|bl lw w rest ws Hbl]; [apply (ct_end (b :: bl))|apply (ct_redirect (b :: bl))|apply (ct_word (b :: bl))];
    try done; unfold blanks in *; cbn; by rewrite Hb, ?Hbl, ?Hbl'.
Qed.

Lemma continues_cmdline c ws tail segs : command_text c ws -> continues tail ws segs -> cmdline (c ++ tail) segs.
Proof.
  intros Hc (Hne & segs' & -> & [[-> ->]|(sep & l & Hsep & -> & Hl)]); [rewrite app_nil_r; by apply cl_one|by apply cl_more].
Qed.

(** Where a command ends: at the end of the text, or at a separator. *)
Lemma reads_end s s' tail segs : endSegment s = Ok s' ->
  (tail = [] /\ segs = []) \/ (exists sep l, separator sep /\ tail = sep ++ l /\ cmdline l segs) ->
  exists ws, segments s' = segments s ++ [ws] /\ words s' = [] /\ word s' = None /\ redirected s' = false /\
    reads (words s) (word s) (redirected s) tail (ws :: segs).
Proof.
  intros He Ht. destruct s as [sg ws [w|] [|]]; unfold endSegment, endWord in He; cbn in He; try done.
  - destruct ws as [|w0 ws]; injection He as <-; eexists; split_and!; cbn; try done; exists tail; left; exists [], [], [];
      rewrite with_pieces_nil; split_and!; try done; (try by apply (ct_end [])); (split; [done|eauto]).
  - destruct ws as [|w0 ws]; [done|]. injection He as <-. eexists; split_and!; cbn; try done. exists [], tail. split_and!; try done. split; [done|eauto].
  - destruct ws as [|w0 ws]; [done|]. injection He as <-. eexists; split_and!; cbn; try done. exists [], [], tail.
    rewrite app_nil_r. split_and!; try done; [by apply (ct_end [])|]. split; [done|eauto].
Qed.

Lemma reads_blank s s' b l segs : is_blank b = true -> endWord s = Ok s' ->
  reads (words s') (word s') (redirected s') l segs -> word s' = None /\ segments s' = segments s /\
  reads (words s) (word s) (redirected s) (b :: l) segs.
Proof.
  intros Hb. destruct s as [sg ws [w|] [|]]; unfold endWord; cbn; try done; intros [= <-]; cbn; intros H; split_and!; try done.
  - destruct H as (c & ws' & tail & -> & Hc & Hk). exists tail. left. exists [], (b :: c), ws'. rewrite with_pieces_nil. rewrite <-app_assoc in Hk.
    split_and!; try done. by apply command_text_blank.
  - destruct H as (bl & tail & -> & Hbl & Hk). exists (b :: bl), tail. split_and!; try done. unfold blanks. cbn. by rewrite Hb.
  - destruct H as (c & ws' & tail & -> & Hc & Hk). exists (b :: c), ws', tail. split_and!; try done. by apply command_text_blank.
Qed.

Lemma reads_piece s p l segs (s' := open_word s (with_pieces [p] (current s))) : piece_ok p = true -> started (word s) ->
  reads (words s') (word s') (redirected s') l segs -> reads (words s) (word s) (redirected s) (written [p] ++ l) segs.
Proof.
  subst s'. destruct s as [sg ws wd r]. intros Hp Hst. cbn [word] in Hst. destruct r; [by destruct wd|].
  unfold current. intros (tail & [(ps & c & ws' & -> & Hps & Hpa & Hc & Hk)|(Hw & bl & -> & Hbl & Hk)]); cbn [words word redirected default] in *.
  - rewrite <-with_pieces_cons in Hk.
    assert (written [p] ++ written ps ++ c ++ tail = written (p :: ps) ++ c ++ tail) as ->
      by (rewrite app_assoc; unfold written; cbn; by rewrite app_nil_r).
    assert (forallb piece_ok (p :: ps) = true) as Hps' by (cbn; by rewrite Hp).
    destruct wd as [w|].
    + exists tail. left. by exists (p :: ps), c, ws'.
    + exists (written (p :: ps) ++ c), (with_pieces (p :: ps) empty_word :: ws'), tail. split_and!; [by rewrite app_assoc| |done].
      apply (ct_word [] (written (p :: ps))); try done. by apply wt_pieces.
  - destruct p as [x|body]; [|apply (f_equal quoted) in Hw; cbn in Hw; by rewrite orb_true_r in Hw].
    destruct wd as [w|]; cbn in *.
    + exfalso. destruct (Hst w eq_refl) as [Ht|Hq]; [|apply (f_equal quoted) in Hw; cbn in Hw; by rewrite Hq in Hw].
      apply (f_equal text) in Hw. cbn in Hw. destruct (text w) as [|? [|]]; done.
    + injection Hw as ->. exists (REDIRECT ++ bl), [], tail. rewrite app_nil_r. split_and!; try done.
      by apply (ct_redirect []).
Qed.

Lemma reads_tilde ws l segs : ends_tilde l = true ->
  reads ws (Some {| text := [TILDE]; quoted := false; tilde := true |}) false l segs -> reads ws None false (TILDE :: l) segs.
Proof.
  intros He (tail & [(ps & c & ws' & -> & Hps & Hpa & Hc & Hk)|(Hw & _)]); [|discriminate Hw].
  exists (TILDE :: written ps ++ c), (with_pieces ps {| text := [TILDE]; quoted := false; tilde := true |} :: ws'), tail.
  split_and!; [change (TILDE :: written ps ++ c ++ tail = TILDE :: (written ps ++ c) ++ tail); by rewrite <-app_assoc| |done].
  apply (ct_word [] (TILDE :: written ps)); try done. apply wt_tilde; [|done].
  destruct ps as [|[x|body] ps]; [by left| |by vm_compute in He]. right. exists ps. do 2 f_equal. cbn in Hps, He.
  apply andb_true_iff in Hps as [Hx _]. destruct x as [[] [] [] [] [] [] [] []]; vm_compute in Hx, He; done.
Qed.

Lemma stepped_accepted s l s' l' out : stepped s l s' l' -> accepted s' l' out -> accepted s l out.
Proof.
  intros Hst Hacc Hw. destruct Hst as [c l s' Hc He|p l Hp|sep l s' Hsep He|l H2 Hr|l Hn He].
  - destruct Hacc as (segs & -> & Hr).
    { unfold endWord in He. destruct s as [sg ws [w|] [|]]; cbn in He; try done; by injection He as <-. }
    destruct (reads_blank s s' c l segs Hc He Hr) as (_ & -> & Hr'). by exists segs.
  - destruct Hacc as (segs & -> & Hr).
    { intros w [= <-]. cbn. destruct p; cbn; [|rewrite orb_true_r; by right]. left. by destruct (text (current s)). }
    exists segs. split; [done|]. by apply reads_piece.
  - destruct Hacc as (segs & -> & Hr); [by destruct (reads_end s s' [] [] He) as (ws & _ & _ & -> & _); [left|]|].
    destruct (reads_end s s' [] [] He) as (ws0 & _ & H1 & H2 & H3 & _); [by left|]. rewrite H1, H2, H3 in Hr.
    destruct Hr as (c & ws' & tail & -> & Hc & Hk). cbn in Hk.
    destruct (reads_end s s' (sep ++ c ++ tail) segs He) as (ws & -> & _ & _ & _ & Hr).
    { right. exists sep, (c ++ tail). split_and!; try done. by apply (continues_cmdline c ws'). }
    exists (ws :: segs). by rewrite <-app_assoc.
  - destruct Hacc as (segs & -> & bl & tail & -> & Hbl & Hk); [done|]. exists segs. split; [done|].
    rewrite H2, Hr. exists tail. right. split; [done|]. by exists bl.
  - destruct Hacc as (segs & -> & Hr); [intros w [= <-]; by left|]. exists segs. split; [done|].
    rewrite Hn. cbn [word redirected open_word words] in Hr. destruct (redirected s); [done|]. by apply reads_tilde.
Qed.

Lemma lex_accepted cmd s out : lex_from 0 s cmd = Ok out -> accepted s cmd out.
Proof.
  apply lex_ind; [|apply stepped_accepted]. intros s0 s' He _.
  destruct (reads_end s0 s' [] [] He) as (ws & -> & _ & _ & _ & Hr); [by left|]. by exists [ws].
Qed.

Lemma lex_cmdline_sound cmd segs : lex cmd = Ok segs -> cmdline cmd segs.
Proof.
  intros H. destruct (lex_accepted cmd lex_start segs H) as (segs' & -> & c & ws & tail & -> & Hc & Hk); [by intros w|].
  by apply (continues_cmdline c ws).
Qed.

(** C21. The lexer's one pass, with its jumps, its pending word and its flag, accepts exactly the texts of the grammar and
    reads each as the grammar says: commands of at least one word, with a bar, a double ampersand or a semicolon between
    each two and nothing else; words of plain characters and single-quoted texts, a leading tilde only alone or before a
    slash; and ["2>/dev/null"] at most once per command and only behind its last word. Everything else of a shell
    (double quotes, dollar, backquote, globs, braces, every other redirection, a lone ampersand, [||]) is refused. *)
Theorem lex_reads_the_grammar cmd segs : lex cmd = Ok segs <-> cmdline cmd segs.
Proof.
  split; [apply lex_cmdline_sound|]. intros H. apply (lex_cmdline cmd segs H []).
Qed.
