(* ===== verification/BashProof.v ===== *)
(** The proof that a bash command is harmless, second half of [tools/bash-allowlist.ts]: the table of programs, the
    reading of their options, the check of every path against the file system, and [proveBashCommand] itself.

    A path text is a list of code units; an absolute path without dots and repeated slashes is a [Path], the list of its
    components. What the code uses of node:path is written on those; node:fs is the argument [FileSystem]. *)
From S2P Require Import Prelude Num JsString BashLex.
Open Scope Z_scope.

(** ** Paths *)

Definition Path : Type := list (list ascii).
Definition SLASH : ascii := "/"%char.
Definition DOT : list ascii := chars ".".
Definition DOTS : list ascii := chars "..".

Definition isAbsolute (t : list ascii) : bool := match t with c :: _ => bool_decide (c = SLASH) | [] => false end.
(** One more component of a path text: nothing and a dot stay, two dots go up. *)
Definition down (p : Path) (c : list ascii) : Path :=
  if bool_decide (c = []) || bool_decide (c = DOT) then p
  else if bool_decide (c = DOTS) then take (length p - 1) p
  else p ++ [c].
(** [resolve(base, t)]. *)
Definition resolve (base : Path) (t : list ascii) : Path :=
  foldl down (if isAbsolute t then [] else base) (split_chars SLASH t).
Definition dirname (p : Path) : Path := take (length p - 1) p.
Definition basename (p : Path) : list ascii := default [] (last p).
(** [relative(from, to)], as its components; the empty text when the two are equal. *)
Fixpoint relative (from to : Path) : Path :=
  match from, to with
  | a :: from', b :: to' => if bool_decide (a = b) then relative from' to' else ((fun _ => DOTS) <$> from) ++ to
  | _, _ => ((fun _ => DOTS) <$> from) ++ to
  end.
(** A relative text never begins with a slash, so the last test of the code never fails. *)
(** @src src/src/core/workspace-root.ts 53-58 isPathWithin *)
Definition isPathWithin (child parent : Path) : bool :=
  match relative parent child with
  | [] => true
  | c :: _ => negb (bool_decide (c = DOTS))
  end.

Inductive Stats := IsFile | IsDirectory | IsOther.
(** node:fs, on absolute paths: whether a path leads somewhere, where it leads, what stands there. *)
Record FileSystem := {
  process_cwd : Path;
  existsSync : Path -> bool;
  realpathSync : Path -> option Path;
  lstatSync : Path -> option Stats;
}.

(** ** The programs *)

(** @src src/src/tools/bash-allowlist.ts 84-84 ValueKind *)
Inductive ValueKind := v_number | v_text | v_path.
(** @src src/src/tools/bash-allowlist.ts 85-85 OperandKind *)
Inductive OperandKind := o_paths | o_text | o_none | o_grep | o_date | o_one_path.
(** @src src/src/tools/bash-allowlist.ts 87-97 ProgramSpec *)
Record ProgramSpec := {
  short : list (string * option ValueKind);
  long : list (string * option ValueKind);
  operand_kind : OperandKind;
  maxOperands : option nat;
  plusIsOption : bool;
}.

(** @src src/src/tools/bash-allowlist.ts 99-100 flags *)
Definition flags (letters : string) : list (string * option ValueKind) :=
  (fun c => (String c EmptyString, None)) <$> chars letters.
(** @src src/src/tools/bash-allowlist.ts 101-102 longFlags *)
Definition longFlags (names : string) : list (string * option ValueKind) := (fun n => (n, None)) <$> split " " names.

Definition spec_of (s l : list (string * option ValueKind)) (k : OperandKind) : ProgramSpec :=
  {| short := s; long := l; operand_kind := k; maxOperands := None; plusIsOption := false |}.

(** @src src/src/tools/bash-allowlist.ts 114-171 PROGRAMS *)
Definition PROGRAMS : list (string * ProgramSpec) :=
  let number n := (n, Some v_number) in
  let text n := (n, Some v_text) in
  [("cat", spec_of (flags "AbeEnstTuv")
      (longFlags "show-all number-nonblank show-ends number squeeze-blank show-tabs show-nonprinting") o_paths);
   ("head", spec_of (flags "qvz" ++ [number "c"; number "n"])
      (longFlags "quiet silent verbose zero-terminated" ++ [number "bytes"; number "lines"]) o_paths);
   ("tail", {| short := flags "qvz" ++ [number "c"; number "n"];
      long := longFlags "quiet silent verbose zero-terminated" ++ [number "bytes"; number "lines"];
      operand_kind := o_paths; maxOperands := None; plusIsOption := true |});
   ("wc", spec_of (flags "cmlwL") (longFlags "bytes chars lines words max-line-length") o_paths);
   ("ls", spec_of (flags "aAlh1tSrdFpisngoGcuUXvNQB")
      (longFlags "all almost-all human-readable reverse directory size inode numeric-uid-gid no-group literal quote-name ignore-backups") o_paths);
   ("grep", spec_of (flags "ivnclLowxEFGPhHsqabzUTZ" ++ [number "m"; number "A"; number "B"; number "C"; text "e"])
      (longFlags "ignore-case no-ignore-case invert-match line-number count files-with-matches files-without-match only-matching word-regexp line-regexp extended-regexp fixed-strings basic-regexp perl-regexp no-filename with-filename no-messages quiet silent text byte-offset null-data null initial-tab binary" ++
       [number "max-count"; number "after-context"; number "before-context"; number "context"; text "regexp"]) o_grep);
   ("cut", spec_of (flags "snz" ++ [text "b"; text "c"; text "f"; text "d"])
      (longFlags "only-delimited zero-terminated complement" ++
       [text "bytes"; text "characters"; text "fields"; text "delimiter"; text "output-delimiter"]) o_paths);
   ("tr", {| short := flags "cCdst"; long := longFlags "complement delete squeeze-repeats truncate-set1";
      operand_kind := o_text; maxOperands := Some 2%nat; plusIsOption := false |});
   ("uniq", spec_of (flags "cduiz" ++ [number "f"; number "s"; number "w"])
      (longFlags "count repeated unique ignore-case zero-terminated" ++
       [number "skip-fields"; number "skip-chars"; number "check-chars"]) o_one_path);
   ("pwd", spec_of (flags "LP") [] o_none);
   ("stat", spec_of (flags "Lt") (longFlags "dereference terse") o_paths);
   ("date", spec_of (flags "u") (longFlags "utc universal") o_date);
   ("echo", spec_of [] [] o_text)]%string.

(** The tables of the code are objects: no key stands in one twice. *)
Example PROGRAMS_keys : NoDup (jm_keys PROGRAMS) /\
  Forall (fun p => NoDup (jm_keys (short p.2)) /\ NoDup (jm_keys (long p.2))) PROGRAMS.
Proof. split; apply (bool_decide_eq_true_1 _); vm_compute; reflexivity. Qed.

Definition SIZE_SUFFIX : list (list ascii) :=
  chars <$> ["b"; "k"; "K"; "M"; "G"; "T"; "P"; "E"; "Z"; "Y"; "KB"; "MB"; "GB"; "TB"; "PB"; "EB"; "ZB"; "YB";
             "KiB"; "MiB"; "GiB"; "TiB"; "PiB"; "EiB"; "ZiB"; "YiB"; "kB"]%string.
(** [/^[+-]?\d{1,12}(?:[bkKMGTPEZY]|[KMGTPEZY]i?B|kB)?$/]. *)
(** @src src/src/tools/bash-allowlist.ts 188-188 NUMBER *)
Definition NUMBER (t : list ascii) : bool :=
  let t := match t with c :: t' => if bool_decide (c ∈ chars "+-") then t' else t | [] => t end in
  let ds := take_while is_digit t in
  (1 <=? length ds)%nat && (length ds <=? 12)%nat && bool_decide (drop_while is_digit t ∈ [] :: SIZE_SUFFIX).

(** ** One path *)

(** @src src/src/tools/bash-allowlist.ts 73-82 ProofEnv *)
Record ProofEnv := {
  cwd : list ascii;
  home : option (list ascii);
  readRoots : list (list ascii);
  isSensitive : Path -> bool;
}.
(** @src src/src/tools/bash-allowlist.ts 294-305 Roots *)
Record Roots := {
  root_cwd : Path;
  logicalCwd : Path;
  root_read : list Path;
  root_home : option (list ascii);
  pathsAllowed : bool;
}.

Section Proof.
Context (fs : FileSystem) (env : ProofEnv).

(** The parents of [p] from the inside out, until one leads somewhere; [tail] is what was left behind. *)
Fixpoint realPath_up (rev_p tail : Path) : result ProofReason Path :=
  if existsSync fs (reverse rev_p) then
    match realpathSync fs (reverse rev_p) with
    | Some real => Ok (real ++ tail)
    | None => Err r_path_unresolvable
    end
  else match rev_p with
       | [] => Err r_path_unresolvable
       | c :: rev_p => realPath_up rev_p (c :: tail)
       end.
(** @src src/src/tools/bash-allowlist.ts 281-292 realPathOf *)
Definition realPathOf (p : Path) : result ProofReason Path := realPath_up (reverse p) [].

Context (roots : Roots).

(** What the shell makes of a word before the program sees it. *)
(** @src src/src/tools/bash-allowlist.ts 311-314 provePath *)
Definition expanded (w : Word) : result ProofReason (list ascii) :=
  if tilde w then
    match root_home roots with
    | None | Some [] => Err r_no_home
    | Some h => Ok (h ++ drop 1 (text w))
    end
  else Ok (text w).
Definition hidden (c : list ascii) : bool := is_prefix DOT c.

(** The root a real path is under. *)
(** @src src/src/tools/bash-allowlist.ts 334-335 provePath *)
Definition root_of (real : Path) : option Path :=
  if isPathWithin real (root_cwd roots) then Some (root_cwd roots) else find (isPathWithin real) (root_read roots).

(** @src src/src/tools/bash-allowlist.ts 307-346 provePath *)
Definition provePath (w : Word) : result ProofReason unit :=
  if bool_decide (text w = chars "-") then Ok tt
  else if negb (pathsAllowed roots) then Err r_root
  else
    t ← expanded w;
    if bool_decide (DOTS ∈ split_chars SLASH t) then Err r_path_outside
    else
      let lexical := resolve (root_cwd roots) t in
      if negb (isPathWithin lexical (root_cwd roots)) && negb (isPathWithin lexical (logicalCwd roots)) &&
         negb (existsb (isPathWithin lexical) (root_read roots)) then Err r_path_outside
      else
        real ← realPathOf lexical;
        match root_of real with
        | None => Err r_path_outside
        | Some root =>
            if existsb hidden (relative root real) then Err r_path_hidden
            else if isSensitive env real then Err r_path_sensitive
            else if existsSync fs real then
              match lstatSync fs real with
              | None => Err r_path_unresolvable
              | Some IsOther => Err r_path_special
              | Some _ => Ok tt
              end
            else Ok tt
        end.

(** ** One command *)

(** @src src/src/tools/bash-allowlist.ts 348-357 checkValue *)
Definition checkValue (kind : ValueKind) (value : Word) : result ProofReason unit :=
  match kind with
  | v_number => throw_if (tilde value || negb (NUMBER (text value))) r_value
  | v_path => provePath value
  | v_text => throw_if (tilde value) r_tilde
  end.

(** What the reading of the arguments keeps. *)
(** @src src/src/tools/bash-allowlist.ts 373-374 proveSegment *)
Record Parsed := { operands : list Word; patternGiven : bool }.
Definition add_operand (w : Word) (p : Parsed) : Parsed := {| operands := operands p ++ [w]; patternGiven := patternGiven p |}.
Definition saw_pattern (yes : bool) (p : Parsed) : Parsed := {| operands := operands p; patternGiven := patternGiven p || yes |}.

(** The letters of a bundle up to the first that takes a value, with what is attached to it. *)
(** @src src/src/tools/bash-allowlist.ts 407-412 proveSegment *)
Fixpoint bundle (spec : ProgramSpec) (letters : list ascii) : result ProofReason (option (string * ValueKind * list ascii)) :=
  match letters with
  | [] => Ok None
  | c :: letters =>
      let letter := String c EmptyString in
      match jm_get (short spec) letter with
      | None => Err r_option
      | Some None => bundle spec letters
      | Some (Some kind) => Ok (Some (letter, kind, letters))
      end
  end.

Definition attached (v : list ascii) (w : Word) : Word := {| text := v; quoted := quoted w; tilde := false |}.
Definition is_operand (w : Word) : bool := tilde w || bool_decide (text w = chars "-") || negb (is_prefix (chars "-") (text w)).
Definition EQUALS : ascii := "="%char.
(** The name of a long option and, behind an equals sign, its value. *)
(** @src src/src/tools/bash-allowlist.ts 385-386 proveSegment *)
Definition long_name (t : list ascii) : string := unchars (take_while (fun c => negb (bool_decide (c = EQUALS))) (drop 2 t)).
(** @src src/src/tools/bash-allowlist.ts 385-395 proveSegment *)
Definition long_value (t : list ascii) : option (list ascii) :=
  match drop_while (fun c => negb (bool_decide (c = EQUALS))) (drop 2 t) with [] => None | _ :: v => Some v end.

(** The options and operands of a command, every value checked as it is met. *)
(** @src src/src/tools/bash-allowlist.ts 376-424 proveSegment *)
Fixpoint read_args (spec : ProgramSpec) (p : Parsed) (endOfOptions : bool) (args : list Word) {struct args} : result ProofReason Parsed :=
  match args with
  | [] => Ok p
  | w :: rest =>
      if endOfOptions || is_operand w then read_args spec (add_operand w p) endOfOptions rest
      else if bool_decide (text w = chars "--") then read_args spec p true rest
      else if is_prefix (chars "--") (text w) then
        match jm_get (long spec) (long_name (text w)), long_value (text w) with
        | None, _ => Err r_option
        | Some None, Some _ => Err r_option
        | Some None, None => read_args spec p false rest
        | Some (Some kind), Some v =>
            checkValue kind (attached v w);; read_args spec (saw_pattern (bool_decide (long_name (text w) = "regexp"%string)) p) false rest
        | Some (Some kind), None =>
            match rest with
            | [] => Err r_option
            | next :: rest => checkValue kind next;; read_args spec (saw_pattern (bool_decide (long_name (text w) = "regexp"%string)) p) false rest
            end
        end
      else
        b ← bundle spec (drop 1 (text w));
        match b with
        | None => read_args spec p false rest
        | Some (letter, kind, []) =>
            match rest with
            | [] => Err r_option
            | next :: rest => checkValue kind next;; read_args spec (saw_pattern (bool_decide (letter = "e"%string)) p) false rest
            end
        | Some (letter, kind, v) => checkValue kind (attached v w);; read_args spec (saw_pattern (bool_decide (letter = "e"%string)) p) false rest
        end
  end.

(** What the program does with its operands. *)
(** @src src/src/tools/bash-allowlist.ts 426-456 proveSegment *)
Definition prove_operands (name : string) (spec : ProgramSpec) (p : Parsed) : result ProofReason unit :=
  let ops := operands p in
  throw_if (match maxOperands spec with Some n => (n <? length ops)%nat | None => false end) r_operand;;
  throw_if (plusIsOption spec && existsb (fun w => is_prefix (chars "+") (text w)) ops) r_operand;;
  match operand_kind spec with
  | o_none => throw_if (negb (Nat.eqb (length ops) 0)) r_operand
  | o_text => throw_if (existsb tilde ops) r_tilde
  | o_date =>
      match ops with
      | [] => Ok tt
      | [w] => throw_if (negb (is_prefix (chars "+") (text w)) || tilde w) r_operand
      | _ => Err r_operand
      end
  | o_one_path => throw_if (1 <? length ops)%nat r_operand;; for_each provePath ops
  | o_grep =>
      if patternGiven p then for_each provePath ops
      else match ops with
           | [] => Err r_operand
           | pattern :: files => throw_if (tilde pattern) r_tilde;; for_each provePath files
           end
  | o_paths =>
      (if Nat.eqb (length ops) 0 && bool_decide (name = "ls"%string) then provePath (plain ".") else Ok tt);;
      for_each provePath ops
  end.

(** [echo] is handled on its own: [-n] first, and then text. *)
(** @src src/src/tools/bash-allowlist.ts 365-371 proveSegment *)
Definition prove_echo (args : list Word) : result ProofReason unit :=
  for_each (fun '(i, w) =>
    throw_if (tilde w) r_tilde;;
    throw_if (is_prefix (chars "-") (text w) && negb (Nat.eqb i 0 && bool_decide (text w = chars "-n"))) r_option)
    (imap (fun i w => (i, w)) args).

(** @src src/src/tools/bash-allowlist.ts 359-457 proveSegment *)
Definition proveSegment (seg : Segment) : result ProofReason unit :=
  match seg with
  | [] => Err r_path_unresolvable
  | head :: args =>
      let name := unchars (text head) in
      match jm_get PROGRAMS name with
      | None => Err r_program
      | Some spec =>
          if quoted head || tilde head then Err r_program
          else if bool_decide (name = "echo"%string) then prove_echo args
          else p ← read_args spec {| operands := []; patternGiven := false |} false args; prove_operands name spec p
      end
  end.
End Proof.

(** ** A command line *)

Section Command.
Context (fs : FileSystem) (env : ProofEnv).

(** @src src/src/tools/bash-allowlist.ts 459-461 realOrNull *)
Definition realOrNull (t : list ascii) : option Path := realpathSync fs (resolve (process_cwd fs) t).

(** HOME as the check sees it: its real path, or the path it names; an empty one is none. *)
(** @src src/src/tools/bash-allowlist.ts 474-474 proveBashCommand *)
Definition home_path : option Path :=
  match home env with
  | None | Some [] => None
  | Some h => Some (default (resolve (process_cwd fs) h) (realOrNull h))
  end.
(** @src src/src/tools/bash-allowlist.ts 478-478 proveBashCommand *)
Definition tooWide (dir : Path) : bool :=
  bool_decide (dirname dir = dir) || match home_path with Some h => isPathWithin h dir | None => false end ||
  hidden (basename dir).
(** @src src/src/tools/bash-allowlist.ts 479-485 proveBashCommand *)
Definition make_roots (dir : Path) : Roots :=
  {| root_cwd := dir; logicalCwd := resolve (process_cwd fs) (cwd env); root_read := omap realOrNull (readRoots env);
     root_home := home env; pathsAllowed := negb (tooWide dir) |}.

(** @src src/src/tools/bash-allowlist.ts 488-488 proveBashCommand *)
Definition program_of (seg : Segment) : string :=
  match seg with
  | head :: _ => if jm_get PROGRAMS (unchars (text head)) is Some _ then unchars (text head) else "other"
  | [] => "other"
  end.
(** The commands in order; on the first that fails, why, and which program it named. *)
(** @src src/src/tools/bash-allowlist.ts 486-490 proveBashCommand *)
Fixpoint prove_all (roots : Roots) (segs : list Segment) : result (ProofReason * string) unit :=
  match segs with
  | [] => Ok tt
  | seg :: segs => match proveSegment fs env roots seg with
                   | Ok _ => prove_all roots segs
                   | Err e => Err (e, program_of seg)
                   end
  end.

(** @src src/src/tools/bash-allowlist.ts 65-71 BashProof *)
Record BashProof := { proven : bool; reason : ProofReason; program : string }.
Definition not_proven (e : ProofReason) (program : string) : BashProof := {| proven := false; reason := e; program := program |}.

(** @src src/src/tools/bash-allowlist.ts 37-37 MAX_PROVEN_LENGTH *)
Definition MAX_PROVEN_LENGTH : Z := 4096.
(** @src src/src/tools/bash-allowlist.ts 40-40 MAX_PROVEN_COMMANDS *)
Definition MAX_PROVEN_COMMANDS : Z := 16.

(** @src src/src/tools/bash-allowlist.ts 466-497 proveBashCommand *)
Definition proveBashCommand (command : list ascii) : BashProof :=
  if MAX_PROVEN_LENGTH <? Z.of_nat (length command) then not_proven r_length "other"
  else match lex command with
  | Err e => not_proven e "other"
  | Ok segs =>
      if MAX_PROVEN_COMMANDS <? Z.of_nat (length segs) then not_proven r_length "other"
      else match realOrNull (cwd env) with
      | None => not_proven r_root "other"
      | Some dir =>
          match prove_all (make_roots dir) segs with
          | Err (e, program) => not_proven e program
          | Ok _ => {| proven := true; reason := r_ok; program := default "other"%string (program_of <$> head segs) |}
          end
      end
  end.
End Command.
