(* ===== verification/BashLaws.v ===== *)
(** What a proven bash command can reach: how GNU programs read their arguments, how the kernel follows a path through
    symbolic links, and that every path a proven command names is inside a root, unhidden, not sensitive and not
    special. *)
From S2P Require Import Prelude Num JsString BashLex BashProof.
Open Scope Z_scope.

(** ** A file system *)

Module Disk.
(** What stands at a path. *)
Inductive Node := File | Dir | Special | Link (target : list ascii).
#[export] Instance Node_eq_dec : EqDecision Node.
Proof. solve_decision. Defined.

(** The root is always a directory. *)
Definition Store : Type := gmap Path Node.

Section Disk.
Context (store : Store).

Definition node (p : Path) : option Node := match p with [] => Some Dir | _ => store !! p end.
Definition start (d : Path) (t : list ascii) : Path := if isAbsolute t then [] else d.

(** The kernel's walk from the directory [d] along components, following at most [links] symbolic links. *)
Fixpoint walk (links : nat) : Path -> list (list ascii) -> option Path :=
  fix go (d : Path) (cs : list (list ascii)) : option Path :=
    match cs with
    | [] => Some d
    | c :: cs =>
        if bool_decide (node d = Some Dir) then
          if bool_decide (c = []) || bool_decide (c = DOT) then go d cs
          else if bool_decide (c = DOTS) then go (dirname d) cs
          else match node (d ++ [c]) with
               | None => None
               | Some (Link t) => match links with O => None | S links => walk links (start d t) (split_chars SLASH t ++ cs) end
               | Some _ => go (d ++ [c]) cs
               end
        else None
    end.

(** Linux gives up behind forty links. *)
Definition MAXSYMLINKS : nat := 40.
(** The object a path text names, read from the directory [d]. *)
Definition lookup_path (d : Path) (t : list ascii) : option Path :=
  match t with [] => None | _ => walk MAXSYMLINKS (start d t) (split_chars SLASH t) end.

(** node:fs over this store. *)
Definition realpath (p : Path) : option Path := walk MAXSYMLINKS [] p.
Definition lstat (p : Path) : option Stats :=
  d ← realpath (dirname p);
  match node (match last p with Some c => d ++ [c] | None => d end) with
  | Some File => Some IsFile
  | Some Dir => Some IsDirectory
  | Some _ => Some IsOther
  | None => None
  end.
Definition fs (pcwd : Path) : FileSystem :=
  {| process_cwd := pcwd; existsSync := fun p => bool_decide (is_Some (realpath p)); realpathSync := realpath; lstatSync := lstat |}.
End Disk.
End Disk.

(** ** A first look *)

Module Example_disk.
Import Disk.
Definition path (t : string) : Path := resolve [] (chars t).
Definition store : Store := list_to_map
  [(path "/ws", Dir); (path "/ws/a.txt", File); (path "/ws/.env", File); (path "/ws/out", Link (chars "../etc"));
   (path "/ws/in", Link (chars "./sub/")); (path "/ws/sub", Dir); (path "/ws/sub/b", File); (path "/ws/pipe", Special);
   (path "/etc", Dir); (path "/etc/passwd", File); (path "/ws/-", Link (chars "/etc")); (path "/home", Dir); (path "/home/u", Dir)].
Definition env : ProofEnv :=
  {| BashProof.cwd := chars "/ws"; home := Some (chars "/home/u"); readRoots := []; isSensitive := fun _ => false |}.
Definition verdict (t : string) : ProofReason := reason (proveBashCommand (fs store []) env (chars t)).

Example verdicts : verdict <$>
  ["cat a.txt | head -n5"; "cat .env"; "cat out/passwd"; "cat in/b"; "cat in/../a.txt"; "cat pipe"; "ls ~"; "ls -";
   "grep -e x sub/b"; "grep -r x"; "tail +5f"; "head -n x a.txt"; "cat nothing"; "echo -n hello"; "echo -e x"; "date -s x"]%string =
  [r_ok; r_path_hidden; r_path_outside; r_ok; r_path_outside; r_path_special; r_path_outside; r_ok;
   r_ok; r_option; r_operand; r_value; r_ok; r_ok; r_option; r_option].
Proof. vm_compute. reflexivity. Qed.
End Example_disk.

(** ** How a program reads its arguments *)

(** An option as GNU getopt_long reports it, with its value where it takes one. *)
Inductive Option_ := LongOpt (name : string) (value : option (ValueKind * Word)) | ShortOpt (letter : ascii) (value : option (ValueKind * Word)).
Definition value_of (o : Option_) : option (ValueKind * Word) := match o with LongOpt _ v | ShortOpt _ v => v end.
(** [grep] has its pattern from this option. *)
Definition gives_pattern (o : Option_) : bool :=
  match o with
  | LongOpt n (Some _) => bool_decide (n = "regexp"%string)
  | ShortOpt c (Some _) => bool_decide (c = "e"%char)
  | _ => false
  end.

Definition key (c : ascii) : string := String c EmptyString.
Definition all_flags (sp : ProgramSpec) (fl : list ascii) : Prop := Forall (fun c => jm_get (short sp) (key c) = Some None) fl.
(** A word that is options by letters: a dash, and neither nothing nor a second dash behind it. *)
Definition letters_word (w : Word) (letters : list ascii) : Prop :=
  tilde w = false /\ text w = "-"%char :: letters /\ letters <> [] /\ head letters <> Some "-"%char.

(** [argv sp args os ops]: by the closed option set [sp] the arguments are the options [os] and the operands [ops],
    options and operands in any order, two dashes ending the options. *)
Inductive argv (sp : ProgramSpec) : list Word -> list Option_ -> list Word -> Prop :=
| av_nil : argv sp [] [] []
| av_end w ws : tilde w = false -> text w = chars "--" -> argv sp (w :: ws) [] ws
| av_operand w ws os ops : tilde w = true \/ text w = chars "-" \/ head (text w) <> Some "-"%char ->
    argv sp ws os ops -> argv sp (w :: ws) os (w :: ops)
| av_long w ws n os ops : tilde w = false -> text w = chars "--" ++ chars n -> n <> ""%string -> EQUALS ∉ chars n ->
    jm_get (long sp) n = Some None -> argv sp ws os ops -> argv sp (w :: ws) (LongOpt n None :: os) ops
| av_long_attached w ws n v k os ops : tilde w = false -> text w = chars "--" ++ chars n ++ EQUALS :: v -> EQUALS ∉ chars n ->
    jm_get (long sp) n = Some (Some k) -> argv sp ws os ops ->
    argv sp (w :: ws) (LongOpt n (Some (k, attached v w)) :: os) ops
| av_long_next w x ws n k os ops : tilde w = false -> text w = chars "--" ++ chars n -> n <> ""%string -> EQUALS ∉ chars n ->
    jm_get (long sp) n = Some (Some k) -> argv sp ws os ops -> argv sp (w :: x :: ws) (LongOpt n (Some (k, x)) :: os) ops
| av_flags w ws fl os ops : letters_word w fl -> all_flags sp fl -> argv sp ws os ops ->
    argv sp (w :: ws) (((fun c => ShortOpt c None) <$> fl) ++ os) ops
| av_short_attached w ws fl c v k os ops : letters_word w (fl ++ c :: v) -> v <> [] -> all_flags sp fl ->
    jm_get (short sp) (key c) = Some (Some k) -> argv sp ws os ops ->
    argv sp (w :: ws) (((fun c => ShortOpt c None) <$> fl) ++ ShortOpt c (Some (k, attached v w)) :: os) ops
| av_short_next w x ws fl c k os ops : letters_word w (fl ++ [c]) -> all_flags sp fl ->
    jm_get (short sp) (key c) = Some (Some k) -> argv sp ws os ops ->
    argv sp (w :: x :: ws) (((fun c => ShortOpt c None) <$> fl) ++ ShortOpt c (Some (k, x)) :: os) ops.

Lemma while_through {A} (f : A -> bool) p t : forallb f p = true ->
  take_while f (p ++ t) = p ++ take_while f t /\ drop_while f (p ++ t) = drop_while f t.
Proof. induction p as [|x p IH]; [done|]. cbn. intros [-> Hp]%andb_true_iff. destruct (IH Hp) as [-> ->]. done. Qed.

Section Reading.
Context (fs : FileSystem) (env : ProofEnv) (roots : Roots) (sp : ProgramSpec).

(** Every value among the options passes its check. *)
Definition values_ok (os : list Option_) : Prop :=
  forall k v, Some (k, v) ∈ value_of <$> os -> checkValue fs env roots k v = Ok tt.
Definition read_result (p : Parsed) (os : list Option_) (ops : list Word) : Parsed :=
  {| operands := operands p ++ ops; patternGiven := patternGiven p || existsb gives_pattern os |}.

Lemma bundle_flags fl l : all_flags sp fl -> bundle sp (fl ++ l) = bundle sp l.
Proof. induction 1 as [|c fl Hc _ IH]; [done|]. cbn. unfold key in Hc. by rewrite Hc. Qed.

Lemma bundle_Ok l r : bundle sp l = Ok r ->
  match r with
  | None => all_flags sp l
  | Some (n, k, v) => exists fl c, l = fl ++ c :: v /\ n = key c /\ all_flags sp fl /\ jm_get (short sp) (key c) = Some (Some k)
  end.
Proof.
  induction l as [|c l IH]; cbn; [intros [= <-]; constructor|]. destruct (jm_get (short sp) (String c "")) as [[k|]|] eqn:Hc; [| |discriminate].
  - intros [= <-]. exists [], c. split_and!; try done. constructor.
  - intros H. specialize (IH H). destruct r as [[[n k] v]|]; [|constructor; [exact Hc|exact IH]].
    destruct IH as (fl & x & -> & -> & Hfl & Hx). exists (c :: fl), x. split_and!; try done. constructor; [exact Hc|done].
Qed.

Lemma not_equals n : EQUALS ∉ chars n -> forallb (fun c => negb (bool_decide (c = EQUALS))) (chars n) = true.
Proof. intros Hn. apply forallb_forall. intros x Hx%list_elem_of_In. apply negb_true_iff, bool_decide_eq_false. set_solver. Qed.

Lemma unchars_app_chars n l : unchars (chars n ++ l) = (n ++ unchars l)%string.
Proof. induction n as [|c n IH]; [done|]. change (String c (unchars (chars n ++ l)) = String c (n ++ unchars l)). by f_equal. Qed.

Lemma long_bare n t : EQUALS ∉ chars n -> t = chars "--" ++ chars n -> long_name t = n /\ long_value t = None.
Proof.
  intros Hn%not_equals ->. unfold long_name, long_value. change (drop 2 (chars "--" ++ chars n)) with (chars n).
  rewrite <-(app_nil_r (chars n)) in Hn |- *. rewrite app_nil_r in Hn.
  destruct (while_through _ _ [] Hn) as [-> ->]. cbn. by rewrite app_nil_r, unchars_chars.
Qed.

Lemma long_attached n v t : EQUALS ∉ chars n -> t = chars "--" ++ chars n ++ EQUALS :: v -> long_name t = n /\ long_value t = Some v.
Proof.
  intros Hn%not_equals ->. unfold long_name, long_value. change (drop 2 (chars "--" ++ chars n ++ EQUALS :: v)) with (chars n ++ EQUALS :: v).
  destruct (while_through _ _ (EQUALS :: v) Hn) as [-> ->]. cbn. by rewrite app_nil_r, unchars_chars.
Qed.

Lemma long_shape t : is_prefix (chars "--") t = true -> EQUALS ∉ chars (long_name t) /\ t = chars "--" ++ (chars (long_name t) ++ match long_value t with None => [] | Some v => EQUALS :: v end)%list.
Proof.
  intros (k & ->)%is_prefix_spec. unfold long_name, long_value. change (drop 2 (chars "--" ++ k)) with k. rewrite chars_unchars.
  pose proof (take_while_all (fun c => negb (bool_decide (c = EQUALS))) k) as Ht. split.
  - intros Hin. rewrite forallb_forall in Ht. apply list_elem_of_In, Ht in Hin. by rewrite bool_decide_eq_true_2 in Hin.
  - f_equal. rewrite <-(drop_while_app (fun c => negb (bool_decide (c = EQUALS))) k) at 1. f_equal. clear Ht.
    induction k as [|c k IH]; [done|]. cbn. destruct (bool_decide_reflect (c = EQUALS)) as [->|_]; [done|]. exact IH.
Qed.

Lemma values_ok_cons o os : values_ok (o :: os) <->
  match value_of o with Some (k, v) => checkValue fs env roots k v = Ok tt | None => True end /\ values_ok os.
Proof.
  unfold values_ok. cbn. split.
  - intros H. split; [destruct (value_of o) as [[k v]|] eqn:Ho; [|done]; apply H; left|]. intros k v Hkv. apply H. by right.
  - intros [Ho H] k v [Hkv|Hkv]%elem_of_cons; [by rewrite <-Hkv in Ho|by apply H].
Qed.

Definition flag_opts (fl : list ascii) : list Option_ := (fun c => ShortOpt c None) <$> fl.
Lemma values_ok_flags fl os : values_ok (flag_opts fl ++ os) <-> values_ok os.
Proof. induction fl as [|c fl IH]; [done|]. cbn [flag_opts fmap list_fmap app]. rewrite values_ok_cons. cbn. tauto. Qed.
Lemma read_result_flags p fl os ops : read_result p (flag_opts fl ++ os) ops = read_result p os ops.
Proof. unfold read_result. f_equal. by induction fl. Qed.

Lemma is_operand_spec w : is_operand w = true <-> tilde w = true \/ text w = chars "-" \/ head (text w) <> Some "-"%char.
Proof.
  unfold is_operand. rewrite !orb_true_iff, bool_decide_eq_true, negb_true_iff. destruct (text w) as [|c t]; cbn; [naive_solver|].
  destruct (bool_decide_reflect ("-"%char = c)); cbn; naive_solver.
Qed.

Lemma long_not_operand w t : tilde w = false -> text w = chars "--" ++ t -> is_operand w = false.
Proof. intros Ht Hw. unfold is_operand. by rewrite Ht, Hw. Qed.

Lemma letters_not_operand w l : letters_word w l -> is_operand w = false /\ text w <> chars "--" /\
  is_prefix (chars "--") (text w) = false /\ drop 1 (text w) = l.
Proof.
  intros (Ht & Hw & Hne & Hh). unfold is_operand. rewrite Ht, Hw. destruct l as [|c l]; [done|]. cbn in *. split_and!; try done.
  - intros [= -> ->]. done.
  - destruct (bool_decide_reflect ("-"%char = c)) as [<-|_]; done.
Qed.

Lemma read_after_end p ws : read_args fs env roots sp p true ws = Ok {| operands := operands p ++ ws; patternGiven := patternGiven p |}.
Proof.
  revert p. induction ws as [|w ws IH]; intros p; [cbn; rewrite app_nil_r; by destruct p|]. cbn [read_args orb]. rewrite IH.
  unfold add_operand. cbn. by rewrite <-app_assoc.
Qed.

Lemma read_result_operand p w os ops : read_result (add_operand w p) os ops = read_result p os (w :: ops).
Proof. unfold read_result, add_operand. cbn. by rewrite <-app_assoc. Qed.
Lemma read_result_option p o b os ops : gives_pattern o = b -> read_result (saw_pattern b p) os ops = read_result p (o :: os) ops.
Proof. intros <-. unfold read_result, saw_pattern. cbn. by rewrite orb_assoc. Qed.

Lemma read_long p w t rest : tilde w = false -> text w = chars "--" ++ t -> t <> [] ->
  read_args fs env roots sp p false (w :: rest) =
  match jm_get (long sp) (long_name (text w)), long_value (text w) with
  | None, _ => Err r_option
  | Some None, Some _ => Err r_option
  | Some None, None => read_args fs env roots sp p false rest
  | Some (Some kind), Some v =>
      checkValue fs env roots kind (attached v w);;
      read_args fs env roots sp (saw_pattern (bool_decide (long_name (text w) = "regexp"%string)) p) false rest
  | Some (Some kind), None =>
      match rest with
      | [] => Err r_option
      | next :: rest =>
          checkValue fs env roots kind next;;
          read_args fs env roots sp (saw_pattern (bool_decide (long_name (text w) = "regexp"%string)) p) false rest
      end
  end.
Proof.
  intros Ht Hw Hne. cbn [read_args orb]. rewrite (long_not_operand w t) by done.
  rewrite bool_decide_eq_false_2 by (rewrite Hw; by destruct t). replace (is_prefix (chars "--") (text w)) with true; [done|].
  by rewrite Hw, is_prefix_app.
Qed.

Lemma read_letters p w l rest : letters_word w l ->
  read_args fs env roots sp p false (w :: rest) =
  b ← bundle sp l;
  match b with
  | None => read_args fs env roots sp p false rest
  | Some (letter, kind, []) =>
      match rest with
      | [] => Err r_option
      | next :: rest =>
          checkValue fs env roots kind next;; read_args fs env roots sp (saw_pattern (bool_decide (letter = "e"%string)) p) false rest
      end
  | Some (letter, kind, v) =>
      checkValue fs env roots kind (attached v w);; read_args fs env roots sp (saw_pattern (bool_decide (letter = "e"%string)) p) false rest
  end.
Proof.
  intros Hl. destruct (letters_not_operand w l Hl) as (H1 & H2 & H3 & H4). cbn [read_args orb].
  by rewrite H1, (bool_decide_eq_false_2 (text w = chars "--")), H3, H4 by done.
Qed.

Lemma key_e c : bool_decide (key c = "e"%string) = bool_decide (c = "e"%char).
Proof. apply bool_decide_ext. unfold key. split; [by intros [= ->]|by intros ->]. Qed.

Lemma argv_read ws os ops : argv sp ws os ops -> values_ok os ->
  forall p, read_args fs env roots sp p false ws = Ok (read_result p os ops).
Proof.
  induction 1 as [|w ws Ht Hw|w ws os ops Hw H IH|w ws n os ops Ht Hw Hn He Hs H IH|w ws n v k os ops Ht Hw He Hs H IH|
    w x ws n k os ops Ht Hw Hn He Hs H IH|w ws fl os ops Hl Hf H IH|w ws fl c v k os ops Hl Hv Hf Hs H IH|
    w x ws fl c k os ops Hl Hf Hs H IH]; intros Hok p.
  - unfold read_result. cbn. rewrite app_nil_r, orb_false_r. by destruct p.
  - cbn [read_args orb]. rewrite (long_not_operand w []), bool_decide_eq_true_2, read_after_end by (done || by rewrite app_nil_r).
    unfold read_result. cbn. by rewrite orb_false_r.
  - cbn [read_args orb]. rewrite (proj2 (is_operand_spec w) Hw), IH by done. by rewrite read_result_operand.
  - apply values_ok_cons in Hok as [_ Hok]. rewrite (read_long p w (chars n)) by (done || by destruct n).
    destruct (long_bare n _ He Hw) as [-> ->]. rewrite Hs. by apply IH.
  - apply values_ok_cons in Hok as [Hc Hok]. rewrite (read_long p w (chars n ++ EQUALS :: v)) by (done || by destruct n).
    destruct (long_attached n v _ He Hw) as [-> ->]. rewrite Hs. cbn in Hc. rewrite Hc. cbn [mbind result_bind]. rewrite IH by done.
    f_equal. by apply read_result_option.
  - apply values_ok_cons in Hok as [Hc Hok]. rewrite (read_long p w (chars n)) by (done || by destruct n).
    destruct (long_bare n _ He Hw) as [-> ->]. rewrite Hs. cbn in Hc. rewrite Hc. cbn [mbind result_bind]. rewrite IH by done.
    f_equal. by apply read_result_option.
  - rewrite (read_letters p w fl) by done. rewrite <-(app_nil_r fl) at 1. rewrite bundle_flags by done. cbn [bundle mbind result_bind].
    rewrite values_ok_flags in Hok. rewrite IH by done. by rewrite <-(read_result_flags p fl).
  - rewrite (read_letters p w _ _ Hl), bundle_flags by done. cbn [bundle]. unfold key in Hs. rewrite Hs. cbn [mbind result_bind].
    rewrite values_ok_flags, values_ok_cons in Hok. destruct Hok as [Hc Hok]. cbn in Hc. destruct v as [|y v]; [done|].
    rewrite Hc. cbn [mbind result_bind]. rewrite IH by done. rewrite (read_result_flags p fl). f_equal. apply read_result_option. symmetry. apply key_e.
  - rewrite (read_letters p w _ _ Hl), bundle_flags by done. cbn [bundle]. unfold key in Hs. rewrite Hs. cbn [mbind result_bind].
    rewrite values_ok_flags, values_ok_cons in Hok. destruct Hok as [Hc Hok]. cbn in Hc.
    rewrite Hc. cbn [mbind result_bind]. rewrite IH by done. rewrite (read_result_flags p fl). f_equal. apply read_result_option. symmetry. apply key_e.
Qed.

Lemma word_shape w : is_operand w = true \/ (tilde w = false /\ text w = chars "--") \/
  (tilde w = false /\ exists t, text w = chars "--" ++ t /\ t <> []) \/ exists l, letters_word w l.
Proof.
  destruct (is_operand w) eqn:Ho; [by left|]. right. unfold is_operand in Ho. apply orb_false_iff in Ho as [[Ht Hd]%orb_false_iff Hp%negb_false_iff].
  apply is_prefix_spec in Hp as (t & Hw). apply bool_decide_eq_false in Hd. cbn in Hw.
  destruct t as [|c t]; [done|]. destruct (decide (c = "-"%char)) as [->|Hc].
  - destruct t as [|x t]; [by left|]. right; left. split; [done|]. by exists (x :: t).
  - right; right. exists (c :: t). split_and!; try done. cbn. by intros [= ->].
Qed.

Definition reads_as (p p' : Parsed) (ws : list Word) : Prop :=
  exists os ops, argv sp ws os ops /\ values_ok os /\ p' = read_result p os ops.

Lemma values_ok_nil : values_ok [].
Proof. by intros k v ?%elem_of_nil. Qed.

(** One long option more in front. *)
Lemma reads_long p p' w t rest : tilde w = false -> text w = chars "--" ++ t -> t <> [] ->
  (forall rest' q, length rest' <= length rest -> read_args fs env roots sp q false rest' = Ok p' -> reads_as q p' rest')%nat ->
  read_args fs env roots sp p false (w :: rest) = Ok p' -> reads_as p p' (w :: rest).
Proof.
  intros Ht Hw Hne IH. rewrite (read_long p w t) by done.
  destruct (long_shape (text w)) as [He Hs]; [by rewrite Hw, is_prefix_app|]. set (n := long_name (text w)) in *. clearbody n.
  destruct (jm_get (long sp) n) as [[k|]|] eqn:Hn; [| |done].
  - destruct (long_value (text w)) as [v|].
    + intros (u & Hc & Hr)%bind_Ok. destruct u. apply IH in Hr as (os & ops & Ha & Hok & ->); [|done].
      exists (LongOpt n (Some (k, attached v w)) :: os), ops. split_and!; [by constructor|by apply values_ok_cons|by apply read_result_option].
    + rewrite app_nil_r in Hs. destruct rest as [|x rest]; [done|]. intros (u & Hc & Hr)%bind_Ok. destruct u.
      apply IH in Hr as (os & ops & Ha & Hok & ->); [|cbn; lia]. exists (LongOpt n (Some (k, x)) :: os), ops.
      split_and!; [|by apply values_ok_cons|by apply read_result_option]. constructor; try done. intros ->. rewrite Hs in Hw. by destruct t.
  - destruct (long_value (text w)) as [v|]; [done|]. rewrite app_nil_r in Hs. intros Hr.
    apply IH in Hr as (os & ops & Ha & Hok & ->); [|done]. exists (LongOpt n None :: os), ops.
    split_and!; [|by apply values_ok_cons|]. { constructor; try done. intros ->. rewrite Hs in Hw. by destruct t. }
    unfold read_result. cbn. done.
Qed.

(** One word of letters more in front. *)
Lemma reads_letters p p' w l rest : letters_word w l ->
  (forall rest' q, length rest' <= length rest -> read_args fs env roots sp q false rest' = Ok p' -> reads_as q p' rest')%nat ->
  read_args fs env roots sp p false (w :: rest) = Ok p' -> reads_as p p' (w :: rest).
Proof.
  intros Hl IH. rewrite (read_letters p w l) by done. intros (b & Hb & Hr)%bind_Ok. apply bundle_Ok in Hb.
  destruct b as [[[n k] v]|].
  - destruct Hb as (fl & c & -> & -> & Hf & Hs). destruct v as [|y v].
    + destruct rest as [|x rest]; [done|]. apply bind_Ok in Hr as ([] & Hc & Hr). apply IH in Hr as (os & ops & Ha & Hok & ->); [|cbn; lia].
      exists (flag_opts fl ++ ShortOpt c (Some (k, x)) :: os), ops. split_and!; [by apply av_short_next|by rewrite values_ok_flags, values_ok_cons|].
      rewrite read_result_flags. apply read_result_option. symmetry. apply key_e.
    + apply bind_Ok in Hr as ([] & Hc & Hr). apply IH in Hr as (os & ops & Ha & Hok & ->); [|done].
      exists (flag_opts fl ++ ShortOpt c (Some (k, attached (y :: v) w)) :: os), ops.
      split_and!; [by apply av_short_attached|by rewrite values_ok_flags, values_ok_cons|].
      rewrite read_result_flags. apply read_result_option. symmetry. apply key_e.
  - apply IH in Hr as (os & ops & Ha & Hok & ->); [|done]. exists (flag_opts l ++ os), ops.
    split_and!; [by apply av_flags|by rewrite values_ok_flags|by rewrite read_result_flags].
Qed.

Lemma read_argv ws : forall p p', read_args fs env roots sp p false ws = Ok p' -> reads_as p p' ws.
Proof.
  induction ws as [ws IH] using (induction_ltof1 _ length). unfold ltof in IH. intros p p'. destruct ws as [|w rest].
  - intros [= <-]. exists [], []. split_and!; [constructor|apply values_ok_nil|]. unfold read_result. cbn. rewrite app_nil_r, orb_false_r. by destruct p.
  - destruct (word_shape w) as [Ho|[[Ht Hw]|[(Ht & t & Hw & Hne)|(l & Hl)]]].
    + cbn [read_args orb]. rewrite Ho. intros Hr. apply IH in Hr as (os & ops & Ha & Hok & ->); [|cbn; lia].
      exists os, (w :: ops). split_and!; [|done|by rewrite read_result_operand]. constructor; [by apply is_operand_spec|done].
    + cbn [read_args orb]. rewrite (long_not_operand w []), bool_decide_eq_true_2, read_after_end by (done || by rewrite app_nil_r).
      intros [= <-]. exists [], rest. split_and!; [by constructor|apply values_ok_nil|]. unfold read_result. cbn. by rewrite orb_false_r.
    + apply (reads_long p p' w t); try done. intros rest' q Hlen. apply IH. cbn. lia.
    + apply (reads_letters p p' w l); try done. intros rest' q Hlen. apply IH. cbn. lia.
Qed.
End Reading.

(** C22. The one pass over a command's arguments, with its index that jumps over values, reads them as getopt_long reads them
    for the closed option set: it accepts exactly when there is a reading ([argv]) in which every option is of the set,
    spelled exactly, and every option's value passes its check; and then the operands and the pattern flag it keeps are
    those of that reading. *)
Theorem options_are_read_as_getopt_reads_them fs env roots sp ws p' :
  read_args fs env roots sp {| operands := []; patternGiven := false |} false ws = Ok p' <->
  exists os, argv sp ws os (operands p') /\ values_ok fs env roots os /\ patternGiven p' = existsb gives_pattern os.
Proof.
  split.
  - intros H. apply read_argv in H as (os & ops & Ha & Hok & ->). by exists os.
  - intros (os & Ha & Hok & Hp). rewrite (argv_read _ _ _ _ _ _ _ Ha Hok). unfold read_result. cbn. rewrite <-Hp. by destruct p'.
Qed.

(** ** Where a path leads *)

Section Walk.
Import Disk.
Context (store : Store).
Abbreviation node := (node store).
Abbreviation walk := (walk store).

Definition normal (c : list ascii) : Prop := c <> [] /\ c <> DOT /\ c <> DOTS.
(** A path without links, dots and gaps: what [realpath] gives. *)
Inductive real : Path -> Prop :=
| real_root : real []
| real_in d c n : real d -> node d = Some Dir -> normal c -> node (d ++ [c]) = Some n -> (forall t, n <> Link t) -> real (d ++ [c]).

Lemma dirname_app d (c : list ascii) : dirname (d ++ [c]) = d.
Proof. unfold dirname. rewrite length_app. cbn. replace (length d + 1 - 1)%nat with (length d) by lia. by rewrite take_app_length. Qed.

Lemma real_dirname p : real p -> real (dirname p).
Proof. destruct 1 as [|d c n Hd]; [constructor|by rewrite dirname_app]. Qed.

Lemma walk_cons k d c cs : walk k d (c :: cs) =
  if bool_decide (node d = Some Dir) then
    if bool_decide (c = []) || bool_decide (c = DOT) then walk k d cs
    else if bool_decide (c = DOTS) then walk k (dirname d) cs
    else match node (d ++ [c]) with
         | None => None
         | Some (Link t) => match k with O => None | S k => walk k (start d t) (split_chars SLASH t ++ cs) end
         | Some _ => walk k (d ++ [c]) cs
         end
  else None.
Proof. by destruct k. Qed.
Lemma walk_nil k d : walk k d [] = Some d.
Proof. by destruct k. Qed.

Lemma walk_real k : forall cs d q, real d -> walk k d cs = Some q -> real q.
Proof.
  induction k as [k IHk] using lt_wf_ind. intros cs. induction cs as [|c cs IH]; intros d q Hd.
  - rewrite walk_nil. by intros [= <-].
  - rewrite walk_cons. case_bool_decide as Hdir; [|done]. destruct (bool_decide_reflect (c = [])) as [|H1]; [by apply IH|].
    destruct (bool_decide_reflect (c = DOT)) as [|H2]; [by apply IH|]. cbn [orb].
    destruct (bool_decide_reflect (c = DOTS)) as [|H3]; [by apply IH, real_dirname|].
    destruct (node (d ++ [c])) as [n|] eqn:Hn; [|done].
    assert ((forall t, n <> Link t) -> real (d ++ [c])) as Hr by (intros; by apply (real_in d c n)).
    destruct n as [| | |t]; try (apply IH, Hr; done).
    destruct k as [|k]; [done|]. apply IHk; [lia|]. unfold start. destruct (isAbsolute t); [constructor|done].
Qed.

Lemma walk_from_root k p cs : real p -> walk k [] (p ++ cs) = walk k p cs.
Proof.
  intros Hp. revert cs. induction Hp as [|d c n Hd IH Hdir (H1 & H2 & H3) Hn Hl]; intros cs; [done|].
  rewrite <-app_assoc. cbn [app]. rewrite IH, walk_cons, (bool_decide_eq_true_2 _ Hdir), !bool_decide_eq_false_2 by done. cbn [orb].
  rewrite Hn. destruct n as [| | |t]; try done. by destruct (Hl t).
Qed.

Definition clean (cs : list (list ascii)) : Path := filter (fun c => c <> [] /\ c <> DOT) cs.

Lemma walk_clean k : forall t d cs q, walk k d (t ++ cs) = Some q -> walk k d (t ++ clean cs) = Some q.
Proof.
  induction k as [k IHk] using lt_wf_ind. intros t. induction t as [|c t IH]; intros d cs q.
  - cbn [app]. revert d. induction cs as [|c cs IH]; intros d; [done|]. rewrite walk_cons. case_bool_decide as Hdir; [|done].
    destruct (bool_decide_reflect (c = [])) as [->|H1]; [by apply IH|]. destruct (bool_decide_reflect (c = DOT)) as [->|H2]; [by apply IH|].
    cbn [orb]. unfold clean. rewrite filter_cons_True by done. fold (clean cs).
    rewrite walk_cons, (bool_decide_eq_true_2 _ Hdir), (bool_decide_eq_false_2 _ H1), (bool_decide_eq_false_2 _ H2). cbn [orb].
    case_bool_decide; [by apply IH|]. destruct (node (d ++ [c])) as [[| | |l]|]; try done; try apply IH.
    destruct k as [|k]; [done|]. apply IHk. lia.
  - cbn [app]. rewrite !walk_cons. case_bool_decide; [|done]. destruct (bool_decide (c = []) || bool_decide (c = DOT)); [by apply IH|].
    case_bool_decide; [by apply IH|]. destruct (node (d ++ [c])) as [[| | |l]|]; try done; try apply IH.
    destruct k as [|k]; [done|]. rewrite !(assoc_L (++)). apply IHk. lia.
Qed.

Lemma resolve_clean base cs : DOTS ∉ cs -> foldl down base cs = base ++ clean cs.
Proof.
  revert base. induction cs as [|c cs IH]; intros base Hn; [by rewrite app_nil_r|]. cbn [foldl]. rewrite IH by set_solver. unfold down, clean.
  rewrite (bool_decide_eq_false_2 (c = DOTS)) by set_solver.
  destruct (bool_decide_reflect (c = [])) as [->|H1]; [done|]. destruct (bool_decide_reflect (c = DOT)) as [->|H2]; [done|].
  cbn [orb]. rewrite filter_cons_True by done. by rewrite <-app_assoc.
Qed.

(** Without two dots, where the kernel gets from a real directory is where the checked path leads. *)
Lemma lookup_resolve d t q : real d -> DOTS ∉ split_chars SLASH t -> lookup_path store d t = Some q ->
  realpath store (resolve d t) = Some q /\ real q.
Proof.
  intros Hd Hn Hq. assert (walk MAXSYMLINKS (start d t) (split_chars SLASH t) = Some q) as Hw by (by destruct t). clear Hq.
  assert (real (start d t)) as Hs by (unfold start; destruct (isAbsolute t); [constructor|done]).
  split; [|by eapply walk_real]. unfold resolve, realpath. fold (start d t). rewrite resolve_clean, walk_from_root by done.
  by apply (walk_clean _ []).
Qed.

Lemma lstat_real p st : real p -> lstat store p = Some st ->
  node p = Some (match st with IsFile => File | IsDirectory => Dir | IsOther => Special end).
Proof.
  unfold lstat, realpath. destruct 1 as [|d c n Hd Hdir Hc Hn Hl]; [by intros [= <-]|].
  rewrite dirname_app, last_snoc. pose proof (walk_from_root MAXSYMLINKS d [] Hd) as Hw. rewrite app_nil_r, walk_nil in Hw. rewrite Hw.
  cbn [mbind option_bind]. rewrite Hn. destruct n as [| | |t]; [by intros [= <-]..|]. by destruct (Hl t).
Qed.
End Walk.

(** ** What a proven command opens *)

Lemma relative_spec (r q : Path) : (exists rest, q = r ++ rest /\ relative r q = rest) \/ (exists l, relative r q = DOTS :: l).
Proof.
  revert q. induction r as [|a r IH]; intros q; [left; by exists q|]. destruct q as [|b q]; [right; by eexists|]. cbn.
  destruct (bool_decide_reflect (a = b)) as [->|_]; [|right; by eexists].
  destruct (IH q) as [(rest & Hq & Hr)|(l & ->)]; [left; exists rest; by rewrite Hq at 1|right; by eexists].
Qed.

Lemma isPathWithin_spec q r : isPathWithin q r = true -> exists rest, q = r ++ rest /\ relative r q = rest.
Proof. unfold isPathWithin. destruct (relative_spec r q) as [H|(l & ->)]; [done|]. by rewrite bool_decide_eq_true_2. Qed.

(** What the shell hands to the program for a word. *)
Definition spoken (env : ProofEnv) (w : Word) (t : list ascii) : Prop :=
  (tilde w = false /\ t = text w) \/ (tilde w = true /\ exists h, home env = Some h /\ h <> [] /\ t = h ++ drop 1 (text w)).

Section Reach.
Context (store : Disk.Store) (pcwd : Path) (env : ProofEnv).
Let fs := Disk.fs store pcwd.

(** A directory the check reads below: the working directory or one of the read roots, by their real paths. *)
Definition is_root (dir root : Path) : Prop := root = dir \/ exists r, r ∈ readRoots env /\ realOrNull fs r = Some root.
(** An object the proof may let a program open: a file or directory below a root, under no hidden name, not sensitive. *)
Definition harmless (dir q : Path) : Prop :=
  exists root rest, is_root dir root /\ q = root ++ rest /\ Forall (fun c => hidden c = false) rest /\
    isSensitive env q = false /\ (Disk.node store q = Some Disk.File \/ Disk.node store q = Some Disk.Dir).

(** The words the program opens as paths: values and operands, by the program's kind. *)
Definition opened (name : string) (sp : ProgramSpec) (os : list Option_) (ops : list Word) : list Word :=
  omap (fun o => match value_of o with Some (v_path, w) => Some w | _ => None end) os ++
  match operand_kind sp with
  | o_paths => if decide (ops = [] /\ name = "ls"%string) then [plain "."] else ops
  | o_one_path => ops
  | o_grep => if existsb gives_pattern os then ops else drop 1 ops
  | o_text | o_none | o_date => []
  end.

Lemma root_of_root dir real root : root_of (make_roots fs env dir) real = Some root ->
  is_root dir root /\ isPathWithin real root = true.
Proof.
  unfold root_of. cbn. destruct (isPathWithin real dir) eqn:Hd; [intros [= <-]; split; [by left|done]|].
  intros [Hin Hw]%find_some. split; [|done]. right. apply list_elem_of_In, list_elem_of_omap in Hin as (r & Hr & Hr'). by exists r.
Qed.

Lemma realPathOf_exists p q : Disk.realpath store p = Some q -> realPathOf fs p = Ok q.
Proof.
  intros Hq. unfold realPathOf. rewrite <-(reverse_involutive p) in Hq. set (l := reverse p) in *. clearbody l.
  assert (existsSync fs (reverse l) = true) as He by (apply bool_decide_eq_true; eauto).
  destruct l; cbn [realPath_up]; rewrite He; change (realpathSync fs) with (Disk.realpath store); rewrite Hq; by rewrite app_nil_r.
Qed.

Lemma expanded_spoken dir w t : expanded (make_roots fs env dir) w = Ok t -> spoken env w t.
Proof.
  unfold expanded, spoken. cbn. destruct (tilde w); [|intros [= <-]; by left]. destruct (home env) as [[|c h]|]; [done| |done].
  intros [= <-]. right. split; [done|]. by exists (c :: h).
Qed.

Lemma provePath_harmless dir w : real store dir -> provePath fs env (make_roots fs env dir) w = Ok tt -> text w <> chars "-" ->
  tooWide fs env dir = false /\ exists t, spoken env w t /\ forall q, Disk.lookup_path store dir t = Some q -> harmless dir q.
Proof.
  intros Hdir. unfold provePath. intros H Hw. rewrite bool_decide_eq_false_2 in H by done. cbn [pathsAllowed make_roots] in H.
  destruct (tooWide fs env dir); [done|]. split; [done|]. cbn [negb] in H. apply bind_Ok in H as (t & Ht & H). exists t.
  split; [by eapply expanded_spoken|]. intros q Hq. case_bool_decide as Hn; [done|]. cbn zeta in H.
  destruct (_ && _ && _); [done|]. destruct (lookup_resolve store dir t q Hdir Hn Hq) as [Hreal Hq'].
  cbn [root_cwd make_roots] in H. rewrite (realPathOf_exists _ _ Hreal) in H. cbn [mbind result_bind] in H.
  destruct (root_of (make_roots fs env dir) q) as [root|] eqn:Hr; [|done]. apply root_of_root in Hr as [Hr Hin].
  apply isPathWithin_spec in Hin as (rest & -> & Hrel). rewrite Hrel in H. exists root, rest.
  destruct (existsb hidden rest) eqn:Hh; [done|]. destruct (isSensitive env (root ++ rest)); [done|].
  assert (Disk.realpath store (root ++ rest) = Some (root ++ rest)) as Hidem.
  { unfold Disk.realpath. pose proof (walk_from_root store Disk.MAXSYMLINKS _ [] Hq') as Hw'. by rewrite app_nil_r, walk_nil in Hw'. }
  assert (existsSync fs (root ++ rest) = true) as He by (apply bool_decide_eq_true; eauto). rewrite He in H.
  split_and!; try done.
  - apply Forall_forall. intros c Hc. destruct (hidden c) eqn:Hhc; [|done]. rewrite <-Hh. symmetry. apply existsb_exists.
    exists c. split; [by apply list_elem_of_In|done].
  - destruct (lstatSync fs (root ++ rest)) as [st|] eqn:Hst; [|done]. apply lstat_real in Hst; [|done].
    destruct st; [by left|by right|done].
Qed.
End Reach.

Section Command_laws.
Context (store : Disk.Store) (pcwd : Path) (env : ProofEnv) (dir : Path).
Let fs := Disk.fs store pcwd.
Let roots := make_roots fs env dir.

Lemma throw_if_Ok {E} b (e : E) : throw_if b e = Ok tt <-> b = false.
Proof. by destruct b. Qed.

(** Every word the program opens passed [provePath]. *)
Lemma opened_proved name sp os p : values_ok fs env roots os -> patternGiven p = existsb gives_pattern os ->
  prove_operands fs env roots name sp p = Ok tt ->
  forall w, w ∈ opened name sp os (operands p) -> provePath fs env roots w = Ok tt.
Proof.
  intros Hv Hp H w. unfold opened. rewrite elem_of_app. intros [Hw|Hw].
  - apply list_elem_of_omap in Hw as (o & Ho & Hw). destruct (value_of o) as [[[] v]|] eqn:Hvo; try done. injection Hw as ->.
    apply (Hv v_path w). apply list_elem_of_fmap. by exists o.
  - unfold prove_operands in H. apply bind_Ok in H as (_ & _ & H). apply bind_Ok in H as (_ & _ & H).
    destruct (operand_kind sp); try (by apply elem_of_nil in Hw).
    + apply bind_Ok in H as ([] & Hls & H). rewrite for_each_Ok in H. case_decide as Hc; [|by apply H].
      destruct Hc as [Hnil ->]. rewrite Hnil in Hls. cbn in Hls. by apply list_elem_of_singleton in Hw as ->.
    + rewrite Hp in H. destruct (existsb gives_pattern os); [rewrite for_each_Ok in H; by apply H|].
      destruct (operands p) as [|x files]; [done|]. apply bind_Ok in H as (_ & _ & H). rewrite for_each_Ok in H. by apply H.
    + apply bind_Ok in H as (_ & _ & H). rewrite for_each_Ok in H. by apply H.
Qed.

(** What a proven command of one program is. *)
Definition harmless_command (head : Word) (args : list Word) : Prop :=
  exists sp, jm_get PROGRAMS (unchars (text head)) = Some sp /\ quoted head = false /\ tilde head = false /\
  (unchars (text head) = "echo"%string \/
   exists os ops, argv sp args os ops /\
     forall w, w ∈ opened (unchars (text head)) sp os ops -> text w <> chars "-" ->
       tooWide fs env dir = false /\
       exists t, spoken env w t /\ forall q, Disk.lookup_path store dir t = Some q -> harmless store pcwd env dir q).

Lemma proveSegment_harmless head args : real store dir -> proveSegment fs env roots (head :: args) = Ok tt -> harmless_command head args.
Proof.
  intros Hdir. unfold proveSegment, harmless_command. destruct (jm_get PROGRAMS (unchars (text head))) as [sp|]; [|done].
  destruct (quoted head); [done|]. destruct (tilde head); [done|]. cbn [orb]. intros H. exists sp. split_and!; try done.
  case_bool_decide as He; [by left|]. right. apply bind_Ok in H as (p & Hr & Ho).
  apply read_argv in Hr as (os & ops & Ha & Hv & ->). exists os, ops. split; [done|]. intros w Hw Hdash.
  apply provePath_harmless; [done| |done]. by eapply (opened_proved _ sp os (read_result {| operands := []; patternGiven := false |} os ops) Hv eq_refl Ho).
Qed.

Lemma prove_all_Ok segs : prove_all fs env roots segs = Ok tt -> forall seg, seg ∈ segs -> proveSegment fs env roots seg = Ok tt.
Proof.
  induction segs as [|s segs IH]; cbn; [by intros _ s ?%elem_of_nil|]. destruct (proveSegment fs env roots s) as [[]|] eqn:Hs; [|done].
  intros H seg [->|Hin]%elem_of_cons; [done|]. by apply IH.
Qed.
End Command_laws.

(** C20. On a file system with symbolic links, a command line that is proven stays where it may read. It is a text of the
    grammar of at most sixteen commands; each of its commands names, bare, a program of the table; its arguments have a getopt reading in the closed
    option set; and every word the program opens as a path ([opened]: by the program's kind, the working directory for a
    bare [ls]; a dash is standard input) leads, when the kernel follows it from the working directory as the shell hands
    it over, through dots, repeated slashes and up to forty links, to a file or directory inside the working directory or
    a read root, below no hidden name, that is not sensitive. And then the working directory is neither the file system's
    root, nor hidden, nor a directory that holds HOME. *)
Theorem a_proven_command_stays_inside store pcwd env command :
  proven (proveBashCommand (Disk.fs store pcwd) env command) = true ->
  exists dir segs, realOrNull (Disk.fs store pcwd) (cwd env) = Some dir /\ cmdline command segs /\ (length segs <= 16)%nat /\
    forall head args, (head :: args) ∈ segs -> harmless_command store pcwd env dir head args.
Proof.
  unfold proveBashCommand. destruct (_ <? _); [done|]. destruct (lex command) as [segs|] eqn:Hl; [|done].
  destruct (Z.ltb_spec MAX_PROVEN_COMMANDS (Z.of_nat (length segs))) as [|Hn]; [done|].
  destruct (realOrNull _ _) as [dir|] eqn:Hd; [|done]. destruct (prove_all _ _ _ _) as [[]|[]] eqn:Hp; [|done..]. intros _.
  exists dir, segs. unfold MAX_PROVEN_COMMANDS in Hn. split_and!; [done| |lia|].
  - by apply lex_cmdline_sound.
  - intros h args Hin. apply proveSegment_harmless; [|by eapply prove_all_Ok].
    apply (walk_real store Disk.MAXSYMLINKS (resolve pcwd (cwd env)) [] dir); [constructor|exact Hd].
Qed.

Example a_proven_command_stays_inside_witness :
  exists dir segs, realOrNull (Disk.fs Example_disk.store []) (cwd Example_disk.env) = Some dir /\
    cmdline (chars "cat in/b | grep -e x a.txt") segs /\ (length segs <= 16)%nat /\
    forall head args, (head :: args) ∈ segs -> harmless_command Example_disk.store [] Example_disk.env dir head args.
Proof.
  apply (a_proven_command_stays_inside Example_disk.store [] Example_disk.env (chars "cat in/b | grep -e x a.txt")).
  vm_compute. reflexivity.
Defined.

(** Where a dash is a file name the proof goes too far: [ls] does not read standard input, so behind [ls -] it lists what
    the link named by a dash points to. *)
Example ls_lists_a_link_named_dash :
  proven (proveBashCommand (Disk.fs Example_disk.store []) Example_disk.env (chars "ls -")) = true /\
  Disk.lookup_path Example_disk.store (Example_disk.path "/ws") (chars "-") = Some (Example_disk.path "/etc").
Proof. vm_compute. split; reflexivity. Qed.
