(* ===== verification/MailBody.v ===== *)
(** The body of a mail on its way out, [integrations/mail/body-reflow.ts]: the lines an author broke by hand are joined
    again, and what has a meaning in its lines is left alone. A text is its list of code units; the bullet U+2022 the code
    also takes for a list item is not below 256. *)
From S2P Require Import Prelude Num JsString.
Open Scope Z_scope.

(** ** Lines *)

Definition LF : ascii := chr 10.
Definition CR : ascii := chr 13.
Definition SP : ascii := " "%char.

(** What is left of a line in front of its line feed: a carriage return belongs to the break. *)
Definition drop_cr (l : list ascii) : list ascii :=
  match last l with Some c => if bool_decide (c = CR) then take (length l - 1) l else l | None => l end.
(** [body.split(/\r?\n/)]. *)
Definition lines_of (body : list ascii) : list (list ascii) :=
  match reverse (split_chars LF body) with
  | [] => []
  | l :: ls => reverse (l :: (drop_cr <$> ls))
  end.
(** [lines.join(sep)]. *)
Fixpoint joined (sep : ascii) (ls : list (list ascii)) : list ascii :=
  match ls with
  | [] => []
  | [l] => l
  | l :: ls => l ++ sep :: joined sep ls
  end.
(** [line.trimEnd()]. *)
Definition trim_end (l : list ascii) : list ascii := reverse (drop_while is_space (reverse l)).
Definition blank (l : list ascii) : bool := forallb is_space l.

(** ** The shapes that mean something *)

Definition starts (p : string) (l : list ascii) : bool := is_prefix (chars p) l.
(** [/^\s*(?:[-*+]|\d+[.)])\s/]. *)
Definition list_item (l : list ascii) : bool :=
  match drop_while is_space l with
  | c :: l' =>
      let then_space l := match l with s :: _ => is_space s | [] => false end in
      bool_decide (c ∈ chars "-*+") && then_space l' ||
      is_digit c && match drop_while is_digit (c :: l') with
                    | d :: l' => bool_decide (d ∈ chars ".)") && then_space l'
                    | [] => false
                    end
  | [] => false
  end.
(** [/^\s*at \S+\s*\(/]. *)
Definition stack_frame (l : list ascii) : bool :=
  let l := drop_while is_space l in
  starts "at " l &&
  (let l := drop 3 l in
   let name := take_while (fun c => negb (is_space c)) l in
   match name with
   | [] => false
   | _ :: name' => bool_decide ("("%char ∈ name') ||
       match drop_while is_space (drop_while (fun c => negb (is_space c)) l) with
       | c :: _ => bool_decide (c = "("%char)
       | [] => false
       end
   end).
(** [/^\d{4}-\d{2}-\d{2}[T ]/]. *)
Fixpoint shaped_as (p : list (ascii -> bool)) (l : list ascii) : bool :=
  match p, l with
  | [], _ => true
  | f :: p, c :: l => f c && shaped_as p l
  | _, [] => false
  end.
Definition log_time (l : list ascii) : bool :=
  let d := is_digit in let dash c := bool_decide (c = "-"%char) in
  shaped_as [d; d; d; d; dash; d; d; dash; d; d; fun c => bool_decide (c = "T"%char) || bool_decide (c = SP)] l.
(** [/\S {2,}\S/]: [seen] is a visible character right before, [gap] the spaces since then. *)
Fixpoint columns (seen : bool) (gap : nat) (l : list ascii) : bool :=
  match l with
  | [] => false
  | c :: l =>
      if bool_decide (c = SP) then columns seen (S gap) l
      else if is_space c then columns false 0 l
      else seen && (2 <=? gap)%nat || columns true 0 l
  end.
Definition signature (l : list ascii) : bool := bool_decide (l = chars "--") || bool_decide (l = chars "-- ").

(** @src src/src/integrations/mail/body-reflow.ts 32-47 isStructuralLine *)
Definition isStructuralLine (l : list ascii) (inCodeFence : bool) : bool :=
  inCodeFence || blank l || starts ">" l || match l with c :: _ => is_space c | [] => false end || list_item l ||
  (starts "diff --git " l || starts "--- " l || starts "+++ " l || starts "@@ " l) ||
  (starts "+" l || starts "-" l) || stack_frame l || log_time l || signature l || columns false 0 l.

(** [/^\s*(```|~~~)/]. *)
(** @src src/src/integrations/mail/body-reflow.ts 73-73 reflowMailBody *)
Definition fence (l : list ascii) : bool := let l := drop_while is_space l in starts "```" l || starts "~~~" l.

(** ** The pass *)

(** @src src/src/integrations/mail/body-reflow.ts 56-59 reflowMailBody *)
Record Pass := { out : list (list ascii); buffer : list (list ascii); inCodeFence : bool; afterSignature : bool }.
(** @src src/src/integrations/mail/body-reflow.ts 61-66 reflowMailBody *)
Definition flushed (out buffer : list (list ascii)) : list (list ascii) :=
  match buffer with [] => out | _ => out ++ [trim_end (joined SP buffer)] end.

(** One line. *)
(** @src src/src/integrations/mail/body-reflow.ts 68-100 reflowMailBody *)
Definition take_line (s : Pass) (l : list ascii) : Pass :=
  let done_ := flushed (out s) (buffer s) in
  if afterSignature s then {| out := out s ++ [l]; buffer := buffer s; inCodeFence := inCodeFence s; afterSignature := true |}
  else if fence l then {| out := done_ ++ [l]; buffer := []; inCodeFence := negb (inCodeFence s); afterSignature := false |}
  else if signature l then {| out := done_ ++ [l]; buffer := []; inCodeFence := inCodeFence s; afterSignature := true |}
  else if blank l then {| out := done_ ++ [[]]; buffer := []; inCodeFence := inCodeFence s; afterSignature := false |}
  else if isStructuralLine l (inCodeFence s)
  then {| out := done_ ++ [l]; buffer := []; inCodeFence := inCodeFence s; afterSignature := false |}
  else {| out := out s; buffer := buffer s ++ [l]; inCodeFence := inCodeFence s; afterSignature := false |}.
Definition pass_start : Pass := {| out := []; buffer := []; inCodeFence := false; afterSignature := false |}.
(** @src src/src/integrations/mail/body-reflow.ts 55-101 reflowMailBody *)
Definition reflow_lines (ls : list (list ascii)) : list (list ascii) :=
  let s := foldl take_line pass_start ls in flushed (out s) (buffer s).
(** @src src/src/integrations/mail/body-reflow.ts 54-103 reflowMailBody *)
Definition reflowMailBody (body : list ascii) : list ascii := joined LF (reflow_lines (lines_of body)).

(** The line feeds of a test body, written as bars. *)
Definition text (s : string) : list ascii := (fun c => if bool_decide (c = "|"%char) then LF else c) <$> chars s.
Example reflow_1 : reflowMailBody (text "Dear Ann,||thank you for the|letter and the |photos.|- one|- two|> quoted|a  b|it is|fine|-- |Bob|Smith") =
  text "Dear Ann,||thank you for the letter and the  photos.|- one|- two|> quoted|a  b|it is fine|-- |Bob|Smith".
Proof. vm_compute. reflexivity. Qed.
Example reflow_2 : reflowMailBody (text "run|```|a|   |b|```|it|now") = text "run|```|a||b|```|it now".
Proof. vm_compute. reflexivity. Qed.

(** ** The words stay *)

Definition emit (w : list ascii) (ws : list (list ascii)) : list (list ascii) := match w with [] => ws | _ => w :: ws end.
(** The words of a text, what stands between white space; [w] is the word begun. *)
Fixpoint words_from (w l : list ascii) : list (list ascii) :=
  match l with
  | [] => emit w []
  | c :: l => if is_space c then emit w (words_from [] l) else words_from (w ++ [c]) l
  end.
Definition words (l : list ascii) : list (list ascii) := words_from [] l.

Lemma words_space c l : is_space c = true -> words (c :: l) = words l.
Proof. intros Hc. unfold words. cbn [words_from]. by rewrite Hc. Qed.

Lemma words_blank l : blank l = true -> words l = [].
Proof. induction l as [|c l IH]; [done|]. unfold blank. cbn [forallb]. intros [Hc Hl]%andb_true_iff. by rewrite words_space, IH. Qed.

Lemma words_app a c b : is_space c = true -> words (a ++ c :: b) = words a ++ words b.
Proof.
  intros Hc. unfold words. generalize (@nil ascii) at 1 2. induction a as [|x a IH]; intros w; cbn [app words_from].
  - rewrite Hc. by destruct w.
  - destruct (is_space x); [rewrite IH; by destruct w|apply IH].
Qed.

Lemma words_snoc_space a c : is_space c = true -> words (a ++ [c]) = words a.
Proof. intros Hc. rewrite words_app by done. by rewrite app_nil_r. Qed.

Lemma words_trim_end l : words (trim_end l) = words l.
Proof.
  unfold trim_end. induction l as [|c l IH] using rev_ind; [done|]. rewrite reverse_snoc. cbn [drop_while].
  destruct (is_space c) eqn:Hc; [by rewrite words_snoc_space|]. by rewrite reverse_cons, reverse_involutive.
Qed.

Lemma words_joined sep ls : is_space sep = true -> words (joined sep ls) = mjoin (words <$> ls).
Proof.
  intros Hs. induction ls as [|l ls IH]; [done|]. destruct ls as [|l' ls]; [cbn; by rewrite app_nil_r|].
  change (joined sep (l :: l' :: ls)) with (l ++ sep :: joined sep (l' :: ls)). by rewrite words_app, IH.
Qed.

Lemma words_drop_cr l : words (drop_cr l) = words l.
Proof.
  unfold drop_cr. destruct l as [|c l _] using rev_ind; [done|]. rewrite last_snoc. case_bool_decide as Hc; [|done]. subst c.
  rewrite length_app. cbn. replace (length l + 1 - 1)%nat with (length l) by lia. by rewrite take_app_length, words_snoc_space.
Qed.

Lemma split_joined c l : joined c (split_chars c l) = l.
Proof.
  induction l as [|x l IH]; [done|]. cbn [split_chars]. destruct (split_chars c l) as [|w ws] eqn:Hs; [by destruct (split_chars_ne c l)|].
  case_decide as Hx; [subst x; change (c :: joined c (w :: ws) = c :: l); by rewrite IH|]. rewrite <-IH. by destruct ws.
Qed.

Lemma words_lines body : mjoin (words <$> lines_of body) = words body.
Proof.
  rewrite <-(split_joined LF body) at 2. rewrite words_joined by done. unfold lines_of. f_equal.
  rewrite <-(reverse_involutive (split_chars LF body)) at 2. destruct (reverse (split_chars LF body)) as [|l ls]; [done|].
  rewrite !reverse_cons, !fmap_app. f_equal. rewrite <-!fmap_reverse, <-!list_fmap_compose. apply list_fmap_ext. intros _ x _. apply words_drop_cr.
Qed.

Definition words_of_lines (ls : list (list ascii)) : list (list ascii) := mjoin (words <$> ls).
Lemma words_of_lines_app a b : words_of_lines (a ++ b) = words_of_lines a ++ words_of_lines b.
Proof. unfold words_of_lines. by rewrite fmap_app, join_app. Qed.
Lemma words_of_lines_one l : words_of_lines [l] = words l.
Proof. unfold words_of_lines. cbn. by rewrite app_nil_r. Qed.

Lemma words_flushed out buffer : words_of_lines (flushed out buffer) = words_of_lines out ++ words_of_lines buffer.
Proof.
  unfold flushed. destruct buffer as [|b bs]; [by rewrite app_nil_r|]. rewrite words_of_lines_app, words_of_lines_one, words_trim_end.
  by rewrite words_joined.
Qed.

(** Behind the signature nothing waits, and nothing waits in a fence. *)
Definition settled (s : Pass) : Prop := (afterSignature s = true -> buffer s = []) /\ (inCodeFence s = true -> buffer s = []).

Lemma take_line_settled s l : settled s -> settled (take_line s l).
Proof.
  intros [Ha Hf]. unfold take_line. destruct (afterSignature s) eqn:Es; [split; [exact Ha|exact Hf]|].
  destruct (fence l); [done|]. destruct (signature l); [done|]. destruct (blank l); [done|].
  destruct (isStructuralLine l (inCodeFence s)) eqn:Ei; [done|]. split; [done|]. cbn. intros Hc. by rewrite Hc in Ei.
Qed.

Definition words_so_far (s : Pass) : list (list ascii) := words_of_lines (flushed (out s) (buffer s)).
Lemma take_line_words s l : settled s -> words_so_far (take_line s l) = words_so_far s ++ words l.
Proof.
  intros [Ha _]. unfold words_so_far, take_line.
  destruct (afterSignature s) eqn:Es; cbn [out buffer].
  { rewrite !words_flushed, words_of_lines_app, words_of_lines_one, Ha by done. by rewrite !app_nil_r. }
  destruct (fence l); cbn [out buffer flushed]; [by rewrite words_of_lines_app, words_of_lines_one|].
  destruct (signature l); cbn [out buffer flushed]; [by rewrite words_of_lines_app, words_of_lines_one|].
  destruct (blank l) eqn:Hb; cbn [out buffer flushed]; [by rewrite words_of_lines_app, words_of_lines_one, (words_blank l)|].
  destruct (isStructuralLine l _); cbn [out buffer flushed]; [by rewrite words_of_lines_app, words_of_lines_one|].
  rewrite !words_flushed, words_of_lines_app, words_of_lines_one. by rewrite app_assoc.
Qed.

Lemma take_lines_words ls s : settled s -> words_so_far (foldl take_line s ls) = words_so_far s ++ words_of_lines ls.
Proof.
  revert s. induction ls as [|l ls IH]; intros s Hs; [by rewrite app_nil_r|]. cbn [foldl]. rewrite IH by (by apply take_line_settled).
  rewrite take_line_words by done. by rewrite <-app_assoc.
Qed.

(** Reflowing changes white space only: the words, in order, are those of the body, whatever quotes, lists, fences, columns
    or signature it holds. *)
Lemma reflow_keeps_the_words body : words (reflowMailBody body) = words body.
Proof.
  unfold reflowMailBody, reflow_lines. rewrite words_joined by done.
  change (mjoin (words <$> ?l)) with (words_of_lines l). cbv zeta.
  change (words_so_far (foldl take_line pass_start (lines_of body)) = words body).
  rewrite take_lines_words by done. apply words_lines.
Qed.

(** ** A second pass changes nothing *)

(** A line of running text. *)
Definition plain_line (l : list ascii) : Prop := fence l = false /\ signature l = false /\ blank l = false /\ isStructuralLine l false = false.

Lemma trim_end_prefix l : exists k, l = trim_end l ++ k /\ blank k = true.
Proof.
  unfold trim_end, blank. exists (reverse (take_while is_space (reverse l))). split.
  - by rewrite <-reverse_app, drop_while_app, reverse_involutive.
  - apply forallb_forall. intros x Hx%list_elem_of_In. rewrite elem_of_reverse in Hx. apply list_elem_of_In in Hx.
    revert x Hx. apply forallb_forall, take_while_all.
Qed.

Lemma trim_end_cons c l : is_space c = false -> trim_end (c :: l) = c :: trim_end l.
Proof.
  intros Hc. unfold trim_end. rewrite reverse_cons. generalize (reverse l) as k. intros k.
  induction k as [|x k IH]; cbn [app drop_while]; [by rewrite Hc|]. destruct (is_space x); [exact IH|].
  by rewrite app_comm_cons, reverse_snoc.
Qed.

Lemma trim_end_idem l : trim_end (trim_end l) = trim_end l.
Proof.
  unfold trim_end. rewrite reverse_involutive. f_equal. generalize (reverse l) as k. induction k as [|x k IH]; [done|].
  cbn [drop_while]. destruct (is_space x) eqn:Hx; [done|]. cbn [drop_while]. by rewrite Hx.
Qed.

Lemma plain_head l : plain_line l -> exists c r, l = c :: r /\ is_space c = false /\ c <> "-"%char.
Proof.
  intros (_ & _ & Hb & Hs). destruct l as [|c r]; [done|]. exists c, r. split; [done|]. unfold isStructuralLine in Hs.
  rewrite !orb_false_iff in Hs. destruct Hs as ((((((((_ & Hsp) & _) & _) & Hdash) & _) & _) & _) & _). split; [done|].
  intros ->. destruct Hdash as [_ Hd]. by cbn in Hd.
Qed.

Lemma starts_front p a rest k : SP ∉ chars p -> rest = [] \/ (exists r, rest = SP :: r) -> a ++ rest = chars p ++ k -> starts p a = true.
Proof.
  unfold starts. generalize (chars p) as q. intros q Hq Hrest. revert q k Hq. induction a as [|c a IH]; intros q k Hq He.
  - destruct q as [|x q]; [done|]. cbn in He. destruct Hrest as [-> |[r ->]]; [done|]. injection He as <- _. set_solver.
  - destruct q as [|x q]; [done|]. cbn in He. injection He as -> He. cbn [is_prefix]. rewrite bool_decide_eq_true_2 by done.
    apply (IH q k); [set_solver|done].
Qed.

(** A paragraph is neither blank, nor a fence, nor a signature. *)
Lemma paragraph_shape B : B <> [] -> Forall plain_line B ->
  let P := trim_end (joined SP B) in fence P = false /\ signature P = false /\ blank P = false.
Proof.
  intros Hne HB P. destruct B as [|b B]; [done|]. apply Forall_cons in HB as [Hb _].
  destruct (plain_head b Hb) as (c & r & Hcr & Hc & Hd).
  assert (exists rest, joined SP (b :: B) = b ++ rest /\ (rest = [] \/ exists r, rest = SP :: r)) as (rest & Hj & Hrest).
  { destruct B as [|b' B]; [exists []; by rewrite app_nil_r; auto|]. exists (SP :: joined SP (b' :: B)). split; [done|]. right. by eexists. }
  assert (P = c :: trim_end (r ++ rest)) as HP by (unfold P; by rewrite Hj, Hcr, <-trim_end_cons).
  split_and!.
  - destruct Hb as (Hf & _). unfold fence in *. rewrite HP. rewrite Hcr in Hf. cbn [drop_while] in *. rewrite Hc in *. rewrite <-HP. rewrite <-Hcr in Hf.
    destruct (trim_end_prefix (joined SP (b :: B))) as (k & Hk & _). fold P in Hk. rewrite Hj in Hk.
    apply orb_false_iff in Hf as [H1 H2]. apply orb_false_iff. split; apply not_true_is_false; intros [k' Hk']%is_prefix_spec; rewrite Hk', <-app_assoc in Hk.
    + by rewrite (starts_front "```" b rest (k' ++ k)) in H1 by (done || (vm_compute; set_solver)).
    + by rewrite (starts_front "~~~" b rest (k' ++ k)) in H2 by (done || (vm_compute; set_solver)).
  - rewrite HP. unfold signature. apply orb_false_iff. split; apply bool_decide_eq_false; intros [= ? _]; done.
  - rewrite HP. unfold blank. cbn [forallb]. by rewrite Hc.
Qed.

(** The pass over what a pass has put out, up to and with the paragraph that waits. *)
Definition again (s : Pass) : Pass := foldl take_line pass_start (flushed (out s) (buffer s)).
(** It puts out the same and stands where the first pass stands. *)
Definition repeats (s : Pass) : Prop :=
  foldl take_line pass_start (out s) =
    {| out := out s; buffer := []; inCodeFence := inCodeFence s; afterSignature := afterSignature s |} /\
  Forall plain_line (buffer s) /\ settled s.

Lemma again_flushed s : repeats s ->
  flushed (out (again s)) (buffer (again s)) = flushed (out s) (buffer s) /\
  inCodeFence (again s) = inCodeFence s /\ afterSignature (again s) = afterSignature s /\
  (buffer s = [] -> buffer (again s) = []).
Proof.
  intros (Hr & Hp & Ha & Hf). unfold again. destruct (buffer s) as [|b bs] eqn:Hb; cbn [flushed]; [by rewrite Hr|].
  assert (inCodeFence s = false) as Hfs by (apply not_true_is_false; intros H; by specialize (Hf H)).
  assert (afterSignature s = false) as Has by (apply not_true_is_false; intros H; by specialize (Ha H)).
  destruct (paragraph_shape (b :: bs)) as (H1 & H2 & H3); [done..|]. set (P := trim_end _) in *.
  rewrite foldl_app, Hr. cbn [foldl]. unfold take_line. cbn [afterSignature inCodeFence buffer out]. rewrite Has, Hfs, H1, H2, H3.
  destruct (isStructuralLine P false); cbn [flushed out buffer joined app inCodeFence afterSignature]; [done|]. assert (trim_end P = P) as -> by apply trim_end_idem. done.
Qed.

(** A line that is put out ends the paragraph before it, whether that waits or is out already. *)
Lemma take_line_emits s l t : afterSignature s = false -> afterSignature t = false -> inCodeFence t = inCodeFence s ->
  flushed (out t) (buffer t) = flushed (out s) (buffer s) ->
  fence l || signature l || blank l || isStructuralLine l (inCodeFence s) = true ->
  let l' := if fence l || signature l || negb (blank l) then l else [] in
  take_line t l' = take_line s l /\ exists f g, take_line s l = {| out := flushed (out s) (buffer s) ++ [l']; buffer := []; inCodeFence := f; afterSignature := g |}.
Proof.
  intros Hs Ht Hf Hfl Hl. cbv zeta. unfold take_line. rewrite Hs, Ht, Hf, Hfl.
  destruct (fence l) eqn:Hfe; cbn [orb]; [rewrite Hfe; split; [done|by eexists _, _]|].
  destruct (signature l) eqn:Hsi; cbn [orb]; [rewrite Hfe, Hsi; split; [done|by eexists _, _]|].
  destruct (blank l) eqn:Hbl; cbn [negb]; [split; [done|by eexists _, _]|].
  cbn [orb] in Hl. rewrite Hfe, Hsi, Hbl, Hl. split; [done|by eexists _, _].
Qed.

Lemma take_line_repeats s l : repeats s -> repeats (take_line s l).
Proof.
  intros Hs. pose proof (again_flushed s Hs) as (Hag & Hif & Has & Hbu). destruct Hs as (Hr & Hp & Hst).
  split; [|split; [|by apply take_line_settled]].
  - destruct (afterSignature s) eqn:Es.
    { unfold take_line at 2 3 4 5. rewrite Es. cbn [out inCodeFence afterSignature]. rewrite foldl_app, Hr. cbn [foldl]. unfold take_line. by cbn [afterSignature]. }
    destruct (fence l || signature l || blank l || isStructuralLine l (inCodeFence s)) eqn:Hl.
    + destruct (take_line_emits s l (again s)) as (He & f & g & Hf); [done..|]. rewrite Hf in *. cbn [out inCodeFence afterSignature].
      by rewrite foldl_app.
    + rewrite !orb_false_iff in Hl. destruct Hl as (((H1 & H2) & H3) & H4). unfold take_line at 2 3 4 5. rewrite Es, H1, H2, H3, H4.
      cbn [out inCodeFence afterSignature]. done.
  - unfold take_line. destruct (afterSignature s); [done|]. destruct (fence l) eqn:H1; [constructor|]. destruct (signature l) eqn:H2; [constructor|].
    destruct (blank l) eqn:H3; [constructor|]. destruct (isStructuralLine l (inCodeFence s)) eqn:H4; [constructor|].
    cbn [buffer]. apply Forall_app. split; [done|]. constructor; [|constructor]. split_and!; try done.
    unfold isStructuralLine in *. by destruct (inCodeFence s).
Qed.

Lemma reflow_lines_again ls : reflow_lines (reflow_lines ls) = reflow_lines ls.
Proof.
  assert (repeats (foldl take_line pass_start ls)) as Hr.
  { assert (repeats pass_start) as H0 by (split_and!; [done|constructor|done]). revert H0. generalize pass_start as s.
    induction ls as [|l ls IH]; intros s Hs; [done|]. by apply IH, take_line_repeats. }
  apply again_flushed in Hr as (H & _). exact H.
Qed.

(** A line of a text without carriage returns. *)
Definition clean_line (l : list ascii) : Prop := LF ∉ l /\ CR ∉ l.

Lemma split_no_sep c l : Forall (fun w => c ∉ w) (split_chars c l).
Proof.
  induction l as [|x l IH]; cbn [split_chars]; [constructor; [set_solver|constructor]|].
  case_decide as Hx; [constructor; [set_solver|done]|]. destruct (split_chars c l) as [|w ws]; [by constructor; [set_solver|]|].
  apply Forall_cons in IH as [Hw Hws]. constructor; [set_solver|done].
Qed.

Lemma split_sub c l : Forall (fun w => forall x, x ∈ w -> x ∈ l) (split_chars c l).
Proof.
  induction l as [|x l IH]; cbn [split_chars]; [constructor; [done|constructor]|].
  assert (Forall (fun w => forall y, y ∈ w -> y ∈ x :: l) (split_chars c l)) as IH' by (eapply Forall_impl; [exact IH|]; set_solver).
  case_decide as Hx; [constructor; [set_solver|done]|]. destruct (split_chars c l) as [|w ws]; [constructor; [set_solver|constructor]|].
  apply Forall_cons in IH' as [Hw Hws]. constructor; [set_solver|done].
Qed.

Lemma drop_cr_clean l : CR ∉ l -> drop_cr l = l.
Proof.
  intros Hn. unfold drop_cr. destruct (last l) as [c|] eqn:Hl; [|done]. case_bool_decide as Hc; [|done]. subst c.
  apply last_Some_elem_of in Hl. done.
Qed.

Lemma lines_of_clean body : CR ∉ body -> lines_of body = split_chars LF body /\ Forall clean_line (split_chars LF body).
Proof.
  intros Hn. assert (Forall clean_line (split_chars LF body)) as Hc.
  { pose proof (split_no_sep LF body) as H1. pose proof (split_sub LF body) as H2. rewrite Forall_forall in *.
    intros l Hl. split; [by apply H1|]. intros Hcr. apply Hn. by apply (H2 l). }
  split; [|done]. unfold lines_of. destruct (reverse (split_chars LF body)) as [|l ls] eqn:Hr.
  - apply (f_equal reverse) in Hr. by rewrite reverse_involutive in Hr.
  - assert (Forall clean_line ls) as Hls.
    { apply Forall_forall. intros x Hx. rewrite Forall_forall in Hc. apply Hc. apply elem_of_reverse. rewrite Hr. set_solver. }
    replace (drop_cr <$> ls) with ls; [by rewrite <-Hr, reverse_involutive|].
    clear Hr. induction Hls as [|x ls [_ Hx] _ IH]; [done|]. cbn. by rewrite drop_cr_clean, <-IH.
Qed.

Lemma split_of_joined ls : ls <> [] -> Forall clean_line ls -> split_chars LF (joined LF ls) = ls.
Proof.
  intros Hne H. induction H as [|l ls [Hl _] _ IH]; [done|]. destruct ls as [|l' ls]; [by apply split_chars_none|].
  change (joined LF (l :: l' :: ls)) with (l ++ LF :: joined LF (l' :: ls)). by rewrite split_chars_field, IH.
Qed.

Lemma joined_clean sep ls : sep <> LF -> sep <> CR -> Forall clean_line ls -> clean_line (joined sep ls).
Proof.
  intros H1 H2. induction 1 as [|l ls Hl _ IH]; [split; set_solver|]. destruct ls as [|l' ls]; [done|].
  change (joined sep (l :: l' :: ls)) with (l ++ sep :: joined sep (l' :: ls)). destruct Hl, IH. split; set_solver.
Qed.

Lemma flushed_clean out buffer : Forall clean_line out -> Forall clean_line buffer -> Forall clean_line (flushed out buffer).
Proof.
  intros Ho Hb. unfold flushed. destruct buffer as [|b bs]; [done|]. apply Forall_app. split; [done|]. constructor; [|constructor].
  destruct (joined_clean SP (b :: bs)) as [H1 H2]; [done..|]. destruct (trim_end_prefix (joined SP (b :: bs))) as (k & Hk & _).
  rewrite Hk in H1, H2. split; set_solver.
Qed.

Lemma take_line_clean s l : clean_line l -> Forall clean_line (out s) /\ Forall clean_line (buffer s) ->
  Forall clean_line (out (take_line s l)) /\ Forall clean_line (buffer (take_line s l)).
Proof.
  intros Hl [Ho Hb]. pose proof (flushed_clean _ _ Ho Hb) as Hf. assert (clean_line []) as Hnil by (split; set_solver).
  unfold take_line. repeat case_match; cbn [out buffer]; rewrite ?Forall_app, ?Forall_singleton; auto.
Qed.

Lemma flushed_ne out buffer : out <> [] \/ buffer <> [] -> flushed out buffer <> [].
Proof. unfold flushed. destruct buffer; [tauto|]. intros _ H. by apply app_eq_nil in H as [_ ?]. Qed.
Lemma snoc_ne {A} (l : list A) x : l ++ [x] <> [].
Proof. by destruct l. Qed.

Lemma reflow_lines_clean ls : ls <> [] -> Forall clean_line ls -> reflow_lines ls <> [] /\ Forall clean_line (reflow_lines ls).
Proof.
  intros Hne Hls. unfold reflow_lines. split.
  - destruct ls as [|l ls _] using rev_ind; [done|]. rewrite foldl_app. cbn [foldl]. unfold take_line.
    apply flushed_ne. repeat case_match; cbn [out buffer]; (left; apply snoc_ne) || (right; apply snoc_ne).
  - assert (Forall clean_line (out pass_start) /\ Forall clean_line (buffer pass_start)) as H0 by (split; constructor).
    revert H0. generalize pass_start as s. induction Hls as [|l ls Hl Hls IH]; intros s [Ho Hb]; [by apply flushed_clean|].
    cbn [foldl]. destruct ls as [|l' ls]; [|apply IH; [done|by apply take_line_clean]].
    cbn [foldl]. destruct (take_line_clean s l Hl (conj Ho Hb)). by apply flushed_clean.
Qed.

(** C23. A second pass changes nothing: a body without carriage returns, once reflowed, comes out of another pass as it went
    in. A paragraph the first pass joined is either running text with nothing next to it to join, or has become a line
    with a shape (two spaces where a line ended in one, a date in front of a word) and is left alone. *)
Theorem reflow_is_idempotent body : CR ∉ body -> reflowMailBody (reflowMailBody body) = reflowMailBody body.
Proof.
  intros Hn. destruct (lines_of_clean body Hn) as [Hl Hc]. unfold reflowMailBody at 2 3. rewrite Hl.
  destruct (reflow_lines_clean (split_chars LF body)) as [Hne Hcl]; [apply split_chars_ne|done|].
  set (ls := reflow_lines (split_chars LF body)) in *. assert (CR ∉ joined LF ls) as Hcr.
  { clear -Hcl. induction Hcl as [|l ls [_ Hl] _ IH]; [set_solver|]. destruct ls as [|l' ls]; [done|].
    change (joined LF (l :: l' :: ls)) with (l ++ LF :: joined LF (l' :: ls)). intros [?|[?|?]%elem_of_cons]%elem_of_app; done. }
  unfold reflowMailBody. destruct (lines_of_clean _ Hcr) as [-> _]. rewrite split_of_joined by done. f_equal. apply reflow_lines_again.
Qed.

Example reflow_is_idempotent_witness :
  reflowMailBody (reflowMailBody (text "one |two|  three|four|2026-08-14|five")) = reflowMailBody (text "one |two|  three|four|2026-08-14|five").
Proof. apply reflow_is_idempotent. apply (bool_decide_eq_true_1 _). vm_compute. reflexivity. Defined.

(** With two carriage returns before a line feed the first pass leaves one, and the second takes it. *)
Example a_second_pass_takes_a_carriage_return :
  let body := chars "> q" ++ [CR; CR; LF] ++ chars "x" in
  reflowMailBody body = chars "> q" ++ [CR; LF] ++ chars "x" /\ reflowMailBody (reflowMailBody body) = chars "> q" ++ [LF] ++ chars "x".
Proof. vm_compute. split; reflexivity. Qed.
