(* ===== verification/Sending.v ===== *)
(** How a mail leaves: the caps and the window against repeats of [integrations/mail/tools/rate-limit.ts], the account a
    call names ([tools/registry.ts]), the gates and the commit of [integrations/mail/send-core.ts], and the reply's commit
    of [tools/mail-reply.ts].

    A pass through [sendMail] stops at every await; the parts between are the functions here. What the provider answers,
    the scan for secrets and the tool calls counted elsewhere are arguments. *)
From S2P Require Import Prelude Num JsString JsValue Graph Principal ApprovalStore MailBody.
Open Scope Z_scope.

Record MailAddress := { ma_name : option string; ma_address : string }.
#[export] Instance MailAddress_eq_dec : EqDecision MailAddress.
Proof. solve_decision. Defined.
(** What is handed to a provider. *)
(** @src src/src/integrations/mail/provider.ts 169-183 MailSendInput *)
Record MailSendInput := { m_to : list MailAddress; m_cc : list MailAddress; m_bcc : list MailAddress; m_subject : string;
  m_text : string; m_inReplyTo : option string; m_references : option string }.
#[export] Instance MailSendInput_eq_dec : EqDecision MailSendInput.
Proof. solve_decision. Defined.
(** An account's live connection: its id, and its address where it has one. *)
Record Provider := { p_accountId : string; p_address : option string }.
#[export] Instance Provider_eq_dec : EqDecision Provider.
Proof. solve_decision. Defined.

(** ** Caps and the window against repeats *)

(** The settings; the count of a tool's calls in the last hours, where one is wired. *)
(** @src src/src/integrations/mail/tools/rate-limit.ts 30-43 MailRateLimitOptions *)
Record MailRateLimits := { callCount : option (ApprovalKind -> Z -> num); hourlyLimit : num; dailyLimit : num; dedupWindowMs : Z }.

Inductive RateBlock := HourlyLimit | DailyLimit.
(** @src src/src/integrations/mail/tools/rate-limit.ts 69-85 checkMailRateLimit *)
Definition checkMailRateLimit (L : MailRateLimits) (tool : ApprovalKind) : option RateBlock :=
  match callCount L with
  | None => None
  | Some calls =>
      if isFinite (hourlyLimit L) && (hourlyLimit L <=? calls tool 1)%num then Some HourlyLimit
      else if isFinite (dailyLimit L) && (dailyLimit L <=? calls tool 24)%num then Some DailyLimit
      else None
  end.
(** @src src/src/integrations/mail/tools/rate-limit.ts 94-99 mailSendLimitAdmits *)
Definition mailSendLimitAdmits (L : MailRateLimits) (tool : ApprovalKind) (hour day : nat) : bool :=
  let calls h := match callCount L with Some c => c tool h | None => num_of_Z 0 end in
  if isFinite (hourlyLimit L) && (hourlyLimit L <=? num_add (calls 1%Z) (num_of_Z (Z.of_nat hour)))%num then false
  else if isFinite (dailyLimit L) && (dailyLimit L <=? num_add (calls 24%Z) (num_of_Z (Z.of_nat day)))%num then false
  else true.

(** The mails sent in this process, by key, and until when each blocks. *)
Abbreviation Seen := (list (string * Z)).
Definition lower_trim (s : string) : string := trim (toLowerCase s).
(** @src src/src/integrations/mail/tools/rate-limit.ts 111-116 buildDedupKey *)
Definition buildDedupKey (recipients : list MailAddress) (subject : string) : string :=
  (join_with "," (js_sort (js_set_of ((fun a => lower_trim (ma_address a)) <$> recipients))) ++ "|" ++ toLowerCase (trim subject))%string.
(** @src src/src/integrations/mail/tools/rate-limit.ts 118-122 pruneExpired *)
Definition pruneExpired (seen : Seen) (now : Z) : Seen := filter (fun '(_, exp) => negb (exp <=? now) = true) seen.
(** Whether the mail would be a repeat. *)
(** @src src/src/integrations/mail/tools/rate-limit.ts 130-143 checkRecipientDedup *)
Definition checkRecipientDedup (L : MailRateLimits) (seen : Seen) (recipients : list MailAddress) (subject : string) (now : Z) : Seen * bool :=
  if dedupWindowMs L <=? 0 then (seen, false)
  else
    let seen := pruneExpired seen now in
    (seen, match jm_get seen (buildDedupKey recipients subject) with Some exp => negb (exp <=? now) | None => false end).
(** @src src/src/integrations/mail/tools/rate-limit.ts 145-154 recordMailSend *)
Definition recordMailSend (L : MailRateLimits) (seen : Seen) (recipients : list MailAddress) (subject : string) (now : Z) : Seen :=
  if dedupWindowMs L <=? 0 then seen else jm_set seen (buildDedupKey recipients subject) (now + dedupWindowMs L).

(** ** Accounts *)

(** What the code reads of the mail context: each account's stored type, the live connections, the default account. *)
Record MailContext := { accountType : string -> option string; registry : list (string * Provider); default_account : option string }.

(** @src src/src/integrations/mail/provider.ts 396-408 isReceiveOnlyType *)
Definition isReceiveOnlyType (t : string) : bool :=
  bool_decide (t ∈ ["info"; "newsletter"; "notifications"; "abuse"; "privacy"; "security"; "legal"]%string).

(** @src src/src/integrations/mail/send-core.ts 180-190 SendCoreFailureStatus *)
Inductive SendCoreFailureStatus :=
| rate_limit | invalid_recipients | receive_only | account_not_configured | dedup_window | secret_in_body | cancelled | queued | provider_error.
#[export] Instance SendCoreFailureStatus_eq_dec : EqDecision SendCoreFailureStatus.
Proof. solve_decision. Defined.

(** [None] is no lookup at all. *)
(** @src src/src/integrations/mail/send-core.ts 67-85 checkSendAccount *)
Definition checkSendAccount (lookup : option MailContext) (account : string) : result SendCoreFailureStatus (option string) :=
  match lookup with
  | None => Ok None
  | Some ctx =>
      match accountType ctx account with
      | None => Err account_not_configured
      | Some t => if isReceiveOnlyType t then Err receive_only else Ok (Some t)
      end
  end.

Inductive NotFoundError := NoSuchAccount | AmbiguousAccount | NoAccount | MissingDefault.
(** @src src/src/integrations/mail/tools/registry.ts 85-100 findRequested *)
Definition findRequested (ctx : MailContext) (requested : string) : result NotFoundError Provider :=
  match jm_get (registry ctx) requested with
  | Some p => Ok p
  | None =>
      let wanted := toLowerCase (trim requested) in
      match filter (fun p => match p_address p with Some a => bool_decide (toLowerCase (trim a) = wanted) | None => false end = true)
              ((registry ctx).*2) with
      | [p] => Ok p
      | [] => Err NoSuchAccount
      | _ => Err AmbiguousAccount
      end
  end.
(** @src src/src/integrations/mail/tools/registry.ts 59-71 resolveProvider *)
Definition resolveProvider (ctx : MailContext) (requested : option string) : result NotFoundError Provider :=
  if falsy requested then
    if falsy (default_account ctx) then Err NoAccount
    else match jm_get (registry ctx) (default ""%string (default_account ctx)) with Some p => Ok p | None => Err MissingDefault end
  else findRequested ctx (default ""%string requested).

(** ** The shared send *)

(** @src src/src/integrations/mail/send-core.ts 121-134 SendCoreInput *)
Record SendCoreInput := { account : option string; to : list MailAddress; cc : list MailAddress; bcc : list MailAddress;
  in_subject : string; body : string; inReplyTo : option string; references : option string }.
Definition all_recipients (i : SendCoreInput) : list MailAddress := to i ++ cc i ++ bcc i.

(** @src src/src/integrations/mail/send-core.ts 108-108 MASS_SEND_THRESHOLD *)
Definition MASS_SEND_THRESHOLD : nat := 5.
(** @src src/src/integrations/mail/send-core.ts 115-119 recipientSpread *)
Definition recipientSpread (recipients : list MailAddress) : nat * bool :=
  let unique := js_set_of ((fun a => toLowerCase (ma_address a)) <$> recipients) in
  (length unique, (MASS_SEND_THRESHOLD <? length unique)%nat).

(** @src src/src/integrations/mail/send-core.ts 197-205 PreparedSend *)
Record PreparedSend := { ps_provider : Provider; ps_input : SendCoreInput; isMassSend : bool; uniqueRecipientCount : nat }.
(** Prepared, refused by a gate, or thrown (no account matches). *)
Inductive Prepared := IsPrepared (p : PreparedSend) | Refused (s : SendCoreFailureStatus) | ThrewNotFound (e : NotFoundError).

Section Send.
(** [detectSecretInContent] of the text, the limits in force. *)
Context (detectSecret : string -> bool) (L : MailRateLimits).

(** In front of the await. *)
(** @src src/src/integrations/mail/send-core.ts 264-267 prepareSend *)
Definition prepare_start (skipRateLimit : bool) : option SendCoreFailureStatus :=
  if skipRateLimit then None
  else match checkMailRateLimit L mail_send with Some _ => Some rate_limit | None => None end.
(** Behind it. *)
(** @src src/src/integrations/mail/send-core.ts 275-302 prepareSend *)
Definition prepare_gates (ctx : MailContext) (lookup : option MailContext) (seen : Seen) (i : SendCoreInput) (now : Z) : Seen * Prepared :=
  if detectSecret (in_subject i) || detectSecret (body i) then (seen, Refused secret_in_body)
  else match resolveProvider ctx (account i) with
  | Err e => (seen, ThrewNotFound e)
  | Ok provider =>
      match checkSendAccount lookup (p_accountId provider) with
      | Err s => (seen, Refused s)
      | Ok _ =>
          if Nat.eqb (length (to i)) 0 then (seen, Refused invalid_recipients)
          else
            let '(seen, repeat) := checkRecipientDedup L seen (all_recipients i) (in_subject i) now in
            if repeat then (seen, Refused dedup_window)
            else let '(n, mass) := recipientSpread (all_recipients i) in
                 (seen, IsPrepared {| ps_provider := provider; ps_input := i; isMassSend := mass; uniqueRecipientCount := n |})
      end
  end.

Definition reflowed (s : string) : string := unchars (reflowMailBody (chars s)).
(** What a prepared send hands to its provider. *)
(** @src src/src/integrations/mail/send-core.ts 314-328 commitSend *)
Definition send_input (p : PreparedSend) : MailSendInput :=
  let i := ps_input p in
  {| m_to := to i; m_cc := cc i; m_bcc := bcc i; m_subject := in_subject i; m_text := reflowed (body i);
     m_inReplyTo := inReplyTo i; m_references := references i |}.
(** Only a mail that went out blocks its repeats. *)
(** @src src/src/integrations/mail/send-core.ts 330-343 commitSend *)
Definition commit_answer (seen : Seen) (p : PreparedSend) (accepted : bool) (now : Z) : Seen * option SendCoreFailureStatus :=
  if accepted then (recordMailSend L seen (all_recipients (ps_input p)) (in_subject (ps_input p)) now, None)
  else (seen, Some provider_error).

(** *** The reply's own commit *)

(** @src src/src/integrations/mail/tools/mail-reply.ts 127-137 ReplyCommit *)
Record ReplyCommit := { r_to : list MailAddress; r_cc : list MailAddress; r_subject : string; r_body : string;
  r_inReplyTo : option string; r_references : option string; originalThreadKey : string }.
Definition truthy_text (s : option string) : option string := if falsy s then None else s.
(** @src src/src/integrations/mail/tools/mail-reply.ts 362-374 commitReply *)
Definition reply_input (c : ReplyCommit) : MailSendInput :=
  {| m_to := r_to c; m_cc := r_cc c; m_bcc := []; m_subject := r_subject c; m_text := reflowed (r_body c);
     m_inReplyTo := truthy_text (r_inReplyTo c); m_references := truthy_text (r_references c) |}.
(** @src src/src/integrations/mail/tools/mail-reply.ts 376-377 commitReply *)
Definition reply_answer (seen : Seen) (c : ReplyCommit) (now : Z) : Seen := recordMailSend L seen (r_to c ++ r_cc c) (r_subject c) now.
End Send.

(** ** The window and the caps *)

Lemma jm_get_prune (seen : Seen) k now : NoDup (jm_keys seen) ->
  jm_get (pruneExpired seen now) k = match jm_get seen k with Some e => if e <=? now then None else Some e | None => None end.
Proof.
  unfold pruneExpired. induction seen as [|[k' e'] seen IH]; [done|]. intros [Hn Hnd]%NoDup_cons. rewrite filter_cons. specialize (IH Hnd). cbn [jm_get].
  destruct (decide (k' = k)) as [->|Hne]; destruct (Z.le_gt_cases e' now) as [He|He].
  - rewrite decide_False by (rewrite negb_true_iff, Z.leb_gt; lia). rewrite IH, (proj2 (Z.leb_le _ _) He). destruct (jm_get seen k) eqn:E; [|done].
    exfalso. apply Hn, jm_get_is_Some. by eexists.
  - rewrite decide_True by (rewrite negb_true_iff, Z.leb_gt; lia). cbn [jm_get]. rewrite decide_True by done. by rewrite (proj2 (Z.leb_gt _ _)) by lia.
  - by rewrite decide_False by (rewrite negb_true_iff, Z.leb_gt; lia).
  - rewrite decide_True by (rewrite negb_true_iff, Z.leb_gt; lia). cbn [jm_get]. by rewrite decide_False.
Qed.

(** A mail that went out blocks the same recipients, in any order and spelling, with the same subject for exactly the window. *)
Lemma a_repeat_is_blocked L seen rs s rs' s' t now : 0 < dedupWindowMs L -> NoDup (jm_keys seen) -> buildDedupKey rs s = buildDedupKey rs' s' ->
  (checkRecipientDedup L (recordMailSend L seen rs s t) rs' s' now).2 = true <-> now < t + dedupWindowMs L.
Proof.
  intros Hw Hnd Hk. unfold checkRecipientDedup, recordMailSend. rewrite !(proj2 (Z.leb_gt _ _)) by done. cbn [snd]. rewrite <-Hk.
  set (seen' := jm_set _ _ _). assert (jm_get seen' (buildDedupKey rs s) = Some (t + dedupWindowMs L)) as Hg by (unfold seen'; rewrite jm_get_set; by rewrite decide_True).
  rewrite jm_get_prune by (by apply jm_keys_set_NoDup). rewrite Hg. destruct (Z.leb_spec (t + dedupWindowMs L) now); [split; [done|lia]|].
  rewrite negb_true_iff, Z.leb_gt. done.
Qed.

(** The queue's own sends stay below the caps, whatever else was counted. *)
Lemma admits_below L k h d hour day : hourlyLimit L = num_of_Z h -> dailyLimit L = num_of_Z d ->
  (forall c t w, callCount L = Some c -> exists n, c t w = num_of_Z (Z.of_nat n)) ->
  mailSendLimitAdmits L k hour day = true -> Z.of_nat hour < h /\ Z.of_nat day < d.
Proof.
  intros Hh Hd Hc. unfold mailSendLimitAdmits. rewrite Hh, Hd. cbn [isFinite andb].
  assert (forall w, exists n, match callCount L with Some c => c k w | None => num_of_Z 0 end = num_of_Z (Z.of_nat n)) as Hn.
  { intros w. destruct (callCount L) as [c|] eqn:Ec; [by apply (Hc c)|by exists 0%nat]. }
  destruct (Hn 1) as [n1 ->], (Hn 24) as [n2 ->]. cbn [num_add].
  destruct (num_leb _ _) eqn:E1; [done|]. destruct (num_leb (Fin (inject_Z d)) _) eqn:E2; [done|]. intros _.
  apply num_leb_Fin_false in E1, E2. rewrite <-inject_Z_plus, <-Zlt_Qlt in E1, E2. lia.
Qed.
