(* ===== verification/Executor.v ===== *)
(** The approval queue's executor, [core/approval-executor.ts]: it claims one approved entry a tick, checks it again, and
    hands the mail to its provider, under a deadline.

    A process stops at every await. Its parts between awaits are functions here, a state holds the queue's table, each
    process and every attempt any of them ever started, and an action is one part: a tick, an answer that arrives, the
    timer, the write of the outcome, the end of a process, or anything others do to the table meanwhile. The note in the
    thread and the end row of the trail, which nothing reads back, are left out. *)
From coqutil Require Import Datatypes.RecordSetters.
From S2P Require Import Prelude Num JsString JsValue Graph Principal ApprovalStore MailBody Sending.
Import TriangleBracketNotations.
Open Scope Z_scope.

(** @src src/src/core/approval-executor.ts 39-39 CANDIDATES_PER_TICK *)
Definition CANDIDATES_PER_TICK : nat := 200.
(** @src src/src/core/approval-executor.ts 48-48 APPROVAL_SEND_DEADLINE_MS *)
Definition APPROVAL_SEND_DEADLINE_MS : Z := APPROVAL_CLAIM_STALE_MS - 5 * 60000.

(** An outcome and why; the error message some results carry beside the reason is left out. *)
(** @src src/src/core/approval-executor.ts 70-70 Settled *)
Record Settled := { s_outcome : FinishOutcome; s_result : jval }.
Definition because (reason : string) : jval := JObj [("reason"%string, JStr reason)].
(** @src src/src/core/approval-executor.ts 161-161 execute *)
Definition notSent (reason : string) : Settled := {| s_outcome := f_failed; s_result := because reason |}.
(** @src src/src/core/approval-executor.ts 162-162 execute *)
Definition retry (reason : string) : Settled := {| s_outcome := f_retry; s_result := because reason |}.
Definition unclear (reason : string) : Settled := {| s_outcome := f_unknown; s_result := because reason |}.
Definition sent (result : jval) : Settled := {| s_outcome := f_done; s_result := result |}.

Definition status_text (s : SendCoreFailureStatus) : string :=
  match s with
  | rate_limit => "rate_limit" | invalid_recipients => "invalid_recipients" | receive_only => "receive_only"
  | account_not_configured => "account_not_configured" | dedup_window => "dedup_window" | secret_in_body => "secret_in_body"
  | cancelled => "cancelled" | queued => "queued" | provider_error => "provider_error"
  end.
(** @src src/src/core/approval-executor.ts 79-81 FAILS_FOR_GOOD *)
Definition FAILS_FOR_GOOD (s : SendCoreFailureStatus) : bool :=
  match s with provider_error | dedup_window => false | _ => true end.

(** @src src/src/core/approval-executor.ts 73-76 deciderKind *)
Definition deciderKind (decidedBy : option string) : string :=
  if bool_decide (decidedBy = Some "owner"%string) then "owner"
  else if isMandateTag decidedBy then "mandate" else "unknown".

(** Who an entry was filed for. *)
(** @src src/src/core/prompt-store.ts 271-275 principalOfPrompt *)
Definition principalOfPrompt (created_by mandate_id : option string) : RequestPrincipal :=
  if negb (isMandateTag created_by) then Owner
  else match principalFromTag created_by, mandate_id with
       | Mandate email _ exp, Some i => Mandate email (Some i) exp
       | p, _ => p
       end.

(** ** The mail of an entry *)

Definition prop_text (v : jval) (k : string) : string := match js_prop v k with JStr s => s | _ => ""%string end.
Definition opt_text (v : jval) (k : string) : option string := match js_prop v k with JStr s => Some s | _ => None end.
(** @src src/src/core/approval-executor.ts 282-284 toMailAddress *)
Definition toMailAddress (a : jval) : MailAddress := {| ma_name := opt_text a "name"; ma_address := prop_text a "address" |}.
Definition addresses (v : jval) (k : string) : list MailAddress := match js_prop v k with JArr l => toMailAddress <$> l | _ => [] end.

(** @src src/src/core/approval-executor.ts 201-205 execute *)
Definition reply_of (p : jval) : ReplyCommit :=
  {| r_to := addresses p "to"; r_cc := addresses p "cc"; r_subject := prop_text p "subject"; r_body := prop_text p "bodyText";
     r_inReplyTo := opt_text p "inReplyTo"; r_references := opt_text p "references"; originalThreadKey := prop_text p "originalThreadKey" |}.
(** @src src/src/core/approval-executor.ts 208-210 execute *)
Definition send_of (p : jval) : SendCoreInput :=
  {| account := Some (prop_text p "accountId"); to := addresses p "to"; cc := addresses p "cc"; bcc := addresses p "bcc";
     in_subject := prop_text p "subject"; body := prop_text p "bodyText"; inReplyTo := None; references := None |}.

(** ** Attempts and processes *)

(** Where the work on an entry waits: for the sending address, for the send's own import, for the provider, for the inbox
    behind a reply that went out; or nowhere. *)
Inductive Stage :=
| Resolving (p : Provider)
| Importing
| Replying (c : ReplyCommit)
| Committing (p : PreparedSend)
| Notifying
| Over.

(** @src src/src/core/approval-executor.ts 51-54 Attempt *)
Record Attempt := {
  engine : nat;
  entry : Row;
  deadlinePassed : bool;
  sending : bool;
  stage : Stage;
  (** What the race of the work and the deadline gave. *)
  settled : option Settled;
  (** The outcome is written; the process still lives. *)
  concluded : bool;
  alive : bool;
}.
(** What lives in a process: the mails it sent lately, whether a tick runs. *)
Record Process := { seen : Seen; running : bool }.
Definition new_process : Process := {| seen := []; running := false |}.
(** A mail given to a provider: by which attempt, and what. *)
Record Handover := { h_attempt : nat; h_entry : string; h_provider : Provider; h_mail : MailSendInput }.

(** The world around a part: the mail context, who is live, the outward trail (whether its row can be written), the limits. *)
(** @src src/src/core/approval-executor.ts 56-65 ApprovalExecutorDeps *)
Record Env := { mail : option MailContext; isMandateLive : string -> bool; audit : option bool; limits : MailRateLimits }.

Record World := { ops : list Op; procs : gmap nat Process; attempts : list Attempt; outbox : list Handover }.
Definition process_of (w : World) (e : nat) : Process := default new_process (procs w !! e).

Section Executor.
Context (keyedHash : list string -> string) (hashIsKeyed : bool) (sha256 : string -> string) (JSON_parse : string -> option jval).
Context (detectSecret : string -> bool).

Abbreviation run := (ApprovalStore.run keyedHash hashIsKeyed sha256 JSON_parse).
Definition table (w : World) : list Row := run (ops w).

(** [entry.filing], [entry.origin]. *)
Definition filing_of (r : Row) : option jval := if readFiling JSON_parse (kind (filed r)) (payload_json r) then payload_json r ≫= JSON_parse else None.
Definition origin_of (r : Row) : option jval := readOrigin JSON_parse (origin_json (filed r)).
Definition filer (r : Row) : RequestPrincipal := principalOfPrompt (created_by (filed r)) (mandate_id (filed r)).

(** *** The work on one entry *)

(** Up to the first await. *)
(** @src src/src/core/approval-executor.ts 163-174 execute *)
Definition check_entry (t : list Row) (env : Env) (r : Row) : result Settled Provider :=
  match filing_of r, origin_of r with
  | Some p, Some _ =>
      if negb (checksumMatches keyedHash t (row_id r)) then Err (notSent "checksum")
      else if principalHasEnded (filer r) (isMandateLive env) then Err (notSent "mandate_ended")
      else match mail env with
      | None => Err (retry "mail_unavailable")
      | Some ctx =>
          match checkSendAccount (Some ctx) (prop_text p "accountId") with
          | Err s => Err (notSent (status_text s))
          | Ok _ => match jm_get (registry ctx) (prop_text p "accountId") with
                    | None => Err (notSent "account_not_configured")
                    | Some provider => Ok provider
                    end
          end
      end
  | _, _ => Err (notSent "not_executable")
  end.

(** The [attempt] row of the outward trail: whether the mail may go. *)
(** @src src/src/core/approval-executor.ts 231-251 beginTrail *)
Definition beginTrail (env : Env) (r : Row) : bool :=
  match audit env with
  | None => isOwnerPrincipal (filer r)
  | Some writes => writes
  end.

(** What the part behind the sending address leads to. *)
Inductive Ready := Stops (s : Settled) | Replies (c : ReplyCommit) | Sends.

(** Behind the sending address ([None]: it could not be read), up to the send. *)
(** @src src/src/core/approval-executor.ts 175-196 execute *)
Definition before_send (env : Env) (seen : Seen) (a : Attempt) (address : option string) (now : Z) : Seen * Ready :=
  match filing_of (entry a), address with
  | None, _ => (seen, Stops (notSent "not_executable"))
  | _, None => (seen, Stops (retry "sending_address_unavailable"))
  | Some p, Some address =>
      if negb (bool_decide (toLowerCase (trim address) = toLowerCase (trim (prop_text p "fromAddress")))) then (seen, Stops (notSent "account_changed"))
      else
        let '(seen, repeat) := match kind (filed (entry a)) with
          | mail_reply => checkRecipientDedup (limits env) seen (addresses p "to" ++ addresses p "cc") (prop_text p "subject") now
          | mail_send => (seen, false)
          end in
        if repeat then (seen, Stops (retry "dedup_window"))
        else if deadlinePassed a then (seen, Stops (retry "deadline_before_send"))
        else if negb (beginTrail env (entry a)) then (seen, Stops (retry "trail_unavailable"))
        else (seen, match kind (filed (entry a)) with mail_reply => Replies (reply_of p) | mail_send => Sends end)
  end.

(** What a send that did not happen settles. *)
(** @src src/src/core/approval-executor.ts 213-215 execute *)
Definition refused (s : SendCoreFailureStatus) : Settled :=
  if bool_decide (s = dedup_window) then retry "dedup_window"
  else if FAILS_FOR_GOOD s then notSent (status_text s) else unclear (status_text s).

(** *** Ticks *)

(** The candidates in turn until one is claimed. A held kind is stamped and the list asked for again without it; with two
    kinds that happens twice at most. *)
(** @src src/src/core/approval-executor.ts 102-127 tickOnce *)
Fixpoint try_candidates (restarts : nat) (env : Env) (now : Z) (heldKinds : list ApprovalKind) (log : list Op) : list Op * option Row :=
  let retryDelay := Z.max APPROVAL_RETRY_DELAY_MS (dedupWindowMs (limits env)) in
  (fix go (log : list Op) (candidates : list (string * ApprovalKind)) : list Op * option Row :=
     match candidates with
     | [] => (log, None)
     | (i, k) :: candidates =>
         let admits := Some (mailSendLimitAdmits (limits env) k) in
         match (claim JSON_parse (run log) i now admits).2 with
         | Claimed r => (log ++ [OClaim i now admits], Some r)
         | ClaimHeld =>
             let log := log ++ [OClaim i now admits; OHoldKind k now] in
             match restarts with
             | O => (log, None)
             | S restarts => try_candidates restarts env now (k :: heldKinds) log
             end
         | _ => go (log ++ [OClaim i now admits]) candidates
         end
     end) log (executable (run log) now CANDIDATES_PER_TICK retryDelay heldKinds).

Definition start_attempt (e : nat) (t : list Row) (env : Env) (r : Row) : Attempt :=
  let '(st, s) := match check_entry t env r with Ok p => (Resolving p, None) | Err s => (Over, Some s) end in
  {| engine := e; entry := r; deadlinePassed := false; sending := false; stage := st; settled := s; concluded := false; alive := true |}.

(** @src src/src/core/approval-executor.ts 91-128 tick *)
Definition tick (w : World) (e : nat) (env : Env) (now : Z) : World :=
  let p := process_of w e in
  if running p then w
  else match try_candidates 2 env now [] (ops w) with
  | (log, None) => w <| ops := log |>
  | (log, Some r) =>
      {| ops := log; procs := <[e := p <| running := true |>]> (procs w);
         attempts := attempts w ++ [start_attempt e (run log) env r]; outbox := outbox w |}
  end.

(** *** The parts behind the awaits *)

(** The work on the attempt is over; the race keeps what it had first. *)
Definition settle (s : Settled) (a : Attempt) : Attempt :=
  a <| stage := Over |> <| settled := Some (default s (settled a)) |>.
Definition put (w : World) (k : nat) (a : Attempt) : World := w <| attempts := <[k := a]> (attempts w) |>.
Definition put_seen (w : World) (e : nat) (s : Seen) : World := w <| procs := <[e := (process_of w e) <| seen := s |>]> (procs w) |>.
Definition hand_over (w : World) (k : nat) (a : Attempt) (p : Provider) (m : MailSendInput) : World :=
  w <| outbox := outbox w ++ [{| h_attempt := k; h_entry := row_id (entry a); h_provider := p; h_mail := m |}] |>.

(** @src src/src/core/approval-executor.ts 175-211 execute *)
Definition addressed (w : World) (k : nat) (a : Attempt) (p : Provider) (env : Env) (address : option string) (now : Z) : World :=
  let '(s, ready) := before_send env (seen (process_of w (engine a))) a address now in
  let w := put_seen w (engine a) s in
  match ready with
  | Stops s => put w k (settle s a)
  | Replies c =>
      let a := a <| sending := true |> <| stage := Replying c |> in
      hand_over (put w k a) k a p (reply_input c)
  | Sends => put w k (a <| sending := true |> <| stage := Importing |>)
  end.

(** @src src/src/core/approval-executor.ts 206-215 execute *)
Definition imported (w : World) (k : nat) (a : Attempt) (ctx : MailContext) (L : MailRateLimits) (now : Z) : World :=
  match filing_of (entry a) with
  | None => w
  | Some p =>
      let '(s, prepared) := prepare_gates detectSecret L ctx (Some ctx) (seen (process_of w (engine a))) (send_of p) now in
      let w := put_seen w (engine a) s in
      match prepared with
      | ThrewNotFound _ => put w k (settle (unclear "send_threw") a)
      | Refused s => put w k (settle (refused s) a)
      | IsPrepared ps =>
          let a := a <| stage := Committing ps |> in
          hand_over (put w k a) k a (ps_provider ps) (send_input ps)
      end
  end.

(** [None]: the provider failed. *)
(** @src src/src/core/approval-executor.ts 200-220 execute *)
Definition answered (w : World) (k : nat) (a : Attempt) (L : MailRateLimits) (messageId : option string) (now : Z) : World :=
  let s := seen (process_of w (engine a)) in
  match stage a, messageId with
  | Replying c, Some _ => put (put_seen w (engine a) (reply_answer L s c now)) k (a <| stage := Notifying |>)
  | Replying _, None => put w k (settle (unclear "send_threw") a)
  | Committing ps, _ =>
      let '(s, failure) := commit_answer L s ps (bool_decide (is_Some messageId)) now in
      put (put_seen w (engine a) s) k
        (settle (match failure with
                 | Some f => refused f
                 | None => sent (JObj [("messageId"%string, JStr (default ""%string messageId))])
                 end) a)
  | _, _ => w
  end.

(** The timer, unless the race is over. *)
(** @src src/src/core/approval-executor.ts 138-158 withinDeadline *)
Definition deadline (a : Attempt) : Attempt :=
  match settled a with
  | Some _ => a
  | None => a <| deadlinePassed := true |>
              <| settled := Some (if sending a then unclear "send_timeout" else retry "deadline_before_send") |>
  end.

(** @src src/src/core/approval-executor.ts 128-132 tickOnce *)
Definition conclude (w : World) (k : nat) (a : Attempt) (s : Settled) (now : Z) : World :=
  {| ops := ops w ++ [OFinish (row_id (entry a)) (s_outcome s) (s_result s) now];
     procs := <[engine a := (process_of w (engine a)) <| running := false |>]> (procs w);
     attempts := <[k := a <| concluded := true |>]> (attempts w); outbox := outbox w |}.

(** *** Everything that may happen next *)

Inductive Action :=
| Outside (op : Op)
| Tick (e : nat) (env : Env) (now : Z)
| Address (k : nat) (env : Env) (address : option string) (now : Z)
| Imported (k : nat) (ctx : MailContext) (L : MailRateLimits) (now : Z)
| Answered (k : nat) (L : MailRateLimits) (messageId : option string) (now : Z)
| Notified (k : nat)
| Deadline (k : nat)
| Conclude (k : nat) (now : Z)
| Crash (e : nat).

(** Claims, outcomes and holds of a kind are the executor's. *)
Definition is_outside (op : Op) : bool := match op with OClaim _ _ _ | OFinish _ _ _ _ | OHoldKind _ _ => false | _ => true end.

Definition act (w : World) (x : Action) : World :=
  let on k (f : Attempt -> World) := match attempts w !! k with Some a => if alive a then f a else w | None => w end in
  match x with
  | Outside op => if is_outside op then w <| ops := ops w ++ [op] |> else w
  | Tick e env now => tick w e env now
  | Address k env address now => on k (fun a => match stage a with Resolving p => addressed w k a p env address now | _ => w end)
  | Imported k ctx L now => on k (fun a => match stage a with Importing => imported w k a ctx L now | _ => w end)
  | Answered k L messageId now => on k (fun a => answered w k a L messageId now)
  | Notified k => on k (fun a => match stage a with Notifying => put w k (settle (sent (JObj [])) a) | _ => w end)
  | Deadline k => on k (fun a => put w k (deadline a))
  | Conclude k now => on k (fun a => match settled a with
                                     | Some s => if concluded a then w else conclude w k a s now
                                     | None => w
                                     end)
  | Crash e => w <| procs := <[e := new_process]> (procs w) |>
                 <| attempts := (fun a => if decide (engine a = e) then a <| alive := false |> else a) <$> attempts w |>
  end.
Definition start : World := {| ops := []; procs := ∅; attempts := []; outbox := [] |}.
Definition played (l : list Action) : World := foldl act start l.
End Executor.
