(* ===== verification/ExecutorLaws.v ===== *)
(** What the executor of the approval queue guarantees, over every interleaving of ticks of any number of processes,
    answers, timers, crashes and everything else done to the table: a mail is handed to a provider at most once, the
    status of an entry says whether it was, and what was handed over is what the owner approved. *)
From coqutil Require Import Datatypes.RecordSetters.
From S2P Require Import Prelude Num JsString JsValue Graph Principal ApprovalStore MailBody Sending Executor.
Import TriangleBracketNotations.
Open Scope Z_scope.

Section Laws.
Context (keyedHash : list string -> string) (hashIsKeyed : bool) (sha256 : string -> string) (JSON_parse : string -> option jval).
Context (detectSecret : string -> bool).
Abbreviation run := (ApprovalStore.run keyedHash hashIsKeyed sha256 JSON_parse).
Abbreviation step := (ApprovalStore.step keyedHash hashIsKeyed sha256 JSON_parse).
Abbreviation act := (Executor.act keyedHash hashIsKeyed sha256 JSON_parse detectSecret).
Abbreviation played := (Executor.played keyedHash hashIsKeyed sha256 JSON_parse detectSecret).

(** ** What holds of every attempt *)

(** The attempt [k] handed its mail over. *)
Definition given (ob : list Handover) (k : nat) : Prop := k ∈ h_attempt <$> ob.
(** It did not and never will. *)
Definition dead (ob : list Handover) (k : nat) (a : Attempt) : Prop :=
  ~ given ob k /\ (stage a = Over \/ (exists p, stage a = Resolving p) /\ deadlinePassed a = true).
(** The race is open, or the deadline found the send begun. *)
Definition undecided (a : Attempt) : Prop := Executor.settled a = None \/ exists s, Executor.settled a = Some s /\ s_outcome s = f_unknown.

Definition attempt_ok (ob : list Handover) (k : nat) (a : Attempt) : Prop :=
  match stage a with
  | Resolving _ => ~ given ob k /\ sending a = false /\
      (Executor.settled a = None /\ deadlinePassed a = false \/
       deadlinePassed a = true /\ exists s, Executor.settled a = Some s /\ s_outcome s = f_retry)
  | Importing => ~ given ob k /\ sending a = true /\ undecided a
  | Replying _ | Committing _ | Notifying => given ob k /\ sending a = true /\ undecided a
  | Over => exists s, Executor.settled a = Some s /\
      match s_outcome s with f_failed | f_retry => ~ given ob k | f_done => given ob k | f_unknown => True end
  end.

Lemma not_sent_is_dead ob k a s : attempt_ok ob k a -> Executor.settled a = Some s -> s_outcome s = f_failed \/ s_outcome s = f_retry -> dead ob k a.
Proof.
  intros Ha Hs Ho. unfold attempt_ok, undecided in Ha. unfold dead.
  destruct (stage a) as [p| | | | |]; try (destruct Ha as (_ & _ & [Hn|(s' & Hs' & Ho')]); rewrite Hs in *; [done|]; injection Hs' as <-; destruct Ho; congruence).
  - destruct Ha as (Hg & _ & [[Hn _]|[Hd _]]); [congruence|]. split; [done|]. right. split; [by exists p|done].
  - destruct Ha as (s' & Hs' & Ha). rewrite Hs in Hs'. injection Hs' as <-. split; [destruct Ho as [-> | ->] in Ha; by rewrite ?Ho in *|by left].
Qed.

Lemma sent_is_given ob k a s : attempt_ok ob k a -> Executor.settled a = Some s -> s_outcome s = f_done -> given ob k.
Proof.
  intros Ha Hs Ho. unfold attempt_ok, undecided in Ha.
  destruct (stage a); try (destruct Ha as (_ & _ & [Hn|(s' & Hs' & Ho')]); rewrite Hs in *; [done|]; injection Hs' as <-; congruence).
  - destruct Ha as (_ & _ & [[Hn _]|[_ (s' & Hs' & Ho')]]); [congruence|]. rewrite Hs in Hs'. injection Hs' as <-. congruence.
  - destruct Ha as (s' & Hs' & Ha). rewrite Hs in Hs'. injection Hs' as <-. by rewrite Ho in Ha.
Qed.

(** ** What holds of every state *)

Definition id_of (a : Attempt) : string := row_id (Executor.entry a).
(** Whatever is asked of all attempts on one entry. *)
Definition all_of (atts : list Attempt) (i : string) (P : nat -> Attempt -> Prop) : Prop :=
  forall k a, atts !! k = Some a -> id_of a = i -> P k a.

(** What a row's status says of the attempts on it. *)
Definition status_ok (atts : list Attempt) (ob : list Handover) (i : string) (s : ApprovalStatus) : Prop :=
  match s with
  | pending | approved => all_of atts i (fun k a => dead ob k a /\ concluded a = true)
  | failed | expired => all_of atts i (fun k a => dead ob k a)
  | executing => all_of atts i (fun k a => concluded a = true -> dead ob k a)
  | done_ => exists k a, atts !! k = Some a /\ id_of a = i /\ given ob k
  | unknown | rejected => True
  end.

Record consistent (log : list Op) (atts : list Attempt) (ob : list Handover) : Prop := {
  c_attempts : forall k a, atts !! k = Some a -> attempt_ok ob k a;
  c_rows : forall r, r ∈ run log -> status_ok atts ob (row_id r) (row_status r);
  c_open : forall k1 k2 a1 a2, atts !! k1 = Some a1 -> atts !! k2 = Some a2 -> id_of a1 = id_of a2 ->
    concluded a1 = false -> concluded a2 = false -> k1 = k2;
  c_live : forall k1 k2 a1 a2, atts !! k1 = Some a1 -> atts !! k2 = Some a2 -> id_of a1 = id_of a2 ->
    ~ dead ob k1 a1 -> ~ dead ob k2 a2 -> k1 = k2;
  c_filed : forall k a, atts !! k = Some a -> id_of a ∈ filed_ids log;
  c_outbox : forall h, h ∈ ob -> exists a, atts !! h_attempt h = Some a /\ id_of a = h_entry h;
  c_once : NoDup (h_attempt <$> ob);
}.

(** ** Every action keeps it *)

Lemma dead_mono (ob ob' : list Handover) k a : (given ob' k -> given ob k) -> dead ob k a -> dead ob' k a.
Proof. intros H [Hg Hs]. split; [tauto|done]. Qed.

(** Moves of a status that are not the executor's. *)
Definition mild (s s' : ApprovalStatus) : Prop :=
  s' = s \/ (s = pending /\ s' = approved) \/ s' = rejected \/ s' = unknown \/ ((s = pending \/ s = approved) /\ s' = expired).

Lemma status_mild atts ob i s s' : mild s s' -> status_ok atts ob i s -> status_ok atts ob i s'.
Proof.
  intros [->|[[-> ->]|[-> |[-> |[[-> | ->] ->]]]]]; try done; intros H k a Hk Hi; by destruct (H k a Hk Hi).
Qed.

Lemma row_step_mild op r r' : match op with OClaim _ _ _ | OFinish _ _ _ _ => False | _ => True end ->
  row_step keyedHash JSON_parse op r (Some r') -> mild (row_status r) (row_status r').
Proof.
  intros Hop H. remember (Some r') as after eqn:E. unfold mild. destruct H; try done; try (injection E as <-; by left);
    try (injection E as <-; cbn; tauto); injection E as ->; subst; cbn; tauto.
Qed.

Lemma consistent_mild log op atts ob :
  (forall r', r' ∈ step (run log) op ->
     (exists r, r ∈ run log /\ row_id r' = row_id r /\ mild (row_status r) (row_status r')) \/
     (row_status r' = pending /\ row_id r' ∉ filed_ids log)) ->
  consistent log atts ob -> consistent (log ++ [op]) atts ob.
Proof.
  intros Hrows []. split; try done.
  - intros r' Hr'. rewrite run_snoc in Hr'. apply Hrows in Hr' as [(r & Hr & -> & Hm)|[-> Hfresh]].
    + eapply status_mild; [done|by apply c_rows0].
    + intros k a Hk Hi. exfalso. apply Hfresh. rewrite <-Hi. by eapply c_filed0.
  - intros k a Hk. rewrite filed_ids_snoc. apply elem_of_app. left. by eapply c_filed0.
Qed.

Lemma run_facts log : NoDup (filed_ids log) -> NoDup (ids (run log)) /\ forall i, i ∈ ids (run log) -> i ∈ filed_ids log.
Proof. apply run_ids. Qed.

Lemma plain_op_consistent log op atts ob : match op with OClaim _ _ _ | OFinish _ _ _ _ => False | _ => True end ->
  NoDup (filed_ids (log ++ [op])) -> consistent log atts ob -> consistent (log ++ [op]) atts ob.
Proof.
  intros Hop Hnd. apply consistent_mild. intros r' Hr'. destruct (run_facts log (NoDup_snoc _ _ Hnd)) as [Hn _].
  apply step_row in Hr' as [(r & Hr & Hst)|(i & inp & now & -> & -> & _)]; [..|done].
  - left. exists r. split; [done|]. split; [by eapply row_step_id|by eapply row_step_mild].
  - right. split; [done|]. rewrite filed_ids_snoc in Hnd. apply NoDup_app in Hnd as (_ & Hd & _). cbn. intros Hin. by apply (Hd i Hin), list_elem_of_singleton.
Qed.

Lemma update_mild log op atts ob i s f : step (run log) op = (update_where i s f (run log)).1 ->
  (forall r, row_id (f r) = row_id r /\ row_status (f r) = row_status r) -> consistent log atts ob -> consistent (log ++ [op]) atts ob.
Proof.
  intros Hs Hf Hco. eapply consistent_mild; [|exact Hco]. rewrite Hs. intros r' (r & Hr & Hc)%(in_update_where sha256 JSON_parse). left. exists r. split; [done|].
  destruct Hc as [(_ & _ & ->)|[-> _]]; [destruct (Hf r) as [-> ->]|]; (split; [done|by left]).
Qed.

Lemma lost_claim_consistent log i now cap atts ob : NoDup (filed_ids log) ->
  (forall r, (claim JSON_parse (run log) i now cap).2 <> Claimed r) -> consistent log atts ob -> consistent (log ++ [OClaim i now cap]) atts ob.
Proof.
  intros Hnd Hlost Hc. destruct (run_facts log Hnd) as [Hn _].
  destruct (claim_cases JSON_parse (run log) i now cap Hn) as [[[Ht|Ht] _]|(r & _ & _ & _ & _ & _ & _ & E)].
  - eapply consistent_mild; [|done]. cbn [ApprovalStore.step]. rewrite Ht. intros r' Hr'. left. exists r'. split_and!; [done..|by left].
  - eapply update_mild; [exact Ht| |done]. by intros r.
  - rewrite E in Hlost. by destruct (Hlost (claimed now r)).
Qed.

(** An attempt moves on. *)
Lemma moved_consistent log atts ob ob' k a a' : consistent log atts ob -> atts !! k = Some a ->
  Executor.entry a' = Executor.entry a -> concluded a' = concluded a ->
  (ob' = ob \/ exists h, ob' = ob ++ [h] /\ h_attempt h = k /\ h_entry h = id_of a /\ ~ given ob k) ->
  attempt_ok ob' k a' -> (dead ob k a -> dead ob' k a') -> consistent log (<[k := a']> atts) ob'.
Proof.
  intros [] Hk He Hcon Hob Hok Hdead. assert (id_of a' = id_of a) as Hid by (unfold id_of; by rewrite He).
  assert (forall j, j <> k -> given ob' j <-> given ob j) as Hgiven.
  { intros j Hj. destruct Hob as [->|(h & -> & Hh & _)]; [done|]. unfold given. rewrite fmap_app, elem_of_app. cbn. rewrite list_elem_of_singleton. naive_solver. }
  assert (forall j, given ob j -> given ob' j) as Hmono.
  { intros j. destruct Hob as [->|(h & -> & _)]; [done|]. unfold given. rewrite fmap_app. set_solver. }
  assert (forall j x, <[k:=a']> atts !! j = Some x -> j = k /\ x = a' \/ j <> k /\ atts !! j = Some x) as Hlook.
  { intros j x Hj. destruct (decide (j = k)) as [->|Hne]; [left|right; by rewrite list_lookup_insert_ne in Hj].
    rewrite list_lookup_insert_eq in Hj by (by eapply lookup_lt_Some). by injection Hj. }
  assert (forall j x, <[k:=a']> atts !! j = Some x -> exists y, atts !! j = Some y /\ id_of x = id_of y /\ concluded x = concluded y /\ (dead ob j y -> dead ob' j x)) as Hback.
  { intros j x [[-> ->]|[Hne Hj]]%Hlook; [by exists a|]. exists x. split_and!; try done. apply dead_mono. by apply Hgiven. }
  split.
  - intros j x [[-> ->]|[Hne Hj]]%Hlook; [done|]. specialize (c_attempts0 j x Hj). unfold attempt_ok in *. destruct (stage x); rewrite ?Hgiven by done; try done.
    destruct c_attempts0 as (s & Hs & Ho). exists s. split; [done|]. by destruct (s_outcome s); rewrite ?Hgiven.
  - intros r Hr. specialize (c_rows0 r Hr).
    assert (forall P Q : nat -> Attempt -> Prop, (forall j x y, P j y -> id_of x = id_of y -> concluded x = concluded y -> (dead ob j y -> dead ob' j x) -> Q j x) ->
      all_of atts (row_id r) P -> all_of (<[k:=a']> atts) (row_id r) Q) as Hall.
    { intros P Q HPQ HP j x Hj Hi. destruct (Hback j x Hj) as (y & Hy & Hiy & Hcy & Hd). eapply HPQ; [apply HP; [exact Hy|congruence]|done..]. }
    destruct (row_status r); cbn [status_ok] in *; try done; try (revert c_rows0; apply Hall; intros j x y Hx _ Hcc Hd; rewrite ?Hcc; tauto).
    destruct c_rows0 as (j & y & Hj & Hi & Hg). destruct (decide (j = k)) as [->|Hne].
    + exists k, a'. rewrite list_lookup_insert_eq by (by eapply lookup_lt_Some). split_and!; [done|congruence|by apply Hmono].
    + exists j, y. rewrite list_lookup_insert_ne by done. split_and!; [done..|by apply Hmono].
  - intros k1 k2 x1 x2 H1 H2 Hi Hc1 Hc2. destruct (Hback _ _ H1) as (y1 & Hy1 & Hi1 & Hcc1 & _). destruct (Hback _ _ H2) as (y2 & Hy2 & Hi2 & Hcc2 & _).
    apply (c_open0 k1 k2 y1 y2); congruence.
  - intros k1 k2 x1 x2 H1 H2 Hi Hc1 Hc2. destruct (Hback _ _ H1) as (y1 & Hy1 & Hi1 & _ & Hd1). destruct (Hback _ _ H2) as (y2 & Hy2 & Hi2 & _ & Hd2).
    apply (c_live0 k1 k2 y1 y2); try done; [congruence|tauto|tauto].
  - intros j x (y & Hy & -> & _)%Hback. by eapply c_filed0.
  - intros h Hh. assert (exists y, atts !! h_attempt h = Some y /\ id_of y = h_entry h) as (y & Hy & Hi).
    { destruct Hob as [->|(h' & -> & Hh' & He' & _)]; [by apply c_outbox0|]. apply elem_of_app in Hh as [Hh|Hh]; [by apply c_outbox0|].
      apply list_elem_of_singleton in Hh as ->. exists a. by rewrite Hh'. }
    destruct (decide (h_attempt h = k)) as [Heq|Hne]; [rewrite Heq in *|exists y; by rewrite list_lookup_insert_ne].
    exists a'. rewrite list_lookup_insert_eq by (by eapply lookup_lt_Some). split; [done|congruence].
  - destruct Hob as [->|(h & -> & Hh & _ & Hg)]; [done|]. rewrite fmap_app. apply NoDup_app. split_and!; [done| |apply NoDup_singleton].
    intros x Hx Hx'%list_elem_of_singleton. apply Hg. unfold given. congruence.
Qed.

(** What an outcome claims about the mail. *)
Definition fits (ob : list Handover) (k : nat) (s : Settled) : Prop :=
  match s_outcome s with f_failed | f_retry => ~ given ob k | f_done => given ob k | f_unknown => True end.

Lemma settle_ok ob k a s : attempt_ok ob k a -> (Executor.settled a = None -> fits ob k s) ->
  attempt_ok ob k (settle s a) /\ (dead ob k a -> dead ob k (settle s a)).
Proof.
  intros Ha Hs. destruct a as [e r d sd st se co al]. unfold settle, dead. cbn in *. split; [|intros [Hg _]; split; [done|by left]].
  exists (default s se). split; [done|]. unfold fits in *. unfold attempt_ok, undecided in Ha. cbn in Ha.
  destruct se as [s0|]; [|by apply Hs]. change (default s (Some s0)) with s0.
  destruct st; try (destruct Ha as (_ & _ & [?|(s' & Hs' & Ho')]); [done|]; injection Hs' as ->; by rewrite Ho').
  - destruct Ha as (Hg & _ & [[? _]|[_ (s' & Hs' & Ho')]]); [done|]. injection Hs' as ->. by rewrite Ho'.
  - destruct Ha as (s' & Hs' & Ha). by injection Hs' as ->.
Qed.

(** The world [w'] is [w] with the attempt [k] moved on. *)
Definition moves (w w' : World) (k : nat) (a : Attempt) : Prop :=
  ops w' = ops w /\ exists a', attempts w' = <[k := a']> (attempts w) /\ Executor.entry a' = Executor.entry a /\ concluded a' = concluded a /\
    (outbox w' = outbox w \/
     exists h, outbox w' = outbox w ++ [h] /\ h_attempt h = k /\ h_entry h = id_of a /\ ~ given (outbox w) k) /\
    attempt_ok (outbox w') k a' /\ (dead (outbox w) k a -> dead (outbox w') k a').

Lemma moves_settle w e sn k a s : attempt_ok (outbox w) k a -> (Executor.settled a = None -> fits (outbox w) k s) ->
  moves w (put (put_seen w e sn) k (settle s a)) k a.
Proof.
  intros Ha Hs. destruct (settle_ok _ _ _ _ Ha Hs) as [H1 H2]. destruct w as [lg pr ats ob]. split; [done|]. exists (settle s a).
  destruct a. split_and!; try done. by left.
Qed.
Lemma moves_settle' w k a s : attempt_ok (outbox w) k a -> (Executor.settled a = None -> fits (outbox w) k s) ->
  moves w (put w k (settle s a)) k a.
Proof.
  intros Ha Hs. destruct (settle_ok _ _ _ _ Ha Hs) as [H1 H2]. destruct w as [lg pr ats ob]. split; [done|]. exists (settle s a).
  destruct a. split_and!; try done. by left.
Qed.

Lemma given_now ob k h : h_attempt h = k -> given (ob ++ [h]) k.
Proof. intros <-. unfold given. rewrite fmap_app. set_solver. Qed.

Lemma before_send_unbarred env sn a address now sn' ready :
  before_send JSON_parse env sn a address now = (sn', ready) ->
  match ready with
  | Stops s => s_outcome s = f_failed \/ s_outcome s = f_retry
  | Replies _ | Sends => deadlinePassed a = false
  end.
Proof.
  unfold before_send. destruct (filing_of JSON_parse (Executor.entry a)) as [p|]; [|intros [= <- <-]; by left].
  destruct address as [ad|]; [|intros [= <- <-]; by right]. case_bool_decide; cbn [negb]; [|intros [= <- <-]; by left].
  destruct (match kind _ with mail_reply => _ | mail_send => _ end) as [sn1 repeat]. destruct repeat; [intros [= <- <-]; by right|].
  destruct (deadlinePassed a); [intros [= <- <-]; by right|]. destruct (beginTrail env (Executor.entry a)); cbn [negb]; [|intros [= <- <-]; by right].
  intros [= <- <-]. by destruct (kind _).
Qed.

Lemma addressed_moves w k a p env address now : stage a = Resolving p -> attempt_ok (outbox w) k a ->
  moves w (addressed JSON_parse w k a p env address now) k a.
Proof.
  intros Hst Ha. unfold addressed. destruct (before_send _ _ _ _ _ _) as [sn ready] eqn:Hb. apply before_send_unbarred in Hb.
  pose proof Ha as Ha'. unfold attempt_ok in Ha'. rewrite Hst in Ha'. destruct Ha' as (Hg & Hsd & Hrace).
  destruct ready as [s|c|].
  - apply moves_settle; [done|]. intros _. unfold fits. destruct Hb as [-> | ->]; done.
  - destruct Hrace as [[Hn _]|[Hd _]]; [|congruence]. destruct w as [lg pr ats ob], a as [e r d sd st se co al]. cbn in *. subst.
    split; [done|]. eexists. split_and!; [done..| | |].
    + right. eexists. split_and!; done.
    + unfold attempt_ok. cbn. split_and!; [by apply given_now|done|by left].
    + intros [_ [?|[_ ?]]]; done.
  - destruct Hrace as [[Hn _]|[Hd _]]; [|congruence]. destruct w as [lg pr ats ob], a as [e r d sd st se co al]. cbn in *. subst.
    split; [done|]. eexists. split_and!; [done..|by left| |].
    + unfold attempt_ok. cbn. split_and!; [done|done|by left].
    + intros [_ [?|[_ ?]]]; done.
Qed.

Lemma refused_never_sent s : s <> provider_error -> s_outcome (Executor.refused s) = f_failed \/ s_outcome (Executor.refused s) = f_retry.
Proof. destruct s; cbn; tauto. Qed.

Lemma prepare_gates_refuses L ctx lookup sn i now sn' s : prepare_gates detectSecret L ctx lookup sn i now = (sn', Refused s) -> s <> provider_error.
Proof.
  unfold prepare_gates. destruct (_ || _); [by intros [= <- <-]|]. destruct (resolveProvider _ _); [|done].
  unfold checkSendAccount. destruct lookup as [c|].
  - destruct (accountType c _); [|by intros [= <- <-]]. destruct (isReceiveOnlyType _); [by intros [= <- <-]|].
    destruct (Nat.eqb _ _); [by intros [= <- <-]|]. destruct (checkRecipientDedup _ _ _ _ _) as [s1 []]; [by intros [= <- <-]|].
    by destruct (recipientSpread _).
  - destruct (Nat.eqb _ _); [by intros [= <- <-]|]. destruct (checkRecipientDedup _ _ _ _ _) as [s1 []]; [by intros [= <- <-]|].
    by destruct (recipientSpread _).
Qed.

Lemma imported_moves w k a ctx L now : stage a = Importing -> attempt_ok (outbox w) k a ->
  imported JSON_parse detectSecret w k a ctx L now = w \/ moves w (imported JSON_parse detectSecret w k a ctx L now) k a.
Proof.
  intros Hst Ha. unfold imported. destruct (filing_of JSON_parse (Executor.entry a)) as [p|]; [right|by left].
  destruct (prepare_gates _ _ _ _ _ _ _) as [sn prepared] eqn:Hp. pose proof Ha as Ha'. unfold attempt_ok in Ha'. rewrite Hst in Ha'.
  destruct Ha' as (Hg & Hsd & Hu). destruct prepared as [ps|s|e].
  - destruct w as [lg pr ats ob], a as [eg r d sd st se co al]. cbn in *. subst. split; [done|]. eexists. split_and!; [done..| | |].
    + right. eexists. split_and!; done.
    + unfold attempt_ok. cbn. split_and!; [by apply given_now|done|done].
    + intros [_ [?|[[? ?] _]]]; done.
  - apply moves_settle; [done|]. intros _. unfold fits. apply prepare_gates_refuses, refused_never_sent in Hp. by destruct Hp as [-> | ->].
  - by apply moves_settle.
Qed.

Lemma answered_moves w k a L messageId now : attempt_ok (outbox w) k a ->
  answered w k a L messageId now = w \/ moves w (answered w k a L messageId now) k a.
Proof.
  intros Ha. pose proof Ha as Ha'. unfold answered. unfold attempt_ok in Ha'. destruct (stage a) as [p| |c|ps| |] eqn:Hst; try by left.
  - right. destruct messageId as [m|]; [|by apply moves_settle'].
    destruct w as [lg pr ats ob], a as [eg r d sd st se co al]. cbn in *. subst. split; [done|]. eexists. split_and!; [done..|by left| |].
    + by unfold attempt_ok.
    + intros [Hg _]. by destruct Ha'.
  - right. unfold commit_answer. case_bool_decide; cbn; apply moves_settle; try done. intros _. by destruct Ha'.
Qed.

Lemma deadline_moves w k a : attempt_ok (outbox w) k a -> moves w (put w k (deadline a)) k a.
Proof.
  intros Ha. unfold deadline. destruct w as [lg pr ats ob]. split; [done|]. destruct a as [eg r d sd st se co al]. unfold attempt_ok, undecided, dead in *. cbn in *.
  destruct se as [s|]; (eexists; split_and!; [done..|by left| |]); cbn; try done.
  - destruct st; cbn in *; try (destruct Ha as (? & -> & _); split_and!; [done..|]; right; by eexists).
    + destruct Ha as (Hg & -> & _). split_and!; [done..|]. right. split; [done|]. by eexists.
    + destruct Ha as (s & [=] & _).
  - intros [Hg [Ho|[Hp _]]]; split; auto.
Qed.

Lemma moves_consistent w w' k a : consistent (ops w) (attempts w) (outbox w) -> attempts w !! k = Some a -> moves w w' k a ->
  consistent (ops w') (attempts w') (outbox w').
Proof.
  intros Hc Hk (-> & a' & -> & He & Hco & Hob & Hok & Hd). by eapply moved_consistent.
Qed.

Lemma crash_consistent log atts ob e : consistent log atts ob ->
  consistent log ((fun a => if decide (engine a = e) then a <| alive := false |> else a) <$> atts) ob.
Proof.
  set (f := fun a : Attempt => if decide (engine a = e) then a <| alive := false |> else a).
  assert (forall a, f a = f a /\ id_of (f a) = id_of a /\ concluded (f a) = concluded a /\
    (forall k, attempt_ok ob k (f a) <-> attempt_ok ob k a) /\ (forall k, dead ob k (f a) <-> dead ob k a)) as Hf.
  { intros a. unfold f. destruct a. cbn. by case_decide. }
  assert (forall k x, (f <$> atts) !! k = Some x -> exists a, atts !! k = Some a /\ x = f a) as Hl.
  { intros k x. rewrite list_lookup_fmap. destruct (atts !! k) as [a|]; [|done]. cbn. intros [= <-]. by exists a. }
  intros []. split; try done.
  - intros k x (a & Hk & ->)%Hl. apply Hf. by apply c_attempts0.
  - intros r Hr. specialize (c_rows0 r Hr).
    assert (forall P Q : nat -> Attempt -> Prop, (forall k a, P k a -> Q k (f a)) -> all_of atts (row_id r) P -> all_of (f <$> atts) (row_id r) Q) as Hall.
    { intros P Q HPQ HP k x (a & Hk & ->)%Hl Hi. apply HPQ, HP; [done|]. by destruct (Hf a) as (_ & <- & _). }
    destruct (row_status r); cbn [status_ok] in *; try done;
      try (revert c_rows0; apply Hall; intros k a Hx; destruct (Hf a) as (_ & _ & Hcc & _ & Hd); rewrite ?Hcc, Hd; exact Hx).
    destruct c_rows0 as (k & a & Hk & Hi & Hg). exists k, (f a). rewrite list_lookup_fmap, Hk. destruct (Hf a) as (_ & -> & _). done.
  - intros k1 k2 x1 x2 (a1 & H1 & ->)%Hl (a2 & H2 & ->)%Hl. destruct (Hf a1) as (_ & -> & -> & _). destruct (Hf a2) as (_ & -> & -> & _). by apply c_open0.
  - intros k1 k2 x1 x2 (a1 & H1 & ->)%Hl (a2 & H2 & ->)%Hl. destruct (Hf a1) as (_ & -> & _ & _ & Hd1). destruct (Hf a2) as (_ & -> & _ & _ & Hd2).
    rewrite Hd1, Hd2. by apply c_live0.
  - intros k x (a & Hk & ->)%Hl. destruct (Hf a) as (_ & -> & _). by eapply c_filed0.
  - intros h Hh. destruct (c_outbox0 h Hh) as (a & Ha & Hi). exists (f a). rewrite list_lookup_fmap, Ha. destruct (Hf a) as (_ & -> & _). done.
Qed.

(** *** The outcome is written *)

Lemma finish_idle t i outcome result now r : NoDup (ids t) -> finish t i outcome result now = (t, None) -> r ∈ t -> row_id r = i -> row_status r <> executing.
Proof.
  intros Hn Hf Hr <- Hs. unfold finish in Hf. rewrite (find_row_in t r Hn Hr), Hs in Hf. cbn in Hf.
  destruct outcome; try done. by destruct (_ <? _).
Qed.

Section Concluding.
Context (log : list Op) (atts : list Attempt) (ob : list Handover) (k : nat) (a : Attempt) (s : Settled) (now : Z).
Context (Hc : consistent log atts ob) (Hk : atts !! k = Some a) (Hs : Executor.settled a = Some s) (Hopen : concluded a = false).
Context (Hnd : NoDup (filed_ids log)).
Let a' := a <| concluded := true |>.
Let atts' := <[k := a']> atts.

Lemma concluded_same : id_of a' = id_of a /\ concluded a' = true /\ (forall j, attempt_ok ob j a' <-> attempt_ok ob j a) /\ (forall j, dead ob j a' <-> dead ob j a).
Proof. unfold a'. by destruct a. Qed.

Lemma concluded_lookup j x : atts' !! j = Some x -> j = k /\ x = a' \/ j <> k /\ atts !! j = Some x.
Proof.
  intros Hj. unfold atts' in Hj. destruct (decide (j = k)) as [->|Hne]; [left|right; by rewrite list_lookup_insert_ne in Hj].
  rewrite list_lookup_insert_eq in Hj by (by eapply lookup_lt_Some). by injection Hj.
Qed.
Lemma concluded_at : atts' !! k = Some a'.
Proof. apply list_lookup_insert_eq. by eapply lookup_lt_Some. Qed.

(** A status that holds of the attempts as they were holds still, unless it is [executing] on this entry. *)
Lemma concluded_status i st : (st = executing -> i <> id_of a) -> status_ok atts ob i st -> status_ok atts' ob i st.
Proof.
  intros Hne H. destruct concluded_same as (Hid & Hcc & _ & Hd).
  assert (forall P Q : nat -> Attempt -> Prop, (forall j x, P j x -> Q j x) -> (id_of a = i -> P k a -> Q k a') ->
    all_of atts i P -> all_of atts' i Q) as Hall.
  { intros P Q HPQ Ha HP j x [[-> ->]|[Hj Hx]]%concluded_lookup Hi; [rewrite Hid in Hi; by apply Ha, HP|]. by apply HPQ, HP. }
  destruct st; cbn [status_ok] in *; try done;
    try (revert H; apply Hall; [done|]; intros Hi; rewrite ?Hd, ?Hcc; (tauto || by destruct (Hne eq_refl))).
  destruct H as (j & x & Hj & Hi & Hg). destruct (decide (j = k)) as [->|Hjk].
  - exists k, a'. rewrite concluded_at. split_and!; [done|congruence|done].
  - exists j, x. unfold atts'. by rewrite list_lookup_insert_ne.
Qed.

(** On the entry itself, what was executing becomes what the outcome says. *)
Lemma concluded_outcome n st retry : status_ok atts ob (id_of a) executing -> outcome_ends (s_outcome s) n st retry ->
  status_ok atts' ob (id_of a) st.
Proof.
  intros He Ho. destruct concluded_same as (Hid & Hcc & _ & Hd). pose proof (c_attempts _ _ _ Hc k a Hk) as Hok.
  assert (s_outcome s = f_failed \/ s_outcome s = f_retry -> all_of atts' (id_of a) (fun j x => dead ob j x /\ concluded x = true)) as Hall.
  { intros Hout j x [[-> ->]|[Hj Hx]]%concluded_lookup Hi; [split; [apply Hd; by eapply not_sent_is_dead|done]|].
    destruct (concluded x) eqn:Hcx; [split; [by apply (He j x)|done]|].
    exfalso. apply Hj. by apply (c_open _ _ _ Hc j k x a). }
  destruct (s_outcome s) eqn:Hout; cbn in Ho.
  - destruct Ho as [-> _]. exists k, a'. split_and!; [apply concluded_at|done|by eapply sent_is_given].
  - destruct Ho as [-> _]. intros j x Hj Hi. by apply Hall; [left|..].
  - by destruct Ho as [-> _].
  - destruct Ho as [(-> & _)|(-> & _)]; [by apply Hall; right|]. intros j x Hj Hi. by apply Hall; [right|..].
Qed.

Lemma concluded_consistent : consistent (log ++ [OFinish (id_of a) (s_outcome s) (s_result s) now]) atts' ob.
Proof.
  destruct concluded_same as (Hid & Hcc & Hok & Hd). destruct (run_facts log Hnd) as [Hn _]. destruct Hc. split.
  - intros j x [[-> ->]|[Hj Hx]]%concluded_lookup; [apply Hok|]; by apply c_attempts0.
  - intros r'. rewrite run_snoc. cbn [ApprovalStore.step]. set (t := run log) in *.
    destruct (finish_cases sha256 JSON_parse t (id_of a) (s_outcome s) (s_result s) now) as [E|(r0 & st & rt & res & Hr0 & Hi0 & Hs0 & Ho & E)]; rewrite E; cbn [fst].
    + intros Hr'. apply concluded_status; [|by apply c_rows0]. intros Hx Hi. by eapply finish_idle.
    + intros (r & Hr & [(Hri & Hrs & ->)|[-> Hneg]])%(in_update_where sha256 JSON_parse).
      * change (row_id (finished st rt now res r)) with (row_id r). change (row_status (finished st rt now res r)) with st. rewrite Hri.
        eapply concluded_outcome; [|exact Ho]. specialize (c_rows0 r Hr). by rewrite Hri, Hrs in c_rows0.
      * apply concluded_status; [|by apply c_rows0]. tauto.
  - intros k1 k2 x1 x2 [[-> ->]|[H1 Hx1]]%concluded_lookup [[-> ->]|[H2 Hx2]]%concluded_lookup; try done; try congruence. by apply c_open0.
  - intros k1 k2 x1 x2 [[-> ->]|[H1 Hx1]]%concluded_lookup [[-> ->]|[H2 Hx2]]%concluded_lookup; rewrite ?Hd, ?Hid; try done; by apply c_live0.
  - intros j x Hx. rewrite filed_ids_snoc, app_nil_r. apply concluded_lookup in Hx as [[-> ->]|[_ Hx]]; [rewrite Hid|]; by eapply c_filed0.
  - intros h Hh. destruct (c_outbox0 h Hh) as (x & Hx & Hi). destruct (decide (h_attempt h = k)) as [Heq|Hne].
    + exists a'. rewrite Heq in *. rewrite concluded_at. split; [done|congruence].
    + exists x. unfold atts'. by rewrite list_lookup_insert_ne.
  - done.
Qed.
End Concluding.

(** *** A tick *)

Lemma start_attempt_ok e t env r ob k : ~ given ob k ->
  let a := start_attempt keyedHash JSON_parse e t env r in
  attempt_ok ob k a /\ id_of a = row_id r /\ concluded a = false /\ Executor.entry a = r.
Proof.
  intros Hg. unfold start_attempt. destruct (check_entry keyedHash JSON_parse t env r) as [p|s] eqn:Hc; cbn.
  - split_and!; try done. by left.
  - split_and!; try done. exists s. split; [done|]. assert (s_outcome s = f_failed \/ s_outcome s = f_retry) as [-> | ->]; [|done..].
    unfold check_entry in Hc. destruct (filing_of _ _) as [p|]; [|injection Hc as <-; by left]. destruct (origin_of _ _); [|injection Hc as <-; by left].
    destruct (checksumMatches _ _ _); [|injection Hc as <-; by left]. destruct (principalHasEnded _ _); [injection Hc as <-; by left|].
    cbn [negb] in Hc. destruct (mail env) as [ctx|]; [|injection Hc as <-; by right]. destruct (checkSendAccount _ _); [|injection Hc as <-; by left].
    destruct (jm_get _ _); [done|injection Hc as <-; by left].
Qed.

Lemma won_claim_consistent log i now cap atts ob r a : NoDup (filed_ids log) -> consistent log atts ob ->
  (claim JSON_parse (run log) i now cap).2 = Claimed r ->
  (~ given ob (length atts) -> attempt_ok ob (length atts) a) -> id_of a = row_id r -> concluded a = false ->
  consistent (log ++ [OClaim i now cap]) (atts ++ [a]) ob.
Proof.
  intros Hnd Hc Hwon Hok Hid Hopen. destruct (run_facts log Hnd) as [Hn Hids].
  destruct (claim_cases JSON_parse (run log) i now cap Hn) as [[_ Hno]|(r0 & Hr0 & Hi0 & Hs0 & _ & _ & _ & E)]; [by destruct (Hno r)|].
  rewrite E in Hwon. injection Hwon as <-. change (row_id (claimed now r0)) with (row_id r0) in Hid. destruct Hc.
  assert (~ given ob (length atts)) as Hg.
  { intros (h & Hh & Hin)%list_elem_of_fmap. destruct (c_outbox0 h Hin) as (x & Hx & _). rewrite <-Hh in Hx. apply lookup_lt_Some in Hx. lia. }
  assert (forall j x, (atts ++ [a]) !! j = Some x -> atts !! j = Some x \/ j = length atts /\ x = a) as Hl.
  { intros j x. rewrite lookup_app_Some, list_lookup_singleton_Some. intros [?|(? & ? & <-)]; [by left|right]. split; [lia|done]. }
  pose proof (c_rows0 r0 Hr0) as Hrow0. rewrite Hs0 in Hrow0. split; try done.
  - intros j x [Hx|[-> ->]]%Hl; [by apply c_attempts0|by apply Hok].
  - intros r'. rewrite run_snoc. cbn [ApprovalStore.step]. rewrite E. intros (r & Hr & Hcase)%(in_update_where sha256 JSON_parse).
    destruct Hcase as [(Hri & Hrs & ->)|[-> Hneg]].
    + cbn. intros j x [Hx|[-> ->]]%Hl Hi Hcx; [|congruence]. assert (r = r0) as -> by (apply (same_row (run log)); congruence). by apply (Hrow0 j x).
    + assert (row_id r <> id_of a) as Hne.
      { rewrite Hid. intros Heq. apply Hneg. assert (r = r0) as -> by (by apply (same_row (run log))). done. }
      specialize (c_rows0 r Hr).
      assert (forall P, all_of atts (row_id r) P -> all_of (atts ++ [a]) (row_id r) P) as Hall.
      { intros P HP j x [Hx|[-> ->]]%Hl Hi; [by apply HP|]. by destruct Hne. }
      destruct (row_status r); cbn [status_ok] in *; try done; try (by apply Hall).
      destruct c_rows0 as (j & x & Hj & Hi & Hgj). exists j, x. split_and!; [by apply lookup_app_l_Some|done..].
  - intros k1 k2 x1 x2 [H1|[-> ->]]%Hl [H2|[-> ->]]%Hl Hi Hc1 Hc2; [by apply (c_open0 k1 k2 x1 x2)|..|done].
    + destruct (Hrow0 k1 x1 H1) as [_ ?]; congruence.
    + destruct (Hrow0 k2 x2 H2) as [_ ?]; congruence.
  - intros k1 k2 x1 x2 [H1|[-> ->]]%Hl [H2|[-> ->]]%Hl Hi Hc1 Hc2; [by apply (c_live0 k1 k2 x1 x2)|..|done].
    + destruct (Hrow0 k1 x1 H1) as [? _]; [congruence|done].
    + destruct (Hrow0 k2 x2 H2) as [? _]; [congruence|done].
  - intros j x Hx. rewrite filed_ids_snoc, app_nil_r. apply Hl in Hx as [Hx|[-> ->]]; [by eapply c_filed0|]. rewrite Hid. apply Hids, list_elem_of_fmap. by exists r0.
  - intros h Hh. destruct (c_outbox0 h Hh) as (x & Hx & Hi). exists x. split; [by apply lookup_app_l_Some|done].
Qed.

(** What a tick adds to the log: lost claims and holds, and at last, perhaps, a claim it won. *)
Lemma try_candidates_spec atts ob env now n : forall held log log' res, NoDup (filed_ids log) -> consistent log atts ob ->
  try_candidates keyedHash hashIsKeyed sha256 JSON_parse n env now held log = (log', res) ->
  filed_ids log' = filed_ids log /\
  match res with
  | None => consistent log' atts ob
  | Some r => exists pre i cap, log' = pre ++ [OClaim i now cap] /\ filed_ids pre = filed_ids log /\ consistent pre atts ob /\
      (claim JSON_parse (run pre) i now cap).2 = Claimed r
  end.
Proof.
  induction n as [|n IHn]; intros held log log' res; cbn [try_candidates];
    generalize (executable (run log) now CANDIDATES_PER_TICK (Z.max APPROVAL_RETRY_DELAY_MS (dedupWindowMs (limits env))) held) as cs;
    intros cs; revert log; induction cs as [|[i k] cs IH]; intros log Hnd Hc; try (intros [= <- <-]; done).
  all: set (cap := Some (mailSendLimitAdmits (limits env) k)).
  all: assert (filed_ids (log ++ [OClaim i now cap]) = filed_ids log) as Hf by (by rewrite filed_ids_snoc, app_nil_r).
  all: destruct (claim JSON_parse (run log) i now cap).2 as [r| | | |] eqn:Hcl.
  all: try (intros [= <- <-]; split; [done|]; by exists log, i, cap).
  all: try (assert (consistent (log ++ [OClaim i now cap]) atts ob) as Hc' by (apply lost_claim_consistent; [done|by rewrite Hcl|done]);
            intros H; apply IH in H; [by rewrite Hf in H|by rewrite Hf|done]).
  all: assert (consistent (log ++ [OClaim i now cap; OHoldKind k now]) atts ob) as Hc'
    by (change [OClaim i now cap; OHoldKind k now] with ([OClaim i now cap] ++ [OHoldKind k now]); rewrite app_assoc;
        apply plain_op_consistent; [done|by rewrite filed_ids_snoc, app_nil_r, Hf|]; apply lost_claim_consistent; [done|by rewrite Hcl|done]).
  all: assert (filed_ids (log ++ [OClaim i now cap; OHoldKind k now]) = filed_ids log) as Hf'
    by (unfold filed_ids; rewrite omap_app; cbn; by rewrite app_nil_r).
  - intros [= <- <-]. by rewrite Hf'.
  - intros H. apply IHn in H; [|by rewrite Hf'|done]. by rewrite Hf' in H.
Qed.

Lemma try_candidates_grows env now n : forall held log log' res,
  try_candidates keyedHash hashIsKeyed sha256 JSON_parse n env now held log = (log', res) -> exists more, log' = log ++ more.
Proof.
  induction n as [|n IHn]; intros held log log' res; cbn [try_candidates];
    generalize (executable (run log) now CANDIDATES_PER_TICK (Z.max APPROVAL_RETRY_DELAY_MS (dedupWindowMs (limits env))) held) as cs;
    intros cs; revert log; induction cs as [|[i k] cs IH]; intros log; try (intros [= <- <-]; exists []; by rewrite app_nil_r).
  all: destruct (claim JSON_parse (run log) i now _).2 as [r| | | |].
  all: try (intros [= <- <-]; by eexists).
  all: try (intros H; apply IH in H as [more ->]; rewrite <-app_assoc; by eexists).
  intros H. apply IHn in H as [more ->]. rewrite <-app_assoc. by eexists.
Qed.

(** A listed candidate is of a kind not held yet, and there are two kinds: the list is asked for again twice at most. *)
Lemma listed_is_not_held t now limit delay held i k : (i, k) ∈ executable t now limit delay held -> k ∉ held.
Proof.
  unfold executable. intros (j & Hj%list_elem_of_lookup_2 & _)%elem_of_take. apply list_elem_of_fmap in Hj as (r & [= -> ->] & Hr).
  rewrite merge_sort_Permutation in Hr. by apply list_elem_of_filter in Hr as [(_ & ? & _) _].
Qed.

Lemma both_kinds_held (held : list ApprovalKind) k : NoDup held -> (2 <= length held)%nat -> k ∈ held.
Proof.
  intros Hnd Hl. destruct held as [|a [|b held]]; cbn in Hl; try lia.
  apply NoDup_cons in Hnd as [Ha _]. destruct a, b, k; set_solver.
Qed.

Lemma two_restarts_are_enough env now n : forall held log, NoDup held -> (2 <= length held + n)%nat ->
  try_candidates keyedHash hashIsKeyed sha256 JSON_parse n env now held log =
  try_candidates keyedHash hashIsKeyed sha256 JSON_parse (S n) env now held log.
Proof.
  induction n as [|n IHn]; intros held log Hnd Hl; cbn [try_candidates];
    (assert (Forall (fun c => c.2 ∉ held) (executable (run log) now CANDIDATES_PER_TICK (Z.max APPROVAL_RETRY_DELAY_MS (dedupWindowMs (limits env))) held)) as Hcs
       by (apply Forall_forall; intros [i k]; apply listed_is_not_held));
    revert Hcs; generalize (executable (run log) now CANDIDATES_PER_TICK (Z.max APPROVAL_RETRY_DELAY_MS (dedupWindowMs (limits env))) held) as cs;
    intros cs Hcs; revert log; induction Hcs as [|[i k] cs Hk Hcs IH]; intros log; try done; cbn in Hk.
  - exfalso. apply Hk, both_kinds_held; [done|lia].
  - destruct (claim _ _ _ _ _).2; try done; [apply IH..|]. apply IHn; [by constructor|cbn; lia].
Qed.

Lemma tick_consistent w e env now : NoDup (filed_ids (ops w)) -> consistent (ops w) (attempts w) (outbox w) ->
  let w' := tick keyedHash hashIsKeyed sha256 JSON_parse w e env now in
  filed_ids (ops w') = filed_ids (ops w) /\ consistent (ops w') (attempts w') (outbox w').
Proof.
  intros Hnd Hc. destruct w as [log ps atts ob]. cbn in Hnd, Hc. unfold tick. destruct (running _); [done|]. cbn [ops].
  destruct (try_candidates _ _ _ _ _ _ _ _ log) as [log' res] eqn:Ht. apply (try_candidates_spec atts ob) in Ht as [Hf Hres]; [|done..].
  destruct res as [r|]; cbn; [|by split]. split; [done|]. destruct Hres as (pre & i & cap & -> & Hpf & Hpc & Hcl).
  eapply won_claim_consistent; [by rewrite Hpf|done|exact Hcl|intros Hg; by apply start_attempt_ok|..];
    unfold start_attempt; by destruct (check_entry _ _ _ _ _).
Qed.

(** *** Every action *)

Definition sound (w : World) : Prop := consistent (ops w) (attempts w) (outbox w).

(** A part of an attempt's work leaves the state as it is or moves the attempt on. *)
Lemma part_moves w k a x : attempts w !! k = Some a -> alive a = true -> attempt_ok (outbox w) k a ->
  match x with
  | Address j _ _ _ | Imported j _ _ _ | Answered j _ _ _ | Notified j | Deadline j => j = k
  | _ => False
  end -> act w x = w \/ moves w (act w x) k a.
Proof.
  intros Hk Hal Ha Hx. destruct x; try done; subst; cbn [Executor.act]; rewrite Hk, Hal.
  - destruct (stage a) eqn:Hst; try by left. right. by apply addressed_moves.
  - destruct (stage a) eqn:Hst; try by left. by apply imported_moves.
  - by apply answered_moves.
  - destruct (stage a) eqn:Hst; try by left. right. apply moves_settle'; [done|]. intros _. unfold attempt_ok in Ha. rewrite Hst in Ha. by destruct Ha.
  - right. by apply deadline_moves.
Qed.

Lemma act_idle w k x : match attempts w !! k with Some a => alive a = false | None => True end ->
  match x with
  | Address j _ _ _ | Imported j _ _ _ | Answered j _ _ _ | Notified j | Deadline j | Conclude j _ => j = k
  | _ => False
  end -> act w x = w.
Proof. intros Ha Hx. destruct x; try done; subst; cbn [Executor.act]; destruct (attempts w !! k) as [a|]; rewrite ?Ha; done. Qed.

Lemma conclude_sound w k a s now : NoDup (filed_ids (ops w)) -> sound w -> attempts w !! k = Some a -> Executor.settled a = Some s -> concluded a = false ->
  sound (conclude w k a s now).
Proof. intros Hnd Hw Hk Hs Hc. destruct w. by apply (concluded_consistent _ _ _ k a s now). Qed.

Lemma act_grows w x : exists more, ops (act w x) = ops w ++ more.
Proof.
  destruct w as [lg ps ats ob].
  assert (forall w', ops w' = lg -> exists l, ops w' = lg ++ l) as Hsame by (intros w' ->; exists []; by rewrite app_nil_r).
  destruct x as [op|e env now|k env ad now|k ctx L now|k L m now|k|k|k now|e]; cbn [Executor.act ops attempts].
  - destruct (is_outside op); [by exists [op]|by apply Hsame].
  - unfold tick. destruct (running _); [by apply Hsame|]. cbn [ops]. destruct (try_candidates _ _ _ _ _ _ _ _ _) as [log' res] eqn:Ht.
    apply try_candidates_grows in Ht as [more ->]. destruct res; by exists more.
  - apply Hsame. destruct (ats !! k) as [a|]; [|done]. destruct (alive a); [|done]. destruct (stage a); try done.
    unfold addressed. destruct (before_send _ _ _ _ _ _) as [? []]; done.
  - apply Hsame. destruct (ats !! k) as [a|]; [|done]. destruct (alive a); [|done]. destruct (stage a); try done.
    unfold imported. destruct (filing_of _ _); [|done]. destruct (prepare_gates _ _ _ _ _ _ _) as [? []]; done.
  - apply Hsame. destruct (ats !! k) as [a|]; [|done]. destruct (alive a); [|done]. unfold answered. destruct (stage a); try done; destruct m; done.
  - apply Hsame. destruct (ats !! k) as [a|]; [|done]. destruct (alive a); [|done]. by destruct (stage a).
  - apply Hsame. destruct (ats !! k) as [a|]; [|done]. by destruct (alive a).
  - destruct (ats !! k) as [a|]; [|by apply Hsame]. destruct (alive a); [|by apply Hsame]. destruct (Executor.settled a); [|by apply Hsame].
    destruct (concluded a); [by apply Hsame|]. by eexists.
  - by apply Hsame.
Qed.

Lemma act_filed w x : exists l, filed_ids (ops (act w x)) = filed_ids (ops w) ++ l.
Proof. destruct (act_grows w x) as [more ->]. exists (filed_ids more). unfold filed_ids. by rewrite omap_app. Qed.

Lemma act_sound w x : NoDup (filed_ids (ops w)) -> NoDup (filed_ids (ops (act w x))) -> sound w -> sound (act w x).
Proof.
  intros Hnd0 Hnd Hw.
  assert (forall k, match x with Address j _ _ _ | Imported j _ _ _ | Answered j _ _ _ | Notified j | Deadline j => j = k | _ => False end -> sound (act w x)) as Hpart.
  { intros k Hx. destruct (attempts w !! k) as [a|] eqn:Hk; [destruct (alive a) eqn:Hal|].
    - destruct (part_moves w k a x Hk Hal) as [->|Hm]; [by apply Hw|done..|]. by eapply moves_consistent.
    - rewrite (act_idle w k x); [done|by rewrite Hk|by destruct x].
    - rewrite (act_idle w k x); [done|by rewrite Hk|by destruct x]. }
  destruct x as [op|e env now|k env ad now|k ctx L now|k L m now|k|k|k now|e]; try by eapply Hpart.
  - cbn [Executor.act] in *. destruct (is_outside op) eqn:Ho; [|done]. destruct w as [lg ps ats ob].
    apply (plain_op_consistent lg op ats ob); [by destruct op|done|done].
  - by apply tick_consistent.
  - destruct (attempts w !! k) as [a|] eqn:Hk; [destruct (alive a) eqn:Hal|].
    + cbn [Executor.act]. rewrite Hk, Hal. destruct (Executor.settled a) as [s|] eqn:Hs; [|done].
      destruct (concluded a) eqn:Hc; [done|]. by apply conclude_sound.
    + rewrite (act_idle w k); [done|by rewrite Hk|done].
    + rewrite (act_idle w k); [done|by rewrite Hk|done].
  - destruct w as [lg ps ats ob]. by apply crash_consistent.
Qed.

Lemma played_snoc l x : played (l ++ [x]) = act (played l) x.
Proof. unfold Executor.played. by rewrite foldl_app. Qed.

Lemma played_sound l : NoDup (filed_ids (ops (played l))) -> sound (played l).
Proof.
  induction l as [|x l IH] using rev_ind; intros Hnd.
  - split; cbn; try done; try (intros ? ? ? []%elem_of_nil); try (by intros r ?%elem_of_nil). constructor.
  - rewrite played_snoc in *. assert (exists k, filed_ids (ops (act (played l) x)) = filed_ids (ops (played l)) ++ k) as [k Hk] by apply act_filed.
    assert (NoDup (filed_ids (ops (played l)))) as Hnd' by (rewrite Hk in Hnd; by apply NoDup_app in Hnd as [? _]).
    apply act_sound; [done..|by apply IH].
Qed.

(** ** At most once *)

Definition handovers (w : World) (i : string) : list Handover := filter (fun h => h_entry h = i) (outbox w).

Lemma same_key_le_1 {A B} (f : A -> B) (l : list A) : NoDup (f <$> l) -> (forall x y, x ∈ l -> y ∈ l -> f x = f y) -> (length l <= 1)%nat.
Proof.
  destruct l as [|x [|y l]]; cbn; [lia|lia|]. intros Hnd Hf. exfalso. apply NoDup_cons in Hnd as [Hn _]. apply Hn.
  rewrite (Hf x y); [left|left|right; left].
Qed.

Lemma given_not_dead ob k a : given ob k -> ~ dead ob k a.
Proof. intros Hg [Hn _]. by apply Hn. Qed.

(** C7. The queue hands a mail to a provider at most once, and says so. Over every interleaving of the ticks of any number
    of processes, their answers, timers, outcomes and crashes with everything else done to the table: no entry's mail is
    given to a provider twice; of an entry that waits, is approved, failed or expired, none was; of one that is done,
    exactly one was. Only [executing], [unknown] and what its owner cleared may mean either. *)
Theorem the_queue_tells_what_went_out l : NoDup (filed_ids (ops (played l))) ->
  (forall i, (length (handovers (played l) i) <= 1)%nat) /\
  forall r, r ∈ table keyedHash hashIsKeyed sha256 JSON_parse (played l) ->
    match row_status r with
    | pending | approved | failed | expired => handovers (played l) (row_id r) = []
    | done_ => length (handovers (played l) (row_id r)) = 1%nat
    | executing | unknown | rejected => True
    end.
Proof.
  intros Hnd. pose proof (played_sound l Hnd) as []. set (w := played l) in *.
  assert (forall h, h ∈ outbox w -> exists a, attempts w !! h_attempt h = Some a /\ id_of a = h_entry h /\ given (outbox w) (h_attempt h)) as Hout.
  { intros h Hh. destruct (c_outbox0 h Hh) as (a & Ha & Hi). exists a. split_and!; [done..|]. apply list_elem_of_fmap. by exists h. }
  assert (forall i, (length (handovers w i) <= 1)%nat) as Honce.
  { intros i. apply (same_key_le_1 h_attempt).
    - eapply sublist_NoDup; [exact c_once0|]. apply fmap_sublist, sublist_filter.
    - intros x y [Hx Hxo]%list_elem_of_filter [Hy Hyo]%list_elem_of_filter. destruct (Hout x Hxo) as (a & Ha & Hai & Hag), (Hout y Hyo) as (b & Hb & Hbi & Hbg).
      apply (c_live0 _ _ a b); [done|done|congruence|by apply given_not_dead..]. }
  split; [done|]. intros r Hr. specialize (c_rows0 r Hr).
  assert (all_of (attempts w) (row_id r) (fun k a => dead (outbox w) k a) -> handovers w (row_id r) = []) as Hnone.
  { intros Hall. apply elem_of_nil_inv. intros h [Hi Ho]%list_elem_of_filter. destruct (Hout h Ho) as (a & Ha & Hai & Hg).
    apply (given_not_dead _ _ a Hg). apply Hall; [done|congruence]. }
  destruct (row_status r); cbn [status_ok] in *; try done; try (apply Hnone; intros k a Hk Hi; by apply c_rows0).
  destruct c_rows0 as (k & a & Hk & Hi & (h & Hh & Ho)%list_elem_of_fmap).
  assert (h ∈ handovers w (row_id r)) as Hin.
  { apply list_elem_of_filter. split; [|done]. destruct (Hout h Ho) as (b & Hb & Hbi & _). congruence. }
  specialize (Honce (row_id r)). destruct (handovers w (row_id r)); [by apply elem_of_nil in Hin|cbn in *; lia].
Qed.

(** ** What goes out was approved *)

(** The mail an entry's payload describes. *)
Definition mail_of (k : ApprovalKind) (p : jval) : MailSendInput :=
  {| m_to := addresses p "to"; m_cc := addresses p "cc"; m_bcc := match k with mail_reply => [] | mail_send => addresses p "bcc" end;
     m_subject := prop_text p "subject"; m_text := reflowed (prop_text p "bodyText");
     m_inReplyTo := match k with mail_reply => truthy_text (opt_text p "inReplyTo") | mail_send => None end;
     m_references := match k with mail_reply => truthy_text (opt_text p "references") | mail_send => None end |}.

Abbreviation owner_approved := (ApprovalStore.owner_approved keyedHash hashIsKeyed sha256 JSON_parse).
Abbreviation filing := (filing_of JSON_parse).

(** When the entry was claimed, its checksum held over what it stores, whoever it was filed for was still live, and its
    account could send, through [provider]. *)
Definition checked (l : list Action) (r : Row) (provider : Provider) : Prop :=
  exists pre e env now post ctx p, l = pre ++ Tick e env now :: post /\
    checksumMatches keyedHash (table keyedHash hashIsKeyed sha256 JSON_parse (played (pre ++ [Tick e env now]))) (row_id r) = true /\
    principalHasEnded (filer r) (isMandateLive env) = false /\ filing r = Some p /\ mail env = Some ctx /\
    (exists t, accountType ctx (prop_text p "accountId") = Some t /\ isReceiveOnlyType t = false) /\
    jm_get (registry ctx) (prop_text p "accountId") = Some provider.
(** Right before the send, the account's sending address was the one filed, and the trail held the attempt or did not need to. *)
Definition released (x : Action) (k : nat) (r : Row) : Prop :=
  exists env address now p, x = Address k env (Some address) now /\ filing r = Some p /\
    toLowerCase (trim address) = toLowerCase (trim (prop_text p "fromAddress")) /\ beginTrail env r = true.

Lemma check_entry_Ok t env r provider : check_entry keyedHash JSON_parse t env r = Ok provider ->
  checksumMatches keyedHash t (row_id r) = true /\ principalHasEnded (filer r) (isMandateLive env) = false /\
  exists p ctx, filing r = Some p /\ mail env = Some ctx /\
    (exists t, accountType ctx (prop_text p "accountId") = Some t /\ isReceiveOnlyType t = false) /\
    jm_get (registry ctx) (prop_text p "accountId") = Some provider.
Proof.
  unfold check_entry. destruct (filing r) as [p|]; [|done]. destruct (origin_of _ _); [|done]. destruct (checksumMatches _ _ _); [|done].
  destruct (principalHasEnded _ _); [done|]. cbn [negb]. destruct (mail env) as [ctx|]; [|done]. unfold checkSendAccount.
  destruct (accountType ctx _) as [ty|] eqn:Ht; [|done]. destruct (isReceiveOnlyType ty) eqn:Hr; [done|].
  destruct (jm_get _ _) as [pr|] eqn:Hp; [|done]. intros [= ->]. split_and!; [done..|]. exists p, ctx. split_and!; try done. by exists ty.
Qed.

Lemma before_send_ready env sn a address now sn' ready : before_send JSON_parse env sn a address now = (sn', ready) ->
  match ready with
  | Stops _ => True
  | Replies c => kind (filed (Executor.entry a)) = mail_reply /\ exists p, filing (Executor.entry a) = Some p /\ c = reply_of p
  | Sends => kind (filed (Executor.entry a)) = mail_send
  end /\ match ready with Stops _ => True | _ => forall k, released (Address k env address now) k (Executor.entry a) end.
Proof.
  unfold before_send, released. destruct (filing (Executor.entry a)) as [p|]; [|by intros [= <- <-]].
  destruct address as [ad|]; [|by intros [= <- <-]]. case_bool_decide as Hsame; cbn [negb]; [|by intros [= <- <-]].
  destruct (match kind _ with mail_reply => _ | mail_send => _ end) as [sn1 repeat]. destruct repeat; [by intros [= <- <-]|].
  destruct (deadlinePassed a); [by intros [= <- <-]|]. destruct (beginTrail env (Executor.entry a)) eqn:Hb; cbn [negb]; [|by intros [= <- <-]].
  intros [= <- <-]. destruct (kind _) eqn:Hk; [split; [split; [done|by exists p]|]|split; [done|]]; intros k; by exists env, ad, now, p.
Qed.

Lemma reply_input_mail p : reply_input (reply_of p) = mail_of mail_reply p.
Proof. done. Qed.
Lemma prepared_mail L ctx lookup sn p now sn' ps : prepare_gates detectSecret L ctx lookup sn (send_of p) now = (sn', IsPrepared ps) ->
  send_input ps = mail_of mail_send p.
Proof.
  unfold prepare_gates. destruct (_ || _); [done|]. destruct (resolveProvider _ _) as [pr|]; [|done]. destruct (checkSendAccount _ _); [|done].
  destruct (Nat.eqb _ _); [done|]. destruct (checkRecipientDedup _ _ _ _ _) as [s1 []]; [done|]. destruct (recipientSpread _).
  intros [= _ <-]. done.
Qed.

(** What one part does to the attempt it works on. *)
Definition part_of (k : nat) (x : Action) : Prop :=
  match x with Address j _ _ _ | Imported j _ _ _ | Answered j _ _ _ | Notified j | Deadline j | Conclude j _ => j = k | _ => False end.
Definition goes_on (w w' : World) (k : nat) (a : Attempt) (x : Action) : Prop :=
  exists a', attempts w' = <[k := a']> (attempts w) /\ Executor.entry a' = Executor.entry a /\
    (forall p, stage a' = Resolving p -> stage a = Resolving p) /\
    (stage a' = Importing -> kind (filed (Executor.entry a)) = mail_send) /\
    (sending a' = true -> sending a = true \/ (exists p, stage a = Resolving p) /\ released x k (Executor.entry a)) /\
    (sending a = true -> sending a' = true) /\
    (outbox w' = outbox w \/
     exists h p, outbox w' = outbox w ++ [h] /\ h_attempt h = k /\ h_entry h = id_of a /\ sending a' = true /\
       filing (Executor.entry a) = Some p /\ h_mail h = mail_of (kind (filed (Executor.entry a))) p /\
       (kind (filed (Executor.entry a)) = mail_reply -> stage a = Resolving (h_provider h))).

Lemma part_goes_on w k a x : attempts w !! k = Some a -> part_of k x ->
  (stage a = Importing -> kind (filed (Executor.entry a)) = mail_send /\ sending a = true) ->
  act w x = w \/ goes_on w (act w x) k a x.
Proof.
  intros Hk Hx Hi. destruct x as [op|e env now|j env ad now|j ctx L now|j L m now|j|j|j now|e]; try done; cbn in Hx; subst j; cbn [Executor.act]; rewrite Hk;
    (destruct (alive a); [|by left]); destruct w as [lg ps ats ob], a as [eg r d sd st se co al]; cbn in *.
  - destruct st as [p| | | | |]; try by left. right. unfold addressed. destruct (before_send _ _ _ _ _ _) as [sn ready] eqn:Hb.
    apply before_send_ready in Hb as [Hb Hr]. cbn in Hb, Hr. destruct ready as [s|c|]; (eexists; split_and!; [done|done|..]; cbn; try done; try by left).
    + intros _. right. split; [by eexists|]. apply (Hr k).
    + right. destruct Hb as [Hkind (q & Hq & ->)]. eexists _, q. split_and!; try done. by rewrite Hkind.
    + intros _. right. split; [by eexists|]. apply (Hr k).
  - destruct st as [p| | | | |]; try by left. destruct (Hi eq_refl) as [Hkind Hsd]. unfold imported. cbn. destruct (filing r) as [q|] eqn:Hq; [right|by left].
    destruct (prepare_gates _ _ _ _ _ _ _) as [sn prepared] eqn:Hp. destruct prepared as [pp|s|e]; (eexists; split_and!; [done|done|..]; cbn; try done; try by left).
    right. eexists _, q. split_and!; try done; rewrite Hkind; [by eapply prepared_mail|done].
  - unfold answered. cbn. destruct st as [p| |c|pp| |]; try by left.
    + destruct m; right; (eexists; split_and!; [done|done|..]; cbn; try done; by left).
    + right. unfold commit_answer. destruct (bool_decide _); (eexists; split_and!; [done|done|..]; cbn; try done; by left).
  - destruct st; try by left. right. eexists; split_and!; [done|done|..]; cbn; try done; by left.
  - right. unfold deadline. cbn. destruct se; (eexists; split_and!; [done|done|..]; cbn; try done; try by left).
    all: intros ->; by apply Hi.
  - destruct se as [s|]; [|by left]. destruct co; [by left|]. right. eexists; split_and!; [done|done|..]; cbn; try done; try by left.
    intros ->; by apply Hi.
Qed.

(** *** The story of an attempt *)

Definition told (l : list Action) (k : nat) (a : Attempt) : Prop :=
  owner_approved (ops (played l)) (Executor.entry a) /\
  (forall p, stage a = Resolving p -> checked l (Executor.entry a) p) /\
  (stage a = Importing -> kind (filed (Executor.entry a)) = mail_send) /\
  (sending a = true -> (exists p, checked l (Executor.entry a) p) /\ exists x, x ∈ l /\ released x k (Executor.entry a)).
(** Where a handover comes from. *)
Definition told_handover (l : list Action) (h : Handover) : Prop :=
  exists a p, attempts (played l) !! h_attempt h = Some a /\ id_of a = h_entry h /\ sending a = true /\
    filing (Executor.entry a) = Some p /\ h_mail h = mail_of (kind (filed (Executor.entry a))) p /\
    (kind (filed (Executor.entry a)) = mail_reply -> checked l (Executor.entry a) (h_provider h)).

Lemma checked_later l x r p : checked l r p -> checked (l ++ [x]) r p.
Proof. intros (pre & e & env & now & post & ctx & q & -> & H). exists pre, e, env, now, (post ++ [x]), ctx, q. split; [by rewrite <-app_assoc|done]. Qed.

Lemma approved_more log more r : owner_approved log r -> owner_approved (log ++ more) r.
Proof.
  revert log. induction more as [|op more IH]; intros log H; [by rewrite app_nil_r|]. change (op :: more) with ([op] ++ more). rewrite app_assoc. apply IH.
  by eapply owner_approved_later.
Qed.

Lemma tick_told l e env now : NoDup (filed_ids (ops (played (l ++ [Tick e env now])))) ->
  let w := played l in let w' := played (l ++ [Tick e env now]) in
  (exists more, ops w' = ops w ++ more) /\ outbox w' = outbox w /\
  (attempts w' = attempts w \/
   exists a, attempts w' = attempts w ++ [a] /\ owner_approved (ops w') (Executor.entry a) /\ sending a = false /\ stage a <> Importing /\
     forall p, stage a = Resolving p -> checked (l ++ [Tick e env now]) (Executor.entry a) p).
Proof.
  intros Hnd. cbv zeta. assert (played (l ++ [Tick e env now]) = tick keyedHash hashIsKeyed sha256 JSON_parse (played l) e env now) as Heq by apply played_snoc.
  assert (forall t' r p, check_entry keyedHash JSON_parse t' env r = Ok p -> t' = table keyedHash hashIsKeyed sha256 JSON_parse (played (l ++ [Tick e env now])) ->
    checked (l ++ [Tick e env now]) r p) as Hck.
  { intros t' r p (Hsum & Hlive & q & ctx & Hq & Hm & Ht & Hp)%check_entry_Ok ->. exists l, e, env, now, [], ctx, q. done. }
  assert (NoDup (filed_ids (ops (played l)))) as Hnd0.
  { rewrite played_snoc in Hnd. destruct (act_filed (played l) (Tick e env now)) as [k Hk]. rewrite Hk in Hnd. by apply NoDup_app in Hnd as [? _]. }
  pose proof (played_sound l Hnd0) as Hs. unfold table in Hck. rewrite Heq in Hck |- *. clear Heq Hnd. revert Hck. unfold tick, sound in *.
  destruct (running _); [intros _; split; [exists []; by rewrite app_nil_r|by split; [|left]]|]. destruct (played l) as [log ps atts ob]. cbn [ops attempts outbox] in *.
  destruct (try_candidates _ _ _ _ _ _ _ _ _) as [log' res] eqn:Ht. pose proof (try_candidates_grows _ _ _ _ _ _ _ Ht) as [more ->].
  apply (try_candidates_spec atts ob) in Ht as [_ Hres]; [|done..]. destruct res as [r|]; [|by split; [eexists|split; [|left]]].
  intros Hck. split; [by eexists|]. split; [done|]. right. eexists. split; [done|]. destruct Hres as (pre & i & cap & Hlog & Hpf & Hpc & Hcl). cbn [ops] in *.
  assert (NoDup (filed_ids pre)) as Hndp by (by rewrite Hpf). destruct (run_facts pre Hndp) as [Hn _].
  destruct (claim_cases JSON_parse (run pre) i now cap Hn) as [[_ Hno]|(r0 & Hr0 & Hi0 & Hs0 & _ & _ & _ & E)]; [by destruct (Hno r)|].
  rewrite E in Hcl. injection Hcl as <-. unfold start_attempt. rewrite Hlog in *. split_and!.
  - destruct (check_entry _ _ _ _ _); cbn; (eapply (owner_approved_later _ _ _ _ pre _ r0); [done|done|]; apply run_approved; [done|done|by left]).
  - by destruct (check_entry _ _ _ _ _).
  - by destruct (check_entry _ _ _ _ _).
  - intros p. destruct (check_entry keyedHash JSON_parse (run (pre ++ [OClaim i now cap])) env (claimed now r0)) as [p'|] eqn:Hce; cbn; [|done].
    intros [= ->]. by eapply Hck.
Qed.

Lemma told_later l x k a : told l k a -> told (l ++ [x]) k a.
Proof.
  intros (Ho & Hc & Hi & Hs). destruct (act_grows (played l) x) as [more Hm]. split_and!.
  - rewrite played_snoc, Hm. by apply approved_more.
  - intros p Hp. by apply checked_later, Hc.
  - done.
  - intros Hsd. destruct (Hs Hsd) as [[p Hp] (y & Hy & Hr)]. split; [exists p; by apply checked_later|]. exists y. split; [set_solver|done].
Qed.

(** An attempt that only changed elsewhere. *)
Lemma told_same l k a a' : Executor.entry a' = Executor.entry a -> stage a' = stage a -> sending a' = sending a -> told l k a -> told l k a'.
Proof. unfold told. by intros -> -> ->. Qed.

Lemma told_handover_later l x h : attempts (played (l ++ [x])) = attempts (played l) \/
    (exists a, attempts (played (l ++ [x])) = attempts (played l) ++ [a]) \/
    (exists e, x = Crash e) ->
  told_handover l h -> told_handover (l ++ [x]) h.
Proof.
  intros Hats (a & p & Ha & Hi & Hsd & Hf & Hm & Hc).
  assert (exists a', attempts (played (l ++ [x])) !! h_attempt h = Some a' /\ Executor.entry a' = Executor.entry a /\ sending a' = sending a) as (a' & Ha' & He & Hs').
  { destruct Hats as [->|[(b & ->)|(e & ->)]]; [by exists a|exists a; split; [by apply lookup_app_l_Some|done]|].
    rewrite played_snoc. destruct (played l) as [lg ps ats ob]. cbn in Ha |- *. rewrite list_lookup_fmap, Ha. cbn. eexists. split; [done|]. case_decide; [|done]. by destruct a. }
  exists a', p. unfold id_of in *. rewrite He, Hs'. split_and!; try done. intros Hk. by apply checked_later, Hc.
Qed.

(** A part tells on what was told of its attempt. *)
Lemma part_told l x k a : sound (played l) -> attempts (played l) !! k = Some a -> part_of k x ->
  (forall j b, attempts (played l) !! j = Some b -> told l j b) -> (forall h, h ∈ outbox (played l) -> told_handover l h) ->
  (forall j b, attempts (played (l ++ [x])) !! j = Some b -> told (l ++ [x]) j b) /\
  (forall h, h ∈ outbox (played (l ++ [x])) -> told_handover (l ++ [x]) h).
Proof.
  intros Hs Hk Hx Hats Hout. destruct (part_goes_on (played l) k a x Hk Hx) as [Hsame|(a' & Ha' & He & Hres & Himp & Hsd & Hkeep & Hob)].
  { intros Hi. destruct (Hats k a Hk) as (_ & _ & Hkind & _). split; [by apply Hkind|]. pose proof (c_attempts _ _ _ Hs k a Hk) as Hok.
    unfold attempt_ok in Hok. rewrite Hi in Hok. by destruct Hok as (_ & ? & _). }
  - assert (played (l ++ [x]) = played l) as Heq by (by rewrite played_snoc). rewrite Heq. split.
    + intros j b Hj. by apply told_later, Hats.
    + intros h Hh. apply told_handover_later; [by rewrite Heq; left|by apply Hout].
  - destruct (Hats k a Hk) as (Ho & Hc & Hi & Hsent).
    assert (told (l ++ [x]) k a') as Hnew.
    { destruct (act_grows (played l) x) as [more Hm]. unfold told. rewrite He, played_snoc, Hm. split_and!.
      - by apply approved_more.
      - intros p Hp. by apply checked_later, Hc, Hres.
      - done.
      - intros [Hsd'|[[p Hp] Hr]]%Hsd.
        + destruct (Hsent Hsd') as [[p Hp] (y & Hy & Hr)]. split; [exists p; by apply checked_later|]. exists y. split; [set_solver|done].
        + split; [exists p; by apply checked_later, Hc|]. exists x. split; [set_solver|done]. }
    assert (attempts (played (l ++ [x])) !! k = Some a') as Hat.
    { rewrite played_snoc, Ha'. apply list_lookup_insert_eq. by eapply lookup_lt_Some. }
    split.
    + intros j b. rewrite played_snoc, Ha'. destruct (decide (j = k)) as [->|Hne]; [|rewrite list_lookup_insert_ne by done; intros Hj; by apply told_later, Hats].
      rewrite list_lookup_insert_eq by (by eapply lookup_lt_Some). by intros [= <-].
    + assert (forall h, h ∈ outbox (played l) -> told_handover (l ++ [x]) h) as Hold.
      { intros h Hh. destruct (Hout h Hh) as (b & p & Hb & Hbi & Hbs & Hf & Hm & Hch). destruct (decide (h_attempt h = k)) as [Heq|Hne].
        - rewrite Heq, Hk in Hb. injection Hb as <-. exists a', p. unfold id_of in *. rewrite Heq, He. split_and!; try done.
          + by apply Hkeep.
          + intros Hkd. by apply checked_later, Hch.
        - exists b, p. rewrite played_snoc, Ha', list_lookup_insert_ne by done. split_and!; try done. intros Hkd. by apply checked_later, Hch. }
      rewrite played_snoc. destruct Hob as [->|(h' & q & -> & Hh' & Hhe & Hhs & Hhf & Hhm & Hhp)]; [exact Hold|].
      intros h [Hh|Hh]%elem_of_app; [by apply Hold|]. apply list_elem_of_singleton in Hh as ->. exists a', q. unfold id_of in *. rewrite Hh', He.
      split_and!; try done. intros Hkd. by apply checked_later, Hc, Hhp.
Qed.

Lemma rest_told l x : (exists op, x = Outside op) \/ (exists e, x = Crash e) \/ (exists k, part_of k x /\ attempts (played l) !! k = None) ->
  (forall j b, attempts (played l) !! j = Some b -> told l j b) -> (forall h, h ∈ outbox (played l) -> told_handover l h) ->
  (forall j b, attempts (played (l ++ [x])) !! j = Some b -> told (l ++ [x]) j b) /\
  (forall h, h ∈ outbox (played (l ++ [x])) -> told_handover (l ++ [x]) h).
Proof.
  intros Hx Hats Hout.
  assert (outbox (played (l ++ [x])) = outbox (played l) /\
    (attempts (played (l ++ [x])) = attempts (played l) \/ (exists e, x = Crash e))) as [Ho Ha].
  { rewrite played_snoc. destruct Hx as [[op ->]|[[e ->]|(k & Hk & Hn)]].
    - cbn [Executor.act]. destruct (played l), (is_outside op); by split; [|left].
    - destruct (played l). split; [done|right; by exists e].
    - rewrite (act_idle (played l) k x); [by split; [|left]|by rewrite Hn|by destruct x]. }
  split.
  - intros j b Hj. destruct Ha as [Ha|[e ->]]; [rewrite Ha in Hj; by apply told_later, Hats|].
    rewrite played_snoc in Hj. assert (exists a, attempts (played l) !! j = Some a /\ Executor.entry b = Executor.entry a /\ stage b = stage a /\ sending b = sending a) as (a & Hja & He & Hst & Hsd).
    { destruct (played l) as [lg ps ats ob]. cbn in Hj. rewrite list_lookup_fmap in Hj. destruct (ats !! j) as [a|] eqn:E; [|done]. cbn in Hj.
      exists a. split; [done|]. injection Hj as <-. case_decide; [|done]. by destruct a. }
    apply (told_same _ _ a); [done..|]. by apply told_later, Hats.
  - intros h. rewrite Ho. intros Hh. apply told_handover_later; [|by apply Hout]. destruct Ha as [Ha|[e ->]]; [by left|right; right; by exists e].
Qed.

Lemma played_told l : NoDup (filed_ids (ops (played l))) ->
  (forall j b, attempts (played l) !! j = Some b -> told l j b) /\ (forall h, h ∈ outbox (played l) -> told_handover l h).
Proof.
  induction l as [|x l IH] using rev_ind; intros Hnd; [split; [done|by intros h ?%elem_of_nil]|].
  assert (NoDup (filed_ids (ops (played l)))) as Hnd0.
  { rewrite played_snoc in Hnd. destruct (act_filed (played l) x) as [k Hk]. rewrite Hk in Hnd. by apply NoDup_app in Hnd as [? _]. }
  destruct (IH Hnd0) as [Hats Hout]. pose proof (played_sound l Hnd0) as Hs.
  assert (forall k, part_of k x -> (forall j b, attempts (played (l ++ [x])) !! j = Some b -> told (l ++ [x]) j b) /\
    (forall h, h ∈ outbox (played (l ++ [x])) -> told_handover (l ++ [x]) h)) as Hpart.
  { intros k Hk. destruct (attempts (played l) !! k) as [a|] eqn:Ha; [by eapply part_told|]. apply rest_told; [|done..]. right; right. by exists k. }
  destruct x as [op|e env now|k env ad now|k ctx L now|k L m now|k|k|k now|e]; try by eapply Hpart.
  - apply rest_told; [|done..]. left. by eexists.
  - destruct (tick_told l e env now Hnd) as ((more & Hm) & Ho & [Ha|(a & Ha & Hown & Hsd & Hst & Hch)]).
    + split; [intros j b; rewrite Ha; intros Hj; by apply told_later, Hats|]. intros h. rewrite Ho. intros Hh.
      apply told_handover_later; [by left|by apply Hout].
    + split.
      * intros j b. rewrite Ha, lookup_app_Some, list_lookup_singleton_Some. intros [Hj|(_ & _ & <-)]; [by apply told_later, Hats|].
        unfold told. split_and!; [done|done|done|congruence].
      * intros h. rewrite Ho. intros Hh. apply told_handover_later; [|by apply Hout]. right; left. by exists a.
  - apply rest_told; [|done..]. right; left. by eexists.
Qed.

(** C8. What goes out is what its owner approved, and only if it still may. Over the same interleavings, every mail given
    to a provider belongs to an entry that its owner approved earlier in the trace, by a decision that carried the hash
    of exactly the kind, payload and origin the attempt holds. The mail is the one its payload describes: those
    recipients, that subject, that body with its words unchanged. When the entry was claimed its checksum held, whoever
    it was filed for was live, and its account could send; right before the send that account's sending address was the
    one filed, and the trail held the attempt or, for the owner's own, was not kept. A reply goes through that account. *)
Theorem what_goes_out_was_approved l h : NoDup (filed_ids (ops (played l))) -> h ∈ outbox (played l) ->
  exists r p, row_id r = h_entry h /\ owner_approved (ops (played l)) r /\ filing r = Some p /\
    h_mail h = mail_of (kind (filed r)) p /\
    words (chars (m_text (h_mail h))) = words (chars (prop_text p "bodyText")) /\
    (exists provider, checked l r provider /\ (kind (filed r) = mail_reply -> h_provider h = provider)) /\
    exists x, x ∈ l /\ released x (h_attempt h) r.
Proof.
  intros Hnd Hh. destruct (played_told l Hnd) as [Hats Hout]. destruct (Hout h Hh) as (a & p & Ha & Hi & Hsd & Hf & Hm & Hc).
  destruct (Hats _ _ Ha) as (Ho & _ & _ & Hs). destruct (Hs Hsd) as [[pr Hpr] Hrel]. exists (Executor.entry a), p.
  split_and!; [done|done|done|done| | |done].
  - rewrite Hm. cbn [m_text mail_of]. unfold reflowed. rewrite chars_unchars. apply reflow_keeps_the_words.
  - destruct (decide (kind (filed (Executor.entry a)) = mail_reply)) as [Hk|Hk]; [exists (h_provider h); split; [by apply Hc|done]|by exists pr].
Qed.
End Laws.

(** ** A concrete trace *)

Definition sample_ctx : MailContext :=
  {| accountType := fun a => if decide (a = "acc"%string) then Some "business"%string else None;
     registry := [("acc", {| p_accountId := "acc"; p_address := Some "me@x" |})]%string; default_account := None |}.
Definition sample_limits : MailRateLimits :=
  {| callCount := None; hourlyLimit := num_of_Z 50; dailyLimit := num_of_Z 200; dedupWindowMs := 60000 |}.
Definition sample_env : Env :=
  {| mail := Some sample_ctx; isMandateLive := fun _ => false; audit := None; limits := sample_limits |}.
(** Filed, approved, and tried: the deadline passes before the address is read; on the next try the mail goes out. A second
    process ticks in between and finds nothing to claim. *)
Definition sample_trace : list Action :=
  [Outside (OFile "e1" sample_input 0); Outside (ODecide "e1" (Approve sample_shown) "owner" 10); Tick 0 sample_env 20;
   Deadline 0; Tick 1 sample_env 25; Conclude 0 30; Address 0 sample_env (Some "me@x"%string) 40; Tick 0 sample_env 100000;
   Address 1 sample_env (Some " ME@x"%string) 100001; Imported 1 sample_ctx sample_limits 100002;
   Answered 1 sample_limits (Some "m1"%string) 100003; Conclude 1 100004].
Abbreviation sample_world := (played sample_hash true sample_sha sample_parse (fun _ => false) sample_trace).

Example sample_settles : row_status <$> table sample_hash true sample_sha sample_parse sample_world = [done_] /\
  (stage <$> attempts sample_world) = [Over; Over] /\ length (outbox sample_world) = 1%nat.
Proof. vm_compute. split_and!; reflexivity. Qed.

Lemma sample_trace_fresh : NoDup (filed_ids (ops sample_world)).
Proof. apply (bool_decide_unpack _). vm_compute. exact I. Defined.

Lemma the_queue_tells_what_went_out_witness : exists r,
  r ∈ table sample_hash true sample_sha sample_parse sample_world /\ row_status r = done_ /\
  length (handovers sample_world (row_id r)) = 1%nat.
Proof.
  eexists. assert (forall P Q : Prop, P -> (P -> Q) -> P /\ Q) as Hand by tauto. apply Hand; [vm_compute; left|].
  intros Hr. apply Hand; [vm_compute; reflexivity|]. intros Hs.
  pose proof (proj2 (the_queue_tells_what_went_out sample_hash true sample_sha sample_parse (fun _ => false) sample_trace sample_trace_fresh) _ Hr) as H.
  rewrite Hs in H. exact H.
Defined.

Lemma what_goes_out_was_approved_witness : exists h r p,
  h ∈ outbox sample_world /\ row_id r = h_entry h /\
  owner_approved sample_hash true sample_sha sample_parse (ops sample_world) r /\ h_mail h = mail_of (kind (filed r)) p.
Proof.
  assert (exists h, h ∈ outbox sample_world) as [h Hh] by (eexists; vm_compute; left).
  destruct (what_goes_out_was_approved sample_hash true sample_sha sample_parse (fun _ => false) sample_trace h sample_trace_fresh Hh)
    as (r & p & Hi & Ho & _ & Hm & _).
  by exists h, r, p.
Defined.
