(* ===== verification/Glob.v ===== *)
(** The globs of capability contracts, [core/glob.ts]: the pattern a glob becomes, as the list of parts the code joins, and
    the host's reading of the joined pattern. Texts are one byte a character; the two line separators beyond ASCII, which
    a dot of the host's patterns passes over too, are not among them. *)
From S2P Require Import Prelude JsString.

(** One part of the pattern: dot star, a star or one of what is no slash, or an escaped or plain character. *)
(** @src src/src/core/glob.ts 20-21 globToRegex *)
Inductive Part := AnyRun | SegmentRun | NoSlash | Plain (c : ascii).
#[export] Instance Part_eq_dec : EqDecision Part.
Proof. solve_decision. Defined.
Definition is_run (p : Part) : bool := match p with AnyRun | SegmentRun => true | _ => false end.

(** The parts so far are kept last first. *)
(** @src src/src/core/glob.ts 24-31 globToRegex *)
Definition coalesceQuantifier (q : Part) (parts : list Part) : list Part :=
  match parts with
  | last :: before => if is_run last then AnyRun :: before else q :: parts
  | [] => [q]
  end.

Definition star : ascii := "*"%char.
Definition slash : ascii := "/"%char.
Definition question : ascii := "?"%char.
(** @src src/src/core/glob.ts 32-52 globToRegex *)
Fixpoint parts_of (parts : list Part) (glob : list ascii) : list Part :=
  match glob with
  | [] => parts
  | ch :: rest =>
      if decide (ch = star) then
        match rest with
        | ch2 :: rest2 =>
            if decide (ch2 = star) then
              match rest2 with
              | ch3 :: rest3 => parts_of (coalesceQuantifier AnyRun parts) (if decide (ch3 = slash) then rest3 else rest2)
              | [] => coalesceQuantifier AnyRun parts
              end
            else parts_of (coalesceQuantifier SegmentRun parts) rest
        | [] => coalesceQuantifier SegmentRun parts
        end
      else if decide (ch = question) then parts_of (NoSlash :: parts) rest
      else parts_of (Plain ch :: parts) rest
  end.
(** @src src/src/core/glob.ts 18-54 globToRegex *)
Definition globToRegex (glob : list ascii) : list Part := reverse (parts_of [] glob).

(** *** How the host reads a pattern *)

Definition line_break (c : ascii) : bool := (code c =? 10)%Z || (code c =? 13)%Z.
(** A run of characters [f], as long or short as what follows needs. *)
Fixpoint run_then (f : ascii -> bool) (k : list ascii -> bool) (s : list ascii) : bool :=
  k s || match s with c :: s => f c && run_then f k s | [] => false end.
Definition one_then (f : ascii -> bool) (k : list ascii -> bool) (s : list ascii) : bool :=
  match s with c :: s => f c && k s | [] => false end.
Definition not_slash (c : ascii) : bool := negb (bool_decide (c = slash)).
(** [new RegExp('^' + parts + '$').test(s)]. *)
Fixpoint test (parts : list Part) (s : list ascii) : bool :=
  match parts with
  | [] => bool_decide (s = [])
  | AnyRun :: parts => run_then (fun c => negb (line_break c)) (test parts) s
  | SegmentRun :: parts => run_then not_slash (test parts) s
  | NoSlash :: parts => one_then not_slash (test parts) s
  | Plain c :: parts => one_then (fun d => bool_decide (d = c)) (test parts) s
  end.

(** @src src/src/core/glob.ts 59-64 OVERBROAD_HOST_PROBES *)
Definition OVERBROAD_HOST_PROBES : list string := ["a.example.com"; "b.attacker-domain.net"; "c.some-host.org"; "internal.local"]%string.
(** The pattern of a glob always parses. *)
(** @src src/src/core/glob.ts 75-83 isOverbroadHostPattern *)
Definition isOverbroadHostPattern (pattern : list ascii) : bool :=
  (2 <=? length (filter (fun h => test (globToRegex pattern) (chars h) = true) OVERBROAD_HOST_PROBES))%nat.

Example globs_1 : globToRegex (chars "**/**/*a?.**") = [AnyRun; Plain "a"; NoSlash; Plain "."; AnyRun].
Proof. reflexivity. Qed.
Example globs_2 : (isOverbroadHostPattern <$> (chars <$> ["*"; "*.*"; "**"; "?*.???"; "*.googleapis.com"; "*.com"; "internal.local"]%string)) =
  [true; true; true; true; false; false; false].
Proof. vm_compute. reflexivity. Qed.

(** ** What a glob says *)

(** The text of a glob read as its documentation reads it: two stars are any text, with a slash right behind them; one star
    any text without a slash; a question mark one character but a slash; any other character itself. *)
Inductive reads : list ascii -> list ascii -> Prop :=
| reads_end : reads [] []
| reads_deep_dir g w s : reads g s -> reads (star :: star :: slash :: g) (w ++ s)
| reads_deep g w s : head g <> Some slash -> reads g s -> reads (star :: star :: g) (w ++ s)
| reads_star g w s : head g <> Some star -> slash ∉ w -> reads g s -> reads (star :: g) (w ++ s)
| reads_one g c s : c <> slash -> reads g s -> reads (question :: g) (c :: s)
| reads_plain g c s : c <> star -> c <> question -> reads g s -> reads (c :: g) (c :: s).

(** ** What the host's reading amounts to *)

Abbreviation one_line := (Forall (fun c => line_break c = false)).

Lemma run_then_spec f k s : run_then f k s = true <-> exists w v, s = w ++ v /\ Forall (fun c => f c = true) w /\ k v = true.
Proof.
  induction s as [|c s IH]; cbn [run_then]; rewrite orb_true_iff.
  - split; [intros [Hk|Hk]; [by exists [], []|done]|]. intros (w & v & Hs & _ & Hk). symmetry in Hs. apply app_nil in Hs as [-> ->]. by left.
  - rewrite andb_true_iff, IH. split.
    + intros [Hk|(Hc & w & v & -> & Hw & Hk)]; [by exists [], (c :: s)|]. exists (c :: w), v. by split_and!; [|constructor|].
    + intros ([|d w] & v & Hs & Hw & Hk); cbn in Hs; [left; by subst|]. injection Hs as <- ->. inversion Hw; subst. right.
      split; [done|]. by exists w, v.
Qed.

(** What one part takes. *)
Definition takes (p : Part) (w : list ascii) : Prop :=
  match p with
  | AnyRun => one_line w
  | SegmentRun => slash ∉ w
  | NoSlash => exists c, w = [c] /\ c <> slash
  | Plain c => w = [c]
  end.

Lemma not_slash_all w : Forall (fun c => not_slash c = true) w <-> slash ∉ w.
Proof.
  rewrite Forall_forall. unfold not_slash. split.
  - intros H Hin. apply H in Hin. by rewrite bool_decide_true in Hin.
  - intros H c Hc. by rewrite bool_decide_false by (intros ->; done).
Qed.

Lemma one_then_spec f k s : one_then f k s = true <-> exists c v, s = [c] ++ v /\ f c = true /\ k v = true.
Proof.
  destruct s as [|c s]; cbn [one_then]; [split; [done|by intros (? & ? & ? & _)]|]. rewrite andb_true_iff.
  split; [intros [? ?]; by exists c, s|]. intros (d & v & [= -> ->] & ?). done.
Qed.

Lemma test_cons p ps s : test (p :: ps) s = true <-> exists w v, s = w ++ v /\ takes p w /\ test ps v = true.
Proof.
  destruct p as [| | |c]; cbn [test takes].
  - rewrite run_then_spec. by setoid_rewrite negb_true_iff.
  - rewrite run_then_spec. by setoid_rewrite not_slash_all.
  - rewrite one_then_spec. unfold not_slash. setoid_rewrite negb_true_iff. setoid_rewrite bool_decide_eq_false.
    split; [intros (c & v & -> & Hc & Hv); exists [c], v; eauto|intros (w & v & -> & (c & -> & Hc) & Hv); by exists c, v].
  - rewrite one_then_spec. setoid_rewrite bool_decide_eq_true.
    split; [intros (d & v & -> & -> & Hv); by exists [c], v|intros (w & v & -> & -> & Hv); by exists c, v].
Qed.

Lemma test_app ps qs s : test (ps ++ qs) s = true <-> exists w v, s = w ++ v /\ test ps w = true /\ test qs v = true.
Proof.
  revert s. induction ps as [|p ps IH]; intros s; cbn [app].
  - cbn [test]. setoid_rewrite bool_decide_eq_true. split; [by exists [], s|by intros (w & v & -> & -> & Hv)].
  - setoid_rewrite test_cons. setoid_rewrite IH. split.
    + intros (w & v & -> & Hp & w' & v' & -> & Hw & Hv). exists (w ++ w'), v'. rewrite app_assoc. split_and!; [done| |done]. by exists w, w'.
    + intros (w & v & -> & (w1 & w2 & -> & Hp & Hw) & Hv). exists w1, (w2 ++ v). rewrite <-app_assoc. split_and!; [done..|]. by exists w2, v.
Qed.

Lemma test_snoc ps p s : test (ps ++ [p]) s = true <-> exists w v, s = w ++ v /\ test ps w = true /\ takes p v.
Proof.
  rewrite test_app. setoid_rewrite test_cons. cbn [test]. setoid_rewrite bool_decide_eq_true. split.
  - intros (w & v & -> & Hw & x & y & -> & Hp & ->). exists w, x. by rewrite app_nil_r.
  - intros (w & v & -> & Hw & Hp). exists w, v. split_and!; [done..|]. exists v, []. by rewrite app_nil_r.
Qed.

(** [acc'] is [acc] with a part [p] behind it. *)
Definition extends (acc acc' : list Part) (p : Part) : Prop := forall s, one_line s ->
  test (reverse acc') s = true <-> exists w v, s = w ++ v /\ test (reverse acc) w = true /\ takes p v.

Lemma plain_extends p acc : extends acc (p :: acc) p.
Proof. intros s _. rewrite reverse_cons. apply test_snoc. Qed.

(** Two runs in a row are one, where the first takes slashes. *)
Lemma coalesce_extends q acc : is_run q = true -> head acc <> Some SegmentRun -> extends acc (coalesceQuantifier q acc) q.
Proof.
  intros Hq Hacc s Hs. destruct acc as [|p acc]; [by apply (plain_extends q [])|]. cbn [coalesceQuantifier]. destruct (is_run p) eqn:Hp; [|by apply plain_extends].
  assert (p = AnyRun) as -> by (destruct p; naive_solver). rewrite reverse_cons. split.
  - intros H. exists s, []. rewrite app_nil_r. split_and!; [done..|]. destruct q; try done; [constructor|cbn; set_solver].
  - intros (w & v & -> & (x & y & -> & Hx & Hy)%test_snoc & _). apply test_snoc. apply Forall_app in Hs as [_ Hv].
    exists x, (y ++ v). rewrite <-app_assoc. split_and!; [done..|]. by apply Forall_app.
Qed.

(** [g] reads as the part [p] and then as [g']. *)
Definition begins (g : list ascii) (p : Part) (g' : list ascii) : Prop := forall s, one_line s ->
  reads g s <-> exists w v, s = w ++ v /\ takes p w /\ reads g' v.

Lemma deep_dir_begins g : begins (star :: star :: slash :: g) AnyRun g.
Proof.
  intros s Hs. split.
  - intros H. inversion H; subst; try done. apply Forall_app in Hs as [? _]. by eexists _, _.
  - intros (w & v & -> & _ & H). by constructor.
Qed.
Lemma deep_begins g : head g <> Some slash -> begins (star :: star :: g) AnyRun g.
Proof.
  intros Hg s Hs. split.
  - intros H. inversion H; subst; try done. apply Forall_app in Hs as [? _]. by eexists _, _.
  - intros (w & v & -> & _ & H). by constructor.
Qed.
Lemma star_begins g : head g <> Some star -> begins (star :: g) SegmentRun g.
Proof.
  intros Hg s Hs. split.
  - intros H. inversion H; subst; try done. by eexists _, _.
  - intros (w & v & -> & Hw & H). by constructor.
Qed.
Lemma one_begins g : begins (question :: g) NoSlash g.
Proof.
  intros s Hs. split.
  - intros H. inversion H; subst; try done. eexists [_], _. split_and!; [done|by eexists|done].
  - intros (w & v & -> & (c & -> & Hc) & H). by constructor.
Qed.
Lemma plain_begins c g : c <> star -> c <> question -> begins (c :: g) (Plain c) g.
Proof.
  intros H1 H2 s Hs. split.
  - intros H. inversion H; subst; try done. by eexists [_], _.
  - intros (w & v & -> & -> & H). by constructor.
Qed.

(** What the parts so far take, and then what the rest of the glob says. *)
Definition read_behind (acc : list Part) (g : list ascii) (s : list ascii) : Prop :=
  exists w v, s = w ++ v /\ test (reverse acc) w = true /\ reads g v.

Lemma read_on acc acc' p g g' s : one_line s -> extends acc acc' p -> begins g p g' -> read_behind acc' g' s <-> read_behind acc g s.
Proof.
  intros Hs He Hb. split; intros (w & v & -> & Hw & Hv); apply Forall_app in Hs as [Hlw Hlv].
  - apply (He _ Hlw) in Hw as (x & y & -> & Hx & Hy). apply Forall_app in Hlw as [_ Hly].
    exists x, (y ++ v). rewrite <-app_assoc. split_and!; [done..|]. apply Hb; [by apply Forall_app|]. by exists y, v.
  - apply (Hb _ Hlv) in Hv as (x & y & -> & Hx & Hy). apply Forall_app in Hlv as [Hlx _].
    exists (w ++ x), y. rewrite <-app_assoc. split_and!; [done| |done]. apply He; [by apply Forall_app|]. by exists w, x.
Qed.

(** A single star is followed by no star, so its part is never merged with. *)
Definition may_follow (acc : list Part) (g : list ascii) : Prop := head acc = Some SegmentRun -> head g <> Some star.

Lemma coalesced_not_segment acc : head (coalesceQuantifier AnyRun acc) <> Some SegmentRun.
Proof. destruct acc as [|p acc]; [done|]. cbn. by destruct (is_run p). Qed.

Lemma parts_read n g acc s : (length g <= n)%nat -> one_line s -> may_follow acc g ->
  test (reverse (parts_of acc g)) s = true <-> read_behind acc g s.
Proof.
  revert g acc. induction n as [|n IH]; intros [|ch g] acc Hn Hs Hf; cbn [length] in Hn; try lia;
    try (split; [intros H; exists s, []; rewrite app_nil_r; by split_and!; [| |constructor]|intros (w & v & -> & H & Hv); inversion Hv; by rewrite app_nil_r]).
  assert (forall acc' p g', (length g' <= n)%nat -> may_follow acc' g' -> extends acc acc' p -> begins (ch :: g) p g' ->
    test (reverse (parts_of acc' g')) s = true <-> read_behind acc (ch :: g) s) as Hnext.
  { intros acc' p g' Hl Hf' He Hb. rewrite IH by done. by apply (read_on _ _ p). }
  cbn [parts_of]. destruct (decide (ch = star)) as [->|Hstar].
  - assert (head acc <> Some SegmentRun) as Hacc by (intros H; by apply (Hf H)).
    assert (extends acc (coalesceQuantifier AnyRun acc) AnyRun /\ extends acc (coalesceQuantifier SegmentRun acc) SegmentRun) as [Hany Hseg]
      by (by split; apply coalesce_extends).
    assert (forall g', may_follow (coalesceQuantifier AnyRun acc) g') as Hfa by (intros g' H; by apply coalesced_not_segment in H).
    destruct g as [|ch2 g]; [by apply (Hnext _ SegmentRun []); [cbn; lia|intros _|..|apply star_begins]|].
    destruct (decide (ch2 = star)) as [->|H2].
    2:{ apply (Hnext _ SegmentRun (ch2 :: g)); [cbn in *; lia|intros _; cbn; congruence|done|]. apply star_begins. cbn. congruence. }
    destruct g as [|ch3 g]; [by apply (Hnext _ AnyRun []); [cbn; lia|..|apply deep_begins]|]. cbn in Hn.
    destruct (decide (ch3 = slash)) as [->|H3]; (apply (Hnext _ AnyRun); [cbn; lia|done..|]);
      [apply deep_dir_begins|apply deep_begins; cbn; congruence].
  - destruct (decide (ch = question)) as [->|Hq]; [apply (Hnext _ NoSlash); [lia|done|apply plain_extends|apply one_begins]|].
    apply (Hnext _ (Plain ch)); [lia|done|apply plain_extends|by apply plain_begins].
Qed.

(** ** No two runs in a row *)

Definition runs_in_a_row (ps : list Part) : Prop := exists a p q b, ps = a ++ p :: q :: b /\ is_run p = true /\ is_run q = true.

Lemma runs_reverse ps : runs_in_a_row (reverse ps) -> runs_in_a_row ps.
Proof.
  intros (a & p & q & b & H & Hp & Hq). exists (reverse b), q, p, (reverse a). split_and!; [|done..].
  rewrite <-(reverse_involutive ps), H, reverse_app, !reverse_cons, <-!app_assoc. done.
Qed.

Lemma runs_cons p ps : ~ runs_in_a_row ps -> (is_run p = true -> forall q, head ps = Some q -> is_run q = false) -> ~ runs_in_a_row (p :: ps).
Proof.
  intros Hps Hp ([|x a] & y & z & b & H & Hy & Hz); injection H as -> ->; [specialize (Hp Hy z eq_refl); congruence|].
  apply Hps. by exists a, y, z, b.
Qed.

Lemma coalesce_no_runs q ps : is_run q = true -> ~ runs_in_a_row ps -> ~ runs_in_a_row (coalesceQuantifier q ps).
Proof.
  intros Hq Hps. destruct ps as [|p ps]; [by apply runs_cons|]. cbn [coalesceQuantifier]. destruct (is_run p) eqn:Hp.
  - apply runs_cons.
    + intros (a & y & z & b & -> & H). apply Hps. by exists (p :: a), y, z, b.
    + intros _ z Hz. destruct (is_run z) eqn:E; [|done]. exfalso. apply Hps. destruct ps as [|z' ps]; [done|]. injection Hz as ->. by exists [], p, z, ps.
  - apply runs_cons; [done|]. by intros _ z [= <-].
Qed.

Lemma parts_no_runs n g acc : (length g <= n)%nat -> ~ runs_in_a_row acc -> ~ runs_in_a_row (parts_of acc g).
Proof.
  revert g acc. induction n as [|n IH]; intros [|ch g] acc Hn Ha; cbn [length] in Hn; try lia; try done. cbn [parts_of].
  destruct (decide (ch = star)) as [->|_].
  - destruct g as [|ch2 g]; [by apply coalesce_no_runs|]. cbn in Hn. destruct (decide (ch2 = star)).
    + destruct g as [|ch3 g]; [by apply coalesce_no_runs|]. cbn in Hn. destruct (decide (ch3 = slash)); (apply IH; [cbn; lia|by apply coalesce_no_runs]).
    + apply IH; [cbn; lia|by apply coalesce_no_runs].
  - destruct (decide (ch = question)); (apply IH; [lia|by apply runs_cons]).
Qed.

(** ** The glob and its pattern *)

Lemma test_reads g s : one_line s -> test (globToRegex g) s = true <-> reads g s.
Proof.
  intros Hs. unfold globToRegex. rewrite (parts_read (length g)) by done. unfold read_behind. cbn. setoid_rewrite bool_decide_eq_true.
  split; [by intros (w & v & -> & -> & H)|]. intros H. by exists [], s.
Qed.

(** C24. The pattern of a glob says what its documentation says and keeps the invariant its comment names. On every text
    of one line it matches exactly the texts the glob reads as, so merging runs changes nothing; and whatever stars and
    slashes the glob strings together, no two unbounded runs are adjacent in it. This bounds no matching time: runs with a
    character between them stay, and what a matcher then tries is [runs_apart_are_tried_together]. *)
Theorem globs_match_what_they_say g : ~ runs_in_a_row (globToRegex g) /\
  forall s, one_line s -> test (globToRegex g) s = true <-> reads g s.
Proof.
  split; [|intros s; apply test_reads]. unfold globToRegex. intros H%runs_reverse. revert H.
  apply (parts_no_runs (length g)); [done|]. by intros ([|] & ? & ? & ? & ? & _).
Qed.

Example globs_match_what_they_say_witness :
  one_line (chars "a/b/c.md") /\ ~ runs_in_a_row (globToRegex (chars "**/**/***.md")) /\ reads (chars "**/**/***.md") (chars "a/b/c.md").
Proof.
  assert (one_line (chars "a/b/c.md")) as Hl by (repeat constructor).
  destruct (globs_match_what_they_say (chars "**/**/***.md")) as [Hr Hm]. split_and!; [done|done|]. apply (Hm _ Hl). by vm_compute.
Defined.

(** How often a matcher that backtracks looks at a part before it gives a text up, where it cannot match. *)
Fixpoint run_tries (f : ascii -> bool) (k : list ascii -> nat) (s : list ascii) : nat :=
  (k s + match s with c :: s => if f c then run_tries f k s else 0 | [] => 0 end)%nat.
Definition one_tries (f : ascii -> bool) (k : list ascii -> nat) (s : list ascii) : nat :=
  match s with c :: s => if f c then k s else 0%nat | [] => 0%nat end.
Fixpoint tries (parts : list Part) (s : list ascii) : nat :=
  S match parts with
    | [] => 0
    | AnyRun :: parts => run_tries (fun c => negb (line_break c)) (tries parts) s
    | SegmentRun :: parts => run_tries not_slash (tries parts) s
    | NoSlash :: parts => one_tries not_slash (tries parts) s
    | Plain c :: parts => one_tries (fun d => bool_decide (d = c)) (tries parts) s
    end.
(** Six runs with a letter between each two, against thirty of that letter: more than a million. *)
Example runs_apart_are_tried_together : let g := chars "*a*a*a*a*a*b" in let s := replicate 30 "a"%char in
  test (globToRegex g) s = false /\ ~ reads g s /\ (1000000 <? Z.of_nat (tries (globToRegex g) s))%Z = true.
Proof.
  assert (test (globToRegex (chars "*a*a*a*a*a*b")) (replicate 30 "a"%char) = false) as H by (vm_compute; reflexivity).
  split_and!; [done| |vm_compute; reflexivity]. intros Hr. assert (one_line (replicate 30 "a"%char)) as Hl by repeat constructor.
  pose proof (proj2 (test_reads _ _ Hl) Hr). congruence.
Qed.

(** On a text of several lines a merged run takes less: the dot of a pattern stops at a line break, a star of a glob does not. *)
Example a_merged_run_stops_at_line_breaks :
  test (globToRegex (chars "***")) [chr 10] = false /\ reads (chars "***") [chr 10] /\ test (globToRegex (chars "*")) [chr 10] = true.
Proof.
  split_and!; [reflexivity| |reflexivity]. apply (reads_deep (chars "*") [chr 10] []); [done|]. apply (reads_star [] [] []); [done|set_solver|constructor].
Qed.

(** A glob without stars and question marks matches itself and nothing else. *)
Lemma literal_parts g acc : star ∉ g -> question ∉ g -> parts_of acc g = reverse (Plain <$> g) ++ acc.
Proof.
  revert acc. induction g as [|c g IH]; intros acc; [done|]. intros [H1 Hs]%not_elem_of_cons [H2 Hq]%not_elem_of_cons.
  cbn [parts_of]. rewrite !decide_False by done. rewrite IH by done. csimpl. by rewrite reverse_cons, <-app_assoc.
Qed.

Lemma literal_glob g s : star ∉ g -> question ∉ g -> test (globToRegex g) s = bool_decide (s = g).
Proof.
  intros Hs Hq. unfold globToRegex. rewrite literal_parts, app_nil_r, reverse_involutive by done. clear Hs Hq.
  revert s. induction g as [|c g IH]; intros s; [by apply bool_decide_ext|]. change (Plain <$> c :: g) with (Plain c :: (Plain <$> g)). cbn [test]. destruct s as [|d s]; [by rewrite bool_decide_eq_false_2|]. cbn [one_then]. rewrite IH.
  destruct (bool_decide (d = c)) eqn:E; cbn [andb].
  - apply bool_decide_eq_true in E as ->. apply bool_decide_ext. naive_solver.
  - symmetry. apply bool_decide_eq_false in E. apply bool_decide_eq_false. naive_solver.
Qed.

(** *** Which host globs count as over-broad *)

Lemma last_of_cons {A} (x y : A) l : last (x :: l) = Some y -> l = [] /\ x = y \/ last l = Some y.
Proof. destruct l; [intros [= ->]; by left|by right]. Qed.

Lemma reads_last g s c : reads g s -> last g = Some c -> c <> star -> c <> question -> c <> slash -> last s = Some c.
Proof.
  intros H. revert c. induction H as [|g w s _ IH|g w s _ _ IH|g w s _ _ H IH|g c s _ H IH|g d s _ _ H IH]; intros e Hl N1 N2 N3; [done|..];
    rewrite ?last_cons_cons in Hl; apply last_of_cons in Hl as [[-> E]|Hl]; try congruence.
  1-3: by rewrite last_app, (IH e).
  - by rewrite last_cons, (IH e).
  - subst d. by inversion H.
  - by rewrite last_cons, (IH e).
Qed.

(** A glob that ends in a fixed character fits one of the probes at most: no two of them end alike. *)
Lemma a_fixed_end_is_not_overbroad g c : last g = Some c -> c <> star -> c <> question -> c <> slash -> isOverbroadHostPattern g = false.
Proof.
  intros Hl H1 H2 H3. unfold isOverbroadHostPattern.
  assert (Forall (fun h => one_line (chars h)) OVERBROAD_HOST_PROBES) as Hone by repeat constructor. rewrite Forall_forall in Hone.
  assert (forall h, h ∈ OVERBROAD_HOST_PROBES -> test (globToRegex g) (chars h) = true -> last (chars h) = Some c) as Hlast.
  { intros h Hh Ht. eapply reads_last; [|exact Hl|done..]. unfold globToRegex in Ht.
    apply (parts_read (length g)) in Ht as (w & v & -> & Hw & Hv); [|done|by apply Hone|done]. cbn in Hw. apply bool_decide_eq_true in Hw as ->. done. }
  unfold OVERBROAD_HOST_PROBES in *. rewrite !filter_cons, filter_nil.
  repeat case_decide; try done;
    repeat match goal with H : test _ (chars ?h) = true |- _ => apply Hlast in H; [cbn in H|set_solver] end; congruence.
Qed.
