(* ===== verification/Contract.v ===== *)
(** Capability contracts, the grants of unattended writes: [orchestrator/contract-validation.ts] (which contract a saved
    workflow may carry, the one derived from its steps, the one built from what a person typed) and [contractGrants] of
    [tools/permission-guard.ts], which asks a contract about one call.

    The platform's [URL] parser is an argument, and so are the two questions about an address that live elsewhere: whether
    a GraphQL endpoint or a mail provider answers there. A step is its JSON value. The contracts the engine mints in a
    process for one bulk run's list or shop reads are told apart by object identity; what those decide is an argument. *)
From S2P Require Import Prelude Num JsString JsValue StepContext WorkflowParams Egress Glob.

(** ** Contracts *)

(** @src src/src/types/capability-contract.ts 78-78 ContractOrigin *)
Inductive ContractOrigin := authorship | reviewed.
#[export] Instance ContractOrigin_eq_dec : EqDecision ContractOrigin.
Proof. solve_decision. Defined.

(** @src src/src/types/capability-contract.ts 80-100 CapabilityContract *)
Record CapabilityContract := {
  version : Z; c_origin : option ContractOrigin; grantedTools : list string; httpMethods : list string;
  hostPatterns : list string; pathPatterns : list string; paramConstraints : list (string * ParamConstraint) }.

(** What the code reads of a parsed URL. *)
Record ParsedUrl := {
  protocol : string; hostname : string; port : string; username : string; password : string;
  pathname : string; search : string; hash : string }.

Definition c_open : ascii := "{"%char.
Definition c_close : ascii := "}"%char.
Definition c_dot : ascii := "."%char.

(** ** Parameters a template names *)

(** A match of the parameter pattern at the start of the text: the name, and what follows it. *)
(** @src src/src/orchestrator/contract-validation.ts 23-23 PARAM_REF *)
Definition PARAM_REF (l : list ascii) : option (list ascii * list ascii) :=
  match l with
  | a :: b :: r =>
      if bool_decide (a = c_open) && bool_decide (b = c_open) then
        let r := drop_while is_space r in
        if is_prefix (chars "params.") r then
          let r := drop (length (chars "params.")) r in
          let in_name c := negb (bool_decide (c = c_dot)) && negb (bool_decide (c = c_close)) && negb (is_space c) in
          match take_while in_name r with [] => None | name => Some (name, drop_while in_name r) end
        else None
      else None
  | _ => None
  end.
(** All matches of a text, from the left, none inside another. *)
Fixpoint matchAll (fuel : nat) (l : list ascii) : list string :=
  match fuel with
  | O => []
  | S fuel =>
      match PARAM_REF l, l with
      | Some (name, rest), _ => unchars name :: matchAll fuel rest
      | None, _ :: l => matchAll fuel l
      | None, [] => []
      end
  end.
Definition names_in (s : string) : list string := matchAll (S (length (chars s))) (chars s).

(** @src src/src/orchestrator/contract-validation.ts 43-51 walk *)
Fixpoint names_of (v : jval) : list string :=
  match v with
  | JStr s => names_in s
  | JArr l => mjoin (names_of <$> l)
  | JObj fs => mjoin ((fun kv => names_of kv.2) <$> fs)
  | _ => []
  end.
Definition template_of (step : jval) : jval := js_prop step "input_template".
(** @src src/src/orchestrator/contract-validation.ts 40-54 paramsReferencedInTemplate *)
Definition paramsReferencedInTemplate (template : jval) : list string := js_set_of (names_of template).
Definition referenced_in (steps : list jval) : list string :=
  foldl (fun found step => foldl js_set_add found (paramsReferencedInTemplate (template_of step))) [] steps.

(** @src src/src/orchestrator/contract-validation.ts 28-36 isEffectiveConstraint *)
Definition isEffectiveConstraint (c : option ParamConstraint) : bool :=
  match c with
  | None => false
  | Some c => match c_enum c with Some (_ :: _) => true | _ => false end ||
              bool_decide (is_Some (c_regex c)) || bool_decide (is_Some (c_min c)) || bool_decide (is_Some (c_max c))
  end.

(** ** Headers *)

(** @src src/src/tools/permission-guard.ts 822-824 REVIEWED_HEADERS *)
Definition REVIEWED_HEADERS : list string :=
  ["content-type"; "accept"; "accept-language"; "idempotency-key"; "if-match"; "if-none-match"]%string.
(** Dashes between runs of letters and digits, two runs at least, the last of them [version]. *)
(** @src src/src/tools/permission-guard.ts 831-831 VERSION_HEADER *)
Definition VERSION_HEADER (name : string) : bool :=
  let parts := split_chars "-" (chars name) in
  (2 <=? length parts)%nat && bool_decide (last parts = Some (chars "version")) &&
  forallb (fun p => negb (bool_decide (p = [])) && forallb (fun c => is_lower c || is_digit c) p) parts.
(** @src src/src/tools/permission-guard.ts 837-840 isReviewedHeaderName *)
Definition isReviewedHeaderName (raw : string) : bool :=
  let name := toLowerCase (trim raw) in bool_decide (name ∈ REVIEWED_HEADERS) || VERSION_HEADER name.
(** [Object.keys]; the keys of a list are its indices. *)
Definition object_keys (v : jval) : list string :=
  match v with JObj fs => jm_keys fs | JArr l => imap (fun i _ => int_text (Z.of_nat i)) l | _ => [] end.
(** @src src/src/tools/permission-guard.ts 842-845 carriesUnreviewedHeader *)
Definition carriesUnreviewedHeader (headers : jval) : bool :=
  is_object headers && existsb (fun raw => negb (isReviewedHeaderName raw)) (object_keys headers).

(** ** Addresses *)

(** @src src/src/orchestrator/contract-validation.ts 139-139 MINTABLE_WRITE_METHODS *)
Definition MINTABLE_WRITE_METHODS : list string := ["POST"; "PUT"; "PATCH"]%string.
(** @src src/src/orchestrator/contract-validation.ts 143-143 GLOB_META *)
Definition GLOB_META (s : string) : bool :=
  existsb (fun c => bool_decide (c ∈ ["*"; "?"; "["; "]"]%char)) (chars s).
(** @src src/src/core/outbound-write.ts 29-31 isReadMethod *)
Definition isReadMethod (m : string) : bool := bool_decide (m = "GET"%string) || bool_decide (m = "HEAD"%string).
(** @src src/src/tools/permission-guard.ts 855-863 isReviewableUrl *)
Definition isReviewableUrl (parsed : ParsedUrl) (raw : string) : bool :=
  bool_decide (protocol parsed = "https:"%string) && bool_decide (port parsed = ""%string) &&
  bool_decide (username parsed = ""%string) && bool_decide (password parsed = ""%string) &&
  negb (includes raw "?") && negb (includes raw "#").
(** [hostname.replace(/^\[|\]$/g, '')]. *)
Definition without_brackets (h : string) : string :=
  let l := chars h in
  let l := match l with c :: r => if decide (c = "["%char) then r else l | [] => l end in
  let k := reverse l in
  unchars (reverse (match k with c :: r => if decide (c = "]"%char) then r else k | [] => k end)).

(** @src src/src/tools/permission-guard.ts 742-748 _matchesAnyGlob *)
Definition matchesAnyGlob (value : string) (patterns : list string) : bool :=
  existsb (fun p => test (globToRegex (chars p)) (chars value)) patterns.

Section Contract.
(** [new URL(s)], [None] when it throws; [isGraphqlEndpoint] of [core/outbound-write.ts]; [isMailProviderTarget] of
    [core/bulk-mail-targets.ts]. *)
Context (URL : string -> option ParsedUrl) (isGraphqlEndpoint isMailProviderTarget : string -> bool).

(** ** The check of a call *)

(** [shopify] and [listQuery] are what the engine attached to this very object, if anything. *)
(** @src src/src/tools/permission-guard.ts 764-807 contractGrants *)
Definition contractGrants (shopify : option (jval -> string -> bool)) (listQuery : option (jval -> string -> string -> bool))
    (toolName : string) (input : jval) (contract : CapabilityContract) : bool :=
  if negb (bool_decide (toolName ∈ grantedTools contract)) then false
  else if negb (bool_decide (toolName = "http_request"%string)) then false
  else if negb (is_object input) then false
  else
    let method := toUpperCase (match js_prop input "method" with JStr m => m | _ => "GET"%string end) in
    let url := match js_prop input "url" with JStr u => Some u | _ => None end in
    match shopify, negb (isReadMethod method) || match url with Some u => isGraphqlEndpoint u | None => true end with
    | Some grantsShopify, true => grantsShopify input method
    | _, _ =>
        if negb (existsb (fun m => bool_decide (toUpperCase m = method)) (httpMethods contract)) then false
        else match url with
        | None => false
        | Some url =>
            if negb (isReadMethod method) && isGraphqlEndpoint url then false
            else match URL url with
            | None => false
            | Some parsed =>
                if isMailProviderTarget url then false
                else if match listQuery with
                        | None => bool_decide (c_origin contract = Some reviewed) && negb (isReviewableUrl parsed url)
                        | Some grantsListRead => negb (grantsListRead input url method)
                        end then false
                else if bool_decide (c_origin contract = Some reviewed) && carriesUnreviewedHeader (js_prop input "headers") then false
                else matchesAnyGlob (without_brackets (hostname parsed)) (hostPatterns contract) &&
                     matchesAnyGlob (pathname parsed) (pathPatterns contract)
            end
        end
    end.

(** ** The shape of a reviewed contract *)

(** @src src/src/orchestrator/contract-validation.ts 300-300 MAX_REVIEWED_PATHS *)
Definition MAX_REVIEWED_PATHS : nat := 20.

(** @src src/src/orchestrator/contract-validation.ts 308-321 normaliseReviewedHost *)
Definition normaliseReviewedHost (entry : string) : option string :=
  let raw := trim entry in
  if bool_decide (raw = ""%string) || existsb (fun c => bool_decide (c ∈ ["/"; "?"; "#"; "@"; "\"]%char) || is_space c) (chars raw) then None
  else match URL ("https://" ++ raw) with
  | None => None
  | Some url =>
      if negb (bool_decide (port url = ""%string)) || negb (bool_decide (username url = ""%string)) || negb (bool_decide (password url = ""%string)) then None
      else if negb (bool_decide (pathname url = "/"%string)) || negb (bool_decide (search url = ""%string)) || negb (bool_decide (hash url = ""%string)) then None
      else if GLOB_META (hostname url) then None
      else Some (hostname url)
  end.

(** @src src/src/orchestrator/contract-validation.ts 325-334 isLiteralReviewedPath *)
Definition isLiteralReviewedPath (path : string) : bool :=
  if negb (startsWith path "/") || existsb (fun c => bool_decide (c ∈ ["?"; "#"; "\"]%char)) (chars path) || GLOB_META path then false
  else match URL ("https://h.invalid" ++ path) with
  | None => false
  | Some u => bool_decide (pathname u = path)
  end.

Inductive ShapeError := NotHttpAlone | NotOneWrite | NotOneHost | HostNotLiteral | PathCount
  | PathNotLiteral (path : string) | MailTarget (path : string) | GraphqlTarget (path : string)
  | ConstrainedUnused (name : string) | NotOneValue (name : string) | NotBound (name : string).

(** The first element with an error. *)
Fixpoint first_error {A E} (f : A -> option E) (l : list A) : option E :=
  match l with [] => None | x :: l => match f x with Some e => Some e | None => first_error f l end end.
Definition path_error (host path : string) : option ShapeError :=
  let target := ("https://" ++ host ++ path)%string in
  if negb (isLiteralReviewedPath path) then Some (PathNotLiteral path)
  else if isMailProviderTarget target then Some (MailTarget path)
  else if isGraphqlEndpoint target then Some (GraphqlTarget path) else None.
(** How many fields of a constraint are set. *)
Definition fields_set (c : ParamConstraint) : nat :=
  let one {A} (o : option A) := match o with Some _ => 1%nat | None => 0%nat end in
  (one (c_enum c) + one (c_regex c) + one (c_min c) + one (c_max c))%nat.
Definition constraint_error (referenced : list string) (entry : string * ParamConstraint) : option ShapeError :=
  let '(name, c) := entry in
  if negb (bool_decide (name ∈ referenced)) then Some (ConstrainedUnused name)
  else if bool_decide (fields_set c = 1%nat) && match c_enum c with Some [_] => true | _ => false end then None else Some (NotOneValue name).
(** [name in obj], through the prototype. *)
Definition js_in {V} (name : string) (m : list (string * V)) : bool := jm_has m name || negb (is_undef (object_inherited name)).

(** @src src/src/orchestrator/contract-validation.ts 351-391 reviewedContractShapeError *)
Definition reviewedContractShapeError (contract : CapabilityContract) (steps : list jval) : option ShapeError :=
  if negb (bool_decide (grantedTools contract = ["http_request"%string])) then Some NotHttpAlone
  else
    let methods := toUpperCase <$> httpMethods contract in
    let writes := filter (fun m => m <> "GET"%string) methods in
    if negb (length methods =? 2)%nat || negb (bool_decide ("GET"%string ∈ methods)) ||
       negb match writes with [w] => bool_decide (w ∈ MINTABLE_WRITE_METHODS) | _ => false end then Some NotOneWrite
    else match hostPatterns contract with
    | [host] =>
        if negb (bool_decide (normaliseReviewedHost host = Some host)) then Some HostNotLiteral
        else
          let paths := pathPatterns contract in
          if bool_decide (paths = []) || (MAX_REVIEWED_PATHS <? length paths)%nat then Some PathCount
          else match first_error (path_error host) paths with
          | Some e => Some e
          | None =>
              let referenced := referenced_in steps in
              match first_error (constraint_error referenced) (paramConstraints contract) with
              | Some e => Some e
              | None => first_error (fun name => if js_in name (paramConstraints contract) then None else Some (NotBound name)) referenced
              end
          end
    | _ => Some NotOneHost
    end.

(** ** What a saved workflow may carry *)

Inductive ContractError := BadShape (e : ShapeError) | Overbroad (hosts : list string) | Unconstrained (names : list string).

(** @src src/src/orchestrator/contract-validation.ts 70-116 validateContractAgainstSteps *)
Definition validateContractAgainstSteps (capabilityContract : option CapabilityContract) (steps : list jval) : option ContractError :=
  match capabilityContract with
  | None => None
  | Some contract =>
      match (if bool_decide (c_origin contract = Some reviewed) then reviewedContractShapeError contract steps else None) with
      | Some e => Some (BadShape e)
      | None =>
          match filter (fun h => isOverbroadHostPattern (chars h) = true) (hostPatterns contract) with
          | _ :: _ as overbroadHosts => Some (Overbroad overbroadHosts)
          | [] =>
              let constrained := js_set_of (filter (fun kv => isEffectiveConstraint (Some kv.2) = true) (paramConstraints contract)).*1 in
              match filter (fun p => p ∉ constrained) (referenced_in steps) with
              | _ :: _ as unconstrained => Some (Unconstrained unconstrained)
              | [] => None
              end
          end
      end
  end.

(** ** The contract of the steps *)

(** What the loop over the steps holds. *)
(** @src src/src/orchestrator/contract-validation.ts 197-202 mintContractFromSteps *)
Record Minted := { methods : list string; hosts : list string; paths : list string; performed : list string }.
Definition literal_target (rawUrl : string) : option ParsedUrl :=
  if includes rawUrl "{{" then None
  else match URL rawUrl with
  | None => None
  | Some parsed =>
      if negb (bool_decide (protocol parsed = "https:"%string)) || negb (bool_decide (port parsed = ""%string)) ||
         GLOB_META (hostname parsed) || GLOB_META (pathname parsed) then None
      else Some parsed
  end.
Definition call_text (m h p : string) : string := (m ++ " " ++ h ++ " " ++ p)%string.
(** One step: [None] is the return without a contract. *)
(** @src src/src/orchestrator/contract-validation.ts 204-263 mintContractFromSteps *)
Definition mint_step (acc : Minted) (step : jval) : option Minted :=
  match js_prop step "tool", template_of step with
  | JStr tool, template =>
      if negb (bool_decide (tool = "http_request"%string)) || negb (is_object template) then Some acc
      else
        let rawMethod := match js_prop template "method" with JStr m => toUpperCase m | _ => "GET"%string end in
        if negb (bool_decide (rawMethod ∈ MINTABLE_WRITE_METHODS)) then Some acc
        else match js_prop template "url" with
        | JStr rawUrl =>
            (fun parsed => {| methods := js_set_add (methods acc) rawMethod; hosts := js_set_add (hosts acc) (hostname parsed);
                              paths := js_set_add (paths acc) (pathname parsed);
                              performed := js_set_add (performed acc) (call_text rawMethod (hostname parsed) (pathname parsed)) |})
            <$> literal_target rawUrl
        | _ => None
        end
  | _, _ => Some acc
  end.
Fixpoint mint_steps (acc : Minted) (steps : list jval) : option Minted :=
  match steps with
  | [] => Some acc
  | step :: steps => match mint_step acc step with Some acc => mint_steps acc steps | None => None end
  end.
Definition nothing_minted : Minted := {| methods := []; hosts := []; paths := []; performed := [] |}.
(** @src src/src/orchestrator/contract-validation.ts 186-289 mintContractFromSteps *)
Definition mintContractFromSteps (steps : list jval) : option CapabilityContract :=
  if bool_decide (steps = []) || existsb (fun step => negb (bool_decide (paramsReferencedInTemplate (template_of step) = []))) steps then None
  else match mint_steps nothing_minted steps with
  | None => None
  | Some acc =>
      if bool_decide (methods acc = []) then None
      else if negb (length (methods acc) * length (hosts acc) * length (paths acc) =? length (performed acc))%nat then None
      else Some {| version := 1; c_origin := Some authorship; grantedTools := ["http_request"%string]; httpMethods := methods acc;
                   hostPatterns := hosts acc; pathPatterns := paths acc; paramConstraints := [] |}
  end.

(** ** The contract a person types *)

(** @src src/src/orchestrator/contract-validation.ts 293-297 ReviewedGrantEntry *)
Record ReviewedGrantEntry := { e_method : string; e_host : string; e_paths : list string }.

Inductive BuildError := BadMethod | BadHost | NoValue (name : string) | Misshapen (e : ShapeError)
  | TakesHeaders (step : jval) | SetsHeaders (step : jval) (names : list string).

(** @src src/src/orchestrator/contract-validation.ts 401-410 reviewedHeaderError *)
Definition reviewedHeaderError (step : jval) : option BuildError :=
  let template := template_of step in
  if is_undef template then None
  else match js_prop template "headers" with
  | JUndef => None
  | JObj fs => match filter (fun name => negb (isReviewedHeaderName name) = true) (jm_keys fs) with
               | [] => None
               | refused => Some (SetsHeaders (js_prop step "id") refused)
               end
  | _ => Some (TakesHeaders (js_prop step "id"))
  end.

Definition one_value (v : jval) : ParamConstraint := {| c_enum := Some [v]; c_regex := None; c_min := None; c_max := None |}.
(** Every name of a step's template pinned to its value. *)
(** @src src/src/orchestrator/contract-validation.ts 430-436 buildReviewedContract *)
Fixpoint pin_names (boundParams : context) (names : list string) (cs : list (string * ParamConstraint)) : result BuildError (list (string * ParamConstraint)) :=
  match names with
  | [] => Ok cs
  | name :: names =>
      match js_prop (JObj boundParams) name with
      | (JStr _ | JNum _) as value => pin_names boundParams names (jm_set cs name (one_value value))
      | _ => Err (NoValue name)
      end
  end.
Fixpoint pin_steps (boundParams : context) (steps : list jval) (cs : list (string * ParamConstraint)) : result BuildError (list (string * ParamConstraint)) :=
  match steps with
  | [] => Ok cs
  | step :: steps =>
      pin_names boundParams (paramsReferencedInTemplate (template_of step)) cs ≫= fun cs => pin_steps boundParams steps cs
  end.

(** @src src/src/orchestrator/contract-validation.ts 418-457 buildReviewedContract *)
Definition buildReviewedContract (entry : ReviewedGrantEntry) (steps : list jval) (boundParams : context) : result BuildError CapabilityContract :=
  let method := toUpperCase (trim (e_method entry)) in
  if negb (bool_decide (method ∈ MINTABLE_WRITE_METHODS)) then Err BadMethod
  else match normaliseReviewedHost (e_host entry) with
  | None => Err BadHost
  | Some host =>
      let paths := js_set_of (filter (fun p => p <> ""%string) (trim <$> e_paths entry)) in
      pin_steps boundParams steps [] ≫= fun paramConstraints =>
      let contract := {| version := 1; c_origin := Some reviewed; grantedTools := ["http_request"%string]; httpMethods := ["GET"%string; method];
                         hostPatterns := [host]; pathPatterns := paths; paramConstraints := paramConstraints |} in
      match reviewedContractShapeError contract steps with
      | Some e => Err (Misshapen e)
      | None => match first_error reviewedHeaderError steps with Some e => Err e | None => Ok contract end
      end
  end.
End Contract.
