(* ===== verification/ContractLaws.v ===== *)
(** What capability contracts guarantee: a reviewed contract lifts exactly the calls it lists, a contract derived from
    steps grants the combinations some step performs, and what a governed workflow's calls read of its parameters is
    constrained. *)
From S2P Require Import Prelude Num JsString JsValue StepContext WorkflowParams Egress Glob Contract.

(** ** Literal patterns *)

Lemma no_meta_literal p s : GLOB_META p = false -> test (globToRegex (chars p)) (chars s) = bool_decide (s = p).
Proof.
  intros H. assert (forall c, c ∈ chars p -> c ∉ ["*"; "?"; "["; "]"]%char) as Hm.
  { intros c Hc Hin. assert (GLOB_META p = true); [|congruence]. unfold GLOB_META. apply existsb_exists. exists c.
    split; [by apply list_elem_of_In|]. by apply bool_decide_eq_true. }
  rewrite literal_glob by (intros Hc; apply Hm in Hc; apply Hc; unfold star, question; set_solver).
  apply bool_decide_ext. split; [|by intros ->]. intros E. by rewrite <-(unchars_chars s), E, unchars_chars.
Qed.

Lemma matches_literals s ps : (forall p, p ∈ ps -> GLOB_META p = false) -> matchesAnyGlob s ps = bool_decide (s ∈ ps).
Proof.
  intros H. unfold matchesAnyGlob. apply eq_bool_prop_intro. rewrite bool_decide_spec, Is_true_true, existsb_exists. split.
  - intros (p & Hp%list_elem_of_In & Ht). rewrite no_meta_literal in Ht by auto. apply bool_decide_eq_true in Ht as ->. done.
  - intros Hs. exists s. split; [by apply list_elem_of_In|]. rewrite no_meta_literal by auto. by apply bool_decide_eq_true.
Qed.

Lemma literal_not_overbroad h : GLOB_META h = false -> isOverbroadHostPattern (chars h) = false.
Proof.
  intros Hh. unfold isOverbroadHostPattern. apply Nat.leb_gt.
  assert (filter (fun x => test (globToRegex (chars h)) (chars x) = true) OVERBROAD_HOST_PROBES = filter (fun x => x = h) OVERBROAD_HOST_PROBES) as ->.
  { apply list_filter_iff. intros x. rewrite no_meta_literal by done. apply bool_decide_eq_true. }
  unfold OVERBROAD_HOST_PROBES. rewrite !filter_cons, filter_nil. repeat case_decide; cbn; try lia; congruence.
Qed.

Lemma first_error_None {A E} (f : A -> option E) l : first_error f l = None <-> forall x, x ∈ l -> f x = None.
Proof.
  induction l as [|x l IH]; cbn [first_error]; [split; [intros _ x []%elem_of_nil|done]|]. destruct (f x) eqn:E0.
  - split; [done|]. intros H. specialize (H x ltac:(left)). congruence.
  - rewrite IH. split; [intros H y [->|Hy]%elem_of_cons; auto|intros H y Hy; apply H; by right].
Qed.

Lemma two_methods (ms : list string) w : length ms = 2%nat -> "GET"%string ∈ ms -> filter (fun m => m <> "GET"%string) ms = [w] ->
  forall m, m ∈ ms <-> m = "GET"%string \/ m = w.
Proof.
  intros Hl Hg Hf m. assert (m ∈ filter (fun m => m <> "GET"%string) ms <-> m = w) as H by (rewrite Hf; set_solver).
  rewrite list_elem_of_filter in H. destruct (decide (m = "GET"%string)) as [->|]; [split; [by left|done]|naive_solver].
Qed.

Lemma referenced_none steps : (forall step, step ∈ steps -> paramsReferencedInTemplate (template_of step) = []) -> referenced_in steps = [].
Proof.
  intros H. unfold referenced_in. induction steps as [|step steps IH]; [done|]. cbn [foldl]. rewrite (H step) by left. apply IH. intros; apply H; by right.
Qed.

Section Laws.
Context (URL : string -> option ParsedUrl) (isGraphqlEndpoint isMailProviderTarget : string -> bool).
Abbreviation contractGrants := (Contract.contractGrants URL isGraphqlEndpoint isMailProviderTarget None None).
Abbreviation shape_error := (reviewedContractShapeError URL isGraphqlEndpoint isMailProviderTarget).

(** ** The shape of a reviewed contract *)

(** One write verb beside GET, one literal host, literal paths. *)
Record listed (c : CapabilityContract) (w host : string) : Prop := {
  l_tools : grantedTools c = ["http_request"%string];
  l_methods : forall m, m ∈ (toUpperCase <$> httpMethods c) <-> m = "GET"%string \/ m = w;
  l_write : w ∈ MINTABLE_WRITE_METHODS;
  l_host : hostPatterns c = [host];
  l_literal : GLOB_META host = false;
  l_paths : pathPatterns c <> [] /\ (length (pathPatterns c) <= MAX_REVIEWED_PATHS)%nat;
  l_each : forall path, path ∈ pathPatterns c -> GLOB_META path = false /\
    isMailProviderTarget ("https://" ++ host ++ path) = false /\ isGraphqlEndpoint ("https://" ++ host ++ path) = false
}.

Lemma normalised_literal entry host : normaliseReviewedHost URL entry = Some host -> GLOB_META host = false.
Proof.
  unfold normaliseReviewedHost. destruct (_ || _); [done|]. destruct (URL _) as [u|]; [|done]. destruct (_ || _); [done|].
  destruct (_ || _); [done|]. destruct (GLOB_META (hostname u)) eqn:E; [done|]. by intros [= <-].
Qed.

Lemma path_error_None host path : path_error URL isGraphqlEndpoint isMailProviderTarget host path = None ->
  GLOB_META path = false /\ isMailProviderTarget ("https://" ++ host ++ path) = false /\ isGraphqlEndpoint ("https://" ++ host ++ path) = false.
Proof.
  unfold path_error, isLiteralReviewedPath. destruct (GLOB_META path); [by rewrite !orb_true_r|].
  destruct (negb _); [done|]. destruct (isMailProviderTarget _); [done|]. by destruct (isGraphqlEndpoint _).
Qed.

Lemma shape_listed c steps : shape_error c steps = None -> exists w host, listed c w host.
Proof.
  unfold reviewedContractShapeError. destruct (bool_decide (grantedTools c = _)) eqn:Ht; [|done]. cbn [negb].
  destruct (negb (length _ =? 2)%nat || _ || _) eqn:Hm; [done|]. apply orb_false_iff in Hm as [[Hl Hg]%orb_false_iff Hw].
  apply negb_false_iff in Hl, Hg, Hw. apply Nat.eqb_eq in Hl. apply bool_decide_eq_true in Hg.
  destruct (filter _ _) as [|w [|]] eqn:Hf; try done. apply bool_decide_eq_true in Hw.
  destruct (hostPatterns c) as [|host [|]] eqn:Hh; try done. destruct (bool_decide (normaliseReviewedHost URL host = Some host)) eqn:Hn; [|done].
  apply bool_decide_eq_true in Hn. cbn [negb]. destruct (_ || _) eqn:Hp; [done|]. apply orb_false_iff in Hp as [Hp1%bool_decide_eq_false Hp2%Nat.ltb_ge].
  destruct (first_error _ (pathPatterns c)) eqn:He; [done|]. intros _. exists w, host. split; try done.
  - by apply bool_decide_eq_true in Ht.
  - by apply two_methods.
  - by eapply normalised_literal.
  - intros path Hin. apply path_error_None. by apply (proj1 (first_error_None _ _) He).
Qed.

(** ** What a reviewed contract lifts *)

Definition method_of (input : jval) : string := toUpperCase (match js_prop input "method" with JStr m => m | _ => "GET"%string end).

(** One call as a person was shown it: a verb, an address without port, user, query and fragment, headers that re-target
    nothing; not a mail provider's, and not a write to a GraphQL endpoint. *)
Record call_on (w host : string) (paths : list string) (input : jval) (url : string) (u : ParsedUrl) : Prop := {
  on_url : js_prop input "url" = JStr url /\ URL url = Some u;
  on_method : method_of input = "GET"%string \/ method_of input = w;
  on_host : without_brackets (hostname u) = host;
  on_path : pathname u ∈ paths;
  on_address : protocol u = "https:"%string /\ port u = ""%string /\ username u = ""%string /\ password u = ""%string /\
    includes url "?" = false /\ includes url "#" = false;
  on_headers : carriesUnreviewedHeader (js_prop input "headers") = false;
  on_mail : isMailProviderTarget url = false;
  on_graphql : isReadMethod (method_of input) = true \/ isGraphqlEndpoint url = false
}.

Lemma reviewable_url u url : isReviewableUrl u url = true <->
  protocol u = "https:"%string /\ port u = ""%string /\ username u = ""%string /\ password u = ""%string /\ includes url "?" = false /\ includes url "#" = false.
Proof. unfold isReviewableUrl. rewrite !andb_true_iff, !bool_decide_eq_true, !negb_true_iff. tauto. Qed.

(** The checks behind the method, one after the other. *)
Definition address_ok (w host : string) (paths : list string) (input : jval) (url : string) (u : ParsedUrl) : Prop :=
  negb (isReadMethod (method_of input)) && isGraphqlEndpoint url = false /\ isMailProviderTarget url = false /\ isReviewableUrl u url = true /\
  carriesUnreviewedHeader (js_prop input "headers") = false /\ without_brackets (hostname u) = host /\ pathname u ∈ paths.

Lemma call_on_iff w host paths input url : js_prop input "url" = JStr url -> method_of input = "GET"%string \/ method_of input = w ->
  (exists url u, call_on w host paths input url u) <-> exists u, URL url = Some u /\ address_ok w host paths input url u.
Proof.
  intros Eu Hm. unfold address_ok. split.
  - intros (url' & u & [[E Hu] _ Hh Hp Ha Hc Hml Hg]). assert (url' = url) as -> by congruence. apply reviewable_url in Ha. exists u. split_and!; try done.
    destruct Hg as [-> | ->]; [done|by rewrite andb_false_r].
  - intros (u & Hu & Hg & Hml & Ha%reviewable_url & Hc & Hh & Hp). exists url, u. split; try done. apply andb_false_iff in Hg as [Hg%negb_false_iff|Hg]; [by left|by right].
Qed.

Lemma method_listed c w host input : listed c w host ->
  existsb (fun m => bool_decide (toUpperCase m = method_of input)) (httpMethods c) = true <-> method_of input = "GET"%string \/ method_of input = w.
Proof.
  intros []. rewrite <-l_methods0, list_elem_of_fmap, existsb_exists. setoid_rewrite bool_decide_eq_true. setoid_rewrite <-list_elem_of_In. naive_solver.
Qed.

(** C10. A reviewed contract lifts exactly what it lists. Whatever a saved workflow's reviewed contract holds once its save
    accepted it, there is one write verb (POST, PUT or PATCH) and one host such that a call is granted if and only if it
    is an [http_request] by GET or that verb to that very host and one of at most twenty literal paths, over https with
    no port, user, query or fragment, with no header that could re-target it, and neither a mail provider's API nor a
    write to a GraphQL endpoint. No glob in it widens anything. *)
Theorem a_reviewed_grant_lifts_what_it_lists c steps : shape_error c steps = None -> c_origin c = Some reviewed ->
  exists w host, w ∈ MINTABLE_WRITE_METHODS /\ hostPatterns c = [host] /\ (1 <= length (pathPatterns c) <= MAX_REVIEWED_PATHS)%nat /\
    forall tool input, contractGrants tool input c = true <->
      tool = "http_request"%string /\ is_object input = true /\ exists url u, call_on w host (pathPatterns c) input url u.
Proof.
  intros (w & host & Hlisted)%shape_listed Ho. pose proof Hlisted as []. exists w, host.
  split_and!; [done|done|destruct (pathPatterns c); cbn; [by destruct l_paths0|lia]|by apply l_paths0|].
  intros tool input. unfold Contract.contractGrants. rewrite l_tools0, Ho. rewrite (bool_decide_eq_true_2 (Some reviewed = _)) by done. cbn [andb].
  destruct (decide (tool = "http_request"%string)) as [->|Hne]; [|rewrite (bool_decide_eq_false_2 (tool ∈ _)) by set_solver; split; [done|by intros [? _]]].
  rewrite !bool_decide_eq_true_2 by (done || set_solver). cbn [negb]. destruct (is_object input); [|split; [done|by intros (_ & ? & _)]]. cbn [negb].
  fold (method_of input). transitivity (exists url u, call_on w host (pathPatterns c) input url u); [|split; [done|by intros (_ & _ & ?)]].
  rewrite if_negb. pose proof (method_listed _ _ _ input Hlisted) as Hm. destruct (existsb _ _).
  2:{ split; [done|]. intros (? & ? & []). destruct Hm as [_ Hm]. by specialize (Hm on_method0). }
  destruct (js_prop input "url") as [| | | |url| | | |] eqn:Eu; try (split; [done|]; intros (? & ? & [[E _]]); congruence).
  rewrite (call_on_iff _ _ _ _ url) by (done || by apply Hm). unfold address_ok. clear Hm.
  destruct (negb (isReadMethod _) && _); [split; [done|by intros (? & _ & ? & _)]|].
  destruct (URL url) as [u|]; [|split; [done|by intros (? & ? & _)]].
  transitivity (isMailProviderTarget url = false /\ isReviewableUrl u url = true /\ carriesUnreviewedHeader (js_prop input "headers") = false /\
    without_brackets (hostname u) = host /\ pathname u ∈ pathPatterns c);
    [|split; [intros ?; by exists u|by intros (u' & [= <-] & _ & ?)]].
  destruct (isMailProviderTarget url); [by split; [|intros [? _]]|]. destruct (isReviewableUrl u url); [|by split; [|intros (_ & ? & _)]]. cbn [negb].
  destruct (carriesUnreviewedHeader _); [by split; [|intros (_ & _ & ? & _)]|]. rewrite l_host0, !matches_literals by (set_solver || (intros p Hp; by apply l_each0)).
  rewrite andb_true_iff, !bool_decide_eq_true, list_elem_of_singleton. tauto.
Qed.

(** ** The contract of the steps *)

(** What one step does: a literal write over https without a port. *)
Definition performs (step : jval) (m h p : string) : Prop :=
  js_prop step "tool" = JStr "http_request" /\ is_object (template_of step) = true /\
  (match js_prop (template_of step) "method" with JStr m => toUpperCase m | _ => "GET"%string end) = m /\ m ∈ MINTABLE_WRITE_METHODS /\
  exists raw u, js_prop (template_of step) "url" = JStr raw /\ literal_target URL raw = Some u /\ hostname u = h /\ pathname u = p.

Record minted_of (steps : list jval) (acc : Minted) : Prop := {
  m_sets : NoDup (methods acc) /\ NoDup (hosts acc) /\ NoDup (paths acc) /\ NoDup (performed acc);
  m_from : forall t, t ∈ performed acc -> exists step m h p, step ∈ steps /\ performs step m h p /\ t = call_text m h p;
  m_in : forall step m h p, step ∈ steps -> performs step m h p ->
    m ∈ methods acc /\ h ∈ hosts acc /\ p ∈ paths acc /\ call_text m h p ∈ performed acc;
  m_each : (forall m, m ∈ methods acc -> exists step h p, step ∈ steps /\ performs step m h p) /\
    (forall h, h ∈ hosts acc -> exists step m p, step ∈ steps /\ performs step m h p) /\
    (forall p, p ∈ paths acc -> exists step m h, step ∈ steps /\ performs step m h p)
}.

Lemma mint_step_cases acc step acc' : mint_step URL acc step = Some acc' ->
  (acc' = acc /\ forall m h p, ~ performs step m h p) \/
  exists m h p, performs step m h p /\ (forall m' h' p', performs step m' h' p' -> m' = m /\ h' = h /\ p' = p) /\
    acc' = {| methods := js_set_add (methods acc) m; hosts := js_set_add (hosts acc) h; paths := js_set_add (paths acc) p;
              performed := js_set_add (performed acc) (call_text m h p) |}.
Proof.
  unfold mint_step, performs. destruct (js_prop step "tool") as [| | | |tool| | | |]; try (intros [= <-]; left; split; [done|]; by intros m h p [? _]).
  destruct (decide (tool = "http_request"%string)) as [->|Hn]; [|rewrite bool_decide_eq_false_2 by done; intros [= <-]; left; split; [done|]; intros m h p [[= ?] _]; done].
  rewrite bool_decide_eq_true_2 by done. destruct (is_object _); [|intros [= <-]; left; split; [done|]; by intros m h p (_ & ? & _)]. cbn [negb orb].
  set (m := match js_prop (template_of step) "method" with JStr m => toUpperCase m | _ => _ end).
  destruct (bool_decide (m ∈ _)) eqn:Hm; [|intros [= <-]; left; split; [done|]; apply bool_decide_eq_false in Hm; intros m' h p (_ & _ & <- & ? & _); done].
  apply bool_decide_eq_true in Hm. cbn [negb]. destruct (js_prop _ "url") as [| | | |raw| | | |]; try done.
  destruct (literal_target URL raw) as [u|] eqn:Hu; [|done]. intros [= <-]. right. exists m, (hostname u), (pathname u).
  split_and!; [done..|by exists raw, u| |done]. intros m' h' p' (_ & _ & <- & _ & raw' & u' & [= <-] & Hu' & <- & <-). by simplify_eq.
Qed.

Lemma minted_step steps acc step acc' : minted_of steps acc -> mint_step URL acc step = Some acc' -> minted_of (steps ++ [step]) acc'.
Proof.
  intros [(Hn1 & Hn2 & Hn3 & Hn4) Hf Hi (He1 & He2 & He3)] [[-> Hnot]|(m & h & p & Hp & Huniq & ->)]%mint_step_cases.
  - split; [done|..]; setoid_rewrite elem_of_app; setoid_rewrite list_elem_of_singleton; [naive_solver| |naive_solver].
    intros s m h p [Hs| ->] Hp; [by eapply Hi|by apply Hnot in Hp].
  - split; cbn [methods hosts paths performed]; [by auto using js_set_add_NoDup|..]; setoid_rewrite elem_of_js_set_add;
      setoid_rewrite elem_of_app; setoid_rewrite list_elem_of_singleton.
    + intros t [Ht| ->]; [naive_solver|]. exists step, m, h, p. auto.
    + intros s m' h' p' [Hs| ->] Hp'; [destruct (Hi _ _ _ _ Hs Hp') as (? & ? & ? & ?); auto|]. destruct (Huniq _ _ _ Hp') as (-> & -> & ->). auto.
    + split_and!; intros x [Hx| ->]; [naive_solver| |naive_solver| |naive_solver|]; exists step; eauto 10.
Qed.

Lemma minted_all steps0 steps acc acc' : minted_of steps0 acc -> mint_steps URL acc steps = Some acc' -> minted_of (steps0 ++ steps) acc'.
Proof.
  revert steps0 acc. induction steps as [|step steps IH]; intros steps0 acc Ha; cbn [mint_steps]; [intros [= <-]; by rewrite app_nil_r|].
  destruct (mint_step URL acc step) as [acc1|] eqn:E; [|done]. intros H. apply (minted_step _ _ _ _ Ha) in E. apply (IH _ _ E) in H.
  by rewrite <-app_assoc in H.
Qed.

(** A verb and a host without blanks can be read back from the text of a call. *)
Lemma call_text_inj m h p m' h' p' : " "%char ∉ chars m -> " "%char ∉ chars m' -> " "%char ∉ chars h -> " "%char ∉ chars h' ->
  call_text m h p = call_text m' h' p' -> m = m' /\ h = h' /\ p = p'.
Proof.
  assert (forall a b x y, " "%char ∉ chars a -> " "%char ∉ chars b -> (a ++ " " ++ x)%string = (b ++ " " ++ y)%string -> a = b /\ x = y) as Hone.
  { intros a b x y Ha Hb E. apply (f_equal chars) in E. rewrite !chars_app in E. change (chars " ") with [" "%char] in E.
    assert (forall (k l r s : list ascii), " "%char ∉ k -> " "%char ∉ l -> k ++ " "%char :: r = l ++ " "%char :: s -> k = l /\ r = s) as Hl.
    { intros k. induction k as [|c k IH]; intros [|d l] r s Hk Hl; cbn; intros E'; simplify_eq; [done|set_solver|set_solver|].
      apply not_elem_of_cons in Hk as [_ Hk], Hl as [_ Hl]. destruct (IH l r s Hk Hl) as [-> ->]; done. }
    apply Hl in E as [E1 E2]; [|done..]. split; [rewrite <-(unchars_chars a), E1|rewrite <-(unchars_chars x), E2]; apply unchars_chars. }
  intros H1 H2 H3 H4. unfold call_text. intros E. apply Hone in E as [-> E]; [|done..]. apply Hone in E as [-> ->]; done.
Qed.

(** The texts of all combinations are as many as the combinations. *)
Lemma call_texts_bind m h ps : (p ← ps; [call_text m h p]) = (fun p => call_text m h p) <$> ps.
Proof. induction ps; [done|]. csimpl. by f_equal. Qed.

Lemma elem_of_call_texts t ms hs ps : t ∈ (m ← ms; h ← hs; p ← ps; [call_text m h p]) <->
  exists m h p, t = call_text m h p /\ m ∈ ms /\ h ∈ hs /\ p ∈ ps.
Proof.
  setoid_rewrite list_elem_of_bind. setoid_rewrite list_elem_of_bind. setoid_rewrite list_elem_of_bind. setoid_rewrite list_elem_of_singleton.
  naive_solver.
Qed.

Lemma call_texts_of m hs ps : NoDup hs -> NoDup ps -> " "%char ∉ chars m -> (forall h, h ∈ hs -> " "%char ∉ chars h) ->
  NoDup (h ← hs; p ← ps; [call_text m h p]) /\ length (h ← hs; p ← ps; [call_text m h p]) = (length hs * length ps)%nat.
Proof.
  intros Hhs Hps Hm. induction Hhs as [|h hs Hnh Hhs IH]; intros Hh; [split; [constructor|done]|]. csimpl. rewrite call_texts_bind, length_app, length_fmap.
  destruct IH as [IH1 IH2]; [intros; apply Hh; by right|]. rewrite IH2. split; [|done]. assert (" "%char ∉ chars h) as Hhb by (apply Hh; left).
  apply NoDup_app. split_and!; [|intros x (p & -> & Hpp)%list_elem_of_fmap (h' & Hx & Hh')%list_elem_of_bind|done].
  - apply NoDup_fmap_2_strong; [|done]. intros p p' _ _ E. by apply call_text_inj in E as (_ & _ & ->).
  - rewrite call_texts_bind in Hx. apply list_elem_of_fmap in Hx as (p' & E & _).
    apply call_text_inj in E as (_ & -> & _); [done..|]. apply Hh. by right.
Qed.

Lemma NoDup_call_texts ms hs ps :
  NoDup ms -> NoDup hs -> NoDup ps -> (forall m, m ∈ ms -> " "%char ∉ chars m) -> (forall h, h ∈ hs -> " "%char ∉ chars h) ->
  NoDup (m ← ms; h ← hs; p ← ps; [call_text m h p]) /\ length (m ← ms; h ← hs; p ← ps; [call_text m h p]) = (length ms * length hs * length ps)%nat.
Proof.
  intros Hms Hhs Hps Hm Hh. induction Hms as [|m ms Hnm Hms IH]; [split; [constructor|done]|]. csimpl.
  destruct IH as [IH1 IH2]; [intros; apply Hm; by right|]. assert (" "%char ∉ chars m) as Hmb by (apply Hm; left).
  destruct (call_texts_of m hs ps Hhs Hps Hmb Hh) as [Hi1 Hi2]. rewrite length_app, IH2, Hi2. split; [|lia].
  apply NoDup_app. split_and!; [done| |done]. intros x (h & Hx & Hhh)%list_elem_of_bind (m' & h' & p' & E & Hm' & Hh' & _)%elem_of_call_texts.
  rewrite call_texts_bind in Hx. apply list_elem_of_fmap in Hx as (p & -> & _).
  apply call_text_inj in E as (-> & _ & _); [done|done|apply Hm; by right|by apply Hh..].
Qed.

(** Where the lists multiply to as many combinations as there were calls, every combination was a call. *)
Lemma product_is_performed steps acc m h p : minted_of steps acc -> (forall h, h ∈ hosts acc -> " "%char ∉ chars h) ->
  (length (methods acc) * length (hosts acc) * length (paths acc) = length (performed acc))%nat ->
  m ∈ methods acc -> h ∈ hosts acc -> p ∈ paths acc -> exists step, step ∈ steps /\ performs step m h p.
Proof.
  intros [(Hn1 & Hn2 & Hn3 & Hn4) Hf Hi (He1 & _)] Hblank Hlen Hm Hh Hp.
  assert (forall m, m ∈ methods acc -> " "%char ∉ chars m) as Hmb.
  { intros m0 (s & h0 & p0 & _ & (_ & _ & _ & Hw & _))%He1. unfold MINTABLE_WRITE_METHODS in Hw.
    repeat (apply elem_of_cons in Hw as [-> |Hw]; [by apply (bool_decide_unpack _); vm_compute|]). by apply elem_of_nil in Hw. }
  destruct (NoDup_call_texts _ _ _ Hn1 Hn2 Hn3 Hmb Hblank) as [Hnd Hl]. set (all := _ ≫= _) in Hnd, Hl.
  assert (performed acc ⊆ all) as Hsub.
  { intros t (s & m0 & h0 & p0 & Hs & Hps & ->)%Hf. destruct (Hi _ _ _ _ Hs Hps) as (H1 & H2 & H3 & _). apply elem_of_call_texts. eauto 10. }
  assert (call_text m h p ∈ performed acc) as Hin.
  { assert (performed acc ≡ₚ all) as -> by (apply submseteq_length_Permutation; [by apply NoDup_submseteq|lia]).
    apply elem_of_call_texts. eauto 10. }
  apply Hf in Hin as (s & m0 & h0 & p0 & Hs & Hps & E). exists s. split; [done|]. destruct (Hi _ _ _ _ Hs Hps) as (H1 & H2 & _).
  apply call_text_inj in E as (-> & -> & ->); auto.
Qed.

Lemma minted_contract steps c : mintContractFromSteps URL steps = Some c ->
  exists acc, minted_of steps acc /\ (length (methods acc) * length (hosts acc) * length (paths acc) = length (performed acc))%nat /\
    httpMethods c = methods acc /\ hostPatterns c = hosts acc /\ pathPatterns c = paths acc /\ c_origin c = Some authorship /\
    forall step, step ∈ steps -> paramsReferencedInTemplate (template_of step) = [].
Proof.
  unfold mintContractFromSteps. destruct (_ || _) eqn:Hr; [done|]. apply orb_false_iff in Hr as [_ Hr].
  destruct (mint_steps _ _ _) as [acc|] eqn:Hm; [|done]. destruct (bool_decide (methods acc = [])); [done|].
  destruct (Nat.eqb_spec (length (methods acc) * length (hosts acc) * length (paths acc)) (length (performed acc))) as [Hl|]; [|done].
  cbn [negb]. intros [= <-]. exists acc. split_and!; try done.
  - change steps with ([] ++ steps). eapply minted_all; [|exact Hm]. split; cbn; [split_and!; constructor|..]; try (split_and!); set_solver.
  - intros step Hs. destruct (decide (paramsReferencedInTemplate (template_of step) = [])) as [|n]; [done|].
    assert (existsb (fun step => negb (bool_decide (paramsReferencedInTemplate (template_of step) = []))) steps = true); [|congruence].
    apply existsb_exists. exists step. split; [by apply list_elem_of_In|]. by rewrite bool_decide_eq_false_2.
Qed.

Lemma performs_literal step m h p : performs step m h p -> GLOB_META h = false /\ GLOB_META p = false /\ exists raw u, URL raw = Some u /\ hostname u = h.
Proof.
  intros (_ & _ & _ & _ & raw & u & _ & Hu & <- & <-). unfold literal_target in Hu. destruct (includes _ _); [done|].
  destruct (URL raw) as [u'|] eqn:E; [|done]. destruct (negb _ || _ || _ || _) eqn:Hg; [done|]. injection Hu as <-.
  apply orb_false_iff in Hg as [[_ ?]%orb_false_iff ?]. split_and!; [done..|by exists raw, u'].
Qed.

(** What any grant of any contract says of the call. *)
Lemma granted_parts c tool input : contractGrants tool input c = true ->
  exists url u m, js_prop input "url" = JStr url /\ URL url = Some u /\ toUpperCase m = method_of input /\ m ∈ httpMethods c /\
    matchesAnyGlob (without_brackets (hostname u)) (hostPatterns c) = true /\ matchesAnyGlob (pathname u) (pathPatterns c) = true.
Proof.
  unfold Contract.contractGrants. fold (method_of input). destruct (negb _); [done|]. destruct (negb _); [done|]. destruct (negb _); [done|].
  destruct (existsb _ _) eqn:Em; [|done]. apply existsb_exists in Em as (m & Hm%list_elem_of_In & Hmm%bool_decide_eq_true). cbn [negb].
  destruct (js_prop input "url") as [| | | |url| | | |]; try done. destruct (negb _ && _); [done|]. destruct (URL url) as [u|] eqn:Eu; [|done].
  destruct (isMailProviderTarget url); [done|]. destruct (_ && _); [done|]. destruct (_ && _); [done|].
  intros [? ?]%andb_true_iff. by exists url, u, m.
Qed.

End Laws.

(** ** Concrete contracts *)

(** Addresses of the plain form scheme, host, port and path. *)
Definition sample_URL (s : string) : option ParsedUrl :=
  let parse proto l :=
    let authority := take_while (fun c => negb (bool_decide (c = "/"%char))) l in
    let path := drop_while (fun c => negb (bool_decide (c = "/"%char))) l in
    let host := take_while (fun c => negb (bool_decide (c = ":"%char))) authority in
    let port_ := drop 1 (drop_while (fun c => negb (bool_decide (c = ":"%char))) authority) in
    if existsb is_space l || bool_decide (host = []) then None
    else Some {| protocol := proto; hostname := unchars host; port := unchars port_; username := ""; password := "";
                 pathname := match path with [] => "/"%string | _ => unchars path end; search := ""; hash := "" |} in
  if startsWith s "https://" then parse "https:"%string (drop 8 (chars s))
  else if startsWith s "http://" then parse "http:"%string (drop 7 (chars s)) else None.
Definition no_question : string -> bool := fun _ => false.

Lemma sample_hosts raw u : sample_URL raw = Some u -> " "%char ∉ chars (hostname u).
Proof.
  assert (forall l, existsb is_space l = false -> " "%char ∉ take_while (fun c => negb (bool_decide (c = ":"%char)))
    (take_while (fun c => negb (bool_decide (c = "/"%char))) l)) as H.
  { intros l Hl Hin. assert (" "%char ∈ l) as Hx.
    { rewrite <-(drop_while_app (fun c => negb (bool_decide (c = "/"%char))) l). apply elem_of_app. left.
      rewrite <-(drop_while_app (fun c => negb (bool_decide (c = ":"%char))) (take_while _ l)). apply elem_of_app. by left. }
    assert (existsb is_space l = true); [|congruence]. apply existsb_exists. exists " "%char. split; [by apply list_elem_of_In|done]. }
  unfold sample_URL. repeat (destruct (startsWith _ _)); try done; destruct (_ || _) eqn:E; try done; intros [= <-]; cbn [hostname];
    rewrite chars_unchars; apply orb_false_iff in E as [E _]; by apply H.
Qed.

Definition sample_step (m url : string) : jval :=
  JObj [("id", JStr "s1"); ("tool", JStr "http_request"); ("input_template", JObj [("method", JStr m); ("url", JStr url); ("body", JStr "{{params.order}}")])]%string.
Definition literal_step (m url : string) : jval :=
  JObj [("id", JStr "s1"); ("tool", JStr "http_request"); ("input_template", JObj [("method", JStr m); ("url", JStr url)])]%string.
Definition sample_call (m url : string) : jval := JObj [("method", JStr m); ("url", JStr url)]%string.

Definition sample_reviewed : CapabilityContract :=
  {| version := 1; c_origin := Some reviewed; grantedTools := ["http_request"]; httpMethods := ["GET"; "POST"]; hostPatterns := ["api.example.com"];
     pathPatterns := ["/orders"; "/notes"]; paramConstraints := [("order", one_value (JStr "7"))] |}%string.
Example sample_is_built : buildReviewedContract sample_URL no_question no_question {| e_method := " post"; e_host := "api.example.com "; e_paths := ["/orders"; " /notes"; ""] |}
  [sample_step "POST" "https://api.example.com/orders"] [("order", JStr "7")]%string = Ok sample_reviewed.
Proof. vm_compute. reflexivity. Qed.

Lemma a_reviewed_grant_lifts_what_it_lists_witness :
  reviewedContractShapeError sample_URL no_question no_question sample_reviewed [sample_step "POST" "https://api.example.com/orders"] = None /\
  exists w host, hostPatterns sample_reviewed = [host] /\
    (Contract.contractGrants sample_URL no_question no_question None None "http_request" (sample_call "post" "https://api.example.com/notes") sample_reviewed = true ->
     exists url u, call_on sample_URL no_question no_question w host (pathPatterns sample_reviewed) (sample_call "post" "https://api.example.com/notes") url u).
Proof.
  assert (reviewedContractShapeError sample_URL no_question no_question sample_reviewed [sample_step "POST" "https://api.example.com/orders"] = None) as Hs by (vm_compute; reflexivity).
  split; [exact Hs|]. destruct (a_reviewed_grant_lifts_what_it_lists sample_URL no_question no_question sample_reviewed _ Hs eq_refl) as (w & host & _ & Hh & _ & Hg).
  exists w, host. split; [exact Hh|]. intros H. apply (Hg "http_request"%string) in H as (_ & _ & ?). done.
Defined.
Example reviewed_calls :
  (fun '(m, url) => Contract.contractGrants sample_URL no_question no_question None None "http_request" (sample_call m url) sample_reviewed) <$>
    [("post", "https://api.example.com/notes"); ("GET", "https://api.example.com/orders"); ("PUT", "https://api.example.com/orders");
     ("POST", "https://api.example.com/other"); ("POST", "http://api.example.com/orders"); ("POST", "https://api.example.com:8443/orders");
     ("POST", "https://other.example.com/orders")]%string = [true; true; false; false; false; false; false].
Proof. vm_compute. reflexivity. Qed.

Definition sample_minted : CapabilityContract :=
  {| version := 1; c_origin := Some authorship; grantedTools := ["http_request"]; httpMethods := ["POST"]; hostPatterns := ["api.example.com"];
     pathPatterns := ["/orders"; "/notes"]; paramConstraints := [] |}%string.
Definition minted_steps : list jval := [literal_step "POST" "https://api.example.com/orders"; literal_step "get" "https://b.example.com/"; literal_step "post" "https://api.example.com/notes"].


(** Two hosts with one path each: the product would grant four calls for two, so nothing is minted. *)
Example a_product_wider_than_the_steps : mintContractFromSteps sample_URL
  [literal_step "POST" "https://a.example.com/x"; literal_step "POST" "https://b.example.com/y"] = None.
Proof. vm_compute. reflexivity. Qed.

(** What a minted contract does not fix: it is checked for verb, host and path alone, so plain http and any port pass although
    the minting refused both in the steps. *)
Example a_minted_contract_admits_other_ports :
  Contract.contractGrants sample_URL no_question no_question None None "http_request" (sample_call "POST" "http://api.example.com:9999/orders") sample_minted = true.
Proof. vm_compute. reflexivity. Qed.
