(* ===== verification/ContractParams.v ===== *)
(** What the captured calls of a governed workflow read of its parameters: the names the save finds in a template
    ([PARAM_REF]) against the placeholders the run fills ([hole_at]). *)
From S2P Require Import Prelude Num JsString JsValue StepContext WorkflowParams Egress Glob Contract ContractLaws.

(** ** Two readings of one text *)

Abbreviation rb := close_brace.
Definition no_close (l : list ascii) : Prop := rb ∉ l.
Definition in_name (c : ascii) : bool := negb (bool_decide (c = c_dot)) && negb (bool_decide (c = c_close)) && negb (is_space c).

Lemma drop_while_before {A} (f : A -> bool) y c r : f c = false -> drop_while f (y ++ c :: r) = drop_while f y ++ c :: r.
Proof. intros Hc. induction y as [|x y IH]; cbn; [by rewrite Hc|]. by destruct (f x). Qed.
Lemma take_while_before {A} (f : A -> bool) y c r : f c = false -> take_while f (y ++ c :: r) = take_while f y.
Proof. intros Hc. induction y as [|x y IH]; cbn; [by rewrite Hc|]. destruct (f x); by rewrite ?IH. Qed.
Lemma drop_while_suffix {A} (f : A -> bool) l : exists k, l = k ++ drop_while f l /\ forallb f k = true.
Proof. exists (take_while f l). split; [by rewrite drop_while_app|apply take_while_all]. Qed.

(** Where the parameter pattern matches, as an equation. *)
Lemma PARAM_REF_Some l name rest : PARAM_REF l = Some (name, rest) <->
  exists sp r, l = c_open :: c_open :: sp ++ chars "params." ++ r /\ forallb is_space sp = true /\
    name = take_while in_name r /\ rest = drop_while in_name r /\ name <> [].
Proof.
  unfold PARAM_REF. fold in_name. split.
  - destruct l as [|a [|b l]]; try done. destruct (_ && _) eqn:E; [|done]. apply andb_true_iff in E as [->%bool_decide_eq_true ->%bool_decide_eq_true].
    destruct (drop_while_suffix is_space l) as (sp & Hl & Hsp). destruct (is_prefix _ _) eqn:Hp; [|done]. apply is_prefix_spec in Hp as [r Hr].
    rewrite Hr, drop_app_length in *. fold in_name. destruct (take_while _ r) as [|n ns] eqn:Et; [done|]. intros [= <- <-]. exists sp, r. split_and!; try done. by rewrite Hl.
  - intros (sp & r & -> & Hsp & -> & -> & Hne). rewrite !bool_decide_eq_true_2 by done. cbn [andb].
    change (chars "params." ++ r) with ("p"%char :: (drop 1 (chars "params.") ++ r)). rewrite drop_while_stop by done.
    change ("p"%char :: (drop 1 (chars "params.") ++ r)) with (chars "params." ++ r). rewrite is_prefix_app, drop_app_length.
    fold in_name. by destruct (take_while in_name r).
Qed.

(** The names found from the start of the text on, and the placeholders; as recursive equations. *)
Definition refs (l : list ascii) : list string := matchAll (S (length l)) l.
Definition holes (l : list ascii) : list piece := scan (S (length l)) l.

Lemma PARAM_REF_split l name rest : PARAM_REF l = Some (name, rest) -> exists z, l = c_open :: z ++ rest /\ no_close (c_open :: z).
Proof.
  intros (sp & r & -> & Hsp & _ & -> & _)%PARAM_REF_Some. exists (c_open :: sp ++ chars "params." ++ take_while in_name r).
  split; [by rewrite <-app_comm_cons, <-!app_assoc, drop_while_app|].
  unfold no_close. rewrite !not_elem_of_cons, !not_elem_of_app. split_and!; try done.
  - intros H%list_elem_of_In. rewrite forallb_forall in Hsp. by apply Hsp in H.
  - by apply (bool_decide_unpack _); vm_compute.
  - intros H%list_elem_of_In. pose proof (take_while_all in_name r) as Hf. rewrite forallb_forall in Hf. by apply Hf in H.
Qed.

Lemma matchAll_fuel n m l : (length l < n)%nat -> (length l < m)%nat -> matchAll n l = matchAll m l.
Proof.
  revert m l. induction n as [|n IH]; intros [|m] l Hn Hm; try lia. cbn [matchAll].
  destruct (PARAM_REF l) as [[name rest]|] eqn:E.
  - apply PARAM_REF_split in E as (z & -> & _). cbn in Hn, Hm. rewrite length_app in Hn, Hm. f_equal. apply IH; lia.
  - destruct l as [|c l]; [done|]. cbn in Hn, Hm. apply IH; lia.
Qed.

Lemma refs_eq l : refs l = match PARAM_REF l, l with Some (name, rest), _ => unchars name :: refs rest | None, _ :: l => refs l | None, [] => [] end.
Proof.
  unfold refs at 1. cbn [matchAll]. destruct (PARAM_REF l) as [[name rest]|] eqn:E.
  - apply PARAM_REF_split in E as (z & -> & _). f_equal. apply matchAll_fuel; cbn; rewrite ?length_app; lia.
  - by destruct l.
Qed.

Lemma hole_at_split l raw rest : hole_at l = Some (raw, rest) -> l = open_brace :: open_brace :: raw ++ rb :: rb :: rest /\ no_close raw /\ raw <> [].
Proof.
  unfold hole_at. destruct l as [|a [|b l]]; try done. destruct (_ && _) eqn:E; [|done]. apply andb_true_iff in E as [->%bool_decide_eq_true ->%bool_decide_eq_true].
  set (f := fun c => negb (bool_decide (c = close_brace))). destruct (drop_while f l) as [|c [|d r]] eqn:Ed; try done.
  destruct (_ && _) eqn:E; [|done]. apply andb_true_iff in E as [->%bool_decide_eq_true Hne%negb_true_iff%bool_decide_eq_false]. intros [= <- <-].
  pose proof (take_while_all f l) as Ha. rewrite forallb_forall in Ha. split_and!; [|intros H%list_elem_of_In%Ha; unfold f in H; by rewrite bool_decide_eq_true_2 in H|done].
  assert (c = rb) as ->. { destruct (f c) eqn:Ec; [|unfold f in Ec; by apply negb_false_iff, bool_decide_eq_true in Ec]. exfalso. revert Ed. clear -Ec. induction l as [|x l IH]; [done|]. cbn. destruct (f x) eqn:Ex; [done|]. intros [= -> ->]. congruence. }
  do 2 f_equal. rewrite <-Ed. by rewrite drop_while_app.
Qed.

Lemma scan_fuel n m l : (length l < n)%nat -> (length l < m)%nat -> scan n l = scan m l.
Proof.
  revert m l. induction n as [|n IH]; intros [|m] l Hn Hm; try lia. cbn [scan].
  destruct (hole_at l) as [[raw rest]|] eqn:E.
  - apply hole_at_split in E as (-> & _). cbn in Hn, Hm. rewrite length_app in Hn, Hm. cbn in Hn, Hm. f_equal. apply IH; lia.
  - destruct l as [|c l]; [done|]. cbn in Hn, Hm. f_equal. apply IH; lia.
Qed.

Lemma holes_eq l : holes l = match hole_at l, l with Some (raw, rest), _ => Hole raw :: holes rest | None, c :: l => Lit c :: holes l | None, [] => [] end.
Proof.
  unfold holes at 1. cbn [scan]. destruct (hole_at l) as [[raw rest]|] eqn:E.
  - apply hole_at_split in E as (-> & _). f_equal. apply scan_fuel; cbn; rewrite ?length_app; cbn; lia.
  - by destruct l.
Qed.

(** *** No name is lost between the two *)

Lemma no_close_app a b : no_close (a ++ b) <-> no_close a /\ no_close b.
Proof. unfold no_close. rewrite not_elem_of_app. done. Qed.
Lemma no_close_cons c l : no_close (c :: l) <-> c <> rb /\ no_close l.
Proof. unfold no_close. rewrite not_elem_of_cons. naive_solver. Qed.

(** Two ways to cut a text: the part without a closing brace ends inside the part in front of one. *)
Lemma cut_before_close (z rest y : list ascii) r : z ++ rest = y ++ rb :: r -> no_close z -> exists y', rest = y' ++ rb :: r /\ y = z ++ y'.
Proof.
  revert y. induction z as [|c z IH]; intros y E Hz; [by exists y|]. apply no_close_cons in Hz as [Hc Hz]. destruct y as [|d y]; cbn in E; injection E as Ec E; [done|].
  destruct (IH y E Hz) as (y' & -> & ->). exists y'. by rewrite Ec.
Qed.

Lemma refs_close r : refs (rb :: r) = refs r.
Proof. rewrite refs_eq. by destruct r. Qed.

(** A match never crosses a closing brace, so what stands behind one is read anyway. *)
Lemma refs_behind_close n y r x : (length y <= n)%nat -> no_close y -> x ∈ refs r -> x ∈ refs (y ++ rb :: r).
Proof.
  revert y. induction n as [|n IH]; intros [|c y] Hn Hy Hx; cbn in Hn; try lia; try (cbn [app]; by rewrite refs_close).
  rewrite refs_eq. destruct (PARAM_REF ((c :: y) ++ rb :: r)) as [[name rest]|] eqn:E.
  - apply PARAM_REF_split in E as (z & E & Hz). rewrite app_comm_cons in E. symmetry in E. apply cut_before_close in E as (y' & -> & Ey); [|done].
    right. apply (f_equal length) in Ey as El. cbn in El. rewrite length_app in El. rewrite Ey in Hy. apply no_close_app in Hy as [_ Hy]. apply IH; [lia|done|done].
  - cbn [app]. apply no_close_cons in Hy as [_ Hy]. apply IH; [lia|done|done].
Qed.

(** Whether the first closing brace is doubled: no placeholder starts before one that is not. *)
Definition closes (l : list ascii) : bool :=
  match drop_while (fun c => negb (bool_decide (c = rb))) l with _ :: d :: _ => bool_decide (d = rb) | _ => false end.

Lemma closes_cons c l : c <> rb -> closes (c :: l) = closes l.
Proof. intros H. unfold closes. cbn [drop_while]. by rewrite bool_decide_eq_false_2. Qed.
Lemma hole_closes l h : hole_at l = Some h -> closes l = true.
Proof.
  destruct h as [raw rest]. intros (-> & Hr & _)%hole_at_split. rewrite !closes_cons by done. unfold closes.
  rewrite drop_while_stop; [by rewrite bool_decide_eq_true_2| |by rewrite bool_decide_eq_true_2].
  apply forallb_forall. intros c Hc. apply negb_true_iff, bool_decide_eq_false_2. intros ->. apply Hr. by apply list_elem_of_In.
Qed.

Lemma holes_without_close z r raw : no_close z -> closes (z ++ r) = false -> Hole raw ∈ holes (z ++ r) -> Hole raw ∈ holes r.
Proof.
  induction z as [|c z IH]; [done|]. intros [Hc Hz]%no_close_cons Hcl Hin. cbn [app] in *. rewrite holes_eq in Hin.
  destruct (hole_at (c :: z ++ r)) as [h|] eqn:E; [apply hole_closes in E; congruence|].
  apply elem_of_cons in Hin as [?|Hin]; [done|]. apply IH; [done|by rewrite <-(closes_cons c)|done].
Qed.

(** Where a name starts but no placeholder does, the first closing brace is not doubled. *)
Lemma name_without_hole l name rest : PARAM_REF l = Some (name, rest) -> hole_at l = None -> closes l = false.
Proof.
  intros (sp & r & -> & Hsp & _ & _ & _)%PARAM_REF_Some. set (k := sp ++ chars "params." ++ r). rewrite !closes_cons by done.
  assert (exists c k', k = c :: k' /\ c <> rb) as (c & k' & -> & Hc).
  { unfold k. destruct sp as [|c sp]; [by eexists _, _|]. exists c, (sp ++ chars "params." ++ r). split; [done|]. intros ->. by cbn in Hsp. }
  unfold hole_at, closes. rewrite !bool_decide_eq_true_2 by done. cbn [andb].
  destruct (drop_while _ _) as [|d [|e ?]]; try done. cbn [take_while]. rewrite (bool_decide_eq_false_2 (c = close_brace)) by done. cbn [negb].
  rewrite (bool_decide_eq_false_2 (c :: _ = [])) by done. cbn [negb]. rewrite andb_true_r. by destruct (bool_decide _).
Qed.

(** A placeholder for a parameter: behind [params.], a name without blanks. *)
Definition names_param (raw name : list ascii) : Prop :=
  exists rest, split_chars "." (trim_chars raw) = chars "params" :: name :: rest /\ name <> [] /\ forallb (fun c => negb (is_space c)) name = true.

Lemma split_two c l x y ws : split_chars c l = x :: y :: ws -> exists t, l = x ++ c :: y ++ t /\ c ∉ y /\ (t = [] \/ exists t', t = c :: t').
Proof.
  revert x y ws. induction l as [|d l IH]; intros x y ws; [done|]. cbn [split_chars]. destruct (decide (d = c)) as [->|Hd].
  - intros [= <- Hl]. clear IH. revert y ws Hl. induction l as [|d l IH]; intros y ws; cbn [split_chars]; [intros [= <- _]; exists []; set_solver|].
    destruct (decide (d = c)) as [->|Hd]; [intros [= <- _]; exists (c :: l); split_and!; [done|set_solver|right; by exists l]|].
    destruct (split_chars c l) as [|w ws'] eqn:E; [by apply split_chars_ne in E|]. intros [= <- <-]. destruct (IH w ws' eq_refl) as (t & Hl & Hn & Ht).
    exists t. injection Hl as Hl. split_and!; [by rewrite Hl|set_solver|done].
  - destruct (split_chars c l) as [|w [|w' ws']] eqn:E; try done. intros [= <- <- <-]. destruct (IH _ _ _ eq_refl) as (t & -> & ? & ?). by exists t.
Qed.

Lemma trim_split l : exists a b, l = a ++ trim_chars l ++ b /\ forallb is_space a = true /\ forallb is_space b = true.
Proof.
  unfold trim_chars. destruct (drop_while_suffix is_space l) as (a & Hl & Ha). set (m := drop_while is_space l) in *.
  destruct (drop_while_suffix is_space (reverse m)) as (b & Hm & Hb). exists a, (reverse b). split_and!; [|done|].
  - rewrite Hl. f_equal. rewrite <-reverse_app, <-Hm. by rewrite reverse_involutive.
  - rewrite forallb_forall in *. intros x Hx. apply Hb. rewrite <-list_elem_of_In in *. by rewrite elem_of_reverse in Hx.
Qed.

Lemma param_placeholder_is_found raw name rest : no_close raw -> names_param raw name ->
  exists r, PARAM_REF (open_brace :: open_brace :: raw ++ rb :: rb :: rest) = Some (name, r).
Proof.
  intros Hr (ws & Hs & Hne & Hsp). apply split_two in Hs as (t & Ht & Hdot & Htail). destruct (trim_split raw) as (a & b & Hraw & Ha & Hb).
  rewrite Ht in Hraw. set (r := name ++ t ++ b ++ rb :: rb :: rest).
  assert (forallb in_name name = true) as Hin.
  { apply forallb_forall. intros c Hc. unfold in_name. rewrite forallb_forall in Hsp. rewrite (Hsp c Hc), andb_true_r.
    apply list_elem_of_In in Hc. rewrite !bool_decide_eq_false_2; [done| |].
    - intros ->. apply Hr. rewrite Hraw. set_solver.
    - intros ->. by apply Hdot. }
  assert (exists d k, t ++ b ++ rb :: rb :: rest = d :: k /\ in_name d = false) as (d & k & Hd & Hdn).
  { destruct Htail as [-> |[t' ->]]; [|by eexists _, _]. destruct b as [|d b]; [by eexists _, _|]. exists d, (b ++ rb :: rb :: rest). split; [done|].
    cbn in Hb. apply andb_true_iff in Hb as [Hd _]. unfold in_name. rewrite Hd. cbn. by rewrite andb_false_r. }
  exists (drop_while in_name r). apply PARAM_REF_Some. exists a, r. split_and!; [|done| |done|done].
  - unfold r. rewrite Hraw. change (chars "params.") with (chars "params" ++ ["."%char]). do 2 f_equal. rewrite <-!app_assoc. do 2 f_equal.
    cbn [app]. f_equal. by rewrite <-!app_assoc.
  - unfold r. rewrite Hd, take_while_stop by done. done.
Qed.

(** Every placeholder for a parameter is among the names the save reads, wherever it stands. *)
Lemma placeholders_are_found n l raw name : (length l <= n)%nat -> Hole raw ∈ holes l -> names_param raw name -> unchars name ∈ refs l.
Proof.
  revert l. induction n as [|n IH]; intros l Hn Hin Hname; rewrite holes_eq in Hin.
  { destruct l; [|cbn in Hn; lia]. by apply elem_of_nil in Hin. }
  destruct (hole_at l) as [[raw0 rest]|] eqn:Eh.
  - apply hole_at_split in Eh as (-> & Hnc & _). cbn in Hn. rewrite length_app in Hn. cbn in Hn. apply elem_of_cons in Hin as [[= <-]|Hin].
    + destruct (param_placeholder_is_found raw name rest Hnc Hname) as [r E]. rewrite refs_eq, E. left.
    + change (unchars name ∈ refs ((open_brace :: open_brace :: raw0) ++ rb :: rb :: rest)).
      apply (refs_behind_close _ _ (rb :: rest) _ (le_n _)); [by rewrite !no_close_cons|]. rewrite refs_close. apply IH; [lia|done|done].
  - destruct l as [|c l]; [by apply elem_of_nil in Hin|]. cbn in Hn. apply elem_of_cons in Hin as [?|Hin]; [done|].
    rewrite refs_eq. destruct (PARAM_REF (c :: l)) as [[name0 rest]|] eqn:Ep; [|apply IH; [lia|done|done]].
    pose proof (name_without_hole _ _ _ Ep Eh) as Hcl. apply PARAM_REF_split in Ep as (z & E & Hz). injection E as -> ->.
    right. apply no_close_cons in Hz as [Hc Hz]. rewrite closes_cons in Hcl by done. rewrite length_app in Hn.
    apply IH; [lia|by eapply holes_without_close|done].
Qed.

(** ** What a filled template reads *)

(** A placeholder that is not for a parameter, or for one by a name without blanks. *)
Definition plain_piece (p : piece) : bool :=
  match p with
  | Lit _ => true
  | Hole raw =>
      match split_chars "." (trim_chars raw) with
      | first :: rest =>
          if bool_decide (first = chars "params") then
            match rest with name :: _ => negb (bool_decide (name = [])) && forallb (fun c => negb (is_space c)) name | [] => false end
          else true
      | [] => true
      end
  end.
Fixpoint plain_value (v : jval) : bool :=
  match v with
  | JStr s => forallb plain_piece (pieces s)
  | JArr l => forallb plain_value l
  | JObj fs => forallb (fun kv => plain_value kv.2) fs
  | _ => true
  end.

(** Contexts that differ in parameters outside [names] at most. *)
Record agree_on (names : string -> Prop) (ctx ctx' : context) : Prop := {
  a_rest : forall k, k <> "params"%string -> jm_get ctx k = jm_get ctx' k;
  a_params : exists ps ps', jm_get ctx "params" = Some (JObj ps) /\ jm_get ctx' "params" = Some (JObj ps') /\
    forall n, names n -> jm_get ps n = jm_get ps' n
}.

Section Fill.
Context (num_text : Q -> string) (names : string -> Prop) (ctx ctx' : context) (Hagree : agree_on names ctx ctx').

Lemma hole_agrees raw : plain_piece (Hole raw) = true -> (forall name, names_param raw name -> names (unchars name)) ->
  getByPath ctx (path_of raw) = getByPath ctx' (path_of raw).
Proof.
  destruct Hagree as [Hrest (ps & ps' & Hps & Hps' & Hn)]. unfold plain_piece, getByPath, split, path_of. rewrite chars_unchars.
  destruct (split_chars "." (trim_chars raw)) as [|first rest] eqn:Es; [by apply split_chars_ne in Es|].
  destruct (bool_decide (first = chars "params")) eqn:Ef; intros Hp Hname.
  - apply bool_decide_eq_true in Ef as ->. destruct rest as [|name rest]; [done|]. apply andb_true_iff in Hp as [Hne%negb_true_iff%bool_decide_eq_false Hsp].
    cbn [fmap list_fmap foldl]. change (unchars (chars "params")) with "params"%string. cbn [is_object js_prop]. rewrite Hps, Hps'. cbn [is_object js_prop]. rewrite (Hn (unchars name)); [done|].
    apply Hname. by exists rest.
  - apply bool_decide_eq_false in Ef. cbn [fmap list_fmap foldl is_object js_prop]. rewrite (Hrest (unchars first)); [done|]. intros E. apply Ef. by rewrite <-E, chars_unchars.
Qed.

Lemma replace_holes_ext_in f g s : (forall raw, Hole raw ∈ pieces s -> f (path_of raw) = g (path_of raw)) -> replace_holes f s = replace_holes g s.
Proof.
  intros H. unfold replace_holes. do 2 f_equal. apply list_fmap_ext. intros i [c|raw] Hi; [done|]. f_equal. apply H. by eapply list_elem_of_lookup_2.
Qed.

Lemma sole_is_hole s path : sole_placeholder s = Some path -> exists raw, Hole raw ∈ pieces s /\ path = path_of raw.
Proof.
  unfold sole_placeholder. destruct (hole_at (chars s)) as [[raw [|]]|] eqn:E; try done. intros [= <-]. exists raw. split; [|done].
  change (Hole raw ∈ holes (chars s)). rewrite holes_eq, E. left.
Qed.

Lemma string_agrees s : forallb plain_piece (pieces s) = true -> (forall n, n ∈ names_in s -> names n) ->
  substituteString num_text s ctx = substituteString num_text s ctx'.
Proof.
  intros Hp Hn. rewrite forallb_forall in Hp.
  assert (forall raw, Hole raw ∈ pieces s -> getByPath ctx (path_of raw) = getByPath ctx' (path_of raw)) as H.
  { intros raw Hr. apply hole_agrees; [by apply Hp, list_elem_of_In|]. intros name Hname. apply Hn. by eapply placeholders_are_found. }
  unfold substituteString. destruct (sole_placeholder s) as [path|] eqn:E.
  - apply sole_is_hole in E as (raw & Hr & ->). by rewrite H.
  - f_equal. apply replace_holes_ext_in. intros raw Hr. by rewrite H.
Qed.

Lemma walk_agrees v : plain_value v = true -> (forall n, n ∈ names_of v -> names n) -> walk num_text v ctx = walk num_text v ctx'.
Proof.
  revert v. fix IH 1. intros v. destruct v as [| | | |s|l|fs| |]; cbn [walk plain_value names_of]; try done; intros Hp Hn.
  - by apply string_agrees.
  - f_equal. induction l as [|x l IHl]; [done|]. cbn [forallb] in Hp. apply andb_true_iff in Hp as [Hx Hl]. csimpl. f_equal.
    + apply IH; [done|]. intros n Hin. apply Hn. cbn. apply elem_of_app. by left.
    + apply IHl; [done|]. intros n Hin. apply Hn. cbn. apply elem_of_app. by right.
  - f_equal. induction fs as [|[k x] fs IHl]; [done|]. cbn [forallb] in Hp. apply andb_true_iff in Hp as [Hx Hl]. csimpl. f_equal.
    + f_equal. apply IH; [done|]. intros n Hin. apply Hn. cbn. apply elem_of_app. by left.
    + apply IHl; [done|]. intros n Hin. apply Hn. cbn. apply elem_of_app. by right.
Qed.
End Fill.

(** ** The save and the run *)

Lemma elem_of_referenced steps n : n ∈ referenced_in steps <-> exists step, step ∈ steps /\ n ∈ names_of (template_of step).
Proof.
  unfold referenced_in. assert (forall found, n ∈ foldl (fun found step => foldl js_set_add found (paramsReferencedInTemplate (template_of step))) found steps <->
    n ∈ found \/ exists step, step ∈ steps /\ n ∈ names_of (template_of step)) as H; [|rewrite H; set_solver].
  induction steps as [|s steps IH]; intros found; cbn [foldl]; [set_solver|]. rewrite IH, elem_of_foldl_js_set_add. unfold paramsReferencedInTemplate.
  rewrite elem_of_js_set_of. set_solver.
Qed.

Section Save.
Context (URL : string -> option ParsedUrl) (isGraphqlEndpoint isMailProviderTarget : string -> bool) (num_text : Q -> string).

(** The name is constrained, and the constraint constrains something. *)
Definition effectively_constrained (c : CapabilityContract) (n : string) : Prop :=
  exists k, (n, k) ∈ paramConstraints c /\ isEffectiveConstraint (Some k) = true.

Lemma accepted_names c steps n : validateContractAgainstSteps URL isGraphqlEndpoint isMailProviderTarget (Some c) steps = None ->
  n ∈ referenced_in steps -> effectively_constrained c n.
Proof.
  unfold validateContractAgainstSteps. destruct (if bool_decide _ then _ else _); [done|]. destruct (filter _ (hostPatterns c)); [|done].
  set (constrained := js_set_of _). destruct (filter (fun p => p ∉ constrained) _) eqn:E; [|done]. intros _ Hn.
  assert (n ∈ constrained) as H.
  { destruct (decide (n ∈ constrained)) as [|Hne]; [done|]. exfalso. eapply (elem_of_nil n). rewrite <-E. apply list_elem_of_filter. done. }
  unfold constrained in H. apply elem_of_js_set_of, list_elem_of_fmap in H as ([n' k] & -> & Hk). apply list_elem_of_filter in Hk as [? ?]. by exists k.
Qed.

(** C11. What a governed workflow calls does not depend on unconstrained parameters. Where the save accepts a contract and
    its steps, filling a step's captured call gives the same call for any two sets of parameters that agree on the ones
    with an effective constraint, whatever else was bound: no other parameter picks what is sent. It holds of templates
    whose placeholders name parameters one by one by names without blanks; the next two examples show why. *)
Theorem governed_calls_read_constrained_parameters c steps step t ctx ctx' :
  validateContractAgainstSteps URL isGraphqlEndpoint isMailProviderTarget (Some c) steps = None ->
  step ∈ steps -> template_of step = JObj t -> plain_value (JObj t) = true -> agree_on (effectively_constrained c) ctx ctx' ->
  resolveInputTemplate num_text t ctx = resolveInputTemplate num_text t ctx'.
Proof.
  intros Hv Hs Ht Hp Ha. unfold resolveInputTemplate. apply (walk_agrees num_text _ _ _ Ha); [done|].
  intros n Hn. eapply accepted_names; [done|]. apply elem_of_referenced. exists step. by rewrite Ht.
Qed.
End Save.

(** *** A contract built from what a person typed is one its save accepts *)

Lemma pin_names_ok bp names cs cs' : pin_names bp names cs = Ok cs' ->
  (forall n, n ∈ names -> exists v, jm_get cs' n = Some (one_value v)) /\
  (forall n k, jm_get cs' n = Some k -> jm_get cs n = Some k \/ n ∈ names /\ exists v, k = one_value v) /\
  (forall n, n ∉ names -> jm_get cs' n = jm_get cs n).
Proof.
  revert cs. induction names as [|n names IH]; intros cs; cbn [pin_names]; [intros [= ->]; split_and!; [set_solver|auto|done]|].
  intros H. assert (exists v, pin_names bp names (jm_set cs n (one_value v)) = Ok cs') as [v Hv] by (destruct (js_prop _ n); by try (eexists; exact H)).
  apply IH in Hv as (H1 & H2 & H3). split_and!.
  - intros n' [->|Hn']%elem_of_cons; [|auto]. destruct (decide (n ∈ names)) as [Hin|Hin]; [by apply H1|]. exists v.
    rewrite H3, jm_get_set by done. by rewrite decide_True.
  - intros n' k Hk. apply H2 in Hk as [Hk|[? ?]]; [|right; split; [by right|done]]. rewrite jm_get_set in Hk. case_decide; [|auto].
    subst. right. split; [left|]. injection Hk as <-. by eexists.
  - intros n' [Hne Hn']%not_elem_of_cons. rewrite H3, jm_get_set by done. by rewrite decide_False.
Qed.

Lemma pin_steps_ok bp steps cs cs' : pin_steps bp steps cs = Ok cs' ->
  (forall n, n ∈ referenced_in steps -> exists v, jm_get cs' n = Some (one_value v)) /\
  (forall n, n ∉ referenced_in steps -> jm_get cs' n = jm_get cs n).
Proof.
  setoid_rewrite elem_of_referenced. revert cs. induction steps as [|s steps IH]; intros cs; cbn [pin_steps]; [intros [= ->]; split; [set_solver|done]|].
  intros (cs1 & H1 & H2)%bind_Ok. apply pin_names_ok in H1 as (Ha & _ & Hb). apply IH in H2 as (Hc & Hd).
  assert (forall n, n ∈ paramsReferencedInTemplate (template_of s) <-> n ∈ names_of (template_of s)) as Hs by (intros n; apply elem_of_js_set_of).
  assert (forall n, (exists step, step ∈ s :: steps /\ n ∈ names_of (template_of step)) <->
    n ∈ names_of (template_of s) \/ exists step, step ∈ steps /\ n ∈ names_of (template_of step)) as Hx by set_solver.
  setoid_rewrite Hx. split.
  - intros n Hn. destruct (decide (n ∈ referenced_in steps)) as [Hr%elem_of_referenced|Hr]; [by apply Hc|].
    assert (~ exists step, step ∈ steps /\ n ∈ names_of (template_of step)) as Hr' by (by rewrite <-elem_of_referenced).
    rewrite Hd by done. apply Ha, Hs. tauto.
  - intros n Hn. rewrite Hd, Hb by (rewrite ?Hs; tauto). done.
Qed.

Lemma a_built_contract_is_saved URL gq mail entry steps bp c : buildReviewedContract URL gq mail entry steps bp = Ok c ->
  c_origin c = Some reviewed /\ reviewedContractShapeError URL gq mail c steps = None /\
  validateContractAgainstSteps URL gq mail (Some c) steps = None.
Proof.
  unfold buildReviewedContract. destruct (negb _); [done|]. destruct (normaliseReviewedHost URL _) as [host|] eqn:Eh; [|done].
  intros (cs & Hcs & H)%bind_Ok. set (k := {| version := 1 |}) in H. destruct (reviewedContractShapeError _ _ _ k steps) eqn:Es; [done|].
  destruct (first_error _ steps); [done|]. injection H as <-. split_and!; [done|done|].
  unfold validateContractAgainstSteps. cbn [c_origin k]. rewrite bool_decide_eq_true_2, Es by done.
  assert (filter (fun h => isOverbroadHostPattern (chars h) = true) (hostPatterns k) = []) as ->.
  { apply elem_of_nil_inv. intros h [Ho Hh]%list_elem_of_filter. cbn in Hh. apply list_elem_of_singleton in Hh as ->.
    by rewrite literal_not_overbroad in Ho by (by eapply normalised_literal). }
  assert (filter (fun p => p ∉ js_set_of (filter (fun kv => isEffectiveConstraint (Some kv.2) = true) (paramConstraints k)).*1) (referenced_in steps) = []) as ->; [|done].
  apply elem_of_nil_inv. intros n [Hn Hr]%list_elem_of_filter. apply Hn, elem_of_js_set_of. cbn [paramConstraints k].
  apply pin_steps_ok in Hcs as [Hcs _]. destruct (Hcs n Hr) as [v Hv]. apply list_elem_of_fmap. exists (n, one_value v). split; [done|].
  apply list_elem_of_filter. split; [done|]. by apply jm_get_elem_of.
Qed.

(** ** Concrete templates *)

Definition body_step (body : string) : jval :=
  JObj [("id", JStr "s1"); ("tool", JStr "http_request");
        ("input_template", JObj [("url", JStr "https://api.example.com/orders"); ("body", JStr body)])]%string.
Definition body_template (body : string) : context := [("url", JStr "https://api.example.com/orders"); ("body", JStr body)]%string.
Definition one_constraint : CapabilityContract :=
  {| version := 1; c_origin := None; grantedTools := ["http_request"]; httpMethods := ["POST"]; hostPatterns := ["api.example.com"];
     pathPatterns := ["/orders"]; paramConstraints := [("order", one_value (JStr "7"))] |}%string.
Definition bound (secret : string) : context := [("params", JObj [("order", JStr "7"); ("order id", JStr secret)])]%string.
Definition filled (body secret : string) : jval := resolveInputTemplate (fun _ => ""%string) (body_template body) (bound secret).

Lemma governed_calls_read_constrained_parameters_witness :
  validateContractAgainstSteps sample_URL no_question no_question (Some one_constraint) [body_step "no {{ params.order }}"] = None /\
  filled "no {{ params.order }}" "a" = filled "no {{ params.order }}" "b".
Proof.
  assert (validateContractAgainstSteps sample_URL no_question no_question (Some one_constraint) [body_step "no {{ params.order }}"] = None) as Hv by (vm_compute; reflexivity).
  split; [exact Hv|]. refine (governed_calls_read_constrained_parameters sample_URL no_question no_question (fun _ => ""%string) one_constraint _
    (body_step "no {{ params.order }}") (body_template "no {{ params.order }}") (bound "a") (bound "b") Hv _ eq_refl _ _).
  - by left.
  - vm_compute. reflexivity.
  - split; [intros k Hk; cbn; by rewrite !decide_False by done|]. eexists _, _. split_and!; [reflexivity..|].
    intros n (k & Hk & _). cbn in Hk. apply list_elem_of_singleton in Hk as [= -> ->]. reflexivity.
Defined.

(** The parameters as a whole are no name the save reads, and the run fills them in: a governed workflow sends a parameter
    nobody constrained. *)
Example the_whole_parameters_reach_a_call :
  validateContractAgainstSteps sample_URL no_question no_question (Some one_constraint) [body_step "{{params}}"] = None /\
  filled "{{params}}" "a" <> filled "{{params}}" "b".
Proof. split; [vm_compute; reflexivity|]. intros H. apply (f_equal (fun v => js_prop (js_prop v "body") "order id")) in H. vm_compute in H. congruence. Qed.

(** A name with a blank in it is read up to the blank, and filled in as a whole. *)
Example a_name_with_a_blank_reaches_a_call :
  validateContractAgainstSteps sample_URL no_question no_question (Some one_constraint) [body_step "{{params.order id}}"] = None /\
  filled "{{params.order id}}" "a" <> filled "{{params.order id}}" "b".
Proof. split; [vm_compute; reflexivity|]. intros H. apply (f_equal (fun v => js_prop v "body")) in H. vm_compute in H. congruence. Qed.
