(* ===== verification/Grant.v ===== *)
(** A person's grant of unattended writes to a saved workflow, [core/workflow-grant.ts]: what the dialog prepares, the
    acceptance, and the check of every run whether it carries the contract; with the rows of [core/workflow-store.ts] the
    acceptance writes.

    What a person is shown is bound by a digest, a function here; the host's [RegExp] decides which characters show as
    text, and which values a parameter's pattern takes. Ids and times are handed in. *)
From S2P Require Import Prelude Num JsString JsValue StepContext WorkflowParams Egress Glob BulkData Contract.

(** ** Data *)

(** @src src/src/types/capability-contract.ts 145-166 ReviewedGrantStamp *)
Record ReviewedGrantStamp := { s_by : string; s_name : option string; s_at : string; s_checksum : string; s_binding : string;
  s_triggerId : string; s_afterUntrusted : bool; s_grantId : option string }.
(** What a grant reads of a saved workflow. *)
(** @src src/src/types/pipeline.ts 116-200 PlannedPipeline *)
Record PlannedPipeline := { pl_id : string; steps : list jval; mode : string; parameters : list jval;
  capabilityContract : option CapabilityContract; reviewedGrant : option ReviewedGrantStamp; confirmedAt : option string }.
(** @src src/src/core/workflow-grant.ts 75-79 GrantTrigger *)
Record GrantTrigger := { t_workflowId : option string; t_cron : option string; t_paramsJson : option string }.
(** @src src/src/core/workflow-store.ts 99-114 WorkflowGrantRow *)
Record WorkflowGrantRow := { g_grantId : string; g_workflowId : string; g_contractJson : string; g_by : string; g_name : option string; g_at : string;
  g_checksum : string; g_binding : string; g_triggerId : string; g_cron : string; g_boundParamsJson : string; g_afterUntrusted : bool }.
(** @src src/src/core/workflow-grant.ts 82-99 GrantRunOrigin *)
Inductive GrantRunOrigin := Schedule (triggerId : string) (byHand : bool) | Library (by_ : string) | Webhook (triggerId eventId : string).
(** @src src/src/core/workflow-grant.ts 105-109 startedVia *)
Definition startedVia (o : GrantRunOrigin) : string :=
  match o with
  | Library b => "library:" ++ b
  | Webhook t _ => "webhook:" ++ t
  | Schedule t hand => (if hand then "schedule-hand" else "schedule") ++ ":" ++ t
  end%string.
(** The row a grant's id names, none, or no answer. *)
(** @src src/src/core/run-history.ts 1642-1645 WorkflowGrantLookup *)
Inductive WorkflowGrantLookup := Found (grant : WorkflowGrantRow) | MissingGrant | Unavailable.
(** Why a run goes ahead without its contract. *)
Inductive Withheld := WebhookRun | NeverReviewed | NoAcceptance | OtherSchedule | ScheduleGone | ValuesUnreadable | NoDatabase
  | Changed | NoRecordKept | RecordUnreadable | RecordMismatch.
(** The contract travels with its grant's id and whether it lifts after external content. *)
(** @src src/src/core/workflow-grant.ts 115-118 GrantDecision *)
Inductive GrantDecision :=
| Granted (contract : CapabilityContract) (afterUntrusted : bool) (grantId : string) (boundParams : context)
| NotGranted (note : option Withheld).

(** ** The JSON of a contract *)

Definition text_list (l : list string) : jval := JArr (JStr <$> l).
Definition opt_field {A} (k : string) (f : A -> jval) (o : option A) : context := match o with Some x => [(k, f x)] | None => [] end.
Definition constraint_json (c : ParamConstraint) : jval :=
  JObj (opt_field "enum" JArr (c_enum c) ++ opt_field "regex" JStr (c_regex c) ++ opt_field "min" JNum (c_min c) ++ opt_field "max" JNum (c_max c)).
Definition origin_text (o : ContractOrigin) : jval := JStr match o with authorship => "authorship" | reviewed => "reviewed" end.
Definition constraints_json (cs : list (string * ParamConstraint)) : jval := JObj ((fun kv => (kv.1, constraint_json kv.2)) <$> cs).
Definition contract_json (c : CapabilityContract) : jval :=
  JObj (opt_field "version" (fun v => JNum (num_of_Z v)) (Some (version c)) ++ opt_field "origin" origin_text (c_origin c) ++
        opt_field "grantedTools" text_list (Some (grantedTools c)) ++ opt_field "httpMethods" text_list (Some (httpMethods c)) ++
        opt_field "hostPatterns" text_list (Some (hostPatterns c)) ++ opt_field "pathPatterns" text_list (Some (pathPatterns c)) ++
        opt_field "paramConstraints" constraints_json (Some (paramConstraints c))).

Section Grant.
Context (num_text : Q -> string) (keyedHash : list string -> string) (hashIsKeyed : bool) (JSON_parse : string -> option jval).

(** @src src/src/core/workflow-grant.ts 49-51 storedForm *)
Definition storedForm (v : jval) : string := canonicalJson num_text (default JNull (json_round v)).

(** @src src/src/core/workflow-grant.ts 33-41 GrantChecksumInput *)
Record GrantChecksumInput := { k_contract : CapabilityContract; k_steps : list jval; k_mode : string; k_parameters : list jval;
  k_boundParams : context; k_cron : string; k_afterUntrusted : bool }.
Definition checksum_parts (i : GrantChecksumInput) : list string :=
  ["workflow-grant-v1"; storedForm (contract_json (k_contract i)); storedForm (JArr (k_steps i)); k_mode i; storedForm (JArr (k_parameters i));
   storedForm (JObj (k_boundParams i)); k_cron i; if k_afterUntrusted i then "after-untrusted" else "clean-only"]%string.
(** @src src/src/core/workflow-grant.ts 60-72 grantChecksum *)
Definition grantChecksum (i : GrantChecksumInput) : string * string :=
  (keyedHash (checksum_parts i), if hashIsKeyed then "keyed"%string else "unkeyed"%string).

(** @src src/src/core/workflow-grant.ts 121-123 sameBoundValues *)
Definition sameBoundValues (a b : context) : bool := bool_decide (storedForm (JObj a) = storedForm (JObj b)).

(** Own properties only. *)
Fixpoint own_path (at_ : jval) (segments : list string) : option jval :=
  match segments with
  | [] => Some at_
  | s :: segments =>
      match at_ with
      | JObj fs => match jm_get fs s with Some v => own_path v segments | None => None end
      | JArr l => if decide (s = "length"%string) then own_path (JNum (num_of_Z (Z.of_nat (length l)))) segments else match array_index s ≫= fun i => l !! i with Some v => own_path v segments | None => None end
      | _ => None
      end
  end.
(** @src src/src/core/workflow-grant.ts 163-175 acceptedValueMatcher *)
Definition acceptedValueMatcher (accepted : context) (path : string) (value : jval) : bool :=
  match split "." path with
  | first :: rest =>
      if negb (bool_decide (first = "params"%string)) || no_value value then false
      else match own_path (JObj accepted) rest with
      | Some at_ => negb (no_value at_) && bool_decide (storedForm at_ = storedForm value)
      | None => false
      end
  | [] => false
  end.

(** @src src/src/core/workflow-grant.ts 177-185 parseParams *)
Definition parseParams (json : option string) : option context :=
  match json with
  | None | Some ""%string => Some []
  | Some json => match JSON_parse json with Some (JObj fs) => Some fs | _ => None end
  end.

(** ** Whether a run carries its contract *)

(** [hasher] is whether the engine's database is there. *)
(** @src src/src/core/workflow-grant.ts 203-257 decideRunGrant *)
Definition decideRunGrant (planned : PlannedPipeline) (origin : GrantRunOrigin) (lookupTrigger : string -> option GrantTrigger) (hasher : bool)
    (lookupGrant : string -> WorkflowGrantLookup) : GrantDecision :=
  match capabilityContract planned with
  | None => NotGranted None
  | Some contract =>
      let withheld why := NotGranted (Some why) in
      if match origin with Webhook _ _ => true | _ => false end then withheld WebhookRun
      else if negb (bool_decide (c_origin contract = Some reviewed)) then withheld NeverReviewed
      else match reviewedGrant planned with
      | None => withheld NoAcceptance
      | Some stamp =>
          if match origin with Schedule t _ => negb (bool_decide (t = s_triggerId stamp)) | _ => false end then withheld OtherSchedule
          else match lookupTrigger (s_triggerId stamp) with
          | None => withheld ScheduleGone
          | Some trigger =>
              if negb (bool_decide (t_workflowId trigger = Some (pl_id planned))) then withheld ScheduleGone
              else match t_cron trigger, parseParams (t_paramsJson trigger) with
              | None, _ => withheld ScheduleGone
              | Some _, None => withheld ValuesUnreadable
              | Some cron, Some boundParams =>
                  if negb hasher then withheld NoDatabase
                  else
                    let checksum := (grantChecksum {| k_contract := contract; k_steps := steps planned; k_mode := mode planned;
                      k_parameters := parameters planned; k_boundParams := boundParams; k_cron := cron; k_afterUntrusted := s_afterUntrusted stamp |}).1 in
                    if negb (bool_decide (checksum = s_checksum stamp)) then withheld Changed
                    else match s_grantId stamp with
                    | None | Some ""%string => withheld NoRecordKept
                    | Some grantId =>
                        match lookupGrant grantId with
                        | Unavailable => withheld RecordUnreadable
                        | MissingGrant => withheld RecordMismatch
                        | Found grant =>
                            if negb (bool_decide (g_workflowId grant = pl_id planned)) || negb (bool_decide (g_triggerId grant = s_triggerId stamp)) ||
                               negb (bool_decide (g_checksum grant = s_checksum stamp)) then withheld RecordMismatch
                            else Granted contract (s_afterUntrusted stamp) grantId boundParams
                        end
                    end
              end
          end
      end
  end.
(** ** What a person is shown, and accepts *)

Context (URL : string -> option ParsedUrl) (isGraphqlEndpoint isMailProviderTarget : string -> bool).
Context (RegExp : string -> option (string -> bool)) (Date_parse : string -> num) (HIDDEN_IN_VALUE : string -> bool) (grantName : jval -> option string).

(** @src src/src/core/workflow-grant.ts 260-267 WorkflowGrantRequest *)
Record WorkflowGrantRequest := { r_method : jval; r_host : jval; r_paths : jval; r_params : jval; r_cron : string; r_afterUntrusted : jval }.
Inductive PrepareError := NeedsMethodAndHost | NeedsPath | BadAfterUntrusted | BadParams | BindFailed (e : bind_error) | HiddenName | HiddenValue (name : string)
  | BuildFailed (e : BuildError) | Invalid (e : ContractError).
(** @src src/src/core/workflow-grant.ts 269-279 PreparedGrant *)
Record PreparedGrant := { p_contract : CapabilityContract; p_boundParams : context; p_afterUntrusted : bool; p_checksum : string; p_binding : string;
  p_tuples : list string }.

(** The text the dialog shows for a value. *)
Definition shown_text (v : jval) : string := match v with JStr s => s | _ => default (js_string num_text v) (stringify num_text v) end.
(** @src src/src/core/workflow-grant.ts 146-155 hiddenInBoundValues *)
Definition hiddenInBoundValues (params : context) : option PrepareError :=
  first_error (fun '(name, value) =>
    if HIDDEN_IN_VALUE name || existsb (fun c => bool_decide (c = chr 10) || bool_decide (c = chr 9)) (chars name) then Some HiddenName
    else if HIDDEN_IN_VALUE (shown_text value) then Some (HiddenValue name) else None) params.

(** A stored parameter as the binder reads it. *)
Definition parameter_of (v : jval) : ProcessParameter :=
  mkParam (match js_prop v "name" with JStr s => s | _ => ""%string end)
    (match js_prop v "type" with JStr "number" => p_number | JStr "date" => p_date | _ => p_string end) (js_prop v "defaultValue").
Definition bind_values (planned : PlannedPipeline) (given : option context) : result PrepareError context :=
  match bindWorkflowParameters num_text RegExp Date_parse (parameter_of <$> parameters planned) given (Some true) [] with
  | Ok out => Ok out
  | Err e => Err (BindFailed e)
  end.
Definition texts_of (v : jval) : option (list string) :=
  match v with JArr l => mapM (fun x => match x with JStr s => Some s | _ => None end) l | _ => None end.

(** Behind the binding. *)
(** @src src/src/core/workflow-grant.ts 311-329 prepareWorkflowGrant *)
Definition prepare_bound (planned : PlannedPipeline) (entry : ReviewedGrantEntry) (cron : string) (afterUntrusted : bool) (bound : context)
    : result PrepareError PreparedGrant :=
  match hiddenInBoundValues bound with
  | Some e => Err e
  | None =>
      match buildReviewedContract URL isGraphqlEndpoint isMailProviderTarget entry (steps planned) bound with
      | Err e => Err (BuildFailed e)
      | Ok contract =>
          match validateContractAgainstSteps URL isGraphqlEndpoint isMailProviderTarget (Some contract) (steps planned) with
          | Some e => Err (Invalid e)
          | None =>
              let '(checksum, binding) := grantChecksum {| k_contract := contract; k_steps := steps planned; k_mode := mode planned;
                k_parameters := parameters planned; k_boundParams := bound; k_cron := cron; k_afterUntrusted := afterUntrusted |} in
              Ok {| p_contract := contract; p_boundParams := bound; p_afterUntrusted := afterUntrusted; p_checksum := checksum; p_binding := binding;
                    p_tuples := p ← pathPatterns contract; (fun m => m ++ " https://" ++ default "" (head (hostPatterns contract)) ++ p)%string <$> httpMethods contract |}
          end
      end
  end.
(** @src src/src/core/workflow-grant.ts 290-330 prepareWorkflowGrant *)
Definition prepareWorkflowGrant (planned : PlannedPipeline) (req : WorkflowGrantRequest) : result PrepareError PreparedGrant :=
  match r_method req, r_host req with
  | JStr method, JStr host =>
      match texts_of (r_paths req) with
      | None | Some [] => Err NeedsPath
      | Some paths =>
          match r_afterUntrusted req with
          | JUndef | JBool _ =>
              match r_params req with
              | JUndef | JObj _ =>
                  bind_values planned (match r_params req with JObj fs => Some fs | _ => None end) ≫= fun first =>
                  bind_values planned (Some first) ≫=
                  prepare_bound planned {| e_method := method; e_host := host; e_paths := paths |} (r_cron req)
                    (match r_afterUntrusted req with JBool b => b | _ => false end)
              | _ => Err BadParams
              end
          | _ => Err BadAfterUntrusted
          end
      end
  | _, _ => Err NeedsMethodAndHost
  end.

(** *** The acceptance *)

(** The stores it writes: saved workflows, schedules, and the record of every acceptance. *)
Record Stores := { workflows : list (string * PlannedPipeline); triggers : list (string * GrantTrigger); grants : list WorkflowGrantRow }.
(** A request to accept: with the digest the preview gave, who asks, the name typed, and the ids and the time of now. *)
Record Acceptance := { a_req : WorkflowGrantRequest; a_checksum : jval; a_name : jval; a_by : string; a_triggerId : string; a_grantId : string; a_now : string }.

(** @src src/src/core/workflow-store.ts 302-308 setReviewedGrant *)
Definition setReviewedGrant (ws : list (string * PlannedPipeline)) (id : string) (contract : CapabilityContract) (stamp : ReviewedGrantStamp) (confirmed : string)
    : option (list (string * PlannedPipeline)) :=
  if bool_decide (id = ""%string) then None
  else match jm_get ws id with
  | None => None
  | Some p => Some (jm_set ws id {| pl_id := pl_id p; steps := steps p; mode := mode p; parameters := parameters p; capabilityContract := Some contract;
                                    reviewedGrant := Some stamp; confirmedAt := Some confirmed |})
  end.
(** One transaction: the row and the workflow, or neither ([None]). *)
(** @src src/src/core/workflow-store.ts 321-339 acceptReviewedGrant *)
Definition acceptReviewedGrant (s : Stores) (row : WorkflowGrantRow) (contract : CapabilityContract) (stamp : ReviewedGrantStamp) (confirmed : string) : option Stores :=
  if bool_decide (g_grantId row ∈ g_grantId <$> grants s) then None
  else (fun ws => {| workflows := ws; triggers := triggers s; grants := grants s ++ [row] |}) <$> setReviewedGrant (workflows s) (g_workflowId row) contract stamp confirmed.

Inductive AcceptResult := Accepted (triggerId : string) | Refused400 (e : PrepareError) | Refused409 | Failed500.
Definition json_of (v : jval) : string := default ""%string (stringify num_text v).
(** [planned] is the workflow as its caller read it. *)
(** @src src/src/core/workflow-grant.ts 384-438 acceptWorkflowGrant *)
Definition acceptWorkflowGrant (s : Stores) (planned : PlannedPipeline) (a : Acceptance) : Stores * AcceptResult :=
  match prepareWorkflowGrant planned (a_req a) with
  | Err e => (s, Refused400 e)
  | Ok prepared =>
      if negb match a_checksum a with JStr c => bool_decide (c = p_checksum prepared) | _ => false end then (s, Refused409)
      else
        let cron := r_cron (a_req a) in
        let values := json_of (JObj (p_boundParams prepared)) in
        let task := {| t_workflowId := Some (pl_id planned); t_cron := Some cron; t_paramsJson := Some values |} in
        let s1 := {| workflows := workflows s; triggers := jm_set (triggers s) (a_triggerId a) task; grants := grants s |} in
        let row := {| g_grantId := a_grantId a; g_workflowId := pl_id planned; g_contractJson := json_of (contract_json (p_contract prepared)); g_by := a_by a;
          g_name := grantName (a_name a); g_at := a_now a; g_checksum := p_checksum prepared; g_binding := p_binding prepared; g_triggerId := a_triggerId a;
          g_cron := cron; g_boundParamsJson := values; g_afterUntrusted := p_afterUntrusted prepared |} in
        let stamp := {| s_by := a_by a; s_name := grantName (a_name a); s_at := a_now a; s_checksum := p_checksum prepared; s_binding := p_binding prepared;
          s_triggerId := a_triggerId a; s_afterUntrusted := p_afterUntrusted prepared; s_grantId := Some (a_grantId a) |} in
        match acceptReviewedGrant s1 row (p_contract prepared) stamp (a_now a) with
        | Some s2 => (s2, Accepted (a_triggerId a))
        | None => ({| workflows := workflows s1; triggers := jm_del (triggers s1) (a_triggerId a); grants := grants s1 |}, Failed500)
        end
  end.

(** Anything else: other requests, tools, migrations and raw writes change workflows and schedules as they like; the record of
    acceptances has one writer. *)
Inductive Event :=
| Accept (planned : PlannedPipeline) (a : Acceptance)
| Elsewhere (ws : list (string * PlannedPipeline)) (ts : list (string * GrantTrigger)).
Definition happen (s : Stores) (e : Event) : Stores :=
  match e with
  | Accept p a => (acceptWorkflowGrant s p a).1
  | Elsewhere ws ts => {| workflows := ws; triggers := ts; grants := grants s |}
  end.
Definition empty_stores : Stores := {| workflows := []; triggers := []; grants := [] |}.
Definition after (events : list Event) : Stores := foldl happen empty_stores events.

(** The check of a run against the stores. *)
Definition getGrant (s : Stores) (grantId : string) : WorkflowGrantLookup :=
  match filter (fun g => g_grantId g = grantId) (grants s) with g :: _ => Found g | [] => MissingGrant end.
Definition decide_in (s : Stores) (planned : PlannedPipeline) (origin : GrantRunOrigin) : GrantDecision :=
  decideRunGrant planned origin (jm_get (triggers s)) true (getGrant s).
End Grant.
