(* ===== verification/GrantLaws.v ===== *)
(** What a grant of unattended writes guarantees: a run carries a contract only as a person accepted it, on the schedule
    accepted with it or from the library; and an accepted grant is carried until something it was bound to changes. *)
From S2P Require Import Prelude Num JsString JsValue StepContext WorkflowParams Egress Glob BulkData Contract ContractLaws ContractParams Grant.

(** ** Values written and read back *)

Lemma json_round_idem v w : json_round v = Some w -> json_round w = Some w.
Proof.
  revert v w. fix IH 1. intros v w. destruct v as [| |b|n|s|l|fs|f|b]; cbn [json_round]; try done; try (by intros [= <-]).
  - intros [= <-]. destruct (isFinite n) eqn:E; cbn [json_round]; [by rewrite E|done].
  - intros [= <-]. cbn [json_round]. do 2 f_equal. induction l as [|x l IHl]; [done|]. csimpl. f_equal; [|done].
    destruct (json_round x) as [y|] eqn:E; cbn; [|done]. by rewrite (IH _ _ E).
  - intros [= <-]. cbn [json_round]. do 2 f_equal. induction fs as [|[k x] fs IHl]; [done|]. csimpl.
    destruct (json_round x) as [y|] eqn:E; csimpl; [|done]. rewrite (IH _ _ E). csimpl. by f_equal.
  - destruct b; by intros [= <-].
Qed.

Section Laws.
Context (num_text : Q -> string) (keyedHash : list string -> string) (hashIsKeyed : bool) (JSON_parse : string -> option jval).
Context (URL : string -> option ParsedUrl) (isGraphqlEndpoint isMailProviderTarget : string -> bool).
Context (RegExp : string -> option (string -> bool)) (Date_parse : string -> num) (HIDDEN_IN_VALUE : string -> bool) (grantName : jval -> option string).

Abbreviation prepare := (prepareWorkflowGrant num_text keyedHash hashIsKeyed URL isGraphqlEndpoint isMailProviderTarget RegExp Date_parse HIDDEN_IN_VALUE).
Abbreviation accept := (acceptWorkflowGrant num_text keyedHash hashIsKeyed URL isGraphqlEndpoint isMailProviderTarget RegExp Date_parse HIDDEN_IN_VALUE grantName).
Abbreviation after := (Grant.after num_text keyedHash hashIsKeyed URL isGraphqlEndpoint isMailProviderTarget RegExp Date_parse HIDDEN_IN_VALUE grantName).
Abbreviation decide_in := (Grant.decide_in num_text keyedHash hashIsKeyed JSON_parse).
Abbreviation storedForm := (Grant.storedForm num_text).

Lemma storedForm_round fs : storedForm (default JNull (json_round (JObj fs))) = storedForm (JObj fs).
Proof. unfold Grant.storedForm. destruct (json_round (JObj fs)) as [w|] eqn:E; [|done]. change (default JNull (Some w)) with w. by rewrite (json_round_idem _ _ E). Qed.

(** ** The record of acceptances *)

(** What was shown for [p] and [req]: the digest is over exactly this. *)
Definition accepted_input (p : PlannedPipeline) (req : WorkflowGrantRequest) (g : PreparedGrant) : GrantChecksumInput :=
  {| k_contract := p_contract g; k_steps := steps p; k_mode := mode p; k_parameters := parameters p; k_boundParams := p_boundParams g;
     k_cron := r_cron req; k_afterUntrusted := p_afterUntrusted g |}.

Lemma prepare_offers p req g : prepare p req = Ok g -> exists entry au bound,
  prepare_bound num_text keyedHash hashIsKeyed URL isGraphqlEndpoint isMailProviderTarget HIDDEN_IN_VALUE p entry (r_cron req) au bound = Ok g.
Proof.
  unfold prepareWorkflowGrant. destruct (r_method req), (r_host req); try done. destruct (texts_of _) as [[|path ps]|]; try done.
  destruct (r_afterUntrusted req); try done; destruct (r_params req); try done; intros (first & _ & (bound & _ & H)%bind_Ok)%bind_Ok; by eexists _, _, bound.
Qed.

Lemma prepare_checksum p req g : prepare p req = Ok g ->
  p_checksum g = keyedHash (checksum_parts num_text (accepted_input p req g)) /\ c_origin (p_contract g) = Some reviewed /\
  reviewedContractShapeError URL isGraphqlEndpoint isMailProviderTarget (p_contract g) (steps p) = None.
Proof.
  intros (entry & au & bound & H)%prepare_offers. unfold prepare_bound in H. destruct (hiddenInBoundValues _ _ bound); [done|].
  destruct (buildReviewedContract _ _ _ _ _ bound) as [c|] eqn:Eb; [|done]. destruct (validateContractAgainstSteps _ _ _ _ _); [done|].
  injection H as <-. apply a_built_contract_is_saved in Eb as (Ho & Hs & _). done.
Qed.

(** The row [g] is what accepting [p] with [a] wrote. *)
Definition written_by (row : WorkflowGrantRow) (p : PlannedPipeline) (a : Acceptance) (g : PreparedGrant) : Prop :=
  prepare p (a_req a) = Ok g /\ a_checksum a = JStr (p_checksum g) /\ g_grantId row = a_grantId a /\ g_workflowId row = pl_id p /\
  g_triggerId row = a_triggerId a /\ g_checksum row = p_checksum g.

Lemma accept_writes s p a row : row ∈ grants (accept s p a).1 -> row ∈ grants s \/ exists g, written_by row p a g.
Proof.
  unfold acceptWorkflowGrant, written_by. destruct (prepare p (a_req a)) as [g|e] eqn:E; [|by left]. destruct (a_checksum a) as [| | | |c| | | |]; try by left.
  destruct (bool_decide (c = _)) eqn:Ec; [|by left]. apply bool_decide_eq_true in Ec as ->. cbn [negb].
  destruct (acceptReviewedGrant _ _ _ _ _) as [s2|] eqn:Ea; [|by left]. cbn [fst]. unfold acceptReviewedGrant in Ea. destruct (bool_decide _); [done|].
  destruct (setReviewedGrant _ _ _ _ _); [|done]. injection Ea as <-. cbn [grants]. intros [H| ->%list_elem_of_singleton]%elem_of_app; [by left|]. right. by exists g.
Qed.

Lemma every_row_was_accepted events row : row ∈ grants (after events) -> exists p a g, Accept p a ∈ events /\ written_by row p a g.
Proof.
  induction events as [|e events IH] using rev_ind; [by intros []%elem_of_nil|]. unfold Grant.after. rewrite foldl_app. cbn [foldl]. fold (after events). intros H.
  assert (row ∈ grants (after events) -> exists p a g, Accept p a ∈ events ++ [e] /\ written_by row p a g) as Hold.
  { intros (p & a & g & Hin & Hw)%IH. exists p, a, g. split; [|done]. apply elem_of_app. by left. }
  destruct e as [p a|ws ts]; [|by apply Hold]. apply accept_writes in H as [H|[g Hg]]; [by apply Hold|]. exists p, a, g. split; [|done]. apply elem_of_app. right. by left.
Qed.

(** The two inputs are the same as far as they are stored. *)
Definition same_stored (i j : GrantChecksumInput) : Prop :=
  storedForm (contract_json (k_contract i)) = storedForm (contract_json (k_contract j)) /\ storedForm (JArr (k_steps i)) = storedForm (JArr (k_steps j)) /\
  k_mode i = k_mode j /\ storedForm (JArr (k_parameters i)) = storedForm (JArr (k_parameters j)) /\
  storedForm (JObj (k_boundParams i)) = storedForm (JObj (k_boundParams j)) /\ k_cron i = k_cron j /\ k_afterUntrusted i = k_afterUntrusted j.

Lemma grant_parts_inj i j : checksum_parts num_text i = checksum_parts num_text j -> same_stored i j.
Proof.
  intros E. assert (forall k, nth k (checksum_parts num_text i) ""%string = nth k (checksum_parts num_text j) ""%string) as H by (intros k; by rewrite E).
  split_and!; [exact (H 1%nat)|exact (H 2%nat)|exact (H 3%nat)|exact (H 4%nat)|exact (H 5%nat)|exact (H 6%nat)|].
  pose proof (H 7%nat) as H7. cbn [nth checksum_parts] in H7. by destruct (k_afterUntrusted i), (k_afterUntrusted j).
Qed.

(** ** What a run carries *)

(** C9. A run carries only what a person accepted. Over every sequence of acceptances and of whatever else anybody does to
    saved workflows and schedules, raw writes included: if the check of a run hands a contract on, the run was started by a
    schedule or from the library, and some acceptance in the trace, of this workflow, whose request carried the digest its
    preview showed, created that very schedule and is the one the grant's id names. The contract, the steps, the mode, the
    parameters, the values, the cron and the permission after external content are stored as they were accepted there, and
    what was accepted is a reviewed contract of the narrow shape. *)
Theorem only_an_accepted_grant_is_carried events p origin c au gid bound :
  (forall x y, keyedHash x = keyedHash y -> x = y) -> decide_in (after events) p origin = Granted c au gid bound ->
  exists p0 a g t, Accept p0 a ∈ events /\ prepare p0 (a_req a) = Ok g /\ a_checksum a = JStr (p_checksum g) /\
    a_grantId a = gid /\ pl_id p0 = pl_id p /\ (origin = Schedule (a_triggerId a) false \/ origin = Schedule (a_triggerId a) true \/ exists by_, origin = Library by_) /\
    jm_get (triggers (after events)) (a_triggerId a) = Some t /\ t_cron t = Some (r_cron (a_req a)) /\
    same_stored {| k_contract := c; k_steps := steps p; k_mode := mode p; k_parameters := parameters p; k_boundParams := bound;
                   k_cron := default ""%string (t_cron t); k_afterUntrusted := au |} (accepted_input p0 (a_req a) g) /\
    c_origin (p_contract g) = Some reviewed /\ reviewedContractShapeError URL isGraphqlEndpoint isMailProviderTarget (p_contract g) (steps p0) = None.
Proof.
  intros Hinj H. unfold Grant.decide_in, decideRunGrant in H. destruct (capabilityContract p) as [c'|]; [|done].
  destruct (match origin with Webhook _ _ => true | _ => false end) eqn:Ew; [done|]. destruct (negb _); [done|]. destruct (reviewedGrant p) as [stamp|]; [|done].
  destruct (match origin with Schedule _ _ => _ | _ => false end) eqn:Eo; [done|].
  destruct (jm_get _ (s_triggerId stamp)) as [t|] eqn:Et; [|done]. destruct (negb _); [done|]. destruct (t_cron t) as [cron|] eqn:Ecron; [|done].
  destruct (parseParams _ _) as [bp|]; [|done]. cbn [negb] in H. destruct (bool_decide (_ = s_checksum stamp)) eqn:Ec; [|done]. apply bool_decide_eq_true in Ec.
  cbn [negb] in H. destruct (s_grantId stamp) as [gid'|]; [|done]. destruct gid' as [|ch gid']; [done|].
  destruct (getGrant _ _) as [row| |] eqn:Eg; try done. destruct (_ || _) eqn:Em; [done|]. injection H as <- <- <- <-.
  apply orb_false_iff in Em as [[Hw Ht]%orb_false_iff Hk]. apply negb_false_iff, bool_decide_eq_true in Hw, Ht, Hk.
  unfold getGrant in Eg. destruct (filter _ _) as [|row' rest] eqn:Ef; [done|]. injection Eg as ->.
  assert (row ∈ row :: rest) as Hin by left. rewrite <-Ef in Hin. apply list_elem_of_filter in Hin as [Hid Hrow].
  apply every_row_was_accepted in Hrow as (p0 & a & g & Hev & Hp & Hac & Hg1 & Hg2 & Hg3 & Hg4). destruct (prepare_checksum _ _ _ Hp) as (Hsum & Ho & Hs).
  assert (same_stored {| k_contract := c'; k_steps := steps p; k_mode := mode p; k_parameters := parameters p; k_boundParams := bp; k_cron := cron;
    k_afterUntrusted := s_afterUntrusted stamp |} (accepted_input p0 (a_req a) g)) as Hsame.
  { apply grant_parts_inj, Hinj. cbn [grantChecksum fst] in Ec. congruence. }
  exists p0, a, g, t. rewrite Ecron. split_and!; try done; try congruence.
  - destruct origin as [tid hand|b|]; [|right; right; by exists b|done]. apply negb_false_iff, bool_decide_eq_true in Eo. destruct hand; [right; left|left]; congruence.
  - destruct Hsame as (_ & _ & _ & _ & _ & Hcr & _). cbn in Hcr. by rewrite Hcr.
Qed.
(** ** An accepted grant *)

Lemma fresh_grant_is_found s row : g_grantId row ∉ g_grantId <$> grants s -> forall ws ts,
  getGrant {| workflows := ws; triggers := ts; grants := grants s ++ [row] |} (g_grantId row) = Found row.
Proof.
  intros Hn ws ts. unfold getGrant. cbn [grants]. rewrite filter_app. assert (filter (fun g => g_grantId g = g_grantId row) (grants s) = []) as ->.
  { apply elem_of_nil_inv. intros g [E Hg]%list_elem_of_filter. apply Hn. rewrite <-E. by apply list_elem_of_fmap_2. }
  cbn [app]. rewrite filter_cons. by rewrite decide_True.
Qed.

(** The checks of a run, one after the other. *)
Lemma decide_carries p c stamp t cron bp gid row lookupTrigger lookupGrant origin :
  capabilityContract p = Some c -> c_origin c = Some reviewed -> reviewedGrant p = Some stamp ->
  (exists hand, origin = Schedule (s_triggerId stamp) hand) \/ (exists by_, origin = Library by_) ->
  lookupTrigger (s_triggerId stamp) = Some t -> t_workflowId t = Some (pl_id p) -> t_cron t = Some cron -> parseParams JSON_parse (t_paramsJson t) = Some bp ->
  (grantChecksum num_text keyedHash hashIsKeyed {| k_contract := c; k_steps := steps p; k_mode := mode p; k_parameters := parameters p; k_boundParams := bp;
     k_cron := cron; k_afterUntrusted := s_afterUntrusted stamp |}).1 = s_checksum stamp ->
  s_grantId stamp = Some gid -> gid <> ""%string -> lookupGrant gid = Found row ->
  g_workflowId row = pl_id p /\ g_triggerId row = s_triggerId stamp /\ g_checksum row = s_checksum stamp ->
  forall au, s_afterUntrusted stamp = au -> decideRunGrant num_text keyedHash hashIsKeyed JSON_parse p origin lookupTrigger true lookupGrant = Granted c au gid bp.
Proof.
  intros Hc Ho Hs Horigin Ht Hw Hcron Hbp Hsum Hg Hne Hl (H1 & H2 & H3) au <-. unfold decideRunGrant. rewrite Hc, Ho, Hs, bool_decide_eq_true_2 by done. cbn [negb].
  assert (match origin with Webhook _ _ => true | _ => false end = false /\
    match origin with Schedule t _ => negb (bool_decide (t = s_triggerId stamp)) | _ => false end = false) as [-> ->].
  { destruct Horigin as [[hand ->]|[b ->]]; [|done]. by rewrite bool_decide_eq_true_2. }
  rewrite Ht, Hw, bool_decide_eq_true_2, Hcron, Hbp by done. cbn [negb]. rewrite Hsum, bool_decide_eq_true_2 by done. cbn [negb].
  rewrite Hg. destruct gid as [|ch gid]; [done|]. rewrite Hl, H1, H2, H3, !bool_decide_eq_true_2 by done. done.
Qed.

Lemma stored_values_read fs b : JSON_parse (json_of num_text (JObj fs)) = json_round (JObj fs) -> json_round (JObj fs) = Some (JObj b) ->
  parseParams JSON_parse (Some (json_of num_text (JObj fs))) = Some b.
Proof.
  intros Hjson Hb. unfold parseParams. destruct (json_of num_text (JObj fs)) as [|ch rest] eqn:E; [done|]. by rewrite Hjson, Hb.
Qed.

(** C12. An accepted grant is carried. Where the acceptance succeeds on the workflow its caller read, the workflow as stored
    afterwards is handed its contract on every run its new schedule starts, by cron or by hand, and on every run from the
    library, with the values a person accepted as they are stored: the digest taken at the acceptance is the one the check
    takes again. [JSON.parse] is asked to read back what [JSON.stringify] wrote of those values. *)
Theorem an_accepted_grant_is_carried s p a s' t :
  (forall g, prepare p (a_req a) = Ok g -> JSON_parse (json_of num_text (JObj (p_boundParams g))) = json_round (JObj (p_boundParams g))) ->
  jm_get (workflows s) (pl_id p) = Some p -> a_grantId a <> ""%string -> accept s p a = (s', Accepted t) ->
  exists g p' bound, prepare p (a_req a) = Ok g /\ jm_get (workflows s') (pl_id p) = Some p' /\
    json_round (JObj (p_boundParams g)) = Some (JObj bound) /\
    forall origin, (exists hand, origin = Schedule t hand) \/ (exists by_, origin = Library by_) ->
      decide_in s' p' origin = Granted (p_contract g) (p_afterUntrusted g) (a_grantId a) bound.
Proof.
  intros Hjson Hread Hgid. unfold acceptWorkflowGrant. destruct (prepare p (a_req a)) as [g|e] eqn:Ep; [|done]. destruct (negb _); [done|].
  destruct (acceptReviewedGrant _ _ _ _ _) as [s2|] eqn:Ea; [|done]. intros [= <- <-]. unfold acceptReviewedGrant in Ea. cbn [g_grantId grants workflows triggers] in Ea.
  destruct (bool_decide _) eqn:Ef; [done|]. apply bool_decide_eq_false in Ef. unfold setReviewedGrant in Ea. cbn [g_workflowId] in Ea. destruct (bool_decide _); [done|].
  rewrite Hread in Ea. injection Ea as <-. destruct (prepare_checksum _ _ _ Ep) as (Hsum & Ho & _).
  assert (exists b, json_round (JObj (p_boundParams g)) = Some (JObj b)) as [b Hb] by (by eexists).
  eexists g, _, b. split_and!; [done|cbn [workflows]; rewrite jm_get_set; by rewrite decide_True|done|].
  intros origin Horigin. unfold Grant.decide_in. eapply decide_carries; cbn [capabilityContract reviewedGrant pl_id s_triggerId s_grantId s_checksum s_afterUntrusted triggers g_grantId]; try reflexivity; try done.
  - by rewrite jm_get_set, decide_True.
  - done.
  - done.
  - apply stored_values_read; [by apply Hjson|done].
  - rewrite Hsum. cbn [grantChecksum fst]. f_equal. unfold checksum_parts, accepted_input. cbn [k_contract k_steps k_mode k_parameters k_boundParams k_cron k_afterUntrusted steps mode parameters].
    pose proof (storedForm_round (p_boundParams g)) as Hst. rewrite Hb in Hst. change (storedForm (JObj b) = storedForm (JObj (p_boundParams g))) in Hst. by rewrite Hst.
  - by apply fresh_grant_is_found.
  - done.
Qed.
End Laws.

(** ** A concrete grant *)

(** A text that tells its parts apart. *)
Fixpoint spell_part (s rest : string) : string :=
  match s with EmptyString => String "0" rest | String c s => String "1" (String c (spell_part s rest)) end.
Definition spell_parts (l : list string) : string := foldr spell_part EmptyString l.
Lemma spell_part_inj s s' r r' : spell_part s r = spell_part s' r' -> s = s' /\ r = r'.
Proof.
  revert s'. induction s as [|c s IH]; intros [|c' s'] H; cbn in H; try discriminate H; injection H as H; [done|]. subst. by destruct (IH s') as [-> ->].
Qed.
Lemma spell_parts_inj x y : spell_parts x = spell_parts y -> x = y.
Proof.
  revert y. induction x as [|s x IH]; intros [|t y] H; cbn in H; [done|by destruct t|by destruct s|]. apply spell_part_inj in H as [-> H]. f_equal. by apply IH.
Qed.

Definition order_plan : PlannedPipeline :=
  {| pl_id := "w1"; steps := [sample_step "POST" "https://api.example.com/orders"]; mode := "autonomous";
     parameters := [JObj [("name", JStr "order"); ("type", JStr "string")]]; capabilityContract := None; reviewedGrant := None; confirmedAt := None |}%string.
Definition order_request : WorkflowGrantRequest :=
  {| r_method := JStr "POST"; r_host := JStr "api.example.com"; r_paths := JArr [JStr "/orders"; JStr "/notes"]; r_params := JObj [("order", JStr "7")];
     r_cron := "0 9 * * *"; r_afterUntrusted := JUndef |}%string.
Definition no_text : Q -> string := fun _ => ""%string.
Definition order_values : jval := JObj [("order"%string, JStr "7")].
Definition sample_prepare (req : WorkflowGrantRequest) : result PrepareError PreparedGrant :=
  prepareWorkflowGrant no_text spell_parts true sample_URL no_question no_question (fun _ => None) (fun _ => NaN) no_question order_plan req.
Definition order_prepared : PreparedGrant :=
  {| p_contract := sample_reviewed; p_boundParams := [("order", JStr "7")]; p_afterUntrusted := false;
     p_checksum := spell_parts (checksum_parts no_text {| k_contract := sample_reviewed; k_steps := steps order_plan; k_mode := "autonomous"; k_parameters := parameters order_plan;
       k_boundParams := [("order", JStr "7")]; k_cron := "0 9 * * *"; k_afterUntrusted := false |});
     p_binding := "keyed"; p_tuples := ["GET https://api.example.com/orders"; "POST https://api.example.com/orders"; "GET https://api.example.com/notes"; "POST https://api.example.com/notes"] |}%string.
Example the_order_is_offered : sample_prepare order_request = Ok order_prepared.
Proof. vm_compute. reflexivity. Qed.
Definition order_accepted : Acceptance :=
  {| a_req := order_request; a_checksum := JStr (p_checksum order_prepared); a_name := JUndef; a_by := "local"; a_triggerId := "t1"; a_grantId := "g1"; a_now := "2026-01-01T00:00:00.000Z" |}%string.
Definition order_start : Stores := {| workflows := [("w1", order_plan)]; triggers := []; grants := [] |}%string.
Definition order_events : list Event := [Elsewhere (workflows order_start) []; Accept order_plan order_accepted].
Abbreviation order_after := (Grant.after no_text spell_parts true sample_URL no_question no_question (fun _ => None) (fun _ => NaN) no_question (fun _ => None) order_events).
Definition order_stored : PlannedPipeline := default order_plan (jm_get (workflows order_after) "w1").
Definition order_parse : string -> option jval := fun _ => Some order_values.
Abbreviation order_decision := (Grant.decide_in no_text spell_parts true order_parse order_after order_stored (Schedule "t1" false)).
Example the_order_is_carried : order_decision = Granted sample_reviewed false "g1" [("order"%string, JStr "7")].
Proof. vm_compute. reflexivity. Qed.

Lemma only_an_accepted_grant_is_carried_witness : order_decision = Granted sample_reviewed false "g1" [("order"%string, JStr "7")] /\
  exists p0 a, Accept p0 a ∈ order_events /\ a_grantId a = "g1"%string.
Proof.
  assert (order_decision = Granted sample_reviewed false "g1" [("order"%string, JStr "7")]) as H by (vm_compute; reflexivity).
  split; [exact H|]. destruct (only_an_accepted_grant_is_carried no_text spell_parts true order_parse sample_URL no_question no_question (fun _ => None) (fun _ => NaN) no_question
    (fun _ => None) order_events order_stored (Schedule "t1" false) _ _ _ _ spell_parts_inj H) as (p0 & a & g & t & Hin & _ & _ & Hg & _).
  exists p0, a. split; [exact Hin|exact Hg].
Defined.

Lemma an_accepted_grant_is_carried_witness : exists s', forall by_,
  exists bound, Grant.decide_in no_text spell_parts true order_parse s' (default order_plan (jm_get (workflows s') "w1")) (Library by_) = Granted sample_reviewed false "g1" bound.
Proof.
  destruct (acceptWorkflowGrant no_text spell_parts true sample_URL no_question no_question (fun _ => None) (fun _ => NaN) no_question (fun _ => None) order_start order_plan order_accepted)
    as [s' r] eqn:E. exists s'. intros by_.
  assert (r = Accepted "t1") as -> by (apply (f_equal snd) in E; revert E; cbn [snd]; intros <-; vm_compute; reflexivity).
  destruct (an_accepted_grant_is_carried no_text spell_parts true order_parse sample_URL no_question no_question (fun _ => None) (fun _ => NaN) no_question
    (fun _ => None) order_start order_plan order_accepted s' "t1") as (g & p' & bound & Hg & Hp & _ & Hd); [|reflexivity|discriminate|exact E|].
  - intros g Hg. change (sample_prepare order_request = Ok g) in Hg. rewrite the_order_is_offered in Hg. injection Hg as <-. reflexivity.
  - exists bound. change (sample_prepare order_request = Ok g) in Hg. rewrite the_order_is_offered in Hg. injection Hg as <-.
    change (pl_id order_plan) with "w1"%string in Hp. rewrite Hp. apply (Hd (Library by_)). right. exists by_. reflexivity.
Defined.

(** A raw write that changes the steps withholds the contract, and so does an event from outside. *)
Example changed_steps_withhold : Grant.decide_in no_text spell_parts true order_parse order_after
  {| pl_id := "w1"; steps := [sample_step "POST" "https://api.example.com/notes"]; mode := "autonomous"; parameters := parameters order_plan;
     capabilityContract := capabilityContract order_stored; reviewedGrant := reviewedGrant order_stored; confirmedAt := None |} (Schedule "t1" false) = NotGranted (Some Changed).
Proof. vm_compute. reflexivity. Qed.
Example an_outside_event_withholds : Grant.decide_in no_text spell_parts true order_parse order_after order_stored (Webhook "t1" "e") = NotGranted (Some WebhookRun).
Proof. reflexivity. Qed.
